(* ===== verification/_CoqProject ===== *)
-Q . S2P
Prelude.v
Wire.v
Time.v
Timer.v
TimerProofs.v
TimerTheorems.v
TimerLoop.v
Tlv.v
TlvProofs.v
Strmap.v
Intmap.v
Utf8.v
Jsmn.v
JsonTree.v
JsmnProofs.v
Json.v
JsonProofs.v
Amount.v
AmountTheorems.v
JsonOut.v
JsonOutProofs.v
JsonScan.v
JsonEqual.v
JsonScanProofs.v
Libplugin.v
SyncRpc.v
Features.v
FeaturesProofs.v
WireTheorems.v
Ec.v
EcProofs.v
FramingProofs.v
Setsystems.v
Ecsys.v
EcsysProofs.v
Ecs.v
Systems.v
Param.v
PayecsData.v
PayecsCode.v
PayecsProofs.v
Replies.v
Plugin.v
PluginProofs.v
PluginTheorems.v
Handshake.v
HandshakeProofs.v
LibpluginTheorems.v
TesterRpc.v
Tester.v
Tests.v
TesterSystem.v
TesterProofs.v
TesterTheorems.v
JsonHelpers.v
LibpluginParse.v
GossipStore.v
Gossmap.v
GossmapProofs.v
GossmapTheorems.v
GossmapLoad.v
Localmods.v
Clist.v
Htable.v
HtableProofs.v
GossipFilter.v
Tal.v
TalProofs.v
Wireaddr.v
Gheap.v
GheapTheorems.v
Dijkstra.v
DijkstraProofs.v
RouteTheorems.v
HelpersTheorems.v
WireaddrProofs.v
EcTheorems.v
EcsTheorems.v
PayecsTheorems.v
JsonTheorems.v
