(* ===== verification/Prelude.v ===== *)
(** payz: a verification of the payment entity-component-system plugin.

    * The program

    payz is a plugin of lightningd.  It keeps a table of entities (payments in
    progress) with named components (JSON data), and a registry of systems: a
    system names the components it requires and those it disallows.  Advancing
    an entity triggers the first system of the entity's own list that matches,
    by a notification that lightningd broadcasts; built-in systems are C
    functions of the plugin, external ones are other plugins.  Commands read and
    write the table, register external systems, and advance entities.

    * The files

    The layers, bottom up; a file X is followed by XProofs where the lemmas are
    many, and otherwise ends with them.

    - Prelude: bytes, machine widths, the outcome of C code that may stop in an
      assertion ([Ret]/[Abort]) with its [let!] notation, decimal output, and the
      hint database [payz].
    - Clist (ccan/list): intrusive lists, a store of nodes with their two pointers,
      and the sequences the chains stand for.
    - Tal, TalProofs (ccan/tal/tal.c, ccan/take): the hierarchical allocator, with its
      property lists, destructors and notifiers, and the trees of objects it denotes.
    - Htable, HtableProofs (ccan/htable): the hash table over words with tag bits, and the
      multiset of pointers it stands for.
    - Wire (wire/wire.c, common/bigsize.c): the cursor and the formats
      of values.  The class [Wire] is a format, [WireLaws] its round trip; each
      type has its instance, and a pair is written one after another.
    - Time (ccan/time, ccan/ilog): times as seconds and nanoseconds, and the position
      of the highest bit.  Timer, TimerProofs (ccan/timer): the levels of
      buckets, with the finite map [tmap] from timers to times they stand for and
      the invariant [timers_reach] (reachable states).  TimerLoop: timers of
      plugins/libplugin.c, and what io_loop of ccan/io does about them.
    - Tlv, TlvProofs (bitcoin/short_channel_id, wire/tlvstream.c): streams of
      typed fields.
    - Strmap (ccan/strmap), Intmap (ccan/intmap, ccan/bitops): the crit-bit maps,
      with the finite map each denotes, neighbours, iteration and signed indices.
    - Utf8 (ccan/utf8, common/utils.c), Jsmn (external/jsmn): UTF-8 decoder, encoder
      and check, and tokenizer, byte by byte.
    - JsonTree: JSON values [jv] with their white space, their text, and the
      tokens the tokenizer makes of it.  This is the specification of the JSON
      layer.
    - JsmnProofs: the tokenizer run on the text of a value, as a step relation.
    - Json, JsonProofs (common/json.c): access to tokens, conversions, validation
      and [json_parse_simple].  [holds buf tk v]: the token pointer [tk] into
      [buf] stands for the value [v].
    - Amount (common/amount.c, common/fp16.c): satoshi and millisatoshi, and amounts
      rounded to 16 bits.
    - JsonOut, JsonOutProofs (ccan/json_out, ccan/json_escape, ccan/str/hex,
      common/json_stream.c, the json_add functions of common/json.c): output, as a relation between the
      bytes written and the members so far ([in_obj], [in_arr]).
    - JsonScan, JsonScanProofs (json_scan of common/json.c), JsonEqual
      (payz/json_equal.c, payz/parsing.c).
    - Libplugin (plugins/libplugin.c): replies, errors, notifications, requests,
      as a list of events, the conversions of options, and how messages are cut out of
      the bytes read ([reader]), over any handler (FramingProofs).  SyncRpc:
      requests that wait for their reply.
    - Features, FeaturesProofs (common/features.c): bit fields, with the finite set
      [fbits] each denotes.
    - Ec, EcProofs (payz/ecs/ec.c): the table, with [ec_map], the finite map it
      denotes, and the invariant [ec_wf].
    - Setsystems (payz/setsystems.c): the lightningd:systems component.  The C
      functions take the table's operations as arguments; here these are the
      class [EcOps], with the laws [EcLaws] that the table satisfies.
    - Ecsys, EcsysProofs (payz/ecs/ecsys.c): matching and advancing, proved
      against [EcLaws].
    - Ecs (payz/ecs/ecs.c): the table and the handler together,
      registration from arrays of descriptors, dispatch of notifications.
    - Systems (payz/systems): the built-in systems, one module per
      C file.
    - Param (common/param.c, common/json_tok.c): parameters of a
      command.
    - PayecsData (payz/payecs_data.c), PayecsCode (payz/payecs_code.c,
      payz/top.c), PayecsProofs, Replies: the commands, down to
      the bytes sent.
    - Plugin (the command tables, and ld_command_handle after the handshake, here
      [ld_dispatch], and handle_rpc_reply of plugins/libplugin.c): the plugin as
      lightningd drives it, one message at a time.  PluginProofs: every message preserves
      [plugin_wf], and the messages it handles to the end ([expected]).
    - Handshake, HandshakeProofs (payz/main.c, plugin_main, handle_getmanifest,
      handle_init and ld_command_handle of plugins/libplugin.c): the process from
      its start, on its two connections.
    - TesterRpc, TesterProofs (payz/tester/rpc.c): the RPC emulator of the test
      harness.  Tester (payz/tester/command.c, tester.c
      and loop.c): its connection to the plugin, its loop, and its commands, from
      which a test is a program [prog].  Tests (payz/tests): the eight test
      programs.  TesterSystem: the harness and the plugin as two processes with
      pipes between them, as a step relation.
    - JsonHelpers (common/json_helpers.c, common/node_id.c, common/channel_id.c,
      bitcoin/tx.c, bitcoin/privkey.c, texts of bitcoin/short_channel_id.c):
      lightning's types in JSON, hex and wire form.  LibpluginParse: the parsers of
      replies and the progress notifications of plugins/libplugin.c.
    - Wireaddr, WireaddrProofs (common/wireaddr.c, common/base32.c, ccan/str/base32, parts of
      ccan/str, ccan/tal/str and ccan/mem): network addresses on the wire, as text, as
      socket addresses and in JSON; the functions of the system are arguments.
    - GossipFilter (common/gossip_rcvd_filter.c): the two generations of received
      messages, a client of the hash table.
    - GossipStore (common/gossip_store.h, gossipd/gossip_store_wiregen): records and
      messages of the file that lightningd keeps of the network.  Gossmap,
      GossmapProofs (common/gossmap.c): the map that is read from it, two arrays
      with free lists and two hash tables; its invariant [wf], and the graph it
      stands for ([represents]).  GossmapLoad: the loop over the file.  Localmods:
      local modifications of the map.
    - Gheap (external/gheap): heaps with any fanout and pages, over the
      classes [HeapOrder] and [HeapShape].  Dijkstra, DijkstraProofs
      (common/dijkstra.c, common/route.c): the search over the map with such a heap,
      and the hops of a route.
    - TimerTheorems, GossmapTheorems, GheapTheorems,
      RouteTheorems, HelpersTheorems, PluginTheorems, TesterTheorems, LibpluginTheorems, EcTheorems, EcsTheorems, PayecsTheorems,
      JsonTheorems, WireTheorems, AmountTheorems: the properties.

    * The state

    [ec] is struct ec, [ecsys] the registry of systems, [ecs] both with the map
    of built-in functions, and [payz] the plugin's globals: the ecs, the default
    systems, the registry of external systems, and the trace.  [plugin] adds the
    requests that wait for a reply, each with the entity its callbacks were given,
    and the configured maximum delay; [libplugin] has the state of the handshake
    around it, and [reader] is one connection's buffer with its tokenizer.
    Operations take the state and return the new one; a C NULL is [None], an
    assertion that fails, a call of plugin_err or an exit is [Abort], and what is
    sent or logged is a list of [event]s.  A token pointer is the suffix of its
    array.  System calls of the handshake are the record [os].

    * The theorems

    - PluginTheorems: over all runs, from the start, the state is well formed
      whatever JSON comes in ([plugin_step], by induction on the run), no message
      that lightningd may send stops the plugin, two inputs excepted, and each
      command is answered exactly once.
    - LibpluginTheorems: the process as a whole.  Bytes that arrive in any pieces
      are handled like one message after another ([pieces_handled_as_whole]); the
      handshake ends with the plugin in the state the theorems of PluginTheorems
      start from ([handshake_completes]), and over all runs it serves only after
      the handshake ([process_runs]); the manifest is a JSON value that lists the
      tables ([getmanifest_reply]).
    - TesterTheorems: the repository's tests pass under every schedule
      ([tests_pass]): the steps of the two processes commute, so that one run that
      ends decides them all; the emulator matches requests with responses in order
      ([emulator_matches]).
    - WireTheorems: every format is read back; bigsize is a bijection; TLV streams
      and records round-trip; feature bits refine finite sets.
    - AmountTheorems: exact arithmetic, and texts that read back.  Amount: the two
      16-bit roundings bound an amount within a part in 1024 ([fp16_bounds]).
    - Clist: every operation on lists does to the chain what it should do to the
      sequence ([lists_refine]).  HtableProofs: the table finds exactly the pointers that
      were added and not deleted, through growth, rehashing and tombstones
      ([htable_refines]), for pointers that share their highest bit.  GossipFilter: the
      filter is two generations of keys ([filter_refines]).  TalProofs:
      allocation, stealing and freeing are those of a tree, and a freed object
      takes its subtree with it ([tal_refines]).  Utf8: what the encoder writes is
      decoded to the same code point ([utf8_encode_decode]).  WireaddrProofs: addresses are
      read back from their text ([address_text_roundtrip], against the record [Inet] of what
      inet_ntop and inet_pton are documented to do), from the wire
      ([wireaddr_wire_roundtrip]) and from base32 ([b32_roundtrip]).
    - TimerTheorems: the timers are a priority queue ([timers_refine]).  TimerLoop:
      the loop waits for the first timer and not longer ([loop_waits_for_first]).
    - GossmapTheorems: each message changes the graph as it says ([gossmap_refines]);
      an update never lets more pass than it allows ([update_conservative]).
      GossmapLoad: a load and any refreshes read the whole store ([store_followed]).
      Localmods: modifications come off again ([localmods_restore]).
      GossipStore: messages are read back ([gossip_store_roundtrip]).
    - GheapTheorems: heap sort ([heap_sorts]).  RouteTheorems: every route that is
      found is a chain of usable channels with the right amounts and delays, and the
      search ends ([routes_valid]), for any score that grows along a path.
    - HelpersTheorems: channel ids as text ([scid_text_roundtrip]); the reply to
      listpeers ([listpeers_one_peer]).
    - EcTheorems: the table refines a finite map under setting, detaching and
      reading; the crit-bit maps refine finite maps; names come out sorted; the
      bounds cover all entities; wrap-around of the 32-bit counter.
    - EcsTheorems: a system matches exactly when it should; an advance triggers
      the first match or records a documented error, and never stops the process;
      registration adds exactly what is declared; a notification reaches the
      function it was made for; what each built-in system does to its entity.
    - PayecsTheorems: setcomponents is a compare-and-swap; listentities lists what
      it selects; registration of external systems is idempotent; the trace is
      bounded; the advance command always replies.
    - JsonTheorems: parsing inverts printing; the parser terminates on any input;
      json_equal decides equality; strings and numbers survive output and input;
      json_scan extracts fields.

    Some theorems state what the code does where that is not what it means to do:
    the deletion loop of an exact write ([exact_write_deletes_one]), the filter of
    disallowed components ([listentities_reply]), the system that matches
    again after it ran ([promote_matches_again]), the registration that stops the
    process ([ecs_register_disallow_alone]), the two wrap-arounds, the number that
    is cut by a read ([number_cut_by_read]), the loop that a notification blocks
    ([notification_blocks_rpc]), the truncated integers that are not found again
    ([tlv_tu64_lost]), the cut of [agreed_features], [amount_surprises], the loop of
    [listpeers_one_peer], the modification of an unknown channel
    ([unknown_localmod]), fees that do not fit ([local_fee_cut]), a risk without a
    price ([unpriced_risk]), the hash table that loses a small pointer
    ([small_pointer_lost]), ports that are cut and an unknown type that is
    taken ([port_cut_and_junk_skipped], [unknown_service_taken]), and in the harness [socket_read_blocks] and [clear_leaves_dangling].

    * Fuel

    Loops over the input take fuel from its length.  The tokenizer moves forward
    at each step, so that the length of the input is enough, and more fuel changes
    nothing (JsmnProofs, [loop_fuel]); the doubling loop needs fewer attempts than
    the input has bytes, plus two (JsonProofs, [parse_again_result]); json_next,
    json_equal and the validation recurse over tokens, each at least one shorter;
    json_scan recurses over its guide; the loop that reads messages takes at least
    a byte out of the buffer at each round; a TLV field takes at least two bytes.
    [timers_expire] needs two rounds, for times below 2^60 microseconds, above which
    the code shifts too far; the loop over the store has a round for each byte it
    may read ([catchup_spec]); the hole of a heap moves to a smaller or a larger
    index; the search takes a node out of the heap at each round, and a route has
    as many hops as there are nodes at most.
    The probing loops of the hash table have a round for each slot, and a slot is
    always left empty; the walk that frees a tree has one for each object.
    The one loop that need not end is that of read_rpc_reply, where the fuel is the
    number of rounds: one is enough for a reply, and none for a message without
    an id.  The tests are run with room for 300 steps, where the longest takes 68,
    and the loops of a test that wait for the plugin with 50 rounds.  The theorems about these functions show
    that they return the result, and not only that it is right when they do.

    * What is not modelled

    The io plans that write queued output, and the memory-leak checks of
    libplugin; floating-point
    scaling of amounts, and with it risk_price, which is an argument of the search;
    reading on in a new file after the record that ends the old one is modelled
    but [store_followed] is about one file; public keys, signatures and transactions, which are those
    of libsecp256k1 and libwally (the test of a public key is an argument); allocation that
    fails (tal stops the process then), clean-up and dumps of tal, and destructors
    that call tal themselves: the components above Tal take an allocated object as a value;
    the hash tables inside Gossmap, which are sets there, since its
    pointers 1, 2, 3 and so on do not share their highest bit; processes, pipes and time-outs of the harness, beyond
    their results.  Values
    from outside are arguments: random bytes, the clock, system calls, and the
    calls of other plugins.  Strict mode, parent links and the counting mode of
    jsmn, and developer builds, are compiled out of the program and left out here.

    * Next

    The remaining operations of the maps and of json.c, the optimality of routes, and
    the plans of ccan/io. *)

From Stdlib Require Export ZArith Lia Ascii.
From stdpp Require Export base list gmap strings.
From stdpp Require Import numbers.

(** * Bytes and C strings

    A buffer is a list of bytes; a C string is a buffer without NUL bytes. *)

Abbreviation bytes := (list ascii).

Definition bs (s : string) : bytes := String.list_ascii_of_string s.

Definition code (c : ascii) : Z := Z.of_N (N_of_ascii c).
Definition chr (z : Z) : ascii := ascii_of_N (Z.to_N z).

Definition NUL : ascii := chr 0.
Definition TAB : ascii := chr 9.
Definition LF : ascii := chr 10.
Definition CR : ascii := chr 13.
Definition SPACE : ascii := chr 32.
Definition DQUOTE : ascii := chr 34.
Definition BACKSLASH : ascii := chr 92.

Lemma code_range (c : ascii) : (0 <= code c < 256)%Z.
Proof. unfold code. pose proof (N_ascii_bounded c). lia. Qed.

Lemma code_inj (c d : ascii) : code c = code d -> c = d.
Proof.
  unfold code. intros H. rewrite <- (ascii_N_embedding c), <- (ascii_N_embedding d). f_equal. lia.
Qed.

Lemma code_chr (z : Z) : (0 <= z < 256)%Z -> code (chr z) = z.
Proof. intros H. unfold code, chr. rewrite N_ascii_embedding by lia. lia. Qed.

Lemma code_nul (c : ascii) : code c = 0%Z -> c = NUL.
Proof. intros H. by apply code_inj. Qed.

Definition ch_eqb (a b : ascii) : bool := Ascii.eqb a b.
Definition ch_in (c : ascii) (l : bytes) : bool := existsb (Ascii.eqb c) l.

Definition len (b : bytes) : Z := Z.of_nat (length b).

(** [b[start..end)], the bytes a pair of offsets denotes. *)
Definition slice (b : bytes) (s e : Z) : bytes :=
  take (Z.to_nat (e - s)) (drop (Z.to_nat s) b).

(** [streq]: equality of C strings. *)
Definition streq (a b : bytes) : bool := bool_decide (a = b).

(** [strnlen]/[tal_strndup]: a C string stops at the first NUL. *)
Fixpoint until_nul (b : bytes) : bytes :=
  match b with
  | [] => []
  | c :: r => if ch_eqb c NUL then [] else c :: until_nul r
  end.

Definition no_nul (b : bytes) : Prop := Forall (fun c => c <> NUL) b.

Definition isdigit (c : ascii) : bool := (48 <=? code c)%Z && (code c <=? 57)%Z.
Definition isxdigit (c : ascii) : bool :=
  isdigit c || ((65 <=? code c)%Z && (code c <=? 70)%Z)
            || ((97 <=? code c)%Z && (code c <=? 102)%Z).

(** * Machine integers *)

Definition u32_mod : Z := 4294967296.
Definition u64_mod : Z := 18446744073709551616.
Definition wrap32 (z : Z) : Z := (z mod u32_mod)%Z.
Definition wrap64 (z : Z) : Z := (z mod u64_mod)%Z.

(** * Outcomes: a C function either returns or stops the process in a
    failed [assert] or a call of [abort]. *)

Inductive outcome (A : Type) : Type :=
| Ret (a : A)
| Abort (where_ : string).
Arguments Ret {A} a.
Arguments Abort {A} where_.

Definition obind {A B : Type} (x : outcome A) (f : A -> outcome B) : outcome B :=
  match x with
  | Ret a => f a
  | Abort w => Abort w
  end.

Lemma obind_ret {A B : Type} (x : outcome A) (f : A -> outcome B) b :
  obind x f = Ret b -> exists a, x = Ret a /\ f a = Ret b.
Proof. destruct x as [a|]; [by exists a|done]. Qed.

Definition assert_ (b : bool) (w : string) : outcome unit :=
  if b then Ret tt else Abort w.

Declare Scope c_scope.
Delimit Scope c_scope with c.
Notation "'let!' x := c1 'in' c2" := (obind c1 (fun x => c2))
  (at level 10, x pattern, c1 at level 100, c2 at level 200) : c_scope.
Open Scope c_scope.

(** A C loop over a list whose body may stop the process. *)
Fixpoint ofold {A B : Type} (f : A -> B -> outcome A) (a : A) (l : list B) : outcome A :=
  match l with
  | [] => Ret a
  | x :: r => let! a' := f a x in ofold f a' r
  end.

Lemma ofold_app {A B : Type} (f : A -> B -> outcome A) a l k :
  ofold f a (l ++ k) = let! a' := ofold f a l in ofold f a' k.
Proof. revert a. induction l as [|x l IH]; intros a; simpl; [done|]. destruct (f a x) as [a1|w]; simpl; [apply IH|done]. Qed.

Lemma until_nul_id (b : bytes) : no_nul b -> until_nul b = b.
Proof.
  induction 1 as [|c r Hc _ IH]; [done|]. simpl. unfold ch_eqb. destruct (Ascii.eqb_spec c NUL); [done|by rewrite IH].
Qed.

Lemma until_nul_no_nul (b : bytes) : no_nul (until_nul b).
Proof.
  induction b as [|c r IH]; simpl; [constructor|]. unfold ch_eqb. destruct (Ascii.eqb_spec c NUL); constructor; done.
Qed.

(** A loop that stops at the first element that fails. *)
Fixpoint oall {A : Type} (f : A -> outcome bool) (l : list A) : outcome bool :=
  match l with
  | [] => Ret true
  | x :: r => let! b := f x in if b : bool then oall f r else Ret false
  end.

Lemma oall_Forall2 {A B : Type} (R : A -> B -> Prop) (f : A -> outcome bool) (g : B -> bool) l k :
  Forall2 R l k -> (forall a b, R a b -> b ∈ k -> f a = Ret (g b)) -> oall f l = Ret (forallb g k).
Proof.
  induction 1 as [|a b l k Hab _ IH]; intros Hf; [done|]. simpl. rewrite (Hf a b) by (done || set_solver). simpl.
  destruct (g b); [|done]. apply IH. intros; apply Hf; [done|set_solver].
Qed.

(** Decidable test for NUL bytes, for literals. *)
Lemma no_nul_true (b : bytes) : forallb (fun c => negb (ch_eqb c NUL)) b = true -> no_nul b.
Proof.
  rewrite forallb_forall. intros H. apply Forall_forall. intros c Hc ->. by apply H in Hc.
Qed.

(** * Decimal output of an unsigned integer: printf's [%u] *)

Definition digit (d : Z) : ascii := chr (48 + d).

Fixpoint fmt_u_go (fuel : nat) (z : Z) : bytes :=
  match fuel with
  | O => []
  | S f => if (z <? 10)%Z then [digit z] else fmt_u_go f (z / 10) ++ [digit (z mod 10)]
  end.

(** Twenty digits are enough for any 64-bit value. *)
Definition fmt_u (z : Z) : bytes := fmt_u_go 20 z.

(** * Bits *)

(** Words that agree above a bit compare by that bit. *)
Lemma bit_lt (x y i : Z) :
  (0 <= x)%Z -> (0 <= y)%Z -> (0 <= i)%Z -> Z.testbit x i = false -> Z.testbit y i = true ->
  (forall j, (i < j)%Z -> Z.testbit x j = Z.testbit y j) -> (x < y)%Z.
Proof.
  intros Hx Hy Hi Bx By Hj.
  assert (E : Z.shiftr x (i + 1) = Z.shiftr y (i + 1)).
  { apply Z.bits_inj'. intros n Hn. rewrite !Z.shiftr_spec by lia. apply Hj. lia. }
  assert (D : forall z, (0 <= z)%Z ->
    Z.shiftr z i = (2 * Z.shiftr z (i + 1) + Z.b2z (Z.testbit z i))%Z).
  { intros z Hz. rewrite <- Z.shiftr_shiftr by lia. rewrite (Z.shiftr_div_pow2 _ 1) by lia.
    change (2 ^ 1)%Z with 2%Z. rewrite (Z.testbit_spec' z i) by lia.
    rewrite <- Z.shiftr_div_pow2 by lia. apply Z.div_mod. lia. }
  pose proof (D x Hx) as Dx. pose proof (D y Hy) as Dy. rewrite Bx in Dx. rewrite By, <- E in Dy. simpl in *.
  rewrite !Z.shiftr_div_pow2 in Dx, Dy by lia.
  destruct (decide (x < y)%Z); [done|]. pose proof (Z.div_le_mono y x (2 ^ i) ltac:(lia) ltac:(lia)). lia.
Qed.

(** Two fields of a word, packed. *)
Lemma pack_fields k e m : (0 <= k)%Z -> (0 <= m < 2 ^ k)%Z -> Z.lor (Z.shiftl e k) m = (e * 2 ^ k + m)%Z.
Proof.
  intros Hk Hm. rewrite Z.shiftl_mul_pow2 by lia.
  assert (HL : Z.land (e * 2 ^ k) m = 0%Z).
  { apply Z.bits_inj'. intros i Hi. rewrite Z.land_spec, Z.bits_0, Z.mul_pow2_bits by lia.
    destruct (Z.ltb_spec i k); [by rewrite Z.testbit_neg_r by lia|].
    rewrite <- (Z.mod_small m (2 ^ k)), Z.mod_pow2_bits_high by lia. apply andb_false_r. }
  pose proof (Z.add_lor_land (e * 2 ^ k) m). lia.
Qed.

(** * Automation *)

Create HintDb payz.
#[export] Hint Extern 1 (no_nul (bs _)) => apply no_nul_true; reflexivity : payz.

(** Case analysis on every boolean or option the goal or a hypothesis is
    stuck on. *)
Ltac case_all :=
  repeat match goal with
  | H : context [match ?x with _ => _ end] |- _ => destruct x eqn:?; simplify_eq/=
  | |- context [match ?x with _ => _ end] => destruct x eqn:?; simplify_eq/=
  end.
