(* ===== verification/Wire.v ===== *)
(** wire/wire.c and common/bigsize.c: the wire format of numbers and arrays.

    A cursor is the bytes between the C cursor and its maximum; [None] is the
    NULL that [fromwire_fail] leaves.  Writing appends to an array, so that a
    writer is the bytes it appends. *)
From S2P Require Import Prelude.

Abbreviation cursor := (option bytes).

(** * Big-endian numbers *)

(** [cpu_to_be16] and [cpu_to_be64]: the last [n] bytes of [v]. *)
Fixpoint to_be (n : nat) (v : Z) : bytes :=
  match n with
  | O => []
  | S k => chr (v / 256 ^ Z.of_nat k mod 256) :: to_be k v
  end.

Definition from_be (b : bytes) : Z := foldl (fun a c => a * 256 + code c)%Z 0%Z b.

(** * wire.c *)

(** [fromwire]: the [n] bytes copied, zeros where there are too few. *)
Definition fromwire (c : cursor) (n : nat) : bytes * cursor :=
  match c with
  | Some b => if length b <? n then (repeat NUL n, None) else (take n b, Some (drop n b))
  | None => (repeat NUL n, None)
  end.

Definition towire (data : bytes) : bytes := data.

Definition fromwire_u64 (c : cursor) : Z * cursor := let '(b, c') := fromwire c 8 in (from_be b, c').
Definition fromwire_u16 (c : cursor) : Z * cursor := let '(b, c') := fromwire c 2 in (from_be b, c').
Definition fromwire_u8 (c : cursor) : Z * cursor := let '(b, c') := fromwire c 1 in (from_be b, c').

(** A byte other than 0 and 1 fails, and is still returned as true. *)
Definition fromwire_bool (c : cursor) : bool * cursor :=
  let '(ret, c') := fromwire_u8 c in
  (negb (ret =? 0)%Z, if (ret =? 0)%Z || (ret =? 1)%Z then c' else None).

Definition fromwire_sha256 (c : cursor) : bytes * cursor := fromwire c 32.
Definition fromwire_u8_array (c : cursor) (num : nat) : bytes * cursor := fromwire c num.

(** [None] is NULL. *)
Definition fromwire_tal_arrn (c : cursor) (num : nat) : option bytes * cursor :=
  if num =? 0 then (None, c)
  else
    match c with
    | Some b => if length b <? num then (None, None) else let '(arr, c') := fromwire_u8_array c num in (Some arr, c')
    | None => (None, None)
    end.

Definition towire_u64 (v : Z) : bytes := towire (to_be 8 v).
Definition towire_u16 (v : Z) : bytes := towire (to_be 2 v).
Definition towire_u8 (v : Z) : bytes := towire (to_be 1 v).
Definition towire_bool (v : bool) : bytes := towire (to_be 1 (if v then 1 else 0)).
Definition towire_sha256 (sha256 : bytes) : bytes := towire sha256.
Definition towire_u8_array (arr : bytes) : bytes := towire arr.

(** [fromwire_tlv_uint]: all that is left, without a leading zero. *)
Definition fromwire_tlv_uint (c : cursor) (maxlen : nat) : Z * cursor :=
  let length := match c with Some b => length b | None => 0 end in
  if maxlen <? length then (0%Z, None)
  else
    let '(b, c') := fromwire c length in
    match b with
    | x :: _ => if ch_eqb x NUL then (0%Z, None) else (from_be b, c')
    | [] => (0%Z, c')
    end.

Definition fromwire_tu64 (c : cursor) : Z * cursor := fromwire_tlv_uint c 8.

Fixpoint skip_zeros (b : bytes) : bytes :=
  match b with x :: r => if ch_eqb x NUL then skip_zeros r else b | [] => [] end.

Definition towire_tlv_uint (v : Z) : bytes := towire (skip_zeros (to_be 8 v)).
Definition towire_tu64 (v : Z) : bytes := towire_tlv_uint v.

(** [None] is -1. *)
Definition fromwire_peektype (b : bytes) : option Z :=
  let '(t, c) := fromwire (Some b) 2 in match c with Some _ => Some (from_be t) | None => None end.

(** * bigsize.c *)

Definition bigsize_len (v : Z) : nat :=
  if (v <? 253)%Z then 1 else if (v <=? 65535)%Z then 3 else if (v <=? 4294967295)%Z then 5 else 9.

Definition bigsize_put (v : Z) : bytes :=
  if (v <? 253)%Z then to_be 1 v
  else if (v <=? 65535)%Z then chr 253 :: to_be 2 v
  else if (v <=? 4294967295)%Z then chr 254 :: to_be 4 v
  else chr 255 :: to_be 8 v.

(** The value after a prefix byte, in [n] bytes; [least] is the first one that
    needs them. *)
Definition bigsize_rest (n : nat) (least : Z) (p : bytes) : option (nat * Z) :=
  if length p <? n then None
  else let v := from_be (take n p) in if (v <? least)%Z then None else Some (S n, v).

(** [bigsize_get]: [None] is 0; otherwise the length read and the value. *)
Definition bigsize_get (p : bytes) : option (nat * Z) :=
  match p with
  | [] => None
  | c :: r =>
      if (code c =? 253)%Z then bigsize_rest 2 253 r
      else if (code c =? 254)%Z then bigsize_rest 4 65536 r
      else if (code c =? 255)%Z then bigsize_rest 8 4294967296 r
      else Some (1, code c)
  end.

Definition fromwire_bigsize (c : cursor) : Z * cursor :=
  match c with
  | None => (0%Z, None)
  | Some b =>
      match bigsize_get b with
      | None => (0%Z, None)
      | Some (n, v) => (v, (fromwire c n).2)
      end
  end.

Definition towire_bigsize (val : Z) : bytes := towire (bigsize_put val).

(** * Formats *)

(** A type with a writer and a reader; [wire_ok] holds of the values the writer
    is meant for. *)
Class Wire (A : Type) := { to_wire : A -> bytes; from_wire : cursor -> A * cursor; wire_ok : A -> Prop }.

(** Reading gives back what was written and stops behind it; a failed cursor
    stays failed. *)
Class WireLaws (A : Type) `{!Wire A} := {
  wire_roundtrip : forall x rest, wire_ok x -> from_wire (Some (to_wire x ++ rest)) = (x, Some rest);
  wire_failed : (from_wire None).2 = None }.

(** Numbers of three widths, told apart by their types. *)
Record u8 : Type := U8 { u8_val : Z }.
Record u16 : Type := U16 { u16_val : Z }.
Record u64 : Type := U64 { u64_val : Z }.
Record bigsize : Type := Bigsize { bigsize_val : Z }.
Record sha256 : Type := Sha256 { sha256_bytes : bytes }.

#[export] Instance wire_u8 : Wire u8 :=
  {| to_wire x := towire_u8 (u8_val x); from_wire c := let '(v, c') := fromwire_u8 c in (U8 v, c'); wire_ok x := (0 <= u8_val x < 256)%Z |}.
#[export] Instance wire_u16 : Wire u16 :=
  {| to_wire x := towire_u16 (u16_val x); from_wire c := let '(v, c') := fromwire_u16 c in (U16 v, c'); wire_ok x := (0 <= u16_val x < 65536)%Z |}.
#[export] Instance wire_u64 : Wire u64 :=
  {| to_wire x := towire_u64 (u64_val x); from_wire c := let '(v, c') := fromwire_u64 c in (U64 v, c'); wire_ok x := (0 <= u64_val x < u64_mod)%Z |}.
#[export] Instance wire_bool : Wire bool := {| to_wire := towire_bool; from_wire := fromwire_bool; wire_ok _ := True |}.
#[export] Instance wire_bigsize : Wire bigsize :=
  {| to_wire x := towire_bigsize (bigsize_val x); from_wire c := let '(v, c') := fromwire_bigsize c in (Bigsize v, c');
     wire_ok x := (0 <= bigsize_val x < u64_mod)%Z |}.
#[export] Instance wire_sha256 : Wire sha256 :=
  {| to_wire x := towire_sha256 (sha256_bytes x); from_wire c := let '(v, c') := fromwire_sha256 c in (Sha256 v, c');
     wire_ok x := length (sha256_bytes x) = 32 |}.

(** One after another. *)
#[export] Instance wire_pair {A B : Type} `{!Wire A, !Wire B} : Wire (A * B) :=
  {| to_wire x := to_wire x.1 ++ to_wire x.2;
     from_wire c := let '(a, c1) := from_wire c in let '(b, c2) := from_wire c1 in ((a, b), c2);
     wire_ok x := wire_ok x.1 /\ wire_ok x.2 |}.

(** * Round trips

    The wire format of numbers: every instance satisfies the laws, and a bigsize
    is accepted in its shortest form only. *)

(** * Big-endian numbers *)

Lemma length_to_be n v : length (to_be n v) = n.
Proof. induction n as [|n IH]; [done|]. cbn. by rewrite IH. Qed.

Lemma from_be_go b : forall a, foldl (fun a c => a * 256 + code c)%Z a b = (a * 256 ^ len b + from_be b)%Z.
Proof.
  unfold from_be. induction b as [|c b IH]; intros a; cbn [foldl]; [unfold len; cbn; lia|].
  rewrite IH. rewrite (IH (0 * 256 + code c)%Z). replace (len (c :: b)) with (len b + 1)%Z by (unfold len; cbn [length]; lia).
  rewrite Z.pow_add_r by (unfold len; lia). lia.
Qed.

Lemma from_be_cons c b : from_be (c :: b) = (code c * 256 ^ len b + from_be b)%Z.
Proof. unfold from_be at 1. cbn [foldl]. by rewrite from_be_go. Qed.

Lemma from_be_range b : (0 <= from_be b < 256 ^ len b)%Z.
Proof.
  induction b as [|c b IH]; [done|]. rewrite from_be_cons. pose proof (code_range c).
  replace (len (c :: b)) with (len b + 1)%Z by (unfold len; cbn [length]; lia). rewrite Z.pow_add_r by (unfold len; lia). nia.
Qed.

Lemma from_to_be n v : from_be (to_be n v) = (v mod 256 ^ Z.of_nat n)%Z.
Proof.
  induction n as [|n IH]; [cbn; by rewrite Z.mod_1_r|]. cbn [to_be]. rewrite from_be_cons, IH.
  unfold len. rewrite length_to_be, code_chr by (apply Z.mod_pos_bound; lia).
  replace (Z.of_nat (S n)) with (Z.of_nat n + 1)%Z by lia. rewrite Z.pow_add_r, Z.pow_1_r by lia.
  rewrite (Z.rem_mul_r v (256 ^ Z.of_nat n) 256) by lia. lia.
Qed.

Lemma from_to_be_id n v : (0 <= v < 256 ^ Z.of_nat n)%Z -> from_be (to_be n v) = v.
Proof. intros H. rewrite from_to_be. by apply Z.mod_small. Qed.

Lemma to_from_be b : to_be (length b) (from_be b) = b.
Proof.
  assert (H : forall b q, to_be (length b) (q * 256 ^ len b + from_be b) = b).
  { clear b. induction b as [|c b IH]; intros q; [done|]. cbn [length to_be]. rewrite from_be_cons. pose proof (code_range c). pose proof (from_be_range b).
    replace (len (c :: b)) with (len b + 1)%Z by (unfold len; cbn [length]; lia). rewrite Z.pow_add_r, Z.pow_1_r by (unfold len; lia).
    replace (q * (256 ^ len b * 256) + (code c * 256 ^ len b + from_be b))%Z with ((q * 256 + code c) * 256 ^ len b + from_be b)%Z by lia.
    rewrite IH. f_equal. change (Z.of_nat (length b)) with (len b). rewrite Z.div_add_l, (Z.div_small (from_be b)) by lia.
    rewrite Z.add_0_r, Z.add_comm, Z.mod_add, Z.mod_small by lia. apply code_inj. by rewrite code_chr. }
  specialize (H b 0%Z). by rewrite Z.mul_0_l, Z.add_0_l in H.
Qed.

(** * The instances *)

Lemma fromwire_app a r : fromwire (Some (a ++ r)) (length a) = (a, Some r).
Proof.
  cbn [fromwire]. rewrite (proj2 (Nat.ltb_ge _ _)) by (rewrite length_app; lia). by rewrite take_app_length, drop_app_length.
Qed.

Lemma fromwire_be n v r : (0 <= v < 256 ^ Z.of_nat n)%Z -> fromwire (Some (to_be n v ++ r)) n = (to_be n v, Some r).
Proof. intros _. rewrite <- (length_to_be n v) at 2. apply fromwire_app. Qed.

#[export] Instance wire_u8_laws : WireLaws u8.
Proof.
  split; [|done]. intros [v] rest H. cbn [to_wire from_wire wire_u8 wire_ok u8_val] in *. unfold fromwire_u8, towire_u8, towire.
  rewrite fromwire_be by (cbn; lia). by rewrite from_to_be_id by (cbn; lia).
Qed.

#[export] Instance wire_u16_laws : WireLaws u16.
Proof.
  split; [|done]. intros [v] rest H. cbn [to_wire from_wire wire_u16 wire_ok u16_val] in *. unfold fromwire_u16, towire_u16, towire.
  rewrite fromwire_be by (cbn; lia). by rewrite from_to_be_id by (cbn; lia).
Qed.

#[export] Instance wire_u64_laws : WireLaws u64.
Proof.
  split; [|done]. intros [v] rest H. cbn [to_wire from_wire wire_u64 wire_ok u64_val] in *. unfold fromwire_u64, towire_u64, towire, u64_mod in *.
  rewrite fromwire_be by (cbn; lia). by rewrite from_to_be_id by (cbn; lia).
Qed.

#[export] Instance wire_bool_laws : WireLaws bool.
Proof. split; [|done]. intros [] rest _; reflexivity. Qed.

#[export] Instance wire_sha256_laws : WireLaws sha256.
Proof.
  split; [|done]. intros [b] rest H. cbn [to_wire from_wire wire_sha256 wire_ok sha256_bytes] in *. unfold fromwire_sha256, towire_sha256, towire.
  by rewrite <- H, fromwire_app.
Qed.

(** ** bigsize *)

Lemma bigsize_rest_to_be n least v r :
  (least <= v < 256 ^ Z.of_nat n)%Z -> (0 <= least)%Z -> bigsize_rest n least (to_be n v ++ r) = Some (S n, v).
Proof.
  intros H Hl. unfold bigsize_rest. rewrite length_app, length_to_be. rewrite (proj2 (Nat.ltb_ge _ _)) by lia.
  rewrite take_app_length', from_to_be_id by (rewrite ?length_to_be; lia). by rewrite (proj2 (Z.ltb_ge _ _)) by lia.
Qed.

Lemma bigsize_get_put v rest : (0 <= v < u64_mod)%Z -> bigsize_get (bigsize_put v ++ rest) = Some (length (bigsize_put v), v).
Proof.
  intros H. unfold bigsize_put, u64_mod in *. destruct (Z.ltb_spec v 253).
  { cbn [to_be app]. change (256 ^ Z.of_nat 0)%Z with 1%Z. rewrite Z.div_1_r, Z.mod_small by lia. cbn [bigsize_get length]. rewrite code_chr by lia.
    by rewrite !(proj2 (Z.eqb_neq _ _)) by lia. }
  destruct (Z.leb_spec v 65535); [|destruct (Z.leb_spec v 4294967295)]; cbn [app bigsize_get length]; rewrite length_to_be.
  - change (code (chr 253)) with 253%Z. cbn [Z.eqb Pos.eqb]. apply bigsize_rest_to_be; cbn; lia.
  - change (code (chr 254)) with 254%Z. cbn [Z.eqb Pos.eqb]. apply bigsize_rest_to_be; cbn; lia.
  - change (code (chr 255)) with 255%Z. cbn [Z.eqb Pos.eqb]. apply bigsize_rest_to_be; cbn; lia.
Qed.

Lemma length_bigsize_put v : length (bigsize_put v) = bigsize_len v.
Proof. unfold bigsize_put, bigsize_len. repeat case_match; cbn [length]; by rewrite length_to_be. Qed.

Lemma bigsize_rest_inv n least p k v :
  bigsize_rest n least p = Some (k, v) -> k = S n /\ n <= length p /\ take n p = to_be n v /\ (least <= v < 256 ^ Z.of_nat n)%Z.
Proof.
  unfold bigsize_rest. destruct (Nat.ltb_spec (length p) n); [done|]. destruct (Z.ltb_spec (from_be (take n p)) least); [done|]. intros [= <- <-].
  assert (Hl : length (take n p) = n) by (rewrite length_take; lia). split_and!; [done|done| |done|].
  - rewrite <- Hl at 2. by rewrite to_from_be.
  - pose proof (from_be_range (take n p)) as HR. unfold len in HR. rewrite Hl in HR. lia.
Qed.

(** Only the shortest form is accepted. *)
Lemma bigsize_canonical p n v : bigsize_get p = Some (n, v) -> take n p = bigsize_put v /\ n <= length p /\ (0 <= v < u64_mod)%Z.
Proof.
  destruct p as [|c r]; [done|]. cbn [bigsize_get]. unfold bigsize_put, u64_mod. pose proof (code_range c).
  destruct (Z.eqb_spec (code c) 253) as [E|]; [|destruct (Z.eqb_spec (code c) 254) as [E|]; [|destruct (Z.eqb_spec (code c) 255) as [E|]]].
  - intros (-> & Hl & Ht & Hv)%bigsize_rest_inv. change (256 ^ Z.of_nat 2)%Z with 65536%Z in Hv. rewrite (proj2 (Z.ltb_ge _ _)), (proj2 (Z.leb_le _ _)) by lia.
    cbn [take length]. rewrite Ht. split_and!; [f_equal; apply code_inj; by rewrite E|lia|lia|lia].
  - intros (-> & Hl & Ht & Hv)%bigsize_rest_inv. change (256 ^ Z.of_nat 4)%Z with 4294967296%Z in Hv.
    rewrite (proj2 (Z.ltb_ge _ _)), (proj2 (Z.leb_gt v 65535)), (proj2 (Z.leb_le _ _)) by lia.
    cbn [take length]. rewrite Ht. split_and!; [f_equal; apply code_inj; by rewrite E|lia|lia|lia].
  - intros (-> & Hl & Ht & Hv)%bigsize_rest_inv. change (256 ^ Z.of_nat 8)%Z with 18446744073709551616%Z in Hv.
    rewrite (proj2 (Z.ltb_ge _ _)), (proj2 (Z.leb_gt v 65535)), (proj2 (Z.leb_gt v 4294967295)) by lia.
    cbn [take length]. rewrite Ht. split_and!; [f_equal; apply code_inj; by rewrite E|lia|lia|lia].
  - intros [= <- <-]. rewrite (proj2 (Z.ltb_lt _ _)) by lia. cbn [take length to_be]. change (256 ^ Z.of_nat 0)%Z with 1%Z.
    rewrite Z.div_1_r, Z.mod_small by lia. split_and!; [f_equal; apply code_inj; by rewrite code_chr|lia|lia|lia].
Qed.

#[export] Instance wire_bigsize_laws : WireLaws bigsize.
Proof.
  split; [|done]. intros [v] rest H. cbn [to_wire from_wire wire_bigsize wire_ok bigsize_val] in *. unfold fromwire_bigsize, towire_bigsize, towire.
  rewrite bigsize_get_put, fromwire_app by done. done.
Qed.

#[export] Instance wire_pair_laws {A B : Type} `{WireLaws A, WireLaws B} : WireLaws (A * B).
Proof.
  split.
  - intros [a b] rest [Ha Hb]. cbn [to_wire from_wire wire_pair fst snd] in *. by rewrite <- app_assoc, (wire_roundtrip a), (wire_roundtrip b).
  - cbn [from_wire wire_pair]. pose proof (wire_failed (A := A)) as HA. destruct (from_wire None) as [a c]. cbn in HA. subst c.
    pose proof (wire_failed (A := B)) as HB. by destruct (from_wire None) as [b c].
Qed.

(** ** Numbers without a length *)

Lemma from_be_skip b : from_be (skip_zeros b) = from_be b.
Proof.
  induction b as [|c b IH]; [done|]. cbn [skip_zeros]. destruct (ch_eqb c NUL) eqn:E; [|done]. apply Ascii.eqb_eq in E as ->.
  rewrite IH, from_be_cons. change (code NUL) with 0%Z. lia.
Qed.

Lemma skip_zeros_head b c r : skip_zeros b = c :: r -> ch_eqb c NUL = false.
Proof. induction b as [|x b IH]; [done|]. cbn [skip_zeros]. destruct (ch_eqb x NUL) eqn:E; [done|]. by intros [= <- <-]. Qed.

Lemma length_skip b : length (skip_zeros b) <= length b.
Proof. induction b as [|x b IH]; [done|]. cbn [skip_zeros]. case_match; cbn [length]; lia. Qed.

Lemma tu64_roundtrip v : (0 <= v < u64_mod)%Z -> fromwire_tu64 (Some (towire_tu64 v)) = (v, Some []).
Proof.
  intros H. unfold fromwire_tu64, fromwire_tlv_uint, towire_tu64, towire_tlv_uint, towire. set (b := skip_zeros (to_be 8 v)).
  assert (Hl : length b <= 8) by (etrans; [apply length_skip|by rewrite length_to_be]). rewrite (proj2 (Nat.ltb_ge _ _)) by lia.
  assert (Hv : from_be b = v) by (unfold b; rewrite from_be_skip; apply from_to_be_id; unfold u64_mod in H; cbn; lia).
  cbn [fromwire]. rewrite (proj2 (Nat.ltb_ge _ _)), take_ge, drop_ge by lia. destruct b as [|c r] eqn:E; [by rewrite <- Hv|].
  rewrite (skip_zeros_head (to_be 8 v) c r E). by rewrite Hv.
Qed.

(** Only the shortest form is accepted here, too. *)
Lemma tu64_canonical b v : fromwire_tu64 (Some b) = (v, Some []) -> b = towire_tu64 v.
Proof.
  unfold fromwire_tu64, fromwire_tlv_uint, towire_tu64, towire_tlv_uint, towire. destruct (Nat.ltb_spec 8 (length b)); [done|].
  cbn [fromwire]. rewrite (proj2 (Nat.ltb_ge _ _)), take_ge, drop_ge by lia. destruct b as [|c r]; [by intros [= <-]|].
  destruct (ch_eqb c NUL) eqn:Ec; [done|]. intros [= <-].
  assert (HP : forall k, skip_zeros (to_be (k + length (c :: r)) (from_be (c :: r))) = c :: r).
  { induction k as [|k IH]; cbn [plus]; [rewrite to_from_be; cbn [skip_zeros]; by rewrite Ec|]. cbn [to_be skip_zeros].
    pose proof (from_be_range (c :: r)) as HR. rewrite Z.div_small.
    - change (ch_eqb (chr (0 mod 256)) NUL) with true. cbn iota. exact IH.
    - split; [lia|]. eapply Z.lt_le_trans; [apply HR|]. apply Z.pow_le_mono_r; unfold len; lia. }
  specialize (HP (8 - length (c :: r))). replace (8 - length (c :: r) + length (c :: r)) with 8 in HP by lia. by rewrite HP.
Qed.
