(* ===== verification/Time.v ===== *)
(** ccan/time: points and spans of time, in seconds and nanoseconds; and ccan/ilog.

    Seconds and nanoseconds are [long]s; their sums are not taken to overflow.
    The macros [TIME_CHECK] do nothing in the build the program uses. *)
From S2P Require Import Prelude.

Record timespec : Type := TimeSpec { tv_sec : Z; tv_nsec : Z }.
Record timeval : Type := TimeVal { tv_sec' : Z; tv_usec : Z }.

(** A span, a time of the wall clock, a time of the monotonic clock. *)
Record timerel : Type := TimeRel { rel_ts : timespec }.
Record timeabs : Type := TimeAbs { abs_ts : timespec }.
Record timemono : Type := TimeMono { mono_ts : timespec }.

Definition time_greater_ (a b : timespec) : bool :=
  if (tv_sec b <? tv_sec a)%Z then true
  else if (tv_sec a <? tv_sec b)%Z then false
  else (tv_nsec b <? tv_nsec a)%Z.
Definition time_after (a b : timeabs) : bool := time_greater_ (abs_ts a) (abs_ts b).
Definition time_greater (a b : timerel) : bool := time_greater_ (rel_ts a) (rel_ts b).

Definition time_less_ (a b : timespec) : bool :=
  if (tv_sec a <? tv_sec b)%Z then true
  else if (tv_sec b <? tv_sec a)%Z then false
  else (tv_nsec a <? tv_nsec b)%Z.
Definition time_before (a b : timeabs) : bool := time_less_ (abs_ts a) (abs_ts b).
Definition time_less (a b : timerel) : bool := time_less_ (rel_ts a) (rel_ts b).

Definition timespec_eqb (a b : timespec) : bool := (tv_sec a =? tv_sec b)%Z && (tv_nsec a =? tv_nsec b)%Z.
Definition timeabs_eq (a b : timeabs) : bool := timespec_eqb (abs_ts a) (abs_ts b).
Definition timemono_eq (a b : timemono) : bool := timespec_eqb (mono_ts a) (mono_ts b).
Definition timerel_eq (a b : timerel) : bool := timespec_eqb (rel_ts a) (rel_ts b).

Definition time_sub_ (recent old : timespec) : timespec :=
  let sec := (tv_sec recent - tv_sec old)%Z in
  if (tv_nsec recent <? tv_nsec old)%Z then TimeSpec (sec - 1) (1000000000 + tv_nsec recent - tv_nsec old)
  else TimeSpec sec (tv_nsec recent - tv_nsec old).
Definition time_sub (a b : timerel) : timerel := TimeRel (time_sub_ (rel_ts a) (rel_ts b)).
Definition time_between (recent old : timeabs) : timerel := TimeRel (time_sub_ (abs_ts recent) (abs_ts old)).
Definition timemono_between (recent old : timemono) : timerel := TimeRel (time_sub_ (mono_ts recent) (mono_ts old)).
(** [now] is what [time_mono] returns. *)
Definition timemono_since (now old : timemono) : timerel := timemono_between now old.
Definition timeabs_sub (a : timeabs) (rel : timerel) : timeabs := TimeAbs (time_sub_ (abs_ts a) (rel_ts rel)).

Definition time_add_ (a b : timespec) : timespec :=
  let sec := (tv_sec a + tv_sec b)%Z in let nsec := (tv_nsec a + tv_nsec b)%Z in
  if (1000000000 <=? nsec)%Z then TimeSpec (sec + 1) (nsec - 1000000000) else TimeSpec sec nsec.
Definition timeabs_add (a : timeabs) (b : timerel) : timeabs := TimeAbs (time_add_ (abs_ts a) (rel_ts b)).
Definition timemono_add (a : timemono) (b : timerel) : timemono := TimeMono (time_add_ (mono_ts a) (rel_ts b)).
Definition timerel_add (a b : timerel) : timerel := TimeRel (time_add_ (rel_ts a) (rel_ts b)).

Definition time_to_sec (t : timerel) : Z := wrap64 (tv_sec (rel_ts t)).
Definition time_to_msec (t : timerel) : Z := wrap64 (Z.quot (tv_nsec (rel_ts t)) 1000000 + tv_sec (rel_ts t) * 1000).
Definition time_to_usec (t : timerel) : Z := wrap64 (Z.quot (tv_nsec (rel_ts t)) 1000 + tv_sec (rel_ts t) * 1000000).
Definition time_to_nsec (t : timerel) : Z := wrap64 (tv_nsec (rel_ts t) + tv_sec (rel_ts t) * 1000000000).

(** A 64-bit number stored in a [time_t]. *)
Definition as_time_t (z : Z) : Z := if (z <? 9223372036854775808)%Z then z else (z - u64_mod)%Z.

Definition time_from_sec (sec : Z) : timerel := TimeRel (TimeSpec (as_time_t sec) 0).
Definition time_from_msec (msec : Z) : timerel := TimeRel (TimeSpec (msec / 1000) (msec mod 1000 * 1000000)).
Definition time_from_usec (usec : Z) : timerel := TimeRel (TimeSpec (usec / 1000000) (usec mod 1000000 * 1000)).
Definition time_from_nsec (nsec : Z) : timerel := TimeRel (TimeSpec (nsec / 1000000000) (nsec mod 1000000000)).

Definition timespec_to_timeval (ts : timespec) : timeval := TimeVal (tv_sec ts) (Z.quot (tv_nsec ts) 1000).
Definition timerel_to_timeval (t : timerel) : timeval := timespec_to_timeval (rel_ts t).
Definition timeabs_to_timeval (t : timeabs) : timeval := timespec_to_timeval (abs_ts t).
Definition timeval_to_timespec (tv : timeval) : timespec := TimeSpec (tv_sec' tv) (tv_usec tv * 1000).
Definition timeval_to_timerel (tv : timeval) : timerel := TimeRel (timeval_to_timespec tv).
Definition timeval_to_timeabs (tv : timeval) : timeabs := TimeAbs (timeval_to_timespec tv).

(** [time_check_]; the flag is whether there is a text to abort with. *)
Definition time_check_ (t : timespec) (abortstr : bool) : outcome timespec :=
  if (tv_sec t <? 0)%Z || (1000000000 <=? tv_nsec t)%Z then
    if abortstr then Abort "malformed time"
    else
      let t := if (1000000000 <=? tv_nsec t)%Z then TimeSpec (tv_sec t + tv_nsec t / 1000000000) (tv_nsec t mod 1000000000) else t in
      Ret (if (tv_sec t <? 0)%Z then TimeSpec 0 (tv_nsec t) else t)
  else Ret t.
Definition timerel_check (t : timerel) (abortstr : bool) : outcome timerel := let! ts := time_check_ (rel_ts t) abortstr in Ret (TimeRel ts).
Definition timeabs_check (t : timeabs) (abortstr : bool) : outcome timeabs := let! ts := time_check_ (abs_ts t) abortstr in Ret (TimeAbs ts).
Definition timemono_check (t : timemono) (abortstr : bool) : outcome timemono := let! ts := time_check_ (mono_ts t) abortstr in Ret (TimeMono ts).

(** * Nanoseconds

    A time is well formed when its nanoseconds are below a second; it then stands
    for one number. *)

Definition time_ok (t : timespec) : Prop := (0 <= tv_nsec t < 1000000000)%Z.
Definition nanos (t : timespec) : Z := (tv_sec t * 1000000000 + tv_nsec t)%Z.

(** Sum, difference and comparison are those of the numbers, and the results are
    well formed. *)
Theorem time_arithmetic a b : time_ok a -> time_ok b ->
  time_ok (time_add_ a b) /\ nanos (time_add_ a b) = (nanos a + nanos b)%Z /\
  time_ok (time_sub_ a b) /\ nanos (time_sub_ a b) = (nanos a - nanos b)%Z /\
  time_less_ a b = (nanos a <? nanos b)%Z /\ time_greater_ a b = (nanos b <? nanos a)%Z /\
  timespec_eqb a b = (nanos a =? nanos b)%Z.
Proof.
  destruct a as [s n], b as [s' n']. unfold time_ok, nanos, time_add_, time_sub_, time_less_, time_greater_, timespec_eqb. cbn [tv_sec tv_nsec]. intros Ha Hb.
  destruct (Z.leb_spec 1000000000 (n + n')), (Z.ltb_spec n n'); cbn [tv_sec tv_nsec]; split_and!; try lia;
    repeat match goal with |- context [(?x <? ?y)%Z] => destruct (Z.ltb_spec x y) | |- context [(?x =? ?y)%Z] => destruct (Z.eqb_spec x y) end; try done; lia.
Qed.

(** Each unit is read back, and a time that was checked is well formed. *)
Theorem time_units_roundtrip u : (0 <= u < u64_mod)%Z ->
  time_to_sec (time_from_sec u) = u /\ time_to_msec (time_from_msec u) = u /\
  time_to_usec (time_from_usec u) = u /\ time_to_nsec (time_from_nsec u) = u.
Proof.
  intros Hu. unfold time_to_sec, time_from_sec, time_to_msec, time_from_msec, time_to_usec, time_from_usec, time_to_nsec, time_from_nsec, wrap64, as_time_t.
  cbn [rel_ts tv_sec tv_nsec]. split_and!.
  - destruct (Z.ltb_spec u 9223372036854775808); [by apply Z.mod_small|]. rewrite <- (Z.mod_add _ 1) by done. rewrite Z.mod_small; lia.
  - rewrite Z.quot_mul by lia. pose proof (Z.div_mod u 1000 ltac:(lia)). replace (u mod 1000 + u / 1000 * 1000)%Z with u by lia. by apply Z.mod_small.
  - rewrite Z.quot_mul by lia. pose proof (Z.div_mod u 1000000 ltac:(lia)). replace (u mod 1000000 + u / 1000000 * 1000000)%Z with u by lia. by apply Z.mod_small.
  - pose proof (Z.div_mod u 1000000000 ltac:(lia)). replace (u mod 1000000000 + u / 1000000000 * 1000000000)%Z with u by lia. by apply Z.mod_small.
Qed.

Lemma time_arithmetic_witness : nanos (time_add_ (TimeSpec 1 600000000) (TimeSpec 2 500000000)) = 4100000000%Z.
Proof. rewrite (proj1 (proj2 (time_arithmetic (TimeSpec 1 600000000) (TimeSpec 2 500000000) ltac:(unfold time_ok; cbn; lia) ltac:(unfold time_ok; cbn; lia)))). by vm_compute. Defined.

Lemma time_units_roundtrip_witness : time_to_msec (time_from_msec 1500) = 1500%Z.
Proof. apply (time_units_roundtrip 1500). unfold u64_mod. lia. Defined.

(** * Logarithms

    ccan/ilog: the number of significant bits, by a de Bruijn sequence. *)

Definition DEBRUIJN_IDX32 : list nat :=
  [ 0;  1; 28;  2; 29; 14; 24;  3; 30; 22; 20; 15; 25; 17;  4;  8;
   31; 27; 13; 23; 21; 19; 16;  7; 26; 12; 18;  6; 11;  5; 10;  9].

Definition DEBRUIJN_IDX64 : list nat :=
  [ 0;  1;  2;  7;  3; 13;  8; 19;  4; 25; 14; 28;  9; 34; 20; 40;
    5; 17; 26; 38; 15; 46; 29; 48; 10; 31; 35; 54; 21; 50; 41; 57;
   63;  6; 12; 18; 24; 27; 33; 39; 16; 37; 45; 47; 30; 53; 49; 56;
   62; 11; 23; 32; 36; 44; 52; 55; 61; 22; 43; 51; 60; 42; 59; 58].

(** [_v |= _v >> s] *)
Definition smear (v s : Z) : Z := Z.lor v (Z.shiftr v s).

Definition ilog32 (v : Z) : nat :=
  let ret := if (0 <? v)%Z then 1 else 0 in
  let v := foldl smear v [1; 2; 4; 8; 16]%Z in
  let v := wrap32 (Z.shiftr v 1 + 1) in
  ret + default 0 (DEBRUIJN_IDX32 !! Z.to_nat (Z.land (Z.shiftr (wrap32 (v * 125613361)) 27) 31)).

Definition ilog64 (v : Z) : nat :=
  let ret := if (0 <? v)%Z then 1 else 0 in
  let v := foldl smear v [1; 2; 4; 8; 16; 32]%Z in
  let v := wrap64 (Z.shiftr v 1 + 1) in
  ret + default 0 (DEBRUIJN_IDX64 !! Z.to_nat (Z.land (Z.shiftr (wrap64 (v * 151050438420815295)) 58) 63)).

Definition ilog32_nz (v : Z) : nat := ilog32 v.
Definition ilog64_nz (v : Z) : nat := ilog64 v.

(** * The reference: the position of the highest bit *)

Definition bit_length (v : Z) : nat := if (v =? 0)%Z then 0 else Z.to_nat (Z.log2 v + 1).

(** The top [s] bits of [v], which has its highest at [k], are set. *)
Definition top_set (k s v : Z) : Prop := (0 <= v < 2 ^ (k + 1))%Z /\ forall i, (0 <= i)%Z -> (k - s < i <= k)%Z -> Z.testbit v i = true.

Lemma smear_top k s v : (0 <= k)%Z -> (0 < s)%Z -> top_set k s v -> top_set k (2 * s) (smear v s).
Proof.
  intros Hk Hs [Hv Hb]. unfold smear. assert (Hsh : (0 <= Z.shiftr v s < 2 ^ (k + 1))%Z).
  { rewrite Z.shiftr_div_pow2 by lia. split; [apply Z.div_pos; lia|]. apply Z.div_lt_upper_bound; [lia|].
    assert (1 <= 2 ^ s)%Z by (apply (Z.pow_le_mono_r 2 0 s); lia). nia. }
  split.
  - split; [apply Z.lor_nonneg; lia|]. destruct (decide (Z.lor v (Z.shiftr v s) = 0)%Z) as [->|Hn]; [lia|].
    apply Z.log2_lt_pow2; [|rewrite Z.log2_lor by lia]; [assert (0 <= Z.lor v (Z.shiftr v s))%Z by (apply Z.lor_nonneg; lia); lia|].
    assert (HL : forall x, (0 <= x < 2 ^ (k + 1))%Z -> (Z.log2 x < k + 1)%Z).
    { intros x Hx. destruct (decide (x = 0)%Z) as [->|]; [cbn; lia|]. apply Z.log2_lt_pow2; lia. }
    apply Z.max_lub_lt; by apply HL.
  - intros i Hi Hr. rewrite Z.lor_spec, Z.shiftr_spec by lia. destruct (decide (k - s < i)%Z); [by rewrite Hb by lia|].
    rewrite (Hb (i + s)%Z) by lia. apply orb_true_r.
Qed.

Lemma top_set_ones k s v : (0 <= k < s)%Z -> top_set k s v -> v = Z.ones (k + 1).
Proof.
  intros Hk [Hv Hb]. apply Z.bits_inj'. intros i Hi. destruct (decide (i <= k)%Z).
  - rewrite Hb by lia. by rewrite Z.ones_spec_low by lia.
  - rewrite Z.ones_spec_high by lia. rewrite <- (Z.mod_small v (2 ^ (k + 1))), Z.mod_pow2_bits_high by lia. done.
Qed.

(** Smearing over all widths fills everything below the highest bit. *)
Lemma smear_all v l s : (0 < v)%Z -> top_set (Z.log2 v) s v -> (0 < s)%Z ->
  l = map (fun i => 2 ^ Z.of_nat i * s)%Z (seq 0 (length l)) ->
  top_set (Z.log2 v) (2 ^ Z.of_nat (length l) * s) (foldl smear v l).
Proof.
  intros Hv. set (k := Z.log2 v). assert (Hk : (0 <= k)%Z) by apply Z.log2_nonneg. clearbody k. clear Hv. revert v s.
  induction l as [|a l IH]; intros v s Ht Hs E; cbn [foldl length]; [by rewrite Z.mul_1_l|].
  cbn [length seq map] in E. injection E as -> E. rewrite Nat2Z.inj_succ, Z.pow_succ_r by lia.
  replace (2 * 2 ^ Z.of_nat (length l) * s)%Z with (2 ^ Z.of_nat (length l) * (2 * s))%Z by lia.
  change (2 ^ Z.of_nat 0 * s)%Z with (1 * s)%Z. rewrite Z.mul_1_l. apply IH; [by apply smear_top|lia|]. rewrite E at 1. rewrite <- seq_shift, map_map. apply map_ext. intros i.
  rewrite Nat2Z.inj_succ, Z.pow_succ_r by lia. lia.
Qed.

Lemma top_set_log2 v : (0 < v)%Z -> top_set (Z.log2 v) 1 v.
Proof.
  intros Hv. split; [pose proof (Z.log2_spec v Hv); rewrite Z.add_1_r; lia|]. intros i Hi Hr.
  replace i with (Z.log2 v) by lia. by apply Z.bit_log2.
Qed.

(** The table is right at every power of two. *)
Lemma debruijn64 : forallb (fun k => default 0 (DEBRUIJN_IDX64 !! Z.to_nat (Z.land (Z.shiftr (wrap64 (2 ^ Z.of_nat k * 151050438420815295)) 58) 63)) =? k) (seq 0 64) = true.
Proof. by vm_compute. Qed.

Lemma debruijn32 : forallb (fun k => default 0 (DEBRUIJN_IDX32 !! Z.to_nat (Z.land (Z.shiftr (wrap32 (2 ^ Z.of_nat k * 125613361)) 27) 31)) =? k) (seq 0 32) = true.
Proof. by vm_compute. Qed.

Lemma ones_half k : (0 <= k)%Z -> (Z.shiftr (Z.ones (k + 1)) 1 + 1 = 2 ^ k)%Z.
Proof. intros Hk. rewrite Z.ones_equiv, Z.shiftr_div_pow2, Z.pow_add_r by lia. change (2 ^ 1)%Z with 2%Z. replace (Z.pred (2 ^ k * 2)) with (1 + (2 ^ k - 1) * 2)%Z by lia. rewrite Z.div_add by lia. change (1 / 2)%Z with 0%Z. lia. Qed.

Lemma log2_bound v n : (0 < v < 2 ^ n)%Z -> (0 <= Z.log2 v < n)%Z.
Proof. intros H. split; [apply Z.log2_nonneg|]. apply Z.log2_lt_pow2; lia. Qed.

(** Both functions count the significant bits. *)
Theorem ilog64_spec v : (0 <= v < u64_mod)%Z -> ilog64 v = bit_length v.
Proof.
  intros Hv. unfold ilog64, bit_length. destruct (Z.eqb_spec v 0) as [->|Hn]; [by vm_compute|].
  rewrite (proj2 (Z.ltb_lt 0 v)) by lia. pose proof (log2_bound v 64 ltac:(unfold u64_mod in Hv; lia)) as Hk.
  pose proof (smear_all v [1; 2; 4; 8; 16; 32]%Z 1 ltac:(lia) (top_set_log2 v ltac:(lia)) ltac:(lia) eq_refl) as HT.
  rewrite (top_set_ones (Z.log2 v) 64 _ ltac:(lia) HT), ones_half by lia.
  unfold wrap64 at 2. rewrite Z.mod_small by (split; [lia|]; apply (Z.pow_lt_mono_r 2 _ 64); lia).
  pose proof debruijn64 as HD. rewrite forallb_forall in HD. specialize (HD (Z.to_nat (Z.log2 v)) ltac:(apply in_seq; lia)).
  apply Nat.eqb_eq in HD. rewrite Z2Nat.id in HD by lia. rewrite HD. lia.
Qed.

Theorem ilog32_spec v : (0 <= v < u32_mod)%Z -> ilog32 v = bit_length v.
Proof.
  intros Hv. unfold ilog32, bit_length. destruct (Z.eqb_spec v 0) as [->|Hn]; [by vm_compute|].
  rewrite (proj2 (Z.ltb_lt 0 v)) by lia. pose proof (log2_bound v 32 ltac:(unfold u32_mod in Hv; lia)) as Hk.
  pose proof (smear_all v [1; 2; 4; 8; 16]%Z 1 ltac:(lia) (top_set_log2 v ltac:(lia)) ltac:(lia) eq_refl) as HT.
  rewrite (top_set_ones (Z.log2 v) 32 _ ltac:(lia) HT), ones_half by lia.
  unfold wrap32 at 2. rewrite Z.mod_small by (split; [lia|]; apply (Z.pow_lt_mono_r 2 _ 32); lia).
  pose proof debruijn32 as HD. rewrite forallb_forall in HD. specialize (HD (Z.to_nat (Z.log2 v)) ltac:(apply in_seq; lia)).
  apply Nat.eqb_eq in HD. rewrite Z2Nat.id in HD by lia. rewrite HD. lia.
Qed.

Lemma ilog64_spec_witness : ilog64 1000 = 10.
Proof. rewrite (ilog64_spec 1000); [by vm_compute|unfold u64_mod; lia]. Defined.
