(* ===== verification/Timer.v ===== *)
(** ccan/timer: timers in wheels of 32 buckets, each level 32 times coarser than
    the one below.

    A timer is known by a number, which stands for its address, and is in at most
    one list; [timer_alloc] is whether there is memory for a level. *)
From S2P Require Import Prelude Time.

Definition TIMER_GRANULARITY : Z := 1000.
Definition TIMER_LEVEL_BITS : Z := 5.
Definition PER_LEVEL : Z := 32.
(** [ARRAY_SIZE(timers->level)] *)
Definition TIMER_LEVELS : nat := 13.
(** [-1ULL] *)
Definition NO_TIME : Z := u64_mod - 1.

Record timer : Type := Timer { t_id : nat; t_time : Z }.

(** [tm_firsts] has one more entry, for the far list. *)
Record timers : Type := Timers {
  tm_far : list timer; tm_base : Z; tm_first : Z; tm_firsts : list Z; tm_level : list (option (list (list timer))) }.

Definition time_to_grains (t : timemono) : Z :=
  wrap64 (tv_sec (mono_ts t) * (1000000000 / TIMER_GRANULARITY) + Z.quot (tv_nsec (mono_ts t)) TIMER_GRANULARITY).

Definition grains_to_time (grains : Z) : timemono :=
  TimeMono (TimeSpec (grains / (1000000000 / TIMER_GRANULARITY)) (grains mod (1000000000 / TIMER_GRANULARITY) * TIMER_GRANULARITY)).

Definition timers_init (start : timemono) : timers :=
  Timers [] (time_to_grains start) NO_TIME (replicate (S TIMER_LEVELS) NO_TIME) (replicate TIMER_LEVELS None).

Definition level_at (ts : timers) (l : nat) : option (list (list timer)) := mjoin (tm_level ts !! l).

Definition level_of (ts : timers) (time : Z) : nat :=
  ilog64 (wrap64 (time - tm_base ts) / 2) / Z.to_nat TIMER_LEVEL_BITS.

(** The bucket of a time in a level. *)
Definition bucket_of (time : Z) (level : nat) : nat :=
  Z.to_nat (Z.land (Z.shiftr time (Z.of_nat level * TIMER_LEVEL_BITS)) (PER_LEVEL - 1)).

Definition set_far (l : list timer) (ts : timers) : timers := Timers l (tm_base ts) (tm_first ts) (tm_firsts ts) (tm_level ts).
Definition set_base (b : Z) (ts : timers) : timers := Timers (tm_far ts) b (tm_first ts) (tm_firsts ts) (tm_level ts).
Definition set_tfirst (f : Z) (ts : timers) : timers := Timers (tm_far ts) (tm_base ts) f (tm_firsts ts) (tm_level ts).
Definition set_firsts (f : list Z) (ts : timers) : timers := Timers (tm_far ts) (tm_base ts) (tm_first ts) f (tm_level ts).
Definition set_level (l : nat) (b : list (list timer)) (ts : timers) : timers :=
  Timers (tm_far ts) (tm_base ts) (tm_first ts) (tm_firsts ts) (<[l := Some b]> (tm_level ts)).

(** [if (t->time < *first) *first = t->time] *)
Definition lower_first (i : nat) (time : Z) (ts : timers) : timers :=
  set_firsts (alter (fun f => if (time <? f)%Z then time else f) i (tm_firsts ts)) ts.

Definition timer_add_raw (ts : timers) (t : timer) : timers :=
  let level := level_of ts (t_time t) in
  match level_at ts level with
  | None => lower_first TIMER_LEVELS (t_time t) (set_far (tm_far ts ++ [t]) ts)
  | Some b => lower_first level (t_time t) (set_level level (alter (fun h => h ++ [t]) (bucket_of (t_time t) level) b) ts)
  end.

(** All timers in the lists. *)
Definition level_timers (b : option (list (list timer))) : list timer := match b with Some b => concat b | None => [] end.
Definition pending (ts : timers) : list timer := tm_far ts ++ concat (map level_timers (tm_level ts)).

(** [list_node_initted]: the timer is in no list. *)
Definition list_node_initted (ts : timers) (id : nat) : bool := forallb (fun t => negb (t_id t =? id)) (pending ts).

Definition timer_addmono (ts : timers) (id : nat) (when : timemono) : outcome timers :=
  let! _ := assert_ (list_node_initted ts id) "timer_addmono: list_node_initted" in
  let time := time_to_grains when in
  let time := if (time <? tm_base ts)%Z then tm_base ts else time in
  let ts := if (time <? tm_first ts)%Z then set_tfirst time ts else ts in
  Ret (timer_add_raw ts (Timer id time)).

(** [now] is what [time_mono] returns. *)
Definition timer_addrel (now : timemono) (ts : timers) (id : nat) (rel : timerel) : outcome timers :=
  let! _ := assert_ (list_node_initted ts id) "timer_addrel: list_node_initted" in
  let time := time_to_grains (timemono_add now rel) in
  let time := if (time <? tm_base ts)%Z then tm_base ts else time in
  let ts := if (time <? tm_first ts)%Z then set_tfirst time ts else ts in
  Ret (timer_add_raw ts (Timer id time)).

(** [list_del_init]: out of the list it is in. *)
Definition unlink (id : nat) (l : list timer) : list timer := List.filter (fun t => negb (t_id t =? id)) l.
Definition timer_del (ts : timers) (id : nat) : timers :=
  Timers (unlink id (tm_far ts)) (tm_base ts) (tm_first ts) (tm_firsts ts) (map (fmap (map (unlink id))) (tm_level ts)).

(** The timers taken out, and the rest. *)
Definition timers_far_get (ts : timers) (when : Z) : list timer * timers :=
  (List.filter (fun t => t_time t <=? when)%Z (tm_far ts),
   set_far (List.filter (fun t => negb (t_time t <=? when))%Z (tm_far ts)) ts).

(** [timers->base + (1ULL << ((level+1)*TIMER_LEVEL_BITS)) - 1] *)
Definition level_end (ts : timers) (level : nat) : Z :=
  wrap64 (tm_base ts + Z.shiftl 1 (Z.of_nat (S level) * TIMER_LEVEL_BITS) - 1).

Section Alloc.
Variable timer_alloc : nat -> bool.

Definition add_level (ts : timers) (level : nat) : timers :=
  if negb (timer_alloc level) then ts
  else
    let ts := set_level level (replicate (Z.to_nat PER_LEVEL) []) ts in
    let '(from_far, ts) := timers_far_get ts (level_end ts level) in
    foldl timer_add_raw ts from_far.

(** [find_first]: at level 0 only the first of a bucket. *)
Definition find_first (l : list timer) (level : nat) (prev : option timer) : option timer :=
  let better prev t := match prev with Some p => if (t_time t <? t_time p)%Z then Some t else prev | None => Some t end in
  match level with
  | O => match l with t :: _ => better prev t | [] => prev end
  | S _ => foldl better prev l
  end.

Definition first_for_level (ts : timers) (level : nat) (level_first first : option timer) : timers * option timer :=
  match level_first with
  | Some t =>
      (set_firsts (<[level := t_time t]> (tm_firsts ts)) ts,
       match first with Some f => if (t_time t <? t_time f)%Z then Some t else first | None => Some t end)
  | None => (set_firsts (<[level := NO_TIME]> (tm_firsts ts)) ts, first)
  end.

Definition level_may_beat (ts : timers) (level : nat) (first : option timer) : bool :=
  match first with Some f => (default 0 (tm_firsts ts !! level) <? t_time f)%Z | None => true end.

(** The loop over the levels there are, [n] of them left, from [l]. *)
Fixpoint brute_levels (n l : nat) (ts : timers) (found : option timer) : timers * option timer :=
  match n with
  | O => (ts, found)
  | S m =>
      match level_at ts l with
      | None => (ts, found)
      | Some b =>
          if negb (level_may_beat ts l found) then brute_levels m (S l) ts found
          else
            let t := foldl (fun t h => find_first h l t) None b in
            let '(ts, found) := first_for_level ts l t found in
            brute_levels m (S l) ts found
      end
  end.

Definition brute_force_first (ts : timers) : timers * option timer :=
  let '(ts, found) := brute_levels TIMER_LEVELS 0 ts None in
  if level_may_beat ts TIMER_LEVELS found then
    let t := find_first (tm_far ts) TIMER_LEVELS None in
    first_for_level ts TIMER_LEVELS t found
  else (ts, found).

(** The first bucket from [off] on that is not empty. *)
Definition lower_bucket (b : list (list timer)) (off : nat) : option (list timer) :=
  List.find (fun h => negb (match h with [] => true | _ => false end)) (drop off b).

Definition get_first (ts : timers) : timers * option timer :=
  match level_at ts 0 ≫= (fun b => lower_bucket b (Z.to_nat (tm_base ts mod PER_LEVEL))) with
  | Some h => (ts, find_first h 0 None)
  | None => brute_force_first ts
  end.

Definition update_first (ts : timers) : timers * bool :=
  let '(ts, found) := get_first ts in
  match found with
  | None => (set_tfirst NO_TIME ts, false)
  | Some t => (set_tfirst (t_time t) ts, true)
  end.

Definition timer_earliest (ts : timers) : timers * option timemono :=
  let '(ts, b) := update_first ts in
  (ts, if b then Some (grains_to_time (tm_first ts)) else None).

(** One round of the loop: the timers taken out, and the level that was missing. *)
Definition collect_one (level : nat) (time : Z) (ts : timers) (list : list timer) (need_level : option nat) : timers * Datatypes.list timer * option nat :=
  match level_at ts level with
  | None => let '(l, ts) := timers_far_get ts (level_end ts level) in (ts, list ++ l, Some level)
  | Some b =>
      let src := Z.to_nat (Z.shiftr time (Z.of_nat level * TIMER_LEVEL_BITS) mod PER_LEVEL) in
      (set_level level (<[src := []]> b) ts, list ++ default [] (b !! src), need_level)
  end.

(** The loop from [level] down. *)
Fixpoint collect (level : nat) (time : Z) (ts : timers) (list : list timer) (need_level : option nat) : timers * Datatypes.list timer * option nat :=
  let '(ts, list, need_level) := collect_one level time ts list need_level in
  match level with
  | O => (ts, list, need_level)
  | S m => collect m time ts list need_level
  end.

Definition timer_fast_forward (ts : timers) (time : Z) : timers :=
  if (time =? tm_base ts)%Z then ts
  else
    let changed := ilog64_nz (Z.lxor time (tm_base ts)) in
    let level := (changed - 1) / Z.to_nat TIMER_LEVEL_BITS in
    let '(ts, list, need_level) := collect level time ts [] None in
    let ts := match need_level with Some l => add_level ts l | None => ts end in
    foldl timer_add_raw (set_base time ts) list.

(** [list_pop] of a bucket of level 0. *)
Definition pop_bucket (ts : timers) (off : nat) : outcome (timers * option timer) :=
  match level_at ts 0 with
  | None => Abort "timers->level[0] is NULL"
  | Some b =>
      match b !! off with
      | Some (t :: r) => Ret (set_level 0 (<[off := r]> b) ts, Some t)
      | _ => Ret (ts, None)
      end
  end.

(** Two rounds are enough ([expire_total]). *)
Fixpoint expire_loop (fuel : nat) (now : Z) (ts : timers) : outcome (timers * option timer) :=
  match fuel with
  | O => Abort "expire_loop: fuel"
  | S f =>
      if (now <? tm_first ts)%Z then Ret (timer_fast_forward ts now, None)
      else
        let ts := timer_fast_forward ts (tm_first ts) in
        let off := Z.to_nat (tm_base ts mod PER_LEVEL) in
        let! (ts, t) := pop_bucket ts off in
        match t with
        | Some t => Ret (ts, Some t)
        | None => let '(ts, more) := update_first ts in if more then expire_loop f now ts else Ret (ts, None)
        end
  end.

Definition timers_expire (ts : timers) (expire : timemono) : outcome (timers * option timer) :=
  let now := time_to_grains expire in
  if (now <? tm_base ts)%Z then Ret (ts, None)
  else
    match level_at ts 0, tm_far ts with
    | None, [] => Ret (ts, None)
    | None, _ => expire_loop 2 now (add_level ts 0)
    | Some _, _ => expire_loop 2 now ts
    end.
End Alloc.

(** * The check of the code itself *)

Definition timer_list_check (l : list timer) (min max first : Z) : bool :=
  forallb (fun t => negb ((t_time t <? min) || (max <? t_time t) || (t_time t <? first))%Z) l.

(** The buckets of a level from the one after [off], for ranges that start at
    [lo] and are [per_bucket] long. *)
Fixpoint check_buckets (n : nat) (b : list (list timer)) (i : nat) (lo per_bucket first : Z) : bool :=
  match n with
  | O => true
  | S m =>
      timer_list_check (default [] (b !! (i mod Z.to_nat PER_LEVEL))) lo (lo + per_bucket - 1) first
      && check_buckets m b (S i) (lo + per_bucket) per_bucket first
  end.

(** The levels from [l] on; the result is the number of levels there are, or
    [None] when a check failed. *)
Fixpoint check_levels (n l : nat) (ts : timers) : option nat :=
  match n with
  | O => Some l
  | S m =>
      match level_at ts l with
      | None => Some l
      | Some b =>
          let first := default 0%Z (tm_firsts ts !! l) in
          let per_bucket := Z.shiftl 1 (TIMER_LEVEL_BITS * Z.of_nat l) in
          let off := Z.to_nat (Z.shiftr (tm_base ts) (Z.of_nat l * TIMER_LEVEL_BITS) mod PER_LEVEL) in
          let ok :=
            match l with
            | O => check_buckets (Z.to_nat PER_LEVEL) b off (tm_base ts) 1 first
            | S _ => check_buckets (Z.to_nat PER_LEVEL) b (S off) (Z.land (tm_base ts) (Z.lnot (per_bucket - 1)) + per_bucket) per_bucket first
            end in
          if ok then check_levels m (S l) ts else None
      end
  end.

Definition timers_check (ts : timers) : bool :=
  match check_levels TIMER_LEVELS 0 ts with
  | None => false
  | Some l =>
      let size := Z.shiftl 1 (TIMER_LEVEL_BITS * Z.of_nat l) in
      timer_list_check (tm_far ts) (Z.land (tm_base ts) (Z.lnot (size - 1)) + size - 1) NO_TIME (default 0%Z (tm_firsts ts !! TIMER_LEVELS))
  end.

Definition at_us (us : Z) : timemono := grains_to_time us.

Definition timer_run : outcome (list nat) :=
  let! a := timer_addmono (timers_init (at_us 1000)) 1 (at_us 5000) in
  let! b := timer_addmono a 2 (at_us 1000000) in
  let! c := timer_addmono b 3 (at_us 1040) in
  let! (d, x) := timers_expire (fun _ => true) c (at_us 6000) in
  let! (e, y) := timers_expire (fun _ => true) d (at_us 6000) in
  let! (f, z) := timers_expire (fun _ => true) e (at_us 6000) in
  let! (g, w) := timers_expire (fun _ => true) f (at_us 2000000) in
  Ret (map t_id (omap id [x; y; z; w])).

Example timer_run_order : timer_run = Ret [3; 1; 2].
Proof. by vm_compute. Qed.
