(* ===== verification/TimerProofs.v ===== *)
(** Proofs about the wheels of ccan/timer: the invariant, and that the next timer
    to expire is the earliest. *)
From S2P Require Import Prelude Time Timer.

(** * Levels and buckets *)

(** Times that fit: 2^60 microseconds are 36,000 years. *)
Definition TIME_LIMIT : Z := 2 ^ 60.

(** The width of a bucket of level [l]. *)
Definition W (l : nat) : Z := 2 ^ (5 * Z.of_nat l).

Lemma W_pos l : (0 < W l)%Z.
Proof. unfold W. apply Z.pow_pos_nonneg; lia. Qed.

Lemma W_S l : W (S l) = (W l * 32)%Z.
Proof. unfold W. rewrite Nat2Z.inj_succ. replace (5 * Z.succ (Z.of_nat l))%Z with (5 * Z.of_nat l + 5)%Z by lia. rewrite Z.pow_add_r by lia. done. Qed.

Lemma W_mono l k : l <= k -> (W l <= W k)%Z.
Proof. intros. unfold W. apply Z.pow_le_mono_r; lia. Qed.

Lemma W_add l k : W (l + k) = (W l * W k)%Z.
Proof. unfold W. rewrite Nat2Z.inj_add, Z.mul_add_distr_l, Z.pow_add_r by lia. done. Qed.

(** What is apart in coarse buckets is apart in fine ones. *)
Lemma div_coarse l k x y : l <= k -> (x / W k < y / W k)%Z -> (x / W l < y / W l)%Z.
Proof.
  intros Hl H. destruct (Z.lt_ge_cases (x / W l) (y / W l)) as [?|HG]; [done|]. exfalso.
  replace k with (l + (k - l)) in H by lia. rewrite W_add in H. pose proof (W_pos l). pose proof (W_pos (k - l)).
  rewrite <- !Z.div_div in H by lia. pose proof (Z.div_le_mono _ _ (W (k - l)) ltac:(lia) HG). lia.
Qed.

Lemma div_apart l x y : (x / W l < y / W l)%Z -> (x < y)%Z.
Proof. intros H. destruct (Z.lt_ge_cases x y); [done|]. pose proof (W_pos l). pose proof (Z.div_le_mono y x (W l) ltac:(lia) ltac:(lia)). lia. Qed.

Lemma bucket_of_mod time l : (0 <= time)%Z -> bucket_of time l = Z.to_nat ((time / W l) mod 32).
Proof.
  intros H. unfold bucket_of, PER_LEVEL, TIMER_LEVEL_BITS, W. rewrite (Z.mul_comm _ 5), Z.shiftr_div_pow2 by lia.
  change (32 - 1)%Z with (Z.ones 5). rewrite Z.land_ones by lia. done.
Qed.

Lemma bucket_of_lt time l : (0 <= time)%Z -> bucket_of time l < 32.
Proof. intros H. rewrite bucket_of_mod by done. pose proof (Z.mod_pos_bound (time / W l) 32 ltac:(lia)). lia. Qed.

(** A time is in the range of the buckets of a level. *)
Definition fits (base : Z) (l : nat) (time : Z) : Prop :=
  match l with
  | O => (base <= time < base + 32)%Z
  | S _ => (base / W l + 1 <= time / W l <= base / W l + 32)%Z
  end.

(** [level_of] is the level that a time fits in. *)
Lemma level_of_range ts time : (0 <= tm_base ts <= time)%Z -> (time < TIME_LIMIT)%Z ->
  let l := level_of ts time in
  l <= 11 /\ (time - tm_base ts < W (S l))%Z /\ (0 < l -> (W l <= time - tm_base ts)%Z).
Proof.
  intros Hb Ht. unfold level_of, TIME_LIMIT in *. set (d := (time - tm_base ts)%Z).
  assert (Hd : (0 <= d < 2 ^ 60)%Z) by lia. unfold wrap64. rewrite Z.mod_small by (unfold u64_mod; lia).
  assert (H2 : (0 <= d / 2 < 2 ^ 59)%Z) by (split; [apply Z.div_pos; lia|apply Z.div_lt_upper_bound; lia]).
  rewrite ilog64_spec by (unfold u64_mod; lia). unfold bit_length. change (Z.to_nat TIMER_LEVEL_BITS) with 5.
  destruct (Z.eqb_spec (d / 2) 0) as [E|E].
  - pose proof (Z.div_mod d 2 ltac:(lia)). pose proof (Z.mod_pos_bound d 2 ltac:(lia)). change (0 / 5) with 0. cbn -[Z.pow]. split; [lia|]. change (W 1) with 32%Z. lia.
  - pose proof (log2_bound (d / 2) 59 ltac:(lia)) as Hk. destruct (Z.log2_spec (d / 2) ltac:(lia)) as [H3 H4].
    set (k := Z.log2 (d / 2)) in *. set (l := Z.to_nat (k + 1) / 5).
    pose proof (Nat.div_mod_eq (Z.to_nat (k + 1)) 5) as HD. pose proof (Nat.mod_upper_bound (Z.to_nat (k + 1)) 5 ltac:(lia)). fold l in HD.
    pose proof (Z.div_mod d 2 ltac:(lia)). pose proof (Z.mod_pos_bound d 2 ltac:(lia)).
    assert (H5 : (2 ^ (k + 1) <= d < 2 ^ (k + 2))%Z).
    { replace (k + 2)%Z with (Z.succ k + 1)%Z by lia. rewrite !Z.pow_add_r by lia. lia. }
    split; [lia|]. split.
    + apply Z.lt_le_trans with (2 ^ (k + 2))%Z; [lia|]. unfold W. apply Z.pow_le_mono_r; lia.
    + intros _. apply Z.le_trans with (2 ^ (k + 1))%Z; [|lia]. unfold W. apply Z.pow_le_mono_r; lia.
Qed.

Lemma level_of_fits ts time : (0 <= tm_base ts <= time)%Z -> (time < TIME_LIMIT)%Z -> fits (tm_base ts) (level_of ts time) time.
Proof.
  intros Hb Ht. destruct (level_of_range ts time Hb Ht) as (_ & H1 & H2). set (l := level_of ts time) in *.
  destruct l as [|l]; [change (W 1) with 32%Z in H1; cbn; lia|]. cbn [fits]. rewrite W_S in H1. pose proof (W_pos (S l)). specialize (H2 ltac:(lia)).
  set (w := W (S l)) in *. split.
  - rewrite <- (Z.div_add (tm_base ts) 1) by lia. apply Z.div_le_mono; lia.
  - rewrite <- (Z.div_add (tm_base ts) 32) by lia. apply Z.div_le_mono; lia.
Qed.

(** * The lists of timers *)

Lemma level_at_set ts l b k : l < length (tm_level ts) ->
  level_at (set_level l b ts) k = if decide (k = l) then Some b else level_at ts k.
Proof.
  intros Hl. unfold level_at, set_level. cbn [tm_level]. destruct (decide (k = l)) as [->|Hn]; [by rewrite list_lookup_insert_eq by done|by rewrite list_lookup_insert_ne].
Qed.

Lemma level_at_lt ts l b : level_at ts l = Some b -> l < length (tm_level ts).
Proof. unfold level_at. intros H. destruct (tm_level ts !! l) as [x|] eqn:E; [|done]. by eapply lookup_lt_Some. Qed.

(** A bucket taken out of all timers, and what is left when it is replaced. *)
Lemma pending_bucket ts l b j h : level_at ts l = Some b -> b !! j = Some h ->
  exists rest, pending ts ≡ₚ h ++ rest /\ forall h', pending (set_level l (<[j := h']> b) ts) ≡ₚ h' ++ rest.
Proof.
  intros Hl Hj. pose proof (level_at_lt _ _ _ Hl) as Hlt. unfold level_at in Hl. destruct (tm_level ts !! l) as [x|] eqn:E; [|done]. cbn in Hl. subst x.
  exists (tm_far ts ++ concat (map level_timers (take l (tm_level ts))) ++ concat (take j b) ++ concat (drop (S j) b) ++ concat (map level_timers (drop (S l) (tm_level ts)))).
  assert (HB : forall h', concat (map level_timers (<[l := Some (<[j := h']> b)]> (tm_level ts)))
    = concat (map level_timers (take l (tm_level ts))) ++ (concat (take j b) ++ h' ++ concat (drop (S j) b)) ++ concat (map level_timers (drop (S l) (tm_level ts)))).
  { intros h'. rewrite insert_take_drop by done. rewrite map_app, concat_app. f_equal. cbn [map concat level_timers]. f_equal.
    rewrite insert_take_drop by (by eapply lookup_lt_Some). by rewrite concat_app. }
  split.
  - unfold pending. rewrite <- (list_insert_id (tm_level ts) l (Some b)) at 1 by done. rewrite <- (list_insert_id b j h) at 1 by done. rewrite HB. solve_Permutation.
  - intros h'. unfold pending, set_level. cbn [tm_far tm_level]. rewrite HB. solve_Permutation.
Qed.

Lemma concat_replicate_nil {A} n : concat (replicate n (@nil A)) = [].
Proof. induction n; [done|]. done. Qed.

Lemma pending_new_level ts l : l < length (tm_level ts) -> level_at ts l = None -> pending (set_level l (replicate 32 []) ts) = pending ts.
Proof.
  intros Hl HN. unfold level_at in HN. destruct (lookup_lt_is_Some_2 _ _ Hl) as [x E]. rewrite E in HN. cbn in HN. subst x.
  unfold pending, set_level. cbn [tm_far tm_level]. f_equal. rewrite insert_take_drop by done. rewrite <- (take_drop_middle (tm_level ts) l None) at 3 by done.
  rewrite !map_app, !concat_app. f_equal.
Qed.

Lemma elem_concat {A} (x : A) ls : x ∈ concat ls <-> exists l, l ∈ ls /\ x ∈ l.
Proof. rewrite list_elem_of_In, in_concat. by setoid_rewrite list_elem_of_In. Qed.

(** A timer is pending when it is in the far list or in a bucket. *)
Lemma elem_pending ts t : t ∈ pending ts <-> t ∈ tm_far ts \/ exists l b j h, level_at ts l = Some b /\ b !! j = Some h /\ t ∈ h.
Proof.
  unfold pending. rewrite elem_of_app. apply or_iff_compat_l. rewrite elem_concat. split.
  - intros (x & (o & -> & Ho)%list_elem_of_fmap & Hx). destruct o as [b|]; [|by apply not_elem_of_nil in Hx].
    cbn [level_timers] in Hx. apply elem_concat in Hx as (h & Hh & Hx).
    apply list_elem_of_lookup in Ho as [l Hl]. apply list_elem_of_lookup in Hh as [j Hj].
    exists l, b, j, h. split; [|done]. unfold level_at. by rewrite Hl.
  - intros (l & b & j & h & Hl & Hj & Ht). unfold level_at in Hl. destruct (tm_level ts !! l) as [x|] eqn:E; [|done]. cbn in Hl. subst x.
    exists (concat b). split.
    + apply (list_elem_of_fmap_2 level_timers _ (Some b)). by eapply list_elem_of_lookup_2.
    + apply elem_concat. exists h. split; [by eapply list_elem_of_lookup_2|done].
Qed.

(** * The invariant

    [n] levels are there, from the finest on. *)
Record twf (n : nat) (ts : timers) : Prop := TWf {
  twf_base : (0 <= tm_base ts < TIME_LIMIT)%Z;
  twf_times : forall t, t ∈ pending ts -> (tm_base ts <= t_time t < TIME_LIMIT)%Z;
  twf_length : length (tm_level ts) = TIMER_LEVELS /\ length (tm_firsts ts) = S TIMER_LEVELS;
  twf_levels : n <= 12 /\ forall l, is_Some (level_at ts l) <-> l < n;
  twf_buckets : forall l b, level_at ts l = Some b -> length b = 32 /\
    forall j h t, b !! j = Some h -> t ∈ h -> fits (tm_base ts) l (t_time t) /\ j = bucket_of (t_time t) l;
  twf_far : n = 0 \/ forall t, t ∈ tm_far ts -> (tm_base ts / W n < t_time t / W n)%Z;
  twf_firsts : (forall l b f t, level_at ts l = Some b -> tm_firsts ts !! l = Some f -> t ∈ concat b -> (f <= t_time t)%Z) /\
    (forall f t, tm_firsts ts !! TIMER_LEVELS = Some f -> t ∈ tm_far ts -> (f <= t_time t)%Z);
  twf_first : (tm_base ts <= tm_first ts <= NO_TIME)%Z /\ forall t, t ∈ pending ts -> (tm_first ts <= t_time t)%Z }.

(** The parts of the state that an operation leaves alone. *)
Definition same_frame (ts ts' : timers) : Prop :=
  tm_base ts' = tm_base ts /\ tm_first ts' = tm_first ts /\ (forall l, is_Some (level_at ts' l) <-> is_Some (level_at ts l)).

Lemma same_frame_refl ts : same_frame ts ts.
Proof. done. Qed.
Lemma same_frame_trans a b c : same_frame a b -> same_frame b c -> same_frame a c.
Proof. intros (H1 & H2 & H3) (K1 & K2 & K3). split_and!; [congruence|congruence|]. intros l. by rewrite K3, H3. Qed.

Lemma lower_first_at ts i time k f : tm_firsts (lower_first i time ts) !! k = Some f ->
  exists f0, tm_firsts ts !! k = Some f0 /\ (f <= f0)%Z /\ (k = i -> (f <= time)%Z).
Proof.
  unfold lower_first. cbn [tm_firsts set_firsts]. destruct (decide (k = i)) as [->|Hn].
  - rewrite list_lookup_alter_eq. destruct (tm_firsts ts !! i) as [f0|]; [|done]. cbn. intros [= <-]. exists f0.
    destruct (Z.ltb_spec time f0); split_and!; try done; lia.
  - rewrite list_lookup_alter_ne by done. intros E. exists f. split_and!; try done; lia.
Qed.

Lemma twf_timer_bounds n ts t : twf n ts -> t ∈ pending ts -> (0 <= t_time t)%Z.
Proof. intros H Ht. pose proof (twf_times _ _ H t Ht). pose proof (twf_base _ _ H). lia. Qed.

Lemma alter_insert {A} (f : A -> A) j (l : list A) x : l !! j = Some x -> alter f j l = <[j := f x]> l.
Proof. revert j. induction l as [|a l IH]; intros [|j] H; try done; cbn in *; [by injection H as ->|]. f_equal. by apply IH. Qed.

Lemma pending_far_snoc ts t : pending (set_far (tm_far ts ++ [t]) ts) ≡ₚ t :: pending ts.
Proof. unfold pending. cbn [set_far tm_far tm_level]. solve_Permutation. Qed.

(** Adding a timer that is not before the base keeps the invariant. *)
Section AddRaw.
Context (n : nat) (ts : timers) (t : timer).
Hypothesis (H : twf n ts) (Ht : (tm_base ts <= t_time t < TIME_LIMIT)%Z) (Hf : (tm_first ts <= t_time t)%Z).

Let L := level_of ts (t_time t).

Lemma add_raw_far : level_at ts L = None ->
  twf n (timer_add_raw ts t) /\ pending (timer_add_raw ts t) ≡ₚ t :: pending ts /\ same_frame ts (timer_add_raw ts t).
Proof.
  intros HN. unfold timer_add_raw. fold L. rewrite HN. pose proof (twf_base _ _ H) as Hb.
  destruct (level_of_range ts (t_time t) ltac:(lia) ltac:(lia)) as (_ & _ & HL). fold L in HL.
  assert (HP : pending (lower_first TIMER_LEVELS (t_time t) (set_far (tm_far ts ++ [t]) ts)) ≡ₚ t :: pending ts) by apply pending_far_snoc.
  split_and!; [|done|done]. split; cbn [lower_first set_firsts set_far tm_base tm_first tm_far tm_level].
  - done.
  - intros u. rewrite HP, elem_of_cons. intros [->|Hu]; [lia|]. by apply (twf_times _ _ H).
  - cbn [lower_first set_firsts set_far tm_firsts]. rewrite length_alter. apply (twf_length _ _ H).
  - apply (twf_levels _ _ H).
  - apply (twf_buckets _ _ H).
  - destruct (twf_far _ _ H) as [->|HF]; [by left|]. destruct (decide (n = 0)) as [->|Hn]; [by left|]. right.
    intros u. rewrite elem_of_app, list_elem_of_singleton. intros [Hu| ->]; [by apply HF|].
    assert (n <= L). { destruct (decide (n <= L)); [done|]. exfalso. destruct (twf_levels _ _ H) as [_ HLv]. destruct (HLv L) as [_ HLv']. destruct (HLv' ltac:(lia)). congruence. }
    pose proof (W_mono n L ltac:(lia)). pose proof (W_pos n). specialize (HL ltac:(lia)).
    apply Z.lt_le_trans with (tm_base ts / W n + 1)%Z; [lia|]. rewrite <- (Z.div_add (tm_base ts) 1) by lia. apply Z.div_le_mono; lia.
  - destruct (twf_firsts _ _ H) as [H1 H2]. split.
    + intros l b f u Hl Hf' Hu. destruct (lower_first_at ts _ _ _ _ Hf') as (f0 & E & Hle & _). specialize (H1 _ _ _ _ Hl E Hu). lia.
    + intros f u Hf' Hu. destruct (lower_first_at ts _ _ _ _ Hf') as (f0 & E & Hle & Hi). apply elem_of_app in Hu as [Hu|Hu%list_elem_of_singleton].
      * specialize (H2 _ _ E Hu). lia.
      * subst u. by apply Hi.
  - split; [apply (twf_first _ _ H)|]. intros u. rewrite HP, elem_of_cons. intros [->|Hu]; [done|]. by apply (twf_first _ _ H).
Qed.

Lemma add_raw_level b : level_at ts L = Some b ->
  twf n (timer_add_raw ts t) /\ pending (timer_add_raw ts t) ≡ₚ t :: pending ts /\ same_frame ts (timer_add_raw ts t).
Proof.
  intros HB. unfold timer_add_raw. fold L. rewrite HB. pose proof (twf_base _ _ H) as Hb.
  pose proof (level_of_fits ts (t_time t) ltac:(lia) ltac:(lia)) as Hfit. fold L in Hfit.
  destruct (twf_buckets _ _ H L b HB) as [Hlen HBk]. set (j := bucket_of (t_time t) L).
  assert (Hj : j < 32) by (apply bucket_of_lt; lia). destruct (lookup_lt_is_Some_2 b j ltac:(lia)) as [h Hh].
  rewrite (alter_insert _ _ _ _ Hh). set (ts1 := set_level L (<[j := h ++ [t]]> b) ts).
  pose proof (level_at_lt _ _ _ HB) as Hlt.
  assert (HLv : forall l, level_at (lower_first L (t_time t) ts1) l = if decide (l = L) then Some (<[j := h ++ [t]]> b) else level_at ts l) by (intros l; by apply level_at_set).
  assert (HP : pending (lower_first L (t_time t) ts1) ≡ₚ t :: pending ts).
  { destruct (pending_bucket ts L b j h HB Hh) as (rest & E1 & E2). change (pending (lower_first L (t_time t) ts1)) with (pending ts1). unfold ts1. rewrite E2, E1. solve_Permutation. }
  assert (HS : same_frame ts (lower_first L (t_time t) ts1)).
  { split_and!; [done|done|]. intros l. rewrite HLv. destruct (decide (l = L)) as [->|]; [rewrite HB; split; eauto|done]. }
  split_and!; [|done|done]. split.
  - done.
  - intros u. rewrite HP, elem_of_cons. intros [->|Hu]; [exact Ht|]. by apply (twf_times _ _ H).
  - cbn [lower_first set_firsts tm_firsts tm_level ts1 set_level]. rewrite length_alter, length_insert. apply (twf_length _ _ H).
  - destruct (twf_levels _ _ H) as [Hn HLs]. split; [done|]. intros l. destruct HS as (_ & _ & HS). by rewrite HS.
  - intros l b'. rewrite HLv. destruct (decide (l = L)) as [->|Hne]; [|apply (twf_buckets _ _ H)]. intros [= <-]. rewrite length_insert. split; [done|].
    intros i h' u. destruct (decide (i = j)) as [->|Hij].
    + rewrite list_lookup_insert_eq by lia. intros [= <-]. rewrite elem_of_app, list_elem_of_singleton. intros [Hu| ->]; [by apply (HBk j h)|done].
    + rewrite list_lookup_insert_ne by done. apply HBk.
  - exact (twf_far _ _ H).
  - destruct (twf_firsts _ _ H) as [H1 H2]. split.
    + intros l b' f u. rewrite HLv. intros Hl Hf' Hu. destruct (lower_first_at ts1 _ _ _ _ Hf') as (f0 & E & Hle & Hi).
      destruct (decide (l = L)) as [->|Hne]; [|specialize (H1 _ _ _ _ Hl E Hu); lia]. injection Hl as <-.
      apply elem_concat in Hu as (h' & Hh' & Hu). apply list_elem_of_lookup in Hh' as [i Hh']. destruct (decide (i = j)) as [->|Hij].
      * rewrite list_lookup_insert_eq in Hh' by lia. injection Hh' as <-. apply elem_of_app in Hu as [Hu|Hu%list_elem_of_singleton].
        -- pose proof (H1 _ _ _ u HB E ltac:(apply elem_concat; exists h; split; [by eapply list_elem_of_lookup_2|done])). lia.
        -- subst u. by apply Hi.
      * rewrite list_lookup_insert_ne in Hh' by done.
        pose proof (H1 _ _ _ u HB E ltac:(apply elem_concat; exists h'; split; [by eapply list_elem_of_lookup_2|done])). lia.
    + intros f u Hf' Hu. destruct (lower_first_at ts1 _ _ _ _ Hf') as (f0 & E & Hle & _). specialize (H2 _ _ E Hu). lia.
  - split; [apply (twf_first _ _ H)|]. intros u. rewrite HP, elem_of_cons. intros [->|Hu]; [exact Hf|]. by apply (twf_first _ _ H).
Qed.
End AddRaw.

Lemma add_raw_wf n ts t : twf n ts -> (tm_base ts <= t_time t < TIME_LIMIT)%Z -> (tm_first ts <= t_time t)%Z ->
  twf n (timer_add_raw ts t) /\ pending (timer_add_raw ts t) ≡ₚ t :: pending ts /\ same_frame ts (timer_add_raw ts t).
Proof.
  intros H Ht Hf. destruct (level_at ts (level_of ts (t_time t))) as [b|] eqn:E; [by apply (add_raw_level n ts t H Ht Hf b)|by apply add_raw_far].
Qed.

Lemma add_all_wf n l : forall ts, twf n ts -> (forall t, t ∈ l -> (tm_base ts <= t_time t < TIME_LIMIT)%Z /\ (tm_first ts <= t_time t)%Z) ->
  twf n (foldl timer_add_raw ts l) /\ pending (foldl timer_add_raw ts l) ≡ₚ l ++ pending ts /\ same_frame ts (foldl timer_add_raw ts l).
Proof.
  induction l as [|t l IH]; intros ts H Hl; cbn [foldl]; [split_and!; done|].
  destruct (Hl t ltac:(set_solver)) as [Ht Hf]. destruct (add_raw_wf n ts t H Ht Hf) as (H1 & HP & HS). pose proof HS as (E1 & E2 & _).
  destruct (IH _ H1) as (H2 & HP2 & HS2).
  { intros u Hu. rewrite E1, E2. apply Hl. set_solver. }
  split_and!; [done| |by eapply same_frame_trans]. rewrite HP2, HP. solve_Permutation.
Qed.

(** * Moving the base forward *)

(** Removing timers keeps the invariant. *)
Lemma twf_fewer n ts ts' : twf n ts -> tm_base ts' = tm_base ts -> tm_first ts' = tm_first ts -> tm_firsts ts' = tm_firsts ts ->
  length (tm_level ts') = length (tm_level ts) -> (forall t, t ∈ tm_far ts' -> t ∈ tm_far ts) ->
  (forall l, is_Some (level_at ts' l) <-> is_Some (level_at ts l)) ->
  (forall l b', level_at ts' l = Some b' -> exists b, level_at ts l = Some b /\ length b' = length b /\
     forall j h' t, b' !! j = Some h' -> t ∈ h' -> exists h, b !! j = Some h /\ t ∈ h) ->
  twf n ts'.
Proof.
  intros H E1 E2 E3 E4 HF HL HB.
  assert (HP : forall t, t ∈ pending ts' -> t ∈ pending ts).
  { intros t. rewrite !elem_pending. intros [Hu|(l & b' & j & h' & Hl & Hj & Hu)]; [left; by apply HF|right].
    destruct (HB l b' Hl) as (b & Hb & _ & HH). destruct (HH _ _ _ Hj Hu) as (h & Hh & Hu'). by exists l, b, j, h. }
  split; rewrite ?E1, ?E2, ?E3, ?E4.
  - apply (twf_base _ _ H).
  - intros t Hu. by apply (twf_times _ _ H), HP.
  - apply (twf_length _ _ H).
  - destruct (twf_levels _ _ H) as [? HLs]. split; [done|]. intros l. by rewrite HL.
  - intros l b' Hl. destruct (HB l b' Hl) as (b & Hb & -> & HH). destruct (twf_buckets _ _ H l b Hb) as [? HBk]. split; [done|].
    intros j h' t Hj Hu. destruct (HH _ _ _ Hj Hu) as (h & Hh & Hu'). by apply (HBk j h).
  - destruct (twf_far _ _ H) as [->|HF']; [by left|right]. intros t Hu. by apply HF', HF.
  - destruct (twf_firsts _ _ H) as [H1 H2]. split.
    + intros l b' f t Hl Hf Hu. destruct (HB l b' Hl) as (b & Hb & _ & HH). apply (H1 l b f t Hb Hf).
      apply elem_concat in Hu as (h' & Hh' & Hu). apply list_elem_of_lookup in Hh' as [j Hj]. destruct (HH _ _ _ Hj Hu) as (h & Hh & Hu').
      apply elem_concat. exists h. split; [by eapply list_elem_of_lookup_2|done].
    + intros f t Hf Hu. by apply (H2 f t Hf), HF.
  - destruct (twf_first _ _ H) as [? HT]. split; [done|]. intros t Hu. by apply HT, HP.
Qed.

Lemma filter_split {A} (f : A -> bool) l : l ≡ₚ List.filter f l ++ List.filter (fun x => negb (f x)) l.
Proof. induction l as [|x l IH]; [done|]. cbn. destruct (f x); cbn; [by rewrite <- IH|]. rewrite <- Permutation_middle. by rewrite <- IH. Qed.

Lemma elem_filter {A} (f : A -> bool) l x : x ∈ List.filter f l <-> x ∈ l /\ f x = true.
Proof. rewrite !list_elem_of_In. apply filter_In. Qed.

Lemma far_get_wf n ts when : twf n ts -> let '(l, ts') := timers_far_get ts when in
  twf n ts' /\ pending ts ≡ₚ l ++ pending ts' /\ same_frame ts ts' /\ tm_level ts' = tm_level ts /\
  (forall t, t ∈ l -> (t_time t <= when)%Z) /\ (forall t, t ∈ tm_far ts' -> t ∈ tm_far ts /\ (when < t_time t)%Z).
Proof.
  intros H. unfold timers_far_get. split_and!.
  - apply (twf_fewer n ts); try done; [|intros l b' Hl; exists b'; split_and!; eauto]. intros t Ht. cbn [set_far tm_far] in Ht. by apply elem_filter in Ht as [Ht _].
  - unfold pending. cbn [set_far tm_far tm_level]. rewrite (filter_split (fun t => t_time t <=? when)%Z (tm_far ts)) at 1. solve_Permutation.
  - done.
  - done.
  - intros t [_ Ht%Z.leb_le]%elem_filter. done.
  - intros t Ht. cbn [set_far tm_far] in Ht. apply elem_filter in Ht as [Ht HL%negb_true_iff%Z.leb_gt]. done.
Qed.

Lemma level_end_eq n ts l : twf n ts -> l <= 11 -> level_end ts l = (tm_base ts + W (S l) - 1)%Z.
Proof.
  intros H Hl. unfold level_end, TIMER_LEVEL_BITS. rewrite Z.shiftl_mul_pow2, Z.mul_1_l by lia. rewrite (Z.mul_comm _ 5). fold (W (S l)).
  pose proof (twf_base _ _ H). pose proof (W_pos (S l)). pose proof (W_mono (S l) 12 ltac:(lia)). change (W 12) with (2 ^ 60)%Z in *. unfold TIME_LIMIT in *.
  unfold wrap64. apply Z.mod_small. unfold u64_mod. lia.
Qed.

Lemma src_bucket time l : (0 <= time)%Z -> Z.to_nat (Z.shiftr time (Z.of_nat l * TIMER_LEVEL_BITS) mod PER_LEVEL) = bucket_of time l.
Proof. intros. rewrite bucket_of_mod by done. unfold TIMER_LEVEL_BITS, PER_LEVEL, W. by rewrite (Z.mul_comm _ 5), Z.shiftr_div_pow2 by lia. Qed.

(** A bucket is emptied. *)
Lemma empty_bucket_wf n ts l b j : twf n ts -> level_at ts l = Some b -> j < 32 ->
  twf n (set_level l (<[j := []]> b) ts) /\ pending ts ≡ₚ default [] (b !! j) ++ pending (set_level l (<[j := []]> b) ts) /\
  same_frame ts (set_level l (<[j := []]> b) ts).
Proof.
  intros H Hb Hj. destruct (twf_buckets _ _ H l b Hb) as [Hlen _]. destruct (lookup_lt_is_Some_2 b j ltac:(lia)) as [h Hh].
  pose proof (level_at_lt _ _ _ Hb) as Hlt. destruct (pending_bucket ts l b j h Hb Hh) as (rest & P1 & P2).
  assert (HS : forall k, is_Some (level_at (set_level l (<[j:=[]]> b) ts) k) <-> is_Some (level_at ts k)).
  { intros k. rewrite level_at_set by done. destruct (decide (k = l)) as [->|]; [rewrite Hb; split; eauto|done]. }
  split; [|split; [by rewrite P1, P2, Hh|by split_and!]].
  apply (twf_fewer n ts); try done; [cbn; by rewrite length_insert|].
  intros k b'. rewrite level_at_set by done. destruct (decide (k = l)) as [->|]; [|intros Hk; exists b'; split_and!; eauto].
  intros [= <-]. exists b. rewrite length_insert. split_and!; [done|done|]. intros i h' t. destruct (decide (i = j)) as [->|].
  - rewrite list_lookup_insert_eq by lia. intros [= <-] Hu. by apply not_elem_of_nil in Hu.
  - rewrite list_lookup_insert_ne by done. eauto.
Qed.

(** What the rounds from [level] down to [lo] leave behind. *)
Record collected (n : nat) (time : Z) (lo level : nat) (ts : timers) (acc : list timer) (need : option nat) (ts' : timers) (acc' : list timer) (need' : option nat) : Prop := Collected {
  col_wf : twf n ts';
  col_frame : same_frame ts ts';
  col_pending : acc ++ pending ts ≡ₚ acc' ++ pending ts';
  col_far : (forall t, t ∈ tm_far ts' -> t ∈ tm_far ts) /\ (n <= level -> forall t, t ∈ tm_far ts' -> (tm_base ts + W (S level) <= t_time t)%Z);
  col_others : forall l, l < lo \/ level < l -> level_at ts' l = level_at ts l;
  col_empty : forall l b, lo <= l <= level -> level_at ts' l = Some b -> b !! bucket_of time l = Some [];
  col_need : need' = if decide (n <= level) then Some (n `max` lo) else need }.

Lemma collect_one_wf n time l ts acc need : l <= 11 -> twf n ts -> (0 <= time)%Z ->
  let '(ts', acc', need') := collect_one l time ts acc need in collected n time l l ts acc need ts' acc' need'.
Proof.
  intros Hl H Ht. unfold collect_one. destruct (level_at ts l) as [b|] eqn:EL.
  - rewrite (src_bucket time l Ht). destruct (empty_bucket_wf n ts l b (bucket_of time l) H EL (bucket_of_lt time l Ht)) as (H1 & HP & HS).
    pose proof (level_at_lt _ _ _ EL) as Hlt. destruct (twf_buckets _ _ H l b EL) as [Hlen _].
    assert (l < n) by (apply (twf_levels _ _ H); eauto).
    split; try done.
    + rewrite HP. solve_Permutation.
    + split; [done|]. lia.
    + intros k Hk. rewrite level_at_set by done. by destruct (decide (k = l)); [lia|].
    + intros k b' Hk. rewrite level_at_set by done. destruct (decide (k = l)) as [->|]; [|lia]. intros [= <-].
      apply list_lookup_insert_eq. rewrite Hlen. by apply bucket_of_lt.
    + by destruct (decide (n <= l)); [lia|].
  - pose proof (far_get_wf n ts (level_end ts l) H) as HG. destruct (timers_far_get ts (level_end ts l)) as [l0 ts0]. destruct HG as (H1 & HP & HS & HL & _ & HF).
    rewrite (level_end_eq n ts l H) in HF by lia.
    assert (n <= l). { destruct (decide (l < n)) as [Hn|]; [|lia]. apply (twf_levels _ _ H) in Hn as [? ?]. congruence. }
    split; try done.
    + rewrite HP. solve_Permutation.
    + split; intros; [by apply HF|]. destruct (HF t) as [_ ?]; [done|]. lia.
    + intros k _. unfold level_at. by rewrite HL.
    + intros k b' ? Hb. assert (k = l) as -> by lia. unfold level_at in Hb, EL. rewrite HL in Hb. congruence.
    + destruct (decide (n <= l)); [|lia]. f_equal. lia.
Qed.

Lemma collected_trans n time m ts acc need ts1 acc1 need1 ts2 acc2 need2 :
  collected n time (S m) (S m) ts acc need ts1 acc1 need1 -> collected n time 0 m ts1 acc1 need1 ts2 acc2 need2 ->
  collected n time 0 (S m) ts acc need ts2 acc2 need2.
Proof.
  intros [A1 A2 A3 [A4 A4'] A5 A6 A7] [B1 B2 B3 [B4 B4'] B5 B6 B7]. split; try done.
  - by eapply same_frame_trans.
  - by rewrite A3.
  - split; [auto|]. intros Hn t Htf. by apply A4', B4.
  - intros l Hl. rewrite B5, A5 by lia. done.
  - intros l b Hl Hb. destruct (decide (l = S m)) as [->|]; [|apply B6; [lia|done]]. apply A6; [lia|]. by rewrite <- B5 by lia.
  - rewrite B7, A7. destruct (decide (n <= m)), (decide (n <= S m)); try lia; try done; f_equal; lia.
Qed.

Lemma collect_wf n time level : forall ts acc need, level <= 11 -> twf n ts -> (0 <= time)%Z ->
  let '(ts', acc', need') := collect level time ts acc need in collected n time 0 level ts acc need ts' acc' need'.
Proof.
  induction level as [|m IH]; intros ts acc need Hl H Ht; cbn [collect].
  - pose proof (collect_one_wf n time 0 ts acc need Hl H Ht) as H1. destruct (collect_one _ _ _ _ _) as [[ts1 acc1] need1]. done.
  - pose proof (collect_one_wf n time (S m) ts acc need Hl H Ht) as H1. destruct (collect_one _ _ _ _ _) as [[ts1 acc1] need1].
    specialize (IH ts1 acc1 need1 ltac:(lia) (col_wf _ _ _ _ _ _ _ _ _ _ H1) Ht). destruct (collect _ _ _ _ _) as [[ts2 acc2] need2].
    by eapply collected_trans.
Qed.

(** * Fast forward *)

(** The base moves to a time that no timer is before, when the buckets of that
    time are empty up to the level that changes. *)
Lemma rebase_wf n ts time level : twf n ts -> (tm_base ts <= time <= tm_first ts)%Z -> (time < TIME_LIMIT)%Z ->
  (forall t, t ∈ pending ts -> (time <= t_time t)%Z) ->
  (forall l, level < l -> (time / W l = tm_base ts / W l)%Z) ->
  (forall l b, l <= level -> level_at ts l = Some b -> b !! bucket_of time l = Some []) ->
  (n = 0 \/ forall t, t ∈ tm_far ts -> (time / W n < t_time t / W n)%Z) ->
  twf n (set_base time ts).
Proof.
  intros H Ht Hlim HP Hhigh Hlow Hfar. pose proof (twf_base _ _ H) as Hb. split; cbn [set_base tm_base tm_first tm_firsts tm_level tm_far].
  - lia.
  - intros t Hu. change (t ∈ pending ts) in Hu. pose proof (twf_times _ _ H t Hu). specialize (HP t Hu). lia.
  - apply (twf_length _ _ H).
  - apply (twf_levels _ _ H).
  - intros l b Hl. change (level_at ts l = Some b) in Hl. destruct (twf_buckets _ _ H l b Hl) as [Hlen HB]. split; [done|].
    intros j h t Hj Hu. destruct (HB j h t Hj Hu) as [Hfit ->]. split; [|done].
    assert (Hp : t ∈ pending ts) by (apply elem_pending; right; by exists l, b, (bucket_of (t_time t) l), h).
    specialize (HP t Hp). destruct (decide (l <= level)) as [Hll|Hll].
    + assert (Hne : bucket_of (t_time t) l <> bucket_of time l).
      { intros E. rewrite E, (Hlow l b Hll Hl) in Hj. injection Hj as <-. by apply not_elem_of_nil in Hu. }
      pose proof (Z.div_le_mono _ _ (W l) (W_pos l) HP). pose proof (Z.div_le_mono _ _ (W l) (W_pos l) (proj1 Ht)).
      destruct l as [|l]; cbn [fits] in *; [lia|]. split; [|lia].
      destruct (decide (time / W (S l) = t_time t / W (S l))%Z) as [E|]; [|lia]. exfalso. apply Hne. rewrite !bucket_of_mod by lia. by rewrite E.
    + destruct l as [|l]; [lia|]. cbn [fits] in *. by rewrite Hhigh by lia.
  - done.
  - apply (twf_firsts _ _ H).
  - destruct (twf_first _ _ H) as [? HF]. split; [lia|]. exact HF.
Qed.

Lemma new_level_wf n ts far' : twf n ts -> n <= 11 -> (forall t, t ∈ far' -> t ∈ tm_far ts /\ (tm_base ts + W (S n) <= t_time t)%Z) ->
  twf (S n) (set_far far' (set_level n (replicate 32 []) ts)).
Proof.
  intros H Hn HF. destruct (twf_length _ _ H) as [HLn HFs]. unfold TIMER_LEVELS in HLn. destruct (twf_levels _ _ H) as [_ HLv].
  assert (HL : forall l, level_at (set_far far' (set_level n (replicate 32 []) ts)) l = if decide (l = n) then Some (replicate 32 []) else level_at ts l).
  { intros l. apply (level_at_set ts n). lia. }
  assert (HP : forall t, t ∈ pending (set_far far' (set_level n (replicate 32 []) ts)) -> t ∈ pending ts).
  { intros t. rewrite !elem_pending. intros [Ht|(l & b & j & h & Hl & Hj & Hu)]; [left; by apply HF|right]. rewrite HL in Hl.
    destruct (decide (l = n)) as [->|]; [|by exists l, b, j, h]. assert (b = replicate 32 []) as -> by congruence. apply lookup_replicate in Hj as [-> _]. by apply not_elem_of_nil in Hu. }
  split; cbn [set_far set_level tm_base tm_first tm_firsts tm_far].
  - apply (twf_base _ _ H).
  - intros t Hu. by apply (twf_times _ _ H), HP.
  - cbn [set_far set_level tm_level]. rewrite length_insert. done.
  - split; [lia|]. intros l. rewrite HL. destruct (decide (l = n)) as [->|]; [split; [lia|eauto]|]. rewrite HLv. lia.
  - intros l b. rewrite HL. destruct (decide (l = n)) as [->|]; [|apply (twf_buckets _ _ H)]. intros Hb. assert (b = replicate 32 []) as -> by congruence. split; [done|].
    intros j h t Hj Hu. apply lookup_replicate in Hj as [-> _]. by apply not_elem_of_nil in Hu.
  - right. intros t Hu. destruct (HF t Hu) as [_ Hge]. pose proof (W_pos (S n)). pose proof (Z.div_le_mono _ _ (W (S n)) ltac:(lia) Hge) as HD.
    replace (tm_base ts + W (S n))%Z with (tm_base ts + 1 * W (S n))%Z in HD by lia. rewrite Z.div_add in HD by lia. lia.
  - destruct (twf_firsts _ _ H) as [H1 H2]. split.
    + intros l b f t. rewrite HL. destruct (decide (l = n)) as [->|]; [|apply H1]. intros Hb _ Hu. assert (b = replicate 32 []) as -> by congruence. rewrite concat_replicate_nil in Hu. by apply not_elem_of_nil in Hu.
    + intros f t Hf Hu. by apply (H2 f t Hf), HF.
  - destruct (twf_first _ _ H) as [? HT]. split; [done|]. intros t Hu. by apply HT, HP.
Qed.

Section Alloc.
Context (timer_alloc : nat -> bool).

Lemma add_level_wf n ts : twf n ts -> n <= 11 -> timer_alloc n = true ->
  twf (S n) (add_level timer_alloc ts n) /\ pending (add_level timer_alloc ts n) ≡ₚ pending ts /\
  tm_base (add_level timer_alloc ts n) = tm_base ts /\ tm_first (add_level timer_alloc ts n) = tm_first ts.
Proof.
  intros H Hn HA. unfold add_level. rewrite HA. cbn [negb]. change (Z.to_nat PER_LEVEL) with 32. set (ts1 := set_level n (replicate 32 []) ts).
  assert (EE : level_end ts1 n = (tm_base ts + W (S n) - 1)%Z) by exact (level_end_eq n ts n H Hn). rewrite EE. unfold timers_far_get.
  set (rest := List.filter (fun t => negb (t_time t <=? tm_base ts + W (S n) - 1)%Z) (tm_far ts1)). set (out := List.filter (fun t => t_time t <=? tm_base ts + W (S n) - 1)%Z (tm_far ts1)).
  assert (H1 : twf (S n) (set_far rest ts1)).
  { apply new_level_wf; [done|done|]. intros t [Ht HL%negb_true_iff%Z.leb_gt]%elem_filter. split; [done|lia]. }
  destruct (twf_length _ _ H) as [HLn _]. unfold TIMER_LEVELS in HLn.
  assert (EN : level_at ts n = None). { destruct (level_at ts n) eqn:E; [|done]. assert (n < n) by (apply (twf_levels _ _ H); eauto). lia. }
  assert (HP : pending ts ≡ₚ out ++ pending (set_far rest ts1)).
  { rewrite <- (pending_new_level ts n ltac:(lia) EN). fold ts1. unfold pending at 1. rewrite (filter_split (fun t => t_time t <=? tm_base ts + W (S n) - 1)%Z (tm_far ts1)). unfold pending. cbn [set_far tm_far tm_level]. solve_Permutation. }
  destruct (add_all_wf (S n) out _ H1) as (H2 & HP2 & E1 & E2 & _).
  { intros t Ht. assert (Hp : t ∈ pending ts) by (rewrite HP; set_solver). split; [by apply (twf_times _ _ H)|by apply (twf_first _ _ H)]. }
  split_and!; [done|by rewrite HP2, HP|done|done].
Qed.

(** When no far timer belongs into the new level, it is just empty. *)
Lemma add_level_empty n ts : twf n ts -> n <= 11 -> timer_alloc n = true -> (forall t, t ∈ tm_far ts -> (tm_base ts + W (S n) <= t_time t)%Z) ->
  add_level timer_alloc ts n = set_far (tm_far ts) (set_level n (replicate 32 []) ts).
Proof.
  intros H Hn HA HF. unfold add_level. rewrite HA. cbn [negb]. change (Z.to_nat PER_LEVEL) with 32. set (ts1 := set_level n (replicate 32 []) ts).
  assert (EE : level_end ts1 n = (tm_base ts + W (S n) - 1)%Z) by exact (level_end_eq n ts n H Hn). rewrite EE. unfold timers_far_get.
  change (tm_far ts1) with (tm_far ts).
  assert (E : forall l, (forall t, t ∈ l -> (tm_base ts + W (S n) <= t_time t)%Z) ->
    List.filter (fun t => t_time t <=? tm_base ts + W (S n) - 1)%Z l = [] /\ List.filter (fun t => negb (t_time t <=? tm_base ts + W (S n) - 1)%Z) l = l).
  { induction l as [|t l IH]; intros Hl; [done|]. cbn [List.filter]. rewrite (proj2 (Z.leb_gt _ _)) by (specialize (Hl t ltac:(set_solver)); lia).
    cbn [negb]. destruct IH as [-> ->]; [intros; apply Hl; set_solver|done]. }
  destruct (E _ HF) as [-> ->]. done.
Qed.

Lemma xor_level base time : (0 <= base <= time)%Z -> (time < TIME_LIMIT)%Z -> time <> base ->
  let level := (ilog64_nz (Z.lxor time base) - 1) / 5 in level <= 11 /\ forall l, level < l -> (time / W l = base / W l)%Z.
Proof.
  intros Hb Hlim Hne. unfold ilog64_nz, TIME_LIMIT in *.
  assert (HX : (0 < Z.lxor time base < 2 ^ 60)%Z).
  { assert (0 <= Z.lxor time base)%Z by (apply Z.lxor_nonneg; lia). assert (Z.lxor time base <> 0)%Z by (intros E; by apply Z.lxor_eq in E).
    split; [lia|]. apply Z.log2_lt_pow2; [lia|]. eapply Z.le_lt_trans; [apply Z.log2_lxor; lia|].
    assert (HL : forall x, (0 <= x < 2 ^ 60)%Z -> (Z.log2 x < 60)%Z) by (intros x Hx; destruct (decide (x = 0)%Z) as [->|]; [cbn; lia|apply Z.log2_lt_pow2; lia]).
    apply Z.max_lub_lt; apply HL; lia. }
  rewrite ilog64_spec by (unfold u64_mod; lia). unfold bit_length. rewrite (proj2 (Z.eqb_neq _ _)) by lia.
  pose proof (log2_bound _ _ HX) as Hk. set (k := Z.log2 (Z.lxor time base)) in *. replace (Z.to_nat (k + 1) - 1) with (Z.to_nat k) by lia.
  pose proof (Nat.div_mod_eq (Z.to_nat k) 5) as HD. pose proof (Nat.mod_upper_bound (Z.to_nat k) 5 ltac:(lia)). split; [lia|].
  intros l Hl. unfold W. rewrite <- !Z.shiftr_div_pow2 by lia. apply Z.lxor_eq. rewrite <- Z.shiftr_lxor.
  apply Z.shiftr_eq_0; [lia|]. fold k. lia.
Qed.

(** The step over a missing level: it is added, empty, or stays missing. *)
Section Grow.
Context (n level : nat) (ts : timers) (time : Z).
Hypothesis (H : twf n ts) (Hn : n <= level) (Hl : level <= 11) (Ht : (tm_base ts <= time <= tm_first ts)%Z) (Hlim : (time < TIME_LIMIT)%Z).
Hypothesis (HP : forall t, t ∈ pending ts -> (time <= t_time t)%Z) (Hhigh : forall l, level < l -> (time / W l = tm_base ts / W l)%Z).
Hypothesis (Hempty : forall l b, l <= level -> level_at ts l = Some b -> b !! bucket_of time l = Some []).
Hypothesis (Hfar : forall t, t ∈ tm_far ts -> (tm_base ts + W (S level) <= t_time t)%Z).

Lemma grow_far k : k <= S level -> forall t, t ∈ tm_far ts -> (time / W k < t_time t / W k)%Z.
Proof.
  intros Hk t Hu. apply (div_coarse k (S level)); [done|]. rewrite Hhigh by lia. specialize (Hfar t Hu). pose proof (W_pos (S level)).
  pose proof (Z.div_le_mono _ _ (W (S level)) ltac:(lia) Hfar) as HD. replace (tm_base ts + W (S level))%Z with (tm_base ts + 1 * W (S level))%Z in HD by lia.
  rewrite Z.div_add in HD by lia. lia.
Qed.

Let grown := set_far (tm_far ts) (set_level n (replicate 32 []) ts).

Lemma grown_level l : level_at grown l = if decide (l = n) then Some (replicate 32 []) else level_at ts l.
Proof. apply (level_at_set ts n). destruct (twf_length _ _ H) as [HL _]. unfold TIMER_LEVELS in HL. lia. Qed.

Lemma grown_pending : pending grown = pending ts.
Proof.
  destruct (twf_length _ _ H) as [HL _]. unfold TIMER_LEVELS in HL.
  apply (pending_new_level ts n); [lia|]. destruct (level_at ts n) eqn:E; [|done]. assert (n < n) by (apply (twf_levels _ _ H); eauto). lia.
Qed.

Lemma grow_wf : exists n', n <= n' /\ twf n' (set_base time (add_level timer_alloc ts n)) /\
  pending (add_level timer_alloc ts n) = pending ts /\ tm_first (add_level timer_alloc ts n) = tm_first ts.
Proof.
  destruct (timer_alloc n) eqn:EA.
  - assert (HF : forall t, t ∈ tm_far ts -> (tm_base ts + W (S n) <= t_time t)%Z).
    { intros t Hu. pose proof (W_mono (S n) (S level) ltac:(lia)). specialize (Hfar t Hu). lia. }
    rewrite (add_level_empty n ts H ltac:(lia) EA HF). fold grown. exists (S n). split_and!; [lia| |apply grown_pending|done].
    apply (rebase_wf (S n) grown time level); try done.
    + apply new_level_wf; [done|lia|]. intros t Hu. split; [done|]. by apply HF.
    + intros t. rewrite grown_pending. apply HP.
    + intros l b Hll. rewrite grown_level. destruct (decide (l = n)); [|by apply Hempty]. intros Hb. assert (b = replicate 32 []) as -> by congruence.
      apply lookup_replicate. split; [done|]. apply bucket_of_lt. pose proof (twf_base _ _ H). lia.
    + right. apply grow_far. lia.
  - exists n. unfold add_level. rewrite EA. split_and!; try done. apply (rebase_wf n ts time level); try done. right. apply grow_far. lia.
Qed.
End Grow.

(** Fast forward keeps every timer, and the invariant at the new base. *)
Lemma fast_forward_wf n ts time : twf n ts -> (tm_base ts <= time <= tm_first ts)%Z -> (time < TIME_LIMIT)%Z ->
  exists n', n <= n' /\ twf n' (timer_fast_forward timer_alloc ts time) /\ pending (timer_fast_forward timer_alloc ts time) ≡ₚ pending ts /\
    tm_base (timer_fast_forward timer_alloc ts time) = time /\ tm_first (timer_fast_forward timer_alloc ts time) = tm_first ts.
Proof.
  intros H Ht Hlim. unfold timer_fast_forward. destruct (Z.eqb_spec time (tm_base ts)) as [->|Hne]; [exists n; split_and!; done|].
  pose proof (twf_base _ _ H) as Hb. change (Z.to_nat TIMER_LEVEL_BITS) with 5.
  destruct (xor_level (tm_base ts) time ltac:(lia) Hlim Hne) as [Hlev Hhigh]. set (level := (ilog64_nz (Z.lxor time (tm_base ts)) - 1) / 5) in *.
  pose proof (collect_wf n time level ts [] None Hlev H ltac:(lia)) as HC. destruct (collect level time ts [] None) as [[ts1 out] need].
  destruct HC as [C1 (C2 & C2' & _) C3 [C4 C4'] _ C6 C7]. cbn [app] in C3.
  assert (HPt : forall t, t ∈ out ++ pending ts1 -> (time <= t_time t < TIME_LIMIT)%Z /\ (tm_first ts <= t_time t)%Z).
  { intros t Hu. rewrite <- C3 in Hu. pose proof (twf_times _ _ H t Hu). destruct (twf_first _ _ H) as [_ HF]. specialize (HF t Hu). lia. }
  assert (HP1 : forall t, t ∈ pending ts1 -> (time <= t_time t)%Z) by (intros; apply HPt, elem_of_app; by right).
  assert (HC6 : forall l b, l <= level -> level_at ts1 l = Some b -> b !! bucket_of time l = Some []) by (intros l b Hl; apply C6; lia).
  assert (HD : exists n', n <= n' /\ twf n' (set_base time (match need with Some l => add_level timer_alloc ts1 l | None => ts1 end)) /\
    pending (match need with Some l => add_level timer_alloc ts1 l | None => ts1 end) = pending ts1 /\ tm_first (match need with Some l => add_level timer_alloc ts1 l | None => ts1 end) = tm_first ts1).
  { rewrite C7. destruct (decide (n <= level)) as [Hnl|Hnl].
    - rewrite Nat.max_0_r. apply (grow_wf n level ts1 time); rewrite ?C2, ?C2'; try done. by apply C4'.
    - exists n. split_and!; try done. apply (rebase_wf n ts1 time level); rewrite ?C2, ?C2'; try done. rewrite Hhigh by lia. rewrite <- C2. apply (twf_far _ _ C1). }
  destruct HD as (n' & Hn' & H2 & HP2 & EF). destruct (add_all_wf n' out _ H2) as (H3 & HP3 & E1 & E2 & _).
  { intros t Hu. cbn [set_base tm_base tm_first]. rewrite EF, C2'. apply HPt, elem_of_app. by left. }
  exists n'. split_and!; [done|done| |done|rewrite E2; cbn [set_base tm_first]; by rewrite EF].
  rewrite HP3. unfold pending at 1. cbn [set_base tm_far tm_level]. fold (pending (match need with Some l => add_level timer_alloc ts1 l | None => ts1 end)). by rewrite HP2, C3.
Qed.
End Alloc.

(** * The earliest timer *)

(** [o] is a timer of [l] that none is before; there is one unless [l] is empty. *)
Definition is_min (l : list timer) (o : option timer) : Prop :=
  match o with Some t => t ∈ l /\ forall u, u ∈ l -> (t_time t <= t_time u)%Z | None => l = [] end.

Lemma is_min_ext l k o : (forall t, t ∈ l <-> t ∈ k) -> is_min l o -> is_min k o.
Proof.
  intros E. destruct o as [t|]; cbn.
  - intros [H1 H2]. split; [by apply E|]. intros u Hu. by apply H2, E.
  - intros ->. destruct k as [|x k]; [done|]. destruct (E x) as [_ E']. by apply elem_of_nil in E'; [|left].
Qed.

(** One more timer. *)
Lemma is_min_snoc l o t : is_min l o ->
  is_min (l ++ [t]) (match o with Some p => if (t_time t <? t_time p)%Z then Some t else o | None => Some t end).
Proof.
  destruct o as [p|]; cbn.
  - intros [H1 H2]. destruct (Z.ltb_spec (t_time t) (t_time p)); cbn; (split; [set_solver|]); intros u; rewrite elem_of_app, list_elem_of_singleton; intros [Hu| ->]; try lia; specialize (H2 u Hu); lia.
  - intros ->. split; [set_solver|]. intros u. rewrite elem_of_app, list_elem_of_singleton. intros [Hu%elem_of_nil| ->]; [done|lia].
Qed.

(** The two minima of two lists. *)
Lemma is_min_app l k o t : is_min l o -> is_min k (Some t) ->
  is_min (l ++ k) (match o with Some f => if (t_time t <? t_time f)%Z then Some t else o | None => Some t end).
Proof.
  intros Ho [Ht1 Ht2]. destruct o as [f|]; cbn in *.
  - destruct Ho as [H1 H2]. destruct (Z.ltb_spec (t_time t) (t_time f)); cbn; (split; [set_solver|]); intros u [Hu|Hu]%elem_of_app; try specialize (H2 u Hu); try specialize (Ht2 u Hu); lia.
  - subst l. done.
Qed.

Lemma find_first_coarse l : forall pre level prev, 0 < level -> is_min pre prev -> is_min (pre ++ l) (find_first l level prev).
Proof.
  induction l as [|t l IH]; intros pre [|level] prev Hl H; try lia; [by rewrite app_nil_r|]. cbn [find_first foldl].
  rewrite cons_middle, app_assoc. apply (IH (pre ++ [t]) (S level)); [lia|]. by apply is_min_snoc.
Qed.

Lemma find_first_fine l pre prev : (forall t u, t ∈ l -> u ∈ l -> t_time t = t_time u) -> is_min pre prev -> is_min (pre ++ l) (find_first l 0 prev).
Proof.
  intros HE H. destruct l as [|t l]; [by rewrite app_nil_r|]. cbn [find_first].
  assert (HM : is_min (t :: l) (Some t)) by (split; [set_solver|]; intros u Hu; rewrite (HE t u); [lia|set_solver|done]).
  destruct prev as [p|]; [by apply (is_min_app pre (t :: l) (Some p))|]. cbn in H. subst pre. done.
Qed.

(** The earliest of a level, bucket by bucket. *)
Lemma find_level level b : forall pre prev,
  (level = 0 -> forall h, h ∈ b -> forall t u, t ∈ h -> u ∈ h -> t_time t = t_time u) -> is_min pre prev ->
  is_min (pre ++ concat b) (foldl (fun t h => find_first h level t) prev b).
Proof.
  induction b as [|h b IH]; intros pre prev HE H; cbn [foldl concat]; [by rewrite app_nil_r|].
  rewrite app_assoc. apply IH; [intros E h' Hh'; apply HE; [done|set_solver]|].
  destruct level as [|level]; [apply find_first_fine; [apply HE; [done|set_solver]|done]|apply find_first_coarse; [lia|done]].
Qed.

(** Only the watermarks of the levels differ. *)
Definition same_but_firsts (ts ts' : timers) : Prop := exists f, ts' = set_firsts f ts.

(** Writing the exact first of a level is right. *)
Lemma first_for_level_wf n ts l lf first ls : twf n ts -> is_min ls lf ->
  (forall b, level_at ts l = Some b -> forall t, t ∈ concat b -> t ∈ ls) -> (l = TIMER_LEVELS -> forall t, t ∈ tm_far ts -> t ∈ ls) ->
  let '(ts', _) := first_for_level ts l lf first in twf n ts' /\ same_but_firsts ts ts'.
Proof.
  intros H Hm Hb Hfar.
  assert (HG : forall v, (forall t, t ∈ ls -> (v <= t_time t)%Z) -> twf n (set_firsts (<[l := v]> (tm_firsts ts)) ts)).
  { intros v Hv. split; try by apply H.
    - cbn [set_firsts tm_firsts tm_level]. rewrite length_insert. apply (twf_length _ _ H).
    - destruct (twf_firsts _ _ H) as [H1 H2]. split.
      + intros k b f t Hk Hf Ht. cbn [set_firsts tm_firsts] in Hf. change (level_at ts k = Some b) in Hk. destruct (decide (k = l)) as [->|Hne].
        * apply list_lookup_insert_Some in Hf as [(_ & -> & _)|[? _]]; [|done]. by apply Hv, (Hb b).
        * rewrite list_lookup_insert_ne in Hf by done. by apply (H1 k b f).
      + intros f t Hf Ht. cbn [set_firsts tm_firsts] in Hf. change (t ∈ tm_far ts) in Ht. destruct (decide (TIMER_LEVELS = l)) as [<-|Hne].
        * apply list_lookup_insert_Some in Hf as [(_ & -> & _)|[? _]]; [|done]. by apply Hv, Hfar.
        * rewrite list_lookup_insert_ne in Hf by done. by apply (H2 f). }
  destruct lf as [t|]; cbn [first_for_level]; (split; [apply HG|by eexists]); [apply Hm|]. cbn in Hm. subst ls. by intros t ?%elem_of_nil.
Qed.

(** A level that cannot beat what was found does not. *)
Lemma may_not_beat n ts l b found pre : twf n ts -> level_at ts l = Some b -> level_may_beat ts l found = false -> is_min pre found -> is_min (pre ++ concat b) found.
Proof.
  intros H Hb HM Hp. destruct found as [f|]; [|done]. cbn in HM. apply Z.ltb_ge in HM. destruct Hp as [H1 H2]. split; [set_solver|].
  intros u [Hu|Hu]%elem_of_app; [by apply H2|]. destruct (twf_length _ _ H) as [HL HF]. pose proof (level_at_lt _ _ _ Hb).
  destruct (lookup_lt_is_Some_2 (tm_firsts ts) l ltac:(lia)) as [v Ev]. rewrite Ev in HM. cbn in HM. pose proof (proj1 (twf_firsts _ _ H) l b v u Hb Ev Hu). lia.
Qed.

(** The timers of the levels from [l] on, [m] of them. *)
Definition levels_timers (ts : timers) (l m : nat) : list timer := concat (map (fun k => level_timers (level_at ts k)) (seq l m)).

Lemma level_same_time n ts b : twf n ts -> level_at ts 0 = Some b -> forall h, h ∈ b -> forall t u, t ∈ h -> u ∈ h -> t_time t = t_time u.
Proof.
  intros H Hb h Hh t u Ht Hu. apply list_elem_of_lookup in Hh as [j Hj]. destruct (twf_buckets _ _ H 0 b Hb) as [_ HB].
  destruct (HB j h t Hj Ht) as [F1 B1], (HB j h u Hj Hu) as [F2 B2]. cbn in F1, F2. pose proof (twf_base _ _ H).
  rewrite B1, !bucket_of_mod in B2 by lia. change (W 0) with 1%Z in B2. rewrite !Z.div_1_r in B2.
  pose proof (Z.mod_pos_bound (t_time t) 32 ltac:(lia)). pose proof (Z.mod_pos_bound (t_time u) 32 ltac:(lia)).
  pose proof (Z.div_mod (t_time t) 32 ltac:(lia)). pose proof (Z.div_mod (t_time u) 32 ltac:(lia)). lia.
Qed.

Lemma levels_none ts l m : (forall k, l <= k -> level_at ts k = None) -> levels_timers ts l m = [].
Proof.
  intros HN. unfold levels_timers. revert l HN. induction m as [|m IH]; intros l HN; [done|]. cbn [seq map concat]. rewrite HN by lia. cbn. apply IH. intros k Hk. apply HN. lia.
Qed.

Lemma level_none_above n ts l : twf n ts -> level_at ts l = None -> forall k, l <= k -> level_at ts k = None.
Proof.
  intros H EL k Hk. destruct (level_at ts k) eqn:E; [|done]. destruct (twf_levels _ _ H) as [_ HL]. assert (k < n) by (apply HL; eauto).
  destruct (proj2 (HL l) ltac:(lia)) as [? ?]. congruence.
Qed.

Lemma brute_levels_min n m : forall l ts pre found, twf n ts -> is_min pre found ->
  let '(ts', found') := brute_levels m l ts found in twf n ts' /\ same_but_firsts ts ts' /\ is_min (pre ++ levels_timers ts l m) found'.
Proof.
  induction m as [|m IH]; intros l ts pre found H Hp; cbn [brute_levels].
  - split_and!; [done|by exists (tm_firsts ts); destruct ts|by rewrite app_nil_r].
  - unfold levels_timers. cbn [seq map concat]. fold (levels_timers ts (S l) m). destruct (level_at ts l) as [b|] eqn:EL.
    + destruct (level_may_beat ts l found) eqn:EM; cbn [negb level_timers].
      * assert (HL : is_min (concat b) (foldl (fun t h => find_first h l t) None b)).
        { apply (find_level l b [] None); [|done]. intros ->. by apply (level_same_time n ts). }
        pose proof (first_for_level_wf n ts l _ found (concat b) H HL) as HF.
        assert (HM : is_min (pre ++ concat b) (first_for_level ts l (foldl (fun t h => find_first h l t) None b) found).2).
        { destruct (foldl _ None b) as [t|]; cbn [first_for_level snd]; [by apply is_min_app|]. cbn in HL. by rewrite HL, app_nil_r. }
        destruct (first_for_level ts l _ found) as [ts1 found1]. destruct HF as [H1 [f ->]].
        { intros b'. rewrite EL. by intros [= ->]. }
        { intros ->. apply level_at_lt in EL. destruct (twf_length _ _ H). lia. }
        cbn [snd] in HM. specialize (IH (S l) _ _ _ H1 HM). destruct (brute_levels m (S l) _ found1) as [ts2 found2]. destruct IH as (I1 & [f' ->] & I3).
        split_and!; [done|by exists f'|]. by rewrite app_assoc.
      * specialize (IH (S l) ts (pre ++ concat b) found H (may_not_beat _ _ _ _ _ _ H EL EM Hp)). destruct (brute_levels m (S l) ts found) as [ts2 found2].
        destruct IH as (I1 & I2 & I3). split_and!; [done|done|]. by rewrite app_assoc.
    + split_and!; [done|by exists (tm_firsts ts); destruct ts|]. cbn [level_timers app].
      rewrite (levels_none ts (S l) m), app_nil_r; [done|]. intros k Hk. apply (level_none_above n ts l H EL). lia.
Qed.

Lemma elem_levels ts t : length (tm_level ts) = TIMER_LEVELS -> t ∈ levels_timers ts 0 TIMER_LEVELS <-> t ∈ concat (map level_timers (tm_level ts)).
Proof.
  intros HL. unfold levels_timers. rewrite !elem_concat. split.
  - intros (x & (k & -> & Hk)%list_elem_of_fmap & Ht). unfold level_at in Ht. destruct (tm_level ts !! k) as [o|] eqn:E; [|by apply not_elem_of_nil in Ht].
    exists (level_timers o). split; [|done]. apply list_elem_of_fmap_2. by eapply list_elem_of_lookup_2.
  - intros (x & (o & -> & Ho)%list_elem_of_fmap & Ht). apply list_elem_of_lookup in Ho as [k Hk]. exists (level_timers (level_at ts k)). split.
    + apply (list_elem_of_fmap_2 (fun k => level_timers (level_at ts k))). apply elem_of_seq. apply lookup_lt_Some in Hk. unfold TIMER_LEVELS in *. lia.
    + unfold level_at. by rewrite Hk.
Qed.

Lemma brute_force_min n ts : twf n ts -> let '(ts', found) := brute_force_first ts in twf n ts' /\ same_but_firsts ts ts' /\ is_min (pending ts) found.
Proof.
  intros H. unfold brute_force_first. pose proof (brute_levels_min n TIMER_LEVELS 0 ts [] None H eq_refl) as HB.
  destruct (brute_levels TIMER_LEVELS 0 ts None) as [ts1 found]. destruct HB as (H1 & [f ->] & HM). cbn [app] in HM.
  assert (HX : forall o, is_min (levels_timers ts 0 TIMER_LEVELS ++ tm_far ts) o -> is_min (pending ts) o).
  { intros o. apply is_min_ext. intros t. unfold pending. rewrite !elem_of_app, elem_levels by apply (twf_length _ _ H). tauto. }
  destruct (level_may_beat _ _ found) eqn:EM.
  - change (tm_far (set_firsts f ts)) with (tm_far ts).
    pose proof (find_first_coarse (tm_far ts) [] TIMER_LEVELS None ltac:(unfold TIMER_LEVELS; lia) eq_refl) as HF. cbn [app] in HF.
    pose proof (first_for_level_wf n (set_firsts f ts) TIMER_LEVELS _ found (tm_far ts) H1 HF) as HW.
    assert (HM' : is_min (pending ts) (first_for_level (set_firsts f ts) TIMER_LEVELS (find_first (tm_far ts) TIMER_LEVELS None) found).2).
    { apply HX. destruct (find_first (tm_far ts) TIMER_LEVELS None) as [t|]; cbn [first_for_level snd]; [by apply is_min_app|]. cbn in HF. by rewrite HF, app_nil_r. }
    destruct (first_for_level _ _ _ found) as [ts2 found2]. destruct HW as [H2 [f' ->]].
    + intros b Hb. apply level_at_lt in Hb. destruct (twf_length _ _ H). cbn in Hb. lia.
    + done.
    + split_and!; [done|by exists f'|done].
  - split_and!; [done|by exists f|]. apply HX. destruct found as [t|]; [|done]. destruct HM as [M1 M2]. split; [set_solver|].
    intros u [Hu|Hu]%elem_of_app; [by apply M2|]. cbn in EM. apply Z.ltb_ge in EM. destruct (twf_length _ _ H1) as [_ HLn]. cbn in HLn.
    destruct (lookup_lt_is_Some_2 f TIMER_LEVELS ltac:(unfold TIMER_LEVELS in *; lia)) as [v Ev]. rewrite Ev in EM. cbn in EM.
    pose proof (proj2 (twf_firsts _ _ H1) v u Ev Hu). lia.
Qed.

Lemma find_lookup {A} (f : A -> bool) l h : List.find f l = Some h -> exists i, l !! i = Some h /\ f h = true /\ forall j h', j < i -> l !! j = Some h' -> f h' = false.
Proof.
  induction l as [|x l IH]; [done|]. cbn [List.find]. destruct (f x) eqn:E.
  - intros [= <-]. exists 0. split_and!; [done|done|lia].
  - intros H. destruct (IH H) as (i & H1 & H2 & H3). exists (S i). split_and!; [done|done|]. intros [|j] h' Hj; cbn; [by intros [= <-]|]. apply H3. lia.
Qed.

(** A bucket of level 0 that is not behind the base has the time it stands for. *)
Lemma fine_time n ts b j h t : twf n ts -> level_at ts 0 = Some b -> b !! j = Some h -> t ∈ h ->
  let off := Z.to_nat (tm_base ts mod 32) in
  j < 32 /\ (off <= j -> t_time t = (tm_base ts / 32 * 32 + Z.of_nat j)%Z) /\ (j < off -> t_time t = (tm_base ts / 32 * 32 + 32 + Z.of_nat j)%Z).
Proof.
  intros H Hb Hj Ht. destruct (twf_buckets _ _ H 0 b Hb) as [_ HB]. destruct (HB j h t Hj Ht) as [F B]. cbn in F. pose proof (twf_base _ _ H).
  rewrite bucket_of_mod in B by lia. change (W 0) with 1%Z in B. rewrite Z.div_1_r in B.
  pose proof (Z.mod_pos_bound (t_time t) 32 ltac:(lia)). pose proof (Z.mod_pos_bound (tm_base ts) 32 ltac:(lia)).
  pose proof (Z.div_mod (t_time t) 32 ltac:(lia)). pose proof (Z.div_mod (tm_base ts) 32 ltac:(lia)). cbn zeta. lia.
Qed.

(** Timers outside level 0 are beyond the range of 32 that the base is in. *)
Lemma not_fine_later n ts t : twf n ts -> 0 < n -> t ∈ tm_far ts \/ (exists l b j h, 0 < l /\ level_at ts l = Some b /\ b !! j = Some h /\ t ∈ h) ->
  (tm_base ts / 32 < t_time t / 32)%Z.
Proof.
  intros H Hn HT. change 32%Z with (W 1). destruct HT as [Ht|(l & b & j & h & Hl & Hb & Hj & Ht)].
  - destruct (twf_far _ _ H) as [->|HF]; [lia|]. apply (div_coarse 1 n); [lia|]. by apply HF.
  - destruct (twf_buckets _ _ H l b Hb) as [_ HB]. destruct (HB j h t Hj Ht) as [F _]. destruct l as [|l]; [lia|]. cbn [fits] in F.
    apply (div_coarse 1 (S l)); [lia|]. lia.
Qed.

Lemma get_first_min n ts : twf n ts -> let '(ts', found) := get_first ts in twf n ts' /\ same_but_firsts ts ts' /\ is_min (pending ts) found.
Proof.
  intros H. unfold get_first. destruct (level_at ts 0) as [b|] eqn:EL; cbn [mbind option_bind]; [|by apply brute_force_min].
  destruct (lower_bucket b _) as [h|] eqn:EB; [|by apply brute_force_min].
  split_and!; [done|by exists (tm_firsts ts); destruct ts|].
  unfold lower_bucket in EB. apply find_lookup in EB as (i & Hi & Hh & Hbefore). rewrite lookup_drop in Hi. unfold PER_LEVEL in *.
  destruct h as [|t h]; [done|]. cbn [find_first].
  set (off := Z.to_nat (tm_base ts mod 32)) in *.
  destruct (fine_time n ts b _ _ t H EL Hi ltac:(left)) as (Hlt & HT & _). fold off in HT. specialize (HT ltac:(lia)).
  assert (0 < n) by (apply (twf_levels _ _ H); eauto). pose proof (Z.mod_pos_bound (tm_base ts) 32 ltac:(lia)). pose proof (Z.div_mod (tm_base ts) 32 ltac:(lia)).
  split; [apply elem_pending; right; exists 0, b, (off + i), (t :: h); split_and!; [done|done|left]|].
  intros u. rewrite elem_pending. intros [Hu|(l & b' & j & h' & Hl & Hj & Hu)].
  - pose proof (not_fine_later n ts u H ltac:(lia) (or_introl Hu)). pose proof (Z.div_mod (t_time u) 32 ltac:(lia)). pose proof (Z.mod_pos_bound (t_time u) 32 ltac:(lia)). lia.
  - destruct l as [|l].
    + rewrite EL in Hl. injection Hl as <-. destruct (fine_time n ts b j h' u H EL Hj Hu) as (_ & HU1 & HU2). fold off in HU1, HU2.
      destruct (decide (j < off)); [specialize (HU2 ltac:(lia)); lia|]. specialize (HU1 ltac:(lia)). destruct (decide (j < off + i)); [|lia].
      specialize (Hbefore (j - off) h' ltac:(lia)). rewrite lookup_drop in Hbefore. replace (off + (j - off)) with j in Hbefore by lia. specialize (Hbefore Hj).
      destruct h'; [by apply not_elem_of_nil in Hu|done].
    + pose proof (not_fine_later n ts u H ltac:(lia) (or_intror (ex_intro _ (S l) (ex_intro _ b' (ex_intro _ j (ex_intro _ h' (conj (Nat.lt_0_succ l) (conj Hl (conj Hj Hu))))))))).
      pose proof (Z.div_mod (t_time u) 32 ltac:(lia)). pose proof (Z.mod_pos_bound (t_time u) 32 ltac:(lia)). lia.
Qed.

Lemma set_tfirst_wf n ts v : twf n ts -> (tm_base ts <= v <= NO_TIME)%Z -> (forall t, t ∈ pending ts -> (v <= t_time t)%Z) -> twf n (set_tfirst v ts).
Proof. intros H Hv HF. split; try by apply H. split; [done|]. exact HF. Qed.

Lemma update_first_wf n ts : twf n ts -> let '(ts', more) := update_first ts in
  twf n ts' /\ pending ts' = pending ts /\ tm_base ts' = tm_base ts /\ tm_level ts' = tm_level ts /\
  if more then exists t, t ∈ pending ts /\ t_time t = tm_first ts' else pending ts = [].
Proof.
  intros H. unfold update_first. pose proof (get_first_min n ts H) as HG. destruct (get_first ts) as [ts1 [t|]]; destruct HG as (H1 & [f ->] & HM); cbn in HM.
  - destruct HM as [Ht HM]. pose proof (twf_times _ _ H t Ht). split_and!; try done; [|by exists t]. apply set_tfirst_wf; [done|cbn; unfold NO_TIME, u64_mod, TIME_LIMIT in *; lia|done].
  - split_and!; try done. apply set_tfirst_wf; [done| |].
    + pose proof (twf_base _ _ H). cbn. unfold NO_TIME, u64_mod, TIME_LIMIT in *. lia.
    + intros t. change (pending (set_firsts f ts)) with (pending ts). by rewrite HM; intros ?%elem_of_nil.
Qed.

(** * Expiry *)

Lemma pop_bucket_wf n ts : twf n ts -> 0 < n -> exists ts' o, pop_bucket ts (Z.to_nat (tm_base ts mod PER_LEVEL)) = Ret (ts', o) /\ twf n ts' /\
  match o with
  | Some t => t_time t = tm_base ts /\ pending ts ≡ₚ t :: pending ts'
  | None => ts' = ts /\ forall t, t ∈ pending ts -> t_time t <> tm_base ts
  end.
Proof.
  intros H Hn. unfold pop_bucket. destruct (proj2 (proj2 (twf_levels _ _ H) 0) Hn) as [b Hb]. rewrite Hb. set (off := Z.to_nat (tm_base ts mod PER_LEVEL)).
  pose proof (Z.mod_pos_bound (tm_base ts) 32 ltac:(lia)) as Hm. pose proof (Z.div_mod (tm_base ts) 32 ltac:(lia)) as Hd.
  destruct (twf_buckets _ _ H 0 b Hb) as [Hlen _]. destruct (lookup_lt_is_Some_2 b off ltac:(unfold off, PER_LEVEL; lia)) as [h Hh]. rewrite Hh.
  destruct h as [|t r].
  - exists ts, None. split_and!; [done|done|done|]. intros u Hu E. apply elem_pending in Hu as [Hu|(l & b' & j & h & Hl & Hj & Hu)].
    + pose proof (not_fine_later n ts u H Hn (or_introl Hu)). rewrite E in *. lia.
    + destruct l as [|l].
      * rewrite Hb in Hl. injection Hl as <-. destruct (fine_time n ts b j h u H Hb Hj Hu) as (_ & H1 & H2). rewrite E in *.
        unfold off, PER_LEVEL in *. destruct (decide (j < Z.to_nat (tm_base ts mod 32))); [specialize (H2 ltac:(lia)); lia|].
        specialize (H1 ltac:(lia)). assert (j = Z.to_nat (tm_base ts mod 32)) as -> by lia. rewrite Hh in Hj. injection Hj as <-. by apply not_elem_of_nil in Hu.
      * pose proof (not_fine_later n ts u H Hn (or_intror (ex_intro _ (S l) (ex_intro _ b' (ex_intro _ j (ex_intro _ h (conj (Nat.lt_0_succ l) (conj Hl (conj Hj Hu))))))))) as HL.
        rewrite E in HL. lia.
  - exists (set_level 0 (<[off := r]> b) ts), (Some t). split; [done|]. pose proof (level_at_lt _ _ _ Hb) as Hlt. split; [|split].
    + apply (twf_fewer n ts); try done; [cbn; by rewrite length_insert| |].
      * intros k. rewrite level_at_set by done. destruct (decide (k = 0)) as [->|]; [rewrite Hb; split; eauto|done].
      * intros k b'. rewrite level_at_set by done. destruct (decide (k = 0)) as [->|]; [|intros Hk; exists b'; split_and!; eauto].
        intros [= <-]. exists b. rewrite length_insert. split_and!; [done|done|]. intros i h' u. destruct (decide (i = off)) as [->|].
        -- rewrite list_lookup_insert_eq by (unfold off, PER_LEVEL; lia). intros [= <-] Hu. exists (t :: r). split; [done|]. by right.
        -- rewrite list_lookup_insert_ne by done. eauto.
    + destruct (fine_time n ts b off (t :: r) t H Hb Hh ltac:(left)) as (_ & H1 & _). unfold off, PER_LEVEL in *. specialize (H1 ltac:(lia)). lia.
    + destruct (pending_bucket ts 0 b off (t :: r) Hb Hh) as (rest & P1 & P2). by rewrite P1, P2.
Qed.

(** What [timers_expire] promises. *)
Definition expired (ts : timers) (now : Z) (ts' : timers) (o : option timer) : Prop :=
  match o with
  | Some t => (t_time t <= now)%Z /\ pending ts ≡ₚ t :: pending ts' /\ forall u, u ∈ pending ts -> (t_time t <= t_time u)%Z
  | None => pending ts' ≡ₚ pending ts /\ forall u, u ∈ pending ts -> (now < t_time u)%Z
  end.

Lemma expired_perm ts ts1 now ts' o : pending ts1 ≡ₚ pending ts -> expired ts1 now ts' o -> expired ts now ts' o.
Proof.
  intros HP. destruct o as [t|]; cbn; setoid_rewrite HP; done.
Qed.

Section Expire.
Context (timer_alloc : nat -> bool).

(** One round: done, or the same timers with the right first one. *)
Lemma expire_round n f now ts : twf n ts -> 0 < n -> (tm_base ts <= now < TIME_LIMIT)%Z ->
  (exists n' ts' o, expire_loop timer_alloc (S f) now ts = Ret (ts', o) /\ twf n' ts' /\ expired ts now ts' o) \/
  ((forall t, t ∈ pending ts -> t_time t <> tm_first ts) /\
   exists n' ts', expire_loop timer_alloc (S f) now ts = expire_loop timer_alloc f now ts' /\ twf n' ts' /\ 0 < n' /\ pending ts' ≡ₚ pending ts /\
     (tm_base ts' <= now)%Z /\ exists t, t ∈ pending ts' /\ t_time t = tm_first ts').
Proof.
  intros H Hn Hnow. cbn [expire_loop]. destruct (twf_first _ _ H) as [Hf HF]. destruct (Z.ltb_spec now (tm_first ts)) as [HL|HG].
  - left. destruct (fast_forward_wf timer_alloc n ts now H ltac:(lia) ltac:(lia)) as (n' & _ & H1 & HP & _). exists n', (timer_fast_forward timer_alloc ts now), None.
    split; [done|]. split; [done|]. split; [done|]. intros u Hu. specialize (HF u Hu). lia.
  - destruct (fast_forward_wf timer_alloc n ts (tm_first ts) H ltac:(lia) ltac:(lia)) as (n' & Hn' & H1 & HP & HB & HF1). set (ts1 := timer_fast_forward timer_alloc ts (tm_first ts)) in *.
    destruct (pop_bucket_wf n' ts1 H1 ltac:(lia)) as (ts2 & o & -> & H2 & HO). cbn [obind]. destruct o as [t|].
    + left. destruct HO as [HT HP2]. rewrite HP in HP2. exists n', ts2, (Some t). split; [done|]. split; [done|]. split; [lia|]. split; [done|].
      intros u Hu. specialize (HF u Hu). lia.
    + destruct HO as [-> HO]. pose proof (update_first_wf n' ts1 H1) as HU. destruct (update_first ts1) as [ts3 more]. destruct HU as (H3 & EP & EB & _ & HM). destruct more.
      * right. split; [intros t Ht E; apply (HO t); [by rewrite HP|congruence]|]. exists n', ts3. destruct HM as (t & Ht & E).
        split; [done|]. split; [done|]. split; [lia|]. split; [by rewrite EP|]. split; [rewrite EB, HB; lia|]. exists t. split; [by rewrite EP|done].
      * left. exists n', ts3, None. split; [done|]. split; [done|]. assert (EN : pending ts = []) by (rewrite HM in HP; by apply Permutation_nil_l in HP). split; [by rewrite EP|].
        rewrite EN. by intros u ?%elem_of_nil.
Qed.

(** Two rounds are enough. *)
Lemma expire_total n f now ts : twf n ts -> 0 < n -> (tm_base ts <= now < TIME_LIMIT)%Z ->
  exists n' ts' o, expire_loop timer_alloc (S (S f)) now ts = Ret (ts', o) /\ twf n' ts' /\ expired ts now ts' o.
Proof.
  intros H Hn Hnow. destruct (expire_round n (S f) now ts H Hn Hnow) as [?|(_ & n1 & ts1 & -> & H1 & Hn1 & HP & HB & t & Ht & E)]; [done|].
  destruct (expire_round n1 f now ts1 H1 Hn1 ltac:(lia)) as [(n2 & ts2 & o & -> & H2 & HE)|(HN & _)]; [|by apply HN in Ht].
  exists n2, ts2, o. split; [done|]. split; [done|]. by eapply expired_perm.
Qed.

Lemma timers_expire_spec n ts expire : twf n ts -> timer_alloc 0 = true -> (time_to_grains expire < TIME_LIMIT)%Z ->
  exists n' ts' o, timers_expire timer_alloc ts expire = Ret (ts', o) /\ twf n' ts' /\ expired ts (time_to_grains expire) ts' o.
Proof.
  intros H HA Hnow. unfold timers_expire. destruct (Z.ltb_spec (time_to_grains expire) (tm_base ts)) as [HL|HG].
  { exists n, ts, None. split; [done|]. split; [done|]. split; [done|]. intros u Hu. pose proof (twf_times _ _ H u Hu). lia. }
  destruct (level_at ts 0) as [b|] eqn:EL.
  { apply (expire_total n 0 (time_to_grains expire) ts H); [apply (twf_levels _ _ H); eauto|lia]. }
  assert (n = 0) as ->. { destruct n; [done|]. destruct (proj2 (proj2 (twf_levels _ _ H) 0) ltac:(lia)). congruence. }
  destruct (tm_far ts) as [|t far] eqn:EF.
  - exists 0, ts, None. split; [done|]. split; [done|]. split; [done|]. intros u Hu. apply elem_pending in Hu as [Hu|(l & b & j & h & Hl & _)]; [rewrite EF in Hu; by apply elem_of_nil in Hu|].
    rewrite (level_none_above 0 ts 0 H EL l) in Hl by lia. done.
  - destruct (add_level_wf timer_alloc 0 ts H ltac:(lia) HA) as (H1 & HP & EB & _).
    destruct (expire_total 1 0 (time_to_grains expire) _ H1 ltac:(lia) ltac:(rewrite EB; lia)) as (n' & ts' & o & E & H' & HE).
    exists n', ts', o. split; [done|]. split; [done|]. by eapply expired_perm.
Qed.
End Expire.
