(* ===== verification/TimerTheorems.v ===== *)
(** The timers of ccan/timer as a priority queue, over all runs. *)
From S2P Require Import Prelude Time Timer TimerProofs.

(** * The check of the code passes *)

Lemma list_check_ok l lo hi first : (forall t, t ∈ l -> (lo <= t_time t <= hi)%Z /\ (first <= t_time t)%Z) -> timer_list_check l lo hi first = true.
Proof.
  intros H. apply forallb_forall. intros t Ht. apply list_elem_of_In in Ht. specialize (H t Ht). apply negb_true_iff.
  rewrite !orb_false_iff, !Z.ltb_ge. lia.
Qed.

Lemma check_buckets_ok b w first m : forall i lo,
  (forall k h t, k < m -> b !! ((i + k) mod 32) = Some h -> t ∈ h -> (lo + Z.of_nat k * w <= t_time t <= lo + Z.of_nat k * w + w - 1)%Z /\ (first <= t_time t)%Z) ->
  check_buckets m b i lo w first = true.
Proof.
  induction m as [|m IH]; intros i lo H; [done|]. cbn [check_buckets]. change (Z.to_nat PER_LEVEL) with 32. apply andb_true_iff. split.
  - apply list_check_ok. intros t Ht. destruct (b !! (i mod 32)) as [h|] eqn:E; [|by apply not_elem_of_nil in Ht]. cbn in Ht.
    specialize (H 0 h t ltac:(lia)). rewrite Nat.add_0_r in H. specialize (H E Ht). lia.
  - apply IH. intros k h t Hk Hh Ht. specialize (H (S k) h t ltac:(lia)). replace (i + S k) with (S i + k) in H by lia. specialize (H Hh Ht). lia.
Qed.

(** Which multiple of a bucket a time is in, from its place. *)
Lemma bucket_index x y k c : (0 <= x)%Z -> (0 <= y)%Z -> (Z.of_nat c <= y - x < Z.of_nat c + 32)%Z -> c <= k < c + 32 ->
  (Z.to_nat (x mod 32) + k) mod 32 = Z.to_nat (y mod 32) -> y = (x + Z.of_nat k)%Z.
Proof.
  intros Hx Hy Hd Hk E. apply (f_equal Z.of_nat) in E. rewrite Nat2Z.inj_mod, Nat2Z.inj_add, !Z2Nat.id in E by (apply Z.mod_pos_bound; lia).
  change (Z.of_nat 32) with 32%Z in E. rewrite Zplus_mod_idemp_l in E.
  pose proof (Z.div_mod (x + Z.of_nat k) 32 ltac:(lia)). pose proof (Z.div_mod y 32 ltac:(lia)). lia.
Qed.

(** [x & ~(size - 1)]: down to a multiple of the size of a bucket. *)
Lemma align_down x l : Z.land x (Z.lnot (W l - 1)) = (x / W l * W l)%Z.
Proof.
  unfold W. replace (2 ^ (5 * Z.of_nat l) - 1)%Z with (Z.ones (5 * Z.of_nat l)) by (rewrite Z.ones_equiv; lia).
  rewrite <- Z.ldiff_land, Z.ldiff_ones_r by lia. rewrite Z.shiftr_div_pow2, Z.shiftl_mul_pow2 by lia. done.
Qed.

Lemma check_level_ok n ts l b : twf n ts -> level_at ts l = Some b ->
  let first := default 0%Z (tm_firsts ts !! l) in
  let per_bucket := Z.shiftl 1 (TIMER_LEVEL_BITS * Z.of_nat l) in
  let off := Z.to_nat (Z.shiftr (tm_base ts) (Z.of_nat l * TIMER_LEVEL_BITS) mod PER_LEVEL) in
  match l with
  | O => check_buckets 32 b off (tm_base ts) 1 first
  | S _ => check_buckets 32 b (S off) (Z.land (tm_base ts) (Z.lnot (per_bucket - 1)) + per_bucket) per_bucket first
  end = true.
Proof.
  intros H Hb. pose proof (twf_base _ _ H) as Hbase. cbn zeta. unfold TIMER_LEVEL_BITS, PER_LEVEL.
  rewrite (Z.mul_comm _ 5), Z.shiftl_mul_pow2, Z.mul_1_l, Z.shiftr_div_pow2 by lia. fold (W l).
  destruct (twf_buckets _ _ H l b Hb) as [_ HB]. destruct (twf_length _ _ H) as [HL HF]. pose proof (level_at_lt _ _ _ Hb) as Hlt.
  destruct (lookup_lt_is_Some_2 (tm_firsts ts) l ltac:(lia)) as [v Ev]. rewrite Ev. change (default 0%Z (Some v)) with v.
  assert (Hfirst : forall j h t, b !! j = Some h -> t ∈ h -> (v <= t_time t)%Z /\ (0 <= t_time t)%Z).
  { intros j h t Hj Ht. split.
    - apply (proj1 (twf_firsts _ _ H) l b v t Hb Ev). apply elem_concat. exists h. split; [by eapply list_elem_of_lookup_2|done].
    - apply (twf_timer_bounds n ts t H). apply elem_pending. right. by exists l, b, j, h. }
  destruct l as [|l].
  - apply check_buckets_ok. intros k h t Hk Hh Ht. destruct (Hfirst _ _ _ Hh Ht) as [Hv H0]. destruct (HB _ _ _ Hh Ht) as [Hfit EB]. cbn [fits] in Hfit.
    rewrite bucket_of_mod in EB by lia. change (W 0) with 1%Z in EB. rewrite !Z.div_1_r in EB.
    pose proof (bucket_index (tm_base ts) (t_time t) k 0 ltac:(lia) ltac:(lia) ltac:(lia) ltac:(lia) EB). lia.
  - rewrite align_down. set (w := W (S l)) in *. pose proof (W_pos (S l)) as Hw. fold w in Hw.
    apply check_buckets_ok. intros k h t Hk Hh Ht. destruct (Hfirst _ _ _ Hh Ht) as [Hv H0]. destruct (HB _ _ _ Hh Ht) as [Hfit EB]. cbn [fits] in Hfit. fold w in Hfit.
    rewrite bucket_of_mod in EB by lia. fold w in EB. rewrite Nat.add_succ_comm in EB.
    pose proof (Z.div_pos (tm_base ts) w ltac:(lia) Hw). pose proof (Z.div_pos (t_time t) w ltac:(lia) Hw).
    pose proof (bucket_index (tm_base ts / w) (t_time t / w) (S k) 1 ltac:(lia) ltac:(lia) ltac:(lia) ltac:(lia) EB).
    pose proof (Z.div_mod (t_time t) w ltac:(lia)). pose proof (Z.mod_pos_bound (t_time t) w ltac:(lia)). nia.
Qed.

Lemma check_levels_ok n ts m : twf n ts -> forall l, l <= n -> n <= l + m -> check_levels m l ts = Some n.
Proof.
  intros H. induction m as [|m IH]; intros l H1 H2; cbn [check_levels]; [f_equal; lia|].
  destruct (level_at ts l) as [b|] eqn:E.
  - pose proof (check_level_ok n ts l b H E) as HC. cbn zeta in HC. change (Z.to_nat PER_LEVEL) with 32. cbn zeta.
    assert (l < n) by (apply (twf_levels _ _ H); eauto). rewrite HC. apply IH; lia.
  - f_equal. destruct (decide (l = n)); [done|]. destruct (proj2 (proj2 (twf_levels _ _ H) l) ltac:(lia)). congruence.
Qed.

Lemma timers_check_wf n ts : twf n ts -> timers_check ts = true.
Proof.
  intros H. unfold timers_check. destruct (twf_levels _ _ H) as [Hn _]. rewrite (check_levels_ok n ts TIMER_LEVELS H 0) by (unfold TIMER_LEVELS; lia).
  pose proof (twf_base _ _ H) as Hbase. unfold TIMER_LEVEL_BITS. rewrite Z.shiftl_mul_pow2, Z.mul_1_l by lia. fold (W n).
  rewrite align_down.
  apply list_check_ok. intros t Ht. assert (Hp : t ∈ pending ts) by (apply elem_pending; by left). pose proof (twf_times _ _ H t Hp) as Htt.
  split; [split; [|unfold NO_TIME, u64_mod, TIME_LIMIT in *; lia]|].
  - pose proof (W_pos n). pose proof (Z.div_mod (tm_base ts) (W n) ltac:(lia)). pose proof (Z.mod_pos_bound (tm_base ts) (W n) ltac:(lia)).
    pose proof (Z.div_mod (t_time t) (W n) ltac:(lia)). pose proof (Z.mod_pos_bound (t_time t) (W n) ltac:(lia)).
    destruct (twf_far _ _ H) as [->|HF]; [change (W 0) with 1%Z in *; lia|]. specialize (HF t Ht). nia.
  - destruct (twf_length _ _ H) as [_ HF]. destruct (lookup_lt_is_Some_2 (tm_firsts ts) TIMER_LEVELS ltac:(lia)) as [v Ev]. rewrite Ev.
    by apply (proj2 (twf_firsts _ _ H) v t Ev).
Qed.

(** * The queue the timers stand for *)

Definition entry (t : timer) : nat * Z := (t_id t, t_time t).
Definition tmap (ts : timers) : gmap nat Z := list_to_map (map entry (pending ts)).
Definition ids_ok (ts : timers) : Prop := NoDup (map t_id (pending ts)).

Lemma entry_ids l : (map entry l).*1 = map t_id l.
Proof. induction l as [|t l IH]; [done|]. cbn. by rewrite <- IH. Qed.

Lemma tmap_lookup ts id time : ids_ok ts -> tmap ts !! id = Some time <-> Timer id time ∈ pending ts.
Proof.
  intros H. unfold tmap. rewrite <- elem_of_list_to_map by (by rewrite entry_ids). split.
  - intros ([i u] & [= -> ->] & Ht)%list_elem_of_fmap. done.
  - intros Ht. by apply (list_elem_of_fmap_2 entry _ (Timer id time)).
Qed.

Lemma tmap_perm ts ts' l : ids_ok ts -> pending ts' ≡ₚ l -> NoDup (map t_id l) -> tmap ts' = list_to_map (map entry l).
Proof. intros _ HP HN. symmetry. apply list_to_map_proper; [by rewrite entry_ids|]. by rewrite HP. Qed.

Lemma ids_perm l k : l ≡ₚ k -> NoDup (map t_id l) -> NoDup (map t_id k).
Proof. intros HP. by rewrite HP. Qed.

(** ** The operations *)

Lemma grains_nonneg t : (0 <= time_to_grains t)%Z.
Proof. unfold time_to_grains, wrap64. apply Z.mod_pos_bound. done. Qed.

Lemma init_wf start : (time_to_grains start < TIME_LIMIT)%Z -> twf 0 (timers_init start) /\ ids_ok (timers_init start) /\ tmap (timers_init start) = ∅.
Proof.
  intros H. pose proof (grains_nonneg start).
  assert (HN : forall l, level_at (timers_init start) l = None).
  { intros l. unfold level_at, timers_init. cbn [tm_level]. destruct (replicate TIMER_LEVELS None !! l) as [x|] eqn:E; [|done]. by apply lookup_replicate in E as [-> _]. }
  assert (HP : pending (timers_init start) = []) by done.
  split_and!; [|unfold ids_ok; rewrite HP; constructor|done].
  split; rewrite ?HP; cbn [timers_init tm_base tm_first tm_far tm_firsts].
  - lia.
  - by intros t ?%elem_of_nil.
  - done.
  - split; [lia|]. intros l. rewrite HN. split; [by intros []|lia].
  - intros l b. by rewrite HN.
  - by left.
  - split; [intros l b f t; by rewrite HN|by intros f t _ ?%elem_of_nil].
  - split; [unfold NO_TIME, u64_mod, TIME_LIMIT in *; lia|]. by intros t ?%elem_of_nil.
Qed.

(** What both functions that add a timer do, after the assertion. *)
Definition add_at (ts : timers) (id : nat) (time : Z) : timers :=
  let time := if (time <? tm_base ts)%Z then tm_base ts else time in
  timer_add_raw (if (time <? tm_first ts)%Z then set_tfirst time ts else ts) (Timer id time).

Lemma initted_iff ts id : ids_ok ts -> list_node_initted ts id = true <-> tmap ts !! id = None.
Proof.
  intros HI. unfold list_node_initted. rewrite forallb_forall. split.
  - intros H. destruct (tmap ts !! id) as [u|] eqn:E; [|done]. apply tmap_lookup, list_elem_of_In, H in E; [|done]. cbn in E. by rewrite Nat.eqb_refl in E.
  - intros H [i u] Ht. apply negb_true_iff, Nat.eqb_neq. intros E. cbn in E. subst i. apply list_elem_of_In, tmap_lookup in Ht; [|done]. congruence.
Qed.

Lemma add_at_wf n ts id time : twf n ts -> ids_ok ts -> tmap ts !! id = None -> (time < TIME_LIMIT)%Z ->
  twf n (add_at ts id time) /\ ids_ok (add_at ts id time) /\ tmap (add_at ts id time) = <[id := Z.max (tm_base ts) time]> (tmap ts).
Proof.
  intros H HI HN Ht. unfold add_at. pose proof (twf_base _ _ H) as Hb.
  replace (if (time <? tm_base ts)%Z then tm_base ts else time) with (Z.max (tm_base ts) time) by (destruct (Z.ltb_spec time (tm_base ts)); lia).
  set (v := Z.max (tm_base ts) time). set (ts1 := if (v <? tm_first ts)%Z then set_tfirst v ts else ts).
  assert (HW : twf n ts1 /\ (tm_first ts1 <= v)%Z /\ pending ts1 = pending ts /\ tm_base ts1 = tm_base ts).
  { unfold ts1. destruct (twf_first _ _ H) as [HF1 HF2]. destruct (Z.ltb_spec v (tm_first ts)); split_and!; try done; cbn; try lia.
    apply set_tfirst_wf; [done|lia|]. intros t Hu. specialize (HF2 t Hu). lia. }
  destruct HW as (H1 & HF & EP & EB). destruct (add_raw_wf n ts1 (Timer id v) H1) as (H2 & HP & _); cbn [t_time]; [rewrite EB; lia|done|]. rewrite EP in HP.
  assert (HN' : NoDup (map t_id (Timer id v :: pending ts))).
  { cbn. constructor; [|done]. intros ([i u] & E & Hu)%list_elem_of_fmap. cbn in E. subst i. apply tmap_lookup in Hu; [|done]. congruence. }
  split_and!; [done|by eapply ids_perm; [symmetry|]|]. rewrite (tmap_perm ts _ _ HI HP HN'). done.
Qed.

Lemma pending_del ts id : pending (timer_del ts id) = unlink id (pending ts).
Proof.
  unfold pending, unlink. cbn [timer_del tm_far tm_level]. rewrite List.filter_app. f_equal.
  induction (tm_level ts) as [|o l IH]; [done|]. cbn [map concat]. rewrite List.filter_app, <- IH. f_equal. destruct o as [b|]; [|done]. cbn.
  induction b as [|h b IHb]; [done|]. cbn. rewrite List.filter_app. f_equal. apply IHb.
Qed.

Lemma elem_unlink id l t : t ∈ unlink id l <-> t ∈ l /\ t_id t <> id.
Proof. unfold unlink. rewrite elem_filter, negb_true_iff, Nat.eqb_neq. done. Qed.

Lemma unlink_ids id l : NoDup (map t_id l) -> NoDup (map t_id (unlink id l)).
Proof.
  induction l as [|t l IH]; [done|]. cbn [map]. intros [Hni HN]%NoDup_cons. cbn [unlink List.filter]. destruct (negb (t_id t =? id)); [|by apply IH].
  cbn [map]. apply NoDup_cons. split; [|by apply IH]. intros (u & E & Hu)%list_elem_of_fmap. apply elem_unlink in Hu as [Hu _]. apply Hni. rewrite E. by apply list_elem_of_fmap_2.
Qed.

(** The map of the timers without one of them. *)
Lemma tmap_delete ts ts' id : ids_ok ts -> ids_ok ts' -> (forall t, t ∈ pending ts' <-> t ∈ pending ts /\ t_id t <> id) -> tmap ts' = delete id (tmap ts).
Proof.
  intros HI HI' HE. apply map_eq. intros i. apply option_eq. intros v. rewrite lookup_delete_Some, !tmap_lookup by done. rewrite HE. cbn [t_id]. naive_solver.
Qed.

Lemma timer_del_wf n ts id : twf n ts -> ids_ok ts -> twf n (timer_del ts id) /\ ids_ok (timer_del ts id) /\ tmap (timer_del ts id) = delete id (tmap ts).
Proof.
  intros H HI. assert (HI' : ids_ok (timer_del ts id)) by (unfold ids_ok; rewrite pending_del; by apply unlink_ids).
  split_and!; [|done|].
  - apply (twf_fewer n ts); try done; cbn [timer_del tm_level tm_far].
    + by rewrite length_map.
    + intros t. rewrite elem_unlink. naive_solver.
    + intros l. unfold level_at. cbn [timer_del tm_level]. rewrite list_lookup_fmap. destruct (tm_level ts !! l) as [[b|]|]; cbn; split; intros [? ?]; eauto; done.
    + intros l b'. unfold level_at. cbn [timer_del tm_level]. rewrite list_lookup_fmap. destruct (tm_level ts !! l) as [[b|]|]; cbn; try done. intros [= <-]. exists b. rewrite length_map.
      split_and!; [done|done|]. intros j h' t. rewrite list_lookup_fmap. destruct (b !! j) as [h|]; [|done]. cbn. intros [= <-]. rewrite elem_unlink. naive_solver.
  - apply tmap_delete; [done|done|]. intros t. by rewrite pending_del, elem_unlink.
Qed.

(** A queue after the earliest was taken. *)
Lemma tmap_take ts ts' t : ids_ok ts -> pending ts ≡ₚ t :: pending ts' -> ids_ok ts' /\ tmap ts !! t_id t = Some (t_time t) /\ tmap ts' = delete (t_id t) (tmap ts).
Proof.
  intros HI HP. pose proof (ids_perm _ _ HP HI) as HN. cbn in HN. apply NoDup_cons in HN as [Hni HN].
  split_and!; [done|apply tmap_lookup; [done|]; rewrite HP; destruct t; left|]. apply tmap_delete; [done|done|]. intros u. rewrite HP, elem_of_cons. split.
  - intros Hu. split; [by right|]. intros E. apply Hni. rewrite <- E. by apply list_elem_of_fmap_2.
  - intros [[->|?] ?]; done.
Qed.

Lemma tmap_same ts ts' : ids_ok ts -> pending ts' ≡ₚ pending ts -> ids_ok ts' /\ tmap ts' = tmap ts.
Proof. intros HI HP. split; [by eapply ids_perm|]. by apply (tmap_perm ts). Qed.

Lemma earliest_wf n ts : twf n ts -> ids_ok ts -> let '(ts', o) := timer_earliest ts in
  twf n ts' /\ ids_ok ts' /\ tmap ts' = tmap ts /\
  match o with
  | None => tmap ts = ∅
  | Some when => exists id time, tmap ts !! id = Some time /\ when = grains_to_time time /\ forall id' time', tmap ts !! id' = Some time' -> (time <= time')%Z
  end.
Proof.
  intros H HI. unfold timer_earliest. pose proof (update_first_wf n ts H) as HU. destruct (update_first ts) as [ts' more]. destruct HU as (H1 & EP & _ & _ & HM).
  destruct (tmap_same ts ts' HI ltac:(by rewrite EP)) as [HI' ET]. split_and!; [done|done|done|]. destruct more.
  - destruct HM as ([id time] & Ht & E). exists id, time. cbn in E. split_and!; [by apply tmap_lookup|by rewrite E|]. intros id' time' Hl. apply tmap_lookup in Hl; [|done].
    rewrite <- EP in Hl. apply (twf_first _ _ H1) in Hl. cbn in Hl. lia.
  - unfold tmap. by rewrite HM.
Qed.

(** * Runs *)

Section Runs.
Context (timer_alloc : nat -> bool).

(** The states that the operations of the library reach. *)
Inductive timers_reach : timers -> Prop :=
| reach_init start : (time_to_grains start < TIME_LIMIT)%Z -> timers_reach (timers_init start)
| reach_addmono ts id when ts' : timers_reach ts -> (time_to_grains when < TIME_LIMIT)%Z -> timer_addmono ts id when = Ret ts' -> timers_reach ts'
| reach_addrel ts now id rel ts' : timers_reach ts -> (time_to_grains (timemono_add now rel) < TIME_LIMIT)%Z -> timer_addrel now ts id rel = Ret ts' -> timers_reach ts'
| reach_del ts id : timers_reach ts -> timers_reach (timer_del ts id)
| reach_expire ts now ts' o : timers_reach ts -> (time_to_grains now < TIME_LIMIT)%Z -> timers_expire timer_alloc ts now = Ret (ts', o) -> timers_reach ts'
| reach_earliest ts : timers_reach ts -> timers_reach (timer_earliest ts).1.

Hypothesis Halloc : timer_alloc 0 = true.

Lemma reach_wf ts : timers_reach ts -> exists n, twf n ts /\ ids_ok ts.
Proof.
  induction 1 as [start Hs|ts id when ts' _ (n & H & HI) Hw E|ts now id rel ts' _ (n & H & HI) Hw E|ts id _ (n & H & HI)|ts now ts' o _ (n & H & HI) Hn E|ts _ (n & H & HI)].
  - exists 0. by destruct (init_wf start Hs) as (? & ? & _).
  - exists n. unfold timer_addmono, assert_ in E. destruct (list_node_initted ts id) eqn:EI; [|done]. injection E as <-.
    apply initted_iff in EI; [|done]. by destruct (add_at_wf n ts id _ H HI EI Hw) as (? & ? & _).
  - exists n. unfold timer_addrel, assert_ in E. destruct (list_node_initted ts id) eqn:EI; [|done]. injection E as <-.
    apply initted_iff in EI; [|done]. by destruct (add_at_wf n ts id _ H HI EI Hw) as (? & ? & _).
  - exists n. by destruct (timer_del_wf n ts id H HI) as (? & ? & _).
  - destruct (timers_expire_spec timer_alloc n ts now H Halloc Hn) as (n' & ts1 & o1 & E1 & H1 & HE). rewrite E in E1. injection E1 as <- <-. exists n'. split; [done|].
    destruct o as [t|]; [destruct HE as (_ & HP & _); by apply (tmap_take ts ts' t HI HP)|destruct HE as [HP _]; by apply (tmap_same ts ts' HI HP)].
  - exists n. pose proof (earliest_wf n ts H HI) as HE. destruct (timer_earliest ts) as [ts' o]. by destruct HE as (? & ? & _).
Qed.
End Runs.

(** C15.  The timers implement a priority queue: in every state that the operations
    reach, with times below 2^60 microseconds and memory for the first level, the
    check of the library passes; adding a timer that is not in a list inserts it at
    its time, or at the base when that is past, and one that is in a list fails the
    assertion; deleting removes it; [timers_expire] returns, and takes out an
    earliest timer that is due, or nothing when none is due; [timer_earliest]
    gives the time of an earliest one, or nothing when there is none. *)
Theorem timers_refine timer_alloc ts : timer_alloc 0 = true -> timers_reach timer_alloc ts ->
  timers_check ts = true /\
  (forall id when, (time_to_grains when < TIME_LIMIT)%Z ->
     match tmap ts !! id with
     | None => exists ts', timer_addmono ts id when = Ret ts' /\ tmap ts' = <[id := Z.max (tm_base ts) (time_to_grains when)]> (tmap ts)
     | Some _ => exists w, timer_addmono ts id when = Abort w
     end) /\
  (forall id, tmap (timer_del ts id) = delete id (tmap ts)) /\
  (forall now, (time_to_grains now < TIME_LIMIT)%Z -> exists ts' o, timers_expire timer_alloc ts now = Ret (ts', o) /\
     match o with
     | Some t => tmap ts !! t_id t = Some (t_time t) /\ (t_time t <= time_to_grains now)%Z /\
         (forall id time, tmap ts !! id = Some time -> (t_time t <= time)%Z) /\ tmap ts' = delete (t_id t) (tmap ts)
     | None => tmap ts' = tmap ts /\ forall id time, tmap ts !! id = Some time -> (time_to_grains now < time)%Z
     end) /\
  match (timer_earliest ts).2 with
  | None => tmap ts = ∅
  | Some when => exists id time, tmap ts !! id = Some time /\ when = grains_to_time time /\ forall id' time', tmap ts !! id' = Some time' -> (time <= time')%Z
  end.
Proof.
  intros HA HR. destruct (reach_wf timer_alloc HA ts HR) as (n & H & HI). split_and!.
  - by eapply timers_check_wf.
  - intros id when Hw. unfold timer_addmono, assert_. destruct (tmap ts !! id) as [v|] eqn:E.
    + destruct (list_node_initted ts id) eqn:EI; [|by eexists]. apply initted_iff in EI; [|done]. congruence.
    + rewrite (proj2 (initted_iff ts id HI) E). cbn [obind]. eexists. split; [done|]. by apply (add_at_wf n ts id _ H HI E Hw).
  - intros id. by apply (timer_del_wf n ts id H HI).
  - intros now Hn. destruct (timers_expire_spec timer_alloc n ts now H HA Hn) as (n' & ts' & o & E & _ & HE). exists ts', o. split; [done|]. destruct o as [t|].
    + destruct HE as (Hd & HP & HM). destruct (tmap_take ts ts' t HI HP) as (_ & Hl & HT). split_and!; [done|done| |done].
      intros id time Hlk. apply tmap_lookup in Hlk; [|done]. by apply HM in Hlk.
    + destruct HE as [HP HM]. split; [by apply (tmap_same ts ts' HI HP)|]. intros id time Hlk. apply tmap_lookup in Hlk; [|done]. by apply HM in Hlk.
  - pose proof (earliest_wf n ts H HI) as HE. destruct (timer_earliest ts) as [ts' o]. apply HE.
Qed.

(** Two timers. *)
Definition some_timers : timers :=
  match (let! a := timer_addmono (timers_init (at_us 1000)) 1 (at_us 5000) in timer_addmono a 2 (at_us 1000000)) with
  | Ret b => b
  | Abort _ => timers_init (at_us 1000)
  end.

Lemma some_timers_reach : timers_reach (fun _ => true) some_timers.
Proof.
  assert (H1 : timers_reach (fun _ => true) (timers_init (at_us 1000))) by (apply reach_init; by vm_compute).
  destruct (timer_addmono (timers_init (at_us 1000)) 1 (at_us 5000)) as [a|] eqn:E1; [|by vm_compute in E1].
  assert (B1 : (time_to_grains (at_us 5000) < TIME_LIMIT)%Z) by (by vm_compute). assert (B2 : (time_to_grains (at_us 1000000) < TIME_LIMIT)%Z) by (by vm_compute).
  pose proof (reach_addmono _ _ 1 (at_us 5000) a H1 B1 E1) as H2. unfold some_timers. rewrite E1. cbn [obind].
  destruct (timer_addmono a 2 (at_us 1000000)) as [b|] eqn:E2; [|done].
  exact (reach_addmono _ a 2 (at_us 1000000) b H2 B2 E2).
Qed.

Lemma timers_refine_witness : tmap some_timers !! 1 = Some 5000%Z /\ timers_check some_timers = true /\
  exists ts' o, timers_expire (fun _ => true) some_timers (at_us 6000) = Ret (ts', o) /\ t_id <$> o = Some 1.
Proof.
  pose proof (timers_refine (fun _ => true) some_timers eq_refl some_timers_reach) as (HC & _ & _ & HE & _).
  split; [by vm_compute|]. split; [exact HC|]. destruct (HE (at_us 6000) ltac:(by vm_compute)) as (ts' & o & E & _). clear HE HC.
  exists ts', o. split; [exact E|]. vm_compute in E. injection E as _ <-. reflexivity.
Defined.
