(* ===== verification/TimerLoop.v ===== *)
(** Timers in the plugin: plugin_timer_ and its callbacks in plugins/libplugin.c,
    and the part of io_loop (ccan/io/poll.c) that asks the timers what is due and
    how long to wait.

    A callback is known by a number, as is its argument; a timer's address is the
    number it has in [timers]. *)
From S2P Require Import Prelude Time Timer TimerProofs TimerTheorems.

(** * The plugin's timers *)

Record plugin_timer : Type := PluginTimer { pt_cb : nat; pt_cb_arg : nat }.

(** The fields of struct plugin, and the timers allocated. *)
Record timer_state : Type := TimerState { st_timers : timers; st_alive : gmap nat plugin_timer; st_in_timer : nat }.

(** [id] is where the timer was allocated. *)
Definition plugin_timer_ (now : timemono) (s : timer_state) (id : nat) (t : timerel) (cb arg : nat) : outcome timer_state :=
  let! ts := timer_addrel now (st_timers s) id t in
  Ret (TimerState ts (<[id := PluginTimer cb arg]> (st_alive s)) (st_in_timer s)).

(** The destructor: [tal_free] of a timer runs it. *)
Definition destroy_plugin_timer (s : timer_state) (id : nat) : timer_state :=
  TimerState (timer_del (st_timers s) id) (delete id (st_alive s)) (st_in_timer s).

(** The callback and its argument; the timer is freed afterwards, by the next
    [clean_tmpctx], unless the callback did. *)
Definition call_plugin_timer (s : timer_state) (id : nat) : outcome (timer_state * plugin_timer) :=
  match st_alive s !! id with
  | None => Abort "call_plugin_timer: freed timer"
  | Some t => Ret (destroy_plugin_timer (TimerState (st_timers s) (st_alive s) (S (st_in_timer s))) id, t)
  end.

(** * The loop *)

Definition INT_MAX : Z := 2147483647.

(** What io_loop does about timers in one round: the timer that expired, or the
    time-out for poll in milliseconds. *)
Definition loop_timers (timer_alloc : nat -> bool) (ts : timers) (now : timemono) : outcome (timers * (timer + Z)) :=
  let! (ts, expired) := timers_expire timer_alloc ts now in
  match expired with
  | Some t => Ret (ts, inl t)
  | None =>
      let '(ts, first) := timer_earliest ts in
      let ms_timeout :=
        match first with
        | Some first =>
            let next := time_to_msec (timemono_between first now) in
            if (next <? INT_MAX)%Z then next else INT_MAX
        | None => (-1)%Z
        end in
      Ret (ts, inr ms_timeout)
  end.

(** The loop of plugin_main: a timer that expired is called; the rounds in between
    handle what poll reports. *)
Definition plugin_round (timer_alloc : nat -> bool) (s : timer_state) (now : timemono) : outcome (timer_state * (plugin_timer + Z)) :=
  let! (ts, r) := loop_timers timer_alloc (st_timers s) now in
  let s := TimerState ts (st_alive s) (st_in_timer s) in
  match r with
  | inl t => let! (s, cb) := call_plugin_timer s (t_id t) in Ret (s, inl cb)
  | inr ms => Ret (s, inr ms)
  end.

(** * Waiting *)

Definition mono_ok (t : timemono) : Prop := time_ok (mono_ts t) /\ (0 <= tv_sec (mono_ts t))%Z /\ (time_to_grains t < TIME_LIMIT)%Z /\ (tv_sec (mono_ts t) < 2 ^ 43)%Z.

Lemma grains_nanos t : mono_ok t -> time_to_grains t = (nanos (mono_ts t) / 1000)%Z.
Proof.
  destruct t as [[s n]]. unfold mono_ok, time_ok, time_to_grains, nanos. cbn [mono_ts tv_sec tv_nsec]. intros (Hn & Hs & _ & Hb).
  rewrite Z.quot_div_nonneg by (unfold TIMER_GRANULARITY; lia). change (1000000000 / TIMER_GRANULARITY)%Z with 1000000%Z. unfold TIMER_GRANULARITY.
  replace (s * 1000000000 + n)%Z with (s * 1000000 * 1000 + n)%Z by lia. rewrite Z.div_add_l by lia. unfold wrap64. apply Z.mod_small.
  pose proof (Z.div_pos n 1000 ltac:(lia) ltac:(lia)). pose proof (Z.div_lt_upper_bound n 1000 1000000 ltac:(lia) ltac:(lia)). unfold u64_mod. lia.
Qed.

Lemma grains_to_time_nanos g : (0 <= g)%Z -> time_ok (mono_ts (grains_to_time g)) /\ nanos (mono_ts (grains_to_time g)) = (g * 1000)%Z.
Proof.
  intros H. unfold grains_to_time, time_ok, nanos. cbn [mono_ts tv_sec tv_nsec]. change (1000000000 / TIMER_GRANULARITY)%Z with 1000000%Z. unfold TIMER_GRANULARITY.
  pose proof (Z.div_mod g 1000000 ltac:(lia)). pose proof (Z.mod_pos_bound g 1000000 ltac:(lia)). lia.
Qed.

(** The milliseconds of a span that is not negative. *)
Lemma msec_nanos t : time_ok (rel_ts t) -> (0 <= nanos (rel_ts t) < 2 ^ 63 * 1000)%Z -> time_to_msec t = (nanos (rel_ts t) / 1000000)%Z.
Proof.
  destruct t as [[s n]]. unfold time_ok, nanos, time_to_msec. cbn [rel_ts tv_sec tv_nsec]. intros Hn Hb. rewrite Z.quot_div_nonneg by lia.
  replace (s * 1000000000 + n)%Z with (s * 1000 * 1000000 + n)%Z in * by lia. rewrite Z.div_add_l by lia. unfold wrap64. rewrite Z.mod_small; [lia|].
  pose proof (Z.div_pos n 1000000 ltac:(lia) ltac:(lia)). pose proof (Z.div_lt_upper_bound n 1000000 1000 ltac:(lia) ltac:(lia)). unfold u64_mod. lia.
Qed.

Section Wait.
Context (timer_alloc : nat -> bool) (Halloc : timer_alloc 0 = true).

(** C28.  One round of the loop returns; a timer that it gives is due and an
    earliest one; without one the time-out is infinite exactly when there are no
    timers, and otherwise ends at most a millisecond before the first timer and
    never after it, or is the largest time-out. *)
Theorem loop_waits_for_first ts now : timers_reach timer_alloc ts -> mono_ok now ->
  exists ts' r, loop_timers timer_alloc ts now = Ret (ts', r) /\ timers_reach timer_alloc ts' /\
    match r with
    | inl t => tmap ts !! t_id t = Some (t_time t) /\ (t_time t * 1000 <= nanos (mono_ts now))%Z /\ (forall id time, tmap ts !! id = Some time -> (t_time t <= time)%Z)
    | inr ms =>
        (forall id time, tmap ts !! id = Some time -> (nanos (mono_ts now) < time * 1000)%Z) /\
        if decide (tmap ts = ∅) then ms = (-1)%Z
        else exists id time, tmap ts !! id = Some time /\ (forall id' time', tmap ts !! id' = Some time' -> (time <= time')%Z) /\
          (0 <= ms <= INT_MAX)%Z /\ (nanos (mono_ts now) + ms * 1000000 <= time * 1000)%Z /\
          ((ms < INT_MAX)%Z -> (time * 1000 < nanos (mono_ts now) + (ms + 1) * 1000000)%Z)
    end.
Proof.
  intros HR Hok. destruct (reach_wf timer_alloc Halloc ts HR) as (n & H & HI). pose proof Hok as (Hn & Hs & Hlim & Hsec).
  pose proof (grains_nanos now Hok) as EG. set (N := nanos (mono_ts now)) in *. pose proof (Z.div_mod N 1000 ltac:(lia)) as HD. pose proof (Z.mod_pos_bound N 1000 ltac:(lia)) as HMod.
  destruct (timers_expire_spec timer_alloc n ts now H Halloc Hlim) as (n' & ts1 & o & E & H1 & HE). pose proof (reach_expire _ _ _ _ _ HR Hlim E) as HR1.
  unfold loop_timers. rewrite E. cbn [obind]. destruct o as [t|].
  - destruct HE as (Hd & HP & HM). destruct (tmap_take ts ts1 t HI HP) as (_ & Hl & _). exists ts1, (inl t). split_and!; [done|done|done|lia|].
    intros id time Hlk. apply tmap_lookup in Hlk; [|done]. by apply HM in Hlk.
  - destruct HE as [HP HM]. destruct (tmap_same ts ts1 HI HP) as [HI1 ET]. pose proof (earliest_wf n' ts1 H1 HI1) as HF. pose proof (reach_earliest _ _ HR1) as HR2.
    destruct (timer_earliest ts1) as [ts2 first]. destruct HF as (_ & _ & _ & HF). cbn [fst] in HR2. rewrite ET in HF. eexists ts2, _. split; [reflexivity|]. split; [done|].
    assert (HL : forall id time, tmap ts !! id = Some time -> (N < time * 1000)%Z).
    { intros id time Hlk. apply tmap_lookup in Hlk; [|done]. apply HM in Hlk. cbn in Hlk. lia. }
    split; [done|]. destruct first as [first|]; [|by rewrite decide_True].
    destruct HF as (id & time & Hlk & -> & Hmin). rewrite decide_False by (intros E0; by rewrite E0, lookup_empty in Hlk). exists id, time. split; [done|]. split; [done|].
    pose proof Hlk as Ht. apply tmap_lookup in Ht; [|done]. apply (twf_times _ _ H) in Ht. cbn in Ht. pose proof (twf_base _ _ H). specialize (HL id time Hlk).
    destruct (grains_to_time_nanos time ltac:(lia)) as [Hok1 HN1].
    destruct (time_arithmetic (mono_ts (grains_to_time time)) (mono_ts now) Hok1 Hn) as (_ & _ & Hok2 & HN2 & _). rewrite HN1 in HN2. fold N in HN2.
    assert (HN0 : (0 <= N)%Z) by (unfold N, nanos; destruct Hn; lia).
    unfold timemono_between. rewrite msec_nanos; cbn [rel_ts]; [|done|rewrite HN2; unfold TIME_LIMIT in *; lia]. rewrite HN2.
    pose proof (Z.div_mod (time * 1000 - N) 1000000 ltac:(lia)). pose proof (Z.mod_pos_bound (time * 1000 - N) 1000000 ltac:(lia)).
    destruct (Z.ltb_spec ((time * 1000 - N) / 1000000) INT_MAX); unfold INT_MAX in *; split_and!; lia.
Qed.
End Wait.

Lemma loop_waits_for_first_witness :
  mono_ok (at_us 2000) /\ exists ts' r, loop_timers (fun _ => true) some_timers (at_us 2000) = Ret (ts', r) /\ r = inr 3%Z.
Proof.
  assert (HM : mono_ok (at_us 2000)) by (vm_compute; repeat split; discriminate || reflexivity). split; [exact HM|].
  pose proof (loop_waits_for_first (fun _ => true) eq_refl some_timers (at_us 2000) some_timers_reach HM) as (ts' & r & E & _).
  exists ts', r. split; [exact E|]. vm_compute in E. by injection E as _ <-.
Defined.
