(* ===== verification/Tlv.v ===== *)
(** wire/tlvstream.c and bitcoin/short_channel_id.c: streams of type, length,
    value, and the channel ids that occur in them. *)
From S2P Require Import Prelude Wire.

(** * bitcoin/short_channel_id *)

Record short_channel_id : Type := Scid { scid_u64 : Z }.

Definition short_channel_id_blocknum (scid : short_channel_id) : Z := Z.shiftr (scid_u64 scid) 40.
Definition short_channel_id_txnum (scid : short_channel_id) : Z := Z.land (Z.shiftr (scid_u64 scid) 16) 16777215.
Definition short_channel_id_outnum (scid : short_channel_id) : Z := Z.land (scid_u64 scid) 65535.

Definition mk_short_channel_id (blocknum txnum outnum : Z) : option short_channel_id :=
  if negb (Z.land blocknum 16777215 =? blocknum)%Z || negb (Z.land txnum 16777215 =? txnum)%Z || negb (Z.land outnum 65535 =? outnum)%Z then None
  else Some (Scid (Z.lor (Z.lor (Z.shiftl (Z.land blocknum 16777215) 40) (Z.shiftl (Z.land txnum 16777215) 16)) (Z.land outnum 65535))).

Definition short_channel_id_to_str (scid : short_channel_id) : bytes :=
  fmt_u (short_channel_id_blocknum scid) ++ bs "x" ++ fmt_u (short_channel_id_txnum scid) ++ bs "x" ++ fmt_u (short_channel_id_outnum scid).

Record short_channel_id_dir : Type := ScidDir { scidd_scid : short_channel_id; scidd_dir : bool }.

Definition short_channel_id_dir_to_str (scidd : short_channel_id_dir) : bytes :=
  short_channel_id_to_str (scidd_scid scidd) ++ bs "/" ++ fmt_u (if scidd_dir scidd then 1 else 0).

Definition towire_short_channel_id (scid : short_channel_id) : bytes := towire_u64 (scid_u64 scid).
Definition fromwire_short_channel_id (c : cursor) : short_channel_id * cursor := let '(v, c') := fromwire_u64 c in (Scid v, c').
Definition towire_short_channel_id_dir (scidd : short_channel_id_dir) : bytes :=
  towire_short_channel_id (scidd_scid scidd) ++ towire_bool (scidd_dir scidd).
Definition fromwire_short_channel_id_dir (c : cursor) : short_channel_id_dir * cursor :=
  let '(s, c1) := fromwire_short_channel_id c in let '(d, c2) := fromwire_bool c1 in (ScidDir s d, c2).

#[export] Instance wire_scid : Wire short_channel_id :=
  {| to_wire := towire_short_channel_id; from_wire := fromwire_short_channel_id; wire_ok s := (0 <= scid_u64 s < u64_mod)%Z |}.
#[export] Instance wire_scidd : Wire short_channel_id_dir :=
  {| to_wire := towire_short_channel_id_dir; from_wire := fromwire_short_channel_id_dir; wire_ok s := (0 <= scid_u64 (scidd_scid s) < u64_mod)%Z |}.

(** * wire/tlvstream.c *)

(** [struct tlv_field]; [known] tells whether [meta] is not NULL. *)
Record tlv_field : Type := Field { known : bool; numtype : Z; value : bytes }.

(** [asort] by [tlv_field_cmp]; the types of a stream are distinct, so that there
    is one sorted order. *)
Fixpoint insert_field (f : tlv_field) (l : list tlv_field) : list tlv_field :=
  match l with
  | [] => [f]
  | g :: r => if (numtype g <? numtype f)%Z then g :: insert_field f r else f :: l
  end.
Definition sort_fields (l : list tlv_field) : list tlv_field := foldr insert_field [] l.

Definition towire_field (f : tlv_field) : bytes :=
  towire_bigsize (numtype f) ++ towire_bigsize (len (value f)) ++ towire (value f).

Definition towire_tlvstream_raw (fields : list tlv_field) : bytes := flat_map towire_field (sort_fields fields).

Definition tlvstream_get_raw (stream : list tlv_field) (type : Z) : option (nat * tlv_field) :=
  list_find (fun f => numtype f = type) stream.

(** [tlvstream_set_raw]; a new field's [meta] is not initialised: [junk]. *)
Definition tlvstream_set_raw (junk : bool) (stream : list tlv_field) (type : Z) (v : bytes) : list tlv_field :=
  match tlvstream_get_raw stream type with
  | Some (i, e) => <[i := Field (known e) (numtype e) v]> stream
  | None => stream ++ [Field junk type v]
  end.

Definition tlvstream_set_short_channel_id (junk : bool) (stream : list tlv_field) (type : Z) (v : short_channel_id) : list tlv_field :=
  tlvstream_set_raw junk stream type (towire_short_channel_id v).
Definition tlvstream_set_tu64 (junk : bool) (stream : list tlv_field) (type v : Z) : list tlv_field :=
  tlvstream_set_raw junk stream type (towire_tu64 v).
Definition tlvstream_set_tu32 (junk : bool) (stream : list tlv_field) (type v : Z) : list tlv_field :=
  tlvstream_set_raw junk stream type (towire_tu64 v).

(** The getters: [None] is false. *)
Definition get_of_length_8 (stream : list tlv_field) (type : Z) : option bytes :=
  match tlvstream_get_raw stream type with
  | Some (_, raw) => if length (value raw) =? 8 then Some (value raw) else None
  | None => None
  end.
Definition tlvstream_get_short_channel_id (stream : list tlv_field) (type : Z) : option short_channel_id :=
  (fun v => (fromwire_short_channel_id (Some v)).1) <$> get_of_length_8 stream type.
Definition tlvstream_get_tu64 (stream : list tlv_field) (type : Z) : option Z :=
  (fun v => (fromwire_tu64 (Some v)).1) <$> get_of_length_8 stream type.
Definition tlvstream_get_tu32 (stream : list tlv_field) (type : Z) : option Z :=
  (fun v => wrap32 (fromwire_tu64 (Some v)).1) <$> get_of_length_8 stream type.

(** ** Streams of known types *)

Section Records.
Context {R : Type}.

(** [struct tlv_record_type] for records of type [R]. *)
Record tlv_record_type : Type := RecordType {
  rt_type : Z; rt_towire : R -> option bytes; rt_fromwire : cursor -> R -> R * cursor }.

(** The last entry with the type. *)
Definition type_of (types : list tlv_record_type) (t : Z) : option tlv_record_type :=
  List.find (fun ty => (rt_type ty =? t)%Z) (rev types).

(** The loop of [fromwire_tlv]: [None] is false.  Each round takes two bytes or
    more, so that the length is fuel enough. *)
Fixpoint fromwire_tlv_loop (fuel : nat) (types : list tlv_record_type) (b : bytes) (record : R) (fields : list tlv_field)
  : option (R * list tlv_field) :=
  match fuel with
  | O => None
  | S f =>
      match b with
      | [] => Some (record, fields)
      | _ =>
          match fromwire_bigsize (Some b) with
          | (_, None) => None
          | (t, c1) =>
              match fromwire_bigsize c1 with
              | (_, None) => None
              | (l, Some b2) =>
                  if (len b2 <? l)%Z then None
                  else
                    let v := take (Z.to_nat l) b2 in
                    let rest := drop (Z.to_nat l) b2 in
                    match type_of types t with
                    | Some ty =>
                        match rt_fromwire ty (Some v) record with
                        | (record', Some []) => fromwire_tlv_loop f types rest record' (fields ++ [Field true t v])
                        | _ => None
                        end
                    | None => fromwire_tlv_loop f types rest record (fields ++ [Field false t v])
                    end
              end
          end
      end
  end.

Definition fromwire_tlv (types : list tlv_record_type) (b : bytes) (record : R) : option (R * list tlv_field) :=
  fromwire_tlv_loop (S (length b)) types b record [].

(** The loop of [towire_tlv] and [tlv_make_fields_]; [prev] is [types[i-1]]. *)
Fixpoint make_fields (prev : option Z) (types : list tlv_record_type) (record : R) : outcome (list tlv_field) :=
  match types with
  | [] => Ret []
  | ty :: r =>
      let! _ := assert_ (match prev with Some p => (p <? rt_type ty)%Z | None => true end) "types[i].type > types[i-1].type" in
      let! l := make_fields (Some (rt_type ty)) r record in
      match rt_towire ty record with
      | None => Ret l
      | Some v => Ret (Field true (rt_type ty) v :: l)
      end
  end.

Definition tlv_make_fields (types : list tlv_record_type) (record : R) : outcome (list tlv_field) := make_fields None types record.

Definition towire_tlv (types : list tlv_record_type) (record : R) : outcome bytes :=
  let! l := make_fields None types record in Ret (flat_map towire_field l).
End Records.
Arguments tlv_record_type : clear implicits.

(** ** Validity *)

Definition tlv_type_is_allowed (f : tlv_field) (extra_types : option (list Z)) : bool :=
  negb (numtype f mod 2 =? 0)%Z || known f
  || match extra_types with Some l => existsb (fun t => (t =? numtype f)%Z) l | None => false end.

(** The index of the first field that is not valid. *)
Fixpoint fields_valid_loop (i : nat) (prev_type : option Z) (fields : list tlv_field) (allow_extra : option (list Z)) : option nat :=
  match fields with
  | [] => None
  | f :: r =>
      if negb (tlv_type_is_allowed f allow_extra) then Some i
      else if match prev_type with Some p => (numtype f <=? p)%Z | None => false end then Some i
      else fields_valid_loop (S i) (Some (numtype f)) r allow_extra
  end.

(** [tlv_fields_valid]: [None] is true, otherwise [*err_index]. *)
Definition tlv_fields_valid (fields : list tlv_field) (allow_extra : option (list Z)) : option nat :=
  fields_valid_loop 0 None fields allow_extra.
