(* ===== verification/TlvProofs.v ===== *)
(** Streams of type, length, value: writing and reading back, sorting, validity;
    channel ids. *)
From Stdlib Require Import Sorting.Sorted.
From S2P Require Import Prelude Wire Tlv.

(** * Channel ids *)

#[export] Instance wire_scid_laws : WireLaws short_channel_id.
Proof.
  split; [|done]. intros [v] rest H. cbn [to_wire from_wire wire_scid wire_ok scid_u64] in *. unfold fromwire_short_channel_id, towire_short_channel_id.
  cbn [scid_u64]. pose proof (wire_roundtrip (U64 v) rest H) as E. cbn [to_wire from_wire wire_u64 u64_val] in E.
  destruct (fromwire_u64 _) as [x c]. by injection E as -> ->.
Qed.

#[export] Instance wire_scidd_laws : WireLaws short_channel_id_dir.
Proof.
  split; [|done]. intros [[v] d] rest H. cbn [to_wire from_wire wire_scidd wire_ok scidd_scid scid_u64] in *.
  unfold fromwire_short_channel_id_dir, towire_short_channel_id_dir. cbn [scidd_scid scidd_dir]. rewrite <- app_assoc.
  pose proof (wire_roundtrip (Scid v) (towire_bool d ++ rest) H) as E. cbn [to_wire from_wire wire_scid] in E. rewrite E.
  pose proof (wire_roundtrip d rest I) as E2. cbn [to_wire from_wire wire_bool] in E2. by rewrite E2.
Qed.

Lemma land_ones_small k z : (0 <= k)%Z -> (Z.land z (Z.ones k) =? z)%Z = true <-> (0 <= z < 2 ^ k)%Z.
Proof.
  intros Hk. rewrite Z.eqb_eq, Z.land_ones by done. split.
  - intros <-. apply Z.mod_pos_bound. lia.
  - apply Z.mod_small.
Qed.

(** The three numbers of a channel id, as an equation. *)
Lemma scid_value b t o : (0 <= b < 2 ^ 24)%Z -> (0 <= t < 2 ^ 24)%Z -> (0 <= o < 2 ^ 16)%Z ->
  mk_short_channel_id b t o = Some (Scid (b * 2 ^ 40 + t * 2 ^ 16 + o)).
Proof.
  intros Hb Ht Ho. unfold mk_short_channel_id. change 16777215%Z with (Z.ones 24). change 65535%Z with (Z.ones 16).
  rewrite (proj2 (land_ones_small 24 b ltac:(lia)) Hb), (proj2 (land_ones_small 24 t ltac:(lia)) Ht), (proj2 (land_ones_small 16 o ltac:(lia)) Ho).
  cbn [negb orb]. do 2 f_equal. rewrite !Z.land_ones, !Z.mod_small, !Z.shiftl_mul_pow2 by lia.
  assert (E1 : Z.land (b * 2 ^ 40) (t * 2 ^ 16) = 0%Z).
  { rewrite <- !Z.shiftl_mul_pow2 by lia. apply Z.bits_inj'. intros i Hi. rewrite Z.land_spec, !Z.shiftl_spec, Z.bits_0 by lia.
    destruct (Z.ltb_spec i 40); [rewrite (Z.testbit_neg_r b) by lia; done|].
    destruct (decide (t = 0%Z)) as [->|]; [by rewrite Z.bits_0, andb_false_r|].
    rewrite (Z.bits_above_log2 t), andb_false_r; [done|lia|]. assert (Z.log2 t < 24)%Z by (apply Z.log2_lt_pow2; lia). lia. }
  assert (E2 : Z.land (Z.lor (b * 2 ^ 40) (t * 2 ^ 16)) o = 0%Z).
  { rewrite <- !Z.shiftl_mul_pow2 by lia. apply Z.bits_inj'. intros i Hi. rewrite Z.land_spec, Z.lor_spec, !Z.shiftl_spec, Z.bits_0 by lia.
    destruct (Z.ltb_spec i 16); [rewrite (Z.testbit_neg_r b), (Z.testbit_neg_r t) by lia; done|].
    destruct (decide (o = 0%Z)) as [->|]; [by rewrite Z.bits_0, andb_false_r|].
    rewrite (Z.bits_above_log2 o), andb_false_r; [done|lia|]. assert (Z.log2 o < 16)%Z by (apply Z.log2_lt_pow2; lia). lia. }
  pose proof (Z.add_lor_land (b * 2 ^ 40) (t * 2 ^ 16)). pose proof (Z.add_lor_land (Z.lor (b * 2 ^ 40) (t * 2 ^ 16)) o). lia.
Qed.

Lemma scid_parts b t o s : mk_short_channel_id b t o = Some s ->
  (0 <= b < 2 ^ 24)%Z /\ (0 <= t < 2 ^ 24)%Z /\ (0 <= o < 2 ^ 16)%Z /\
  short_channel_id_blocknum s = b /\ short_channel_id_txnum s = t /\ short_channel_id_outnum s = o.
Proof.
  intros H. assert (HR : (0 <= b < 2 ^ 24)%Z /\ (0 <= t < 2 ^ 24)%Z /\ (0 <= o < 2 ^ 16)%Z).
  { unfold mk_short_channel_id in H. change 16777215%Z with (Z.ones 24) in H. change 65535%Z with (Z.ones 16) in H.
    rewrite <- !land_ones_small by lia.
    destruct (Z.land b (Z.ones 24) =? b)%Z, (Z.land t (Z.ones 24) =? t)%Z, (Z.land o (Z.ones 16) =? o)%Z; done. }
  destruct HR as (Hb & Ht & Ho). rewrite (scid_value b t o Hb Ht Ho) in H. injection H as <-.
  unfold short_channel_id_blocknum, short_channel_id_txnum, short_channel_id_outnum. cbn [scid_u64].
  change 16777215%Z with (Z.ones 24). change 65535%Z with (Z.ones 16). rewrite !Z.land_ones, !Z.shiftr_div_pow2 by lia.
  change (2 ^ 40)%Z with (2 ^ 24 * 2 ^ 16)%Z. split_and!; try lia.
  - change (2 ^ 24 * 2 ^ 16)%Z with (2 ^ 40)%Z. rewrite <- Z.add_assoc, Z.div_add_l, Z.div_small by lia. lia.
  - replace (b * (2 ^ 24 * 2 ^ 16) + t * 2 ^ 16 + o)%Z with ((b * 2 ^ 24 + t) * 2 ^ 16 + o)%Z by lia.
    rewrite Z.div_add_l, (Z.div_small o), Z.add_0_r, Z.add_comm, Z.mod_add, Z.mod_small by lia. done.
  - replace (b * (2 ^ 24 * 2 ^ 16) + t * 2 ^ 16 + o)%Z with (o + (b * 2 ^ 24 + t) * 2 ^ 16)%Z by lia. rewrite Z.mod_add, Z.mod_small by lia. done.
Qed.

(** * Fields *)

Definition field_ok (f : tlv_field) : Prop := (0 <= numtype f < u64_mod)%Z /\ (len (value f) < u64_mod)%Z.

(** Reading a bigsize that was written. *)
Lemma read_bigsize v rest : (0 <= v < u64_mod)%Z -> fromwire_bigsize (Some (towire_bigsize v ++ rest)) = (v, Some rest).
Proof.
  intros H. pose proof (wire_roundtrip (Bigsize v) rest H) as E. cbn [to_wire from_wire wire_bigsize bigsize_val] in E.
  destruct (fromwire_bigsize _) as [x c]. by injection E as -> ->.
Qed.

Lemma bigsize_nonempty v : 1 <= length (towire_bigsize v).
Proof. unfold towire_bigsize, towire. rewrite length_bigsize_put. unfold bigsize_len. repeat case_match; lia. Qed.

Section Read.
Context {R : Type} (types : list (tlv_record_type R)).

(** Reading one field takes exactly its bytes. *)
Lemma read_field fuel f rest record fields :
  field_ok f ->
  fromwire_tlv_loop (S fuel) types (towire_field f ++ rest) record fields =
    match type_of types (numtype f) with
    | Some ty =>
        match rt_fromwire ty (Some (value f)) record with
        | (record', Some []) => fromwire_tlv_loop fuel types rest record' (fields ++ [Field true (numtype f) (value f)])
        | _ => None
        end
    | None => fromwire_tlv_loop fuel types rest record (fields ++ [Field false (numtype f) (value f)])
    end.
Proof.
  intros [Ht Hl]. unfold towire_field. rewrite <- !app_assoc. cbn [fromwire_tlv_loop].
  destruct (towire_bigsize (numtype f) ++ towire_bigsize (len (value f)) ++ towire (value f) ++ rest) as [|x b] eqn:E.
  { apply (f_equal length) in E. rewrite length_app in E. pose proof (bigsize_nonempty (numtype f)). cbn in E. lia. }
  rewrite <- E. clear E x b. rewrite read_bigsize by done. rewrite read_bigsize by (unfold len in *; lia).
  unfold towire. rewrite (proj2 (Z.ltb_ge _ _)) by (unfold len; rewrite length_app; lia). unfold len. rewrite Nat2Z.id.
  by rewrite take_app_length, drop_app_length.
Qed.

(** What the known types make of the values, one field after another. *)
Fixpoint absorb (l : list tlv_field) (record : R) : option (R * list tlv_field) :=
  match l with
  | [] => Some (record, [])
  | f :: r =>
      match type_of types (numtype f) with
      | Some ty =>
          match rt_fromwire ty (Some (value f)) record with
          | (record', Some []) => '(s, l') ← absorb r record'; Some (s, Field true (numtype f) (value f) :: l')
          | _ => None
          end
      | None => '(s, l') ← absorb r record; Some (s, Field false (numtype f) (value f) :: l')
      end
  end.

Lemma read_fields l : Forall field_ok l -> forall fuel record fields, length (flat_map towire_field l) < fuel ->
  fromwire_tlv_loop fuel types (flat_map towire_field l) record fields = '(s, l') ← absorb l record; Some (s, fields ++ l').
Proof.
  induction 1 as [|f l Hf _ IH]; intros fuel record fields Hl; (destruct fuel as [|fuel]; [lia|]).
  { cbn. by rewrite app_nil_r. }
  cbn [flat_map] in *. rewrite length_app in Hl. rewrite read_field by done.
  assert (Hn : 1 <= length (towire_field f)) by (unfold towire_field; rewrite length_app; pose proof (bigsize_nonempty (numtype f)); lia).
  cbn [absorb]. destruct (type_of types (numtype f)) as [ty|].
  - destruct (rt_fromwire ty (Some (value f)) record) as [record' [[|]|]]; try done. rewrite IH by lia.
    destruct (absorb l record') as [[s l']|]; cbn; [|done]. by rewrite <- app_assoc.
  - rewrite IH by lia. destruct (absorb l record) as [[s l']|]; cbn; [|done]. by rewrite <- app_assoc.
Qed.

Lemma read_stream l record : Forall field_ok l -> fromwire_tlv types (flat_map towire_field l) record = absorb l record.
Proof. intros H. unfold fromwire_tlv. rewrite read_fields by (done || lia). destruct (absorb l record) as [[s l']|]; done. Qed.
End Read.

(** Without known types, the fields come back. *)
Lemma absorb_raw {R : Type} l (record : R) : absorb [] l record = Some (record, map (fun f => Field false (numtype f) (value f)) l).
Proof. induction l as [|f l IH]; [done|]. cbn [absorb type_of rev List.find]. by rewrite IH. Qed.

(** ** Order *)

Definition increasing (l : list tlv_field) : Prop := StronglySorted (fun f g => (numtype f < numtype g)%Z) l.

Lemma insert_perm f l : Permutation (insert_field f l) (f :: l).
Proof. induction l as [|g l IH]; [done|]. cbn [insert_field]. case_match; [|done]. rewrite IH. constructor. Qed.

Lemma sort_perm l : Permutation (sort_fields l) l.
Proof. induction l as [|f l IH]; [done|]. unfold sort_fields in *. cbn [foldr]. rewrite insert_perm. by constructor. Qed.

Lemma insert_increasing f l : increasing l -> Forall (fun g => numtype g <> numtype f) l -> increasing (insert_field f l).
Proof.
  induction 1 as [|g l Hl IH Hg]; intros HF; cbn [insert_field]; [by repeat constructor|]. apply Forall_cons in HF as [Hne HF].
  destruct (Z.ltb_spec (numtype g) (numtype f)).
  - constructor; [by apply IH|]. rewrite (insert_perm f l). by constructor.
  - constructor; [by constructor|]. constructor; [lia|]. eapply Forall_impl; [exact Hg|]. cbn. intros h. lia.
Qed.

Lemma sort_increasing l : NoDup (map numtype l) -> increasing (sort_fields l).
Proof.
  induction l as [|f l IH]; intros Hd; [constructor|]. cbn [map] in Hd. apply NoDup_cons in Hd as [Hf Hd].
  unfold sort_fields. cbn [foldr]. fold (sort_fields l). apply insert_increasing; [by apply IH|]. rewrite (sort_perm l).
  apply Forall_forall. intros g Hg E. apply Hf. rewrite <- E. by apply list_elem_of_fmap_2.
Qed.

(** ** Validity *)

Lemma valid_loop l extra : forall i prev, fields_valid_loop i prev l extra = None <->
  Forall (fun f => tlv_type_is_allowed f extra = true) l /\ increasing l /\ match prev with Some p => Forall (fun f => (p < numtype f)%Z) l | None => True end.
Proof.
  induction l as [|f l IH]; intros i prev; cbn [fields_valid_loop].
  { split; [|done]. intros _. split_and!; [constructor|constructor|by destruct prev]. }
  destruct (tlv_type_is_allowed f extra) eqn:Ea; cbn [negb].
  2: { split; [done|]. intros [HF _]. apply Forall_cons in HF as [E _]. congruence. }
  destruct (match prev with Some p => (numtype f <=? p)%Z | None => false end) eqn:Ep.
  { split; [done|]. intros (_ & _ & HP). destruct prev as [p|]; [|done]. apply Forall_cons in HP as [HP _]. apply Z.leb_le in Ep. lia. }
  rewrite IH. split.
  - intros (H1 & H2 & H3). split_and!; [by constructor|by constructor|]. destruct prev as [p|]; [|done]. apply Z.leb_gt in Ep.
    constructor; [done|]. eapply Forall_impl; [exact H3|]. cbn. intros g. lia.
  - intros (H1 & H2 & _). apply Forall_cons in H1 as [_ H1]. inv H2. done.
Qed.

Lemma valid_iff l extra : tlv_fields_valid l extra = None <-> Forall (fun f => tlv_type_is_allowed f extra = true) l /\ increasing l.
Proof. unfold tlv_fields_valid. rewrite valid_loop. tauto. Qed.

(** ** Known types *)

Section Codec.
Context {R : Type} (types : list (tlv_record_type R)).

(** What the functions of the table owe to each other: a value that was written
    is read to its end, into its own part of the record. *)
Definition codec : Prop := forall ty, ty ∈ types -> forall rec v, rt_towire ty rec = Some v -> forall r0,
  exists r', rt_fromwire ty (Some v) r0 = (r', Some []) /\ rt_towire ty r' = Some v /\
    forall ty', ty' ∈ types -> rt_type ty' <> rt_type ty -> rt_towire ty' r' = rt_towire ty' r0.

Definition types_increasing (tys : list (tlv_record_type R)) : Prop := StronglySorted (fun a b => (rt_type a < rt_type b)%Z) tys.

Lemma increasing_inj tys a b : types_increasing tys -> a ∈ tys -> b ∈ tys -> rt_type a = rt_type b -> a = b.
Proof.
  induction 1 as [|c tys _ IH Hc]; [set_solver|]. rewrite Forall_forall in Hc. intros Ha Hb E.
  apply elem_of_cons in Ha as [->|Ha], Hb as [->|Hb]; [done|specialize (Hc b Hb); lia|specialize (Hc a Ha); lia|by apply IH].
Qed.

Lemma find_type ty : types_increasing types -> ty ∈ types -> type_of types (rt_type ty) = Some ty.
Proof.
  intros HT Hin. unfold type_of. destruct (List.find _ (rev types)) as [ty'|] eqn:E.
  - apply List.find_some in E as [Hin' E]. apply Z.eqb_eq in E. f_equal. apply (increasing_inj types); [done| |done|done].
    apply list_elem_of_In. by apply in_rev.
  - exfalso. eapply List.find_none in E; [|apply in_rev; rewrite rev_involutive; by apply list_elem_of_In]. by rewrite Z.eqb_refl in E.
Qed.

Lemma make_fields_ret prev tys rec : types_increasing tys -> Forall (fun ty => match prev with Some p => (p < rt_type ty)%Z | None => True end) tys ->
  make_fields prev tys rec = Ret (omap (fun ty => Field true (rt_type ty) <$> rt_towire ty rec) tys).
Proof.
  intros HT. revert prev. induction HT as [|ty tys HT IH Hty]; intros prev HF; [done|]. apply Forall_cons in HF as [Hp _]. cbn [make_fields].
  replace (match prev with Some p => (p <? rt_type ty)%Z | None => true end) with true by (destruct prev; [symmetry; by apply Z.ltb_lt|done]).
  cbn [assert_ obind]. rewrite IH by done. cbn [obind omap list_omap]. by destruct (rt_towire ty rec).
Qed.

Lemma absorb_made rec tys : codec -> types_increasing types -> types_increasing tys -> (forall ty, ty ∈ tys -> ty ∈ types) -> forall r0,
  (forall ty, ty ∈ tys -> rt_towire ty r0 = None) ->
  let l := omap (fun ty => Field true (rt_type ty) <$> rt_towire ty rec) tys in
  exists r', absorb types l r0 = Some (r', l) /\ (forall ty, ty ∈ tys -> rt_towire ty r' = rt_towire ty rec) /\
    forall ty, ty ∈ types -> ty ∉ tys -> rt_towire ty r' = rt_towire ty r0.
Proof.
  intros HC HT HS. induction HS as [|ty tys HS IH Hty]; intros Hsub r0 H0; [exists r0; split_and!; [done|set_solver|done]|].
  assert (Hnot : ty ∉ tys) by (intros Hin; rewrite Forall_forall in Hty; specialize (Hty ty Hin); lia).
  cbn [omap list_omap]. destruct (rt_towire ty rec) as [v|] eqn:Ev; cbn [fmap option_fmap option_map].
  - destruct (HC ty ltac:(set_solver) rec v Ev r0) as (r1 & E1 & Ew & Ho).
    destruct (IH ltac:(set_solver) r1) as (r' & E & Ht & Hr).
    { intros ty' Hin. rewrite Ho; [set_solver|set_solver|]. rewrite Forall_forall in Hty. specialize (Hty ty' Hin). lia. }
    exists r'. cbn [absorb numtype value]. rewrite find_type, E1 by set_solver. cbv zeta in E. rewrite E. cbn [mbind option_bind]. split_and!; [done|..].
    + intros ty' [->|Hin]%elem_of_cons; [rewrite (Hr ty ltac:(set_solver) Hnot); congruence|by apply Ht].
    + intros ty' Hin Hn. apply not_elem_of_cons in Hn as [Hne Hn]. rewrite (Hr ty' Hin Hn). apply Ho; [done|]. intros Eq. apply Hne.
      by apply (increasing_inj types); [| |set_solver|].
  - destruct (IH ltac:(set_solver) r0 ltac:(set_solver)) as (r' & E & Ht & Hr). exists r'. split_and!; [done|..].
    + intros ty' [->|Hin]%elem_of_cons; [rewrite (Hr ty ltac:(set_solver) Hnot), Ev; apply H0; set_solver|by apply Ht].
    + intros ty' Hin Hn. apply Hr; set_solver.
Qed.
End Codec.

(** ** Setting and getting *)

Lemma get_raw_set junk l t v t' :
  (snd <$> tlvstream_get_raw (tlvstream_set_raw junk l t v) t') ≫= (fun f => Some (value f)) =
    if decide (t' = t) then Some v else (snd <$> tlvstream_get_raw l t') ≫= (fun f => Some (value f)).
Proof.
  assert (H : forall l, ((snd <$> tlvstream_get_raw l t') ≫= (fun f => Some (value f))) = (value <$> List.find (fun f => bool_decide (numtype f = t')) l)).
  { clear. unfold tlvstream_get_raw. induction l as [|f l IH]; [done|]. cbn [list_find List.find]. case_decide as E.
    - by rewrite bool_decide_eq_true_2.
    - rewrite bool_decide_eq_false_2 by done. rewrite <- IH. by destruct (list_find _ l) as [[]|]. }
  rewrite !H. clear H. unfold tlvstream_set_raw, tlvstream_get_raw. destruct (list_find _ l) as [[i e]|] eqn:E.
  - apply list_find_Some in E as (Hi & He & Hfirst). revert i Hi Hfirst. induction l as [|f l IH]; intros i Hi Hfirst; [done|].
    destruct i as [|i].
    + injection Hi as ->. cbn [insert list_insert List.find numtype value]. rewrite He. destruct (decide (t' = t)) as [->|Hne].
      * rewrite bool_decide_eq_true_2 by done. done.
      * by rewrite !bool_decide_eq_false_2 by congruence.
    + cbn [insert list_insert List.find]. pose proof (Hfirst 0 f eq_refl ltac:(lia)) as Hf.
      destruct (decide (numtype f = t')) as [Ef|Ef].
      * rewrite bool_decide_eq_true_2 by done. destruct (decide (t' = t)); [congruence|done].
      * rewrite bool_decide_eq_false_2 by done. apply IH; [exact Hi|]. intros j g Hj Hlt. apply (Hfirst (S j) g Hj). lia.
  - apply list_find_None in E. induction l as [|f l IH]; cbn [app List.find].
    + cbn [numtype]. destruct (decide (t' = t)) as [->|]; [by rewrite bool_decide_eq_true_2|by rewrite bool_decide_eq_false_2 by congruence].
    + apply Forall_cons in E as [Hf E]. destruct (decide (numtype f = t')) as [Ef|Ef].
      * rewrite bool_decide_eq_true_2 by done. destruct (decide (t' = t)); [congruence|done].
      * rewrite bool_decide_eq_false_2 by done. by apply IH.
Qed.

(** The value of a type. *)
Definition tlv_value (l : list tlv_field) (t : Z) : option bytes := value <$> (snd <$> tlvstream_get_raw l t).

Lemma tlv_value_set junk l t v t' : tlv_value (tlvstream_set_raw junk l t v) t' = if decide (t' = t) then Some v else tlv_value l t'.
Proof.
  pose proof (get_raw_set junk l t v t') as H. unfold tlv_value. destruct (snd <$> tlvstream_get_raw _ t'), (snd <$> tlvstream_get_raw l t'); exact H.
Qed.

Lemma get_of_length_8_value l t : get_of_length_8 l t = tlv_value l t ≫= fun v => if length v =? 8 then Some v else None.
Proof. unfold get_of_length_8, tlv_value. by destruct (tlvstream_get_raw l t) as [[i f]|]. Qed.

Lemma length_tu64 v : (0 <= v < u64_mod)%Z -> length (towire_tu64 v) = 8 <-> (2 ^ 56 <= v)%Z.
Proof.
  intros H. unfold towire_tu64, towire_tlv_uint, towire, u64_mod in *. change (to_be 8 v) with (chr (v / 256 ^ 7 mod 256) :: to_be 7 v). cbn [skip_zeros].
  change (256 ^ 7)%Z with (2 ^ 56)%Z. pose proof (Z.div_lt_upper_bound v (2 ^ 56) 256 ltac:(lia) ltac:(lia)).
  pose proof (Z.div_pos v (2 ^ 56) ltac:(lia) ltac:(lia)). rewrite Z.mod_small by lia.
  destruct (ch_eqb (chr (v / 2 ^ 56)) NUL) eqn:E.
  - apply Ascii.eqb_eq in E. assert (Hz : (v / 2 ^ 56 = 0)%Z) by (rewrite <- (code_chr (v / 2 ^ 56)) by lia; by rewrite E).
    pose proof (length_skip (to_be 7 v)) as Hl. rewrite length_to_be in Hl. apply Z.div_small_iff in Hz; [|lia]. lia.
  - cbn [length]. rewrite length_to_be. split; [|done]. intros _. destruct (Z.lt_ge_cases v (2 ^ 56)); [|lia]. rewrite Z.div_small in E by lia. done.
Qed.
