(* ===== verification/Strmap.v ===== *)
(** ccan/strmap: the crit-bit tree that maps C strings to values, with the
    finite map it denotes.  The trees keep their keys in [strcmp] order. *)
From S2P Require Import Prelude.
From stdpp Require Import sorting.

Section Strmap.
Context {A : Type}.

(** [struct strmap] with [struct node]: a non-NULL [v] marks a leaf. *)
Inductive node : Type :=
| SLeaf (s : bytes) (v : A)
| SNode (child0 child1 : node) (byte_num bit_num : nat).

(** [u.n == NULL] is the empty map. *)
Definition strmap : Type := option node.

Definition strmap_init : strmap := None.
Definition strmap_empty (map : strmap) : bool :=
  match map with None => true | Some _ => false end.

(** The u8 at an index, the terminating NUL included. *)
Definition byte_at (s : bytes) (i : nat) : Z :=
  match s !! i with Some c => code c | None => 0 end.

(** The direction taken at a node: [(c >> bit_num) & 1], or 0 past the end. *)
Definition direction (member : bytes) (byte_num bit_num : nat) : bool :=
  if Nat.ltb byte_num (length member)
  then Z.testbit (byte_at member byte_num) (Z.of_nat bit_num)
  else false.

(** [closest]: the leaf reached by following the member's bits. *)
Fixpoint closest (n : node) (member : bytes) : bytes * A :=
  match n with
  | SLeaf s v => (s, v)
  | SNode c0 c1 byte_num bit_num =>
      if direction member byte_num bit_num then closest c1 member else closest c0 member
  end.

Definition strmap_get (map : strmap) (member : bytes) : option A :=
  match map with
  | None => None
  | Some n =>
      let '(s, v) := closest n member in
      if streq member s then Some v else None
  end.

(** The loop that finds the first differing byte; [None] when identical. *)
Fixpoint first_diff (s member : bytes) : option nat :=
  match s, member with
  | [], [] => None
  | c :: s', d :: m' => if ch_eqb c d then S <$> first_diff s' m' else Some 0
  | _, _ => Some 0
  end.

(** The walk that finds where the new node goes, and the splice there. *)
Fixpoint insert_node (n : node) (member : bytes) (value : A)
    (byte_num bit_num : nat) (new_dir : bool) : node :=
  let splice :=
    if new_dir then SNode n (SLeaf member value) byte_num bit_num
    else SNode (SLeaf member value) n byte_num bit_num in
  match n with
  | SLeaf _ _ => splice
  | SNode c0 c1 bn bi =>
      if Nat.ltb byte_num bn then splice
      else if Nat.eqb bn byte_num && Nat.ltb bi bit_num then splice
      else if direction member bn bi
           then SNode c0 (insert_node c1 member value byte_num bit_num new_dir) bn bi
           else SNode (insert_node c0 member value byte_num bit_num new_dir) c1 bn bi
  end.

(** [strmap_add_]: false with [EEXIST] when the member is present. *)
Definition strmap_add (map : strmap) (member : bytes) (value : A) : bool * strmap :=
  match map with
  | None => (true, Some (SLeaf member value))
  | Some n =>
      let s := (closest n member).1 in
      match first_diff s member with
      | None => (false, map)
      | Some byte_num =>
          let bit_num := Z.to_nat (Z.log2 (Z.lxor (byte_at s byte_num) (byte_at member byte_num))) in
          let new_dir := Z.testbit (byte_at member byte_num) (Z.of_nat bit_num) in
          (true, Some (insert_node n member value byte_num bit_num new_dir))
      end
  end.

(** [strmap_del_]: the walk to the leaf, then the sibling is raised.
    [None]: not found; [Some (None, v)]: the whole tree was the leaf. *)
Fixpoint del_node (n : node) (member : bytes) : option (option node * A) :=
  match n with
  | SLeaf s v => if streq member s then Some (None, v) else None
  | SNode c0 c1 byte_num bit_num =>
      if direction member byte_num bit_num then
        match del_node c1 member with
        | None => None
        | Some (None, v) => Some (Some c0, v)
        | Some (Some c1', v) => Some (Some (SNode c0 c1' byte_num bit_num), v)
        end
      else
        match del_node c0 member with
        | None => None
        | Some (None, v) => Some (Some c1, v)
        | Some (Some c0', v) => Some (Some (SNode c0' c1 byte_num bit_num), v)
        end
  end.

Definition strmap_del (map : strmap) (member : bytes) : option A * strmap :=
  match map with
  | None => (None, None)
  | Some n =>
      match del_node n member with
      | None => (None, map)
      | Some (map', v) => (Some v, map')
      end
  end.

(** [iterate]: child 0 then child 1, stopping at the first false. *)
Fixpoint iterate {S : Type} (n : node) (handle : bytes -> A -> S -> bool * S) (data : S) : bool * S :=
  match n with
  | SLeaf s v => handle s v data
  | SNode c0 c1 _ _ =>
      let '(go, data') := iterate c0 handle data in
      if go then iterate c1 handle data' else (false, data')
  end.

Definition strmap_iterate {S : Type} (map : strmap) (handle : bytes -> A -> S -> bool * S)
    (data : S) : S :=
  match map with
  | None => data
  | Some n => (iterate n handle data).2
  end.

Definition strmap_clear (map : strmap) : strmap := None.

(** ** The finite map a tree denotes *)

Fixpoint elements (n : node) : list (bytes * A) :=
  match n with
  | SLeaf s v => [(s, v)]
  | SNode c0 c1 _ _ => elements c0 ++ elements c1
  end.

Definition strmap_elements (map : strmap) : list (bytes * A) :=
  match map with None => [] | Some n => elements n end.

Definition strmap_to_map (map : strmap) : gmap bytes A := list_to_map (strmap_elements map).

Definition keys (n : node) : list bytes := (elements n).*1.

(** The bit of a key at a (byte, bit) position, 0 past its end. *)
Definition kbit (k : bytes) (b i : nat) : bool := Z.testbit (byte_at k b) (Z.of_nat i).

(** Positions in the order the tree compares them. *)
Definition before (b i b' i' : nat) : Prop := b < b' \/ (b = b' /\ i' < i).

Definition agree_before (k k' : bytes) (b i : nat) : Prop :=
  forall b' i', i' < 8 -> before b' i' b i -> kbit k b' i' = kbit k' b' i'.

Fixpoint node_wf (n : node) : Prop :=
  match n with
  | SLeaf s _ => no_nul s
  | SNode c0 c1 b i =>
      node_wf c0 /\ node_wf c1 /\ i < 8
      /\ Forall (fun k => kbit k b i = false) (keys c0)
      /\ Forall (fun k => kbit k b i = true) (keys c1)
      /\ (forall k k', k ∈ keys c0 ++ keys c1 -> k' ∈ keys c0 ++ keys c1 -> agree_before k k' b i)
  end.

Definition strmap_wf (map : strmap) : Prop :=
  match map with None => True | Some n => node_wf n end.

End Strmap.
Arguments node : clear implicits.
Arguments strmap : clear implicits.

(** [strcmp(a, b) < 0]: bytes compare as unsigned chars, NUL ends a string. *)
Fixpoint strcmp_lt (a b : bytes) : bool :=
  match a, b with
  | [], _ :: _ => true
  | c :: a', d :: b' =>
      if (code c <? code d)%Z then true
      else if (code c =? code d)%Z then strcmp_lt a' b' else false
  | _, [] => false
  end.

(** * Bits of bytes *)

Lemma byte_at_range (k : bytes) (b : nat) : (0 <= byte_at k b < 256)%Z.
Proof. unfold byte_at. destruct (k !! b) as [c|]; [apply code_range | lia]. Qed.

Lemma testbit_high (z : Z) (i : Z) : (0 <= z < 256)%Z -> (8 <= i)%Z -> Z.testbit z i = false.
Proof.
  intros Hz Hi. apply Z.bits_above_log2; [lia|].
  assert (Z.log2 z <= 7)%Z; [|lia]. change 7%Z with (Z.log2 255). apply Z.log2_le_mono. lia.
Qed.

Lemma byte_ext (x y : Z) :
  (0 <= x < 256)%Z -> (0 <= y < 256)%Z ->
  (forall i : nat, i < 8 -> Z.testbit x (Z.of_nat i) = Z.testbit y (Z.of_nat i)) -> x = y.
Proof.
  intros Hx Hy H. apply Z.bits_inj'. intros n Hn.
  destruct (decide (n < 8)%Z).
  - specialize (H (Z.to_nat n)). rewrite Z2Nat.id in H by lia. apply H. lia.
  - rewrite !testbit_high by lia. done.
Qed.

(** The highest differing bit of two bytes. *)
Lemma log2_lxor_spec (x y : Z) :
  (0 <= x < 256)%Z -> (0 <= y < 256)%Z -> x <> y ->
  let i := Z.log2 (Z.lxor x y) in
  (0 <= i < 8)%Z /\ Z.testbit x i <> Z.testbit y i /\
  (forall j, (i < j)%Z -> Z.testbit x j = Z.testbit y j).
Proof.
  intros Hx Hy Hne i.
  assert (Hnn : (0 <= Z.lxor x y)%Z) by (apply Z.lxor_nonneg; lia).
  assert (Hpos : (0 < Z.lxor x y)%Z).
  { assert (Z.lxor x y <> 0)%Z; [|lia]. intros E. apply Z.lxor_eq in E. done. }
  assert (H1 : Z.testbit (Z.lxor x y) i = true) by (apply Z.bit_log2; done).
  rewrite Z.lxor_spec in H1.
  assert (Hi0 : (0 <= i)%Z) by apply Z.log2_nonneg.
  split_and!; [done| |by destruct (Z.testbit x i), (Z.testbit y i)|].
  - destruct (decide (i < 8)%Z); [done|].
    rewrite !testbit_high in H1 by lia. done.
  - intros j Hj. assert (H2 : Z.testbit (Z.lxor x y) j = false) by (apply Z.bits_above_log2; done).
    rewrite Z.lxor_spec in H2. by destruct (Z.testbit x j), (Z.testbit y j).
Qed.

Lemma direction_kbit (m : bytes) (b i : nat) : direction m b i = kbit m b i.
Proof.
  unfold direction, kbit. destruct (Nat.ltb_spec b (length m)); [done|].
  unfold byte_at. rewrite lookup_ge_None_2 by lia. by rewrite Z.bits_0.
Qed.

Lemma kbit_ext (k k' : bytes) :
  no_nul k -> no_nul k' ->
  (forall b i, i < 8 -> kbit k b i = kbit k' b i) -> k = k'.
Proof.
  intros Hk Hk' H. apply list_eq. intros b.
  assert (E : byte_at k b = byte_at k' b) by (apply byte_ext; auto using byte_at_range; intros; by apply H).
  unfold byte_at in E. unfold no_nul in Hk, Hk'. rewrite Forall_lookup in Hk, Hk'.
  destruct (k !! b) as [c|] eqn:E1, (k' !! b) as [d|] eqn:E2; try done.
  - f_equal. by apply code_inj.
  - destruct (Hk _ _ E1). by apply code_inj.
  - destruct (Hk' _ _ E2). by apply code_inj.
Qed.

Lemma first_diff_None (s m : bytes) : first_diff s m = None -> s = m.
Proof.
  revert m. induction s as [|c s IH]; intros [|d m] H; simplify_eq/=; [done|].
  unfold ch_eqb in H. destruct (Ascii.eqb_spec c d) as [->|]; [|done].
  f_equal. apply IH. by destruct (first_diff s m).
Qed.

Lemma first_diff_refl (s : bytes) : first_diff s s = None.
Proof. induction s as [|c s IH]; simpl; [done|]. unfold ch_eqb. by rewrite Ascii.eqb_refl, IH. Qed.

Lemma first_diff_Some (s m : bytes) (b : nat) :
  no_nul s -> no_nul m -> first_diff s m = Some b ->
  byte_at s b <> byte_at m b /\ forall b', b' < b -> byte_at s b' = byte_at m b'.
Proof.
  revert m b. induction s as [|c s IH]; intros [|d m] b Hs Hm H; simplify_eq/=; inv Hs || idtac; inv Hm || idtac.
  - split; [|lia]. unfold byte_at; simpl. intros E. symmetry in E. by apply code_nul in E.
  - split; [|lia]. unfold byte_at; simpl. intros E. by apply code_nul in E.
  - unfold ch_eqb in H. destruct (Ascii.eqb_spec c d) as [->|Hcd].
    + destruct (first_diff s m) as [b0|] eqn:E; simplify_eq/=.
      destruct (IH m b0) as [HA HB]; [done..|]. split; [done|].
      intros [|b'] Hb; [done|]. apply HB. lia.
    + simplify_eq. split; [|lia]. unfold byte_at; simpl. intros E. by apply code_inj in E.
Qed.

(** The position [strmap_add_] computes is the first where the keys differ. *)
Lemma crit_position (s m : bytes) (b : nat) :
  no_nul s -> no_nul m -> first_diff s m = Some b ->
  let i := Z.to_nat (Z.log2 (Z.lxor (byte_at s b) (byte_at m b))) in
  i < 8 /\ kbit m b i <> kbit s b i /\ agree_before m s b i.
Proof.
  intros Hs Hm H i. destruct (first_diff_Some s m b) as [Hne Hlt]; [done..|].
  destruct (log2_lxor_spec (byte_at s b) (byte_at m b)) as (Hi & Hd & Hhi); auto using byte_at_range.
  unfold kbit, i. rewrite Z2Nat.id by lia. split_and!; [lia|congruence|].
  intros b' i' Hi' [Hb|[-> Hii]]; unfold kbit.
  - by rewrite Hlt.
  - rewrite Hhi; [done|]. unfold i in Hii. lia.
Qed.

Section StrmapProofs.
Context {A : Type}.
Implicit Types (n : node A) (k m s : bytes) (v : A).

Lemma closest_elem n k : closest n k ∈ elements n.
Proof.
  induction n as [s v|c0 IH0 c1 IH1 b i]; simpl; [set_solver|].
  rewrite elem_of_app. destruct (direction k b i); auto.
Qed.

Lemma closest_key n k : (closest n k).1 ∈ keys n.
Proof. unfold keys. apply list_elem_of_fmap_2, closest_elem. Qed.

Lemma keys_elem n k v : (k, v) ∈ elements n -> k ∈ keys n.
Proof. intros H. unfold keys. by apply (list_elem_of_fmap_2' fst _ (k, v)). Qed.

Lemma closest_found n k v : node_wf n -> (k, v) ∈ elements n -> (closest n k).1 = k.
Proof.
  induction n as [s w|c0 IH0 c1 IH1 b i]; simpl; intros Hwf Hin.
  - apply list_elem_of_singleton in Hin. by simplify_eq.
  - destruct Hwf as (W0 & W1 & _ & F0 & F1 & _). rewrite direction_kbit.
    rewrite elem_of_app in Hin. rewrite Forall_forall in F0, F1.
    destruct Hin as [Hin|Hin].
    + rewrite (F0 k) by eauto using keys_elem. by apply IH0.
    + rewrite (F1 k) by eauto using keys_elem. by apply IH1.
Qed.

(** Two entries of a well-formed tree with the same key are the same entry. *)
Lemma elements_fun n k v w :
  node_wf n -> (k, v) ∈ elements n -> (k, w) ∈ elements n -> v = w.
Proof.
  induction n as [s u|c0 IH0 c1 IH1 b i]; simpl; intros Hwf H1 H2.
  - apply list_elem_of_singleton in H1, H2. congruence.
  - destruct Hwf as (W0 & W1 & _ & F0 & F1 & _). rewrite Forall_forall in F0, F1.
    rewrite elem_of_app in H1, H2. destruct H1 as [H1|H1], H2 as [H2|H2]; eauto;
      apply keys_elem in H1, H2.
    + specialize (F0 k H1). specialize (F1 k H2). congruence.
    + specialize (F0 k H2). specialize (F1 k H1). congruence.
Qed.

Lemma keys_NoDup n : node_wf n -> NoDup (keys n).
Proof.
  induction n as [s u|c0 IH0 c1 IH1 b i]; unfold keys in *; simpl; intros Hwf.
  - apply NoDup_singleton.
  - destruct Hwf as (W0 & W1 & _ & F0 & F1 & _). rewrite fmap_app, NoDup_app.
    split_and!; auto. intros k H0 H1. rewrite Forall_forall in F0, F1.
    specialize (F0 k H0). specialize (F1 k H1). congruence.
Qed.

Lemma insert_node_elements n k v b i d :
  elements (insert_node n k v b i d) ≡ₚ (k, v) :: elements n.
Proof.
  induction n as [s u|c0 IH0 c1 IH1 bn bi]; simpl.
  - destruct d; simpl; [apply Permutation_swap|done].
  - repeat match goal with |- context [if ?x then _ else _] => destruct x end; simpl;
      rewrite ?IH0, ?IH1; simpl; by rewrite <- ?Permutation_middle, ?app_nil_r.
Qed.

Lemma insert_node_keys n k v b i d k' :
  k' ∈ keys (insert_node n k v b i d) <-> k' = k \/ k' ∈ keys n.
Proof.
  unfold keys. rewrite insert_node_elements. simpl. by rewrite elem_of_cons.
Qed.

Lemma before_trans b i b' i' b'' i'' :
  before b i b' i' -> before b' i' b'' i'' -> before b i b'' i''.
Proof. unfold before. lia. Qed.

Lemma agree_before_trans (k1 k2 k3 : bytes) b i :
  agree_before k1 k2 b i -> agree_before k2 k3 b i -> agree_before k1 k3 b i.
Proof. intros H1 H2 b' i' Hi Hb. by rewrite H1, H2. Qed.

Lemma agree_before_sym (k1 k2 : bytes) b i : agree_before k1 k2 b i -> agree_before k2 k1 b i.
Proof. intros H1 b' i' Hi Hb. by rewrite H1. Qed.

Lemma agree_before_weaken (k1 k2 : bytes) b i b' i' :
  before b' i' b i -> agree_before k1 k2 b i -> agree_before k1 k2 b' i'.
Proof. intros Hb H b'' i'' Hi Hb'. apply H; [done|]. by eapply before_trans. Qed.

(** Splicing a leaf above a tree whose keys all branch the other way. *)
Lemma splice_wf n k v b i m :
  node_wf n -> no_nul k -> i < 8 -> m ∈ keys n ->
  (forall k', k' ∈ keys n -> agree_before k' m b i /\ kbit k' b i = kbit m b i) ->
  agree_before k m b i -> kbit k b i <> kbit m b i ->
  node_wf (if kbit k b i then SNode n (SLeaf k v) b i else SNode (SLeaf k v) n b i).
Proof.
  intros Hwf Hk Hi Hm Hn Hag Hne.
  assert (Hall : forall k', k' = k \/ k' ∈ keys n -> agree_before k' m b i).
  { intros k' [->|Hk']; [done|]. by apply Hn. }
  assert (Hag2 : forall k1 k2, k1 = k \/ k1 ∈ keys n -> k2 = k \/ k2 ∈ keys n -> agree_before k1 k2 b i).
  { intros k1 k2 H1 H2. eapply agree_before_trans; [by apply Hall|]. by apply agree_before_sym, Hall. }
  assert (HF : Forall (fun k' => kbit k' b i = negb (kbit k b i)) (keys n)).
  { apply Forall_forall. intros k' Hk'. rewrite (proj2 (Hn k' Hk')).
    by destruct (kbit k b i), (kbit m b i). }
  destruct (kbit k b i) eqn:E; simpl; unfold keys in *; simpl; split_and!; auto;
    intros k1 k2 H1 H2; apply Hag2; set_solver.
Qed.

Lemma insert_node_wf n k v b i :
  node_wf n -> no_nul k -> i < 8 ->
  agree_before k (closest n k).1 b i -> kbit k b i <> kbit (closest n k).1 b i ->
  node_wf (insert_node n k v b i (kbit k b i)).
Proof.
  induction n as [s u|c0 IH0 c1 IH1 bn bi]; intros Hwf Hk Hi Hag Hne.
  - simpl. apply (splice_wf (SLeaf s u) k v b i s); auto.
    + unfold keys; set_solver.
    + unfold keys; simpl. intros k' ->%list_elem_of_singleton. split; [|done]. by intros ????.
  - assert (Hm : (closest (SNode c0 c1 bn bi) k).1 ∈ keys (SNode c0 c1 bn bi)) by apply closest_key.
    pose proof Hwf as (W0 & W1 & Hbi & F0 & F1 & HA).
    assert (Hsplice : before b i bn bi ->
      node_wf (if kbit k b i then SNode (SNode c0 c1 bn bi) (SLeaf k v) b i
               else SNode (SLeaf k v) (SNode c0 c1 bn bi) b i)).
    { intros Hb. eapply splice_wf; eauto. intros k' Hk'.
      unfold keys in Hm, Hk'. simpl in Hm, Hk'. rewrite fmap_app in Hm, Hk'.
      specialize (HA k' _ Hk' Hm). split; [by eapply agree_before_weaken|]. by apply HA. }
    cbn [insert_node]. destruct (Nat.ltb_spec b bn); [apply Hsplice; by left|].
    destruct (Nat.eqb bn b && Nat.ltb bi i) eqn:E.
    { apply andb_true_iff in E as [->%Nat.eqb_eq ?%Nat.ltb_lt]. apply Hsplice. right. lia. }
    assert (Hle : before bn bi b i \/ (bn = b /\ bi = i)).
    { unfold before. apply andb_false_iff in E as [?%Nat.eqb_neq|?%Nat.ltb_ge]; lia. }
    cbn [closest] in Hag, Hne, Hm.
    rewrite direction_kbit in Hag, Hne, Hm |- *.
    rewrite Forall_forall in F0, F1.
    pose proof (closest_key c0 k) as K0. pose proof (closest_key c1 k) as K1.
    destruct (kbit k bn bi) eqn:Ed;
      (destruct Hle as [Hle|[-> ->]]; [|exfalso; apply Hne; rewrite Ed; symmetry; auto]).
    + simpl. split_and!; auto.
      * by apply Forall_forall.
      * apply Forall_forall. intros k' [->|]%insert_node_keys; auto.
      * assert (Hall : forall k', k' ∈ keys c0 ++ keys (insert_node c1 k v b i (kbit k b i)) ->
                  agree_before k' (closest c1 k).1 bn bi).
        { intros k' [Hk'|[->|Hk']%insert_node_keys]%elem_of_app;
            [apply HA; set_solver|by eapply agree_before_weaken|apply HA; set_solver]. }
        intros k1 k2 H1 H2. eapply agree_before_trans; [by apply Hall|]. by apply agree_before_sym, Hall.
    + simpl. split_and!; auto.
      * apply Forall_forall. intros k' [->|]%insert_node_keys; auto.
      * by apply Forall_forall.
      * assert (Hall : forall k', k' ∈ keys (insert_node c0 k v b i (kbit k b i)) ++ keys c1 ->
                  agree_before k' (closest c0 k).1 bn bi).
        { intros k' [[->|Hk']%insert_node_keys|Hk']%elem_of_app;
            [by eapply agree_before_weaken|apply HA; set_solver|apply HA; set_solver]. }
        intros k1 k2 H1 H2. eapply agree_before_trans; [by apply Hall|]. by apply agree_before_sym, Hall.
Qed.

Lemma del_node_None n k : del_node n k = None -> node_wf n -> k ∉ keys n.
Proof.
  induction n as [s u|c0 IH0 c1 IH1 b i]; simpl; intros H Hwf.
  - unfold streq in H. case_bool_decide; [done|]. unfold keys; set_solver.
  - destruct Hwf as (W0 & W1 & _ & F0 & F1 & _). rewrite Forall_forall in F0, F1.
    rewrite direction_kbit in H. unfold keys in *; simpl; rewrite fmap_app, elem_of_app.
    intros [Hk|Hk].
    + rewrite (F0 k Hk) in H. destruct (del_node c0 k) as [[[]]|]; try done. by apply IH0.
    + rewrite (F1 k Hk) in H. destruct (del_node c1 k) as [[[]]|]; try done. by apply IH1.
Qed.

(** Deleting takes exactly one entry out, and keeps the invariant. *)
Lemma del_node_Some n k r v :
  del_node n k = Some (r, v) -> node_wf n ->
  elements n ≡ₚ (k, v) :: strmap_elements r /\ strmap_wf r.
Proof.
  revert r. induction n as [s u|c0 IH0 c1 IH1 b i]; simpl; intros r H Hwf.
  - unfold streq in H. case_bool_decide; simplify_eq. done.
  - destruct Hwf as (W0 & W1 & Hi & F0 & F1 & HA). destruct (direction k b i).
    + destruct (del_node c1 k) as [[[c1'|] v']|]; simplify_eq; simpl;
        destruct (IH1 _ eq_refl W1) as [HP HW]; simpl in HP, HW; rewrite HP, <- Permutation_middle.
      * split; [done|]. unfold keys in *. rewrite HP in F1; inv F1.
        split_and!; auto. intros k1 k2 Hk1 Hk2. apply HA; rewrite HP; set_solver.
      * by rewrite app_nil_r.
    + destruct (del_node c0 k) as [[[c0'|] v']|]; simplify_eq; simpl;
        destruct (IH0 _ eq_refl W0) as [HP HW]; simpl in HP, HW; rewrite HP; simpl.
      * split; [done|]. unfold keys in *. rewrite HP in F0; inv F0.
        split_and!; auto. intros k1 k2 Hk1 Hk2. apply HA; rewrite HP; set_solver.
      * done.
Qed.

Lemma strmap_keys_NoDup (m : strmap A) : strmap_wf m -> NoDup (strmap_elements m).*1.
Proof. destruct m as [n|]; simpl; [apply keys_NoDup|constructor]. Qed.

(** ** What each operation does to the denoted map *)

Lemma strmap_get_map (m : strmap A) k : strmap_wf m -> strmap_get m k = strmap_to_map m !! k.
Proof.
  destruct m as [n|]; simpl; [|done]. intros Hwf. unfold strmap_to_map; simpl.
  destruct (closest n k) as [s v] eqn:E. unfold streq. case_bool_decide as Hs.
  - subst s. symmetry. apply elem_of_list_to_map_1; [by apply keys_NoDup|].
    rewrite <- E. apply closest_elem.
  - symmetry. apply not_elem_of_list_to_map_1. intros Hk.
    apply list_elem_of_fmap in Hk as ([k' v'] & -> & Hin). simpl in *.
    apply closest_found in Hin; [|done]. by rewrite E in Hin.
Qed.

Lemma strmap_add_fresh (m : strmap A) k v :
  strmap_wf m -> no_nul k -> strmap_to_map m !! k = None ->
  exists m' : strmap A, strmap_add m k v = (true, m') /\ strmap_wf m' /\
             strmap_to_map m' = <[k := v]> (strmap_to_map m).
Proof.
  intros Hwf Hk Hnone. destruct m as [n|]; simpl.
  - destruct (first_diff (closest n k).1 k) as [b|] eqn:E.
    + assert (Hs : no_nul (closest n k).1).
      { clear -Hwf. induction n; simpl in *; [done|]. destruct Hwf as (? & ? & _). case_match; auto. }
      destruct (crit_position _ _ _ Hs Hk E) as (Hi & Hne & Hag).
      eexists. split; [done|]. simpl. fold (kbit k b (Z.to_nat (Z.log2 (Z.lxor (byte_at (closest n k).1 b) (byte_at k b))))).
      split; [by apply insert_node_wf|].
      unfold strmap_to_map; simpl.
      erewrite list_to_map_proper; [|by apply keys_NoDup, insert_node_wf|apply insert_node_elements]. done.
    + exfalso. apply first_diff_None in E. rewrite <- strmap_get_map in Hnone by done. simpl in Hnone.
      destruct (closest n k) as [s u]. simpl in E. subst s. unfold streq in Hnone. by rewrite bool_decide_eq_true_2 in Hnone.
  - by exists (Some (SLeaf k v)).
Qed.

Lemma strmap_add_present (m : strmap A) k v w :
  strmap_wf m -> strmap_to_map m !! k = Some w -> strmap_add m k v = (false, m).
Proof.
  intros Hwf. rewrite <- strmap_get_map by done. destruct m as [n|]; simpl; [|done].
  destruct (closest n k) as [s u] eqn:E. unfold streq. case_bool_decide; intros ?; simplify_eq.
  by rewrite first_diff_refl.
Qed.

Lemma strmap_del_map (m : strmap A) k :
  strmap_wf m ->
  (strmap_del m k).1 = strmap_to_map m !! k /\ strmap_wf (strmap_del m k).2 /\
  strmap_to_map (strmap_del m k).2 = delete k (strmap_to_map m).
Proof.
  intros Hwf. destruct m as [n|]; simpl; [|unfold strmap_to_map; simpl; by rewrite delete_empty].
  pose proof (keys_NoDup n Hwf) as HN.
  destruct (del_node n k) as [[r v]|] eqn:E; simpl.
  - destruct (del_node_Some n k r v E Hwf) as [HP HW].
    assert (HM : strmap_to_map (Some n) = <[k := v]> (strmap_to_map r))
      by (unfold strmap_to_map; simpl; by rewrite (list_to_map_proper _ _ HN HP)).
    assert (HK : strmap_to_map r !! k = None).
    { apply not_elem_of_list_to_map_1. unfold keys in HN. rewrite HP in HN. by inv HN. }
    rewrite HM. split_and!; [by rewrite lookup_insert_eq|done|by rewrite delete_insert_id].
  - apply del_node_None in E; [|done].
    assert (HK : strmap_to_map (Some n) !! k = None) by by apply not_elem_of_list_to_map_1.
    rewrite delete_id by done. done.
Qed.

Lemma strmap_empty_map (m : strmap A) : strmap_empty m = true <-> strmap_to_map m = ∅.
Proof.
  destruct m as [n|]; simpl; split; try done. intros H. exfalso.
  pose proof (closest_elem n []) as Hin. unfold strmap_to_map in H. simpl in H.
  destruct (elements n) as [|[k v] l]; [by inv Hin|]. simpl in H. by apply insert_non_empty in H.
Qed.

(** ** Iteration order *)

Lemma iterate_elements {S : Type} n (handle : bytes -> A -> S -> bool * S) (d : S) :
  (forall k v d', (handle k v d').1 = true) ->
  (iterate n handle d).2 = foldl (fun d' kv => (handle kv.1 kv.2 d').2) d (elements n)
  /\ (iterate n handle d).1 = true.
Proof.
  intros Hgo. revert d. induction n as [s u|c0 IH0 c1 IH1 b i]; intros d; simpl; [auto|].
  rewrite foldl_app. destruct (IH0 d) as [E1 E2]. destruct (iterate c0 handle d) as [go d'].
  simpl in *. subst. apply IH1.
Qed.

Lemma strmap_iterate_elements {S : Type} (m : strmap A) (handle : bytes -> A -> S -> bool * S) (d : S) :
  (forall k v d', (handle k v d').1 = true) ->
  strmap_iterate m handle d = foldl (fun d' kv => (handle kv.1 kv.2 d').2) d (strmap_elements m).
Proof. intros Hgo. destruct m as [n|]; simpl; [|done]. by apply iterate_elements. Qed.

Lemma crit_strcmp (k k' : bytes) b i :
  no_nul k -> no_nul k' -> i < 8 -> agree_before k k' b i ->
  kbit k b i = false -> kbit k' b i = true -> strcmp_lt k k' = true.
Proof.
  intros Hk Hk' Hi. revert k k' Hk Hk'.
  induction b as [|b IH]; intros k k' Hk Hk' Hag B0 B1.
  - assert (Hlt : (byte_at k 0 < byte_at k' 0)%Z).
    { apply (bit_lt _ _ (Z.of_nat i)); auto; try apply byte_at_range; [lia|].
      intros j Hj. destruct (decide (j < 8)%Z).
      - specialize (Hag 0 (Z.to_nat j) ltac:(lia) ltac:(right; lia)). unfold kbit in Hag.
        by rewrite Z2Nat.id in Hag by lia.
      - rewrite !testbit_high; auto using byte_at_range; lia. }
    destruct k as [|c k], k' as [|d k']; unfold byte_at in Hlt; simpl in *; try done.
    + pose proof (code_range c). lia.
    + by rewrite (proj2 (Z.ltb_lt _ _) Hlt).
  - assert (E : byte_at k 0 = byte_at k' 0).
    { apply byte_ext; auto using byte_at_range. intros j Hj. apply Hag; [done|]. left. lia. }
    destruct k as [|c k], k' as [|d k']; unfold byte_at in E; simpl in *.
    + unfold kbit, byte_at in B1. simpl in B1. by rewrite Z.bits_0 in B1.
    + done.
    + inv Hk. by apply code_nul in E.
    + inv Hk. inv Hk'. rewrite E, Z.ltb_irrefl, Z.eqb_refl. apply IH; auto.
      intros b' i' Hi' Hb. apply (Hag (S b') i'); [done|]. unfold before in *. lia.
Qed.

Lemma node_wf_no_nul n : node_wf n -> Forall no_nul (keys n).
Proof.
  induction n as [s u|c0 IH0 c1 IH1 b i]; unfold keys in *; simpl; intros Hwf; [by constructor|].
  destruct Hwf as (W0 & W1 & _). rewrite fmap_app, Forall_app. auto.
Qed.

Lemma keys_sorted n : node_wf n -> StronglySorted (fun a b => strcmp_lt a b = true) (keys n).
Proof.
  induction n as [s u|c0 IH0 c1 IH1 b i]; intros Hwf; [repeat constructor|].
  pose proof (node_wf_no_nul _ Hwf) as HNN. unfold keys in *; simpl in *.
  destruct Hwf as (W0 & W1 & Hi & F0 & F1 & HA). rewrite fmap_app in *. rewrite Forall_forall in F0, F1, HNN.
  apply StronglySorted_app_2; auto. intros k k' Hk Hk'.
  apply (crit_strcmp k k' b i); auto; [apply HNN; set_solver..|apply HA; set_solver].
Qed.

End StrmapProofs.
