(* ===== verification/Intmap.v ===== *)
(** ccan/intmap: the crit-bit tree on 64-bit indices behind UINTMAP, with the
    finite map it denotes.  Each node packs its common prefix and its critical
    bit into one 64-bit word. *)
From stdpp Require Import sorting.
From S2P Require Import Prelude.

(** * ccan/bitops on 64-bit words *)

Fixpoint bitops_ffs64_go (fuel : nat) (i : Z) (u : Z) : Z :=
  match fuel with
  | O => 0
  | S f => if Z.testbit u i then i + 1 else bitops_ffs64_go f (i + 1) u
  end%Z.

Definition bitops_ffs64 (u : Z) : Z := bitops_ffs64_go 64 0 u.
Definition bitops_ls64 (u : Z) : Z := (bitops_ffs64 u - 1)%Z.

Fixpoint bitops_clz64_go (fuel : nat) (i : Z) (u : Z) : Z :=
  match fuel with
  | O => 64
  | S f => if Z.testbit u (63 - i) then i else bitops_clz64_go f (i + 1) u
  end%Z.

Definition bitops_clz64 (u : Z) : Z := bitops_clz64_go 64 0 u.
Definition bitops_hs64 (u : Z) : Z := (63 - bitops_clz64 u)%Z.

Section Intmap.
Context {A : Type}.

Inductive inode : Type :=
| ILeaf (i : Z) (v : A)
| INode (child0 child1 : inode) (prefix_and_critbit : Z).

Definition intmap : Type := option inode.

Definition intmap_init : intmap := None.
Definition intmap_empty (map : intmap) : bool :=
  match map with None => true | Some _ => false end.

Definition critbit (pac : Z) : Z := bitops_ls64 pac.

(** [-2ULL << critbit] *)
Definition prefix_mask (crit : Z) : Z := wrap64 (Z.shiftl (u64_mod - 2) crit).

Definition prefix_and_critbit_of (v n : Z) : Z :=
  let cb := Z.shiftl 1 n in
  Z.lor (Z.land v (Z.lnot (cb - 1))) cb.

Fixpoint intmap_closest (n : inode) (index : Z) : Z * A :=
  match n with
  | ILeaf i v => (i, v)
  | INode c0 c1 pac =>
      if Z.testbit index (critbit pac) then intmap_closest c1 index else intmap_closest c0 index
  end.

Definition intmap_get (map : intmap) (index : Z) : option A :=
  match map with
  | None => None
  | Some n => let '(i, v) := intmap_closest n index in if (index =? i)%Z then Some v else None
  end.

Definition split_node (n : inode) (nodeindex index : Z) (value : A) : inode :=
  let crit := bitops_hs64 (Z.lxor nodeindex index) in
  let pac := prefix_and_critbit_of index crit in
  if Z.testbit index crit then INode n (ILeaf index value) pac else INode (ILeaf index value) n pac.

(** The walk of [intmap_add_]; [None] is EEXIST. *)
Fixpoint intmap_add_node (n : inode) (index : Z) (value : A) : option inode :=
  match n with
  | ILeaf i v => if (index =? i)%Z then None else Some (split_node n i index value)
  | INode c0 c1 pac =>
      let crit := critbit pac in
      let mask := prefix_mask crit in
      if negb (Z.land index mask =? Z.land pac mask)%Z
      then Some (split_node n (Z.land pac mask) index value)
      else if Z.testbit index crit
           then (fun c => INode c0 c pac) <$> intmap_add_node c1 index value
           else (fun c => INode c c1 pac) <$> intmap_add_node c0 index value
  end.

Definition intmap_add (map : intmap) (index : Z) (value : A) : bool * intmap :=
  match map with
  | None => (true, Some (ILeaf index value))
  | Some n =>
      match intmap_add_node n index value with
      | None => (false, map)
      | Some n' => (true, Some n')
      end
  end.

Fixpoint intmap_del_node (n : inode) (index : Z) : option (option inode * A) :=
  match n with
  | ILeaf i v => if (index =? i)%Z then Some (None, v) else None
  | INode c0 c1 pac =>
      if Z.testbit index (critbit pac) then
        match intmap_del_node c1 index with
        | None => None
        | Some (None, v) => Some (Some c0, v)
        | Some (Some c1', v) => Some (Some (INode c0 c1' pac), v)
        end
      else
        match intmap_del_node c0 index with
        | None => None
        | Some (None, v) => Some (Some c1, v)
        | Some (Some c0', v) => Some (Some (INode c0' c1 pac), v)
        end
  end.

Definition intmap_del (map : intmap) (index : Z) : option A * intmap :=
  match map with
  | None => (None, None)
  | Some n =>
      match intmap_del_node n index with
      | None => (None, map)
      | Some (map', v) => (Some v, map')
      end
  end.

Fixpoint first_node (n : inode) : Z * A :=
  match n with ILeaf i v => (i, v) | INode c0 _ _ => first_node c0 end.

Fixpoint last_node (n : inode) : Z * A :=
  match n with ILeaf i v => (i, v) | INode _ c1 _ => last_node c1 end.

Definition intmap_first (map : intmap) : option (Z * A) := first_node <$> map.
Definition intmap_last (map : intmap) : option (Z * A) := last_node <$> map.
Definition intmap_clear (map : intmap) : intmap := None.

(** ** The finite map a tree denotes *)

Fixpoint ielements (n : inode) : list (Z * A) :=
  match n with
  | ILeaf i v => [(i, v)]
  | INode c0 c1 _ => ielements c0 ++ ielements c1
  end.

Definition intmap_elements (map : intmap) : list (Z * A) :=
  match map with None => [] | Some n => ielements n end.

Definition intmap_to_map (map : intmap) : gmap Z A := list_to_map (intmap_elements map).

Definition ikeys (n : inode) : list Z := (ielements n).*1.

Definition agree_above (x y c : Z) : Prop := forall j, (c < j)%Z -> Z.testbit x j = Z.testbit y j.

Fixpoint inode_wf (n : inode) : Prop :=
  match n with
  | ILeaf i _ => (0 <= i < u64_mod)%Z
  | INode c0 c1 pac =>
      inode_wf c0 /\ inode_wf c1 /\ (0 <= pac < u64_mod)%Z /\ (0 <= critbit pac < 64)%Z
      /\ Forall (fun k => Z.testbit k (critbit pac) = false) (ikeys c0)
      /\ Forall (fun k => Z.testbit k (critbit pac) = true) (ikeys c1)
      /\ Forall (fun k => agree_above k pac (critbit pac)) (ikeys c0 ++ ikeys c1)
  end.

Definition intmap_wf (map : intmap) : Prop :=
  match map with None => True | Some n => inode_wf n end.

End Intmap.
Arguments inode : clear implicits.
Arguments intmap : clear implicits.

(** * Bits of 64-bit words *)

Lemma testbit_high64 (z i : Z) : (0 <= z < u64_mod)%Z -> (64 <= i)%Z -> Z.testbit z i = false.
Proof.
  intros Hz Hi. apply Z.bits_above_log2; [lia|].
  assert (Z.log2 z <= 63)%Z; [|lia]. change 63%Z with (Z.log2 (u64_mod - 1)).
  apply Z.log2_le_mono. unfold u64_mod in *. lia.
Qed.

Lemma word_bound (z : Z) :
  (0 <= z)%Z -> (forall j, (64 <= j)%Z -> Z.testbit z j = false) -> (z < u64_mod)%Z.
Proof.
  intros Hz H. destruct (decide (z < u64_mod)%Z); [done|].
  assert (64 <= Z.log2 z)%Z by (apply Z.log2_le_pow2; unfold u64_mod in *; lia).
  specialize (H (Z.log2 z)). rewrite Z.bit_log2 in H by (unfold u64_mod in *; lia). by discriminate H.
Qed.

Lemma clz64_spec (u : Z) :
  (0 < u < u64_mod)%Z -> bitops_hs64 u = Z.log2 u.
Proof.
  intros Hu. unfold bitops_hs64, bitops_clz64.
  assert (Hl : (0 <= Z.log2 u < 64)%Z).
  { split; [apply Z.log2_nonneg|]. apply Z.log2_lt_pow2; unfold u64_mod in *; lia. }
  assert (H : forall fuel i, (0 <= i)%Z -> (i <= 63 - Z.log2 u < i + Z.of_nat fuel)%Z ->
            bitops_clz64_go fuel i u = (63 - Z.log2 u)%Z).
  { induction fuel as [|f IH]; intros i H0 H; [lia|]. cbn [bitops_clz64_go].
    destruct (Z.testbit u (63 - i)) eqn:E.
    - destruct (decide (63 - i <= Z.log2 u)%Z); [lia|]. rewrite Z.bits_above_log2 in E by lia. done.
    - assert (i <> 63 - Z.log2 u)%Z; [|apply IH; lia].
      intros ->. replace (63 - (63 - Z.log2 u))%Z with (Z.log2 u) in E by lia.
      rewrite Z.bit_log2 in E by lia. done. }
  rewrite H; lia.
Qed.

Lemma ls64_spec (u c : Z) :
  (0 <= c < 64)%Z -> Z.testbit u c = true -> (forall j, (0 <= j < c)%Z -> Z.testbit u j = false) ->
  bitops_ls64 u = c.
Proof.
  intros Hc Hb Hlow. unfold bitops_ls64, bitops_ffs64.
  assert (H : forall fuel i, (0 <= i <= c)%Z -> (c < i + Z.of_nat fuel)%Z ->
            bitops_ffs64_go fuel i u = (c + 1)%Z).
  { induction fuel as [|f IH]; intros i H0 H; [lia|]. cbn [bitops_ffs64_go].
    destruct (Z.testbit u i) eqn:E.
    - destruct (decide (i = c)) as [->|]; [done|]. rewrite Hlow in E by lia. done.
    - apply IH; [|lia]. split; [lia|]. destruct (decide (i = c)) as [->|]; [congruence|lia]. }
  rewrite H; lia.
Qed.

Lemma prefix_mask_spec (c j : Z) :
  (0 <= c < 64)%Z -> (0 <= j)%Z -> Z.testbit (prefix_mask c) j = bool_decide (c < j < 64)%Z.
Proof.
  intros Hc Hj. unfold prefix_mask, wrap64. change u64_mod with (2 ^ 64)%Z.
  destruct (decide (j < 64)%Z) as [Hlt|Hge].
  - rewrite Z.mod_pow2_bits_low by lia. rewrite Z.shiftl_spec by lia.
    destruct (decide (c <= j)%Z).
    + replace (2 ^ 64 - 2)%Z with (Z.shiftl (Z.ones 63) 1) by reflexivity.
      rewrite Z.shiftl_spec by lia. destruct (decide (c < j)%Z).
      * rewrite Z.ones_spec_low by lia. by rewrite bool_decide_eq_true_2 by lia.
      * rewrite Z.testbit_neg_r by lia. by rewrite bool_decide_eq_false_2 by lia.
    + rewrite Z.testbit_neg_r by lia. by rewrite bool_decide_eq_false_2 by lia.
  - rewrite Z.mod_pow2_bits_high by lia. by rewrite bool_decide_eq_false_2 by lia.
Qed.

Lemma pac_testbit (v n j : Z) :
  (0 <= n < 64)%Z -> (0 <= j)%Z ->
  Z.testbit (prefix_and_critbit_of v n) j =
    (if (j =? n)%Z then true else if (j <? n)%Z then false else Z.testbit v j).
Proof.
  intros Hn Hj. unfold prefix_and_critbit_of. rewrite Z.lor_spec, Z.land_spec, Z.lnot_spec by lia.
  rewrite Z.shiftl_1_l. replace (2 ^ n - 1)%Z with (Z.ones n) by (rewrite Z.ones_equiv; lia).
  destruct (Z.eqb_spec j n) as [->|].
  - rewrite Z.pow2_bits_true by lia. apply orb_true_r.
  - rewrite Z.pow2_bits_false by lia. rewrite orb_false_r. destruct (Z.ltb_spec j n).
    + rewrite Z.ones_spec_low by lia. apply andb_false_r.
    + rewrite Z.ones_spec_high by lia. apply andb_true_r.
Qed.

Lemma pac_bound (v n : Z) :
  (0 <= n < 64)%Z -> (0 <= v < u64_mod)%Z -> (0 <= prefix_and_critbit_of v n < u64_mod)%Z.
Proof.
  intros Hn Hv. assert (0 <= prefix_and_critbit_of v n)%Z.
  { unfold prefix_and_critbit_of. apply Z.lor_nonneg. split; [apply Z.land_nonneg; lia|].
    rewrite Z.shiftl_1_l. apply Z.pow_nonneg. lia. }
  split; [done|]. apply word_bound; [done|]. intros j Hj. rewrite pac_testbit by lia.
  rewrite (proj2 (Z.eqb_neq j n)), (proj2 (Z.ltb_ge j n)) by lia. apply testbit_high64; lia.
Qed.

Lemma pac_critbit (v n : Z) : (0 <= n < 64)%Z -> critbit (prefix_and_critbit_of v n) = n.
Proof.
  intros Hn. apply ls64_spec; [done| |].
  - rewrite pac_testbit by lia. by rewrite Z.eqb_refl.
  - intros j Hj. rewrite pac_testbit by lia.
    by rewrite (proj2 (Z.eqb_neq j n)), (proj2 (Z.ltb_lt j n)) by lia.
Qed.

(** The highest differing bit of two different words. *)
Lemma hs64_lxor_spec (x y : Z) :
  (0 <= x < u64_mod)%Z -> (0 <= y < u64_mod)%Z -> x <> y ->
  let c := bitops_hs64 (Z.lxor x y) in
  (0 <= c < 64)%Z /\ Z.testbit x c <> Z.testbit y c /\ agree_above x y c.
Proof.
  intros Hx Hy Hne.
  assert (Hnn : (0 <= Z.lxor x y)%Z) by (apply Z.lxor_nonneg; lia).
  assert (Hpos : (0 < Z.lxor x y)%Z).
  { assert (Z.lxor x y <> 0)%Z; [|lia]. intros E. apply Z.lxor_eq in E. done. }
  assert (Hlt : (Z.lxor x y < u64_mod)%Z).
  { apply word_bound; [done|]. intros j Hj. rewrite Z.lxor_spec, !testbit_high64; done || lia. }
  rewrite clz64_spec by lia. simpl. set (c := Z.log2 (Z.lxor x y)).
  assert (H1 : Z.testbit (Z.lxor x y) c = true) by (apply Z.bit_log2; done).
  assert (Hc : (0 <= c < 64)%Z).
  { split; [apply Z.log2_nonneg|]. apply Z.log2_lt_pow2; unfold u64_mod in *; lia. }
  rewrite Z.lxor_spec in H1. split_and!; [lia..|by destruct (Z.testbit x c), (Z.testbit y c)|].
  intros j Hj. assert (H2 : Z.testbit (Z.lxor x y) j = false) by (apply Z.bits_above_log2; done).
  rewrite Z.lxor_spec in H2. by destruct (Z.testbit x j), (Z.testbit y j).
Qed.

(** Words with the same masked prefix agree above the critical bit, and back. *)
Lemma mask_agree (x y c : Z) :
  (0 <= c < 64)%Z -> (0 <= x < u64_mod)%Z -> (0 <= y < u64_mod)%Z ->
  Z.land x (prefix_mask c) = Z.land y (prefix_mask c) <-> agree_above x y c.
Proof.
  intros Hc Hx Hy. split.
  - intros E j Hj. destruct (decide (j < 64)%Z).
    + assert (H : Z.testbit (Z.land x (prefix_mask c)) j = Z.testbit (Z.land y (prefix_mask c)) j) by by rewrite E.
      rewrite !Z.land_spec, prefix_mask_spec, bool_decide_eq_true_2, !andb_true_r in H by lia. done.
    + rewrite !testbit_high64 by lia. done.
  - intros H. apply Z.bits_inj'. intros j Hj. rewrite !Z.land_spec, prefix_mask_spec by lia.
    case_bool_decide; [|by rewrite !andb_false_r]. by rewrite H by lia.
Qed.

Lemma land_mask_agree (x c : Z) :
  (0 <= c < 64)%Z -> (0 <= x < u64_mod)%Z -> agree_above (Z.land x (prefix_mask c)) x c.
Proof.
  intros Hc Hx j Hj. rewrite Z.land_spec, prefix_mask_spec by lia. case_bool_decide; [by rewrite andb_true_r|].
  rewrite andb_false_r. by rewrite testbit_high64 by lia.
Qed.

Lemma land_bound (x y : Z) : (0 <= x < u64_mod)%Z -> (0 <= y)%Z -> (0 <= Z.land x y < u64_mod)%Z.
Proof.
  intros Hx Hy. assert (0 <= Z.land x y)%Z by (apply Z.land_nonneg; lia). split; [done|].
  apply word_bound; [done|]. intros j Hj. by rewrite Z.land_spec, testbit_high64 by lia.
Qed.

Section IntmapProofs.
Context {A : Type}.
Implicit Types (n : inode A) (k : Z) (v : A).

Lemma ikeys_elem n k v : (k, v) ∈ ielements n -> k ∈ ikeys n.
Proof. intros H. unfold ikeys. by apply (list_elem_of_fmap_2' fst _ (k, v)). Qed.

Lemma intmap_closest_elem n k : intmap_closest n k ∈ ielements n.
Proof.
  induction n as [s v|c0 IH0 c1 IH1 p]; simpl; [set_solver|].
  rewrite elem_of_app. destruct (Z.testbit k (critbit p)); auto.
Qed.

Lemma intmap_closest_found n k v :
  inode_wf n -> (k, v) ∈ ielements n -> (intmap_closest n k).1 = k.
Proof.
  induction n as [s w|c0 IH0 c1 IH1 p]; simpl; intros Hwf Hin.
  - apply list_elem_of_singleton in Hin. by simplify_eq.
  - destruct Hwf as (W0 & W1 & _ & _ & F0 & F1 & _).
    rewrite elem_of_app in Hin. rewrite Forall_forall in F0, F1.
    destruct Hin as [Hin|Hin].
    + rewrite (F0 k) by eauto using ikeys_elem. by apply IH0.
    + rewrite (F1 k) by eauto using ikeys_elem. by apply IH1.
Qed.

Lemma ikeys_NoDup n : inode_wf n -> NoDup (ikeys n).
Proof.
  induction n as [s u|c0 IH0 c1 IH1 p]; unfold ikeys in *; simpl; intros Hwf.
  - apply NoDup_singleton.
  - destruct Hwf as (W0 & W1 & _ & _ & F0 & F1 & _). rewrite fmap_app, NoDup_app.
    split_and!; auto. intros k H0 H1. rewrite Forall_forall in F0, F1.
    specialize (F0 k H0). specialize (F1 k H1). congruence.
Qed.

Lemma ikeys_bound n : inode_wf n -> Forall (fun k => 0 <= k < u64_mod)%Z (ikeys n).
Proof.
  induction n as [s u|c0 IH0 c1 IH1 p]; unfold ikeys in *; simpl; intros Hwf; [by constructor|].
  destruct Hwf as (W0 & W1 & _). rewrite fmap_app, Forall_app. auto.
Qed.

Lemma split_node_elements n y k v : ielements (split_node n y k v) ≡ₚ (k, v) :: ielements n.
Proof.
  unfold split_node. destruct (Z.testbit _ _); simpl; [|done].
  by rewrite <- Permutation_middle, app_nil_r.
Qed.

Lemma split_node_wf n y k v :
  inode_wf n -> (0 <= y < u64_mod)%Z -> (0 <= k < u64_mod)%Z -> y <> k ->
  (forall k', k' ∈ ikeys n -> forall j, (bitops_hs64 (Z.lxor y k) <= j)%Z -> Z.testbit k' j = Z.testbit y j) ->
  inode_wf (split_node n y k v).
Proof.
  intros Hwf Hy Hk Hne Hn. unfold split_node.
  destruct (hs64_lxor_spec y k Hy Hk Hne) as (Hc & Hd & Hag).
  set (c := bitops_hs64 (Z.lxor y k)) in *.
  pose proof (pac_critbit k c Hc) as Hcrit. pose proof (pac_bound k c Hc Hk) as Hpb.
  assert (Hp : forall x, agree_above x k c -> agree_above x (prefix_and_critbit_of k c) c).
  { intros x Hx j Hj. rewrite Hx by done. rewrite pac_testbit by lia.
    by rewrite (proj2 (Z.eqb_neq j c)), (proj2 (Z.ltb_ge j c)) by lia. }
  assert (Hkk : agree_above k (prefix_and_critbit_of k c) c) by (apply Hp; by intros j Hj).
  assert (Hold : forall k', k' ∈ ikeys n -> agree_above k' (prefix_and_critbit_of k c) c).
  { intros k' Hk'. apply Hp. intros j Hj. rewrite (Hn k' Hk') by lia. by apply Hag. }
  assert (Hbit : forall k', k' ∈ ikeys n -> Z.testbit k' c = negb (Z.testbit k c)).
  { intros k' Hk'. rewrite (Hn k' Hk') by lia. by destruct (Z.testbit y c), (Z.testbit k c). }
  destruct (Z.testbit k c) eqn:E; cbn [negb] in Hbit; cbn [inode_wf]; rewrite Hcrit; unfold ikeys in *; cbn [ielements fmap list_fmap fst];
    split_and!; auto; rewrite ?Forall_app, ?Forall_cons, ?Forall_nil, ?Forall_forall; auto; lia.
Qed.

Lemma intmap_add_node_None n k v : inode_wf n -> intmap_add_node n k v = None -> k ∈ ikeys n.
Proof.
  induction n as [s u|c0 IH0 c1 IH1 p]; cbn [intmap_add_node]; intros Hwf H; unfold ikeys; simpl.
  - destruct (Z.eqb_spec k s); [set_solver|done].
  - destruct Hwf as (W0 & W1 & _). rewrite fmap_app, elem_of_app.
    destruct (negb _); [done|]. destruct (Z.testbit k _).
    + right. apply IH1; [done|]. by destruct (intmap_add_node c1 k v).
    + left. apply IH0; [done|]. by destruct (intmap_add_node c0 k v).
Qed.

Lemma intmap_add_node_Some n k v n' :
  inode_wf n -> (0 <= k < u64_mod)%Z -> intmap_add_node n k v = Some n' ->
  ielements n' ≡ₚ (k, v) :: ielements n /\ inode_wf n' /\ k ∉ ikeys n.
Proof.
  intros Hwf Hk. revert n' Hwf. induction n as [s u|c0 IH0 c1 IH1 p]; cbn [intmap_add_node]; intros n' Hwf H.
  - destruct (Z.eqb_spec k s); [done|]. simplify_eq. rewrite split_node_elements. split_and!; [done| |].
    + apply split_node_wf; auto. unfold ikeys; simpl. by intros k' ->%list_elem_of_singleton.
    + unfold ikeys; simpl. by rewrite list_elem_of_singleton.
  - pose proof Hwf as (W0 & W1 & Hp & Hc & F0 & F1 & FA).
    assert (HK : ikeys (INode c0 c1 p) = ikeys c0 ++ ikeys c1) by (unfold ikeys; simpl; by rewrite fmap_app).
    assert (Hmb : (0 <= prefix_mask (critbit p))%Z) by (apply Z.mod_pos_bound; done).
    destruct (Z.eqb_spec (Z.land k (prefix_mask (critbit p))) (Z.land p (prefix_mask (critbit p)))) as [Em|Em]; cbn [negb] in H.
    + apply mask_agree in Em; [|done..]. rewrite Forall_forall in F0, F1.
      destruct (Z.testbit k (critbit p)) eqn:Eb.
      * destruct (intmap_add_node c1 k v) as [c1'|] eqn:E; simplify_eq/=.
        destruct (IH1 _ W1 eq_refl) as (HP & HW & HN). rewrite HP, <- Permutation_middle. split_and!; auto; try lia.
        -- by apply Forall_forall.
        -- unfold ikeys. rewrite HP. constructor; [done|]. by apply Forall_forall.
        -- unfold ikeys in *. rewrite HP. csimpl. rewrite <- Permutation_middle. by constructor.
        -- rewrite HK, not_elem_of_app. split; [|done]. intros Hin. specialize (F0 k Hin). congruence.
      * destruct (intmap_add_node c0 k v) as [c0'|] eqn:E; simplify_eq/=.
        destruct (IH0 _ W0 eq_refl) as (HP & HW & HN). rewrite HP. split_and!; auto; try lia.
        -- unfold ikeys. rewrite HP. constructor; [done|]. by apply Forall_forall.
        -- by apply Forall_forall.
        -- unfold ikeys in *. rewrite HP. csimpl. by constructor.
        -- rewrite HK, not_elem_of_app. split; [done|]. intros Hin. specialize (F1 k Hin). congruence.
    + simplify_eq. rewrite split_node_elements.
      assert (Hpk : agree_above (Z.land p (prefix_mask (critbit p))) p (critbit p)) by by apply land_mask_agree.
      assert (Hy : (0 <= Z.land p (prefix_mask (critbit p)) < u64_mod)%Z) by by apply land_bound.
      assert (Hna : ~ agree_above k p (critbit p)) by (by rewrite <- mask_agree).
      split_and!; [done| |].
      * apply split_node_wf; auto.
        -- intros E. apply Hna. by rewrite <- E.
        -- rewrite HK. intros k' Hk' j Hj. rewrite Forall_forall in FA.
           rewrite (FA k' Hk'), <- Hpk; [done|..];
             (destruct (decide (critbit p < j)%Z) as [|Hle]; [done|]; exfalso; apply Hna;
              intros j' Hj'; destruct (hs64_lxor_spec (Z.land p (prefix_mask (critbit p))) k) as (_ & _ & Hag);
              [done..| |rewrite <- Hag by lia; by apply Hpk]; intros E; apply Hna; by rewrite <- E).
      * rewrite HK. intros Hin. rewrite Forall_forall in FA. by apply Hna, FA.
Qed.

Lemma intmap_del_node_None n k : intmap_del_node n k = None -> inode_wf n -> k ∉ ikeys n.
Proof.
  induction n as [s u|c0 IH0 c1 IH1 p]; simpl; intros H Hwf; unfold ikeys; simpl.
  - destruct (Z.eqb_spec k s); [done|]. by rewrite list_elem_of_singleton.
  - destruct Hwf as (W0 & W1 & _ & _ & F0 & F1 & _). rewrite Forall_forall in F0, F1.
    rewrite fmap_app, elem_of_app. intros [Hk|Hk].
    + rewrite (F0 k Hk) in H. destruct (intmap_del_node c0 k) as [[[]]|]; try done. by apply IH0.
    + rewrite (F1 k Hk) in H. destruct (intmap_del_node c1 k) as [[[]]|]; try done. by apply IH1.
Qed.

Lemma intmap_del_node_Some n k r v :
  intmap_del_node n k = Some (r, v) -> inode_wf n ->
  ielements n ≡ₚ (k, v) :: intmap_elements r /\ intmap_wf r.
Proof.
  revert r. induction n as [s u|c0 IH0 c1 IH1 p]; simpl; intros r H Hwf.
  - destruct (Z.eqb_spec k s); [|done]. by simplify_eq.
  - destruct Hwf as (W0 & W1 & Hp & Hc & F0 & F1 & FA). destruct (Z.testbit k (critbit p)).
    + destruct (intmap_del_node c1 k) as [[[c1'|] v']|]; simplify_eq; simpl;
        destruct (IH1 _ eq_refl W1) as [HP HW]; simpl in HP, HW; rewrite HP, <- Permutation_middle.
      * split; [done|]. unfold ikeys in *. rewrite HP in F1, FA. csimpl in F1; csimpl in FA.
        rewrite <- Permutation_middle in FA. inv F1. inv FA. split_and!; auto; lia.
      * by rewrite app_nil_r.
    + destruct (intmap_del_node c0 k) as [[[c0'|] v']|]; simplify_eq; simpl;
        destruct (IH0 _ eq_refl W0) as [HP HW]; simpl in HP, HW; rewrite HP; simpl; [|done].
      split; [done|]. unfold ikeys in *. rewrite HP in F0, FA. inv F0. inv FA. split_and!; auto; lia.
Qed.

(** ** What each operation does to the denoted map *)

Lemma intmap_get_map (m : intmap A) k : intmap_wf m -> intmap_get m k = intmap_to_map m !! k.
Proof.
  destruct m as [n|]; simpl; [|done]. intros Hwf. unfold intmap_to_map; simpl.
  destruct (intmap_closest n k) as [s v] eqn:E. destruct (Z.eqb_spec k s) as [->|Hs].
  - symmetry. apply elem_of_list_to_map_1; [by apply ikeys_NoDup|].
    rewrite <- E. apply intmap_closest_elem.
  - symmetry. apply not_elem_of_list_to_map_1. intros Hk.
    apply list_elem_of_fmap in Hk as ([k' v'] & -> & Hin). simpl in *.
    apply intmap_closest_found in Hin; [|done]. by rewrite E in Hin.
Qed.

Lemma intmap_add_fresh (m : intmap A) k v :
  intmap_wf m -> (0 <= k < u64_mod)%Z -> intmap_to_map m !! k = None ->
  exists m' : intmap A, intmap_add m k v = (true, m') /\ intmap_wf m' /\
             intmap_to_map m' = <[k := v]> (intmap_to_map m).
Proof.
  intros Hwf Hk Hnone. destruct m as [n|]; simpl; [|by exists (Some (ILeaf k v))].
  destruct (intmap_add_node n k v) as [n'|] eqn:E.
  - destruct (intmap_add_node_Some n k v n' Hwf Hk E) as (HP & HW & HN).
    exists (Some n'). split_and!; [done..|]. unfold intmap_to_map; simpl.
    by rewrite (list_to_map_proper _ _ (ikeys_NoDup n' HW) HP).
  - exfalso. apply intmap_add_node_None in E; [|done].
    unfold ikeys in E. apply list_elem_of_fmap in E as ([k' v'] & -> & Hin). simpl in *.
    unfold intmap_to_map in Hnone. simpl in Hnone.
    by rewrite (elem_of_list_to_map_1 _ _ _ (ikeys_NoDup n Hwf) Hin) in Hnone.
Qed.

Lemma intmap_add_present (m : intmap A) k v w :
  intmap_wf m -> (0 <= k < u64_mod)%Z -> intmap_to_map m !! k = Some w -> intmap_add m k v = (false, m).
Proof.
  intros Hwf Hk Hw. destruct m as [n|]; simpl; [|done].
  destruct (intmap_add_node n k v) as [n'|] eqn:E; [|done]. exfalso.
  destruct (intmap_add_node_Some n k v n' Hwf Hk E) as (HP & HW & HN).
  apply elem_of_list_to_map_2 in Hw. by apply ikeys_elem in Hw.
Qed.

Lemma intmap_del_map (m : intmap A) k :
  intmap_wf m ->
  (intmap_del m k).1 = intmap_to_map m !! k /\ intmap_wf (intmap_del m k).2 /\
  intmap_to_map (intmap_del m k).2 = delete k (intmap_to_map m).
Proof.
  intros Hwf. destruct m as [n|]; simpl; [|unfold intmap_to_map; simpl; by rewrite delete_empty].
  pose proof (ikeys_NoDup n Hwf) as HN.
  destruct (intmap_del_node n k) as [[r v]|] eqn:E; simpl.
  - destruct (intmap_del_node_Some n k r v E Hwf) as [HP HW].
    assert (HM : intmap_to_map (Some n) = <[k := v]> (intmap_to_map r))
      by (unfold intmap_to_map; simpl; by rewrite (list_to_map_proper _ _ HN HP)).
    assert (HK : intmap_to_map r !! k = None).
    { apply not_elem_of_list_to_map_1. unfold ikeys in HN. rewrite HP in HN. by inv HN. }
    rewrite HM. split_and!; [by rewrite lookup_insert_eq|done|by rewrite delete_insert_id].
  - apply intmap_del_node_None in E; [|done].
    assert (HK : intmap_to_map (Some n) !! k = None) by by apply not_elem_of_list_to_map_1.
    by rewrite delete_id by done.
Qed.

Lemma intmap_empty_map (m : intmap A) : intmap_empty m = true <-> intmap_to_map m = ∅.
Proof.
  destruct m as [n|]; simpl; split; try done. intros H. exfalso.
  pose proof (intmap_closest_elem n 0) as Hin. unfold intmap_to_map in H. simpl in H.
  destruct (ielements n) as [|[k v] l]; [by inv Hin|]. simpl in H. by apply insert_non_empty in H.
Qed.

(** ** Order: the keys ascend from left to right *)

Lemma ikeys_sorted n : inode_wf n -> StronglySorted Z.lt (ikeys n).
Proof.
  induction n as [s u|c0 IH0 c1 IH1 p]; intros Hwf; [repeat constructor|].
  pose proof (ikeys_bound _ Hwf) as HB. unfold ikeys in *; simpl in *.
  destruct Hwf as (W0 & W1 & Hp & Hc & F0 & F1 & FA). rewrite fmap_app in *.
  rewrite Forall_forall in F0, F1, FA, HB.
  apply StronglySorted_app_2; auto. intros k k' Hk Hk'.
  apply (bit_lt k k' (critbit p)); auto; [apply HB; set_solver..|lia|].
  intros j Hj. rewrite (FA k), (FA k'); auto; set_solver.
Qed.

Lemma first_node_min n : inode_wf n -> first_node n ∈ ielements n /\ forall k, k ∈ ikeys n -> ((first_node n).1 <= k)%Z.
Proof.
  intros Hwf. assert (E : exists l, ielements n = first_node n :: l).
  { clear. induction n as [|c0 [l IH] c1 _ p]; simpl; [by eexists|]. rewrite IH. by eexists. }
  destruct E as [l E]. pose proof (ikeys_sorted n Hwf) as HS. unfold ikeys in *. rewrite E in *. csimpl in *.
  split; [set_solver|]. inv HS. rewrite Forall_forall in *. intros k [->|Hk]%elem_of_cons; [lia|].
  assert ((first_node n).1 < k)%Z by auto. lia.
Qed.

Lemma last_node_max n : inode_wf n -> last_node n ∈ ielements n /\ forall k, k ∈ ikeys n -> (k <= (last_node n).1)%Z.
Proof.
  intros Hwf. assert (E : exists l, ielements n = l ++ [last_node n]).
  { clear. induction n as [i v|c0 _ c1 [l IH] p]; simpl; [by exists []|]. rewrite IH.
    eexists. by rewrite app_assoc. }
  destruct E as [l E]. pose proof (ikeys_sorted n Hwf) as HS. unfold ikeys in *. rewrite E in *. rewrite fmap_app in *.
  split; [set_solver|]. intros k [Hk|Hk]%elem_of_app; [|set_solver].
  assert (k < (last_node n).1)%Z; [|lia]. eapply StronglySorted_app_1_elem_of; [done..|set_solver].
Qed.

End IntmapProofs.

(** * Neighbours and iteration

    The neighbours of an index, iteration, and maps on
    signed indices (SINTMAP), which shift the index by 2^63. *)

Section Iter.
Context {A : Type}.
Implicit Types (n : inode A) (map : intmap A).

(** The loop of [intmap_after_]; [prev] is the greater branch to go back to. *)
Fixpoint after_node (n : inode A) (prev : option (inode A)) (index : Z) : option (Z * A) :=
  match n with
  | ILeaf i v => if (index <=? i)%Z then Some (i, v) else first_node <$> prev
  | INode c0 c1 pac =>
      let crit := critbit pac in
      let idx := Z.shiftr index crit in
      let direction := Z.testbit idx 0 in
      let idx := Z.lor idx 1 in
      let prefix := Z.shiftr pac crit in
      if (idx <? prefix)%Z then Some (first_node n)
      else if (prefix <? idx)%Z then first_node <$> prev
      else if direction then after_node c1 prev index else after_node c0 (Some c1) index
  end.

Definition intmap_after (map : intmap A) (indexp : Z) : option (Z * A) :=
  let index := wrap64 (indexp + 1) in
  if (index =? 0)%Z then None
  else match map with None => None | Some n => after_node n None index end.

(** The loop of [intmap_before_]; [prev] is the lesser branch. *)
Fixpoint before_node (n : inode A) (prev : option (inode A)) (index : Z) : option (Z * A) :=
  match n with
  | ILeaf i v => if (i <=? index)%Z then Some (i, v) else last_node <$> prev
  | INode c0 c1 pac =>
      let crit := critbit pac in
      let idx := Z.shiftr index crit in
      let direction := Z.testbit idx 0 in
      let idx := Z.lor idx 1 in
      let prefix := Z.shiftr pac crit in
      if (prefix <? idx)%Z then Some (last_node n)
      else if (idx <? prefix)%Z then last_node <$> prev
      else if direction then before_node c1 (Some c0) index else before_node c0 prev index
  end.

Definition intmap_before (map : intmap A) (indexp : Z) : option (Z * A) :=
  let index := wrap64 (indexp - 1) in
  if (index =? u64_mod - 1)%Z then None
  else match map with None => None | Some n => before_node n None index end.

(** [intmap_iterate_]; [handle] threads its [data] and tells whether to go on. *)
Fixpoint iterate_node {D : Type} (handle : Z -> A -> D -> bool * D) (n : inode A) (data : D) (offset : Z) : bool * D :=
  match n with
  | ILeaf i v => handle (wrap64 (i - offset)) v data
  | INode c0 c1 _ =>
      let '(more, data) := iterate_node handle c0 data offset in
      if more : bool then iterate_node handle c1 data offset else (false, data)
  end.

Definition intmap_iterate {D : Type} (handle : Z -> A -> D -> bool * D) (map : intmap A) (data : D) (offset : Z) : bool * D :=
  match map with None => (true, data) | Some n => iterate_node handle n data offset end.

(** ** Signed indices *)

Definition SINTMAP_OFFSET : Z := Z.shiftl 1 63.
Definition SINTMAP_OFF (index : Z) : Z := wrap64 (index + SINTMAP_OFFSET).
(** As a signed number. *)
Definition SINTMAP_UNOFF (index : Z) : Z := (index - SINTMAP_OFFSET)%Z.

Definition sintmap_get (smap : intmap A) (index : Z) : option A := intmap_get smap (SINTMAP_OFF index).
Definition sintmap_add (smap : intmap A) (index : Z) (v : A) : bool * intmap A := intmap_add smap (SINTMAP_OFF index) v.
Definition sintmap_del (smap : intmap A) (index : Z) : option A * intmap A := intmap_del smap (SINTMAP_OFF index).
Definition sintmap_first (smap : intmap A) : option (Z * A) := prod_map SINTMAP_UNOFF id <$> intmap_first smap.
Definition sintmap_after (smap : intmap A) (index : Z) : option (Z * A) :=
  prod_map SINTMAP_UNOFF id <$> intmap_after smap (SINTMAP_OFF index).

(** [for (v = sintmap_first(m, &i); v; v = sintmap_after(m, &i))]: what the loop
    visits. *)
Fixpoint sintmap_walk_from (fuel : nat) (smap : intmap A) (index : Z) : list (Z * A) :=
  match fuel with
  | O => []
  | S f => match sintmap_after smap index with None => [] | Some (i, v) => (i, v) :: sintmap_walk_from f smap i end
  end.

Definition sintmap_walk (smap : intmap A) : list (Z * A) :=
  match sintmap_first smap with
  | None => []
  | Some (i, v) => (i, v) :: sintmap_walk_from (length (intmap_elements smap)) smap i
  end.

(** * The neighbours *)

(** [idx] and [prefix] of the loops: what is above the critical bit, and a one. *)
Lemma high_part x c : (0 <= c)%Z -> Z.lor (Z.shiftr x c) 1 = (2 * (x / 2 ^ (c + 1)) + 1)%Z.
Proof.
  intros Hc. assert (E : (x / 2 ^ (c + 1) = Z.shiftr x c / 2)%Z).
  { rewrite Z.shiftr_div_pow2 by lia. rewrite Z.div_div by lia. by rewrite Z.pow_add_r by lia. }
  rewrite E. set (y := Z.shiftr x c). apply Z.bits_inj'. intros j Hj. rewrite Z.lor_spec.
  destruct (decide (j = 0)%Z) as [->|].
  - rewrite Z.testbit_odd_0. change (Z.testbit 1 0) with true. apply orb_true_r.
  - replace j with (Z.succ (j - 1)) by lia. rewrite Z.testbit_odd_succ by lia.
    replace (y / 2)%Z with (Z.shiftr y 1) by (by rewrite Z.shiftr_div_pow2 by lia). rewrite Z.shiftr_spec by lia.
    replace (j - 1 + 1)%Z with (Z.succ (j - 1)) by lia.
    replace (Z.testbit 1 (Z.succ (j - 1))) with false by (symmetry; rewrite Z.bits_above_log2; simpl; lia). apply orb_false_r.
Qed.

Lemma agree_high x y c : (0 <= c)%Z -> agree_above x y c -> (x / 2 ^ (c + 1) = y / 2 ^ (c + 1))%Z.
Proof.
  intros Hc H. rewrite <- !Z.shiftr_div_pow2 by lia. apply Z.bits_inj'. intros j Hj. rewrite !Z.shiftr_spec by lia. apply H. lia.
Qed.

Lemma high_lt x y c : (0 <= c)%Z -> (x / 2 ^ (c + 1) < y / 2 ^ (c + 1))%Z -> (x < y)%Z.
Proof.
  intros Hc H. destruct (decide (x < y)%Z) as [|H']; [done|].
  assert (y / 2 ^ (c + 1) <= x / 2 ^ (c + 1))%Z; [|lia]. apply Z.div_le_mono; lia.
Qed.

(** The critical bit of [pac] is set in it, so that [prefix] is odd. *)
Lemma critbit_set pac : (0 <= critbit pac)%Z -> Z.testbit pac (critbit pac) = true.
Proof.
  unfold critbit, bitops_ls64, bitops_ffs64. enough (H : forall fuel i, (0 <= i)%Z ->
    (bitops_ffs64_go fuel i pac = 0)%Z \/ Z.testbit pac (bitops_ffs64_go fuel i pac - 1) = true).
  { intros Hc. destruct (H 64 0%Z ltac:(lia)) as [E|E]; [lia|done]. }
  induction fuel as [|f IH]; intros i Hi; [by left|]. cbn [bitops_ffs64_go].
  destruct (Z.testbit pac i) eqn:E; [|apply IH; lia]. right. by replace (i + 1 - 1)%Z with i by lia.
Qed.

Lemma prefix_high pac : (0 <= critbit pac)%Z -> Z.shiftr pac (critbit pac) = (2 * (pac / 2 ^ (critbit pac + 1)) + 1)%Z.
Proof.
  intros Hc. rewrite <- high_part by done. apply Z.bits_inj'. intros j Hj. rewrite Z.lor_spec.
  destruct (decide (j = 0)%Z) as [->|].
  - rewrite Z.shiftr_spec by lia. rewrite Z.add_0_l, critbit_set by done. done.
  - replace (Z.testbit 1 j) with false by (symmetry; rewrite Z.bits_above_log2; simpl; lia). by rewrite orb_false_r.
Qed.

(** The tests of the loops at a node. *)
Lemma node_position (c0 c1 : inode A) pac index k :
  inode_wf (INode c0 c1 pac) -> k ∈ ikeys (INode c0 c1 pac) ->
  let idx := Z.lor (Z.shiftr index (critbit pac)) 1 in let prefix := Z.shiftr pac (critbit pac) in
  ((idx < prefix)%Z -> (index < k)%Z) /\ ((prefix < idx)%Z -> (k < index)%Z) /\
  (idx = prefix -> agree_above k index (critbit pac)).
Proof.
  intros (W0 & W1 & Hp & Hc & F0 & F1 & FA) Hk idx prefix. unfold ikeys in *. cbn [ielements] in Hk. rewrite fmap_app in Hk.
  rewrite Forall_forall in FA. pose proof (FA k Hk) as HA. apply agree_high in HA as HE; [|lia].
  unfold idx, prefix. rewrite high_part, prefix_high by lia.
  split_and!; intros H; [apply (high_lt _ _ (critbit pac)); lia..|].
  intros j Hj. assert (E : (k / 2 ^ (critbit pac + 1) = index / 2 ^ (critbit pac + 1))%Z) by lia.
  rewrite <- !Z.shiftr_div_pow2 in E by lia. apply (f_equal (fun z => Z.testbit z (j - (critbit pac + 1)))) in E.
  rewrite !Z.shiftr_spec in E by lia. by replace (j - (critbit pac + 1) + (critbit pac + 1))%Z with j in E by lia.
Qed.

(** The first of the elements from an index on, the last up to an index. *)
Definition from_index (index : Z) (l : list (Z * A)) : option (Z * A) := head (filter (fun e => index <= e.1)%Z l).
Definition up_to_index (index : Z) (l : list (Z * A)) : option (Z * A) := last (filter (fun e => e.1 <= index)%Z l).
Definition branch (prev : option (inode A)) : list (Z * A) := from_option ielements [] prev.

Lemma head_first n : head (ielements n) = Some (first_node n).
Proof. induction n as [|c0 IH c1 _ p]; simpl; [done|]. by destruct (ielements c0). Qed.

Lemma last_last n : last (ielements n) = Some (last_node n).
Proof. induction n as [|c0 _ c1 IH p]; simpl; [done|]. by rewrite last_app, IH. Qed.

Lemma filter_all {B : Type} (P : B -> Prop) `{forall x, Decision (P x)} (l : list B) : Forall P l -> filter P l = l.
Proof. induction 1; [done|]. by rewrite filter_cons_True, IHForall. Qed.

Lemma filter_nothing {B : Type} (P : B -> Prop) `{forall x, Decision (P x)} (l : list B) : Forall (fun x => ~ P x) l -> filter P l = [].
Proof. induction 1; [done|]. by rewrite filter_cons_False, IHForall. Qed.

Lemma keys_forall (P : Z -> Prop) n : (forall k, k ∈ ikeys n -> P k) -> Forall (fun e => P e.1) (ielements n).
Proof. intros H. apply Forall_forall. intros [k v] Hin. apply H. by eapply ikeys_elem. Qed.

Lemma head_branch prev : first_node <$> prev = head (branch prev).
Proof. destruct prev as [n|]; [|done]. cbn. by rewrite head_first. Qed.

Lemma last_branch prev : last_node <$> prev = last (branch prev).
Proof. destruct prev as [n|]; [|done]. cbn. by rewrite last_last. Qed.

Lemma children_split (c0 c1 : inode A) pac index :
  inode_wf (INode c0 c1 pac) -> (0 <= index < u64_mod)%Z ->
  (forall k, k ∈ ikeys (INode c0 c1 pac) -> agree_above k index (critbit pac)) ->
  if Z.testbit (Z.shiftr index (critbit pac)) 0 then forall k, k ∈ ikeys c0 -> (k < index)%Z else forall k, k ∈ ikeys c1 -> (index < k)%Z.
Proof.
  intros Hwf Hi HA. pose proof (ikeys_bound _ Hwf) as HB. destruct Hwf as (W0 & W1 & Hp & Hc & F0 & F1 & FA).
  unfold ikeys in *. cbn [ielements] in *. rewrite fmap_app in *. rewrite Forall_forall in F0, F1, HB.
  rewrite Z.shiftr_spec, Z.add_0_l by lia. destruct (Z.testbit index (critbit pac)) eqn:E; intros k Hk.
  - apply (bit_lt k index (critbit pac)); [apply HB; set_solver|lia|lia|by apply F0|done|]. intros j Hj. apply HA; [set_solver|lia].
  - apply (bit_lt index k (critbit pac)); [lia|apply HB; set_solver|lia|done|by apply F1|]. intros j Hj. symmetry. apply HA; [set_solver|lia].
Qed.

Lemma after_node_spec n prev index :
  inode_wf n -> (0 <= index < u64_mod)%Z -> Forall (fun e => index <= e.1)%Z (branch prev) ->
  after_node n prev index = from_index index (ielements n ++ branch prev).
Proof.
  intros Hwf Hi. revert prev. induction n as [i v|c0 IH0 c1 IH1 pac]; intros prev HP.
  - cbn [after_node ielements app]. unfold from_index. destruct (Z.leb_spec index i).
    + by rewrite filter_cons_True by done.
    + rewrite filter_cons_False by (simpl; lia). by rewrite filter_all, head_branch.
  - cbn [after_node]. pose proof (fun k => node_position c0 c1 pac index k Hwf) as HN. unfold from_index. rewrite filter_app.
    destruct (Z.ltb_spec (Z.lor (Z.shiftr index (critbit pac)) 1) (Z.shiftr pac (critbit pac))) as [H1|H1].
    { rewrite (filter_all _ (ielements (INode c0 c1 pac))); [by rewrite head_app, head_first|].
      apply (keys_forall (fun k => index <= k)%Z). intros k Hk. destruct (HN k Hk) as (H & _). specialize (H H1). lia. }
    destruct (Z.ltb_spec (Z.shiftr pac (critbit pac)) (Z.lor (Z.shiftr index (critbit pac)) 1)) as [H2|H2].
    { rewrite (filter_nothing _ (ielements (INode c0 c1 pac))), filter_all, head_branch; [done..|].
      apply (keys_forall (fun k => ~ index <= k)%Z). intros k Hk. destruct (HN k Hk) as (_ & H & _). specialize (H H2). lia. }
    pose proof (children_split c0 c1 pac index Hwf Hi (fun k Hk => proj2 (proj2 (HN k Hk)) ltac:(lia))) as HS.
    destruct Hwf as (W0 & W1 & _). cbn [ielements].
    destruct (Z.testbit (Z.shiftr index (critbit pac)) 0).
    + rewrite IH1 by done. unfold from_index. rewrite !filter_app, (filter_nothing _ (ielements c0)); [done|].
      apply (keys_forall (fun k => ~ index <= k)%Z). intros k Hk. specialize (HS k Hk). lia.
    + assert (HF : Forall (fun e => index <= e.1)%Z (ielements c1)).
      { apply (keys_forall (fun k => index <= k)%Z). intros k Hk. specialize (HS k Hk). lia. }
      rewrite IH0 by done. unfold from_index. cbn [branch from_option]. rewrite !filter_app, (filter_all _ (ielements c1)) by done.
      rewrite (filter_all _ (branch prev)), !head_app by done. destruct (head (filter _ (ielements c0))); [done|]. by rewrite head_first.
Qed.

Lemma before_node_spec n prev index :
  inode_wf n -> (0 <= index < u64_mod)%Z -> Forall (fun e => e.1 <= index)%Z (branch prev) ->
  before_node n prev index = up_to_index index (branch prev ++ ielements n).
Proof.
  intros Hwf Hi. revert prev. induction n as [i v|c0 IH0 c1 IH1 pac]; intros prev HP.
  - cbn [before_node ielements]. unfold up_to_index. rewrite filter_app, last_app, (filter_all _ (branch prev)) by done. destruct (Z.leb_spec i index).
    + by rewrite filter_cons_True by done.
    + rewrite filter_cons_False by (simpl; lia). by rewrite last_branch.
  - cbn [before_node]. pose proof (fun k => node_position c0 c1 pac index k Hwf) as HN. unfold up_to_index. rewrite filter_app, last_app.
    destruct (Z.ltb_spec (Z.shiftr pac (critbit pac)) (Z.lor (Z.shiftr index (critbit pac)) 1)) as [H1|H1].
    { rewrite (filter_all _ (ielements (INode c0 c1 pac))); [by rewrite last_last|].
      apply (keys_forall (fun k => k <= index)%Z). intros k Hk. destruct (HN k Hk) as (_ & H & _). specialize (H H1). lia. }
    destruct (Z.ltb_spec (Z.lor (Z.shiftr index (critbit pac)) 1) (Z.shiftr pac (critbit pac))) as [H2|H2].
    { rewrite (filter_nothing _ (ielements (INode c0 c1 pac))), (filter_all _ (branch prev)), last_branch; [done..|].
      apply (keys_forall (fun k => ~ k <= index)%Z). intros k Hk. destruct (HN k Hk) as (H & _). specialize (H H2). lia. }
    pose proof (children_split c0 c1 pac index Hwf Hi (fun k Hk => proj2 (proj2 (HN k Hk)) ltac:(lia))) as HS.
    destruct Hwf as (W0 & W1 & _). cbn [ielements].
    destruct (Z.testbit (Z.shiftr index (critbit pac)) 0).
    + assert (HF : Forall (fun e => e.1 <= index)%Z (ielements c0)).
      { apply (keys_forall (fun k => k <= index)%Z). intros k Hk. specialize (HS k Hk). lia. }
      rewrite IH1 by done. unfold up_to_index. cbn [branch from_option]. rewrite !filter_app, !last_app, (filter_all _ (ielements c0)) by done.
      destruct (last (filter _ (ielements c1))); [done|]. by rewrite last_last.
    + rewrite IH0 by done. unfold up_to_index. rewrite !filter_app, (filter_nothing _ (ielements c1)), app_nil_r, last_app; [done|].
      apply (keys_forall (fun k => ~ k <= index)%Z). intros k Hk. specialize (HS k Hk). lia.
Qed.

(** [intmap_after] gives the least index above; [intmap_before] the greatest
    below. *)
Lemma intmap_after_spec map i : intmap_wf map -> (0 <= i < u64_mod)%Z ->
  intmap_after map i = from_index (i + 1) (intmap_elements map).
Proof.
  intros Hwf Hi. unfold intmap_after. destruct (decide (i + 1 = u64_mod)%Z) as [E|E].
  - rewrite E. change (wrap64 u64_mod =? 0)%Z with true. cbn [intmap_elements]. unfold from_index.
    destruct map as [n|]; [|done]. cbn [intmap_elements]. rewrite filter_nothing; [done|].
    apply (keys_forall (fun k => ~ u64_mod <= k)%Z). intros k Hk. pose proof (ikeys_bound n Hwf) as HB. rewrite Forall_forall in HB. specialize (HB k Hk). lia.
  - assert (EW : wrap64 (i + 1) = (i + 1)%Z) by (unfold wrap64; apply Z.mod_small; lia). rewrite EW.
    rewrite (proj2 (Z.eqb_neq (i + 1) 0)) by lia. destruct map as [n|]; [|done]. cbn [intmap_elements intmap_wf] in *.
    rewrite after_node_spec; [|done|lia|constructor]. cbn [branch from_option]. by rewrite app_nil_r.
Qed.

Lemma intmap_before_spec map i : intmap_wf map -> (0 <= i < u64_mod)%Z ->
  intmap_before map i = up_to_index (i - 1) (intmap_elements map).
Proof.
  intros Hwf Hi. unfold intmap_before. destruct (decide (i = 0)%Z) as [->|E].
  - change (wrap64 (0 - 1) =? u64_mod - 1)%Z with true. cbn match. unfold up_to_index.
    destruct map as [n|]; [|done]. cbn [intmap_elements]. rewrite filter_nothing; [done|].
    apply (keys_forall (fun k => ~ k <= 0 - 1)%Z). intros k Hk. pose proof (ikeys_bound n Hwf) as HB. rewrite Forall_forall in HB. specialize (HB k Hk). lia.
  - assert (EW : wrap64 (i - 1) = (i - 1)%Z) by (unfold wrap64; apply Z.mod_small; lia). rewrite EW.
    rewrite (proj2 (Z.eqb_neq (i - 1) (u64_mod - 1))) by lia. destruct map as [n|]; [|done]. cbn [intmap_elements intmap_wf] in *.
    rewrite before_node_spec; [|done|lia|constructor]. done.
Qed.

(** * Loops over a map *)

Lemma unoff_off i : (0 <= i < u64_mod)%Z -> SINTMAP_OFF (SINTMAP_UNOFF i) = i.
Proof. intros Hi. unfold SINTMAP_OFF, SINTMAP_UNOFF, wrap64. rewrite Z.sub_add. by apply Z.mod_small. Qed.

Lemma off_bound i : (0 <= SINTMAP_OFF i < u64_mod)%Z.
Proof. unfold SINTMAP_OFF, wrap64. apply Z.mod_pos_bound. reflexivity. Qed.

Lemma elements_keys map : intmap_wf map -> StronglySorted Z.lt (intmap_elements map).*1 /\ Forall (fun e => 0 <= e.1 < u64_mod)%Z (intmap_elements map).
Proof.
  destruct map as [n|]; cbn; intros Hwf; [|split; constructor]. split; [by apply ikeys_sorted|].
  apply (keys_forall (fun k => 0 <= k < u64_mod)%Z). intros k Hk. pose proof (ikeys_bound n Hwf) as HB. rewrite Forall_forall in HB. by apply HB.
Qed.

Lemma from_index_next (l1 l2 : list (Z * A)) k v :
  StronglySorted Z.lt (l1 ++ (k, v) :: l2).*1 -> from_index (k + 1) (l1 ++ (k, v) :: l2) = head l2.
Proof.
  rewrite fmap_app, fmap_cons. intros HS. unfold from_index. rewrite filter_app.
  rewrite (filter_nothing _ l1), filter_cons_False; [|simpl; lia|].
  - apply StronglySorted_app in HS as (_ & _ & HS). inv HS. rewrite filter_all; [done|].
    rewrite Forall_fmap in *. eapply Forall_impl; [done|]. intros [k' v'] H'. cbn in *. lia.
  - apply Forall_forall. intros [k' v'] Hin. cbn.
    assert (k' < k)%Z; [|lia]. eapply StronglySorted_app_1_elem_of; [done| |by left]. by apply (list_elem_of_fmap_2 fst) in Hin.
Qed.

Lemma walk_from_spec map l1 l2 k v fuel :
  intmap_wf map -> intmap_elements map = l1 ++ (k, v) :: l2 -> length l2 <= fuel ->
  sintmap_walk_from fuel map (SINTMAP_UNOFF k) = prod_map SINTMAP_UNOFF id <$> l2.
Proof.
  intros Hwf. revert l1 k v fuel. induction l2 as [|[k' v'] l2 IH]; intros l1 k v fuel E HF; destruct (elements_keys map Hwf) as [HS HB];
    rewrite E in HS, HB; apply from_index_next in HS; rewrite Forall_app, Forall_cons in HB; destruct HB as (_ & HB & _);
    (destruct fuel as [|f]; [cbn in HF; lia || done|]); cbn [sintmap_walk_from]; unfold sintmap_after; rewrite unoff_off by done;
    rewrite intmap_after_spec, E, HS by done; cbn [head fmap option_fmap option_map prod_map]; [done|].
  cbn [fmap list_fmap]. f_equal. apply (IH (l1 ++ [(k, v)]) k' v'); [by rewrite <- app_assoc|cbn in HF; lia].
Qed.

Lemma sintmap_walk_elements map : intmap_wf map -> sintmap_walk map = prod_map SINTMAP_UNOFF id <$> intmap_elements map.
Proof.
  intros Hwf. unfold sintmap_walk, sintmap_first. destruct map as [n|]; [|done]. cbn [intmap_first fmap option_fmap option_map].
  pose proof (head_first n) as HH. destruct (first_node n) as [i v]. destruct (ielements n) as [|e l] eqn:E; [done|]. injection HH as ->.
  cbn [prod_map]. cbn [intmap_elements]. rewrite E. rewrite fmap_cons. f_equal.
  eapply (walk_from_spec (Some n) []); [done|exact E|cbn; lia].
Qed.

(** Iteration in the order of the elements, up to the first refusal. *)
Fixpoint visit {D : Type} (handle : Z -> A -> D -> bool * D) (offset : Z) (l : list (Z * A)) (data : D) : bool * D :=
  match l with
  | [] => (true, data)
  | (i, v) :: r => let '(more, data) := handle (wrap64 (i - offset)) v data in if more : bool then visit handle offset r data else (false, data)
  end.

Lemma visit_app {D : Type} (handle : Z -> A -> D -> bool * D) offset l1 l2 data :
  visit handle offset (l1 ++ l2) data = let '(more, data) := visit handle offset l1 data in if more : bool then visit handle offset l2 data else (false, data).
Proof. revert data. induction l1 as [|[i v] l1 IH]; intros data; cbn [visit app]; [done|]. by destruct (handle _ v data) as [[] ?]. Qed.

Lemma intmap_iterate_spec {D : Type} (handle : Z -> A -> D -> bool * D) map data offset :
  intmap_iterate handle map data offset = visit handle offset (intmap_elements map) data.
Proof.
  destruct map as [n|]; [|done]. cbn [intmap_iterate intmap_elements]. revert data. induction n as [i v|c0 IH0 c1 IH1 p]; intros data; cbn [iterate_node ielements visit].
  - by destruct (handle _ v data) as [[] ?].
  - rewrite visit_app, <- IH0. destruct (iterate_node handle c0 data offset) as [[] ?]; [apply IH1|done].
Qed.
End Iter.
