(* ===== verification/Utf8.v ===== *)
(** ccan/utf8 decoding and [utf8_check] of common/utils.c, which the token
    validation applies to every JSON string. *)
From S2P Require Import Prelude.

(** [struct utf8_state] *)
Record utf8_state : Type := Utf8State { used_len : Z; total_len : Z; uc : Z }.

Definition UTF8_STATE_INIT : utf8_state := Utf8State 0 0 0.

(** What [utf8_decode] leaves in errno when it returns true. *)
Inductive utf8_errno : Type := UOk | UERANGE | UEFBIG | UEINVAL.

Definition min_bits (total : Z) : Z :=
  if (total =? 1)%Z then 0 else if (total =? 2)%Z then 7 else if (total =? 3)%Z then 11 else 16.

(** The [finished_decoding] label. *)
Definition finished_decoding (st : utf8_state) : option utf8_errno * utf8_state :=
  let c := uc st in
  let e :=
    if (c =? 0)%Z || (1114111 <? c)%Z then UERANGE
    else if (total_len st =? 3)%Z && (Z.land c 4294965248 =? 55296)%Z then UERANGE
    else if (Z.shiftr c (min_bits (total_len st)) =? 0)%Z then UEFBIG
    else UOk in
  (Some e, st).

(** The [bad_encoding] label. *)
Definition bad_encoding (st : utf8_state) : option utf8_errno * utf8_state :=
  (Some UEINVAL, Utf8State (used_len st) (used_len st) (uc st)).

(** [utf8_decode]: [None] asks for more bytes, [Some e] is a return of true. *)
Definition utf8_decode (st : utf8_state) (ch : ascii) : option utf8_errno * utf8_state :=
  let c := code ch in
  if (used_len st =? total_len st)%Z then
    if (Z.land c 128 =? 0)%Z then
      if (c =? 0)%Z then bad_encoding (Utf8State 1 (total_len st) (uc st))
      else finished_decoding (Utf8State 1 1 c)
    else if (Z.land c 224 =? 192)%Z then (None, Utf8State 1 2 (Z.land c 31))
    else if (Z.land c 240 =? 224)%Z then (None, Utf8State 1 3 (Z.land c 15))
    else if (Z.land c 248 =? 240)%Z then (None, Utf8State 1 4 (Z.land c 7))
    else bad_encoding (Utf8State 1 (total_len st) (uc st))
  else if negb (Z.land c 192 =? 128)%Z then bad_encoding st
  else
    let st' := Utf8State (used_len st + 1) (total_len st) (Z.lor (Z.shiftl (uc st) 6) (Z.land c 63)) in
    if (used_len st' =? total_len st')%Z then finished_decoding st' else (None, st').

Fixpoint utf8_check_go (st : utf8_state) (need_more : bool) (buf : bytes) : bool :=
  match buf with
  | [] => negb need_more
  | c :: r =>
      match utf8_decode st c with
      | (None, st') => utf8_check_go st' true r
      | (Some UOk, st') => utf8_check_go st' false r
      | (Some _, _) => false
      end
  end.

Definition utf8_check (buf : bytes) : bool := utf8_check_go UTF8_STATE_INIT false buf.

(** [utf8_encode]: the bytes it writes; [None] when it returns 0, with ERANGE. *)
Definition utf8_encode (point : Z) : option bytes :=
  let tail (k : Z) := chr (Z.lor 128 (Z.land (Z.shiftr point k) 63)) in
  if (Z.shiftr point 7 =? 0)%Z then if (point =? 0)%Z then None else Some [chr point]
  else if (Z.shiftr point 11 =? 0)%Z then Some [chr (Z.lor 192 (Z.shiftr point 6)); tail 0%Z]
  else if (Z.shiftr point 16 =? 0)%Z then
    if (55296 <=? point)%Z && (point <=? 57343)%Z then None
    else Some [chr (Z.lor 224 (Z.shiftr point 12)); tail 6%Z; tail 0%Z]
  else if (1114111 <? point)%Z then None
  else Some [chr (Z.lor 240 (Z.shiftr point 18)); tail 12%Z; tail 6%Z; tail 0%Z].

(** * ASCII text is valid *)

Definition is_ascii (c : ascii) : bool := (0 <? code c)%Z && (code c <? 128)%Z.

Lemma ascii_decode (c : ascii) (st : utf8_state) :
  is_ascii c = true -> used_len st = total_len st ->
  utf8_decode st c = (Some UOk, Utf8State 1 1 (code c)).
Proof.
  intros Hc E. unfold utf8_decode. rewrite E, Z.eqb_refl.
  destruct c as [[] [] [] [] [] [] [] []]; vm_compute in Hc; try discriminate Hc; reflexivity.
Qed.

Lemma utf8_check_ascii (b : bytes) : forallb is_ascii b = true -> utf8_check b = true.
Proof.
  unfold utf8_check. intros H.
  assert (G : forall st, used_len st = total_len st -> utf8_check_go st false b = true).
  { induction b as [|c b IH]; intros st E; [done|]. simpl in *. apply andb_true_iff in H as [Hc H].
    rewrite (ascii_decode c st Hc E). by apply IH. }
  by apply G.
Qed.

(** * Encoded points are read back *)

(** What [utf8_decode] looks at in the bytes of an encoding. *)
Definition tail_byte (r : Z) : bool := let c := code (chr (Z.lor 128 r)) in (Z.land c 192 =? 128)%Z && (Z.land c 63 =? r)%Z.
Definition lead_byte (mark mask : Z) (a : Z) : bool :=
  let c := code (chr (Z.lor mark a)) in
  negb (Z.land c 128 =? 0)%Z && Bool.eqb (Z.land c 224 =? 192)%Z (mark =? 192)%Z && Bool.eqb (Z.land c 240 =? 224)%Z (mark =? 224)%Z &&
  Bool.eqb (Z.land c 248 =? 240)%Z (mark =? 240)%Z && (Z.land c mask =? a)%Z.

Lemma below_check (f : Z -> bool) (n : nat) z : forallb (fun i => f (Z.of_nat i)) (seq 0 n) = true -> (0 <= z < Z.of_nat n)%Z -> f z = true.
Proof. intros H Hz. rewrite forallb_forall in H. rewrite <- (Z2Nat.id z) by lia. apply H, in_seq. lia. Qed.

Lemma tail_byte_ok r : (0 <= r < 64)%Z -> Z.land (code (chr (Z.lor 128 r))) 192 = 128%Z /\ Z.land (code (chr (Z.lor 128 r))) 63 = r.
Proof. intros Hr. pose proof (below_check tail_byte 64 r ltac:(by vm_compute) Hr) as H. apply andb_true_iff in H as [H1 H2]. by apply Z.eqb_eq in H1, H2. Qed.

Lemma lead_byte_ok mark mask n a : forallb (fun i => lead_byte mark mask (Z.of_nat i)) (seq 0 n) = true -> (0 <= a < Z.of_nat n)%Z ->
  let c := code (chr (Z.lor mark a)) in
  (Z.land c 128 =? 0)%Z = false /\ (Z.land c 224 =? 192)%Z = (mark =? 192)%Z /\ (Z.land c 240 =? 224)%Z = (mark =? 224)%Z /\ (Z.land c 248 =? 240)%Z = (mark =? 240)%Z /\ Z.land c mask = a.
Proof.
  intros Hall Ha c. pose proof (below_check (lead_byte mark mask) n a Hall Ha) as H. unfold lead_byte in H. fold c in H. rewrite !andb_true_iff, negb_true_iff, !eqb_true_iff, Z.eqb_eq in H. naive_solver.
Qed.

(** Bits [k] and up of a number, the bits below as the next byte has them. *)
Lemma next_bits point k : (0 <= k)%Z -> Z.lor (Z.shiftl (Z.shiftr point (k + 6)) 6) (Z.land (Z.shiftr point k) 63) = Z.shiftr point k.
Proof.
  intros Hk. change 63%Z with (Z.ones 6). rewrite Z.land_ones, pack_fields by (lia || apply Z.mod_pos_bound; lia).
  rewrite <- Z.shiftr_shiftr, (Z.shiftr_div_pow2 _ 6) by lia. pose proof (Z.div_mod (Z.shiftr point k) (2 ^ 6)). lia.
Qed.

Lemma low_six z : (0 <= Z.land z 63 < 64)%Z.
Proof. change 63%Z with (Z.ones 6). rewrite Z.land_ones by lia. by apply Z.mod_pos_bound. Qed.

(** A byte that is not the first. *)
Lemma decode_tail used total point k : (0 <= k)%Z -> (used < total)%Z ->
  utf8_decode (Utf8State used total (Z.shiftr point (k + 6))) (chr (Z.lor 128 (Z.land (Z.shiftr point k) 63))) =
  let st := Utf8State (used + 1) total (Z.shiftr point k) in if (used + 1 =? total)%Z then finished_decoding st else (None, st).
Proof.
  intros Hk Hu. destruct (tail_byte_ok _ (low_six (Z.shiftr point k))) as [H1 H2]. unfold utf8_decode. cbn [used_len total_len uc]. rewrite (proj2 (Z.eqb_neq used total)) by lia.
  rewrite H1, H2. cbn [negb Z.eqb]. by rewrite next_bits.
Qed.

Lemma finished_ok n point : (point <> 0 /\ point <= 1114111)%Z -> (0 <= point)%Z -> (n = 3 -> ~ 55296 <= point <= 57343)%Z -> (2 ^ min_bits n <= point \/ n = 1)%Z -> (0 <= min_bits n)%Z ->
  finished_decoding (Utf8State n n point) = (Some UOk, Utf8State n n point).
Proof.
  intros [H0 Hmax] Hp Hs Hm Hb. unfold finished_decoding. cbn [uc total_len]. rewrite (proj2 (Z.eqb_neq _ _)), (proj2 (Z.ltb_ge _ _)) by lia. cbn [orb].
  assert (Hsur : (n =? 3)%Z && (Z.land point 4294965248 =? 55296)%Z = false).
  { destruct (Z.eqb_spec n 3) as [->|]; [|done]. cbn [andb]. apply Z.eqb_neq. change 4294965248%Z with (Z.shiftl (Z.ones 21) 11). intros HL.
    assert (Hd : (point / 2048 = 27)%Z).
    { apply (f_equal (fun z => Z.shiftr z 11)) in HL. rewrite Z.shiftr_land, Z.shiftr_shiftl_l in HL by lia. cbn [Z.sub] in HL. change (Z.shiftl (Z.ones 21) (11 - 11)) with (Z.ones 21) in HL. rewrite Z.land_ones, Z.shiftr_div_pow2 in HL by lia.
      change (2 ^ 11)%Z with 2048%Z in HL. rewrite Z.mod_small in HL; [done|]. split; [apply Z.div_pos; lia|]. apply Z.div_lt_upper_bound; lia. }
    pose proof (Z.div_mod point 2048). pose proof (Z.mod_pos_bound point 2048). apply Hs; lia. }
  rewrite Hsur. rewrite (proj2 (Z.eqb_neq _ _)); [done|]. rewrite Z.shiftr_div_pow2 by lia. destruct Hm as [Hm| ->].
  - pose proof (Z.div_le_mono _ _ (2 ^ min_bits n) ltac:(lia) Hm). rewrite Z.div_same in H by lia. lia.
  - cbn. by rewrite Z.div_1_r.
Qed.

(** Which points there are: not zero, not the halves of pairs of UTF-16, and not above
    the last one. *)
Definition is_point (z : Z) : bool := (0 <? z)%Z && (z <=? 1114111)%Z && negb ((55296 <=? z)%Z && (z <=? 57343)%Z).

(** The first byte of an encoding of more than one. *)
Lemma decode_lead st mark a :
  used_len st = total_len st -> In (mark, a) [(192, a); (224, a); (240, a)]%Z ->
  (0 <= a < if mark =? 192 then 32 else if mark =? 224 then 16 else 8)%Z ->
  utf8_decode st (chr (Z.lor mark a)) = (None, Utf8State 1 (if mark =? 192 then 2 else if mark =? 224 then 3 else 4)%Z a).
Proof.
  intros E Hin Ha. unfold utf8_decode. rewrite E, Z.eqb_refl.
  destruct Hin as [[= <-]|[[= <-]|[[= <-]|[]]]]; cbn [Z.eqb Pos.eqb] in Ha |- *.
  - destruct (lead_byte_ok 192 31 32 a ltac:(by vm_compute) ltac:(lia)) as (-> & -> & _ & _ & ->). done.
  - destruct (lead_byte_ok 224 15 16 a ltac:(by vm_compute) ltac:(lia)) as (-> & -> & -> & _ & ->). done.
  - destruct (lead_byte_ok 240 7 8 a ltac:(by vm_compute) ltac:(lia)) as (-> & -> & -> & -> & ->). done.
Qed.

Lemma shiftr_zero z k : (0 <= z)%Z -> (0 <= k)%Z -> (Z.shiftr z k =? 0)%Z = (z <? 2 ^ k)%Z.
Proof.
  intros Hz Hk. rewrite Z.shiftr_div_pow2 by done. assert (0 < 2 ^ k)%Z by (by apply Z.pow_pos_nonneg).
  destruct (Z.ltb_spec z (2 ^ k)); [rewrite Z.div_small by lia; done|]. apply Z.eqb_neq.
  assert (1 <= z / 2 ^ k)%Z by (apply Z.div_le_lower_bound; lia). lia.
Qed.

Lemma shiftr_below z k n : (0 <= z < 2 ^ (k + n))%Z -> (0 <= k)%Z -> (0 <= n)%Z -> (0 <= Z.shiftr z k < 2 ^ n)%Z.
Proof.
  intros Hz Hk Hn. rewrite Z.shiftr_div_pow2 by done. assert (0 < 2 ^ k)%Z by (by apply Z.pow_pos_nonneg). rewrite Z.pow_add_r in Hz by done.
  split; [apply Z.div_pos; lia|]. apply Z.div_lt_upper_bound; lia.
Qed.

(** The decoder on the bytes of a point. *)
Lemma lead_more st mark a total need_more rest :
  used_len st = total_len st -> In (mark, total) [(192, 2); (224, 3); (240, 4)]%Z ->
  (0 <= a < if mark =? 192 then 32 else if mark =? 224 then 16 else 8)%Z ->
  utf8_check_go st need_more (chr (Z.lor mark a) :: rest) = utf8_check_go (Utf8State 1 total a) true rest.
Proof.
  intros E Hin Ha. cbn [utf8_check_go].
  destruct Hin as [[= <- <-]|[[= <- <-]|[[= <- <-]|[]]]]; rewrite decode_lead; naive_solver.
Qed.

Lemma decode_one st rest need_more point : used_len st = total_len st -> (0 < point < 128)%Z ->
  utf8_check_go st need_more (chr point :: rest) = utf8_check_go (Utf8State 1 1 point) false rest.
Proof.
  intros E Hp. cbn [utf8_check_go]. rewrite (ascii_decode _ _) by (exact E || (unfold is_ascii; rewrite code_chr by lia; apply andb_true_iff; split; apply Z.ltb_lt; lia)).
  by rewrite code_chr by lia.
Qed.

Lemma tail_more used total point k need_more rest : (0 <= k)%Z -> (used + 1 < total)%Z ->
  utf8_check_go (Utf8State used total (Z.shiftr point (k + 6))) need_more (chr (Z.lor 128 (Z.land (Z.shiftr point k) 63)) :: rest) =
  utf8_check_go (Utf8State (used + 1) total (Z.shiftr point k)) true rest.
Proof. intros Hk Hu. cbn [utf8_check_go]. rewrite decode_tail by lia. cbn zeta. by rewrite (proj2 (Z.eqb_neq _ _)) by lia. Qed.

Lemma tail_last used point need_more rest :
  finished_decoding (Utf8State (used + 1) (used + 1) point) = (Some UOk, Utf8State (used + 1) (used + 1) point) ->
  utf8_check_go (Utf8State used (used + 1) (Z.shiftr point 6)) need_more (chr (Z.lor 128 (Z.land (Z.shiftr point 0) 63)) :: rest) =
  utf8_check_go (Utf8State (used + 1) (used + 1) point) false rest.
Proof. intros Hf. cbn [utf8_check_go]. pose proof (decode_tail used (used + 1) point 0 ltac:(lia) ltac:(lia)) as H. change (0 + 6)%Z with 6%Z in H. rewrite H. cbn zeta. by rewrite Z.eqb_refl, Z.shiftr_0_r, Hf. Qed.

(** Exactly the points are encoded, and the decoder takes the bytes of a point, in a
    state between two points, for that point. *)
Theorem utf8_encode_decode point : (0 <= point)%Z ->
  match utf8_encode point with
  | None => is_point point = false
  | Some b => is_point point = true /\ forall st need_more rest, used_len st = total_len st ->
      utf8_check_go st need_more (b ++ rest) = utf8_check_go (Utf8State (Z.of_nat (length b)) (Z.of_nat (length b)) point) false rest
  end.
Proof.
  intros Hp. unfold utf8_encode, is_point. rewrite !shiftr_zero by lia.
  change (2 ^ 7)%Z with 128%Z. change (2 ^ 11)%Z with 2048%Z. change (2 ^ 16)%Z with 65536%Z.
  destruct (Z.ltb_spec point 128).
  { destruct (Z.eqb_spec point 0) as [->|]; [done|]. split; [lia|]. intros st nm rest E. apply decode_one; [done|lia]. }
  destruct (Z.ltb_spec point 2048).
  { split; [lia|]. intros st nm rest E. cbn [app]. rewrite (lead_more st 192 _ 2) by (naive_solver || (cbn [Z.eqb Pos.eqb]; apply (shiftr_below point 6 5); lia)).
    apply (tail_last 1 point true rest). apply finished_ok; change (min_bits (1 + 1)) with 7%Z; lia. }
  destruct (Z.ltb_spec point 65536).
  { destruct ((55296 <=? point)%Z && (point <=? 57343)%Z) eqn:Es; [lia|]. split; [lia|]. intros st nm rest E. cbn [app].
    rewrite (lead_more st 224 _ 3) by (naive_solver || (cbn [Z.eqb Pos.eqb]; apply (shiftr_below point 12 4); lia)).
    etransitivity; [apply (tail_more 1 3 point 6 true); lia|]. apply (tail_last 2 point true rest). apply finished_ok; change (min_bits (2 + 1)) with 11%Z; lia. }
  destruct (Z.ltb_spec 1114111 point); [lia|]. split; [lia|]. intros st nm rest E. cbn [app].
  rewrite (lead_more st 240 _ 4) by (naive_solver || (cbn [Z.eqb Pos.eqb]; apply (shiftr_below point 18 3); lia)).
  etransitivity; [apply (tail_more 1 4 point 12 true); lia|]. etransitivity; [apply (tail_more 2 4 point 6 true); lia|]. apply (tail_last 3 point true rest). apply finished_ok; change (min_bits (3 + 1)) with 16%Z; lia.
Qed.
