(* ===== verification/Jsmn.v ===== *)
(** external/jsmn: the JSON tokenizer, as compiled by external/jsmn/jsmn.c
    (JSMN_HEADER undone, JSMN_STRICT and JSMN_PARENT_LINKS not defined). *)
From S2P Require Import Prelude.

(** * Tokens *)

(** [jsmntype_t]; [JSMN_END] is the -1 that [json_parse_input] writes into the
    entry after the last token. *)
Inductive jsmntype : Type :=
| JSMN_UNDEFINED | JSMN_OBJECT | JSMN_ARRAY | JSMN_STRING | JSMN_PRIMITIVE | JSMN_END.

#[export] Instance jsmntype_eq_dec : EqDecision jsmntype.
Proof. solve_decision. Defined.

Definition type_eqb (a b : jsmntype) : bool := bool_decide (a = b).

Record jsmntok : Type := Tok { ttype : jsmntype; tstart : Z; tend : Z; tsize : Z }.

#[export] Instance jsmntok_eq_dec : EqDecision jsmntok.
Proof. solve_decision. Defined.

(** [enum jsmnerr], and a non-negative return. *)
Inductive jsmn_ret : Type :=
| JSMN_COUNT (n : nat) | JSMN_ERROR_NOMEM | JSMN_ERROR_INVAL | JSMN_ERROR_PART.

#[export] Instance jsmn_ret_eq_dec : EqDecision jsmn_ret.
Proof. solve_decision. Defined.

(** * Parser state

    [jsmn_parser] with the used part of the token array: [toknext] is the
    length of [tokens]. *)
Record jsmn_parser : Type := Parser { pos : nat; toksuper : Z; tokens : list jsmntok }.

Definition toknext (p : jsmn_parser) : nat := length (tokens p).

Definition jsmn_init : jsmn_parser := Parser 0 (-1) [].

(** [js[pos]] under the loop condition [pos < len && js[pos] != '\0']. *)
Definition rd (js : bytes) (n : nat) (i : nat) : option ascii :=
  if Nat.ltb i n then
    match js !! i with
    | Some c => if ch_eqb c NUL then None else Some c
    | None => None
    end
  else None.

(** [jsmn_alloc_token] followed by the assignment of the token's fields. *)
Definition jsmn_alloc_token (toks : list jsmntok) (num_tokens : nat) (t : jsmntok)
  : option (list jsmntok) :=
  if Nat.leb num_tokens (length toks) then None else Some (toks ++ [t]).

(** [jsmn_fill_token] *)
Definition jsmn_fill_token (ty : jsmntype) (s e : Z) : jsmntok := Tok ty s e 0.

(** [tokens[toksuper].size++] when [toksuper != -1]. *)
Definition grow (t : jsmntok) : jsmntok := Tok (ttype t) (tstart t) (tend t) (tsize t + 1).
Definition bump (super : Z) (toks : list jsmntok) : list jsmntok :=
  if (super =? -1)%Z then toks else alter grow (Z.to_nat super) toks.

(** ** Primitives *)

Definition is_space (c : ascii) : bool := ch_in c [TAB; CR; LF; SPACE].
Definition prim_delim (c : ascii) : bool :=
  ch_in c (bs ":") || is_space c || ch_in c (bs ",]}").

(** The scan of [jsmn_parse_primitive]: the index where the primitive ends,
    or [None] on a byte outside 32..126. *)
Fixpoint primitive_end (fuel : nat) (js : bytes) (n i : nat) : option nat :=
  match fuel with
  | O => Some i
  | S f =>
      match rd js n i with
      | None => Some i
      | Some c =>
          if prim_delim c then Some i
          else if (code c <? 32)%Z || (127 <=? code c)%Z then None
          else primitive_end f js n (S i)
      end
  end.

(** A step result of the sub-parsers: a return code, the tokens, and [pos]. *)
Definition jsmn_parse_primitive (p : jsmn_parser) (js : bytes) (n num_tokens : nat)
  : option jsmn_ret * jsmn_parser :=
  let start := pos p in
  match primitive_end (S (n - start)) js n start with
  | None => (Some JSMN_ERROR_INVAL, p)
  | Some e =>
      match jsmn_alloc_token (tokens p) num_tokens
              (jsmn_fill_token JSMN_PRIMITIVE (Z.of_nat start) (Z.of_nat e)) with
      | None => (Some JSMN_ERROR_NOMEM, p)
      | Some toks => (None, Parser (pred e) (toksuper p) toks)
      end
  end.

(** ** Strings *)

Definition simple_escape (c : ascii) : bool := ch_in c (DQUOTE :: BACKSLASH :: bs "/bfrnt").

(** The [\uXXXX] loop: up to four hex digits, stopping early at the end. *)
Fixpoint hex_run (k : nat) (js : bytes) (n i : nat) : option nat :=
  match k with
  | O => Some i
  | S k' =>
      match rd js n i with
      | None => Some i
      | Some c => if isxdigit c then hex_run k' js n (S i) else None
      end
  end.

Inductive scan : Type := ScanFound (i : nat) | ScanInval | ScanPart.

Fixpoint string_end (fuel : nat) (js : bytes) (n i : nat) : scan :=
  match fuel with
  | O => ScanPart
  | S f =>
      match rd js n i with
      | None => ScanPart
      | Some c =>
          if ch_eqb c DQUOTE then ScanFound i
          else if ch_eqb c BACKSLASH && Nat.ltb (i + 1) n then
            match js !! (i + 1) with
            | Some e =>
                if simple_escape e then string_end f js n (i + 2)
                else if ch_in e (bs "u") then
                  match hex_run 4 js n (i + 2) with
                  | Some j => string_end f js n j
                  | None => ScanInval
                  end
                else ScanInval
            | None => ScanInval
            end
          else string_end f js n (S i)
      end
  end.

Definition jsmn_parse_string (p : jsmn_parser) (js : bytes) (n num_tokens : nat)
  : option jsmn_ret * jsmn_parser :=
  let start := pos p in
  match string_end (S (n - start)) js n (S start) with
  | ScanInval => (Some JSMN_ERROR_INVAL, p)
  | ScanPart => (Some JSMN_ERROR_PART, p)
  | ScanFound e =>
      match jsmn_alloc_token (tokens p) num_tokens
              (jsmn_fill_token JSMN_STRING (Z.of_nat start + 1) (Z.of_nat e)) with
      | None => (Some JSMN_ERROR_NOMEM, p)
      | Some toks => (None, Parser e (toksuper p) toks)
      end
  end.

(** ** Open tokens *)

Definition is_open (t : jsmntok) : bool := negb (tstart t =? -1)%Z && (tend t =? -1)%Z.
Definition is_container (t : jsmntok) : bool :=
  type_eqb (ttype t) JSMN_ARRAY || type_eqb (ttype t) JSMN_OBJECT.

(** The highest index below [n] whose token satisfies [f]: the backward scans. *)
Fixpoint find_last (f : jsmntok -> bool) (toks : list jsmntok) (n : nat) : option nat :=
  match n with
  | O => None
  | S m =>
      match toks !! m with
      | Some t => if f t then Some m else find_last f toks m
      | None => find_last f toks m
      end
  end.

Definition super_of (o : option nat) : Z :=
  match o with Some i => Z.of_nat i | None => -1 end.

Definition close_at (e : Z) (t : jsmntok) : jsmntok := Tok (ttype t) (tstart t) e (tsize t).

(** ** The main loop *)

Inductive jstep_result : Type :=
| Continue (p : jsmn_parser)               (* the body ran and [pos++] was done *)
| Return (r : jsmn_ret) (p : jsmn_parser).

Definition advance (p : jsmn_parser) : jsmn_parser := Parser (S (pos p)) (toksuper p) (tokens p).

(** [case '{': case '[':] *)
Definition open_step (p : jsmn_parser) (num_tokens : nat) (c : ascii) : jstep_result :=
  let ty := if ch_in c (bs "{") then JSMN_OBJECT else JSMN_ARRAY in
  match jsmn_alloc_token (tokens p) num_tokens (Tok ty (Z.of_nat (pos p)) (-1) 0) with
  | None => Return JSMN_ERROR_NOMEM p
  | Some toks =>
      let toks' := bump (toksuper p) toks in
      Continue (advance (Parser (pos p) (Z.of_nat (length toks') - 1) toks'))
  end.

(** [case '}': case ']':] *)
Definition close_step (p : jsmn_parser) (c : ascii) : jstep_result :=
  let ty := if ch_in c (bs "}") then JSMN_OBJECT else JSMN_ARRAY in
  match find_last is_open (tokens p) (toknext p) with
  | None => Return JSMN_ERROR_INVAL p
  | Some i =>
      if type_eqb (ttype (nth i (tokens p) (Tok JSMN_UNDEFINED 0 0 0))) ty then
        let toks := alter (close_at (Z.of_nat (pos p) + 1)) i (tokens p) in
        Continue (advance (Parser (pos p) (super_of (find_last is_open toks (S i))) toks))
      else Return JSMN_ERROR_INVAL p
  end.

(** [case ',':] *)
Definition comma_step (p : jsmn_parser) : jstep_result :=
  let stay := Continue (advance p) in
  if (toksuper p =? -1)%Z then stay
  else
    match tokens p !! Z.to_nat (toksuper p) with
    | Some t =>
        if is_container t then stay
        else
          match find_last (fun t' => is_container t' && is_open t') (tokens p) (toknext p) with
          | Some i => Continue (advance (Parser (pos p) (Z.of_nat i) (tokens p)))
          | None => stay
          end
    | None => stay
    end.

(** Strings and primitives: a sub-parser, then the parent's size grows. *)
Definition leaf_step (r : option jsmn_ret * jsmn_parser) : jstep_result :=
  match r with
  | (Some e, p') => Return e p'
  | (None, p') => Continue (advance (Parser (pos p') (toksuper p') (bump (toksuper p') (tokens p'))))
  end.

(** One iteration of the loop on the byte [c] at [pos]. *)
Definition jsmn_body (p : jsmn_parser) (js : bytes) (n num_tokens : nat) (c : ascii) : jstep_result :=
  if ch_in c (bs "{[") then open_step p num_tokens c
  else if ch_in c (bs "}]") then close_step p c
  else if ch_eqb c DQUOTE then leaf_step (jsmn_parse_string p js n num_tokens)
  else if is_space c then Continue (advance p)
  else if ch_in c (bs ":") then
         Continue (advance (Parser (pos p) (Z.of_nat (toknext p) - 1) (tokens p)))
  else if ch_in c (bs ",") then comma_step p
  else leaf_step (jsmn_parse_primitive p js n num_tokens).

(** The code after the loop. *)
Definition jsmn_finish (p : jsmn_parser) : jsmn_ret :=
  match find_last is_open (tokens p) (toknext p) with
  | Some _ => JSMN_ERROR_PART
  | None => JSMN_COUNT (toknext p)
  end.

Fixpoint jsmn_loop (fuel : nat) (js : bytes) (n num_tokens : nat) (p : jsmn_parser)
  : jsmn_ret * jsmn_parser :=
  match fuel with
  | O => (jsmn_finish p, p)
  | S f =>
      match rd js n (pos p) with
      | None => (jsmn_finish p, p)
      | Some c =>
          match jsmn_body p js n num_tokens c with
          | Continue p' => jsmn_loop f js n num_tokens p'
          | Return r p' => (r, p')
          end
      end
  end.

Definition jsmn_parse (p : jsmn_parser) (js : bytes) (n num_tokens : nat) : jsmn_ret * jsmn_parser :=
  jsmn_loop (S (n - pos p)) js n num_tokens p.
