(* ===== verification/JsonTree.v ===== *)
(** JSON values with their concrete syntax: the abstract side of the token
    arrays.  A tree keeps the raw bytes of its leaves and the white space
    between its parts, so that [text] is exactly the JSON text and [toks] is
    exactly the token array the tokenizer builds for it. *)
From S2P Require Import Prelude Utf8 Jsmn.

Record jelem_ (J : Type) : Type := Elem { e_lead : bytes; e_val : J; e_trail : bytes }.
Arguments Elem {J}.
Arguments e_lead {J}.
Arguments e_val {J}.
Arguments e_trail {J}.

Record jmember_ (J : Type) : Type :=
  Member { m_lead : bytes; m_key : bytes; m_w1 : bytes; m_w2 : bytes; m_val : J; m_trail : bytes }.
Arguments Member {J}.
Arguments m_lead {J}.
Arguments m_key {J}.
Arguments m_w1 {J}.
Arguments m_w2 {J}.
Arguments m_val {J}.
Arguments m_trail {J}.

Unset Elimination Schemes.
Inductive jv : Type :=
| JPrim (s : bytes)
| JStr (s : bytes)
| JArr (w : bytes) (es : list (jelem_ jv))
| JObj (w : bytes) (ms : list (jmember_ jv)).
Set Elimination Schemes.

Abbreviation jelem := (jelem_ jv).
Abbreviation jmember := (jmember_ jv).

(** Induction through the lists of elements and members. *)
Definition jv_ind (P : jv -> Prop)
    (Hp : forall s, P (JPrim s)) (Hs : forall s, P (JStr s))
    (Ha : forall w es, Forall (fun e => P (e_val e)) es -> P (JArr w es))
    (Ho : forall w ms, Forall (fun m => P (m_val m)) ms -> P (JObj w ms)) : forall v, P v :=
  fix F v :=
    match v with
    | JPrim s => Hp s
    | JStr s => Hs s
    | JArr w es =>
        Ha w es ((fix go l : Forall (fun e => P (e_val e)) l :=
                    match l with
                    | [] => List.Forall_nil _
                    | e :: r => List.Forall_cons _ e r (F (e_val e)) (go r)
                    end) es)
    | JObj w ms =>
        Ho w ms ((fix go l : Forall (fun m => P (m_val m)) l :=
                    match l with
                    | [] => List.Forall_nil _
                    | e :: r => List.Forall_cons _ e r (F (m_val e)) (go r)
                    end) ms)
    end.

(** * Text *)

Fixpoint comma_join (l : list bytes) : bytes :=
  match l with
  | [] => []
  | [x] => x
  | x :: r => x ++ bs "," ++ comma_join r
  end.

Definition quoted (s : bytes) : bytes := DQUOTE :: s ++ [DQUOTE].

Fixpoint text (v : jv) : bytes :=
  match v with
  | JPrim s => s
  | JStr s => quoted s
  | JArr w es => bs "[" ++ w ++ comma_join (map (fun e => e_lead e ++ text (e_val e) ++ e_trail e) es) ++ bs "]"
  | JObj w ms =>
      bs "{" ++ w ++ comma_join (map (fun m => m_lead m ++ quoted (m_key m) ++ m_w1 m ++ bs ":" ++ m_w2 m
                                         ++ text (m_val m) ++ m_trail m) ms) ++ bs "}"
  end.

Definition elem_text (e : jelem) : bytes := e_lead e ++ text (e_val e) ++ e_trail e.
Definition member_text (m : jmember) : bytes :=
  m_lead m ++ quoted (m_key m) ++ m_w1 m ++ bs ":" ++ m_w2 m ++ text (m_val m) ++ m_trail m.

(** Offsets inside a member. *)
Definition key_off (off : Z) (m : jmember) : Z := off + len (m_lead m) + 1.
Definition val_off (off : Z) (m : jmember) : Z :=
  off + len (m_lead m ++ quoted (m_key m) ++ m_w1 m ++ bs ":" ++ m_w2 m).

(** * Tokens of a text that starts at an offset *)

Fixpoint toks (off : Z) (v : jv) : list jsmntok :=
  match v with
  | JPrim s => [Tok JSMN_PRIMITIVE off (off + len s) 0]
  | JStr s => [Tok JSMN_STRING (off + 1) (off + 1 + len s) 0]
  | JArr w es =>
      Tok JSMN_ARRAY off (off + len (text (JArr w es))) (Z.of_nat (length es))
      :: (fix go o l :=
            match l with
            | [] => []
            | e :: r => toks (o + len (e_lead e)) (e_val e) ++ go (o + len (elem_text e) + 1)%Z r
            end) (off + 1 + len w)%Z es
  | JObj w ms =>
      Tok JSMN_OBJECT off (off + len (text (JObj w ms))) (Z.of_nat (length ms))
      :: (fix go o l :=
            match l with
            | [] => []
            | m :: r =>
                Tok JSMN_STRING (key_off o m) (key_off o m + len (m_key m)) 1
                :: toks (val_off o m) (m_val m) ++ go (o + len (member_text m) + 1)%Z r
            end) (off + 1 + len w)%Z ms
  end.

Fixpoint elems_toks (o : Z) (es : list jelem) : list jsmntok :=
  match es with
  | [] => []
  | e :: r => toks (o + len (e_lead e)) (e_val e) ++ elems_toks (o + len (elem_text e) + 1) r
  end.

Fixpoint members_toks (o : Z) (ms : list jmember) : list jsmntok :=
  match ms with
  | [] => []
  | m :: r =>
      Tok JSMN_STRING (key_off o m) (key_off o m + len (m_key m)) 1
      :: toks (val_off o m) (m_val m) ++ members_toks (o + len (member_text m) + 1) r
  end.

Definition elems_text (es : list jelem) : bytes := comma_join (map elem_text es).
Definition members_text (ms : list jmember) : bytes := comma_join (map member_text ms).

(** * Well-formed trees *)

Definition ws_ok (w : bytes) : bool := forallb is_space w.

Definition prim_char (c : ascii) : bool :=
  (33 <=? code c)%Z && (code c <=? 126)%Z && negb (ch_in c (DQUOTE :: bs ":,]}[{")).

Definition prim_ok (s : bytes) : bool :=
  match s with [] => false | _ => forallb prim_char s end.

(** The body of a string: no bare quote, no NUL, complete escapes. *)
Fixpoint str_body (s : bytes) : bool :=
  match s with
  | [] => true
  | c :: r =>
      if ch_eqb c DQUOTE || ch_eqb c NUL then false
      else if ch_eqb c BACKSLASH then
        match r with
        | [] => false
        | e :: r1 =>
            if simple_escape e then str_body r1
            else if ch_in e (bs "u") then
              match r1 with
              | h1 :: h2 :: h3 :: h4 :: r2 =>
                  isxdigit h1 && isxdigit h2 && isxdigit h3 && isxdigit h4 && str_body r2
              | _ => false
              end
            else false
        end
      else str_body r
  end.

Definition str_ok (s : bytes) : bool := str_body s && utf8_check s.

Fixpoint jv_ok (v : jv) : bool :=
  match v with
  | JPrim s => prim_ok s
  | JStr s => str_ok s
  | JArr w es =>
      ws_ok w && forallb (fun e => ws_ok (e_lead e) && jv_ok (e_val e) && ws_ok (e_trail e)) es
  | JObj w ms =>
      ws_ok w && forallb (fun m => ws_ok (m_lead m) && str_ok (m_key m) && ws_ok (m_w1 m)
                                   && ws_ok (m_w2 m) && jv_ok (m_val m) && ws_ok (m_trail m)) ms
  end.

Definition elem_ok (e : jelem) : bool := ws_ok (e_lead e) && jv_ok (e_val e) && ws_ok (e_trail e).
Definition member_ok (m : jmember) : bool :=
  ws_ok (m_lead m) && str_ok (m_key m) && ws_ok (m_w1 m) && ws_ok (m_w2 m)
  && jv_ok (m_val m) && ws_ok (m_trail m).

(** Compact constructors: what json_out prints, no white space at all. *)
Definition Elem0 (v : jv) : jelem := Elem [] v [].
Definition Member0 (k : bytes) (v : jv) : jmember := Member [] k [] [] v [].

(** The value a tree denotes, white space forgotten. *)
Inductive jval : Type :=
| VPrim (s : bytes)
| VStr (s : bytes)
| VArr (l : list jval)
| VObj (l : list (bytes * jval)).

Fixpoint value_of (v : jv) : jval :=
  match v with
  | JPrim s => VPrim s
  | JStr s => VStr s
  | JArr _ es => VArr (map (fun e => value_of (e_val e)) es)
  | JObj _ ms => VObj (map (fun m => (m_key m, value_of (m_val m))) ms)
  end.

(** * Unfoldings and lengths *)

Lemma toks_arr off w es :
  toks off (JArr w es) =
    Tok JSMN_ARRAY off (off + len (text (JArr w es))) (Z.of_nat (length es))
    :: elems_toks (off + 1 + len w) es.
Proof. reflexivity. Qed.

Lemma toks_obj off w ms :
  toks off (JObj w ms) =
    Tok JSMN_OBJECT off (off + len (text (JObj w ms))) (Z.of_nat (length ms))
    :: members_toks (off + 1 + len w) ms.
Proof. reflexivity. Qed.

Lemma text_arr w es : text (JArr w es) = bs "[" ++ w ++ elems_text es ++ bs "]".
Proof. reflexivity. Qed.

Lemma text_obj w ms : text (JObj w ms) = bs "{" ++ w ++ members_text ms ++ bs "}".
Proof. reflexivity. Qed.

Lemma len_app (a b : bytes) : len (a ++ b) = (len a + len b)%Z.
Proof. unfold len. rewrite length_app. lia. Qed.

Lemma len_nonneg (b : bytes) : (0 <= len b)%Z.
Proof. unfold len. lia. Qed.

Lemma len_quoted (s : bytes) : len (quoted s) = (len s + 2)%Z.
Proof. unfold quoted, len. simpl. rewrite length_app. simpl. lia. Qed.

Lemma toks_nonempty off v : toks off v <> [].
Proof. by destruct v. Qed.

