(* ===== verification/JsmnProofs.v ===== *)
(** The tokenizer on well-formed text: it consumes exactly one value and
    leaves exactly the tokens of its tree, whatever the size of the token
    array it is given between resumptions. *)
From S2P Require Import Prelude Utf8 Jsmn JsonTree.
From stdpp Require Import relations.

(** * Characters *)

(** Decide a statement about one byte by trying all 256. *)
Ltac by_byte c :=
  destruct c as [[] [] [] [] [] [] [] []]; vm_compute; first [done | intuition discriminate].

Lemma prim_char_facts c : prim_char c = true ->
  (ch_eqb c NUL = false /\ prim_delim c = false /\ ((code c <? 32)%Z || (127 <=? code c)%Z) = false)
  /\ (ch_in c (bs "{[") = false /\ ch_in c (bs "}]") = false /\ ch_eqb c DQUOTE = false)
  /\ (is_space c = false /\ ch_in c (bs ":") = false /\ ch_in c (bs ",") = false).
Proof. by_byte c. Qed.

Lemma space_facts c : is_space c = true ->
  (ch_eqb c NUL = false /\ prim_delim c = true /\ ch_in c (bs "{[") = false)
  /\ (ch_in c (bs "}]") = false /\ ch_eqb c DQUOTE = false).
Proof. by_byte c. Qed.

Lemma xdigit_not_nul c : isxdigit c = true -> ch_eqb c NUL = false.
Proof. by_byte c. Qed.

Lemma simple_escape_not_nul c : simple_escape c = true -> ch_eqb c NUL = false.
Proof. by_byte c. Qed.

(** What may follow a value: the end, or a byte that ends a primitive. *)
Definition delim_next (post : bytes) : Prop :=
  match post with [] => True | c :: _ => prim_delim c = true end.

(** * Reading *)

Lemma rd_here (pre post : bytes) c :
  ch_eqb c NUL = false -> rd (pre ++ c :: post) (length (pre ++ c :: post)) (length pre) = Some c.
Proof.
  intros Hc. unfold rd. rewrite length_app. simpl.
  rewrite (proj2 (Nat.ltb_lt _ _)) by lia. rewrite lookup_app_r, Nat.sub_diag by lia. simpl. by rewrite Hc.
Qed.

Lemma rd_end (js : bytes) i : length js <= i -> rd js (length js) i = None.
Proof. intros H. unfold rd. by rewrite (proj2 (Nat.ltb_ge _ _)) by lia. Qed.

Lemma primitive_end_spec (s pre post : bytes) fuel :
  forallb prim_char s = true -> delim_next post -> length s < fuel ->
  primitive_end fuel (pre ++ s ++ post) (length (pre ++ s ++ post)) (length pre)
  = Some (length pre + length s).
Proof.
  revert pre fuel. induction s as [|c s IH]; intros pre fuel Hs Hp Hf; (destruct fuel as [|f]; [lia|]); simpl.
  - rewrite Nat.add_0_r. destruct post as [|c post]; simpl in *.
    + rewrite rd_end; [done|]. rewrite app_nil_r. lia.
    + assert (Hd : ch_eqb c NUL = false) by (clear -Hp; revert Hp; by_byte c).
      by rewrite rd_here, Hp.
  - simpl in *. apply andb_true_iff in Hs as [Hc Hs].
    destruct (prim_char_facts c Hc) as ((H0 & H1 & H2) & _). rewrite rd_here by done. rewrite H1, H2.
    specialize (IH (pre ++ [c]) f Hs Hp). rewrite <- app_assoc in IH. simpl in IH.
    rewrite (length_app pre [c]) in IH. simpl in IH. rewrite Nat.add_1_r in IH. rewrite IH by lia. f_equal. lia.
Qed.

(** Moving bytes from the text into the consumed prefix. *)
Lemma shift_prefix (pre a b : bytes) : pre ++ a ++ b = (pre ++ a) ++ b.
Proof. apply app_assoc. Qed.

Lemma string_end_spec (s pre post : bytes) fuel :
  str_body s = true -> length s < fuel ->
  string_end fuel (pre ++ s ++ DQUOTE :: post) (length (pre ++ s ++ DQUOTE :: post)) (length pre)
  = ScanFound (length pre + length s).
Proof.
  revert pre fuel. induction s as [s IH] using (induction_ltof1 _ (@length ascii)); unfold ltof in IH.
  intros pre fuel Hs Hf. destruct fuel as [|f]; [lia|]. destruct s as [|c r].
  - simpl. rewrite rd_here by done. simpl. by rewrite Nat.add_0_r.
  - cbn [string_end]. cbn [str_body] in Hs.
    destruct (ch_eqb c DQUOTE) eqn:EQ; [done|]. destruct (ch_eqb c NUL) eqn:EN; [done|]. cbn [orb] in Hs.
    assert (Hrd : rd (pre ++ (c :: r) ++ DQUOTE :: post) (length (pre ++ (c :: r) ++ DQUOTE :: post)) (length pre) = Some c)
      by by apply rd_here.
    rewrite Hrd, EQ. clear Hrd.
    (* continue after the prefix [x] of the string *)
    assert (HI : forall x r', c :: r = x ++ r' -> x <> [] -> str_body r' = true ->
      string_end f (pre ++ (c :: r) ++ DQUOTE :: post) (length (pre ++ (c :: r) ++ DQUOTE :: post)) (length pre + length x)
      = ScanFound (length pre + length (c :: r))).
    { intros x r' E Hx Hb. rewrite E.
      assert (Hl : length (c :: r) = length x + length r') by (rewrite E; apply length_app).
      assert (Hx1 : 0 < length x) by (destruct x; simpl; [done|lia]).
      specialize (IH r' ltac:(lia) (pre ++ x) f Hb ltac:(simpl in *; lia)).
      rewrite <- !app_assoc in IH. rewrite <- !app_assoc. rewrite !length_app in IH |- *.
      rewrite IH. f_equal. lia. }
    destruct (ch_eqb c BACKSLASH) eqn:EB; cbn [andb].
    + destruct r as [|e r1]; [done|]. fold str_body in Hs.
      assert (Hlt : Nat.ltb (length pre + 1) (length (pre ++ (c :: e :: r1) ++ DQUOTE :: post)) = true).
      { apply Nat.ltb_lt. rewrite length_app. simpl. lia. }
      rewrite Hlt.
      assert (He : (pre ++ (c :: e :: r1) ++ DQUOTE :: post) !! (length pre + 1) = Some e).
      { rewrite lookup_app_r by lia. by replace (length pre + 1 - length pre) with 1 by lia. }
      rewrite He. destruct (simple_escape e) eqn:ES; [by apply (HI [c; e] r1)|].
      destruct (ch_in e (bs "u")) eqn:EU; [|done].
      destruct r1 as [|h1 [|h2 [|h3 [|h4 r2]]]]; try done.
      repeat (apply andb_true_iff in Hs as [Hs ?]).
      assert (Hh : hex_run 4 (pre ++ (c :: e :: h1 :: h2 :: h3 :: h4 :: r2) ++ DQUOTE :: post)
        (length (pre ++ (c :: e :: h1 :: h2 :: h3 :: h4 :: r2) ++ DQUOTE :: post)) (length pre + 2) = Some (length pre + 6)).
      { set (tl := r2 ++ DQUOTE :: post).
        assert (R : forall x h y, isxdigit h = true -> pre ++ c :: e :: h1 :: h2 :: h3 :: h4 :: tl = (pre ++ x) ++ h :: y ->
          rd (pre ++ c :: e :: h1 :: h2 :: h3 :: h4 :: tl) (length (pre ++ c :: e :: h1 :: h2 :: h3 :: h4 :: tl))
            (length pre + length x) = Some h).
        { intros x h y Hx E. rewrite E. rewrite <- length_app. apply rd_here. by apply xdigit_not_nul. }
        simpl. fold tl.
        pose proof (R [c; e] h1 (h2 :: h3 :: h4 :: tl)) as R1. pose proof (R [c; e; h1] h2 (h3 :: h4 :: tl)) as R2.
        pose proof (R [c; e; h1; h2] h3 (h4 :: tl)) as R3. pose proof (R [c; e; h1; h2; h3] h4 tl) as R4.
        simpl in R1, R2, R3, R4. rewrite <- !app_assoc in R1, R2, R3, R4. simpl in R1, R2, R3, R4.
        replace (S (length pre + 2)) with (length pre + 3) by lia.
        replace (S (length pre + 3)) with (length pre + 4) by lia.
        replace (S (length pre + 4)) with (length pre + 5) by lia.
        rewrite R1, Hs, R2, R3, R4 by done.
        repeat match goal with H : isxdigit _ = true |- _ => rewrite H; clear H end. f_equal. lia. }
      rewrite Hh. by apply (HI [c; e; h1; h2; h3; h4] r2).
    + replace (S (length pre)) with (length pre + 1) by lia. by apply (HI [c] r).
Qed.

(** * The token array *)

Lemma length_bump s T : length (bump s T) = length T.
Proof. unfold bump. case_match; [done|]. apply length_alter. Qed.

Lemma bump_app s T D :
  (s = -1 \/ 0 <= s < Z.of_nat (length T))%Z -> bump s (T ++ D) = bump s T ++ D.
Proof.
  intros Hs. unfold bump. destruct (Z.eqb_spec s (-1)); [done|]. apply alter_app_l. lia.
Qed.

Lemma bump_middle T c D : bump (Z.of_nat (length T)) (T ++ c :: D) = T ++ grow c :: D.
Proof.
  unfold bump. destruct (Z.eqb_spec (Z.of_nat (length T)) (-1)); [lia|]. rewrite Nat2Z.id.
  rewrite <- (Nat.add_0_r (length T)). by rewrite alter_app_r.
Qed.

Lemma find_last_app_le f T D n : n <= length T -> find_last f (T ++ D) n = find_last f T n.
Proof.
  induction n as [|n IH]; intros H; [done|]. cbn [find_last]. rewrite lookup_app_l by lia.
  rewrite IH by lia. done.
Qed.

Lemma find_last_closed f T D :
  Forall (fun t => f t = false) D ->
  find_last f (T ++ D) (length (T ++ D)) = find_last f T (length T).
Proof.
  intros HD. induction D as [|t D IH] using rev_ind.
  - by rewrite app_nil_r.
  - apply Forall_app in HD as [HD Ht]. inv Ht. rewrite app_assoc, length_app. simpl. rewrite Nat.add_1_r.
    cbn [find_last]. rewrite lookup_app_r, Nat.sub_diag by lia. simpl. rewrite H1.
    rewrite find_last_app_le by lia. by apply IH.
Qed.

Lemma find_last_here f T c D :
  f c = true -> Forall (fun t => f t = false) D ->
  find_last f (T ++ c :: D) (length (T ++ c :: D)) = Some (length T).
Proof.
  intros Hc HD. change (c :: D) with ([c] ++ D). rewrite app_assoc, find_last_closed by done.
  rewrite length_app. simpl. rewrite Nat.add_1_r. cbn [find_last].
  rewrite lookup_app_r, Nat.sub_diag by lia. simpl. by rewrite Hc.
Qed.

Lemma find_last_ext f T T' n :
  (forall i, f <$> (T !! i) = f <$> (T' !! i)) -> find_last f T n = find_last f T' n.
Proof.
  intros H. induction n as [|n IH]; [done|]. cbn [find_last]. specialize (H n).
  destruct (T !! n), (T' !! n); try done. injection H as H. by rewrite H, IH.
Qed.

Lemma find_last_bump f s T n :
  (forall t, f (grow t) = f t) -> find_last f (bump s T) n = find_last f T n.
Proof.
  intros Hf. apply find_last_ext. intros i. unfold bump. case_match; [done|].
  destruct (decide (i = Z.to_nat s)) as [->|].
  - rewrite list_lookup_alter_eq. destruct (T !! Z.to_nat s); simpl; [|done]. by rewrite Hf.
  - by rewrite list_lookup_alter_ne.
Qed.

Definition last_open (T : list jsmntok) : Z := super_of (find_last is_open T (length T)).

Lemma last_open_bump s T : last_open (bump s T) = last_open T.
Proof. unfold last_open. by rewrite find_last_bump, length_bump. Qed.

Lemma last_open_closed T D : Forall (fun t => is_open t = false) D -> last_open (T ++ D) = last_open T.
Proof. intros HD. unfold last_open. by rewrite find_last_closed. Qed.

Lemma last_open_here T c D :
  is_open c = true -> Forall (fun t => is_open t = false) D -> last_open (T ++ c :: D) = Z.of_nat (length T).
Proof. intros Hc HD. unfold last_open. by rewrite find_last_here. Qed.

Lemma find_last_lt f T n i : find_last f T n = Some i -> i < length T /\ i < n.
Proof.
  induction n as [|n IH]; simpl; [done|]. destruct (T !! n) eqn:E; [|intros H%IH; lia].
  case_match; [|intros H1%IH; lia]. intros [= <-]. apply lookup_lt_Some in E. lia.
Qed.

Lemma last_open_range T : (last_open T = -1 \/ 0 <= last_open T < Z.of_nat (length T))%Z.
Proof.
  unfold last_open. destruct (find_last _ _ _) as [i|] eqn:E; simpl; [|by left].
  apply find_last_lt in E. lia.
Qed.

Lemma tok_closed ty s e z : (0 <= e)%Z -> is_open (Tok ty s e z) = false.
Proof. intros He. unfold is_open; simpl. destruct (Z.eqb_spec e (-1)); [lia|]. apply andb_false_r. Qed.

Lemma tok_open ty s z : (0 <= s)%Z -> is_open (Tok ty s (-1) z) = true.
Proof. intros Hs. unfold is_open; simpl. destruct (Z.eqb_spec s (-1)); [lia|done]. Qed.

(** Every token of a value has its end. *)
Lemma toks_ends v : forall off, (0 <= off)%Z -> Forall (fun t => (0 <= tend t)%Z) (toks off v).
Proof.
  induction v as [s|s|w es IH|w ms IH] using jv_ind; intros off Ho.
  - constructor; [|done]. cbn [tend]. pose proof (len_nonneg s). lia.
  - constructor; [|done]. cbn [tend]. pose proof (len_nonneg s). lia.
  - rewrite toks_arr. constructor; [cbn [tend]; pose proof (len_nonneg (text (JArr w es))); lia|].
    assert (Hoff : (0 <= off + 1 + len w)%Z) by (pose proof (len_nonneg w); lia).
    revert Hoff. generalize (off + 1 + len w)%Z as o. induction IH as [|e r He _ IHr]; intros o Hoff; simpl; [done|].
    pose proof (len_nonneg (e_lead e)). pose proof (len_nonneg (elem_text e)).
    apply Forall_app. split; [apply He; lia|apply IHr; lia].
  - rewrite toks_obj. constructor; [cbn [tend]; pose proof (len_nonneg (text (JObj w ms))); lia|].
    assert (Hoff : (0 <= off + 1 + len w)%Z) by (pose proof (len_nonneg w); lia).
    revert Hoff. generalize (off + 1 + len w)%Z as o. induction IH as [|m r He _ IHr]; intros o Hoff; simpl; [done|].
    pose proof (len_nonneg (m_lead m)). pose proof (len_nonneg (member_text m)). pose proof (len_nonneg (m_key m)).
    unfold key_off, val_off.
    pose proof (len_nonneg (m_lead m ++ quoted (m_key m) ++ m_w1 m ++ bs ":" ++ m_w2 m)).
    constructor; [cbn [tend]; lia|]. apply Forall_app. split; [apply He; lia|apply IHr; lia].
Qed.

Lemma toks_closed v off : (0 <= off)%Z -> Forall (fun t => is_open t = false) (toks off v).
Proof. intros Ho. eapply Forall_impl; [by apply toks_ends|]. intros [ty s e z] He. by apply tok_closed. Qed.

Lemma elems_toks_closed es : forall off, (0 <= off)%Z -> Forall (fun t => is_open t = false) (elems_toks off es).
Proof.
  induction es as [|e r IH]; intros off Ho; simpl; [done|].
  pose proof (len_nonneg (e_lead e)). pose proof (len_nonneg (elem_text e)).
  apply Forall_app. split; [apply toks_closed; lia|apply IH; lia].
Qed.

Lemma members_toks_closed ms : forall off, (0 <= off)%Z -> Forall (fun t => is_open t = false) (members_toks off ms).
Proof.
  induction ms as [|m r IH]; intros off Ho; simpl; [done|].
  pose proof (len_nonneg (m_lead m)). pose proof (len_nonneg (member_text m)). pose proof (len_nonneg (m_key m)).
  pose proof (len_nonneg (m_lead m ++ quoted (m_key m) ++ m_w1 m ++ bs ":" ++ m_w2 m)).
  constructor; [apply tok_closed; unfold key_off; lia|]. apply Forall_app.
  split; [apply toks_closed; unfold val_off; lia|apply IH; lia].
Qed.

(** * Steps *)

Definition jstep (js : bytes) (num : nat) (p p' : jsmn_parser) : Prop :=
  exists c, rd js (length js) (pos p) = Some c /\ jsmn_body p js (length js) num c = Continue p'.

Section Steps.
Variable js : bytes.
Variable num : nat.

Abbreviation steps := (rtc (jstep js num)).

Lemma step_char pre c post s T p' :
  js = pre ++ c :: post -> ch_eqb c NUL = false ->
  jsmn_body (Parser (length pre) s T) js (length js) num c = Continue p' ->
  jstep js num (Parser (length pre) s T) p'.
Proof. intros E Hc Hb. exists c. split; [|done]. rewrite E. by apply rd_here. Qed.

Lemma ws_steps w : forall pre post s T,
  js = pre ++ w ++ post -> ws_ok w = true ->
  steps (Parser (length pre) s T) (Parser (length (pre ++ w)) s T).
Proof.
  induction w as [|c w IH]; intros pre post s T E Hw; [by rewrite app_nil_r|].
  simpl in Hw. apply andb_true_iff in Hw as [Hc Hw].
  destruct (space_facts c Hc) as ((H0 & H1 & H2) & H3 & H4).
  eapply rtc_l with (Parser (length (pre ++ [c])) s T).
  - eapply step_char; [done..|]. unfold jsmn_body. rewrite H2, H3, H4, Hc. unfold advance; simpl.
    rewrite length_app; simpl. do 2 f_equal. lia.
  - replace (pre ++ c :: w) with ((pre ++ [c]) ++ w) by (by rewrite <- app_assoc).
    eapply IH; [|done]. rewrite E, <- app_assoc. done.
Qed.

Lemma string_step pre s post sup T :
  js = pre ++ quoted s ++ post -> str_ok s = true -> length T < num ->
  (sup = -1 \/ 0 <= sup < Z.of_nat (length T))%Z ->
  jstep js num (Parser (length pre) sup T)
    (Parser (length (pre ++ quoted s)) sup
       (bump sup T ++ [Tok JSMN_STRING (len pre + 1) (len pre + 1 + len s) 0])).
Proof.
  intros E Hs Hn Hsup. apply andb_true_iff in Hs as [Hs _].
  eapply (step_char pre DQUOTE (s ++ DQUOTE :: post)); [|done|].
  - rewrite E. unfold quoted. simpl. by rewrite <- app_assoc.
  - unfold jsmn_body. change (leaf_step (jsmn_parse_string (Parser (length pre) sup T) js (length js) num) =
      Continue (Parser (length (pre ++ quoted s)) sup (bump sup T ++ [Tok JSMN_STRING (len pre + 1) (len pre + 1 + len s) 0]))).
    unfold jsmn_parse_string. cbn [pos tokens toksuper].
    pose proof (string_end_spec s (pre ++ [DQUOTE]) post (S (length js - length pre)) Hs) as HE.
    rewrite <- app_assoc in HE. rewrite (length_app pre [DQUOTE]) in HE. cbn [app length] in HE.
    assert (Ejs : js = pre ++ DQUOTE :: s ++ DQUOTE :: post)
      by (rewrite E; unfold quoted; simpl; by rewrite <- app_assoc).
    rewrite <- Ejs in HE. rewrite Nat.add_1_r in HE. rewrite HE.
    + unfold jsmn_alloc_token. rewrite (proj2 (Nat.leb_gt _ _)) by done. unfold leaf_step, advance; simpl.
      rewrite bump_app by done. unfold jsmn_fill_token, quoted, len. rewrite length_app. simpl. rewrite length_app. simpl.
      do 2 f_equal; [lia|]. do 3 f_equal; lia.
    + rewrite Ejs, length_app. simpl. rewrite length_app. simpl. lia.
Qed.

Lemma prim_step pre s post sup T :
  js = pre ++ s ++ post -> prim_ok s = true -> delim_next post -> length T < num ->
  (sup = -1 \/ 0 <= sup < Z.of_nat (length T))%Z ->
  jstep js num (Parser (length pre) sup T)
    (Parser (length (pre ++ s)) sup (bump sup T ++ [Tok JSMN_PRIMITIVE (len pre) (len pre + len s) 0])).
Proof.
  intros E Hs Hd Hn Hsup. destruct s as [|c s]; [done|].
  assert (Hc : prim_char c = true) by (simpl in Hs; by apply andb_true_iff in Hs as [? _]).
  destruct (prim_char_facts c Hc) as ((H0 & _ & _) & (H3 & H4 & H5) & (H6 & H7 & H8)).
  eapply (step_char pre c (s ++ post)); [done..|].
  unfold jsmn_body. rewrite H3, H4, H5, H6, H7, H8. unfold jsmn_parse_primitive. cbn [pos tokens toksuper].
  rewrite E. rewrite primitive_end_spec; [|done..|rewrite !length_app; simpl; lia].
  unfold jsmn_alloc_token. rewrite (proj2 (Nat.leb_gt _ _)) by done. unfold leaf_step, advance; simpl.
  rewrite bump_app by done. unfold jsmn_fill_token, len. rewrite !length_app. simpl.
  do 2 f_equal; [lia|]. do 3 f_equal; lia.
Qed.

Lemma open_obj_step pre post sup T :
  js = pre ++ bs "{" ++ post -> length T < num -> (sup = -1 \/ 0 <= sup < Z.of_nat (length T))%Z ->
  jstep js num (Parser (length pre) sup T)
    (Parser (length (pre ++ bs "{")) (Z.of_nat (length T)) (bump sup T ++ [Tok JSMN_OBJECT (len pre) (-1) 0])).
Proof.
  intros E Hn Hsup. eapply (step_char pre "{"%char post); [done..|].
  change (open_step (Parser (length pre) sup T) num "{"%char =
    Continue (Parser (length (pre ++ bs "{")) (Z.of_nat (length T)) (bump sup T ++ [Tok JSMN_OBJECT (len pre) (-1) 0]))).
  unfold open_step, jsmn_alloc_token. cbn [tokens]. rewrite (proj2 (Nat.leb_gt _ _)) by done.
  unfold advance; cbn [pos toksuper tokens]. rewrite bump_app, length_app, length_bump by done.
  rewrite length_app. simpl. do 2 f_equal; lia.
Qed.

Lemma open_arr_step pre post sup T :
  js = pre ++ bs "[" ++ post -> length T < num -> (sup = -1 \/ 0 <= sup < Z.of_nat (length T))%Z ->
  jstep js num (Parser (length pre) sup T)
    (Parser (length (pre ++ bs "[")) (Z.of_nat (length T)) (bump sup T ++ [Tok JSMN_ARRAY (len pre) (-1) 0])).
Proof.
  intros E Hn Hsup. eapply (step_char pre "["%char post); [done..|].
  change (open_step (Parser (length pre) sup T) num "["%char =
    Continue (Parser (length (pre ++ bs "[")) (Z.of_nat (length T)) (bump sup T ++ [Tok JSMN_ARRAY (len pre) (-1) 0]))).
  unfold open_step, jsmn_alloc_token. cbn [tokens]. rewrite (proj2 (Nat.leb_gt _ _)) by done.
  unfold advance; cbn [pos toksuper tokens]. rewrite bump_app, length_app, length_bump by done.
  rewrite length_app. simpl. do 2 f_equal; lia.
Qed.

(** The tokens of a container under construction. *)
Definition pending (ty : jsmntype) (T0 : list jsmntok) (s z : Z) (D : list jsmntok) : list jsmntok :=
  T0 ++ Tok ty s (-1) z :: D.

Lemma close_step_pending ty c pre sup T0 s z D :
  (0 <= s)%Z -> Forall (fun t => is_open t = false) D ->
  (ty = JSMN_OBJECT /\ c = "}"%char \/ ty = JSMN_ARRAY /\ c = "]"%char) ->
  close_step (Parser (length pre) sup (pending ty T0 s z D)) c =
  Continue (Parser (length (pre ++ [c])) (last_open T0)
             (T0 ++ Tok ty s (len pre + 1) z :: D)).
Proof.
  intros Hs HD Hty. unfold close_step, pending. cbn [tokens pos]. unfold toknext; cbn [tokens].
  assert (Ho : is_open (Tok ty s (-1) z) = true).
  { by apply tok_open. }
  rewrite find_last_here by done.
  assert (Hnth : nth (length T0) (T0 ++ Tok ty s (-1) z :: D) (Tok JSMN_UNDEFINED 0 0 0) = Tok ty s (-1) z).
  { rewrite app_nth2, Nat.sub_diag by lia. done. }
  rewrite Hnth. cbn [ttype].
  assert (Hc : type_eqb ty (if ch_in c (bs "}") then JSMN_OBJECT else JSMN_ARRAY) = true)
    by (destruct Hty as [[-> ->]|[-> ->]]; reflexivity).
  rewrite Hc. unfold advance; cbn [pos toksuper tokens].
  assert (Ha : alter (close_at (Z.of_nat (length pre) + 1)) (length T0) (T0 ++ Tok ty s (-1) z :: D)
               = T0 ++ Tok ty s (len pre + 1) z :: D).
  { rewrite <- (Nat.add_0_r (length T0)). by rewrite alter_app_r. }
  rewrite Ha.
  assert (Hf : find_last is_open (T0 ++ Tok ty s (len pre + 1) z :: D) (S (length T0))
               = find_last is_open T0 (length T0)).
  { cbn [find_last]. rewrite lookup_app_r, Nat.sub_diag by lia. cbn [lookup list_lookup].
    unfold is_open at 1; simpl. destruct (Z.eqb_spec (len pre + 1) (-1)); [pose proof (len_nonneg pre); lia|].
    rewrite andb_false_r. by apply find_last_app_le. }
  rewrite Hf, length_app. unfold last_open. simpl. do 2 f_equal; lia.
Qed.

Lemma colon_step pre post sup T :
  js = pre ++ bs ":" ++ post ->
  jstep js num (Parser (length pre) sup T)
    (Parser (length (pre ++ bs ":")) (Z.of_nat (length T) - 1) T).
Proof.
  intros E. eapply (step_char pre ":"%char post); [done..|].
  change (Continue (advance (Parser (length pre) (Z.of_nat (length T) - 1) T)) =
          Continue (Parser (length (pre ++ bs ":")) (Z.of_nat (length T) - 1) T)).
  unfold advance; cbn [pos toksuper tokens]. rewrite length_app. simpl. do 2 f_equal; lia.
Qed.

(** A comma inside a container leaves [toksuper] at the container, whether it
    was already there or at a key. *)
Lemma comma_step_pending ty pre post sup T0 s z D :
  js = pre ++ bs "," ++ post -> (0 <= s)%Z -> (ty = JSMN_OBJECT \/ ty = JSMN_ARRAY) ->
  Forall (fun t => is_open t = false) D ->
  (sup = Z.of_nat (length T0) \/
   exists D1 k D2, D = D1 ++ k :: D2 /\ ttype k = JSMN_STRING /\ sup = Z.of_nat (length T0 + 1 + length D1)) ->
  jstep js num (Parser (length pre) sup (pending ty T0 s z D))
    (Parser (length (pre ++ bs ",")) (Z.of_nat (length T0)) (pending ty T0 s z D)).
Proof.
  intros E Hs Hty HD Hsup. eapply (step_char pre ","%char post); [done..|].
  change (comma_step (Parser (length pre) sup (pending ty T0 s z D)) =
    Continue (Parser (length (pre ++ bs ",")) (Z.of_nat (length T0)) (pending ty T0 s z D))).
  unfold comma_step. cbn [toksuper tokens pos]. unfold toknext; cbn [tokens].
  assert (Hcont : is_container (Tok ty s (-1) z) = true) by (destruct Hty as [-> | ->]; reflexivity).
  assert (Ho : is_open (Tok ty s (-1) z) = true).
  { by apply tok_open. }
  assert (Hpos : S (length pre) = length (pre ++ bs ",")) by (rewrite length_app; simpl; lia).
  destruct Hsup as [->|(D1 & k & D2 & -> & Hk & ->)].
  - destruct (Z.eqb_spec (Z.of_nat (length T0)) (-1)); [lia|]. rewrite Nat2Z.id. unfold pending.
    rewrite lookup_app_r, Nat.sub_diag by lia. cbn [lookup list_lookup]. rewrite Hcont.
    unfold advance; cbn [pos toksuper tokens]. by rewrite Hpos.
  - destruct (Z.eqb_spec (Z.of_nat (length T0 + 1 + length D1)) (-1)); [lia|]. rewrite Nat2Z.id. unfold pending.
    assert (Hl : (T0 ++ Tok ty s (-1) z :: D1 ++ k :: D2) !! (length T0 + 1 + length D1) = Some k).
    { replace (T0 ++ Tok ty s (-1) z :: D1 ++ k :: D2) with ((T0 ++ Tok ty s (-1) z :: D1) ++ k :: D2)
        by (by rewrite <- app_assoc).
      apply list_lookup_middle. rewrite length_app. simpl. lia. }
    rewrite Hl. assert (Hkc : is_container k = false) by (unfold is_container; by rewrite Hk).
    rewrite Hkc. rewrite find_last_here.
    + unfold advance; cbn [pos toksuper tokens]. by rewrite Hpos.
    + by rewrite Hcont, Ho.
    + eapply Forall_impl; [done|]. intros t Ht. simpl. rewrite Ht. apply andb_false_r.
Qed.

Lemma delim_ws w post : ws_ok w = true -> delim_next post -> delim_next (w ++ post).
Proof.
  destruct w as [|c w]; [done|]. simpl. intros [Hc _]%andb_true_iff _. by destruct (space_facts c Hc) as ((_ & ? & _) & _).
Qed.

Lemma comma_join_cons x r : comma_join (x :: r) = x ++ match r with [] => [] | _ => bs "," ++ comma_join r end.
Proof. destruct r; simpl; [by rewrite app_nil_r|done]. Qed.

(** [toksuper] after a value: a closed container hands it to the innermost
    open one, a leaf leaves it. *)
Definition after (v : jv) (sup : Z) (T : list jsmntok) : Z :=
  match v with JArr _ _ | JObj _ _ => last_open T | _ => sup end.

Definition value_spec (v : jv) : Prop := forall pre post sup T,
  js = pre ++ text v ++ post -> jv_ok v = true -> delim_next post ->
  (sup = -1 \/ 0 <= sup < Z.of_nat (length T))%Z -> length T + length (toks (len pre) v) <= num ->
  steps (Parser (length pre) sup T)
        (Parser (length (pre ++ text v)) (after v sup T) (bump sup T ++ toks (len pre) v)).

Lemma pending_length ty T0 s z D : length (pending ty T0 s z D) = length T0 + 1 + length D.
Proof. unfold pending. rewrite length_app. simpl. lia. Qed.

Lemma pending_grow ty T0 s z D X :
  bump (Z.of_nat (length T0)) (pending ty T0 s z D) ++ X = pending ty T0 s (z + 1) (D ++ X).
Proof. unfold pending. rewrite bump_middle, <- app_assoc. done. Qed.

Lemma elems_steps es : Forall (fun e => value_spec (e_val e)) es -> forall pre post T0 s z D,
  js = pre ++ elems_text es ++ bs "]" ++ post -> forallb elem_ok es = true -> (0 <= s)%Z ->
  Forall (fun t => is_open t = false) D ->
  length T0 + 1 + length D + length (elems_toks (len pre) es) <= num ->
  steps (Parser (length pre) (Z.of_nat (length T0)) (pending JSMN_ARRAY T0 s z D))
        (Parser (length (pre ++ elems_text es)) (Z.of_nat (length T0))
           (pending JSMN_ARRAY T0 s (z + Z.of_nat (length es)) (D ++ elems_toks (len pre) es))).
Proof.
  induction 1 as [|e r He _ IH]; intros pre post T0 s z D E Hok Hs HD Hnum.
  - simpl. rewrite !app_nil_r, Z.add_0_r. constructor.
  - simpl in Hok, Hnum. apply andb_true_iff in Hok as [Hek Hok].
    unfold elem_ok in Hek. apply andb_true_iff in Hek as [Hek Htr]. apply andb_true_iff in Hek as [Hld Hv].
    rewrite length_app in Hnum. unfold elems_text in *. cbn [map] in *. rewrite comma_join_cons in *.
    set (rest := match map elem_text r with [] => [] | _ => bs "," ++ comma_join (map elem_text r) end) in *.
    assert (Ho : is_open (Tok JSMN_ARRAY s (-1) z) = true).
    { by apply tok_open. }
    assert (Hlp : len (pre ++ e_lead e) = (len pre + len (e_lead e))%Z) by apply len_app.
    assert (Hdel : delim_next (e_trail e ++ rest ++ bs "]" ++ post)).
    { apply delim_ws; [done|]. unfold rest. by destruct (map elem_text r). }
    unfold elem_text in E at 1. rewrite <- !app_assoc in E.
    etrans; [eapply ws_steps; [exact E|done]|].
    etrans.
    { eapply (He (pre ++ e_lead e) (e_trail e ++ rest ++ bs "]" ++ post)); try done.
      - by rewrite E, <- !app_assoc.
      - right. rewrite pending_length. lia.
      - rewrite pending_length, Hlp. lia. }
    rewrite pending_grow, Hlp.
    assert (Haf : after (e_val e) (Z.of_nat (length T0)) (pending JSMN_ARRAY T0 s z D) = Z.of_nat (length T0)).
    { unfold after, pending. destruct (e_val e); try done; by apply last_open_here. }
    rewrite Haf. set (D' := D ++ toks (len pre + len (e_lead e)) (e_val e)).
    etrans; [eapply (ws_steps (e_trail e)); [|done]; rewrite E, <- !app_assoc; done|].
    assert (HD' : Forall (fun t => is_open t = false) D').
    { apply Forall_app. split; [done|]. apply toks_closed. pose proof (len_nonneg pre). pose proof (len_nonneg (e_lead e)). lia. }
    replace (((pre ++ e_lead e) ++ text (e_val e)) ++ e_trail e) with (pre ++ elem_text e)
      by (unfold elem_text; by rewrite <- !app_assoc).
    unfold rest in *. destruct r as [|e2 r]; cbn [map] in *.
    + simpl. rewrite !app_nil_r. replace (z + 1)%Z with (z + Z.of_nat 1)%Z by lia. constructor.
    + set (r' := e2 :: r) in *. change (elem_text e2 :: map elem_text r) with (map elem_text r') in *.
      assert (E2 : js = (pre ++ elem_text e) ++ bs "," ++ comma_join (map elem_text r') ++ bs "]" ++ post).
      { rewrite E. change (elem_text e) with (e_lead e ++ text (e_val e) ++ e_trail e). by rewrite <- !app_assoc. }
      eapply rtc_l; [eapply comma_step_pending; eauto|].
      replace (pre ++ elem_text e ++ bs "," ++ comma_join (map elem_text r'))
        with (((pre ++ elem_text e) ++ bs ",") ++ comma_join (map elem_text r')) by (by rewrite <- !app_assoc).
      assert (Hl2 : len ((pre ++ elem_text e) ++ bs ",") = (len pre + len (elem_text e) + 1)%Z)
        by (by rewrite !len_app).
      specialize (IH ((pre ++ elem_text e) ++ bs ",") post T0 s (z + 1)%Z D').
      rewrite Hl2 in IH. change (elems_toks (len pre) (e :: r')) with
        (toks (len pre + len (e_lead e)) (e_val e) ++ elems_toks (len pre + len (elem_text e) + 1) r').
      rewrite app_assoc. fold D'. replace (z + Z.of_nat (length (e :: r')))%Z with (z + 1 + Z.of_nat (length r'))%Z by (simpl; lia).
      apply IH; try done.
      * by rewrite E2, <- !app_assoc.
      * unfold D'. rewrite length_app. lia.
Qed.

(** Where [toksuper] may be after a member: at the object or at the key. *)
Definition at_object_or_key (T0 D : list jsmntok) (sup : Z) : Prop :=
  sup = Z.of_nat (length T0) \/
  exists D1 k D2, D = D1 ++ k :: D2 /\ ttype k = JSMN_STRING /\ sup = Z.of_nat (length T0 + 1 + length D1).

Definition key_tok (o : Z) (m : jmember) : jsmntok :=
  Tok JSMN_STRING (key_off o m) (key_off o m + len (m_key m)) 1.

Lemma member_steps m pre post T0 s z D :
  value_spec (m_val m) ->
  js = pre ++ member_text m ++ post -> member_ok m = true -> delim_next post -> (0 <= s)%Z ->
  Forall (fun t => is_open t = false) D ->
  length T0 + 2 + length D + length (toks (val_off (len pre) m) (m_val m)) <= num ->
  exists sup',
    at_object_or_key T0 (D ++ key_tok (len pre) m :: toks (val_off (len pre) m) (m_val m)) sup' /\
    steps (Parser (length pre) (Z.of_nat (length T0)) (pending JSMN_OBJECT T0 s z D))
          (Parser (length (pre ++ member_text m)) sup'
             (pending JSMN_OBJECT T0 s (z + 1) (D ++ key_tok (len pre) m :: toks (val_off (len pre) m) (m_val m)))).
Proof.
  intros Hv E Hok Hdel Hs HD Hnum. unfold member_ok in Hok.
  repeat (apply andb_true_iff in Hok as [Hok ?]).
  set (k0 := Tok JSMN_STRING (key_off (len pre) m) (key_off (len pre) m + len (m_key m)) 0).
  set (kidx := Z.of_nat (length T0 + 1 + length D)).
  assert (Hoff : len (((((pre ++ m_lead m) ++ quoted (m_key m)) ++ m_w1 m) ++ bs ":") ++ m_w2 m) = val_off (len pre) m)
    by (unfold val_off; rewrite !len_app; lia).
  assert (Ho : forall z', is_open (Tok JSMN_OBJECT s (-1) z') = true).
  { intros z'. by apply tok_open. }
  assert (Hk0 : is_open k0 = false).
  { apply tok_closed. unfold key_off. pose proof (len_nonneg pre). pose proof (len_nonneg (m_lead m)).
    pose proof (len_nonneg (m_key m)). lia. }
  exists (after (m_val m) kidx (pending JSMN_OBJECT T0 s (z + 1) (D ++ [k0]))). split.
  { assert (HL : last_open (pending JSMN_OBJECT T0 s (z + 1) (D ++ [k0])) = Z.of_nat (length T0)).
    { unfold pending. apply last_open_here; [done|]. apply Forall_app. auto. }
    unfold after. destruct (m_val m) eqn:Em; [right|right|left; done|left; done];
      exists D, (key_tok (len pre) m); eexists; split_and!; try done. }
  unfold member_text in E. rewrite <- !app_assoc in E.
  etrans; [eapply (ws_steps (m_lead m)); [exact E|done]|].
  etrans.
  { eapply rtc_once, (string_step (pre ++ m_lead m) (m_key m)); [rewrite E, <- !app_assoc; done|done|rewrite pending_length; lia|].
    right. rewrite pending_length. lia. }
  rewrite pending_grow, len_app. fold (key_off (len pre) m). fold k0.
  etrans; [eapply (ws_steps (m_w1 m)); [|done]; rewrite E, <- !app_assoc; done|].
  etrans; [eapply rtc_once, colon_step; rewrite E, <- !app_assoc; done|].
  rewrite pending_length, (length_app D [k0]). replace (Z.of_nat (length T0 + 1 + (length D + length [k0])) - 1)%Z with kidx
    by (unfold kidx; simpl; lia).
  etrans; [eapply (ws_steps (m_w2 m)); [|done]; rewrite E, <- !app_assoc; done|].
  etrans.
  { eapply Hv with (post := m_trail m ++ post); [rewrite E, <- !app_assoc; done|done|by apply delim_ws| |].
    - right. rewrite pending_length, length_app. unfold kidx. simpl. lia.
    - rewrite pending_length, length_app, Hoff. simpl. lia. }
  rewrite Hoff.
  replace (bump kidx (pending JSMN_OBJECT T0 s (z + 1) (D ++ [k0])) ++ toks (val_off (len pre) m) (m_val m))
    with (pending JSMN_OBJECT T0 s (z + 1) (D ++ key_tok (len pre) m :: toks (val_off (len pre) m) (m_val m))).
  2:{ unfold pending. replace (T0 ++ Tok JSMN_OBJECT s (-1) (z + 1) :: D ++ [k0])
        with ((T0 ++ Tok JSMN_OBJECT s (-1) (z + 1) :: D) ++ [k0]) by (by rewrite <- app_assoc).
      replace kidx with (Z.of_nat (length (T0 ++ Tok JSMN_OBJECT s (-1) (z + 1) :: D)))
        by (unfold kidx; rewrite length_app; simpl; lia).
      rewrite bump_middle, <- !app_assoc. done. }
  replace (pre ++ member_text m) with (((((((pre ++ m_lead m) ++ quoted (m_key m)) ++ m_w1 m) ++ bs ":") ++ m_w2 m) ++ text (m_val m)) ++ m_trail m)
    by (unfold member_text; by rewrite <- !app_assoc).
  eapply (ws_steps (m_trail m)); [|done]. rewrite E, <- !app_assoc. done.
Qed.

Lemma members_steps ms : Forall (fun m => value_spec (m_val m)) ms -> forall pre post T0 s z D,
  js = pre ++ members_text ms ++ bs "}" ++ post -> forallb member_ok ms = true -> (0 <= s)%Z ->
  Forall (fun t => is_open t = false) D ->
  length T0 + 1 + length D + length (members_toks (len pre) ms) <= num ->
  exists sup',
  steps (Parser (length pre) (Z.of_nat (length T0)) (pending JSMN_OBJECT T0 s z D))
        (Parser (length (pre ++ members_text ms)) sup'
           (pending JSMN_OBJECT T0 s (z + Z.of_nat (length ms)) (D ++ members_toks (len pre) ms))).
Proof.
  induction 1 as [|m r Hm _ IH]; intros pre post T0 s z D E Hok Hs HD Hnum.
  - simpl. rewrite !app_nil_r, Z.add_0_r. eexists. constructor.
  - simpl in Hok, Hnum. apply andb_true_iff in Hok as [Hmk Hok]. rewrite length_app in Hnum.
    unfold members_text in *. cbn [map] in *. rewrite comma_join_cons in *.
    set (rest := match map member_text r with [] => [] | _ => bs "," ++ comma_join (map member_text r) end) in *.
    assert (Hdel : delim_next (rest ++ bs "}" ++ post)) by (unfold rest; by destruct (map member_text r)).
    rewrite <- !app_assoc in E.
    destruct (member_steps m pre (rest ++ bs "}" ++ post) T0 s z D) as (sup' & Hsup & Hst); try done; [lia|].
    set (D' := D ++ key_tok (len pre) m :: toks (val_off (len pre) m) (m_val m)) in *.
    assert (HD' : Forall (fun t => is_open t = false) D').
    { apply Forall_app. split; [done|]. pose proof (len_nonneg pre). pose proof (len_nonneg (m_lead m)).
      pose proof (len_nonneg (m_key m)).
      pose proof (len_nonneg (m_lead m ++ quoted (m_key m) ++ m_w1 m ++ bs ":" ++ m_w2 m)).
      constructor; [apply tok_closed; unfold key_off; lia|apply toks_closed; unfold val_off; lia]. }
    unfold rest in *. destruct r as [|m2 r]; cbn [map] in *.
    + exists sup'. simpl. rewrite !app_nil_r. replace (z + Z.of_nat 1)%Z with (z + 1)%Z by lia. done.
    + set (r' := m2 :: r) in *. change (member_text m2 :: map member_text r) with (map member_text r') in *.
      assert (Hl2 : len ((pre ++ member_text m) ++ bs ",") = (len pre + len (member_text m) + 1)%Z)
        by (by rewrite !len_app).
      destruct (IH ((pre ++ member_text m) ++ bs ",") post T0 s (z + 1)%Z D') as [sup2 Hst2]; try done.
      { by rewrite E, <- !app_assoc. }
      { rewrite Hl2. unfold D'. rewrite length_app. cbn [length] in *. lia. }
      exists sup2. etrans; [exact Hst|]. eapply rtc_l.
      { eapply comma_step_pending; try done; [|by left]. by rewrite E, <- !app_assoc. }
      rewrite Hl2 in Hst2.
      replace (pre ++ member_text m ++ bs "," ++ comma_join (map member_text r'))
        with (((pre ++ member_text m) ++ bs ",") ++ comma_join (map member_text r')) by (by rewrite <- !app_assoc).
      change (members_toks (len pre) (m :: r')) with
        (key_tok (len pre) m :: toks (val_off (len pre) m) (m_val m) ++ members_toks (len pre + len (member_text m) + 1) r').
      replace (D ++ key_tok (len pre) m :: toks (val_off (len pre) m) (m_val m) ++ members_toks (len pre + len (member_text m) + 1) r')
        with (D' ++ members_toks (len pre + len (member_text m) + 1) r') by (unfold D'; by rewrite <- app_assoc).
      replace (z + Z.of_nat (length (m :: r')))%Z with (z + 1 + Z.of_nat (length r'))%Z by (simpl; lia). done.
Qed.

(** The tokenizer consumes a well-formed value and appends its tokens. *)
Lemma value_steps v : value_spec v.
Proof.
  induction v as [s|s|w es IH|w ms IH] using jv_ind; intros pre post sup T E Hok Hd Hsup Hnum.
  - cbn [toks length] in Hnum. apply rtc_once, (prim_step pre s post); try done. lia.
  - cbn [toks length] in Hnum. apply rtc_once, (string_step pre s post); try done. lia.
  - simpl in Hok. apply andb_true_iff in Hok as [Hw Hes]. rewrite toks_arr in Hnum |- *. simpl in Hnum.
    rewrite text_arr in E. rewrite <- !app_assoc in E.
    eapply rtc_l; [eapply open_arr_step; try done; lia|].
    etrans; [eapply (ws_steps w); [|done]; rewrite E, <- !app_assoc; done|].
    assert (Hl : len ((pre ++ bs "[") ++ w) = (len pre + 1 + len w)%Z) by (by rewrite !len_app).
    etrans.
    { rewrite <- (length_bump sup T).
      eapply (elems_steps es IH ((pre ++ bs "[") ++ w) post (bump sup T) (len pre) 0 []); try done.
      - by rewrite E, <- !app_assoc.
      - apply len_nonneg.
      - rewrite length_bump, Hl. simpl. lia. }
    eapply rtc_once, (step_char _ "]"%char post); [rewrite E, <- !app_assoc; done|done|].
    unfold jsmn_body. etrans; [apply (close_step_pending JSMN_ARRAY "]"%char)|].
    + apply len_nonneg.
    + rewrite Hl. apply elems_toks_closed. pose proof (len_nonneg pre). pose proof (len_nonneg w). lia.
    + by right.
    + rewrite last_open_bump, Hl. simpl app at 3. cbn [after]. rewrite text_arr, Z.add_0_l. do 2 f_equal.
      * f_equal. by rewrite <- !app_assoc.
      * do 3 f_equal. rewrite !len_app. change (len (bs "]")) with 1%Z. lia.
  - simpl in Hok. apply andb_true_iff in Hok as [Hw Hms]. rewrite toks_obj in Hnum |- *. simpl in Hnum.
    rewrite text_obj in E. rewrite <- !app_assoc in E.
    eapply rtc_l; [eapply open_obj_step; try done; lia|].
    etrans; [eapply (ws_steps w); [|done]; rewrite E, <- !app_assoc; done|].
    assert (Hl : len ((pre ++ bs "{") ++ w) = (len pre + 1 + len w)%Z) by (by rewrite !len_app).
    destruct (members_steps ms IH ((pre ++ bs "{") ++ w) post (bump sup T) (len pre) 0 []) as [sup' Hst]; try done.
    { by rewrite E, <- !app_assoc. }
    { apply len_nonneg. }
    { rewrite length_bump, Hl. simpl. lia. }
    etrans; [rewrite <- (length_bump sup T); exact Hst|].
    eapply rtc_once, (step_char _ "}"%char post); [rewrite E, <- !app_assoc; done|done|].
    unfold jsmn_body. etrans; [apply (close_step_pending JSMN_OBJECT "}"%char)|].
    + apply len_nonneg.
    + rewrite Hl. apply members_toks_closed. pose proof (len_nonneg pre). pose proof (len_nonneg w). lia.
    + by left.
    + rewrite last_open_bump, Hl. simpl app at 3. cbn [after]. rewrite text_obj, Z.add_0_l. do 2 f_equal.
      * f_equal. by rewrite <- !app_assoc.
      * do 3 f_equal. rewrite !len_app. change (len (bs "}")) with 1%Z. lia.
Qed.

End Steps.

(** * Termination: every iteration moves forward *)

Lemma hex_run_ge k js n i j : hex_run k js n i = Some j -> i <= j.
Proof.
  revert i. induction k as [|k IH]; simpl; intros i H; [by simplify_eq|].
  destruct (rd js n i); [|by simplify_eq]. destruct (isxdigit a); [|done]. apply IH in H. lia.
Qed.

Lemma string_end_ge f js n i e : string_end f js n i = ScanFound e -> i <= e.
Proof.
  revert i. induction f as [|f IH]; cbn [string_end]; intros i H; [done|].
  destruct (rd js n i); [|done]. destruct (ch_eqb _ DQUOTE); [by simplify_eq|].
  destruct (ch_eqb _ BACKSLASH && _).
  - destruct (js !! (i + 1)); [|done]. destruct (simple_escape _); [apply IH in H; lia|].
    destruct (ch_in _ _); [|done]. destruct (hex_run 4 js n (i + 2)) as [j|] eqn:E; [|done].
    apply hex_run_ge in E. apply IH in H. lia.
  - apply IH in H. lia.
Qed.

Lemma primitive_end_ge f js n i e : primitive_end f js n i = Some e -> i <= e.
Proof.
  revert i. induction f as [|f IH]; simpl; intros i H; [by simplify_eq|].
  destruct (rd js n i); [|by simplify_eq]. destruct (prim_delim _); [by simplify_eq|].
  destruct (_ || _); [done|]. apply IH in H. lia.
Qed.

Lemma body_progress p js n num c p' :
  rd js n (pos p) = Some c -> jsmn_body p js n num c = Continue p' -> pos p < pos p'.
Proof.
  intros Hrd H. unfold jsmn_body in H.
  destruct (ch_in c (bs "{[")).
  { unfold open_step in H. destruct (jsmn_alloc_token _ _ _); simplify_eq. simpl. lia. }
  destruct (ch_in c (bs "}]")) eqn:E2.
  { unfold close_step in H. destruct (find_last _ _ _); [|done]. destruct (type_eqb _ _); simplify_eq. simpl. lia. }
  destruct (ch_eqb c DQUOTE).
  { unfold leaf_step, jsmn_parse_string in H. destruct (string_end _ _ _ _) as [e| |] eqn:E; try done.
    apply string_end_ge in E. destruct (jsmn_alloc_token _ _ _); simplify_eq. simpl. lia. }
  destruct (is_space c) eqn:E4; [simplify_eq; simpl; lia|].
  destruct (ch_in c (bs ":")) eqn:E5; [simplify_eq; simpl; lia|].
  destruct (ch_in c (bs ",")) eqn:E6.
  { unfold comma_step in H. case_all; simpl; lia. }
  unfold leaf_step, jsmn_parse_primitive in H. destruct (primitive_end _ _ _ _) as [e|] eqn:E; [|done].
  destruct (jsmn_alloc_token _ _ _); simplify_eq. simpl.
  cbn [primitive_end] in E. rewrite Hrd in E.
  assert (Hd : prim_delim c = false) by (revert E2 E4 E5 E6; clear; by_byte c).
  rewrite Hd in E. destruct (_ || _); [done|]. apply primitive_end_ge in E. lia.
Qed.

(** More fuel than bytes left changes nothing: the loop ends by itself. *)
Lemma loop_fuel js n num f f' p :
  n - pos p < f -> n - pos p < f' -> jsmn_loop f js n num p = jsmn_loop f' js n num p.
Proof.
  revert f' p. induction f as [|f IH]; intros f' p Hf Hf'; [lia|]. destruct f' as [|f']; [lia|].
  cbn [jsmn_loop]. destruct (rd js n (pos p)) as [c|] eqn:E; [|done].
  destruct (jsmn_body p js n num c) as [p'|] eqn:Eb; [|done].
  pose proof (body_progress _ _ _ _ _ _ E Eb).
  assert (pos p < n) by (unfold rd in E; destruct (Nat.ltb_spec (pos p) n); [done|done]).
  apply IH; lia.
Qed.

Lemma parse_step js num p p' :
  jstep js num p p' -> jsmn_parse p js (length js) num = jsmn_parse p' js (length js) num.
Proof.
  intros (c & Hrd & Hb). unfold jsmn_parse at 1. cbn [jsmn_loop]. rewrite Hrd, Hb.
  pose proof (body_progress _ _ _ _ _ _ Hrd Hb).
  assert (pos p < length js) by (unfold rd in Hrd; destruct (Nat.ltb_spec (pos p) (length js)); done).
  apply loop_fuel; lia.
Qed.

Lemma parse_steps js num p p' :
  rtc (jstep js num) p p' -> jsmn_parse p js (length js) num = jsmn_parse p' js (length js) num.
Proof. induction 1 as [|??? H _ IH]; [done|]. by rewrite (parse_step _ _ _ _ H). Qed.

(** * One value, with white space around it *)

Lemma jsmn_parse_value w1 v w2 num :
  ws_ok w1 = true -> ws_ok w2 = true -> jv_ok v = true -> length (toks (len w1) v) <= num ->
  jsmn_parse jsmn_init (w1 ++ text v ++ w2) (length (w1 ++ text v ++ w2)) num =
  (JSMN_COUNT (length (toks (len w1) v)), Parser (length (w1 ++ text v ++ w2)) (-1) (toks (len w1) v)).
Proof.
  intros H1 H2 Hv Hn. set (js := w1 ++ text v ++ w2).
  assert (S1 : rtc (jstep js num) jsmn_init (Parser (length w1) (-1) [])).
  { apply (ws_steps js num w1 [] (text v ++ w2)); done. }
  assert (S2 : rtc (jstep js num) (Parser (length w1) (-1) []) (Parser (length (w1 ++ text v)) (-1) (toks (len w1) v))).
  { pose proof (value_steps js num v w1 w2 (-1)%Z []) as H. cbn [bump app] in H.
    assert (Ha : after v (-1)%Z [] = (-1)%Z) by by destruct v. rewrite Ha in H.
    apply H; try done; [|by left]. rewrite <- (app_nil_r w2). by apply delim_ws. }
  assert (S3 : rtc (jstep js num) (Parser (length (w1 ++ text v)) (-1) (toks (len w1) v))
                 (Parser (length js) (-1) (toks (len w1) v))).
  { unfold js at 2. rewrite app_assoc. eapply (ws_steps js num w2 (w1 ++ text v) []); [|done].
    unfold js. by rewrite app_nil_r, app_assoc. }
  rewrite (parse_steps js num _ _ S1), (parse_steps js num _ _ S2), (parse_steps js num _ _ S3).
  unfold jsmn_parse. cbn [jsmn_loop pos]. rewrite rd_end by lia.
  unfold jsmn_finish, toknext; cbn [tokens].
  pose proof (find_last_closed is_open [] (toks (len w1) v) (toks_closed v (len w1) (len_nonneg w1))) as HF.
  cbn [app length find_last] in HF. by rewrite HF.
Qed.

(** * Resumption with a larger token array *)

Lemma alloc_mono T num num' t T' :
  num <= num' -> jsmn_alloc_token T num t = Some T' -> jsmn_alloc_token T num' t = Some T'.
Proof.
  unfold jsmn_alloc_token. intros Hn H. destruct (Nat.leb_spec num (length T)); [done|].
  by rewrite (proj2 (Nat.leb_gt _ _)) by lia.
Qed.

Lemma body_resume p js n num num' c :
  num <= num' ->
  match jsmn_body p js n num c with
  | Return JSMN_ERROR_NOMEM q => q = p
  | r => jsmn_body p js n num' c = r
  end.
Proof.
  intros Hn. unfold jsmn_body.
  destruct (ch_in c (bs "{[")).
  { unfold open_step. destruct (jsmn_alloc_token _ num _) eqn:E; [|done]. by rewrite (alloc_mono _ _ _ _ _ Hn E). }
  destruct (ch_in c (bs "}]")).
  { unfold close_step. destruct (find_last _ _ _); [|done]. by destruct (type_eqb _ _). }
  destruct (ch_eqb c DQUOTE).
  { unfold leaf_step, jsmn_parse_string. destruct (string_end _ _ _ _); try done.
    destruct (jsmn_alloc_token _ num _) eqn:E; [|done]. by rewrite (alloc_mono _ _ _ _ _ Hn E). }
  destruct (is_space c); [done|]. destruct (ch_in c (bs ":")); [done|].
  destruct (ch_in c (bs ",")); [unfold comma_step; by case_all|].
  unfold leaf_step, jsmn_parse_primitive. destruct (primitive_end _ _ _ _); [|done].
  destruct (jsmn_alloc_token _ num _) eqn:E; [|done]. by rewrite (alloc_mono _ _ _ _ _ Hn E).
Qed.

(** A parse that ran out of tokens can be resumed from where it stopped: the
    result is that of a parse given the larger array from the start. *)
Lemma parse_resume p js n num num' :
  num <= num' ->
  match jsmn_parse p js n num with
  | (JSMN_ERROR_NOMEM, q) => jsmn_parse q js n num' = jsmn_parse p js n num'
  | r => jsmn_parse p js n num' = r
  end.
Proof.
  intros Hn. unfold jsmn_parse at 1.
  assert (Hgo : forall f p, n - pos p < f ->
    match jsmn_loop f js n num p with
    | (JSMN_ERROR_NOMEM, q) => jsmn_parse q js n num' = jsmn_loop f js n num' p
    | r => jsmn_loop f js n num' p = r
    end).
  { clear p. induction f as [|f IH]; intros p Hf; [lia|]. cbn [jsmn_loop].
    destruct (rd js n (pos p)) as [c|] eqn:E; [|by destruct (jsmn_finish p) eqn:Ef; unfold jsmn_finish in Ef; case_all].
    pose proof (body_resume p js n num num' c Hn) as HB.
    destruct (jsmn_body p js n num c) as [p'|r q] eqn:Eb.
    - rewrite HB. assert (pos p < n) by (unfold rd in E; destruct (Nat.ltb_spec (pos p) n); done).
      pose proof (body_progress _ _ _ _ _ _ E Eb). apply IH. lia.
    - destruct r; try (by rewrite HB). subst q.
      unfold jsmn_parse. cbn [jsmn_loop]. rewrite E. destruct (jsmn_body p js n num' c) as [p'|] eqn:Eb'; [|done].
      assert (pos p < n) by (unfold rd in E; destruct (Nat.ltb_spec (pos p) n); done).
      pose proof (body_progress _ _ _ _ _ _ E Eb'). apply loop_fuel; lia. }
  specialize (Hgo (S (n - pos p)) p ltac:(lia)). exact Hgo.
Qed.
