(* ===== verification/Json.v ===== *)
(** common/json.c: access to token arrays, conversions, validation of the
    tokenizer's output, [json_parse_input]/[json_parse_simple] and [json_scan].

    A [const jsmntok_t *] is the suffix of its array that starts at the token;
    a read past the end sees the end marker that [json_parse_input] writes. *)
From S2P Require Import Prelude Utf8 Jsmn.

Definition end_tok : jsmntok := Tok JSMN_END 0 0 0.

Definition cur (tok : list jsmntok) : jsmntok := hd end_tok tok.

(** * Token text *)

(** [json_tok_full]: the offset of the text, the quote of a string included. *)
Definition json_tok_full (t : jsmntok) : Z :=
  if type_eqb (ttype t) JSMN_STRING then tstart t - 1 else tstart t.

Definition json_tok_full_len (t : jsmntok) : Z :=
  if type_eqb (ttype t) JSMN_STRING then tend t - tstart t + 2 else tend t - tstart t.

(** The bytes those two denote in a buffer. *)
Definition tok_full_text (buffer : bytes) (t : jsmntok) : bytes :=
  slice buffer (json_tok_full t) (json_tok_full t + json_tok_full_len t).

(** The bytes between [start] and [end]. *)
Definition tok_text (buffer : bytes) (t : jsmntok) : bytes := slice buffer (tstart t) (tend t).

(** [json_tok_strneq]: [memeq] of the token's bytes and [str]. *)
Definition json_tok_strneq (buffer : bytes) (tok : list jsmntok) (str : bytes) : bool :=
  let t := cur tok in
  if negb (type_eqb (ttype t) JSMN_STRING) then false
  else (tend t - tstart t =? len str)%Z && bool_decide (tok_text buffer t = str).

Definition json_tok_streq (buffer : bytes) (tok : list jsmntok) (str : bytes) : bool :=
  json_tok_strneq buffer tok str.

Definition json_tok_startswith (buffer : bytes) (tok : list jsmntok) (prefix : bytes) : bool :=
  let t := cur tok in
  if negb (type_eqb (ttype t) JSMN_STRING) then false
  else if (tend t - tstart t <? len prefix)%Z then false
  else bool_decide (slice buffer (tstart t) (tstart t + len prefix) = prefix).

Definition json_tok_endswith (buffer : bytes) (tok : list jsmntok) (suffix : bytes) : bool :=
  let t := cur tok in
  if negb (type_eqb (ttype t) JSMN_STRING) then false
  else if (tend t - tstart t <? len suffix)%Z then false
  else bool_decide (slice buffer (tend t - len suffix) (tend t) = suffix).

(** [json_strdup]: [tal_strndup] of the token's bytes. *)
Definition json_strdup (buffer : bytes) (tok : list jsmntok) : bytes :=
  until_nul (tok_text buffer (cur tok)).

(** * Numbers *)

(** [isspace] in the C locale, which [strtoull] skips. *)
Definition isspace (c : ascii) : bool := (code c =? 32)%Z || ((9 <=? code c)%Z && (code c <=? 13)%Z).

Fixpoint skip_space (s : bytes) : nat * bytes :=
  match s with
  | c :: r => if isspace c then let '(n, r') := skip_space r in (S n, r') else (0, s)
  | [] => (0, [])
  end.

(** A digit's value in bases up to 36. *)
Definition digit_value (c : ascii) : option Z :=
  let z := code c in
  if (48 <=? z)%Z && (z <=? 57)%Z then Some (z - 48)%Z
  else if (97 <=? z)%Z && (z <=? 122)%Z then Some (z - 87)%Z
  else if (65 <=? z)%Z && (z <=? 90)%Z then Some (z - 55)%Z
  else None.

(** The longest run of digits of a base: how many, and their value. *)
Fixpoint digits (base : Z) (acc : Z) (s : bytes) : nat * Z :=
  match s with
  | c :: r =>
      match digit_value c with
      | Some d => if (d <? base)%Z then let '(n, v) := digits base (acc * base + d) r in (S n, v) else (0, acc)
      | None => (0, acc)
      end
  | [] => (0, acc)
  end.

(** An optional sign: its length, whether it is a minus, and the rest. *)
Definition take_sign (s : bytes) : nat * bool * bytes :=
  match s with
  | c :: r => if ch_in c (bs "-") then (1, true, r)
              else if ch_in c (bs "+") then (1, false, r) else (0, false, s)
  | [] => (0, false, s)
  end.

(** The common part of [strtoull] and [strtoll] with base 0: the number of
    bytes read (0 when there is no number), the sign, the magnitude. *)
Definition strto (s : bytes) : nat * bool * Z :=
  let '(ns, s1) := skip_space s in
  let '(nsign, neg, s2) := take_sign s1 in
  let '(npre, base, s3) :=
    match s2 with
    | z :: x :: d :: r =>
        if ch_in z (bs "0") && ch_in x (bs "xX") && isxdigit d then (2, 16%Z, d :: r)
        else if ch_in z (bs "0") then (0, 8%Z, s2) else (0, 10%Z, s2)
    | z :: r => if ch_in z (bs "0") then (0, 8%Z, s2) else (0, 10%Z, s2)
    | [] => (0, 10%Z, s2)
    end in
  let '(nd, v) := digits base 0 s3 in
  match nd with
  | O => (0, false, 0%Z)
  | _ => (ns + nsign + npre + nd, neg, v)
  end.

Definition ULLONG_MAX : Z := u64_mod - 1.
Definition LLONG_MAX : Z := 9223372036854775807.
Definition LLONG_MIN : Z := -9223372036854775808.

(** [strtoull]: bytes read, value, and whether errno became ERANGE. *)
Definition strtoull (s : bytes) : nat * Z * bool :=
  let '(n, neg, m) := strto s in
  if (ULLONG_MAX <? m)%Z then (n, ULLONG_MAX, true)
  else (n, if neg then wrap64 (- m) else m, false).

Definition strtoll (s : bytes) : nat * Z * bool :=
  let '(n, neg, m) := strto s in
  let v := if neg then (- m)%Z else m in
  if (LLONG_MAX <? v)%Z then (n, LLONG_MAX, true)
  else if (v <? LLONG_MIN)%Z then (n, LLONG_MIN, true)
  else (n, v, false).

(** [json_to_u64].  The code tests errno without clearing it first: [erange]
    says whether an earlier call left ERANGE there. *)
Definition json_to_u64 (erange : bool) (buffer : bytes) (tok : list jsmntok) : option Z :=
  let t := cur tok in
  let '(n, l, e) := strtoull (drop (Z.to_nat (tstart t)) buffer) in
  if negb (tstart t + Z.of_nat n =? tend t)%Z then None
  else if (l =? ULLONG_MAX)%Z && (e || erange) then None
  else Some l.

Definition json_to_s64 (erange : bool) (buffer : bytes) (tok : list jsmntok) : option Z :=
  let t := cur tok in
  let '(n, l, e) := strtoll (drop (Z.to_nat (tstart t)) buffer) in
  if negb (tstart t + Z.of_nat n =? tend t)%Z then None
  else if ((l =? LLONG_MAX)%Z || (l =? LLONG_MIN)%Z) && (e || erange) then None
  else Some l.

(** A 64-bit value stored into an unsigned type of [m] values and compared back.
    (ULLONG_MAX fits in none of them, so that a stale errno does not matter to
    the functions below; nor does it for [json_to_int].) *)
Definition fits (m : Z) (o : option Z) : option Z :=
  match o with
  | Some u => if (u mod m =? u)%Z then Some (u mod m)%Z else None
  | None => None
  end.

Definition json_to_number (buffer : bytes) (tok : list jsmntok) : option Z :=
  fits u32_mod (json_to_u64 false buffer tok).
Definition json_to_u16 (buffer : bytes) (tok : list jsmntok) : option Z :=
  fits 65536 (json_to_u64 false buffer tok).
Definition json_to_u32 (buffer : bytes) (tok : list jsmntok) : option Z :=
  fits u32_mod (json_to_u64 false buffer tok).

(** A 64-bit value stored into an [int] and compared back. *)
Definition json_to_int (buffer : bytes) (tok : list jsmntok) : option Z :=
  match json_to_s64 false buffer tok with
  | Some v => if (-2147483648 <=? v)%Z && (v <=? 2147483647)%Z then Some v else None
  | None => None
  end.
Definition json_to_errcode (buffer : bytes) (tok : list jsmntok) : option Z := json_to_int buffer tok.

Definition add_overflows_u64 (a b : Z) : bool := (wrap64 (a + b) <? a)%Z.
Definition mul_overflows_u64 (a b : Z) : bool :=
  if (a =? 0)%Z then false else negb (wrap64 (a * b) / a =? b)%Z.

(** The digit loop of [json_to_millionths]. *)
Fixpoint millionths_go (s : bytes) (decimal_places : Z) (has_digits : bool) (m : Z)
  : option (Z * bool * Z) :=
  match s with
  | [] => Some (decimal_places, has_digits, m)
  | c :: r =>
      if isdigit c then
        let places := if (0 <=? decimal_places)%Z then (decimal_places + 1)%Z else decimal_places in
        if (0 <=? decimal_places)%Z && (6 <? places)%Z then millionths_go r places true m
        else if mul_overflows_u64 m 10 then None
        else if add_overflows_u64 (m * 10) (code c - 48) then None
        else millionths_go r places true (m * 10 + (code c - 48))
      else if ch_in c (bs ".") then
        if negb (decimal_places =? -1)%Z then None else millionths_go r 0 has_digits m
      else None
  end.

(** [while (decimal_places < 6)] *)
Fixpoint millionths_scale (fuel : nat) (decimal_places m : Z) : option Z :=
  match fuel with
  | O => Some m
  | S f =>
      if (decimal_places <? 6)%Z then
        if mul_overflows_u64 m 10 then None else millionths_scale f (decimal_places + 1) (m * 10)
      else Some m
  end.

Definition json_to_millionths (buffer : bytes) (tok : list jsmntok) : option Z :=
  match millionths_go (tok_text buffer (cur tok)) (-1) false 0 with
  | Some (places, true, m) =>
      millionths_scale 6 (if (places =? -1)%Z then 0 else places) m
  | _ => None
  end.

Definition json_to_bool (buffer : bytes) (tok : list jsmntok) : option bool :=
  let t := cur tok in
  if negb (type_eqb (ttype t) JSMN_PRIMITIVE) then None
  else if bool_decide (tok_text buffer t = bs "true") then Some true
  else if bool_decide (tok_text buffer t = bs "false") then Some false
  else None.

Definition json_tok_is_num (buffer : bytes) (tok : list jsmntok) : bool :=
  let t := cur tok in
  if negb (type_eqb (ttype t) JSMN_PRIMITIVE) then false else forallb isdigit (tok_text buffer t).

(** [json_tok_is_null]: only the first byte is looked at. *)
Definition json_tok_is_null (buffer : bytes) (tok : list jsmntok) : bool :=
  let t := cur tok in
  if negb (type_eqb (ttype t) JSMN_PRIMITIVE) then false
  else match buffer !! Z.to_nat (tstart t) with
       | Some c => ch_in c (bs "n")
       | None => false
       end.

(** * Moving through the array *)

(** [json_next]; the recursion is bounded by the number of tokens left. *)
Fixpoint json_next_go (fuel : nat) (tok : list jsmntok) : list jsmntok :=
  match fuel with
  | O => []
  | S f =>
      match tok with
      | [] => []
      | t :: r => Nat.iter (Z.to_nat (tsize t)) (json_next_go f) r
      end
  end.

Definition json_next (tok : list jsmntok) : list jsmntok := json_next_go (length tok) tok.

(** The tokens [json_for_each_arr] visits. *)
Fixpoint arr_iter (n : nat) (t : list jsmntok) : list (list jsmntok) :=
  match n with
  | O => []
  | S m => t :: arr_iter m (json_next t)
  end.
Definition json_for_each_arr (arr : list jsmntok) : list (list jsmntok) :=
  arr_iter (Z.to_nat (tsize (cur arr))) (tl arr).

(** The keys [json_for_each_obj] visits; [t + 1] is the value of key [t]. *)
Fixpoint obj_iter (n : nat) (t : list jsmntok) : list (list jsmntok) :=
  match n with
  | O => []
  | S m => t :: obj_iter m (json_next (tl t))
  end.
Definition json_for_each_obj (obj : list jsmntok) : list (list jsmntok) :=
  obj_iter (Z.to_nat (tsize (cur obj))) (tl obj).

Definition json_get_membern (buffer : bytes) (tok : list jsmntok) (label : bytes) : option (list jsmntok) :=
  if negb (type_eqb (ttype (cur tok)) JSMN_OBJECT) then None
  else tl <$> List.find (fun t => json_tok_strneq buffer t label) (json_for_each_obj tok).

Definition json_get_member (buffer : bytes) (tok : list jsmntok) (label : bytes) : option (list jsmntok) :=
  json_get_membern buffer tok label.

Definition json_get_arr (tok : list jsmntok) (index : nat) : option (list jsmntok) :=
  if negb (type_eqb (ttype (cur tok)) JSMN_ARRAY) then None
  else json_for_each_arr tok !! index.

(** [json_tok_copy]: the tokens of one value. *)
Definition json_tok_copy (tok : list jsmntok) : list jsmntok :=
  take (length tok - length (json_next tok)) tok.

(** * Validation of the tokenizer's output

    [p] and [end] bound the tokens still to read: here [p] is the list of
    them.  The result is the remaining list and the flag. *)

Fixpoint iter_valid (n : nat) (f : list jsmntok -> list jsmntok * bool) (p : list jsmntok)
  : list jsmntok * bool :=
  match n with
  | O => (p, true)
  | S m => let '(p', ok) := f p in if ok then iter_valid m f p' else (p', false)
  end.

Definition validate_keyvalue_with (datum : list jsmntok -> list jsmntok * bool)
    (buf : bytes) (p : list jsmntok) : list jsmntok * bool :=
  match p with
  | [] => (p, false)
  | t :: r =>
      if negb (type_eqb (ttype t) JSMN_STRING) || negb (tsize t =? 1)%Z || negb (utf8_check (tok_text buf t))
      then (p, false)
      else datum r
  end.

Fixpoint validate_jsmn_datum (fuel : nat) (buf : bytes) (p : list jsmntok) : list jsmntok * bool :=
  match fuel with
  | O => (p, false)
  | S f =>
      match p with
      | [] => (p, false)
      | t :: r =>
          match ttype t with
          | JSMN_STRING =>
              if negb (tsize t =? 0)%Z then (p, false) else (r, utf8_check (tok_text buf t))
          | JSMN_UNDEFINED | JSMN_PRIMITIVE => if negb (tsize t =? 0)%Z then (p, false) else (r, true)
          | JSMN_ARRAY => iter_valid (Z.to_nat (tsize t)) (validate_jsmn_datum f buf) r
          | JSMN_OBJECT =>
              iter_valid (Z.to_nat (tsize t)) (validate_keyvalue_with (validate_jsmn_datum f buf) buf) r
          | JSMN_END => (p, false)
          end
      end
  end.

Definition validate_jsmn_keyvalue (fuel : nat) (buf : bytes) (p : list jsmntok) : list jsmntok * bool :=
  validate_keyvalue_with (validate_jsmn_datum fuel buf) buf p.

(** [while (p < end && valid)] *)
Fixpoint validate_loop (fuel : nat) (buf : bytes) (p : list jsmntok) : bool :=
  match fuel with
  | O => true
  | S f =>
      match p with
      | [] => true
      | _ => let '(p', ok) := validate_jsmn_datum (length p) buf p in if ok then validate_loop f buf p' else false
      end
  end.

Definition validate_jsmn_parse_output (buf : bytes) (p : list jsmntok) : bool :=
  validate_loop (S (length p)) buf p.

(** * Parsing *)

Inductive parse_result : Type :=
| PInvalid                             (* returns false *)
| PPartial                             (* returns true with *complete = false *)
| PComplete (toks : list jsmntok).     (* returns true with *complete = true *)

(** The [again:] loop: [ntoks] is [tal_count( *toks)], doubled on NOMEM. *)
Fixpoint parse_again (fuel : nat) (p : jsmn_parser) (input : bytes) (n ntoks : nat)
  : option (jsmn_ret * jsmn_parser * nat) :=
  match fuel with
  | O => None
  | S f =>
      match jsmn_parse p input n (ntoks - 1) with
      | (JSMN_ERROR_NOMEM, p') => parse_again f p' input n (ntoks * 2)
      | r => Some (r, ntoks)
      end
  end.

(** [json_parse_input] from a parser and a token array of [ntoks] entries: the
    result, and what the two are afterwards.  Each retry doubles the array, and
    [n + 2] entries are always enough, so [n + 2] attempts are. *)
Definition json_parse_input (p : jsmn_parser) (ntoks : nat) (input : bytes) (n : nat)
  : parse_result * jsmn_parser * nat :=
  match parse_again (S (S n)) p input n ntoks with
  | None => (PInvalid, p, ntoks)
  | Some (JSMN_ERROR_INVAL, p', ntoks') => (PInvalid, p', ntoks')
  | Some (_, p', ntoks') =>
      match tokens p' with
      | [] => (PPartial, p', ntoks')
      | t :: _ =>
          if type_eqb (ttype t) JSMN_UNDEFINED || (tend t =? -1)%Z then (PPartial, p', ntoks')
          else
            let ret := length (tokens p') - length (json_next (tokens p')) in
            let root := take ret (tokens p') in
            if validate_jsmn_parse_output input root then (PComplete (root ++ [end_tok]), p', S ret)
            else (PInvalid, p', ntoks')
      end
  end.

(** [toks_alloc]: ten entries, the first marked undefined. *)
Definition TOKS_ALLOC : nat := 10.

Definition json_parse_simple (input : bytes) (n : nat) : option (list jsmntok) :=
  match (json_parse_input jsmn_init TOKS_ALLOC input n).1.1 with
  | PComplete toks => Some toks
  | _ => None
  end.
