(* ===== verification/JsonProofs.v ===== *)
(** Facts about common/json.c on token arrays that come from a JSON text:
    [json_next] skips one value, the token's text is the value's text, the
    iteration macros visit the children, [json_get_member] finds the first
    member with the label, the validator accepts what the tokenizer makes. *)
From S2P Require Import Prelude Utf8 Jsmn JsonTree JsmnProofs Json.

(** [buf] and [tk] hold the value [v]: its text is in [buf] at the offset its
    tokens say, followed by the end or by a byte that ends a primitive, and
    [tk] starts with them. *)
Definition holds (buf : bytes) (tk : list jsmntok) (v : jv) : Prop :=
  exists pre post rest,
    buf = pre ++ text v ++ post /\ tk = toks (len pre) v ++ rest /\ delim_next post /\ jv_ok v = true.

(** * Slices *)

Lemma slice_mid (pre s post : bytes) :
  slice (pre ++ s ++ post) (len pre) (len pre + len s) = s.
Proof.
  unfold slice, len.
  replace (Z.to_nat (Z.of_nat (length pre) + Z.of_nat (length s) - Z.of_nat (length pre))) with (length s) by lia.
  rewrite Nat2Z.id, drop_app_length. apply take_app_length.
Qed.

(** A slice given by any offsets that happen to be those of [s]. *)
Lemma slice_at (pre s post : bytes) a b :
  a = len pre -> b = (len pre + len s)%Z -> slice (pre ++ s ++ post) a b = s.
Proof. intros -> ->. apply slice_mid. Qed.

(** * [json_next] *)

Lemma json_next_go_toks v : forall off rest f,
  length (toks off v) <= f -> json_next_go f (toks off v ++ rest) = rest.
Proof.
  induction v as [s|s|w es IH|w ms IH] using jv_ind; intros off rest f Hf; simpl in Hf;
    (destruct f as [|f]; [lia|]).
  - done.
  - done.
  - rewrite toks_arr in *. cbn [json_next_go app tsize]. rewrite Nat2Z.id. cbn [length] in Hf.
    change (length (elems_toks (off + 1 + len w) es) < S f) in Hf.
    revert Hf. generalize (off + 1 + len w)%Z as o.
    induction IH as [|e r He _ IHr]; intros o Hf; [done|]. cbn [length elems_toks] in *.
    rewrite length_app in Hf. rewrite Nat.iter_succ_r, <- app_assoc, He by lia. apply IHr. lia.
  - rewrite toks_obj in *. cbn [json_next_go app tsize]. rewrite Nat2Z.id. cbn [length] in Hf.
    change (length (members_toks (off + 1 + len w) ms) < S f) in Hf.
    revert Hf. generalize (off + 1 + len w)%Z as o.
    induction IH as [|e r He _ IHr]; intros o Hf; [done|]. cbn [length members_toks] in *.
    rewrite length_app in Hf. rewrite Nat.iter_succ_r. rewrite <- app_comm_cons, <- app_assoc.
    destruct f as [|f]; [lia|]. cbn [json_next_go tsize]. change (Z.to_nat 1) with 1. cbn [Nat.iter nat_rect].
    rewrite He by lia. apply IHr. lia.
Qed.

Lemma json_next_toks off v rest : json_next (toks off v ++ rest) = rest.
Proof. unfold json_next. apply json_next_go_toks. rewrite length_app. lia. Qed.

Lemma json_next_key off v rest t :
  tsize t = 1%Z -> json_next (t :: toks off v ++ rest) = rest.
Proof.
  intros Ht. unfold json_next. cbn [length json_next_go]. rewrite Ht. simpl.
  apply json_next_go_toks. rewrite length_app. lia.
Qed.

Lemma json_tok_copy_toks off v rest : json_tok_copy (toks off v ++ rest) = toks off v.
Proof.
  unfold json_tok_copy. rewrite json_next_toks, length_app, Nat.add_sub. apply take_app_length.
Qed.

(** * The token of a value *)

Lemma cur_toks off v rest : cur (toks off v ++ rest) = cur (toks off v).
Proof. by destruct v. Qed.

Lemma full_offset off v : json_tok_full (cur (toks off v)) = off.
Proof. destruct v; unfold json_tok_full; simpl; lia. Qed.

Lemma full_length off v : json_tok_full_len (cur (toks off v)) = len (text v).
Proof. destruct v; unfold json_tok_full_len; simpl; rewrite ?len_quoted; lia. Qed.

Lemma tok_full_text_holds pre v post rest :
  tok_full_text (pre ++ text v ++ post) (cur (toks (len pre) v ++ rest)) = text v.
Proof. unfold tok_full_text. rewrite cur_toks, full_offset, full_length. apply slice_mid. Qed.

(** The text between [start] and [end]: the body of a string, the whole text
    of anything else. *)
Definition body (v : jv) : bytes :=
  match v with JStr s => s | _ => text v end.

Lemma tok_text_holds pre v post rest :
  tok_text (pre ++ text v ++ post) (cur (toks (len pre) v ++ rest)) = body v.
Proof.
  rewrite cur_toks. unfold tok_text. destruct v; cbn [toks cur hd tstart tend body text]; try apply slice_mid.
  unfold quoted. change (pre ++ (DQUOTE :: s ++ [DQUOTE]) ++ post) with (pre ++ [DQUOTE] ++ (s ++ [DQUOTE]) ++ post).
  rewrite app_assoc, <- (app_assoc s). apply slice_at; rewrite len_app; unfold len; simpl; lia.
Qed.

Lemma first_byte_holds pre v post rest :
  jv_ok v = true ->
  (pre ++ text v ++ post) !! Z.to_nat (json_tok_full (cur (toks (len pre) v ++ rest))) = head (text v).
Proof.
  intros Hv. rewrite cur_toks, full_offset. unfold len. rewrite Nat2Z.id, lookup_app_r, Nat.sub_diag by lia.
  destruct v as [[|]| | |]; simpl in *; try done.
Qed.

(** * Children *)

Lemma elems_text_cons e r Q :
  exists Q', elems_text (e :: r) ++ Q = elem_text e ++ Q'
    /\ (r <> [] -> Q' = bs "," ++ elems_text r ++ Q) /\ (delim_next Q -> delim_next Q').
Proof.
  unfold elems_text. destruct r as [|e2 r]; cbn [map comma_join].
  - by exists Q.
  - exists (bs "," ++ comma_join (elem_text e2 :: map elem_text r) ++ Q). by rewrite <- !app_assoc.
Qed.

Lemma arr_iter_holds buf es : forall P Q rest,
  buf = P ++ elems_text es ++ Q -> forallb elem_ok es = true -> delim_next Q ->
  Forall2 (holds buf) (arr_iter (length es) (elems_toks (len P) es ++ rest)) (map e_val es).
Proof.
  induction es as [|e r IH]; intros P Q rest Hb Hok Hd; [constructor|].
  cbn [forallb] in Hok. apply andb_true_iff in Hok as [He Hr].
  destruct (elems_text_cons e r Q) as (Q' & HQ & HQr & HQd). rewrite HQ in Hb.
  cbn [length arr_iter elems_toks map]. rewrite <- app_assoc.
  assert (Hoff : (len P + len (e_lead e))%Z = len (P ++ e_lead e)) by (by rewrite len_app).
  constructor.
  - exists (P ++ e_lead e), (e_trail e ++ Q'), (elems_toks (len P + len (elem_text e) + 1) r ++ rest).
    rewrite Hb, Hoff. unfold elem_text, elem_ok in *. rewrite <- !app_assoc.
    apply andb_true_iff in He as [He Ht]. apply andb_true_iff in He as [_ He].
    split_and!; [done|done|apply delim_ws; auto|done].
  - rewrite json_next_toks. destruct r as [|e2 r]; [constructor|].
    rewrite (HQr ltac:(done)) in Hb.
    replace (len P + len (elem_text e) + 1)%Z with (len (P ++ elem_text e ++ bs ",")).
    2: { rewrite !len_app. change (len (bs ",")) with 1%Z. lia. }
    apply (IH (P ++ elem_text e ++ bs ",") Q); [|done|done]. by rewrite Hb, <- !app_assoc.
Qed.

(** The elements of an array, in order. *)
Lemma for_each_arr_holds pre w es post rest :
  jv_ok (JArr w es) = true ->
  Forall2 (holds (pre ++ text (JArr w es) ++ post))
    (json_for_each_arr (toks (len pre) (JArr w es) ++ rest)) (map e_val es).
Proof.
  intros Hok. unfold json_for_each_arr. rewrite cur_toks. rewrite toks_arr. cbn [cur hd tsize tl app].
  rewrite Nat2Z.id. replace (len pre + 1 + len w)%Z with (len (pre ++ bs "[" ++ w)).
  2: { rewrite !len_app. change (len (bs "[")) with 1%Z. lia. }
  apply (arr_iter_holds _ es (pre ++ bs "[" ++ w) (bs "]" ++ post)).
  - rewrite text_arr. by rewrite <- !app_assoc.
  - cbn [jv_ok] in Hok. apply andb_true_iff in Hok as [_ ?]. done.
  - done.
Qed.

(** [t] is the key token of member [m], its value's tokens follow. *)
Definition holds_member (buf : bytes) (t : list jsmntok) (m : jmember) : Prop :=
  ttype (cur t) = JSMN_STRING /\ tsize (cur t) = 1%Z /\ tok_text buf (cur t) = m_key m
  /\ (tend (cur t) - tstart (cur t))%Z = len (m_key m)
  /\ str_ok (m_key m) = true /\ holds buf (tl t) (m_val m).

Lemma members_text_cons m r Q :
  exists Q', members_text (m :: r) ++ Q = member_text m ++ Q'
    /\ (r <> [] -> Q' = bs "," ++ members_text r ++ Q) /\ (delim_next Q -> delim_next Q').
Proof.
  unfold members_text. destruct r as [|m2 r]; cbn [map comma_join].
  - by exists Q.
  - exists (bs "," ++ comma_join (member_text m2 :: map member_text r) ++ Q). by rewrite <- !app_assoc.
Qed.

Lemma member_ok_parts m :
  member_ok m = true -> str_ok (m_key m) = true /\ jv_ok (m_val m) = true.
Proof. unfold member_ok. rewrite !andb_true_iff. tauto. Qed.

Lemma member_holds P m Q rest :
  member_ok m = true -> delim_next Q ->
  holds_member (P ++ member_text m ++ Q)
    (Tok JSMN_STRING (key_off (len P) m) (key_off (len P) m + len (m_key m)) 1
     :: toks (val_off (len P) m) (m_val m) ++ rest) m.
Proof.
  intros Hm Hd. assert (Ht : ws_ok (m_trail m) = true) by (unfold member_ok in Hm; rewrite !andb_true_iff in Hm; tauto).
  apply member_ok_parts in Hm as [Hk Hv]. unfold holds_member. cbn [cur hd ttype tsize tstart tend tl].
  split_and!; try done; [|lia|].
  - unfold tok_text. cbn [tstart tend]. unfold member_text, quoted.
    replace (P ++ (m_lead m ++ (DQUOTE :: m_key m ++ [DQUOTE]) ++ m_w1 m ++ bs ":" ++ m_w2 m ++ text (m_val m) ++ m_trail m) ++ Q)
      with ((P ++ m_lead m ++ [DQUOTE]) ++ m_key m ++ ([DQUOTE] ++ m_w1 m ++ bs ":" ++ m_w2 m ++ text (m_val m) ++ m_trail m ++ Q))
      by (rewrite <- !app_assoc; cbn [app]; by rewrite <- !app_assoc).
    unfold key_off. apply slice_at; rewrite !len_app; unfold len; simpl; lia.
  - exists (P ++ m_lead m ++ quoted (m_key m) ++ m_w1 m ++ bs ":" ++ m_w2 m), (m_trail m ++ Q), rest.
    unfold member_text, val_off. rewrite <- !app_assoc, (len_app P). split_and!; [done|done|by apply delim_ws|done].
Qed.

Lemma obj_iter_holds buf ms : forall P Q rest,
  buf = P ++ members_text ms ++ Q -> forallb member_ok ms = true -> delim_next Q ->
  Forall2 (holds_member buf) (obj_iter (length ms) (members_toks (len P) ms ++ rest)) ms.
Proof.
  induction ms as [|m r IH]; intros P Q rest Hb Hok Hd; [constructor|].
  cbn [forallb] in Hok. apply andb_true_iff in Hok as [Hm Hr].
  destruct (members_text_cons m r Q) as (Q' & HQ & HQr & HQd). rewrite HQ in Hb.
  cbn [length obj_iter members_toks app]. rewrite <- app_assoc. constructor.
  - rewrite Hb. apply member_holds; auto.
  - cbn [tl]. rewrite json_next_toks. destruct r as [|m2 r]; [constructor|].
    rewrite (HQr ltac:(done)) in Hb.
    replace (len P + len (member_text m) + 1)%Z with (len (P ++ member_text m ++ bs ",")).
    2: { rewrite !len_app. change (len (bs ",")) with 1%Z. lia. }
    apply (IH (P ++ member_text m ++ bs ",") Q); [|done|done]. by rewrite Hb, <- !app_assoc.
Qed.

(** The members of an object, in order. *)
Lemma for_each_obj_holds pre w ms post rest :
  jv_ok (JObj w ms) = true ->
  Forall2 (holds_member (pre ++ text (JObj w ms) ++ post))
    (json_for_each_obj (toks (len pre) (JObj w ms) ++ rest)) ms.
Proof.
  intros Hok. unfold json_for_each_obj. rewrite cur_toks. rewrite toks_obj. cbn [cur hd tsize tl app].
  rewrite Nat2Z.id. replace (len pre + 1 + len w)%Z with (len (pre ++ bs "{" ++ w)).
  2: { rewrite !len_app. change (len (bs "{")) with 1%Z. lia. }
  apply (obj_iter_holds _ ms (pre ++ bs "{" ++ w) (bs "}" ++ post)).
  - rewrite text_obj. by rewrite <- !app_assoc.
  - cbn [jv_ok] in Hok. apply andb_true_iff in Hok as [_ ?]. done.
  - done.
Qed.

Lemma holds_member_streq buf t m s :
  holds_member buf t m -> json_tok_strneq buf t s = bool_decide (m_key m = s).
Proof.
  intros (Ht & _ & Hk & Hl & _). unfold json_tok_strneq. rewrite Ht, Hl, Hk. simpl.
  case_bool_decide as E; [rewrite E, Z.eqb_refl; done|]. by rewrite andb_false_r.
Qed.

(** The value of the first member with the label. *)
Definition member_of (ms : list jmember) (label : bytes) : option jv :=
  m_val <$> List.find (fun m => bool_decide (m_key m = label)) ms.

Lemma find_Forall2 {A B : Type} (R : A -> B -> Prop) (f : A -> bool) (g : B -> bool) l k :
  Forall2 R l k -> (forall a b, R a b -> f a = g b) ->
  option_Forall2 R (List.find f l) (List.find g k).
Proof.
  intros H Hfg. induction H as [|a b l k Hab _ IH]; simpl; [constructor|].
  rewrite (Hfg a b Hab). destruct (g b); [by constructor|done].
Qed.

Lemma option_Forall2_map {A B A' B' : Type} (R : A -> B -> Prop) (S : A' -> B' -> Prop) f g x y :
  option_Forall2 R x y -> (forall a b, R a b -> S (f a) (g b)) -> option_Forall2 S (f <$> x) (g <$> y).
Proof. intros [a b H|] HS; simpl; constructor. by apply HS. Qed.

Lemma json_get_member_holds pre w ms post rest label :
  jv_ok (JObj w ms) = true ->
  option_Forall2 (holds (pre ++ text (JObj w ms) ++ post))
    (json_get_member (pre ++ text (JObj w ms) ++ post) (toks (len pre) (JObj w ms) ++ rest) label)
    (member_of ms label).
Proof.
  intros Hok. unfold json_get_member, json_get_membern, member_of.
  assert (Ht : ttype (cur (toks (len pre) (JObj w ms) ++ rest)) = JSMN_OBJECT) by done. rewrite Ht. cbn [negb type_eqb].
  apply (option_Forall2_map (holds_member (pre ++ text (JObj w ms) ++ post))).
  - apply (find_Forall2 _ _ _ _ _ (for_each_obj_holds pre w ms post rest Hok)).
    intros t m Hm. by apply holds_member_streq.
  - by intros t m (_ & _ & _ & _ & _ & ?).
Qed.

Lemma json_get_member_not_obj buf tk label :
  ttype (cur tk) <> JSMN_OBJECT -> json_get_member buf tk label = None.
Proof. intros H. unfold json_get_member, json_get_membern. by destruct (ttype (cur tk)). Qed.

Lemma json_get_arr_holds pre w es post rest i :
  jv_ok (JArr w es) = true ->
  option_Forall2 (holds (pre ++ text (JArr w es) ++ post))
    (json_get_arr (toks (len pre) (JArr w es) ++ rest) i) (map e_val es !! i).
Proof.
  intros Hok. unfold json_get_arr.
  assert (Ht : ttype (cur (toks (len pre) (JArr w es) ++ rest)) = JSMN_ARRAY) by done. rewrite Ht. cbn [negb type_eqb].
  apply Forall2_lookup. by apply for_each_arr_holds.
Qed.

(** * The validator accepts the tokens of a well-formed text *)

Lemma str_ok_utf8 s : str_ok s = true -> utf8_check s = true.
Proof. unfold str_ok. by intros [_ ?]%andb_true_iff. Qed.

Lemma iter_valid_elems buf es : forall P Q rest f,
  buf = P ++ elems_text es ++ Q -> forallb elem_ok es = true ->
  Forall (fun e => forall pre post rest, buf = pre ++ text (e_val e) ++ post -> jv_ok (e_val e) = true ->
    validate_jsmn_datum f buf (toks (len pre) (e_val e) ++ rest) = (rest, true)) es ->
  iter_valid (length es) (validate_jsmn_datum f buf) (elems_toks (len P) es ++ rest) = (rest, true).
Proof.
  induction es as [|e r IH]; intros P Q rest f Hb Hok Hes; [done|].
  cbn [forallb] in Hok. apply andb_true_iff in Hok as [He Hr].
  destruct (elems_text_cons e r Q) as (Q' & HQ & HQr & HQd). rewrite HQ in Hb.
  apply Forall_cons in Hes as [Hv Hes]. cbn [length iter_valid elems_toks]. rewrite <- app_assoc.
  replace (len P + len (e_lead e))%Z with (len (P ++ e_lead e)) by (by rewrite len_app).
  unfold elem_ok in He. apply andb_true_iff in He as [He _]. apply andb_true_iff in He as [_ He].
  rewrite (Hv (P ++ e_lead e) (e_trail e ++ Q')); [|by rewrite Hb; unfold elem_text; rewrite <- !app_assoc|done].
  destruct r as [|e2 r]; [done|]. rewrite (HQr ltac:(done)) in Hb.
  replace (len P + len (elem_text e) + 1)%Z with (len (P ++ elem_text e ++ bs ",")).
  2: { rewrite !len_app. change (len (bs ",")) with 1%Z. lia. }
  apply (IH _ Q); [|done|done]. by rewrite Hb, <- !app_assoc.
Qed.

Lemma iter_valid_members buf ms : forall P Q rest f,
  buf = P ++ members_text ms ++ Q -> forallb member_ok ms = true -> delim_next Q ->
  Forall (fun e => forall pre post rest, buf = pre ++ text (m_val e) ++ post -> jv_ok (m_val e) = true ->
    validate_jsmn_datum f buf (toks (len pre) (m_val e) ++ rest) = (rest, true)) ms ->
  iter_valid (length ms) (validate_keyvalue_with (validate_jsmn_datum f buf) buf)
    (members_toks (len P) ms ++ rest) = (rest, true).
Proof.
  induction ms as [|m r IH]; intros P Q rest f Hb Hok Hd Hes; [done|].
  cbn [forallb] in Hok. apply andb_true_iff in Hok as [He Hr].
  destruct (members_text_cons m r Q) as (Q' & HQ & HQr & HQd). rewrite HQ in Hb.
  apply Forall_cons in Hes as [Hv Hes]. cbn [length iter_valid members_toks app]. rewrite <- app_assoc.
  pose proof (member_holds P m Q' (members_toks (len P + len (member_text m) + 1) r ++ rest) He (HQd Hd))
    as (_ & _ & Hk & _ & Hs & (pre & post & rest' & Hb' & Ht & _ & Hok')). rewrite <- Hb in *.
  cbn [cur hd tl] in Hk, Ht. unfold validate_keyvalue_with at 1. cbn [ttype tsize]. rewrite Hk, str_ok_utf8 by done.
  cbn [type_eqb negb orb Z.eqb Pos.eqb]. rewrite Ht, (Hv pre post) by done.
  assert (E : rest' = members_toks (len P + len (member_text m) + 1) r ++ rest).
  { rewrite <- (json_next_toks (len pre) (m_val m) rest'), <- Ht. by rewrite json_next_toks. }
  rewrite E. destruct r as [|m2 r]; [done|]. rewrite (HQr ltac:(done)) in Hb.
  replace (len P + len (member_text m) + 1)%Z with (len (P ++ member_text m ++ bs ",")).
  2: { rewrite !len_app. change (len (bs ",")) with 1%Z. lia. }
  apply (IH _ Q); [|done|done|done]. by rewrite Hb, <- !app_assoc.
Qed.

Lemma elems_toks_child o es e : In e es -> exists o', length (toks o' (e_val e)) <= length (elems_toks o es).
Proof.
  revert o. induction es as [|x r IH]; intros o; [done|]. intros [->|H]; cbn [elems_toks]; rewrite length_app.
  - eexists; apply Nat.le_add_r.
  - destruct (IH (o + len (elem_text x) + 1)%Z H) as [o' Ho]. exists o'. lia.
Qed.

Lemma members_toks_child o ms m : In m ms -> exists o', length (toks o' (m_val m)) < length (members_toks o ms).
Proof.
  revert o. induction ms as [|x r IH]; intros o; [done|]. intros [->|H]; cbn [members_toks length]; rewrite length_app.
  - exists (val_off o m). lia.
  - destruct (IH (o + len (member_text x) + 1)%Z H) as [o' Ho]. exists o'. lia.
Qed.

(** The number of tokens does not depend on the offset. *)
Lemma toks_length o o' v : length (toks o v) = length (toks o' v).
Proof.
  revert o o'. induction v as [s|s|w es IH|w ms IH] using jv_ind; intros o o'; [done|done| |].
  - rewrite !toks_arr. cbn [length]. f_equal. generalize (o + 1 + len w)%Z (o' + 1 + len w)%Z.
    induction IH as [|e r He _ IHr]; intros a b; [done|]. cbn [elems_toks]. rewrite !length_app. auto.
  - rewrite !toks_obj. cbn [length]. f_equal. generalize (o + 1 + len w)%Z (o' + 1 + len w)%Z.
    induction IH as [|e r He _ IHr]; intros a b; [done|]. cbn [members_toks length]. rewrite !length_app. f_equal. auto.
Qed.

Lemma validate_datum_toks buf v : forall f pre post rest,
  buf = pre ++ text v ++ post -> jv_ok v = true -> length (toks 0 v) <= f ->
  validate_jsmn_datum f buf (toks (len pre) v ++ rest) = (rest, true).
Proof.
  induction v as [s|s|w es IH|w ms IH] using jv_ind; intros f pre post rest Hb Hok Hf;
    (destruct f as [|f]; [simpl in Hf; lia|]).
  - done.
  - simpl. pose proof (tok_text_holds pre (JStr s) post rest) as Ht. rewrite <- Hb in Ht. cbn [body] in Ht.
    simpl in Ht. rewrite Ht, str_ok_utf8; done.
  - rewrite toks_arr in *. cbn [app validate_jsmn_datum ttype tsize]. rewrite Nat2Z.id.
    replace (len pre + 1 + len w)%Z with (len (pre ++ bs "[" ++ w)).
    2: { rewrite !len_app. change (len (bs "[")) with 1%Z. lia. }
    cbn [jv_ok] in Hok. apply andb_true_iff in Hok as [_ Hes].
    apply (iter_valid_elems _ es _ (bs "]" ++ post)); [rewrite Hb, text_arr; by rewrite <- !app_assoc|done|].
    apply Forall_forall. intros e He. rewrite Forall_forall in IH. intros. eapply IH; [done|done|done|].
    apply list_elem_of_In in He. destruct (elems_toks_child (0 + 1 + len w) es e He) as [o' Ho].
    rewrite (toks_length 0 o'). cbn [length] in Hf. lia.
  - rewrite toks_obj in *. cbn [app validate_jsmn_datum ttype tsize]. rewrite Nat2Z.id.
    replace (len pre + 1 + len w)%Z with (len (pre ++ bs "{" ++ w)).
    2: { rewrite !len_app. change (len (bs "{")) with 1%Z. lia. }
    cbn [jv_ok] in Hok. apply andb_true_iff in Hok as [_ Hes].
    apply (iter_valid_members _ ms _ (bs "}" ++ post)); [rewrite Hb, text_obj; by rewrite <- !app_assoc|done|done|].
    apply Forall_forall. intros e He. rewrite Forall_forall in IH. intros. eapply IH; [done|done|done|].
    apply list_elem_of_In in He. destruct (members_toks_child (0 + 1 + len w) ms e He) as [o' Ho].
    rewrite (toks_length 0 o'). cbn [length] in Hf. lia.
Qed.

Lemma validate_toks pre v post :
  jv_ok v = true -> validate_jsmn_parse_output (pre ++ text v ++ post) (toks (len pre) v) = true.
Proof.
  intros Hv. unfold validate_jsmn_parse_output. cbn [validate_loop].
  destruct (toks (len pre) v) as [|t r] eqn:E; [done|]. rewrite <- E.
  pose proof (validate_datum_toks (pre ++ text v ++ post) v (length (toks (len pre) v)) pre post [] eq_refl Hv) as H.
  rewrite app_nil_r in H. rewrite H by (rewrite (toks_length 0 (len pre)); lia).
  destruct (length (toks (len pre) v)); done.
Qed.

(** * [json_parse_simple] *)

(** Each token takes at least one byte, so the array never has to be larger
    than the text. *)
Lemma toks_le_text v : forall off, jv_ok v = true -> length (toks off v) <= length (text v).
Proof.
  induction v as [s|s|w es IH|w ms IH] using jv_ind; intros off Hok.
  - destruct s; simpl in *; [done|lia].
  - simpl. lia.
  - rewrite toks_arr, text_arr. cbn [length jv_ok] in *. apply andb_true_iff in Hok as [_ Hes].
    assert (H : forall o, length (elems_toks o es) <= length (elems_text es)).
    { clear -IH Hes. induction IH as [|e r He _ IHr]; intros o; [done|]. cbn [forallb] in Hes.
      apply andb_true_iff in Hes as [H1 H2]. apply andb_true_iff in H1 as [H1 _]. apply andb_true_iff in H1 as [_ H1].
      destruct (elems_text_cons e r []) as (Q & HQ & HQr & _). rewrite app_nil_r in HQ. rewrite HQ.
      cbn [elems_toks]. rewrite !length_app. specialize (IHr H2 (o + len (elem_text e) + 1)%Z).
      specialize (He (o + len (e_lead e))%Z H1).
      assert (length (text (e_val e)) <= length (elem_text e)) by (unfold elem_text; rewrite !length_app; lia).
      destruct r as [|e2 r]; [simpl; lia|]. rewrite (HQr ltac:(done)), !length_app. lia. }
    specialize (H (off + 1 + len w)%Z). rewrite !length_app. simpl. lia.
  - rewrite toks_obj, text_obj. cbn [length jv_ok] in *. apply andb_true_iff in Hok as [_ Hes].
    assert (H : forall o, length (members_toks o ms) <= length (members_text ms)).
    { clear -IH Hes. induction IH as [|e r He _ IHr]; intros o; [done|]. cbn [forallb] in Hes.
      apply andb_true_iff in Hes as [H1 H2]. apply member_ok_parts in H1 as [_ H1].
      destruct (members_text_cons e r []) as (Q & HQ & HQr & _). rewrite app_nil_r in HQ. rewrite HQ.
      cbn [members_toks length]. rewrite !length_app. specialize (IHr H2 (o + len (member_text e) + 1)%Z).
      specialize (He (val_off o e) H1).
      assert (length (text (m_val e)) < length (member_text e))
        by (unfold member_text; rewrite !length_app; simpl; lia).
      destruct r as [|e2 r]; [simpl; lia|]. rewrite (HQr ltac:(done)), !length_app. lia. }
    specialize (H (off + 1 + len w)%Z). rewrite !length_app. simpl. lia.
Qed.

(** Every token the tokenizer allocates consumes a byte. *)
Definition sparse (p : jsmn_parser) : Prop := length (tokens p) <= pos p.

Lemma alloc_length T num t T' : jsmn_alloc_token T num t = Some T' -> length T' = S (length T).
Proof. unfold jsmn_alloc_token. destruct (num <=? length T); intros; simplify_eq. rewrite length_app. simpl. lia. Qed.

Lemma alloc_none T num t : jsmn_alloc_token T num t = None -> num <= length T.
Proof. unfold jsmn_alloc_token. destruct (Nat.leb_spec num (length T)); done. Qed.

Lemma body_tokens p js n num c p' :
  jsmn_body p js n num c = Continue p' -> length (tokens p') <= S (length (tokens p)).
Proof.
  unfold jsmn_body, open_step, close_step, leaf_step, comma_step, jsmn_parse_string, jsmn_parse_primitive, advance.
  intros H. repeat case_match; simplify_eq/=; rewrite ?length_bump, ?length_alter;
    try match goal with E : jsmn_alloc_token _ _ _ = Some _ |- _ => apply alloc_length in E; rewrite E end; lia.
Qed.

Lemma body_nomem p js n num c q :
  jsmn_body p js n num c = Return JSMN_ERROR_NOMEM q -> q = p /\ num <= length (tokens p).
Proof.
  unfold jsmn_body, open_step, close_step, leaf_step, comma_step, jsmn_parse_string, jsmn_parse_primitive.
  intros H. repeat case_match; simplify_eq/=; split; try done; eauto using alloc_none.
Qed.

Lemma parse_nomem js n num p q :
  sparse p -> jsmn_parse p js n num = (JSMN_ERROR_NOMEM, q) -> sparse q /\ num < n.
Proof.
  unfold jsmn_parse. generalize (S (n - pos p)) as f. intros f. revert p. induction f as [|f IH]; intros p Hp H.
  - simpl in H. unfold jsmn_finish in H. by case_all.
  - cbn [jsmn_loop] in H. destruct (rd js n (pos p)) as [c|] eqn:E.
    2: { unfold jsmn_finish in H. by case_all. }
    assert (pos p < n) by (unfold rd in E; destruct (Nat.ltb_spec (pos p) n); done).
    destruct (jsmn_body p js n num c) as [p'|r q'] eqn:Eb.
    + apply (IH p'); [|done]. pose proof (body_progress _ _ _ _ _ _ E Eb). apply body_tokens in Eb.
      unfold sparse in *. lia.
    + simplify_eq. apply body_nomem in Eb as [-> Hn]. unfold sparse in *. split; lia.
Qed.

(** The doubling loop ends, with the result of a parse given enough tokens. *)
Lemma parse_again_result f p input n ntoks :
  sparse p -> 1 <= ntoks -> n + 1 < ntoks + f -> 0 < f ->
  exists ntoks', parse_again f p input n ntoks = Some (jsmn_parse p input n (n + ntoks), ntoks') /\ ntoks <= ntoks'.
Proof.
  revert p ntoks. induction f as [|f IH]; intros p ntoks Hp H1 Hf Hpos; [lia|]. cbn [parse_again].
  destruct (jsmn_parse p input n (ntoks - 1)) as [r q] eqn:E.
  destruct (decide (r = JSMN_ERROR_NOMEM)) as [->|Hr].
  - pose proof (parse_nomem _ _ _ _ _ Hp E) as [Hq Hn].
    pose proof (parse_resume p input n (ntoks - 1) (n + ntoks * 2) ltac:(lia)) as HR. rewrite E in HR.
    destruct (IH q (ntoks * 2)) as (nt & -> & Hnt); [done|lia..|]. exists nt. split; [|lia]. do 2 f_equal. rewrite HR.
    pose proof (parse_resume p input n (n + ntoks) (n + ntoks * 2) ltac:(lia)) as HR2.
    destruct (jsmn_parse p input n (n + ntoks)) as [r2 q2] eqn:E2.
    destruct (decide (r2 = JSMN_ERROR_NOMEM)) as [->|]; [pose proof (parse_nomem _ _ _ _ _ Hp E2); lia|].
    by destruct r2.
  - pose proof (parse_resume p input n (ntoks - 1) (n + ntoks) ltac:(lia)) as HR. rewrite E in HR.
    exists ntoks. split; [|lia]. by destruct r; rewrite ?HR.
Qed.

(** A text that is one value between white space parses to the value's tokens. *)
Lemma json_parse_simple_value w1 v w2 :
  ws_ok w1 = true -> ws_ok w2 = true -> jv_ok v = true ->
  json_parse_simple (w1 ++ text v ++ w2) (length (w1 ++ text v ++ w2)) = Some (toks (len w1) v ++ [end_tok]).
Proof.
  intros H1 H2 Hv. unfold json_parse_simple, json_parse_input, TOKS_ALLOC.
  destruct (parse_again_result (S (S (length (w1 ++ text v ++ w2)))) jsmn_init (w1 ++ text v ++ w2)
    (length (w1 ++ text v ++ w2)) 10) as (nt & -> & _); [unfold sparse; simpl; lia|lia..|].
  rewrite jsmn_parse_value; try done.
  2: { pose proof (toks_le_text v (len w1) Hv). rewrite !length_app. lia. }
  cbn [tokens]. destruct (toks (len w1) v) as [|t r] eqn:E; [by apply toks_nonempty in E|].
  assert (Ho : is_open t = false /\ ttype t <> JSMN_UNDEFINED /\ tstart t <> (-1)%Z).
  { pose proof (len_nonneg w1). pose proof (toks_closed v (len w1) ltac:(lia)) as HF. rewrite E in HF.
    apply Forall_cons in HF as [HF _]. split; [done|]. destruct v; simpl in E; simplify_eq; simpl; split; try done; lia. }
  destruct Ho as (Ho & Ht & Hs). unfold is_open in Ho.
  replace (tstart t =? -1)%Z with false in Ho by (symmetry; by apply Z.eqb_neq). simpl in Ho. rewrite Ho.
  replace (type_eqb (ttype t) JSMN_UNDEFINED) with false by (by destruct (ttype t)). cbn [orb].
  rewrite <- E. pose proof (json_next_toks (len w1) v []) as Hn. rewrite app_nil_r in Hn. rewrite Hn.
  cbn [length]. rewrite Nat.sub_0_r, firstn_all, validate_toks by done. done.
Qed.

(** * Decimal numbers *)

Lemma digit_value_digit d : (0 <= d < 10)%Z -> digit_value (digit d) = Some d.
Proof.
  intros H. assert (d = 0 \/ d = 1 \/ d = 2 \/ d = 3 \/ d = 4 \/ d = 5 \/ d = 6 \/ d = 7 \/ d = 8 \/ d = 9)%Z as E by lia.
  repeat destruct E as [->|E]; try done. by subst.
Qed.

(** Reading printed digits: value and length, with the reader then at what
    follows. *)
Lemma digits_fmt f : forall z acc post,
  (0 <= z < 10 ^ Z.of_nat f)%Z -> 0 < f ->
  digits 10 acc (fmt_u_go f z ++ post) =
    let '(n, v) := digits 10 (acc * 10 ^ len (fmt_u_go f z) + z) post in (length (fmt_u_go f z) + n, v).
Proof.
  induction f as [|f IH]; intros z acc post Hz Hf; [lia|]. cbn [fmt_u_go].
  destruct (Z.ltb_spec z 10) as [Hlt|Hge].
  - cbn [app digits]. rewrite digit_value_digit by lia. rewrite (proj2 (Z.ltb_lt z 10)) by lia.
    change (len [digit z]) with 1%Z. rewrite Z.pow_1_r. by destruct (digits 10 (acc * 10 + z) post).
  - rewrite Nat2Z.inj_succ, Z.pow_succ_r in Hz by lia.
    pose proof (Z.div_mod z 10 ltac:(lia)). pose proof (Z.mod_pos_bound z 10 ltac:(lia)).
    destruct f as [|f]; [simpl in Hz; lia|].
    rewrite <- app_assoc, IH; [|split; [apply Z.div_pos; lia|apply Z.div_lt_upper_bound; lia]|lia].
    rewrite len_app, length_app. cbn [app digits length]. rewrite digit_value_digit by lia.
    rewrite (proj2 (Z.ltb_lt (z mod 10) 10)) by lia. change (len [digit (z mod 10)]) with 1%Z.
    rewrite Z.pow_add_r, Z.pow_1_r by (pose proof (len_nonneg (fmt_u_go (S f) (z / 10))); lia).
    replace ((acc * 10 ^ len (fmt_u_go (S f) (z / 10)) + z / 10) * 10 + z mod 10)%Z
      with (acc * (10 ^ len (fmt_u_go (S f) (z / 10)) * 10) + z)%Z by lia.
    destruct (digits 10 _ post) as [m v]. f_equal. lia.
Qed.

Lemma fmt_u_head f z : (0 <= z < 10 ^ Z.of_nat f)%Z -> 0 < f ->
  exists d r, fmt_u_go f z = digit d :: r /\ (0 <= d < 10)%Z /\ (d = 0%Z -> z = 0%Z /\ r = []).
Proof.
  revert z. induction f as [|f IH]; intros z Hz Hf; [lia|]. cbn [fmt_u_go].
  destruct (Z.ltb_spec z 10) as [Hlt|Hge]; [exists z, []; split_and!; try done; lia|].
  rewrite Nat2Z.inj_succ, Z.pow_succ_r in Hz by lia. destruct f as [|f]; [simpl in Hz; lia|].
  destruct (IH (z / 10)%Z) as (d & r & E & Hd & H0); [split; [apply Z.div_pos; lia|apply Z.div_lt_upper_bound; lia]|lia|].
  exists d, (r ++ [digit (z mod 10)]). rewrite E. split_and!; try done; try lia.
  intros ->. destruct (H0 eq_refl) as [H1 _]. pose proof (Z.div_mod z 10 ltac:(lia)).
  pose proof (Z.mod_pos_bound z 10 ltac:(lia)). lia.
Qed.

Lemma digit_facts d : (0 <= d < 10)%Z ->
  isspace (digit d) = false /\ ch_in (digit d) (bs "-") = false /\ ch_in (digit d) (bs "+") = false
  /\ ch_in (digit d) (bs "0") = (d =? 0)%Z /\ prim_char (digit d) = true /\ isdigit (digit d) = true
  /\ ch_in (digit d) (bs "n") = false.
Proof.
  intros H. assert (d = 0 \/ d = 1 \/ d = 2 \/ d = 3 \/ d = 4 \/ d = 5 \/ d = 6 \/ d = 7 \/ d = 8 \/ d = 9)%Z as E by lia.
  repeat destruct E as [->|E]; try done. by subst.
Qed.

Lemma delim_digits base acc post : delim_next post -> digits base acc post = (0, acc).
Proof.
  destruct post as [|c r]; [done|]. simpl. intros H.
  assert (E : digit_value c = None) by (revert H; clear; by_byte c). by rewrite E.
Qed.

Lemma delim_not_x c : prim_delim c = true -> ch_in c (bs "xX") = false.
Proof. by_byte c. Qed.

Lemma strto_fmt z post :
  (0 <= z < u64_mod)%Z -> delim_next post -> strto (fmt_u z ++ post) = (length (fmt_u z), false, z).
Proof.
  intros Hz Hp. assert (Hf : (0 <= z < 10 ^ Z.of_nat 20)%Z) by (unfold u64_mod in Hz; simpl; lia).
  pose proof (digits_fmt 20 z 0 post Hf ltac:(lia)) as HD. change (fmt_u_go 20 z) with (fmt_u z) in HD.
  rewrite Z.mul_0_l, Z.add_0_l, (delim_digits _ _ post Hp), Nat.add_0_r in HD.
  destruct (fmt_u_head 20 z Hf ltac:(lia)) as (d & r & E & Hd & H0). change (fmt_u_go 20 z) with (fmt_u z) in E.
  rewrite E in *. destruct (digit_facts d Hd) as (Hs & Hm & Hpl & Hz0 & _).
  destruct (Z.eqb_spec d 0) as [->|Hne].
  - destruct (H0 eq_refl) as [-> ->]. unfold strto. cbn [app skip_space]. rewrite Hs. unfold take_sign. rewrite Hm, Hpl.
    assert (H8 : digits 8 0 (digit 0 :: post) = (1, 0%Z)) by (cbn [digits]; simpl; by rewrite delim_digits).
    destruct post as [|c [|c' post]]; [reflexivity| |].
    + rewrite Hz0, H8. reflexivity.
    + simpl in Hp. rewrite Hz0, (delim_not_x c Hp). cbn [andb]. rewrite H8. reflexivity.
  - unfold strto. cbn [app skip_space]. rewrite Hs. unfold take_sign. rewrite Hm, Hpl.
    assert (Hsel : (match digit d :: r ++ post with
      | z :: x :: d0 :: r0 => if ch_in z (bs "0") && ch_in x (bs "xX") && isxdigit d0 then (2, 16%Z, d0 :: r0)
          else if ch_in z (bs "0") then (0, 8%Z, digit d :: r ++ post) else (0, 10%Z, digit d :: r ++ post)
      | z :: _ => if ch_in z (bs "0") then (0, 8%Z, digit d :: r ++ post) else (0, 10%Z, digit d :: r ++ post)
      | [] => (0, 10%Z, digit d :: r ++ post) end) = (0, 10%Z, digit d :: r ++ post)).
    { destruct (r ++ post) as [|x [|d' r']]; rewrite ?Hz0; done. }
    rewrite Hsel. cbn [app] in HD. rewrite HD. done.
Qed.

(** A printed 64-bit number reads back. *)
Lemma json_to_u64_fmt erange pre z post rest :
  (0 <= z < u64_mod)%Z -> delim_next post -> (erange = true -> z <> ULLONG_MAX) ->
  json_to_u64 erange (pre ++ text (JPrim (fmt_u z)) ++ post) (toks (len pre) (JPrim (fmt_u z)) ++ rest) = Some z.
Proof.
  intros Hz Hp He. unfold json_to_u64. cbn [toks app cur hd tstart tend text]. unfold len at 1.
  rewrite Nat2Z.id, drop_app_length. unfold strtoull. rewrite strto_fmt by done.
  rewrite (proj2 (Z.ltb_ge _ _)) by (unfold ULLONG_MAX; lia).
  unfold len. rewrite Z.eqb_refl. simpl. destruct erange; simpl; [|by rewrite andb_false_r].
  rewrite (proj2 (Z.eqb_neq _ _)) by auto. done.
Qed.

Lemma json_to_u32_fmt pre z post rest :
  (0 <= z < u32_mod)%Z -> delim_next post ->
  json_to_u32 (pre ++ text (JPrim (fmt_u z)) ++ post) (toks (len pre) (JPrim (fmt_u z)) ++ rest) = Some z.
Proof.
  intros Hz Hp. unfold json_to_u32. rewrite json_to_u64_fmt by (unfold u32_mod, u64_mod in *; done || lia).
  unfold fits. by rewrite Z.mod_small, Z.eqb_refl.
Qed.

Lemma fmt_u_ok z : (0 <= z < u64_mod)%Z -> prim_ok (fmt_u z) = true /\ forallb isdigit (fmt_u z) = true.
Proof.
  intros Hz. assert (H : forall f z, (0 <= z)%Z -> forallb prim_char (fmt_u_go f z) = true /\ forallb isdigit (fmt_u_go f z) = true).
  { clear. induction f as [|f IH]; intros z Hz; [done|]. cbn [fmt_u_go]. destruct (Z.ltb_spec z 10).
    - cbn [forallb]. destruct (digit_facts z ltac:(lia)) as (_ & _ & _ & _ & -> & -> & _). done.
    - rewrite !forallb_app. destruct (IH (z / 10)%Z ltac:(apply Z.div_pos; lia)) as [-> ->]. cbn [forallb].
      pose proof (Z.mod_pos_bound z 10 ltac:(lia)).
      destruct (digit_facts (z mod 10) ltac:(lia)) as (_ & _ & _ & _ & -> & -> & _). done. }
  specialize (H 20 z ltac:(lia)) as [H1 H2]. change (fmt_u_go 20 z) with (fmt_u z) in *. split; [|done].
  unfold prim_ok. destruct (fmt_u z) eqn:E; [|done].
  destruct (fmt_u_head 20 z ltac:(unfold u64_mod in Hz; simpl; lia) ltac:(lia)) as (d & r & E' & _).
  change (fmt_u_go 20 z) with (fmt_u z) in E'. congruence.
Qed.

(** * C strings *)

Lemma str_body_no_nul : forall n s, length s <= n -> str_body s = true -> no_nul s.
Proof.
  induction n as [|n IH]; intros s Hn H; (destruct s as [|c r]; [constructor|]); simpl in Hn; [lia|].
  cbn [str_body] in H. destruct (ch_eqb c DQUOTE || ch_eqb c NUL) eqn:Ec; [done|]. apply orb_false_iff in Ec as [_ Ec].
  assert (Hc : c <> NUL) by (intros ->; done).
  destruct (ch_eqb c BACKSLASH); [|constructor; [done|]; apply IH; [lia|done]].
  destruct r as [|e r1]; [done|]. simpl in Hn. destruct (simple_escape e) eqn:Es.
  - apply simple_escape_not_nul in Es. repeat constructor; [done|intros ->; done|]. apply IH; [lia|done].
  - destruct (ch_in e (bs "u")) eqn:Eu; [|done]. destruct r1 as [|h1 [|h2 [|h3 [|h4 r2]]]]; try done.
    rewrite !andb_true_iff in H. destruct H as ((((X1 & X2) & X3) & X4) & H). simpl in Hn.
    apply xdigit_not_nul in X1, X2, X3, X4.
    repeat constructor; try done; try (intros ->; done). apply IH; [lia|done].
Qed.

Lemma str_ok_no_nul s : str_ok s = true -> no_nul s.
Proof. unfold str_ok. intros [H _]%andb_true_iff. by apply (str_body_no_nul (length s)). Qed.

Lemma prim_ok_no_nul s : prim_ok s = true -> no_nul s.
Proof.
  destruct s as [|c s]; [done|]. unfold prim_ok. intros H. apply Forall_forall. intros x Hx ->.
  rewrite forallb_forall in H. apply list_elem_of_In in Hx. by apply H in Hx.
Qed.
