(* ===== verification/Amount.v ===== *)
(** common/amount.c: amounts in satoshi and millisatoshi, without the operations
    on floating-point numbers.

    Results by pointer with a bool are options. *)
From S2P Require Import Prelude Intmap Utf8 Jsmn JsonTree Json Wire.

Record amount_sat : Type := Sat { satoshis : Z }.
Record amount_msat : Type := Msat { millisatoshis : Z }.

Definition MSAT_PER_SAT : Z := 1000.
Definition SAT_PER_BTC : Z := 100000000.
Definition MSAT_PER_BTC : Z := MSAT_PER_SAT * SAT_PER_BTC.

(** * Conversions *)

Definition amount_sat_to_msat (sat : amount_sat) : option amount_msat :=
  if mul_overflows_u64 (satoshis sat) MSAT_PER_SAT then None else Some (Msat (satoshis sat * MSAT_PER_SAT)).

Definition amount_msat_to_sat_round_down (msat : amount_msat) : amount_sat := Sat (millisatoshis msat / MSAT_PER_SAT).

Definition amount_msat_to_u32 (msat : amount_msat) : option Z :=
  if (4294967296 <=? millisatoshis msat)%Z then None else Some (millisatoshis msat).

(** * Output *)

(** The last [n] digits: [%0nu] of a number that has no more. *)
Fixpoint fmt_pad (n : nat) (z : Z) : bytes :=
  match n with
  | O => []
  | S k => fmt_pad k (z / 10) ++ [digit (z mod 10)]
  end.

Definition fmt_amount_msat_btc (msat : amount_msat) (append_unit : bool) : bytes :=
  let m := millisatoshis msat in
  if (m =? 0)%Z then (if append_unit then bs "0btc" else bs "0")
  else fmt_u (m / MSAT_PER_BTC) ++ bs "." ++ fmt_pad 11 (m mod MSAT_PER_BTC) ++ (if append_unit then bs "btc" else []).

Definition fmt_amount_msat (msat : amount_msat) : bytes := fmt_u (millisatoshis msat) ++ bs "msat".

Definition fmt_amount_sat_btc (sat : amount_sat) (append_unit : bool) : bytes :=
  let s := satoshis sat in
  if (s =? 0)%Z then (if append_unit then bs "0btc" else bs "0")
  else fmt_u (s / SAT_PER_BTC) ++ bs "." ++ fmt_pad 8 (s mod SAT_PER_BTC) ++ (if append_unit then bs "btc" else []).

Definition fmt_amount_sat (sat : amount_sat) : bytes := fmt_u (satoshis sat) ++ bs "sat".

(** * Input *)

(** The digits in front. *)
Fixpoint span_digits (s : bytes) : bytes * bytes :=
  match s with
  | c :: r => if isdigit c then let '(d, r') := span_digits r in (c :: d, r') else ([], s)
  | [] => ([], [])
  end.

(** The end of the string, or a NUL in it. *)
Definition at_end (s : bytes) : bool := match s with [] => true | c :: _ => ch_eqb c NUL end.

(** [breakup]: the whole number, what follows the point, the suffix; the latter
    two [None] for NULL. *)
Definition breakup (str : bytes) : option (bytes * option bytes * option bytes) :=
  let '(whole, r) := span_digits str in
  if at_end r then (if length whole =? 0 then None else Some (whole, None, None))
  else
    match r with
    | c :: r' =>
        if ch_in c (bs ".") then
          let '(post, r2) := span_digits r' in
          if at_end r2 then (if length post =? 0 then None else Some (whole, Some post, None))
          else Some (whole, Some post, Some r2)
        else Some (whole, None, Some r)
    | [] => None
    end.

(** The loop over the digits. *)
Fixpoint from_digits (res : Z) (s : bytes) : outcome (option Z) :=
  match s with
  | [] => Ret (Some res)
  | c :: r =>
      if mul_overflows_u64 res 10 then Ret None
      else
        let res := (res * 10)%Z in
        let! _ := assert_ (isdigit c) "from_number: cisdigit" in
        if add_overflows_u64 res (code c - 48) then Ret None else from_digits (res + (code c - 48)) r
  end.

Fixpoint scale_tens (tens_factor : nat) (res : Z) : option Z :=
  match tens_factor with
  | O => Some res
  | S k => if mul_overflows_u64 res 10 then None else scale_tens k (res * 10)
  end.

Definition from_number (s : bytes) (tens_factor : nat) : outcome (option Z) :=
  if length s =? 0 then Ret None
  else let! r := from_digits 0 s in Ret (r ≫= scale_tens tens_factor).

Definition from_numbers (s1 : bytes) (tens_factor : nat) (s2 : bytes) : outcome (option Z) :=
  if tens_factor <? length s2 then Ret None
  else
    let! p1 := from_number s1 tens_factor in
    match p1 with
    | None => Ret None
    | Some p1 =>
        let! p2 := from_number s2 (tens_factor - length s2) in
        match p2 with
        | None => Ret None
        | Some p2 => if add_overflows_u64 p1 p2 then Ret None else Ret (Some (p1 + p2)%Z)
        end
    end.

(** [memstarts_str] of a suffix, false for NULL. *)
Definition memstarts_str (suffix : option bytes) (s : bytes) : bool :=
  match suffix with Some a => bool_decide (take (length s) a = s) | None => false end.

Definition memends (s suffix : bytes) : bool :=
  (length suffix <=? length s) && bool_decide (drop (length s - length suffix) s = suffix).

Definition with_btc (tens : nat) (whole : bytes) (post suffix : option bytes) : outcome (option Z) :=
  if memstarts_str suffix (bs "btc") then
    if 0 <? length (default [] post) then from_numbers whole tens (default [] post) else from_number whole tens
  else Ret None.

Definition parse_amount_msat (s : bytes) : outcome (option amount_msat) :=
  match breakup s with
  | None => Ret None
  | Some (whole, post, suffix) =>
      let! r :=
        match post, suffix with
        | None, None => from_number whole 0
        | _, _ =>
            let no_post := match post with None => true | Some _ => false end in
            if no_post && memstarts_str suffix (bs "msat") then from_number whole 0
            else if no_post && memstarts_str suffix (bs "sat") then from_number whole 3
            else with_btc 11 whole post suffix
        end in
      Ret (Msat <$> r)
  end.

Definition parse_amount_sat (s : bytes) : outcome (option amount_sat) :=
  match breakup s with
  | None => Ret None
  | Some (whole, post, suffix) =>
      let! r :=
        match post, suffix with
        | None, None => from_number whole 0
        | _, _ =>
            let no_post := match post with None => true | Some _ => false end in
            if no_post && memstarts_str suffix (bs "sat") then from_number whole 0
            else if no_post && memstarts_str suffix (bs "msat") then
              if negb (memends whole (bs "000")) then
                if memstarts_str (Some whole) (bs "0") then from_number whole 0 else Ret None
              else from_number (take (length whole - 3) whole) 0
            else with_btc 8 whole post suffix
        end in
      Ret (Sat <$> r)
  end.

(** * Arithmetic *)

Definition amount_msat_add (a b : amount_msat) : option amount_msat :=
  if add_overflows_u64 (millisatoshis a) (millisatoshis b) then None else Some (Msat (millisatoshis a + millisatoshis b)).
Definition amount_msat_sub (a b : amount_msat) : option amount_msat :=
  if (millisatoshis a <? millisatoshis b)%Z then None else Some (Msat (millisatoshis a - millisatoshis b)).
Definition amount_sat_add (a b : amount_sat) : option amount_sat :=
  if add_overflows_u64 (satoshis a) (satoshis b) then None else Some (Sat (satoshis a + satoshis b)).
Definition amount_sat_sub (a b : amount_sat) : option amount_sat :=
  if (satoshis a <? satoshis b)%Z then None else Some (Sat (satoshis a - satoshis b)).

Definition amount_msat_sub_sat (a : amount_msat) (b : amount_sat) : option amount_msat := amount_sat_to_msat b ≫= amount_msat_sub a.
Definition amount_sat_sub_msat (a : amount_sat) (b : amount_msat) : option amount_msat := amount_sat_to_msat a ≫= fun m => amount_msat_sub m b.
Definition amount_msat_add_sat (a : amount_msat) (b : amount_sat) : option amount_msat := amount_sat_to_msat b ≫= amount_msat_add a.

Definition amount_msat_div (msat : amount_msat) (div : Z) : amount_msat := Msat (millisatoshis msat / div).
Definition amount_sat_div (sat : amount_sat) (div : Z) : amount_sat := Sat (satoshis sat / div).

(** * Comparison *)

Definition amount_sat_eq (a b : amount_sat) : bool := (satoshis a =? satoshis b)%Z.
Definition amount_sat_zero (a : amount_sat) : bool := (satoshis a =? 0)%Z.
Definition amount_msat_eq (a b : amount_msat) : bool := (millisatoshis a =? millisatoshis b)%Z.
Definition amount_sat_greater (a b : amount_sat) : bool := (satoshis b <? satoshis a)%Z.
Definition amount_msat_greater (a b : amount_msat) : bool := (millisatoshis b <? millisatoshis a)%Z.
Definition amount_sat_greater_eq (a b : amount_sat) : bool := (satoshis b <=? satoshis a)%Z.
Definition amount_msat_greater_eq (a b : amount_msat) : bool := (millisatoshis b <=? millisatoshis a)%Z.
Definition amount_sat_less (a b : amount_sat) : bool := (satoshis a <? satoshis b)%Z.
Definition amount_msat_less (a b : amount_msat) : bool := (millisatoshis a <? millisatoshis b)%Z.
Definition amount_sat_less_eq (a b : amount_sat) : bool := (satoshis a <=? satoshis b)%Z.
Definition amount_msat_less_eq (a b : amount_msat) : bool := (millisatoshis a <=? millisatoshis b)%Z.

(** The comparisons of both units: false when the satoshis do not fit. *)
Definition compare_sat (cmp : Z -> Z -> bool) (msat : amount_msat) (sat : amount_sat) : bool :=
  match amount_sat_to_msat sat with
  | None => false
  | Some m => cmp (millisatoshis msat) (millisatoshis m)
  end.
Definition amount_msat_greater_sat : amount_msat -> amount_sat -> bool := compare_sat (fun a b => (b <? a)%Z).
Definition amount_msat_greater_eq_sat : amount_msat -> amount_sat -> bool := compare_sat (fun a b => (b <=? a)%Z).
Definition amount_msat_less_sat : amount_msat -> amount_sat -> bool := compare_sat Z.ltb.
Definition amount_msat_less_eq_sat : amount_msat -> amount_sat -> bool := compare_sat Z.leb.
Definition amount_msat_eq_sat : amount_msat -> amount_sat -> bool := compare_sat Z.eqb.

(** * Fees *)

Definition amount_msat_fee (amt : amount_msat) (fee_base_msat fee_proportional_millionths : Z) : option amount_msat :=
  let fee_base := Msat fee_base_msat in
  if mul_overflows_u64 (millisatoshis amt) fee_proportional_millionths then None
  else
    let fee_prop := Msat (millisatoshis amt * fee_proportional_millionths / 1000000) in
    amount_msat_add fee_base fee_prop.

Definition amount_msat_add_fee (amt : amount_msat) (fee_base_msat fee_proportional_millionths : Z) : option amount_msat :=
  amount_msat_fee amt fee_base_msat fee_proportional_millionths ≫= amount_msat_add amt.

Definition amount_tx_fee (fee_per_kw weight : Z) : outcome amount_sat :=
  let! _ := assert_ (negb (mul_overflows_u64 fee_per_kw weight)) "amount_tx_fee: overflow" in
  Ret (Sat (fee_per_kw * weight / 1000)).

(** * On the wire *)

Definition fromwire_amount_msat (c : cursor) : amount_msat * cursor := let '(v, c') := fromwire_u64 c in (Msat v, c').
Definition fromwire_amount_sat (c : cursor) : amount_sat * cursor := let '(v, c') := fromwire_u64 c in (Sat v, c').
Definition towire_amount_msat (x : amount_msat) : bytes := towire_u64 (millisatoshis x).
Definition towire_amount_sat (x : amount_sat) : bytes := towire_u64 (satoshis x).

#[export] Instance wire_amount_msat : Wire amount_msat :=
  {| to_wire := towire_amount_msat; from_wire := fromwire_amount_msat; wire_ok x := (0 <= millisatoshis x < u64_mod)%Z |}.
#[export] Instance wire_amount_sat : Wire amount_sat :=
  {| to_wire := towire_amount_sat; from_wire := fromwire_amount_sat; wire_ok x := (0 <= satoshis x < u64_mod)%Z |}.

(** * Amounts of 16 bits

    common/fp16.c: 16-bit approximations of amounts, five bits of exponent and
    eleven of mantissa. *)

Definition fp16_to_u64 (val : Z) : Z := wrap64 (Z.shiftl (Z.land val 2047) (Z.shiftr val 11)).

(** More than eleven bits: mantissa and exponent, rounded, and cut to the largest
    number. *)
Definition fp16_round (val mantissa_bits : Z) (round_up : bool) : Z * Z :=
  let exponent := (mantissa_bits - 11)%Z in
  let mantissa := Z.shiftr val exponent in
  let '(mantissa, exponent) :=
    if round_up && negb (Z.land val (Z.shiftl 1 exponent - 1) =? 0)%Z then
      if (mantissa + 1 =? Z.shiftl 1 11)%Z then (Z.shiftr (mantissa + 1) 1, exponent + 1)%Z else ((mantissa + 1)%Z, exponent)
    else (mantissa, exponent) in
  if (32 <=? exponent)%Z then (2047, 31)%Z else (mantissa, exponent).

Definition u64_to_fp16 (val : Z) (round_up : bool) : outcome Z :=
  if (val =? 0)%Z then Ret 0%Z
  else
    let mantissa_bits := (bitops_hs64 val + 1)%Z in
    let '(mantissa, exponent) := if (11 <? mantissa_bits)%Z then fp16_round val mantissa_bits round_up else (val, 0%Z) in
    let! _ := assert_ (Z.shiftr mantissa 11 =? 0)%Z "(mantissa >> 11) == 0" in
    Ret (Z.lor (Z.shiftl exponent 11) mantissa).

Definition amount_msat_less_fp16 (amt : amount_msat) (fp : Z) : bool := (millisatoshis amt <? fp16_to_u64 fp)%Z.
Definition amount_msat_greater_fp16 (amt : amount_msat) (fp : Z) : bool := (fp16_to_u64 fp <? millisatoshis amt)%Z.

(** * Bounds *)

(** The largest number there is. *)
Definition FP16_MAX : Z := 2047 * 2 ^ 31.

(** A mantissa and an exponent in range, packed and unpacked. *)
Lemma fp16_pack m e : (0 <= m < 2048)%Z -> Z.lor (Z.shiftl e 11) m = (e * 2 ^ 11 + m)%Z.
Proof. intros Hm. by apply pack_fields. Qed.

Lemma fp16_unpack m e : (0 <= m < 2048)%Z -> (0 <= e < 32)%Z ->
  (0 <= Z.lor (Z.shiftl e 11) m < 65536)%Z /\ fp16_to_u64 (Z.lor (Z.shiftl e 11) m) = (m * 2 ^ e)%Z.
Proof.
  intros Hm He. rewrite fp16_pack by lia.
  split; [lia|]. unfold fp16_to_u64. change 2047%Z with (Z.ones 11). rewrite Z.land_ones, Z.shiftr_div_pow2 by lia.
  rewrite Z.div_add_l, (Z.div_small m), Z.add_0_r by lia. rewrite Z.add_comm, Z.mod_add, Z.mod_small by lia.
  rewrite Z.shiftl_mul_pow2 by lia. unfold wrap64. apply Z.mod_small. assert (0 < 2 ^ e <= 2 ^ 31)%Z by (split; [lia|apply Z.pow_le_mono_r; lia]). unfold u64_mod. nia.
Qed.

(** What is asked of the two roundings of a number that fits: the lower is below
    it, the upper above, and either is off by less than its part in 1024. *)
Definition fp16_near (val : Z) (round_up : bool) (r : Z) : Prop :=
  if round_up then (val <= r /\ 1024 * (r - val) <= val)%Z else (r <= val /\ 1024 * (val - r) <= val)%Z.

(** A number of more than eleven bits: its leading eleven and the rest. *)
Lemma fp16_split val : (2048 <= val < u64_mod)%Z ->
  exists m r e, val = (m * 2 ^ e + r)%Z /\ (1024 <= m < 2048)%Z /\ (0 <= r < 2 ^ e)%Z /\ (1 <= e <= 53)%Z /\
    (Z.log2 val + 1 - 11 = e)%Z /\ Z.shiftr val e = m /\ Z.land val (Z.shiftl 1 e - 1) = r.
Proof.
  intros Hv. set (e := (Z.log2 val + 1 - 11)%Z).
  assert (HL : (11 <= Z.log2 val < 64)%Z) by (split; [by apply Z.log2_le_pow2; lia|by apply Z.log2_lt_pow2; unfold u64_mod in Hv; lia]).
  destruct (Z.log2_spec val ltac:(lia)) as [H1 H2].
  assert (He : (1 <= e <= 53)%Z) by lia.
  replace (Z.log2 val) with (10 + e)%Z in H1 by lia. replace (Z.succ (Z.log2 val)) with (11 + e)%Z in H2 by lia.
  rewrite Z.pow_add_r in H1, H2 by lia. change (2 ^ 10)%Z with 1024%Z in H1. change (2 ^ 11)%Z with 2048%Z in H2.
  assert (0 < 2 ^ e)%Z by (apply Z.pow_pos_nonneg; lia).
  exists (val / 2 ^ e)%Z, (val mod 2 ^ e)%Z, e. repeat split; try lia.
  - rewrite (Z.div_mod val (2 ^ e)) at 1; lia.
  - apply Z.div_le_lower_bound; lia.
  - apply Z.div_lt_upper_bound; lia.
  - apply Z.mod_pos_bound. lia.
  - apply Z.mod_pos_bound. lia.
  - apply Z.shiftr_div_pow2. lia.
  - rewrite Z.shiftl_1_l. replace (2 ^ e - 1)%Z with (Z.ones e) by (rewrite Z.ones_equiv; lia). apply Z.land_ones. lia.
Qed.

(** Mantissa and exponent of such a number, and what they say. *)
Lemma fp16_round_near val round_up : (2048 <= val < u64_mod)%Z ->
  let '(m, e) := fp16_round val (Z.log2 val + 1) round_up in
  (0 <= m < 2048)%Z /\ (0 <= e < 32)%Z /\
  if (FP16_MAX <? val)%Z then (m * 2 ^ e)%Z = FP16_MAX else fp16_near val round_up (m * 2 ^ e).
Proof.
  intros Hv. destruct (fp16_split val Hv) as (m & r & e & Hval & Hm & Hr & He & E1 & E2 & E3).
  unfold fp16_round. rewrite E1, E2, E3. clear E1 E2 E3. change (Z.shiftl 1 11) with 2048%Z.
  assert (Hbig : (32 <= e -> FP16_MAX < val)%Z).
  { intros. assert (2 ^ 32 <= 2 ^ e)%Z by (apply Z.pow_le_mono_r; lia). unfold FP16_MAX. nia. }
  assert (Hsmall : (e <= 30 -> val <= FP16_MAX)%Z).
  { intros. assert (2 ^ e <= 2 ^ 30)%Z by (apply Z.pow_le_mono_r; lia). unfold FP16_MAX. nia. }
  assert (H31 : e = 31%Z -> (FP16_MAX < val <-> m = 2047%Z /\ r <> 0%Z)%Z).
  { intros ->. unfold FP16_MAX. nia. }
  assert (Hp : (2 ^ (e + 1) = 2 * 2 ^ e)%Z) by (rewrite Z.pow_add_r; lia).
  destruct (round_up && negb (r =? 0)%Z) eqn:ER; [destruct (Z.eqb_spec (m + 1) 2048)|].
  - apply andb_true_iff in ER as [-> ER%negb_true_iff%Z.eqb_neq]. replace (Z.shiftr (m + 1) 1) with 1024%Z by (by replace (m + 1)%Z with 2048%Z by lia).
    destruct (Z.leb_spec 32 (e + 1)); (destruct (Z.ltb_spec FP16_MAX val)); unfold fp16_near; repeat split; try lia; rewrite ?Hp; try nia.
  - apply andb_true_iff in ER as [-> ER%negb_true_iff%Z.eqb_neq].
    destruct (Z.leb_spec 32 e); (destruct (Z.ltb_spec FP16_MAX val)); unfold fp16_near; repeat split; try lia; try nia.
  - destruct (Z.leb_spec 32 e); (destruct (Z.ltb_spec FP16_MAX val)); try lia.
    + repeat split; lia.
    + assert (e = 31%Z) by lia. subst e. destruct (H31 eq_refl) as [[-> _] _]; [lia|]. repeat split; lia.
    + repeat split; try lia. unfold fp16_near. destruct round_up; [|nia].
      apply andb_false_iff in ER as [?|ER%negb_false_iff%Z.eqb_eq]; [done|]. nia.
Qed.

(** Every amount is rounded without an abort to a 16-bit number: at most
    [FP16_MAX] within a part in 1024 on the side asked for, and to [FP16_MAX]
    above it. *)
Theorem fp16_bounds val round_up : (0 <= val < u64_mod)%Z ->
  exists fp, u64_to_fp16 val round_up = Ret fp /\ (0 <= fp < 65536)%Z /\
    if (FP16_MAX <? val)%Z then fp16_to_u64 fp = FP16_MAX else fp16_near val round_up (fp16_to_u64 fp).
Proof.
  intros Hv. unfold u64_to_fp16. destruct (Z.eqb_spec val 0) as [->|Hnz].
  { exists 0%Z. split; [done|]. split; [lia|]. destruct round_up; vm_compute; split; discriminate. }
  rewrite clz64_spec by lia. destruct (Z.ltb_spec 11 (Z.log2 val + 1)) as [Hb|Hb].
  - assert (2048 <= val)%Z by (apply (Z.log2_le_pow2 val 11); lia).
    pose proof (fp16_round_near val round_up ltac:(lia)) as HR. destruct (fp16_round _ _ _) as [m e]. destruct HR as (Hm & He & HR).
    replace (Z.shiftr m 11) with 0%Z by (by rewrite Z.shiftr_div_pow2, Z.div_small by lia).
    destruct (fp16_unpack m e Hm He) as [Hp Hu]. eexists. split; [reflexivity|]. rewrite Hu. done.
  - assert (val < 2048)%Z by (apply (Z.log2_lt_pow2 val 11); lia).
    replace (Z.shiftr val 11) with 0%Z by (by rewrite Z.shiftr_div_pow2, Z.div_small by lia).
    destruct (fp16_unpack val 0 ltac:(lia) ltac:(lia)) as [Hp Hu]. eexists. split; [reflexivity|]. rewrite Hu.
    split; [done|]. rewrite (proj2 (Z.ltb_ge FP16_MAX val)) by (unfold FP16_MAX; lia). destruct round_up; unfold fp16_near; lia.
Qed.

Lemma fp16_bounds_witness :
  u64_to_fp16 4097 true = Ret 5121%Z /\ fp16_to_u64 5121 = 4100%Z /\
  exists fp, u64_to_fp16 4097 true = Ret fp /\ (0 <= fp < 65536)%Z /\
    if (FP16_MAX <? 4097)%Z then fp16_to_u64 fp = FP16_MAX else fp16_near 4097 true (fp16_to_u64 fp).
Proof. split; [by vm_compute|]. split; [by vm_compute|]. apply (fp16_bounds 4097 true). unfold u64_mod. lia. Defined.
