(* ===== verification/AmountTheorems.v ===== *)
(** Amounts: the overflow tests are exact, text round trips, fees, and where the
    parser and the comparisons differ from what is meant. *)
From S2P Require Import Prelude Utf8 Jsmn JsonTree JsmnProofs Json JsonProofs Wire Amount.

Definition is_u64 (z : Z) : Prop := (0 <= z < u64_mod)%Z.

(** * Overflow *)

Lemma mul_overflows_iff a b : is_u64 a -> is_u64 b -> mul_overflows_u64 a b = negb (a * b <? u64_mod)%Z.
Proof.
  unfold is_u64, mul_overflows_u64, wrap64. intros Ha Hb. destruct (Z.eqb_spec a 0) as [->|Hne]; [done|]. f_equal.
  destruct (Z.ltb_spec (a * b) u64_mod) as [H|H].
  - rewrite Z.mod_small by lia. rewrite Z.mul_comm, Z.div_mul by lia. by apply Z.eqb_eq.
  - apply Z.eqb_neq. intros E. pose proof (Z.mul_div_le ((a * b) mod u64_mod) a ltac:(lia)) as HL. rewrite E in HL.
    pose proof (Z.mod_pos_bound (a * b) u64_mod ltac:(unfold u64_mod; lia)). lia.
Qed.

Lemma add_overflows_iff a b : is_u64 a -> is_u64 b -> add_overflows_u64 a b = negb (a + b <? u64_mod)%Z.
Proof.
  unfold is_u64, add_overflows_u64, wrap64. intros Ha Hb. destruct (Z.ltb_spec (a + b) u64_mod) as [H|H].
  - rewrite Z.mod_small by lia. apply Z.ltb_ge. lia.
  - replace ((a + b) mod u64_mod)%Z with (a + b - u64_mod)%Z; [apply Z.ltb_lt; lia|].
    apply (Z.mod_unique_pos _ _ 1); unfold u64_mod in *; lia.
Qed.

(** A value that fits, or none. *)
Definition fits_u64 (z : Z) : option Z := if (z <? u64_mod)%Z then Some z else None.

(** * Numbers *)

Definition dval (a : Z) (s : bytes) : Z := foldl (fun a c => a * 10 + (code c - 48))%Z a s.

Lemma isdigit_range c : isdigit c = true -> (48 <= code c <= 57)%Z.
Proof. unfold isdigit. intros [H1 H2]%andb_true_iff. apply Z.leb_le in H1, H2. lia. Qed.

Lemma dval_ge s : forallb isdigit s = true -> forall a, (0 <= a)%Z -> (a <= dval a s)%Z.
Proof.
  induction s as [|c s IH]; intros H a Ha; cbn [dval foldl]; [lia|]. cbn in H. apply andb_true_iff in H as [Hc Hs]. apply isdigit_range in Hc.
  specialize (IH Hs (a * 10 + (code c - 48))%Z). unfold dval in IH. lia.
Qed.

Lemma from_digits_spec s : forallb isdigit s = true -> forall a, is_u64 a -> from_digits a s = Ret (fits_u64 (dval a s)).
Proof.
  induction s as [|c s IH]; intros H a Ha; cbn [from_digits].
  { unfold dval, fits_u64. cbn. by rewrite (proj2 (Z.ltb_lt _ _)) by apply Ha. }
  cbn in H. apply andb_true_iff in H as [Hc Hs]. pose proof (isdigit_range c Hc) as HR. unfold is_u64, u64_mod in *.
  pose proof (dval_ge s Hs (a * 10 + (code c - 48))%Z ltac:(lia)) as HG.
  rewrite mul_overflows_iff by (unfold is_u64, u64_mod; lia). unfold u64_mod. destruct (Z.ltb_spec (a * 10) 18446744073709551616) as [Hm|Hm]; cbn [negb].
  2: { unfold fits_u64, dval in *. cbn [foldl] in *. rewrite (proj2 (Z.ltb_ge _ _)); [done|unfold u64_mod; lia]. }
  rewrite Hc. cbn [assert_ obind]. rewrite add_overflows_iff by (unfold is_u64, u64_mod; lia). unfold u64_mod.
  destruct (Z.ltb_spec (a * 10 + (code c - 48)) 18446744073709551616) as [Hd|Hd]; cbn [negb].
  - rewrite IH by (done || lia). done.
  - unfold fits_u64, dval in *. cbn [foldl] in *. rewrite (proj2 (Z.ltb_ge _ _)); [done|unfold u64_mod; lia].
Qed.

Lemma scale_tens_spec k : forall a, is_u64 a -> scale_tens k a = fits_u64 (a * 10 ^ Z.of_nat k).
Proof.
  induction k as [|k IH]; intros a Ha; cbn [scale_tens].
  { unfold fits_u64. rewrite Z.mul_1_r. by rewrite (proj2 (Z.ltb_lt _ _)) by apply Ha. }
  rewrite mul_overflows_iff by (done || by split). rewrite Nat2Z.inj_succ, Z.pow_succ_r by lia.
  destruct (Z.ltb_spec (a * 10) u64_mod) as [H|H]; cbn [negb].
  - rewrite IH by (unfold is_u64 in *; lia). f_equal. lia.
  - unfold fits_u64. rewrite (proj2 (Z.ltb_ge _ _)); [done|]. unfold is_u64, u64_mod in *. pose proof (Z.pow_pos_nonneg 10 (Z.of_nat k) ltac:(lia) ltac:(lia)). nia.
Qed.

(** Digits and zeros behind them. *)
Lemma from_number_spec s k : forallb isdigit s = true -> s <> [] -> from_number s k = Ret (fits_u64 (dval 0 s * 10 ^ Z.of_nat k)).
Proof.
  intros Hs Hne. unfold from_number. destruct s as [|c r] eqn:E; [done|]. rewrite <- E in *. replace (length s =? 0) with false by (by rewrite E).
  rewrite from_digits_spec by (done || by split). cbn [obind]. f_equal. pose proof (dval_ge s Hs 0 ltac:(lia)) as H0.
  unfold fits_u64 at 1. destruct (Z.ltb_spec (dval 0 s) u64_mod) as [H|H]; cbn [mbind option_bind]; [by apply scale_tens_spec|].
  unfold fits_u64. rewrite (proj2 (Z.ltb_ge _ _)); [done|]. pose proof (Z.pow_pos_nonneg 10 (Z.of_nat k) ltac:(lia) ltac:(lia)). unfold u64_mod in *. nia.
Qed.

Lemma dval_snoc a s d : (0 <= d < 10)%Z -> dval a (s ++ [digit d]) = (dval a s * 10 + d)%Z.
Proof. intros H. unfold dval. rewrite foldl_app. cbn [foldl]. unfold digit. rewrite code_chr by lia. lia. Qed.

Lemma digit_isdigit d : (0 <= d < 10)%Z -> isdigit (digit d) = true.
Proof. intros H. unfold isdigit, digit. rewrite code_chr by lia. apply andb_true_iff. split; apply Z.leb_le; lia. Qed.

Lemma fmt_u_go_dval f : forall z, (0 <= z < 10 ^ Z.of_nat f)%Z -> dval 0 (fmt_u_go f z) = z /\ forallb isdigit (fmt_u_go f z) = true.
Proof.
  induction f as [|f IH]; intros z Hz; [cbn in *; split; [lia|done]|]. cbn [fmt_u_go]. rewrite Nat2Z.inj_succ, Z.pow_succ_r in Hz by lia.
  destruct (Z.ltb_spec z 10).
  - change [digit z] with ([] ++ [digit z]). rewrite dval_snoc by lia. cbn [forallb app]. rewrite digit_isdigit by lia. split; [cbn; lia|done].
  - pose proof (Z.div_mod z 10 ltac:(lia)). pose proof (Z.mod_pos_bound z 10 ltac:(lia)).
    destruct (IH (z / 10)%Z) as [E1 E2]; [split; [apply Z.div_pos; lia|apply Z.div_lt_upper_bound; lia]|].
    rewrite dval_snoc, E1, forallb_app, E2 by lia. cbn [forallb andb]. rewrite digit_isdigit by lia. split; [lia|done].
Qed.

Lemma fmt_u_number z : is_u64 z -> dval 0 (fmt_u z) = z /\ forallb isdigit (fmt_u z) = true /\ fmt_u z <> [].
Proof.
  intros H. unfold is_u64, u64_mod, fmt_u in *. destruct (fmt_u_go_dval 20 z) as [E1 E2]; [change (10 ^ Z.of_nat 20)%Z with 100000000000000000000%Z; lia|].
  split_and!; [done|done|]. intros E. rewrite E in E1. destruct (fmt_u_head 20 z) as (d & r & E' & _); [change (10 ^ Z.of_nat 20)%Z with 100000000000000000000%Z; lia|lia|].
  congruence.
Qed.

Lemma fmt_pad_number n : forall z, (0 <= z < 10 ^ Z.of_nat n)%Z -> dval 0 (fmt_pad n z) = z /\ forallb isdigit (fmt_pad n z) = true /\ length (fmt_pad n z) = n.
Proof.
  induction n as [|n IH]; intros z Hz; [cbn in *; split_and!; [lia|done|done]|]. cbn [fmt_pad]. rewrite Nat2Z.inj_succ, Z.pow_succ_r in Hz by lia.
  pose proof (Z.div_mod z 10 ltac:(lia)). pose proof (Z.mod_pos_bound z 10 ltac:(lia)).
  destruct (IH (z / 10)%Z) as (E1 & E2 & E3); [split; [apply Z.div_pos; lia|apply Z.div_lt_upper_bound; lia]|].
  rewrite dval_snoc, E1, forallb_app, E2, length_app, E3 by lia. cbn [forallb andb length]. rewrite digit_isdigit by lia. split_and!; [lia|done|lia].
Qed.

(** * Text *)

Lemma span_app d c r : forallb isdigit d = true -> isdigit c = false -> span_digits (d ++ c :: r) = (d, c :: r).
Proof.
  intros Hd Hc. induction d as [|x d IH]; cbn [app span_digits]; [by rewrite Hc|]. cbn in Hd. apply andb_true_iff in Hd as [-> Hd]. by rewrite IH.
Qed.

(** Digits and a suffix. *)
Lemma breakup_suffix d c r : forallb isdigit d = true -> isdigit c = false -> ch_eqb c NUL = false -> ch_in c (bs ".") = false ->
  breakup (d ++ c :: r) = Some (d, None, Some (c :: r)).
Proof. intros Hd Hc Hn Hp. unfold breakup. rewrite span_app by done. cbn [at_end]. by rewrite Hn, Hp. Qed.

(** Digits, a point, digits and a suffix. *)
Lemma breakup_point d e c r : forallb isdigit d = true -> forallb isdigit e = true -> isdigit c = false -> ch_eqb c NUL = false ->
  breakup (d ++ bs "." ++ e ++ c :: r) = Some (d, Some e, Some (c :: r)).
Proof.
  intros Hd He Hc Hn. unfold breakup. change (d ++ bs "." ++ e ++ c :: r) with (d ++ "."%char :: (e ++ c :: r)). rewrite span_app by done. cbn [at_end].
  change (ch_eqb "."%char NUL) with false. change (ch_in "."%char (bs ".")) with true. cbn iota. rewrite span_app by done. cbn [at_end]. by rewrite Hn.
Qed.

(** The three texts of an amount, as the parser sees them; [k] is the number of
    decimals of a bitcoin. *)
Lemma with_btc_whole k d r : forallb isdigit d = true -> d <> [] ->
  with_btc k d None (Some (bs "btc" ++ r)) = Ret (fits_u64 (dval 0 d * 10 ^ Z.of_nat k)).
Proof. intros Hd Hne. unfold with_btc. change (memstarts_str (Some (bs "btc" ++ r)) (bs "btc")) with true. cbn iota. by apply from_number_spec. Qed.

Lemma with_btc_point k z r : is_u64 z -> k <> 0 -> (10 ^ Z.of_nat k < u64_mod)%Z ->
  with_btc k (fmt_u (z / 10 ^ Z.of_nat k)) (Some (fmt_pad k (z mod 10 ^ Z.of_nat k))) (Some (bs "btc" ++ r)) = Ret (Some z).
Proof.
  intros Hz Hk Hp. unfold is_u64 in Hz. set (B := (10 ^ Z.of_nat k)%Z) in *. assert (HB : (0 < B)%Z) by (apply Z.pow_pos_nonneg; lia).
  pose proof (Z.div_mod z B ltac:(lia)) as HD. pose proof (Z.mod_pos_bound z B ltac:(lia)) as HM. pose proof (Z.div_pos z B ltac:(lia) ltac:(lia)) as HQ.
  assert (Hq : is_u64 (z / B)) by (unfold is_u64; nia). destruct (fmt_u_number (z / B) Hq) as (E1 & E2 & E3).
  destruct (fmt_pad_number k (z mod B) HM) as (F1 & F2 & F3).
  unfold with_btc. change (memstarts_str (Some (bs "btc" ++ r)) (bs "btc")) with true. cbn iota. cbn [from_option id]. unfold id. rewrite F3.
  rewrite (proj2 (Nat.ltb_lt _ _)) by lia. unfold from_numbers. rewrite F3, (proj2 (Nat.ltb_ge _ _)) by lia.
  rewrite from_number_spec, E1 by done. fold B. cbn [obind]. unfold fits_u64. rewrite (proj2 (Z.ltb_lt _ _)) by lia.
  rewrite Nat.sub_diag, from_number_spec, F1 by (done || by intros E; rewrite E in F3). cbn [obind]. change (10 ^ Z.of_nat 0)%Z with 1%Z.
  rewrite Z.mul_1_r. unfold fits_u64. rewrite (proj2 (Z.ltb_lt _ _)) by lia. rewrite add_overflows_iff by (unfold is_u64; nia).
  rewrite (proj2 (Z.ltb_lt _ _)) by lia. cbn [negb]. do 2 f_equal. lia.
Qed.

(** Amounts survive printing and parsing, in each of the units and in
    bitcoin with a decimal point, over the whole range of 64 bits; and the text of
    an amount in satoshi, read as millisatoshi, is the converted amount, or is
    refused when that does not fit. *)
Theorem amount_text_roundtrip z :
  is_u64 z ->
  parse_amount_msat (fmt_amount_msat (Msat z)) = Ret (Some (Msat z)) /\
  parse_amount_msat (fmt_amount_msat_btc (Msat z) true) = Ret (Some (Msat z)) /\
  parse_amount_sat (fmt_amount_sat (Sat z)) = Ret (Some (Sat z)) /\
  parse_amount_sat (fmt_amount_sat_btc (Sat z) true) = Ret (Some (Sat z)) /\
  parse_amount_msat (fmt_amount_sat (Sat z)) = Ret (amount_sat_to_msat (Sat z)).
Proof.
  intros Hz. destruct (fmt_u_number z Hz) as (E1 & E2 & E3). assert (HF : fits_u64 z = Some z) by (unfold fits_u64; by rewrite (proj2 (Z.ltb_lt _ _)) by apply Hz).
  assert (H0 : forall k, from_number (fmt_u z) 0 = Ret (Some z) /\ from_number (fmt_u z) k = Ret (fits_u64 (z * 10 ^ Z.of_nat k))).
  { intros k. rewrite !from_number_spec, E1 by done. change (10 ^ Z.of_nat 0)%Z with 1%Z. by rewrite Z.mul_1_r, HF. }
  assert (HB : forall b, breakup (fmt_u b ++ bs "msat") = breakup (fmt_u b ++ "m"%char :: bs "sat")) by done.
  split_and!.
  - unfold parse_amount_msat, fmt_amount_msat. cbn [millisatoshis]. change (bs "msat") with ("m"%char :: bs "sat") at 1. rewrite breakup_suffix by done.
    change (memstarts_str (Some ("m"%char :: bs "sat")) (bs "msat")) with true. cbn [andb]. by rewrite (proj1 (H0 0)).
  - unfold parse_amount_msat, fmt_amount_msat_btc. cbn [millisatoshis]. destruct (Z.eqb_spec z 0) as [->|Hne]; [reflexivity|].
    destruct (fmt_u_number (z / MSAT_PER_BTC)) as (_ & F2 & _).
    { unfold is_u64, MSAT_PER_BTC, MSAT_PER_SAT, SAT_PER_BTC, u64_mod in *. split; [apply Z.div_pos; lia|apply Z.div_lt_upper_bound; lia]. }
    change MSAT_PER_BTC with (10 ^ Z.of_nat 11)%Z in *.
    destruct (fmt_pad_number 11 (z mod 10 ^ Z.of_nat 11) ltac:(apply Z.mod_pos_bound; lia)) as (_ & F4 & _).
    change (bs "btc") with ("b"%char :: bs "tc"). rewrite breakup_point by done.
    pose proof (with_btc_point 11 z [] Hz ltac:(lia) ltac:(done)) as HP. rewrite app_nil_r in HP. change (bs "btc") with ("b"%char :: bs "tc") in HP.
    cbn [andb]. by rewrite HP.
  - unfold parse_amount_sat, fmt_amount_sat. cbn [satoshis]. change (bs "sat") with ("s"%char :: bs "at") at 1. rewrite breakup_suffix by done.
    change (memstarts_str (Some ("s"%char :: bs "at")) (bs "sat")) with true. cbn [andb]. by rewrite (proj1 (H0 0)).
  - unfold parse_amount_sat, fmt_amount_sat_btc. cbn [satoshis]. destruct (Z.eqb_spec z 0) as [->|Hne]; [reflexivity|].
    destruct (fmt_u_number (z / SAT_PER_BTC)) as (_ & F2 & _).
    { unfold is_u64, SAT_PER_BTC, u64_mod in *. split; [apply Z.div_pos; lia|apply Z.div_lt_upper_bound; lia]. }
    change SAT_PER_BTC with (10 ^ Z.of_nat 8)%Z in *.
    destruct (fmt_pad_number 8 (z mod 10 ^ Z.of_nat 8) ltac:(apply Z.mod_pos_bound; lia)) as (_ & F4 & _).
    change (bs "btc") with ("b"%char :: bs "tc"). rewrite breakup_point by done.
    pose proof (with_btc_point 8 z [] Hz ltac:(lia) ltac:(done)) as HP. rewrite app_nil_r in HP. change (bs "btc") with ("b"%char :: bs "tc") in HP.
    cbn [andb]. by rewrite HP.
  - unfold parse_amount_msat, fmt_amount_sat. cbn [satoshis]. change (bs "sat") with ("s"%char :: bs "at") at 1. rewrite breakup_suffix by done.
    change (memstarts_str (Some ("s"%char :: bs "at")) (bs "msat")) with false. change (memstarts_str (Some ("s"%char :: bs "at")) (bs "sat")) with true.
    cbn [andb]. rewrite (proj2 (H0 3)). cbn [obind]. change (10 ^ Z.of_nat 3)%Z with MSAT_PER_SAT. unfold amount_sat_to_msat, fits_u64. cbn [satoshis].
    rewrite mul_overflows_iff by (done || by split). by destruct (z * MSAT_PER_SAT <? u64_mod)%Z.
Qed.

Lemma amount_text_roundtrip_witness : parse_amount_msat (fmt_amount_msat_btc (Msat 2100000000000000000) true) = Ret (Some (Msat 2100000000000000000)).
Proof. apply (amount_text_roundtrip 2100000000000000000). by split. Defined.



(** Three things the amounts do that their comments do not say.  A text that
    starts with a zero and ends in msat is read as that many satoshi, a thousand
    times too much; anything may follow a unit; and an amount in millisatoshi is
    not less than one in satoshi when the latter does not fit when converted,
    although it is. *)
Theorem amount_surprises a s :
  is_u64 a -> is_u64 s ->
  parse_amount_sat (bs "0999msat") = Ret (Some (Sat 999)) /\ parse_amount_sat (bs "0msat") = Ret (Some (Sat 0)) /\
  parse_amount_sat (bs "000msat") = Ret None /\ parse_amount_msat (bs "5satellites") = Ret (Some (Msat 5000)) /\
  amount_msat_less_sat (Msat a) (Sat s) = (a <? s * 1000)%Z && (s * 1000 <? u64_mod)%Z /\
  amount_msat_greater_sat (Msat a) (Sat s) = (s * 1000 <? a)%Z.
Proof.
  intros Ha Hs. split_and!; [reflexivity..| |].
  all: unfold amount_msat_less_sat, amount_msat_greater_sat, compare_sat, amount_sat_to_msat, MSAT_PER_SAT; cbn [satoshis];
    rewrite mul_overflows_iff by (unfold is_u64, u64_mod in *; lia); unfold is_u64 in *.
  - destruct (Z.ltb_spec (s * 1000) u64_mod); cbn [negb millisatoshis]; [by rewrite andb_true_r|by rewrite andb_false_r].
  - destruct (Z.ltb_spec (s * 1000) u64_mod); cbn [negb millisatoshis]; [done|]. symmetry. apply Z.ltb_ge. lia.
Qed.

Lemma amount_surprises_witness : amount_msat_less_sat (Msat 1) (Sat 20000000000000000) = false.
Proof. apply (amount_surprises 1 20000000000000000); by split. Defined.

(** ** On the wire *)

#[export] Instance wire_amount_msat_laws : WireLaws amount_msat.
Proof.
  split; [|done]. intros [v] rest H. pose proof (wire_roundtrip (U64 v) rest H) as E. unfold to_wire, from_wire, wire_amount_msat, fromwire_amount_msat, towire_amount_msat; cbn [to_wire from_wire wire_u64 wire_amount_msat u64_val millisatoshis] in *.
  destruct (fromwire_u64 _) as [x c]. by injection E as -> ->.
Qed.

#[export] Instance wire_amount_sat_laws : WireLaws amount_sat.
Proof.
  split; [|done]. intros [v] rest H. pose proof (wire_roundtrip (U64 v) rest H) as E. unfold to_wire, from_wire, wire_amount_sat, fromwire_amount_sat, towire_amount_sat; cbn [to_wire from_wire wire_u64 wire_amount_sat u64_val satoshis] in *.
  destruct (fromwire_u64 _) as [x c]. by injection E as -> ->.
Qed.
