(* ===== verification/JsonOut.v ===== *)
(** ccan/json_escape and ccan/json_out, with the [json_add_*] functions of
    common/json.c and common/json_stream.c on top of them.

    An output is the bytes in its membuf and the [empty] flag that decides on
    the comma.  Memory never runs out (tal aborts), so the [jout] of a stream is
    never NULL and a stream is its output. *)
From S2P Require Import Prelude Utf8 Jsmn JsonTree Json.

(** * ccan/json_escape *)

(** A control byte (compared unsigned), DEL, a double quote or a backslash. *)
Definition escape_char (c : ascii) : bool :=
  (code c <? 32)%Z || (code c =? 127)%Z || ch_eqb c DQUOTE || ch_eqb c BACKSLASH.

Definition json_escape_needed (str : bytes) : bool := existsb escape_char str.

(** [%04X] of one byte. *)
Definition hex_upper (d : Z) : ascii := if (d <? 10)%Z then chr (48 + d) else chr (55 + d).
Definition fmt_04X (c : ascii) : bytes :=
  bs "00" ++ [hex_upper (code c / 16); hex_upper (code c mod 16)].

Definition BS : ascii := chr 8.
Definition FF : ascii := chr 12.

(** The letter of a standard escape, for the bytes that have one. *)
Definition escape_letter (c : ascii) : option ascii :=
  if ch_eqb c LF then Some "n"%char
  else if ch_eqb c BS then Some "b"%char
  else if ch_eqb c FF then Some "f"%char
  else if ch_eqb c TAB then Some "t"%char
  else if ch_eqb c CR then Some "r"%char
  else None.

(** A backslash or a quote stands for itself; other controls are [\uXXXX]. *)
Definition escape_default (c : ascii) : bytes :=
  if ch_eqb c BACKSLASH || ch_eqb c DQUOTE then [BACKSLASH; c]
  else if (code c <? 32)%Z || (code c =? 127)%Z then BACKSLASH :: "u"%char :: fmt_04X c
  else [c].

Definition escape_one (c : ascii) : bytes :=
  match escape_letter c with
  | Some e => [BACKSLASH; e]
  | None => escape_default c
  end.

(** [escape] with [partial] false. *)
Definition json_escape_len (str : bytes) : bytes := flat_map escape_one str.
Definition json_escape (str : bytes) : bytes := json_escape_len str.

Definition standard_escape (c : ascii) : bool := ch_in c (bs "nbftr/" ++ [BACKSLASH; DQUOTE]).

(** [escape] with [partial] true: escapes already there are kept. *)
Fixpoint json_partial_escape_go (fuel : nat) (str : bytes) : bytes :=
  match fuel with
  | O => []
  | S f =>
      match str with
      | [] => []
      | c :: r =>
          if ch_eqb c BACKSLASH then
            match r with
            | e :: r1 =>
                if standard_escape e then [BACKSLASH; e] ++ json_partial_escape_go f r1
                else
                  match r1 with
                  | h1 :: h2 :: h3 :: h4 :: r2 =>
                      if ch_in e (bs "u") && isxdigit h1 && isxdigit h2 && isxdigit h3 && isxdigit h4
                      then [BACKSLASH; e; h1; h2; h3; h4] ++ json_partial_escape_go f r2
                      else [BACKSLASH; BACKSLASH] ++ json_partial_escape_go f r
                  | _ => [BACKSLASH; BACKSLASH] ++ json_partial_escape_go f r
                  end
            | [] => [BACKSLASH; BACKSLASH]
            end
          else escape_one c ++ json_partial_escape_go f r
      end
  end.
Definition json_partial_escape (str : bytes) : bytes := json_partial_escape_go (length str) str.

Definition unescape_letter (c : ascii) : option ascii :=
  if ch_in c (bs "n") then Some LF
  else if ch_in c (bs "b") then Some BS
  else if ch_in c (bs "f") then Some FF
  else if ch_in c (bs "t") then Some TAB
  else if ch_in c (bs "r") then Some CR
  else if ch_in c ("/"%char :: [BACKSLASH; DQUOTE]) then Some c
  else None.

(** [json_escape_unescape] on the string's bytes; [None] is NULL. *)
Fixpoint json_escape_unescape (esc : bytes) : option bytes :=
  match esc with
  | [] => Some []
  | c :: r =>
      if negb (ch_eqb c BACKSLASH) then
        match json_escape_unescape r with Some u => Some (c :: u) | None => None end
      else
        match r with
        | [] => None
        | e :: r1 =>
            match unescape_letter e, json_escape_unescape r1 with
            | Some x, Some u => Some (x :: u)
            | _, _ => None
            end
        end
  end.

(** [json_escape_string_]: a copy with a NUL at the end, so that the string
    stops at the first NUL. *)
Definition json_escape_string_ (b : bytes) : bytes := until_nul b.

(** * ccan/json_out *)

Record json_out : Type := Jout { outbuf : bytes; empty : bool }.

Definition json_out_new : json_out := Jout [] true.

(** [json_out_member_direct], with the [extra] bytes the caller writes at the
    returned pointer. *)
Definition json_out_member_direct (jout : json_out) (fieldname : option bytes) (content : bytes) : json_out :=
  let comma := if empty jout then [] else bs "," in
  let field := match fieldname with Some f => quoted f ++ bs ":" | None => [] end in
  Jout (outbuf jout ++ comma ++ field ++ content) false.

Definition json_out_direct (jout : json_out) (content : bytes) : json_out :=
  Jout (outbuf jout ++ content) (empty jout).

Definition json_out_start (jout : json_out) (fieldname : option bytes) (type : bytes) : json_out :=
  let j := json_out_member_direct jout fieldname type in Jout (outbuf j) true.

Definition json_out_end (jout : json_out) (type : bytes) : json_out :=
  let j := json_out_direct jout type in Jout (outbuf j) false.

(** [json_out_addv] of the bytes the format produces. *)
Definition json_out_addv (jout : json_out) (fieldname : option bytes) (quote : bool) (fmt : bytes) : json_out :=
  let j := json_out_member_direct jout fieldname [] in
  let content := if quote then quoted (if json_escape_needed fmt then json_escape_len fmt else fmt) else fmt in
  Jout (outbuf j ++ content) (empty j).
Definition json_out_add (jout : json_out) (fieldname : option bytes) (quote : bool) (fmt : bytes) : json_out :=
  json_out_addv jout fieldname quote fmt.

Definition json_out_addstr (jout : json_out) (fieldname : option bytes) (str : bytes) : json_out :=
  json_out_member_direct jout fieldname
    (quoted (if json_escape_needed str then json_escape str else str)).

(** [None] is the NULL of an empty output. *)
Definition json_out_contents (jout : json_out) : option bytes :=
  match outbuf jout with [] => None | b => Some b end.

Definition json_out_add_splice (jout : json_out) (fieldname : option bytes) (src : json_out) : bool * json_out :=
  match json_out_contents src with
  | None => (false, jout)
  | Some p => (true, json_out_member_direct jout fieldname p)
  end.

Definition json_out_finished (jout : json_out) : json_out := Jout (outbuf jout) true.
Definition json_out_consume (jout : json_out) (n : nat) : json_out := Jout (drop n (outbuf jout)) (empty jout).

(** * common/json_stream.c and the output half of common/json.c *)

Definition new_json_stream : json_out := json_out_new.

Definition json_stream_append (js : json_out) (str : bytes) : json_out := json_out_direct js str.

(** [json_stream_double_cr]; the assertion is on the length. *)
Definition json_stream_double_cr (js : json_out) : outcome json_out :=
  let j := json_out_finished js in
  let contents := outbuf j in
  let! _ := assert_ (2 <=? length contents) "json_stream_double_cr: len >= 2" in
  match rev contents with
  | c1 :: c2 :: _ =>
      if ch_eqb c1 LF then
        if ch_eqb c2 LF then Ret j else Ret (json_stream_append j [LF])
      else Ret (json_stream_append j [LF; LF])
  | _ => Ret j
  end.

Definition json_array_start (js : json_out) (f : option bytes) : json_out := json_out_start js f (bs "[").
Definition json_array_end (js : json_out) : json_out := json_out_end js (bs "]").
Definition json_object_start (js : json_out) (f : option bytes) : json_out := json_out_start js f (bs "{").
Definition json_object_end (js : json_out) : json_out := json_out_end js (bs "}").

Definition json_add_member (js : json_out) (f : option bytes) (quote : bool) (fmt : bytes) : json_out :=
  json_out_addv js f quote fmt.
Definition json_add_jsonstr (js : json_out) (f : option bytes) (jsonstr : bytes) : json_out :=
  json_out_member_direct js f jsonstr.

(** [%d] and [%i] *)
Definition fmt_d (z : Z) : bytes := if (z <? 0)%Z then "-"%char :: fmt_u (- z) else fmt_u z.

Definition json_add_num (js : json_out) (f : option bytes) (value : Z) : json_out :=
  json_add_member js f false (fmt_u value).
Definition json_add_u64 (js : json_out) (f : option bytes) (value : Z) : json_out :=
  json_add_member js f false (fmt_u value).
Definition json_add_s64 (js : json_out) (f : option bytes) (value : Z) : json_out :=
  json_add_member js f false (fmt_d value).
Definition json_add_u32 (js : json_out) (f : option bytes) (value : Z) : json_out :=
  json_add_member js f false (fmt_u value).
Definition json_add_s32 (js : json_out) (f : option bytes) (value : Z) : json_out :=
  json_add_member js f false (fmt_d value).
Definition json_add_literal (js : json_out) (f : option bytes) (literal : bytes) : json_out :=
  json_out_member_direct js f literal.
(** [%.*s] stops at a NUL. *)
Definition json_add_stringn (js : json_out) (f : option bytes) (value : bytes) : json_out :=
  json_add_member js f true (until_nul value).
Definition json_add_string (js : json_out) (f : option bytes) (value : bytes) : json_out :=
  json_add_stringn js f value.
Definition json_add_bool (js : json_out) (f : option bytes) (value : bool) : json_out :=
  json_add_member js f false (if value then bs "true" else bs "false").
Definition json_add_null (js : json_out) (f : option bytes) : json_out :=
  json_add_member js f false (bs "null").

(** [hexchar] and [hex_encode] of ccan/str/hex. *)
Definition hexchar (d : Z) : ascii := if (d <? 10)%Z then chr (48 + d) else chr (87 + d).
Definition hex_encode (data : bytes) : bytes :=
  flat_map (fun c => [hexchar (code c / 16); hexchar (code c mod 16)]) data.

Definition json_add_hex (js : json_out) (f : option bytes) (data : bytes) : json_out :=
  json_out_member_direct js f (quoted (hex_encode data)).
Definition json_add_escaped_string (js : json_out) (f : option bytes) (esc : bytes) : json_out :=
  json_out_member_direct js f (quoted esc).

(** [json_add_tok]: the text of the token, as it is in the buffer. *)
Definition json_add_tok (js : json_out) (f : option bytes) (tok : list jsmntok) (buffer : bytes) : outcome json_out :=
  let! _ := assert_ (negb (type_eqb (ttype (cur tok)) JSMN_UNDEFINED)) "json_add_tok: undefined token" in
  Ret (json_out_member_direct js f (tok_full_text buffer (cur tok))).

Definition json_add_errcode (js : json_out) (f : option bytes) (code : Z) : json_out :=
  json_add_member js f false (fmt_d code).

(** * Hexadecimal text

    ccan/str/hex and the hex conversions of common/json.c: decoding, and that it
    inverts [hex_encode]. *)

Definition char_to_hex (c : ascii) : option Z :=
  let z := code c in
  if (48 <=? z)%Z && (z <=? 57)%Z then Some (z - 48)%Z
  else if (97 <=? z)%Z && (z <=? 102)%Z then Some (z - 97 + 10)%Z
  else if (65 <=? z)%Z && (z <=? 70)%Z then Some (z - 65 + 10)%Z
  else None.

(** [hex_decode] into a buffer of [bufsize] bytes; [None] is false. *)
Fixpoint hex_decode (str : bytes) (bufsize : nat) : option bytes :=
  match str with
  | c1 :: c2 :: r =>
      match char_to_hex c1, char_to_hex c2 with
      | Some v1, Some v2 =>
          match bufsize with
          | O => None
          | S k => cons (chr (Z.lor (Z.shiftl v1 4) v2)) <$> hex_decode r k
          end
      | _, _ => None
      end
  | [_] => None
  | [] => if bufsize =? 0 then Some [] else None
  end.

Definition hex_data_size (strlen : nat) : nat := strlen / 2.

(** [None] is NULL. *)
Definition json_tok_bin_from_hex (buffer : bytes) (tok : list jsmntok) : option bytes :=
  let str := tok_text buffer (cur tok) in hex_decode str (hex_data_size (length str)).

Definition json_to_sha256 (buffer : bytes) (tok : list jsmntok) : option bytes :=
  match ttype (cur tok) with
  | JSMN_STRING => hex_decode (tok_text buffer (cur tok)) 32
  | _ => None
  end.

(** * Round trip *)

Lemma hex_byte c :
  char_to_hex (hexchar (code c / 16)) = Some (code c / 16)%Z /\ char_to_hex (hexchar (code c mod 16)) = Some (code c mod 16)%Z /\
  chr (Z.lor (Z.shiftl (code c / 16) 4) (code c mod 16)) = c.
Proof. destruct c as [[] [] [] [] [] [] [] []]; by vm_compute. Qed.

Lemma hex_encode_cons c b : hex_encode (c :: b) = hexchar (code c / 16) :: hexchar (code c mod 16) :: hex_encode b.
Proof. reflexivity. Qed.

Lemma length_hex_encode b : length (hex_encode b) = 2 * length b.
Proof. induction b as [|c b IH]; [done|]. rewrite hex_encode_cons. cbn [length]. rewrite IH. lia. Qed.

Lemma hex_decode_encode b : hex_decode (hex_encode b) (length b) = Some b.
Proof.
  induction b as [|c b IH]; [done|]. rewrite hex_encode_cons. cbn [hex_decode length].
  destruct (hex_byte c) as (-> & -> & E). rewrite IH. cbn [fmap option_fmap option_map]. by rewrite E.
Qed.

Lemma hex_decode_sized b : hex_decode (hex_encode b) (hex_data_size (length (hex_encode b))) = Some b.
Proof. unfold hex_data_size. rewrite length_hex_encode, Nat.mul_comm, Nat.div_mul by done. apply hex_decode_encode. Qed.

(** What is decoded fills the buffer. *)
Lemma hex_decode_length str : forall n b, hex_decode str n = Some b -> length b = n /\ length str = 2 * n.
Proof.
  induction str as [str IH] using (induction_ltof1 _ (@length ascii)). unfold ltof in IH.
  destruct str as [|c1 [|c2 r]]; intros n b; cbn [hex_decode]; [destruct n; by intros [= <-]|done|].
  destruct (char_to_hex c1); [|done]. destruct (char_to_hex c2); [|done]. destruct n as [|k]; [done|].
  destruct (hex_decode r k) as [b'|] eqn:E; [|done]. intros [= <-]. apply IH in E as [H1 H2]; cbn [length]; lia.
Qed.
