(* ===== verification/JsonOutProofs.v ===== *)
(** Output and input agree: escaped strings are valid string bodies and
    unescape to the original, and the json_out calls of an object or an array
    print the text of its tree. *)
From S2P Require Import Prelude Utf8 Jsmn JsonTree JsmnProofs Json JsonProofs JsonOut.

(** * Escaping *)

(** Between two characters the decoder's state does not matter. *)
Lemma utf8_between st st' nm b :
  used_len st = total_len st -> used_len st' = total_len st' ->
  utf8_check_go st nm b = utf8_check_go st' nm b.
Proof.
  intros E E'. destruct b as [|c r]; [done|]. cbn [utf8_check_go]. unfold utf8_decode, bad_encoding.
  rewrite E, E', !Z.eqb_refl.
  destruct (Z.land (code c) 128 =? 0)%Z; [by destruct (code c =? 0)%Z|].
  destruct (Z.land (code c) 224 =? 192)%Z; [done|]. destruct (Z.land (code c) 240 =? 224)%Z; [done|].
  by destruct (Z.land (code c) 248 =? 240)%Z.
Qed.

Lemma utf8_ascii_run es : forall st nm r,
  forallb is_ascii es = true -> es <> [] -> used_len st = total_len st ->
  utf8_check_go st nm (es ++ r) = utf8_check_go UTF8_STATE_INIT false r.
Proof.
  induction es as [|c es IH]; intros st nm r Ha Hne E; [done|]. simpl in Ha. apply andb_true_iff in Ha as [Hc Ha].
  cbn [app utf8_check_go]. rewrite (ascii_decode c st Hc E).
  destruct es as [|c2 es]; [by apply utf8_between|]. by apply IH.
Qed.

(** The escape of a byte: itself, or an ASCII sequence for an ASCII byte. *)
Lemma escape_one_cases c :
  code c <> 0%Z ->
  escape_one c = [c] \/
  (escape_one c <> [] /\ forallb is_ascii (escape_one c) = true /\ is_ascii c = true /\ (Z.land (code c) 192 =? 128)%Z = false).
Proof. by_byte c. Qed.

Lemma utf8_nul st : utf8_check_go st true [] = false.
Proof. done. Qed.

Lemma utf8_check_escape_go s : forall st nm,
  utf8_check_go st nm s = true -> no_nul s -> utf8_check_go st nm (json_escape_len s) = true.
Proof.
  induction s as [|c s IH]; intros st nm H Hn; [done|]. apply Forall_cons in Hn as [Hc Hn].
  cbn [json_escape_len flat_map]. fold (json_escape_len s).
  assert (Hz : code c <> 0%Z) by (intros E; by apply Hc, code_nul).
  destruct (escape_one_cases c Hz) as [->|(Hne & Ha & Hca & Hl)].
  - cbn [app utf8_check_go] in *. destruct (utf8_decode st c) as [[[]|] st']; auto.
  - cbn [utf8_check_go] in H. destruct (decide (used_len st = total_len st)) as [E|E].
    + rewrite utf8_ascii_run by done. rewrite (ascii_decode c st Hca E) in H.
      rewrite (utf8_between _ UTF8_STATE_INIT) in H by done. auto.
    + unfold utf8_decode in H. rewrite (proj2 (Z.eqb_neq _ _) E), Hl in H. done.
Qed.

Lemma escape_body_one c r : code c <> 0%Z -> str_body (escape_one c ++ r) = str_body r.
Proof.
  intros Hc. destruct c as [[] [] [] [] [] [] [] []]; first [reflexivity | by destruct Hc].
Qed.

Lemma str_body_escape s : no_nul s -> str_body (json_escape_len s) = true.
Proof.
  induction s as [|c s IH]; intros Hn; [done|]. apply Forall_cons in Hn as [Hc Hn].
  cbn [json_escape_len flat_map]. rewrite escape_body_one; [by apply IH|].
  intros E. by apply Hc, code_nul.
Qed.

Lemma escape_one_plain c : escape_char c = false -> escape_one c = [c].
Proof. by_byte c. Qed.

Lemma escape_plain s : json_escape_needed s = false -> json_escape_len s = s.
Proof.
  unfold json_escape_needed. induction s as [|c s IH]; [done|]. cbn [existsb json_escape_len flat_map].
  intros [Hc Hs]%orb_false_iff. rewrite escape_one_plain by done. cbn [app]. f_equal. by apply IH.
Qed.

(** What [json_out_addstr] and quoted members print between the quotes. *)
Definition printed (s : bytes) : bytes := json_escape_len s.

Lemma printed_if s : (if json_escape_needed s then json_escape_len s else s) = printed s.
Proof. destruct (json_escape_needed s) eqn:E; [done|]. symmetry. by apply escape_plain. Qed.

Lemma printed_ok s : no_nul s -> utf8_check s = true -> str_ok (printed s) = true.
Proof.
  intros Hn Hu. unfold str_ok, printed. rewrite str_body_escape by done. simpl. by apply utf8_check_escape_go.
Qed.

(** The bytes that a backslash escape of one letter can carry. *)
Definition short_escape (c : ascii) : bool :=
  match escape_letter c with
  | Some _ => true
  | None => ch_eqb c BACKSLASH || ch_eqb c DQUOTE || negb ((code c <? 32)%Z || (code c =? 127)%Z)
  end.

Lemma unescape_one c r u :
  short_escape c = true -> json_escape_unescape r = Some u ->
  json_escape_unescape (escape_one c ++ r) = Some (c :: u).
Proof.
  intros Hc Hr. revert Hc.
  destruct c as [[] [] [] [] [] [] [] []]; vm_compute escape_one; vm_compute short_escape; intros Hc;
    try discriminate Hc; cbn [app json_escape_unescape]; rewrite Hr; reflexivity.
Qed.

Lemma unescape_escape s :
  forallb short_escape s = true -> json_escape_unescape (json_escape s) = Some s.
Proof.
  unfold json_escape. induction s as [|c s IH]; [done|]. cbn [forallb json_escape_len flat_map].
  intros [Hc Hs]%andb_true_iff. apply unescape_one; [done|by apply IH].
Qed.

(** * Printing objects and arrays *)

Lemma comma_join_snoc l x :
  comma_join (l ++ [x]) = comma_join l ++ (if decide (l = []) then [] else bs ",") ++ x.
Proof.
  induction l as [|y l IH]; [done|]. destruct l as [|z l]; [done|].
  rewrite decide_False by done. rewrite decide_False in IH by done.
  change (comma_join ((y :: z :: l) ++ [x])) with (y ++ bs "," ++ comma_join ((z :: l) ++ [x])).
  rewrite IH. change (comma_join (y :: z :: l)) with (y ++ bs "," ++ comma_join (z :: l)). by rewrite <- !app_assoc.
Qed.

(** The output has an object open after [base], with members [ms] so far. *)
Definition in_obj (js : json_out) (base : bytes) (ms : list jmember) : Prop :=
  outbuf js = base ++ members_text ms /\ empty js = bool_decide (ms = []).

Definition in_arr (js : json_out) (base : bytes) (es : list jelem) : Prop :=
  outbuf js = base ++ elems_text es /\ empty js = bool_decide (es = []).

Lemma in_obj_new : in_obj (json_object_start new_json_stream None) (bs "{") [].
Proof. done. Qed.

Lemma in_arr_new : in_arr (json_array_start new_json_stream None) (bs "[") [].
Proof. done. Qed.

Lemma member0_text k v : member_text (Member0 k v) = quoted k ++ bs ":" ++ text v.
Proof. unfold member_text, Member0; simpl. by rewrite app_nil_r. Qed.

Lemma elem0_text v : elem_text (Elem0 v) = text v.
Proof. unfold elem_text, Elem0; simpl. by rewrite app_nil_r. Qed.

(** Any of the adding functions, once it is known what it prints. *)
Lemma in_obj_add js base ms k v :
  in_obj js base ms ->
  in_obj (json_out_member_direct js (Some k) (text v)) base (ms ++ [Member0 k v]).
Proof.
  intros [H1 H2]. split; cbn [outbuf empty json_out_member_direct].
  - rewrite H1, H2. unfold members_text. rewrite map_app. cbn [map]. rewrite comma_join_snoc, member0_text.
    rewrite <- !app_assoc. do 2 f_equal. f_equal.
    destruct ms; [done|]. rewrite bool_decide_false by done. by rewrite decide_False.
  - symmetry. apply bool_decide_false. by destruct ms.
Qed.

Lemma in_arr_add js base es v :
  in_arr js base es -> in_arr (json_out_member_direct js None (text v)) base (es ++ [Elem0 v]).
Proof.
  intros [H1 H2]. split; cbn [outbuf empty json_out_member_direct].
  - rewrite H1, H2. unfold elems_text. rewrite map_app. cbn [map]. rewrite comma_join_snoc, elem0_text.
    rewrite <- !app_assoc. do 2 f_equal. f_equal.
    destruct es; [done|]. rewrite bool_decide_false by done. by rewrite decide_False.
  - symmetry. apply bool_decide_false. by destruct es.
Qed.

Lemma addv_direct js f quote fmt :
  json_out_addv js f quote fmt =
    json_out_member_direct js f (if quote then quoted (printed fmt) else fmt).
Proof.
  unfold json_out_addv, json_out_member_direct. cbn [outbuf empty]. rewrite printed_if.
  f_equal. rewrite app_nil_r, <- !app_assoc. done.
Qed.

Lemma addstr_direct js f s :
  json_out_addstr js f s = json_out_member_direct js f (quoted (printed s)).
Proof. unfold json_out_addstr, json_escape. by rewrite printed_if. Qed.

Lemma add_tok_direct js f pre v post rest :
  json_add_tok js f (toks (len pre) v ++ rest) (pre ++ text v ++ post)
  = Ret (json_out_member_direct js f (text v)).
Proof.
  unfold json_add_tok. rewrite tok_full_text_holds, cur_toks.
  destruct v; reflexivity.
Qed.

Lemma add_tok_holds js f buf tk v :
  holds buf tk v -> json_add_tok js f tk buf = Ret (json_out_member_direct js f (text v)).
Proof. intros (pre & post & rest & -> & -> & _). apply add_tok_direct. Qed.

(** Closing the outermost object or array. *)
Lemma in_obj_end js ms :
  in_obj js (bs "{") ms -> outbuf (json_object_end js) = text (JObj [] ms).
Proof.
  intros [H _]. cbn [json_object_end json_out_end json_out_direct outbuf]. rewrite H, text_obj. by rewrite <- !app_assoc.
Qed.

Lemma in_arr_end js es :
  in_arr js (bs "[") es -> outbuf (json_array_end js) = text (JArr [] es).
Proof.
  intros [H _]. cbn [json_array_end json_out_end json_out_direct outbuf]. rewrite H, text_arr. by rewrite <- !app_assoc.
Qed.

Lemma jv_ok_obj0 (l : list (bytes * jv)) :
  Forall (fun kv => str_ok kv.1 = true /\ jv_ok kv.2 = true) l ->
  jv_ok (JObj [] (map (fun kv => Member0 kv.1 kv.2) l)) = true.
Proof.
  intros H. cbn [jv_ok]. simpl. induction H as [|[k v] l [Hk Hv] _ IH]; [done|]. simpl in *. by rewrite Hk, Hv, IH.
Qed.

(** A printed object parses back. *)
Lemma parse_printed v :
  jv_ok v = true -> json_parse_simple (text v) (length (text v)) = Some (toks 0 v ++ [end_tok]).
Proof.
  intros Hv. pose proof (json_parse_simple_value [] v [] eq_refl eq_refl Hv) as H.
  cbn [app] in H. by rewrite app_nil_r in H.
Qed.

(** Nesting: opening an object member inside an object, and closing it. *)
Lemma in_obj_open js base ms k :
  in_obj js base ms ->
  in_obj (json_object_start js (Some k)) (outbuf (json_object_start js (Some k))) [].
Proof. intros _. split; [by rewrite app_nil_r|done]. Qed.

Lemma in_obj_close js base ms k js' ms' :
  in_obj js base ms -> in_obj js' (outbuf (json_object_start js (Some k))) ms' ->
  in_obj (json_object_end js') base (ms ++ [Member0 k (JObj [] ms')]).
Proof.
  intros HJ [H1 _]. pose proof (in_obj_add js base ms k (JObj [] ms') HJ) as [H2 _].
  split; [|symmetry; apply bool_decide_false; by destruct ms].
  rewrite <- H2. cbn [json_object_end json_out_end json_out_direct outbuf]. rewrite H1.
  cbn [json_object_start json_out_start outbuf json_out_member_direct]. rewrite text_obj. cbn [app].
  by rewrite <- !app_assoc.
Qed.

(** * The adding functions of common/json.c, inside an object *)

Lemma in_obj_string js base ms k s :
  in_obj js base ms -> no_nul s ->
  in_obj (json_add_string js (Some k) s) base (ms ++ [Member0 k (JStr (printed s))]).
Proof.
  intros H Hs. unfold json_add_string, json_add_stringn, json_add_member. rewrite until_nul_id, addv_direct by done.
  by apply (in_obj_add js base ms k (JStr (printed s))).
Qed.

Lemma in_obj_raw js base ms k s :
  in_obj js base ms -> in_obj (json_add_member js (Some k) false s) base (ms ++ [Member0 k (JPrim s)]).
Proof. intros H. unfold json_add_member. rewrite addv_direct. by apply (in_obj_add js base ms k (JPrim s)). Qed.

Lemma in_arr_string js base es s :
  in_arr js base es -> no_nul s ->
  in_arr (json_add_string js None s) base (es ++ [Elem0 (JStr (printed s))]).
Proof.
  intros H Hs. unfold json_add_string, json_add_stringn, json_add_member. rewrite until_nul_id, addv_direct by done.
  by apply (in_arr_add js base es (JStr (printed s))).
Qed.

(** Two newlines end every message. *)
Lemma double_cr_text js v :
  outbuf js = text v -> (exists w ms, v = JObj w ms) ->
  exists js', json_stream_double_cr js = Ret js' /\ outbuf js' = text v ++ [LF; LF].
Proof.
  intros Hj (w & ms & ->). unfold json_stream_double_cr. cbn [json_out_finished outbuf]. rewrite Hj, text_obj.
  assert (Hl : 2 <= length (bs "{" ++ w ++ members_text ms ++ bs "}")) by (rewrite !length_app; simpl; lia).
  rewrite (proj2 (Nat.leb_le _ _) Hl). cbn [assert_ obind].
  rewrite !rev_app_distr. cbn [bs String.list_ascii_of_string rev app].
  destruct (rev (members_text ms) ++ rev w) as [|c r]; cbn [app]; (eexists; split; [reflexivity|]);
    cbn [json_stream_append json_out_direct json_out_finished outbuf]; rewrite Hj, text_obj;
    by rewrite <- !app_assoc.
Qed.

Lemma fmt_d_ok z : (- u64_mod < z < u64_mod)%Z -> prim_ok (fmt_d z) = true.
Proof.
  intros Hz. unfold fmt_d. destruct (Z.ltb_spec z 0) as [Hn|Hn].
  - destruct (fmt_u_ok (- z) ltac:(lia)) as [H _]. destruct (fmt_u (- z)) eqn:E; [done|]. exact H.
  - by apply fmt_u_ok; lia.
Qed.

(** ** Nesting of arrays and objects *)

Lemma start_again js f : in_obj (json_object_start js f) (outbuf (json_object_start js f)) [].
Proof. split; [by rewrite app_nil_r|done]. Qed.

Lemma array_start_again js f : in_arr (json_array_start js f) (outbuf (json_array_start js f)) [].
Proof. split; [by rewrite app_nil_r|done]. Qed.

Lemma in_arr_close_obj js base es js' ms' :
  in_arr js base es -> in_obj js' (outbuf (json_object_start js None)) ms' ->
  in_arr (json_object_end js') base (es ++ [Elem0 (JObj [] ms')]).
Proof.
  intros HJ [H1 _]. pose proof (in_arr_add js base es (JObj [] ms') HJ) as [H2 _].
  split; [|symmetry; apply bool_decide_false; by destruct es].
  rewrite <- H2. cbn [json_object_end json_out_end json_out_direct outbuf]. rewrite H1.
  cbn [json_object_start json_out_start outbuf json_out_member_direct]. rewrite text_obj. cbn [app].
  by rewrite <- !app_assoc.
Qed.

Lemma in_obj_close_arr js base ms k js' es' :
  in_obj js base ms -> in_arr js' (outbuf (json_array_start js (Some k))) es' ->
  in_obj (json_array_end js') base (ms ++ [Member0 k (JArr [] es')]).
Proof.
  intros HJ [H1 _]. pose proof (in_obj_add js base ms k (JArr [] es') HJ) as [H2 _].
  split; [|symmetry; apply bool_decide_false; by destruct ms].
  rewrite <- H2. cbn [json_array_end json_out_end json_out_direct outbuf]. rewrite H1.
  cbn [json_array_start json_out_start outbuf json_out_member_direct]. rewrite text_arr. cbn [app].
  by rewrite <- !app_assoc.
Qed.
