(* ===== verification/JsonScan.v ===== *)
(** common/json.c: [json_scan], the guided extraction of fields.

    The guide is a C string; each [%] takes the next handler of the argument
    list, which stores a value or fails.  A malformed guide stops the process in
    an assertion.  The recursion follows the guide, so its length is fuel
    enough. *)
From S2P Require Import Prelude Utf8 Jsmn JsonTree Json.

Section Scan.
Context {V : Type}.

(** [JSON_SCAN(fmt, var)]: the function's name and the function. *)
Record scan_arg : Type := ScanArg { fmtname : bytes; fmt : bytes -> list jsmntok -> option V }.

(** What the scan mutates: the guide pointer, the va_list, the variables. *)
Record scan_state : Type := Scan { guide : bytes; args : list scan_arg; stored : list V }.

(** [Some errmsg], or [None] for success. *)
Definition scan_res : Type := outcome (option bytes * scan_state).

Definition set_guide (st : scan_state) (g : bytes) : scan_state := Scan g (args st) (stored st).

Definition show_tok (buffer : bytes) (tok : list jsmntok) : bytes := until_nul (tok_full_text buffer (cur tok)).

Definition handle_percent (buffer : bytes) (tok : list jsmntok) (st : scan_state) : scan_res :=
  match args st with
  | [] => Abort "handle_percent: no argument left"
  | a :: r =>
      match fmt a buffer tok with
      | Some v => Ret (None, Scan (guide st) r (stored st ++ [v]))
      | None =>
          Ret (Some (fmtname a ++ bs " could not parse " ++ show_tok buffer tok), Scan (guide st) r (stored st))
      end
  end.

Definition literal_char (c : ascii) : bool :=
  isdigit c || ((65 <=? code c)%Z && (code c <=? 90)%Z) || ((97 <=? code c)%Z && (code c <=? 122)%Z)
  || ch_in c (bs "_-").

(** [parse_literal]: the longest prefix of literal characters, and the rest. *)
Fixpoint parse_literal (guide : bytes) : bytes * bytes :=
  match guide with
  | c :: r => if literal_char c then let '(l, g) := parse_literal r in (c :: l, g) else ([], guide)
  | [] => ([], [])
  end.

(** [parse_number]: [strtol] in base 10, stored into a u32 (errno clear on entry). *)
Definition parse_number (guide : bytes) : outcome (Z * bytes) :=
  let '(ns, s1) := skip_space guide in
  let '(nsign, neg, s2) := take_sign s1 in
  let '(n, v) := digits 10 0 s2 in
  let l := if neg : bool then (- v)%Z else v in
  let! _ := assert_ (negb (n =? 0)) "parse_number: endp != *guide" in
  let! _ := assert_ ((LLONG_MIN <=? l)%Z && (l <=? LLONG_MAX)%Z) "parse_number: errno != ERANGE" in
  let! _ := assert_ (wrap32 l =? l)%Z "parse_number: *number == l" in
  Ret (l, drop (ns + nsign + n) guide).

Definition guide_is (g : bytes) (c : ascii) : bool :=
  match g with x :: _ => ch_eqb x c | [] => false end.

Definition guide_must_be (st : scan_state) (c : ascii) : outcome scan_state :=
  let! _ := assert_ (guide_is (guide st) c) "guide_must_be" in
  Ret (set_guide st (tl (guide st))).

(** The [for (;;)] of [parse_fieldlist] and [parse_arrlist]. *)
Fixpoint parse_list (fuel : nat) (item : scan_state -> scan_res) (st : scan_state) : scan_res :=
  match fuel with
  | O => Abort "json_scan: guide"
  | S f =>
      let! (err, st1) := item st in
      match err with
      | Some _ => Ret (err, st1)
      | None =>
          if guide_is (guide st1) ","%char then parse_list f item (set_guide st1 (tl (guide st1)))
          else Ret (None, st1)
      end
  end.

(** [parse_obj] and [parse_arr], given [parse_fieldval]. *)
Section Containers.
Context (fieldval : list jsmntok -> scan_state -> scan_res) (buffer : bytes).

Definition parse_field (tok : list jsmntok) (st : scan_state) : scan_res :=
  let '(memname, g) := parse_literal (guide st) in
  let! st1 := guide_must_be (set_guide st g) ":"%char in
  match json_get_membern buffer tok memname with
  | None => Ret (Some (bs "object does not have member " ++ memname), st1)
  | Some member => fieldval member st1
  end.

Definition parse_obj (tok : list jsmntok) (st : scan_state) : scan_res :=
  let! st1 := guide_must_be st "{"%char in
  if negb (type_eqb (ttype (cur tok)) JSMN_OBJECT)
  then Ret (Some (bs "token is not an object: " ++ show_tok buffer tok), st1)
  else
    let! (err, st2) := parse_list (S (length (guide st1))) (parse_field tok) st1 in
    match err with
    | Some _ => Ret (err, st2)
    | None => let! st3 := guide_must_be st2 "}"%char in Ret (None, st3)
    end.

Definition parse_arrelem (tok : list jsmntok) (st : scan_state) : scan_res :=
  let! (idx, g) := parse_number (guide st) in
  let! st1 := guide_must_be (set_guide st g) ":"%char in
  match json_get_arr tok (Z.to_nat idx) with
  | None => Ret (Some (bs "token has no index " ++ fmt_u idx ++ bs ": " ++ show_tok buffer tok), st1)
  | Some member => fieldval member st1
  end.

Definition parse_arr (tok : list jsmntok) (st : scan_state) : scan_res :=
  let! st1 := guide_must_be st "["%char in
  if negb (type_eqb (ttype (cur tok)) JSMN_ARRAY)
  then Ret (Some (bs "token is not an array: " ++ show_tok buffer tok), st1)
  else
    let! (err, st2) := parse_list (S (length (guide st1))) (parse_arrelem tok) st1 in
    match err with
    | Some _ => Ret (err, st2)
    | None => let! st3 := guide_must_be st2 "]"%char in Ret (None, st3)
    end.
End Containers.

Fixpoint parse_fieldval (fuel : nat) (buffer : bytes) (tok : list jsmntok) (st : scan_state) : scan_res :=
  match fuel with
  | O => Abort "json_scan: guide"
  | S f =>
      if guide_is (guide st) "{"%char then parse_obj (parse_fieldval f buffer) buffer tok st
      else if guide_is (guide st) "["%char then parse_arr (parse_fieldval f buffer) buffer tok st
      else if guide_is (guide st) "%"%char
           then handle_percent buffer tok (set_guide st (tl (guide st)))
      else
        let '(literal, g) := parse_literal (guide st) in
        if bool_decide (tok_text buffer (cur tok) = literal) then Ret (None, set_guide st g)
        else Ret (Some (show_tok buffer tok ++ bs " does not match expected " ++ literal), set_guide st g)
  end.

Definition parse_guide (buffer : bytes) (tok : list jsmntok) (st : scan_state) : scan_res :=
  let f := length (guide st) in
  if guide_is (guide st) "{"%char then parse_obj (parse_fieldval f buffer) buffer tok st
  else if guide_is (guide st) "["%char then parse_arr (parse_fieldval f buffer) buffer tok st
  else let! st1 := guide_must_be st "%"%char in handle_percent buffer tok st1.

(** [json_scan]: an error message, or the values stored, in guide order. *)
Definition json_scan (buffer : bytes) (tok : list jsmntok) (g : bytes) (a : list scan_arg)
  : outcome (bytes + list V) :=
  let! (err, st) := parse_guide buffer tok (Scan g a []) in
  match err with
  | Some msg =>
      Ret (inl (bs "Parsing '" ++ take (length g - length (guide st)) g ++ bs "': " ++ msg))
  | None =>
      let! _ := assert_ (match guide st with [] => true | _ => false end) "json_scanv: guide not consumed" in
      Ret (inr (stored st))
  end.
End Scan.
Arguments scan_arg : clear implicits.
Arguments scan_state : clear implicits.
