(* ===== verification/JsonEqual.v ===== *)
(** plugins/payz/json_equal.c: structural comparison of two JSON data.  At the end,
    plugins/payz/parsing.c: arrays of strings. *)
From S2P Require Import Prelude Utf8 Jsmn JsonTree JsmnProofs Json JsonProofs JsonOut JsonOutProofs.

(** * The code *)

(** The element loop of the array case: both pointers move with [json_next]. *)
Fixpoint equal_elems (eq : list jsmntok -> list jsmntok -> outcome bool) (n : nat)
    (tok1 tok2 : list jsmntok) : outcome bool :=
  match n with
  | O => Ret true
  | S m =>
      let! b := eq tok1 tok2 in
      if b : bool then equal_elems eq m (json_next tok1) (json_next tok2) else Ret false
  end.

(** [strncmp(...) == 0] on two token texts of the same length. *)
Definition strncmp_eq (a b : bytes) : bool := bool_decide (until_nul a = until_nul b).

Fixpoint json_equal_go (fuel : nat) (buffer1 : bytes) (tok1 : list jsmntok) (buffer2 : bytes) (tok2 : list jsmntok)
  : outcome bool :=
  match fuel with
  | O => Abort "json_equal: depth"
  | S f =>
      let t1 := cur tok1 in
      let t2 := cur tok2 in
      if negb (type_eqb (ttype t1) (ttype t2)) then Ret false
      else
        match ttype t1 with
        | JSMN_PRIMITIVE | JSMN_STRING =>
            if negb (tend t1 - tstart t1 =? tend t2 - tstart t2)%Z then Ret false
            else Ret (strncmp_eq (tok_text buffer1 t1) (tok_text buffer2 t2))
        | JSMN_ARRAY =>
            if negb (tsize t1 =? tsize t2)%Z then Ret false
            else equal_elems (fun a b => json_equal_go f buffer1 a buffer2 b) (Z.to_nat (tsize t1)) (tl tok1) (tl tok2)
        | JSMN_OBJECT =>
            if negb (tsize t1 =? tsize t2)%Z then Ret false
            else
              oall (fun key1 =>
                match json_get_membern buffer2 tok2 (tok_text buffer1 (cur key1)) with
                | None => Ret false
                | Some value2 => json_equal_go f buffer1 (tl key1) buffer2 value2
                end) (json_for_each_obj tok1)
        | JSMN_UNDEFINED | JSMN_END => Abort "json_equal: abort()"
        end
  end.

(** The depth of nesting is bounded by the number of tokens. *)
Definition json_equal (buffer1 : bytes) (tok1 : list jsmntok) (buffer2 : bytes) (tok2 : list jsmntok) : outcome bool :=
  json_equal_go (S (length tok1)) buffer1 tok1 buffer2 tok2.

(** * The comparison on trees *)

Fixpoint jequal (v1 v2 : jv) {struct v1} : bool :=
  match v1, v2 with
  | JPrim a, JPrim b => bool_decide (a = b)
  | JStr a, JStr b => bool_decide (a = b)
  | JArr _ es1, JArr _ es2 =>
      (length es1 =? length es2) &&
      (fix go l1 l2 :=
         match l1, l2 with
         | e1 :: r1, e2 :: r2 => jequal (e_val e1) (e_val e2) && go r1 r2
         | _, _ => true
         end) es1 es2
  | JObj _ ms1, JObj _ ms2 =>
      (length ms1 =? length ms2) &&
      forallb (fun m => match member_of ms2 (m_key m) with
                        | Some v => jequal (m_val m) v
                        | None => false
                        end) ms1
  | _, _ => false
  end.

Fixpoint jequal_elems (l1 l2 : list jelem) : bool :=
  match l1, l2 with
  | e1 :: r1, e2 :: r2 => jequal (e_val e1) (e_val e2) && jequal_elems r1 r2
  | _, _ => true
  end.

Lemma jequal_arr w1 es1 w2 es2 :
  jequal (JArr w1 es1) (JArr w2 es2) = (length es1 =? length es2) && jequal_elems es1 es2.
Proof. reflexivity. Qed.

(** * The code computes it *)

Lemma holds_cur buf tk v :
  holds buf tk v ->
  ttype (cur tk) = match v with JPrim _ => JSMN_PRIMITIVE | JStr _ => JSMN_STRING | JArr _ _ => JSMN_ARRAY | JObj _ _ => JSMN_OBJECT end
  /\ tsize (cur tk) = match v with JArr _ es => Z.of_nat (length es) | JObj _ ms => Z.of_nat (length ms) | _ => 0%Z end
  /\ (tend (cur tk) - tstart (cur tk))%Z = len (body v) /\ tok_text buf (cur tk) = body v.
Proof.
  intros (pre & post & rest & -> & -> & _). rewrite tok_text_holds, cur_toks.
  destruct v; rewrite ?toks_arr, ?toks_obj; cbn [cur hd ttype tsize tend tstart]; split_and!; try done;
    cbn [toks cur hd tend tstart body]; try change (text (JPrim s)) with s; lia.
Qed.

Lemma holds_length buf tk v : holds buf tk v -> length (toks 0 v) <= length tk.
Proof. intros (pre & post & rest & -> & -> & _). rewrite length_app, (toks_length 0 (len pre)). lia. Qed.

Lemma holds_obj buf tk w ms :
  holds buf tk (JObj w ms) ->
  Forall2 (holds_member buf) (json_for_each_obj tk) ms /\
  forall label, option_Forall2 (holds buf) (json_get_membern buf tk label) (member_of ms label).
Proof.
  intros (pre & post & rest & -> & -> & _ & Hok). split; [by apply for_each_obj_holds|].
  intros label. by apply json_get_member_holds.
Qed.

Lemma holds_arr buf tk w es :
  holds buf tk (JArr w es) -> Forall2 (holds buf) (json_for_each_arr tk) (map e_val es).
Proof. intros (pre & post & rest & -> & -> & _ & Hok). by apply for_each_arr_holds. Qed.

Lemma leaf_equal s1 s2 :
  no_nul s1 -> no_nul s2 ->
  (if negb (len s1 =? len s2)%Z then Ret false else Ret (strncmp_eq s1 s2)) = Ret (bool_decide (s1 = s2)).
Proof.
  intros H1 H2. unfold strncmp_eq. rewrite !until_nul_id by done. case_bool_decide as E; [by rewrite E, Z.eqb_refl|].
  by destruct (len s1 =? len s2)%Z.
Qed.

(** The loop over two arrays, once its body is known to compare elements. *)
Lemma equal_elems_spec (eq : list jsmntok -> list jsmntok -> outcome bool) b1 b2 es1 : forall es2 t1 t2,
  Forall2 (holds b1) (arr_iter (length es1) t1) (map e_val es1) ->
  Forall2 (holds b2) (arr_iter (length es2) t2) (map e_val es2) ->
  length es1 = length es2 ->
  Forall (fun e1 => forall v2 t1 t2, holds b1 t1 (e_val e1) -> holds b2 t2 v2 -> eq t1 t2 = Ret (jequal (e_val e1) v2)) es1 ->
  equal_elems eq (length es1) t1 t2 = Ret (jequal_elems es1 es2).
Proof.
  induction es1 as [|e1 es1 IH]; intros [|e2 es2] t1 t2 H1 H2 Hl Heq; try done.
  cbn [length arr_iter map] in *. inv H1. inv H2. apply Forall_cons in Heq as [Hq Heq].
  cbn [equal_elems jequal_elems]. rewrite (Hq (e_val e2)) by done. cbn [obind].
  destruct (jequal (e_val e1) (e_val e2)); [|done]. cbn [andb]. apply IH; auto.
Qed.

Lemma length_child_arr w es e : In e es -> length (toks 0 (e_val e)) < length (toks 0 (JArr w es)).
Proof.
  intros He. rewrite toks_arr. cbn [length]. destruct (elems_toks_child (0 + 1 + len w) es e He) as [o Ho].
  rewrite (toks_length 0 o). lia.
Qed.

Lemma length_child_obj w ms m : In m ms -> length (toks 0 (m_val m)) < length (toks 0 (JObj w ms)).
Proof.
  intros He. rewrite toks_obj. cbn [length]. destruct (members_toks_child (0 + 1 + len w) ms m He) as [o Ho].
  rewrite (toks_length 0 o). lia.
Qed.

Lemma json_equal_go_spec b1 b2 v1 : forall f v2 t1 t2,
  holds b1 t1 v1 -> holds b2 t2 v2 -> length (toks 0 v1) < f ->
  json_equal_go f b1 t1 b2 t2 = Ret (jequal v1 v2).
Proof.
  induction v1 as [s|s|w es IH|w ms IH] using jv_ind; intros f v2 t1 t2 H1 H2 Hf;
    (destruct f as [|f]; [lia|]); cbn [json_equal_go];
    destruct (holds_cur _ _ _ H1) as (T1 & S1 & L1 & B1); destruct (holds_cur _ _ _ H2) as (T2 & S2 & L2 & B2);
    rewrite T1, T2, ?S1, ?S2, ?L1, ?L2, ?B1, ?B2.
  - destruct v2; try done. cbn [type_eqb negb body]. apply leaf_equal; apply prim_ok_no_nul;
      [by destruct H1 as (? & ? & ? & _ & _ & _ & ?)|by destruct H2 as (? & ? & ? & _ & _ & _ & ?)].
  - destruct v2; try done. cbn [type_eqb negb body]. apply leaf_equal; apply str_ok_no_nul;
      [by destruct H1 as (? & ? & ? & _ & _ & _ & ?)|by destruct H2 as (? & ? & ? & _ & _ & _ & ?)].
  - destruct v2 as [| |w2 es2|]; try done. cbn [type_eqb negb]. rewrite jequal_arr.
    replace (bool_decide (JSMN_ARRAY = JSMN_ARRAY)) with true by done. cbn [negb].
    destruct (Nat.eqb_spec (length es) (length es2)) as [E|E].
    2: { by rewrite (proj2 (Z.eqb_neq _ _)) by lia. }
    rewrite (proj2 (Z.eqb_eq _ _)) by lia. cbn [negb andb]. rewrite Nat2Z.id.
    apply holds_arr in H1 as F1. apply holds_arr in H2 as F2. unfold json_for_each_arr in F1, F2.
    rewrite S1, Nat2Z.id in F1. rewrite S2, Nat2Z.id in F2. apply (equal_elems_spec _ b1 b2); try done.
    rewrite Forall_forall in *. intros e He v2 t1' t2' Ht1 Ht2. apply IH; try done.
    apply list_elem_of_In in He. pose proof (length_child_arr w es e He). lia.
  - destruct v2 as [| | |w2 ms2]; try done. cbn [type_eqb negb jequal].
    replace (bool_decide (JSMN_OBJECT = JSMN_OBJECT)) with true by done. cbn [negb].
    destruct (Nat.eqb_spec (length ms) (length ms2)) as [E|E].
    2: { by rewrite (proj2 (Z.eqb_neq _ _)) by lia. }
    rewrite (proj2 (Z.eqb_eq _ _)) by lia. cbn [negb andb].
    destruct (holds_obj _ _ _ _ H1) as [F1 _]. destruct (holds_obj _ _ _ _ H2) as [_ G2].
    apply (oall_Forall2 (holds_member b1)); [done|]. intros key m (_ & _ & Hk & _ & _ & Hv) Hm. rewrite Hk.
    destruct (G2 (m_key m)) as [t v Ht|]; [|done]. rewrite Forall_forall in IH. apply IH; try done.
    apply list_elem_of_In in Hm. pose proof (length_child_obj w ms m Hm). lia.
Qed.

Lemma json_equal_spec b1 t1 v1 b2 t2 v2 :
  holds b1 t1 v1 -> holds b2 t2 v2 -> json_equal b1 t1 b2 t2 = Ret (jequal v1 v2).
Proof. intros H1 H2. apply json_equal_go_spec; try done. pose proof (holds_length _ _ _ H1). lia. Qed.

(** * What it means

    Two values are equal when they differ only in white space and in the order
    of object members; for objects without repeated keys that is exactly what
    the code decides. *)

Inductive veq : jv -> jv -> Prop :=
| veq_prim s : veq (JPrim s) (JPrim s)
| veq_str s : veq (JStr s) (JStr s)
| veq_arr w1 w2 es1 es2 :
    Forall2 (fun a b => veq (e_val a) (e_val b)) es1 es2 -> veq (JArr w1 es1) (JArr w2 es2)
| veq_obj w1 w2 ms1 ms2 ms2' :
    ms2 ≡ₚ ms2' ->
    Forall2 (fun a b => m_key a = m_key b /\ veq (m_val a) (m_val b)) ms1 ms2' ->
    veq (JObj w1 ms1) (JObj w2 ms2).

(** No object repeats a key. *)
Fixpoint uniq (v : jv) : bool :=
  match v with
  | JPrim _ | JStr _ => true
  | JArr _ es => forallb (fun e => uniq (e_val e)) es
  | JObj _ ms => bool_decide (NoDup (map m_key ms)) && forallb (fun m => uniq (m_val m)) ms
  end.

Lemma find_key (ms : list jmember) k m :
  List.find (fun m => bool_decide (m_key m = k)) ms = Some m -> m ∈ ms /\ m_key m = k.
Proof.
  intros H. apply find_some in H as [Hin Hk]. apply bool_decide_eq_true in Hk. split; [by apply list_elem_of_In|done].
Qed.

Lemma find_unique (ms : list jmember) m :
  NoDup (map m_key ms) -> m ∈ ms -> List.find (fun m' => bool_decide (m_key m' = m_key m)) ms = Some m.
Proof.
  induction ms as [|x ms IH]; intros HN Hm; [by inv Hm|]. simpl in HN. apply NoDup_cons in HN as [Hx HN]. simpl.
  apply elem_of_cons in Hm as [->|Hm]; [by rewrite bool_decide_true|].
  rewrite bool_decide_false; [by apply IH|]. intros E. apply Hx. rewrite E. by apply (list_elem_of_fmap_2' m_key _ m).
Qed.

(** Distinct keys and as many members: the matches are a permutation. *)
Lemma match_members ms1 ms2 (P : jv -> jv -> Prop) :
  NoDup (map m_key ms1) -> length ms1 = length ms2 ->
  Forall (fun m => exists m2, m2 ∈ ms2 /\ m_key m = m_key m2 /\ P (m_val m) (m_val m2)) ms1 ->
  exists ms2', ms2 ≡ₚ ms2' /\ Forall2 (fun a b => m_key a = m_key b /\ P (m_val a) (m_val b)) ms1 ms2'.
Proof.
  intros HN Hl HF.
  assert (exists ms2', Forall2 (fun a b => m_key a = m_key b /\ P (m_val a) (m_val b)) ms1 ms2' /\ ms2' ⊆ ms2) as (ms2' & H2 & Hsub).
  { clear HN Hl. induction HF as [|m ms1 (m2 & Hin & Hk & Hp) _ (ms2' & H2 & Hsub)]; [exists []; split; [constructor|set_solver]|].
    exists (m2 :: ms2'). split; [by constructor|]. set_solver. }
  exists ms2'. split; [|done]. symmetry.
  assert (HK : map m_key ms2' = map m_key ms1).
  { clear -H2. induction H2 as [|a b l k [Hk _] _ IH]; [done|]. cbn [map]. by rewrite Hk, IH. }
  assert (HN2 : NoDup ms2') by (rewrite <- HK in HN; by eapply NoDup_fmap_1 in HN).
  apply NoDup_Permutation_bis.
  - by apply NoDup_ListNoDup.
  - apply Forall2_length in H2. lia.
  - intros x Hx. apply list_elem_of_In. apply Hsub. by apply list_elem_of_In.
Qed.

Lemma Forall2_left {A B : Type} (R : A -> B -> Prop) l k a :
  Forall2 R l k -> a ∈ l -> exists b, b ∈ k /\ R a b.
Proof.
  intros H Ha. apply list_elem_of_lookup in Ha as [i Hi].
  destruct (Forall2_lookup_l _ _ _ _ _ H Hi) as (b & Hb & HR). exists b. split; [by eapply list_elem_of_lookup_2|done].
Qed.

Lemma jequal_elems_iff es1 : forall es2,
  Forall (fun e => forall v2, uniq (e_val e) = true -> uniq v2 = true -> jequal (e_val e) v2 = true <-> veq (e_val e) v2) es1 ->
  forallb (fun e => uniq (e_val e)) es1 = true -> forallb (fun e => uniq (e_val e)) es2 = true ->
  length es1 = length es2 /\ jequal_elems es1 es2 = true <-> Forall2 (fun a b => veq (e_val a) (e_val b)) es1 es2.
Proof.
  induction es1 as [|e1 es1 IH]; intros [|e2 es2] HF U1 U2; cbn [length jequal_elems].
  - split; [constructor|done].
  - split; [by intros [? _]|by intros ?%Forall2_length].
  - split; [by intros [? _]|by intros ?%Forall2_length].
  - apply Forall_cons in HF as [He HF]. cbn [forallb] in U1, U2.
    apply andb_true_iff in U1 as [U1 U1']. apply andb_true_iff in U2 as [U2 U2'].
    rewrite Forall2_cons, <- (IH es2 HF U1' U2'), <- (He (e_val e2) U1 U2), andb_true_iff. split; [intros [[=] []]|intros (? & [=] & ?)]; auto.
Qed.

Lemma jequal_iff v1 : forall v2, uniq v1 = true -> uniq v2 = true -> jequal v1 v2 = true <-> veq v1 v2.
Proof.
  induction v1 as [s|s|w es IH|w ms IH] using jv_ind; intros v2 U1 U2.
  - destruct v2; simpl; rewrite ?bool_decide_eq_true; split; intros H; inv H; done || constructor.
  - destruct v2; simpl; rewrite ?bool_decide_eq_true; split; intros H; inv H; done || constructor.
  - destruct v2 as [| |w2 es2|]; try (split; intros H; inv H; done). rewrite jequal_arr, andb_true_iff, Nat.eqb_eq.
    rewrite (jequal_elems_iff es es2 IH U1 U2). split; [by constructor|by intros H; inv H].
  - destruct v2 as [| | |w2 ms2]; try (split; intros H; inv H; done). cbn [uniq] in U1, U2.
    apply andb_true_iff in U1 as [N1%bool_decide_eq_true U1]. apply andb_true_iff in U2 as [N2%bool_decide_eq_true U2].
    cbn [jequal]. rewrite andb_true_iff, Nat.eqb_eq, forallb_forall. rewrite forallb_forall in U1, U2. rewrite Forall_forall in IH. split.
    + intros [Hl HF]. destruct (match_members ms ms2 veq N1 Hl) as (ms2' & HP & H2); [|by econstructor].
      apply Forall_forall. intros m Hm. pose proof Hm as Hm'. apply list_elem_of_In in Hm'. specialize (HF m Hm'). unfold member_of in HF.
      destruct (List.find _ ms2) as [m2|] eqn:Ef; [|done]. cbn [fmap option_fmap option_map] in HF.
      apply find_key in Ef as [Hin Hk]. exists m2. split_and!; [done|done|]. apply IH; auto.
      apply U2. by apply list_elem_of_In.
    + intros H. inv H. match goal with H3 : ms2 ≡ₚ ?l, H4 : Forall2 _ ms ?l |- _ => rename H3 into HP; rename H4 into H2 end.
      split; [rewrite HP; by apply Forall2_length in H2|]. intros m Hm. apply list_elem_of_In in Hm.
      destruct (Forall2_left _ _ _ _ H2 Hm) as (m2 & Hin & Hk & Hv). rewrite <- HP in Hin.
      unfold member_of. rewrite Hk, (find_unique ms2 m2 N2 Hin). cbn [fmap option_fmap option_map]. apply IH; auto.
      * apply U1. by apply list_elem_of_In.
      * apply U2. by apply list_elem_of_In.
Qed.

(** * Arrays of strings

    plugins/payz/parsing.c: arrays of strings. *)

(** The element loop; [None] is the early [return tal_free(arr)]. *)
Fixpoint strings_of_tokens (buffer : bytes) (l : list (list jsmntok)) : option (list bytes) :=
  match l with
  | [] => Some []
  | j_str :: r =>
      if negb (type_eqb (ttype (cur j_str)) JSMN_STRING) then None
      else
        match json_escape_unescape (json_escape_string_ (tok_text buffer (cur j_str))) with
        | None => None
        | Some s => match strings_of_tokens buffer r with Some l' => Some (s :: l') | None => None end
        end
  end.

Definition json_to_array_of_strings (buffer : bytes) (tok : list jsmntok) : option (list bytes) :=
  if type_eqb (ttype (cur tok)) JSMN_STRING then
    match json_escape_unescape (json_escape_string_ (tok_text buffer (cur tok))) with
    | None => None
    | Some s => Some [s]
    end
  else if negb (type_eqb (ttype (cur tok)) JSMN_ARRAY) then None
  else strings_of_tokens buffer (json_for_each_arr tok).

(** * On trees *)

Definition string_of (v : jv) : option bytes :=
  match v with JStr s => json_escape_unescape s | _ => None end.

Fixpoint all_strings (l : list jv) : option (list bytes) :=
  match l with
  | [] => Some []
  | v :: r =>
      match string_of v, all_strings r with
      | Some s, Some l' => Some (s :: l')
      | _, _ => None
      end
  end.

(** A string stands for an array of one. *)
Definition strings_of (v : jv) : option (list bytes) :=
  match v with
  | JStr s => match json_escape_unescape s with Some u => Some [u] | None => None end
  | JArr _ es => all_strings (map e_val es)
  | _ => None
  end.

Lemma string_token buf tk v :
  holds buf tk v ->
  (if negb (type_eqb (ttype (cur tk)) JSMN_STRING) then None
   else json_escape_unescape (json_escape_string_ (tok_text buf (cur tk)))) = string_of v.
Proof.
  intros H. destruct (holds_cur _ _ _ H) as (T & _ & _ & B). rewrite T, B. destruct v; try done. simpl.
  unfold json_escape_string_. rewrite until_nul_id; [done|]. apply str_ok_no_nul.
  by destruct H as (? & ? & ? & _ & _ & _ & ?).
Qed.

Lemma strings_of_tokens_spec buf l vs :
  Forall2 (holds buf) l vs -> strings_of_tokens buf l = all_strings vs.
Proof.
  induction 1 as [|t v l vs H _ IH]; [done|]. cbn [strings_of_tokens all_strings].
  rewrite <- (string_token _ _ _ H), IH. by destruct (negb _); [|destruct (json_escape_unescape _)].
Qed.

Lemma json_to_array_of_strings_spec buf tk v :
  holds buf tk v -> json_to_array_of_strings buf tk = strings_of v.
Proof.
  intros H. unfold json_to_array_of_strings. destruct (holds_cur _ _ _ H) as (T & _ & _ & B).
  pose proof (string_token _ _ _ H) as HS. rewrite T in *. destruct v as [s|s|w es|w ms]; try done.
  - cbn [type_eqb negb] in *. cbn [string_of strings_of] in *. rewrite <- HS. done.
  - apply strings_of_tokens_spec. by eapply holds_arr.
Qed.

(** * Unescaping keeps C strings and UTF-8 *)

Lemma unescape_letter_ascii e x :
  unescape_letter e = Some x -> is_ascii x = true /\ is_ascii e = true /\ x <> NUL.
Proof. destruct e as [[] [] [] [] [] [] [] []]; intros H; inversion H; subst; by vm_compute. Qed.

Lemma unescape_utf8 n : forall esc u st nm,
  length esc <= n -> utf8_check_go st nm esc = true -> json_escape_unescape esc = Some u ->
  utf8_check_go st nm u = true.
Proof.
  induction n as [|n IH]; intros esc u st nm Hn H Hu; (destruct esc as [|c r]; [by simplify_eq/=|]); simpl in Hn; [lia|].
  cbn [json_escape_unescape] in Hu. unfold ch_eqb in Hu. destruct (Ascii.eqb_spec c BACKSLASH) as [->|Hc].
  - cbn [negb] in Hu. destruct r as [|e r1]; [done|]. simpl in Hn.
    destruct (unescape_letter e) as [x|] eqn:Ex; [|done].
    destruct (json_escape_unescape r1) as [u1|] eqn:E1; [|done]. simplify_eq.
    destruct (unescape_letter_ascii e x Ex) as (Ax & Ae & _).
    destruct (decide (used_len st = total_len st)) as [E|E].
    + change (BACKSLASH :: e :: r1) with ([BACKSLASH; e] ++ r1) in H. rewrite utf8_ascii_run in H by (done || simpl; by rewrite Ae).
      change (x :: u1) with ([x] ++ u1). rewrite utf8_ascii_run by (done || simpl; by rewrite Ax). eapply IH; [|done|done]. lia.
    + cbn [utf8_check_go] in H. unfold utf8_decode in H. rewrite (proj2 (Z.eqb_neq _ _) E) in H. done.
  - cbn [negb] in Hu. destruct (json_escape_unescape r) as [u1|] eqn:E1; [|done]. simplify_eq.
    cbn [utf8_check_go] in *. destruct (utf8_decode st c) as [[[]|] st']; try done; (eapply IH; [|done|done]; lia).
Qed.

Lemma unescape_no_nul n : forall esc u, length esc <= n -> no_nul esc -> json_escape_unescape esc = Some u -> no_nul u.
Proof.
  induction n as [|n IH]; intros esc u Hn H Hu; (destruct esc as [|c r]; [by simplify_eq/=|]); simpl in Hn; [lia|].
  cbn [json_escape_unescape] in Hu. apply Forall_cons in H as [Hc H]. destruct (negb (ch_eqb c BACKSLASH)).
  - destruct (json_escape_unescape r) eqn:E; [|done]. simplify_eq. constructor; [done|]. eapply IH; [|done|done]. lia.
  - destruct r as [|e r1]; [done|]. apply Forall_cons in H as [_ H]. simpl in Hn.
    destruct (unescape_letter e) as [x|] eqn:Ex; [|done].
    destruct (json_escape_unescape r1) as [u1|] eqn:E1; [|done]. simplify_eq.
    constructor; [by apply unescape_letter_ascii in Ex as (_ & _ & ?)|]. eapply IH; [|done|done]. lia.
Qed.

(** A C string in UTF-8, such as every name read from JSON. *)
Definition cstr (s : bytes) : Prop := no_nul s /\ utf8_check s = true.

Lemma string_of_cstr v s : jv_ok v = true -> string_of v = Some s -> cstr s.
Proof.
  destruct v as [|b| |]; try done. simpl. intros Hv Hs. split.
  - eapply unescape_no_nul; [reflexivity| |done]. by apply str_ok_no_nul.
  - eapply unescape_utf8; [reflexivity| |done]. by apply str_ok_utf8.
Qed.

Lemma strings_of_cstr v l : jv_ok v = true -> strings_of v = Some l -> Forall cstr l.
Proof.
  destruct v as [|b|w es|]; try done.
  - intros Hv Hs. simpl in Hs. destruct (json_escape_unescape b) eqn:E; simplify_eq. constructor; [|done].
    by apply (string_of_cstr (JStr b)).
  - intros Hv. cbn [strings_of jv_ok] in *. apply andb_true_iff in Hv as [_ Hv]. revert l.
    induction es as [|e es IH]; intros l Hl; simpl in *; [by simplify_eq|].
    apply andb_true_iff in Hv as [He Hes]. destruct (string_of (e_val e)) eqn:E1; [|done].
    destruct (all_strings (map e_val es)) eqn:E2; [|done]. simplify_eq. constructor; [|by apply IH].
    eapply string_of_cstr; [|done]. apply andb_true_iff in He as [He _]. by apply andb_true_iff in He as [_ ?].
Qed.
