(* ===== verification/JsonScanProofs.v ===== *)
(** [json_scan] with the guides of the plugin: one field, or one field of a
    field. *)
From S2P Require Import Prelude Utf8 Jsmn JsonTree JsmnProofs Json JsonProofs JsonEqual JsonScan.

(** The field of an object. *)
Definition field_of (v : jv) (f : bytes) : option jv :=
  match v with JObj _ ms => member_of ms f | _ => None end.

Lemma get_field buf tk v f :
  holds buf tk v -> option_Forall2 (holds buf) (json_get_membern buf tk f) (field_of v f).
Proof.
  intros H. destruct v as [s|s|w es|w ms]; cbn [field_of]; try by apply (holds_obj _ _ _ _ H).
  all: change (json_get_membern buf tk f) with (json_get_member buf tk f);
    rewrite json_get_member_not_obj; [constructor|]; destruct (holds_cur _ _ _ H) as (-> & _); done.
Qed.

Lemma field_some {A B} (R : A -> B -> Prop) x b : option_Forall2 R x (Some b) -> exists a, x = Some a /\ R a b.
Proof. inversion 1. eauto. Qed.

Lemma field_none {A B} (R : A -> B -> Prop) x : option_Forall2 R x None -> x = None.
Proof. by inversion 1. Qed.

Section Scan.
Context {V : Type}.
Implicit Types (st : scan_state V) (a : scan_arg V).

Lemma parse_literal_app f c g :
  forallb literal_char f = true -> literal_char c = false -> parse_literal (f ++ c :: g) = (f, c :: g).
Proof.
  intros Hf Hc. induction f as [|x f IH]; cbn [app parse_literal]; [by rewrite Hc|].
  cbn [forallb] in Hf. apply andb_true_iff in Hf as [-> Hf]. by rewrite IH.
Qed.

Lemma parse_field_step fv buf tk f g r (l : list V) :
  forallb literal_char f = true ->
  parse_field fv buf tk (Scan (f ++ bs ":" ++ g) r l) =
    match json_get_membern buf tk f with
    | None => Ret (Some (bs "object does not have member " ++ f), Scan g r l)
    | Some t => fv t (Scan g r l)
    end.
Proof.
  intros Hf. unfold parse_field. cbn [guide]. change (bs ":" ++ g) with (":"%char :: g).
  rewrite parse_literal_app by done. reflexivity.
Qed.

(** An object guide with a single field. *)
Lemma parse_obj_step fv buf tk v f g r (l : list V) :
  holds buf tk v -> forallb literal_char f = true ->
  match field_of v f with
  | None => exists m st, parse_obj fv buf tk (Scan (bs "{" ++ f ++ bs ":" ++ g) r l) = Ret (Some m, st)
  | Some u => exists t, holds buf t u /\
      (forall m st, fv t (Scan g r l) = Ret (Some m, st) ->
        parse_obj fv buf tk (Scan (bs "{" ++ f ++ bs ":" ++ g) r l) = Ret (Some m, st)) /\
      (forall g' r' l', fv t (Scan g r l) = Ret (None, Scan (bs "}" ++ g') r' l') ->
        parse_obj fv buf tk (Scan (bs "{" ++ f ++ bs ":" ++ g) r l) = Ret (None, Scan g' r' l'))
  end.
Proof.
  intros Hv Hf. unfold parse_obj. cbn [guide bs app guide_must_be guide_is assert_ obind].
  change (guide_must_be (Scan (bs "{" ++ f ++ bs ":" ++ g) r l) "{"%char) with (Ret (Scan (f ++ bs ":" ++ g) r l)).
  cbn [obind]. pose proof (get_field buf tk v f Hv) as HG. destruct (holds_cur _ _ _ Hv) as (HT & _).
  destruct (type_eqb (ttype (cur tk)) JSMN_OBJECT) eqn:Eo; cbn [negb].
  2: { assert (field_of v f = None) as -> by (rewrite HT in Eo; by destruct v). eauto. }
  cbn [guide parse_list]. rewrite parse_field_step by done.
  destruct HG as [t u Ht|]; [|eauto]. exists t. split; [done|]. split.
  - intros m st ->. reflexivity.
  - intros g' r' l' ->. reflexivity.
Qed.

Lemma handle_percent_step buf t a r g (l : list V) :
  match fmt a buf t with
  | Some x => handle_percent buf t (Scan g (a :: r) l) = Ret (None, Scan g r (l ++ [x]))
  | None => exists m, handle_percent buf t (Scan g (a :: r) l) = Ret (Some m, Scan g r l)
  end.
Proof. unfold handle_percent. cbn [args guide stored]. destruct (fmt a buf t); [done|eauto]. Qed.

(** What a scan for one value comes to: the value, or an error message. *)
Definition scan_result (o : option V) (x : outcome (bytes + list V)) : Prop :=
  match o with Some v => x = Ret (inr [v]) | None => exists m, x = Ret (inl m) end.

(** [{f:%}] *)
Lemma scan_field buf tk v f a :
  holds buf tk v -> forallb literal_char f = true ->
  match field_of v f with
  | None => exists m, json_scan buf tk (bs "{" ++ f ++ bs ":%}") [a] = Ret (inl m)
  | Some u => exists t, holds buf t u /\ scan_result (fmt a buf t) (json_scan buf tk (bs "{" ++ f ++ bs ":%}") [a])
  end.
Proof.
  intros Hv Hf. unfold json_scan, parse_guide.
  change (guide_is (guide (Scan (bs "{" ++ f ++ bs ":%}") [a] [])) "{"%char) with true. cbn iota.
  set (fv := parse_fieldval (length (guide (Scan (bs "{" ++ f ++ bs ":%}") [a] []))) buf).
  assert (Hfv : forall t, fv t (Scan (bs "%}") [a] []) = handle_percent buf t (Scan (bs "}") [a] [])).
  { intros t. subst fv. cbn [guide app bs]. destruct f; reflexivity. }
  pose proof (parse_obj_step fv buf tk v f (bs "%}") [a] [] Hv Hf) as HP.
  change (bs ":" ++ bs "%}") with (bs ":%}") in HP.
  destruct (field_of v f) as [u|].
  - destruct HP as (t & Ht & He & Hs). exists t. split; [done|]. specialize (Hfv t).
    pose proof (handle_percent_step buf t a [] (bs "}") []) as HH. destruct (fmt a buf t) as [x|].
    + rewrite (Hs [] [] [x]) by (rewrite Hfv; exact HH). reflexivity.
    + destruct HH as [m HH]. rewrite (He m (Scan (bs "}") [] [])) by (rewrite Hfv; exact HH). simpl. eauto.
  - destruct HP as (m & st & ->). simpl. eauto.
Qed.

(** [{f:{g:%}}] *)
Lemma scan_field2 buf tk v f g a :
  holds buf tk v -> forallb literal_char f = true -> forallb literal_char g = true ->
  let G := bs "{" ++ f ++ bs ":{" ++ g ++ bs ":%}}" in
  match field_of v f ≫= fun u => field_of u g with
  | None => exists m, json_scan buf tk G [a] = Ret (inl m)
  | Some u => exists t, holds buf t u /\ scan_result (fmt a buf t) (json_scan buf tk G [a])
  end.
Proof.
  intros Hv Hf Hg G. unfold json_scan, parse_guide. change (guide_is (guide (Scan G [a] [])) "{"%char) with true. cbn iota.
  set (fv := parse_fieldval (length (guide (Scan G [a] []))) buf).
  assert (Hl : exists k, length (guide (Scan G [a] [])) = S (S k)) by (subst G; cbn; rewrite !length_app; eexists; simpl; f_equal; rewrite Nat.add_succ_r; reflexivity).
  destruct Hl as [k Hl]. set (fv2 := parse_fieldval (V := V) (S k) buf).
  assert (Hfv : forall t, fv t (Scan (bs "{" ++ g ++ bs ":%}}") [a] []) = parse_obj fv2 buf t (Scan (bs "{" ++ g ++ bs ":%}}") [a] [])).
  { intros t. subst fv. rewrite Hl. reflexivity. }
  assert (Hfv2 : forall t, fv2 t (Scan (bs "%}}") [a] []) = handle_percent buf t (Scan (bs "}}") [a] [])) by reflexivity.
  pose proof (parse_obj_step fv buf tk v f (bs "{" ++ g ++ bs ":%}}") [a] [] Hv Hf) as HP.
  change (bs "{" ++ f ++ bs ":" ++ bs "{" ++ g ++ bs ":%}}") with G in HP.
  destruct (field_of v f) as [u1|]; cbn [mbind option_bind].
  2: { destruct HP as (m & st & ->). simpl. eauto. }
  destruct HP as (t1 & Ht1 & He1 & Hs1). specialize (Hfv t1).
  pose proof (parse_obj_step fv2 buf t1 u1 g (bs "%}}") [a] [] Ht1 Hg) as HQ.
  change (bs ":" ++ bs "%}}") with (bs ":%}}") in HQ.
  destruct (field_of u1 g) as [u2|].
  2: { destruct HQ as (m & st & E). rewrite (He1 m st) by (rewrite Hfv; exact E). simpl. eauto. }
  destruct HQ as (t2 & Ht2 & He2 & Hs2). exists t2. split; [done|].
  pose proof (handle_percent_step buf t2 a [] (bs "}}") []) as HH. specialize (Hfv2 t2).
  destruct (fmt a buf t2) as [x|].
  - rewrite (Hs1 [] [] [x]); [reflexivity|]. rewrite Hfv. apply Hs2. rewrite Hfv2. exact HH.
  - destruct HH as [m HH]. rewrite (He1 m (Scan (bs "}}") [] [])); [simpl; eauto|].
    rewrite Hfv. apply He2. rewrite Hfv2. exact HH.
Qed.

(** [f1:%,f2:%,...] *)
Fixpoint fields_guide (fs : list bytes) : bytes :=
  match fs with
  | [] => []
  | [f] => f ++ bs ":%"
  | f :: r => f ++ bs ":%," ++ fields_guide r
  end.

(** A field with its handler and the value the handler gives. *)
Definition item_scans (buf : bytes) (tk : list jsmntok) (i : bytes * scan_arg V * V) : Prop :=
  forallb literal_char i.1.1 = true /\ exists t, json_get_membern buf tk i.1.1 = Some t /\ fmt i.1.2 buf t = Some i.2.

Lemma parse_list_fields buf tk k items : forall fuel g (r : list (scan_arg V)) (l : list V),
  items <> [] -> Forall (item_scans buf tk) items -> length items <= fuel ->
  parse_list fuel (parse_field (parse_fieldval (S k) buf) buf tk)
    (Scan (fields_guide (map (fun i => i.1.1) items) ++ bs "}" ++ g) (map (fun i => i.1.2) items ++ r) l)
  = Ret (None, Scan (bs "}" ++ g) r (l ++ map snd items)).
Proof.
  induction items as [|[[f a] x] items IH]; intros fuel g r l Hne HF Hl; [done|]. destruct fuel as [|fuel]; [cbn in Hl; lia|].
  apply Forall_cons in HF as [(Hf & t & Et & Ea) HF]. cbn [fst snd] in *.
  assert (HS : forall g', parse_field (parse_fieldval (S k) buf) buf tk (Scan (f ++ bs ":" ++ bs "%" ++ g') (a :: map (fun i => i.1.2) items ++ r) l)
    = Ret (None, Scan g' (map (fun i => i.1.2) items ++ r) (l ++ [x]))).
  { intros g'. rewrite parse_field_step, Et by done.
    change (parse_fieldval (S k) buf t (Scan (bs "%" ++ g') (a :: map (fun i => i.1.2) items ++ r) l))
      with (handle_percent buf t (Scan g' (a :: map (fun i => i.1.2) items ++ r) l)).
    pose proof (handle_percent_step buf t a (map (fun i => i.1.2) items ++ r) g' l) as HP. by rewrite Ea in HP. }
  destruct items as [|i items].
  - cbn [map fields_guide app fst snd parse_list]. rewrite <- !app_assoc. change (bs ":%" ++ bs "}" ++ g) with (bs ":" ++ bs "%" ++ (bs "}" ++ g)).
    cbn [map app] in HS. rewrite HS. reflexivity.
  - cbn [parse_list]. change (map (fun i0 => i0.1.1) ((f, a, x) :: i :: items)) with (f :: map (fun i0 => i0.1.1) (i :: items)).
    change (fields_guide (f :: map (fun i0 => i0.1.1) (i :: items))) with (f ++ bs ":%," ++ fields_guide (map (fun i0 => i0.1.1) (i :: items))).
    rewrite <- !app_assoc. set (G := fields_guide _ ++ bs "}" ++ g). change (bs ":%," ++ G) with (bs ":" ++ bs "%" ++ (bs "," ++ G)).
    change (map (fun i0 => i0.1.2) ((f, a, x) :: i :: items) ++ r) with (a :: (map (fun i0 => i0.1.2) (i :: items) ++ r)). rewrite HS. cbn [obind].
    change (guide_is (guide (Scan (bs "," ++ G) (map (fun i0 => i0.1.2) (i :: items) ++ r) (l ++ [x]))) ","%char) with true. cbn iota.
    change (set_guide (Scan (bs "," ++ G) (map (fun i0 => i0.1.2) (i :: items) ++ r) (l ++ [x])) (tl (guide (Scan (bs "," ++ G) (map (fun i0 => i0.1.2) (i :: items) ++ r) (l ++ [x])))))
      with (Scan G (map (fun i0 => i0.1.2) (i :: items) ++ r) (l ++ [x])).
    unfold G. rewrite IH; [|done|done|cbn [length] in *; lia]. by rewrite <- app_assoc.
Qed.

(** All fields at once. *)
Lemma scan_fields buf tk items :
  items <> [] -> ttype (cur tk) = JSMN_OBJECT -> Forall (item_scans buf tk) items ->
  json_scan buf tk (bs "{" ++ fields_guide (map (fun i => i.1.1) items) ++ bs "}") (map (fun i => i.1.2) items) = Ret (inr (map snd items)).
Proof.
  intros Hne Ht HF. set (fs := fields_guide _).
  assert (Hl : length items <= length (fs ++ bs "}")).
  { unfold fs. clear. induction items as [|i [|j items] IH]; [cbn; lia|cbn; rewrite !length_app; cbn; lia|].
    change (map (fun i => i.1.1) (i :: j :: items)) with (i.1.1 :: map (fun i => i.1.1) (j :: items)).
    change (fields_guide (i.1.1 :: map (fun i => i.1.1) (j :: items))) with (i.1.1 ++ bs ":%," ++ fields_guide (map (fun i => i.1.1) (j :: items))).
    rewrite <- !app_assoc. rewrite (length_app i.1.1), (length_app (bs ":%,")). cbn [length] in *. change (length (bs ":%,")) with 3. lia. }
  unfold json_scan, parse_guide. change (guide_is (guide (Scan (bs "{" ++ fs ++ bs "}") (map (fun i => i.1.2) items) [])) "{"%char) with true. cbn iota.
  change (length (guide (Scan (bs "{" ++ fs ++ bs "}") (map (fun i => i.1.2) items) []))) with (S (length (fs ++ bs "}"))).
  unfold parse_obj. change (guide_must_be (Scan (bs "{" ++ fs ++ bs "}") (map (fun i => i.1.2) items) []) "{"%char) with (Ret (Scan (fs ++ bs "}") (map (fun i => i.1.2) items) [] : scan_state V)).
  cbn [obind]. rewrite Ht. cbn [type_eqb negb guide].
  pose proof (parse_list_fields buf tk (length (fs ++ bs "}")) items (S (length (fs ++ bs "}"))) [] [] [] Hne HF ltac:(lia)) as HP.
  rewrite !app_nil_r in HP. fold fs in HP. rewrite HP. reflexivity.
Qed.
End Scan.

(** * Where the values come from *)

(** Every value that is stored was made by one of the arguments. *)
Section Values.
Context {V : Type} (P : V -> Prop).

Definition makes (a : scan_arg V) : Prop := forall buf t v, fmt a buf t = Some v -> P v.
Definition all_made (st : scan_state V) : Prop := Forall makes (args st) /\ Forall P (stored st).
Definition keeps (f : scan_state V -> scan_res) : Prop := forall st err st', all_made st -> f st = Ret (err, st') -> all_made st'.

Lemma must_be_made st c st' : all_made st -> guide_must_be st c = Ret st' -> all_made st'.
Proof. unfold guide_must_be. intros H. destruct (assert_ _ _) as [[]|]; [|done]. by intros [= <-]. Qed.

Lemma percent_made buf t : keeps (handle_percent buf t).
Proof.
  intros st err st' [HA HS]. unfold handle_percent. destruct (args st) as [|a r]; [done|]. inv HA.
  destruct (fmt a buf t) as [v|] eqn:E; intros H; simplify_eq; split; cbn; try done. rewrite Forall_app. split; [done|]. constructor; [|done]. by eapply H1.
Qed.

Lemma list_made fuel item : keeps item -> keeps (parse_list fuel item).
Proof.
  intros HI. induction fuel as [|f IH]; intros st err st' H; cbn [parse_list]; [done|].
  destruct (item st) as [[e st1]|] eqn:E; [|done]. cbn [obind]. apply (HI _ _ _ H) in E. destruct e; [intros ?; by simplify_eq|].
  destruct (guide_is _ _); [|intros ?; by simplify_eq]. intros E'. by apply IH in E'.
Qed.

Lemma field_made fieldval buf t : (forall t, keeps (fieldval t)) -> keeps (parse_field fieldval buf t).
Proof.
  intros HF st err st' H. unfold parse_field. destruct (parse_literal _) as [m g]. destruct (guide_must_be _ _) as [st1|] eqn:E; [|done]. cbn [obind].
  apply must_be_made in E; [|done]. destruct (json_get_membern _ _ _); [by apply HF|]. intros ?; by simplify_eq.
Qed.

Lemma elem_made fieldval buf t : (forall t, keeps (fieldval t)) -> keeps (parse_arrelem fieldval buf t).
Proof.
  intros HF st err st' H. unfold parse_arrelem. destruct (parse_number _) as [[i g]|]; [|done]. cbn [obind].
  destruct (guide_must_be _ _) as [st1|] eqn:E; [|done]. cbn [obind]. apply must_be_made in E; [|done].
  destruct (json_get_arr _ _); [by apply HF|]. intros ?; by simplify_eq.
Qed.

Lemma obj_made fieldval buf t : (forall t, keeps (fieldval t)) -> keeps (parse_obj fieldval buf t).
Proof.
  intros HF st err st' H. unfold parse_obj. destruct (guide_must_be st _) as [st1|] eqn:E; [|done]. cbn [obind]. apply must_be_made in E; [|done].
  destruct (negb _); [intros ?; by simplify_eq|]. destruct (parse_list _ _ _) as [[e st2]|] eqn:E2; [|done]. cbn [obind].
  apply list_made in E2; [|by apply field_made|done]. destruct e; [intros ?; by simplify_eq|].
  destruct (guide_must_be st2 _) as [st3|] eqn:E3; [|done]. cbn [obind]. apply must_be_made in E3; [|done]. intros ?; by simplify_eq.
Qed.

Lemma arr_made fieldval buf t : (forall t, keeps (fieldval t)) -> keeps (parse_arr fieldval buf t).
Proof.
  intros HF st err st' H. unfold parse_arr. destruct (guide_must_be st _) as [st1|] eqn:E; [|done]. cbn [obind]. apply must_be_made in E; [|done].
  destruct (negb _); [intros ?; by simplify_eq|]. destruct (parse_list _ _ _) as [[e st2]|] eqn:E2; [|done]. cbn [obind].
  apply list_made in E2; [|by apply elem_made|done]. destruct e; [intros ?; by simplify_eq|].
  destruct (guide_must_be st2 _) as [st3|] eqn:E3; [|done]. cbn [obind]. apply must_be_made in E3; [|done]. intros ?; by simplify_eq.
Qed.

Lemma fieldval_made fuel buf t : keeps (parse_fieldval fuel buf t).
Proof.
  revert t. induction fuel as [|f IH]; intros t st err st' H; cbn [parse_fieldval]; [done|].
  destruct (guide_is _ _); [by apply obj_made|]. destruct (guide_is _ _); [by apply arr_made|]. destruct (guide_is _ _); [by apply percent_made|].
  destruct (parse_literal _) as [l g]. case_bool_decide; intros ?; by simplify_eq.
Qed.

Lemma scan_made buf t g a vs : Forall makes a -> json_scan buf t g a = Ret (inr vs) -> Forall P vs.
Proof.
  intros HA. unfold json_scan, parse_guide. cbn [guide].
  assert (H0 : all_made (Scan g a [])) by done.
  destruct (guide_is g "{"%char); [|destruct (guide_is g "["%char)].
  - destruct (parse_obj _ _ _ _) as [[[?|] st]|] eqn:E; cbn [obind]; try done. apply obj_made in E; [|intros; apply fieldval_made|done].
    destruct (assert_ _ _) as [[]|]; [|done]. cbn [obind]. intros [= <-]. apply E.
  - destruct (parse_arr _ _ _ _) as [[[?|] st]|] eqn:E; cbn [obind]; try done. apply arr_made in E; [|intros; apply fieldval_made|done].
    destruct (assert_ _ _) as [[]|]; [|done]. cbn [obind]. intros [= <-]. apply E.
  - destruct (guide_must_be _ _) as [st1|] eqn:E1; [|done]. cbn [obind]. apply must_be_made in E1; [|done].
    destruct (handle_percent _ _ _) as [[[?|] st]|] eqn:E; cbn [obind]; try done. apply percent_made in E; [|done].
    destruct (assert_ _ _) as [[]|]; [|done]. cbn [obind]. intros [= <-]. apply E.
Qed.
End Values.
