(* ===== verification/Libplugin.v ===== *)
(** plugins/libplugin.c: the messages a handler sends, and how messages are read from a
    connection.

    What a plugin does to the outside is a list of events: JSON texts handed
    to the connection to lightningd ([ld_send]), log lines ([plugin_log]),
    requests to lightningd with what their callbacks were given ([ld_rpc_send]),
    and synchronous writes to the RPC socket ([write_all]). *)
From S2P Require Import JsonTree JsonOut Prelude Utf8 Jsmn Json.

(** [enum log_level] of common/status_levels.h *)
Inductive log_level : Type := LOG_IO_OUT | LOG_IO_IN | LOG_DBG | LOG_INFORM | LOG_UNUSUAL | LOG_BROKEN.

Inductive event : Type :=
| Sent (stream : bytes)
| Logged (level : log_level) (msg : bytes)
| Requested (id : Z) (arg : Z) (stream : bytes)  (* [arg]: the entity in the closure *)
| Wrote (stream : bytes).

(** [json_stream_close], then [ld_send]. *)
Definition json_stream_close (js : json_out) : outcome bytes :=
  let! j := json_stream_double_cr js in Ret (outbuf j).

Definition jsonrpc_finish_and_send (js : json_out) : outcome event :=
  let! b := json_stream_close (json_object_end js) in Ret (Sent b).

(** ** Replies; [id] is [*cmd->id] *)

Definition jsonrpc_stream_start (id : Z) : json_out :=
  let js := json_object_start new_json_stream None in
  let js := json_add_string js (Some (bs "jsonrpc")) (bs "2.0") in
  json_add_u64 js (Some (bs "id")) id.

Definition jsonrpc_stream_success (id : Z) : json_out :=
  json_object_start (jsonrpc_stream_start id) (Some (bs "result")).

Definition command_complete (result : json_out) : outcome event :=
  let! b := json_stream_close (json_object_end result) in Ret (Sent b).

Definition command_finished (response : json_out) : outcome event :=
  command_complete (json_object_end response).

(** [json_out_obj(ctx, fieldname, str)] *)
Definition json_out_obj (field : option (bytes * bytes)) : json_out :=
  let j := json_out_start json_out_new None (bs "{") in
  let j := match field with Some (f, s) => json_out_addstr j (Some f) s | None => j end in
  json_out_finished (json_out_end j (bs "}")).

Definition command_success (id : Z) (result : json_out) : outcome event :=
  command_complete (json_out_add_splice (jsonrpc_stream_start id) (Some (bs "result")) result).2.

Definition command_done_err (id code : Z) (errmsg : bytes) (data : option json_out) : outcome event :=
  let js := json_object_start (jsonrpc_stream_start id) (Some (bs "error")) in
  let js := json_add_errcode js (Some (bs "code")) code in
  let js := json_add_string js (Some (bs "message")) errmsg in
  let js := match data with Some d => (json_out_add_splice js (Some (bs "data")) d).2 | None => js end in
  command_complete (json_object_end js).

(** [command_fail] with the formatted message. *)
Definition command_fail (id code : Z) (msg : bytes) : outcome event := command_done_err id code msg None.

Definition JSONRPC2_INVALID_PARAMS : Z := -32602.

(** [command_fail_badparam] of common/json_command.h *)
Definition badparam_msg (paramname : bytes) (buffer : bytes) (tok : list jsmntok) (msg : bytes) : bytes :=
  paramname ++ bs ": " ++ msg ++ bs ": invalid token '" ++ until_nul (tok_full_text buffer (cur tok)) ++ bs "'".

Definition command_fail_badparam (id : Z) (paramname : bytes) (buffer : bytes) (tok : list jsmntok) (msg : bytes)
  : outcome event :=
  command_fail id JSONRPC2_INVALID_PARAMS (badparam_msg paramname buffer tok msg).

(** ** Notifications *)

Definition plugin_notification_start (method : bytes) : json_out :=
  let js := json_object_start new_json_stream None in
  let js := json_add_string js (Some (bs "jsonrpc")) (bs "2.0") in
  let js := json_add_string js (Some (bs "method")) method in
  json_object_start js (Some (bs "params")).

Definition plugin_notification_end (stream : json_out) : outcome event :=
  jsonrpc_finish_and_send (json_object_end stream).

(** ** Requests: the stream of [jsonrpc_request_start_], and [send_outreq] *)

Definition jsonrpc_request_start (id : Z) (method : bytes) : json_out :=
  let js := json_object_start new_json_stream None in
  let js := json_add_string js (Some (bs "jsonrpc")) (bs "2.0") in
  let js := json_add_u64 js (Some (bs "id")) id in
  let js := json_add_string js (Some (bs "method")) method in
  json_object_start js (Some (bs "params")).

Definition send_outreq (id arg : Z) (js : json_out) : outcome event :=
  let! b := json_stream_close (json_object_end (json_object_end js)) in Ret (Requested id arg b).

(** ** Logging: what [plugin_log] sends *)

Definition level_name (l : log_level) : bytes :=
  match l with LOG_DBG => bs "debug" | LOG_INFORM => bs "info" | LOG_UNUSUAL => bs "warn" | _ => bs "error" end.

Definition plugin_logv (l : log_level) (msg : bytes) : outcome event :=
  let js := json_object_start new_json_stream None in
  let js := json_add_string js (Some (bs "jsonrpc")) (bs "2.0") in
  let js := json_add_string js (Some (bs "method")) (bs "log") in
  let js := json_object_start js (Some (bs "params")) in
  let js := json_add_string js (Some (bs "level")) (level_name l) in
  let js := json_out_add js (Some (bs "message")) true msg in
  jsonrpc_finish_and_send (json_object_end js).

(** * Options

    The handlers of the options of a plugin.

    A handler is given the argument and what its pointer holds; its result is the
    problem, [None] for NULL, and what the pointer holds afterwards. *)

Definition not_a_number (arg : bytes) : bytes := bs "'" ++ arg ++ bs "' is not a number".
Definition out_of_range (arg : bytes) : bytes := bs "'" ++ arg ++ bs "' is out of range".
Definition too_large (arg : bytes) : bytes := bs "'" ++ arg ++ bs "' is too large (overflow)".

(** The common test [*endp || !arg[0]]: was all of a nonempty argument read? *)
Definition not_read (arg : bytes) (n : nat) : bool := negb (n =? length arg) || (length arg =? 0).

(** [strtol] of a 64-bit long, stored in a u64. *)
Definition u64_option (arg : bytes) : option bytes * Z :=
  let '(n, v, erange) := strtoll arg in
  let i := wrap64 v in
  if not_read arg n then (Some (not_a_number arg), i)
  else if erange : bool then (Some (out_of_range arg), i)
  else (None, i).

(** [u32_option] and [u16_option], with the modulus of the type. *)
Definition narrow_option (m : Z) (arg : bytes) (old : Z) : option bytes * Z :=
  let '(n, v, erange) := strtoull arg in
  if not_read arg n then (Some (not_a_number arg), old)
  else if erange : bool then (Some (out_of_range arg), old)
  else
    let i := (v mod m)%Z in
    if (i =? v)%Z then (None, i) else (Some (too_large arg), i).

Definition u32_option (arg : bytes) (i : Z) : option bytes * Z := narrow_option u32_mod arg i.
Definition u16_option (arg : bytes) (i : Z) : option bytes * Z := narrow_option 65536 arg i.

Definition bool_option (arg : bytes) (i : bool) : option bytes * bool :=
  if negb (streq arg (bs "true")) && negb (streq arg (bs "false"))
  then (Some (bs "'" ++ arg ++ bs "' is not a bool, must be " ++ quoted (bs "true") ++ bs " or " ++ quoted (bs "false")), i)
  else (None, streq arg (bs "true")).

Definition flag_option (arg : bytes) (i : bool) : outcome (option bytes * bool) :=
  let! _ := assert_ (negb i) "flag_option: *i == false" in
  if negb (streq arg (bs "true")) then Ret (Some (bs "Invalid argument '" ++ arg ++ bs "' passed to a flag"), i)
  else Ret (None, true).

Definition charp_option (arg : bytes) : option bytes * bytes := (None, arg).

(** * Messages of a connection

    plugins/libplugin.c: how messages are read from a connection.

    A reader has the bytes received and not yet consumed, the state of the
    tokenizer, which goes on where it stopped, and the sizes of the two arrays.
    [handle] is what is done with a complete message. *)

(** [buffer] up to [used], [parser], [tal_count(toks)], [tal_count(buffer)]. *)
Record reader : Type := Reader { buffer : bytes; parser : jsmn_parser; ntoks : nat; capacity : nat }.

(** The fields as [new_plugin] sets them. *)
Definition reader_init : reader := Reader [] jsmn_init TOKS_ALLOC 64.

(** The room [io_read_partial] is given. *)
Definition space (r : reader) : nat := capacity r - length (buffer r).

Section Reader.
Context {St : Type}.
Variable handle : St -> bytes -> list jsmntok -> outcome (St * list event).

(** One message, if there is one: the result of [ld_read_json_one]. *)
Definition read_one (s : St) (r : reader) : outcome (bool * (St * list event * reader)) :=
  match json_parse_input (parser r) (ntoks r) (buffer r) (length (buffer r)) with
  | (PInvalid, _, _) => Abort "plugin_err: Failed to parse JSON response"
  | (PPartial, p, n) => Ret (false, (s, [], Reader (buffer r) p n (capacity r)))
  | (PComplete toks, _, n) =>
      if length toks =? 1 then Ret (false, (s, [], Reader [] jsmn_init n (capacity r)))
      else
        let! (s', evs) := handle s (buffer r) toks in
        Ret (true, (s', evs, Reader (drop (Z.to_nat (tend (cur toks))) (buffer r)) jsmn_init n (capacity r)))
  end.

(** [while (ld_read_json_one(plugin))]; every round takes a message out. *)
Fixpoint read_loop (fuel : nat) (s : St) (r : reader) : outcome (St * list event * reader) :=
  match fuel with
  | O => Abort "ld_read_json: fuel"
  | S f =>
      let! (more, (s1, evs, r1)) := read_one s r in
      if more : bool then let! (s2, evs', r2) := read_loop f s1 r1 in Ret (s2, evs ++ evs', r2)
      else Ret (s1, evs, r1)
  end.

(** [chunk]: the [len_read] bytes that were read; [grow_when] tells when the
    buffer is doubled. *)
Definition received (grow_when : nat -> nat -> bool) (r : reader) (chunk : bytes) : reader :=
  let used := length (buffer r) + length chunk in
  Reader (buffer r ++ chunk) (parser r) (ntoks r) (if grow_when used (capacity r) then used * 2 else capacity r).

Definition read_chunk (grow_when : nat -> nat -> bool) (s : St) (r : reader) (chunk : bytes) : outcome (St * list event * reader) :=
  let r1 := received grow_when r chunk in read_loop (S (length (buffer r1))) s r1.

(** A connection that delivers chunks, one after another. *)
Fixpoint read_chunks (grow_when : nat -> nat -> bool) (s : St) (r : reader) (chunks : list bytes) : outcome (St * list event * reader) :=
  match chunks with
  | [] => Ret (s, [], r)
  | c :: rest =>
      let! (s1, evs, r1) := read_chunk grow_when s r c in
      let! (s2, evs', r2) := read_chunks grow_when s1 r1 rest in
      Ret (s2, evs ++ evs', r2)
  end.
End Reader.

(** The condition of [ld_read_json], and that of [rpc_conn_read_response]. *)
Definition ld_grow (used capacity : nat) : bool := negb (used =? 0) && (used =? capacity).
Definition rpc_grow (used capacity : nat) : bool := used =? capacity.
