(* ===== verification/SyncRpc.v ===== *)
(** plugins/libplugin.c: requests that wait for their reply ([rpc_scan]).

    The connection is the bytes that were read and not consumed, and what the
    next reads will give; at the end of the list the other side has closed it. *)
From S2P Require Import Prelude Utf8 Jsmn JsonTree JsmnProofs Json JsonProofs JsonEqual JsonOut JsonOutProofs JsonScan.
From S2P Require Import JsonScanProofs Libplugin.

(** [struct rpc_conn]: the membuf, and the results of [read] to come, [None] for
    an error. *)
Record rpc_conn : Type := RpcConn { mb : bytes; to_read : list (option bytes) }.

(** [memmem] for the double newline: its offset. *)
Fixpoint find_double (b : bytes) : option nat :=
  match b with
  | c :: r =>
      match r with
      | d :: _ => if ch_eqb c LF && ch_eqb d LF then Some 0 else S <$> find_double r
      | [] => None
      end
  | [] => None
  end.

(** [read_json_from_rpc]: the length of the message, with its newlines. *)
Fixpoint read_json_from_rpc (mb : bytes) (to_read : list (option bytes)) : outcome (nat * rpc_conn) :=
  match find_double mb with
  | Some e => Ret (e + 2, RpcConn mb to_read)
  | None =>
      match to_read with
      | [] | Some [] :: _ => Abort "exit(0)"
      | None :: _ => Abort "plugin_err: Reading JSON input"
      | Some chunk :: rest => read_json_from_rpc (mb ++ chunk) rest
      end
  end.

Definition start_json_rpc (id : Z) : json_out :=
  let jout := json_out_start json_out_new None (bs "{") in
  let jout := json_out_addstr jout (Some (bs "jsonrpc")) (bs "2.0") in
  json_out_add jout (Some (bs "id")) false (fmt_u id).

Definition start_json_request (id : Z) (method : bytes) (params : json_out) : json_out :=
  let jout := start_json_rpc id in
  let jout := json_out_addstr jout (Some (bs "method")) method in
  (json_out_add_splice jout (Some (bs "params")) params).2.

(** [finish_and_send_json]: the bytes given to [write_all]. *)
Definition finish_and_send_json (jout : json_out) : event :=
  let jout := json_out_end jout (bs "}") in
  let jout := json_out_direct jout [LF; LF] in
  Wrote (outbuf (json_out_finished jout)).

(** The tokens of a reply: [contents], [error] and [reqlen] are its results. *)
Record rpc_reply : Type := Reply { contents : list jsmntok; error : bool; reqlen : nat }.

(** The [do ... while]: the message is the first [n] bytes; one without an id is
    left where it is. *)
Fixpoint next_reply (fuel : nat) (c : rpc_conn) : outcome (list jsmntok * nat * rpc_conn) :=
  match fuel with
  | O => Abort "read_rpc_reply: fuel"
  | S f =>
      let! (n, c1) := read_json_from_rpc (mb c) (to_read c) in
      match json_parse_simple (take n (mb c1)) n with
      | None => Abort "plugin_err: Malformed JSON reply"
      | Some toks =>
          match json_get_member (mb c1) toks (bs "id") with
          | None => next_reply f c1
          | Some _ => Ret (toks, n, c1)
          end
      end
  end.

Definition read_rpc_reply (fuel : nat) (c : rpc_conn) : outcome (rpc_reply * rpc_conn) :=
  let! (toks, n, c1) := next_reply fuel c in
  match json_get_member (mb c1) toks (bs "error") with
  | Some t => Ret (Reply t true n, c1)
  | None =>
      match json_get_member (mb c1) toks (bs "result") with
      | Some t => Ret (Reply t false n, c1)
      | None => Abort "plugin_err: JSON reply with no 'result' nor 'error'?"
      end
  end.

(** [rpc_scan]: the values of the guide's fields, and what was written. *)
Definition rpc_scan {V : Type} (fuel : nat) (c : rpc_conn) (method : bytes) (params : json_out) (guide : bytes)
    (args : list (scan_arg V)) : outcome (list V * rpc_conn * list event) :=
  let ev := finish_and_send_json (start_json_request 0 method params) in
  let! (r, c1) := read_rpc_reply fuel c in
  if error r then Abort "plugin_err: Got error reply"
  else
    let p := mb c1 in
    let c2 := RpcConn (drop (reqlen r) (mb c1)) (to_read c1) in
    let! err := json_scan p (contents r) guide args in
    match err with
    | inl _ => Abort "plugin_err: Could not parse the reply"
    | inr vs => Ret (vs, c2, [ev])
    end.

(** * A request gets its reply

    A synchronous request gets its reply however the reply is cut into reads;
    a message without an id is never passed. *)

(** * The double newline *)

Lemma find_double_bound b e : find_double b = Some e -> e + 2 <= length b.
Proof.
  revert e. induction b as [|c b IH]; intros e; [done|]. destruct b as [|d r]; [done|]. cbn [find_double]. destruct (_ && _); [intros [= <-]; cbn; lia|].
  intros (k & H & ->)%fmap_Some. specialize (IH k H). cbn [length] in *. lia.
Qed.

Lemma find_double_app a b e : find_double a = Some e -> find_double (a ++ b) = Some e.
Proof.
  revert e. induction a as [|c a IH]; intros e; [done|]. destruct a as [|d r]; [done|]. cbn [find_double app]. destruct (_ && _); [done|].
  intros (k & H & ->)%fmap_Some. apply IH in H. cbn [app find_double] in H. by rewrite H.
Qed.

(** It is found as soon as it is there. *)
Lemma find_double_prefix a b e : find_double (a ++ b) = Some e -> e + 2 <= length a -> find_double a = Some e.
Proof.
  revert e. induction a as [|c a IH]; intros e H Hl; cbn [length] in Hl; [lia|]. destruct a as [|d r]; cbn [length] in Hl; [lia|].
  cbn [app find_double] in H |- *. destruct (_ && _); [done|]. apply fmap_Some in H as (k & H & ->). apply fmap_Some. exists k. split; [|done].
  apply IH; [exact H|cbn [length]; lia].
Qed.

(** * Reading *)

(** The bytes the connection will have delivered in the end. *)
Definition all_bytes (mb : bytes) (chunks : list bytes) : bytes := mb ++ concat chunks.

(** Chunks as the results of [read]. *)
Definition as_reads (chunks : list bytes) : list (option bytes) := map Some chunks.

Lemma read_json_chunks chunks : forall mb e,
  Forall (fun c => c <> []) chunks -> find_double (all_bytes mb chunks) = Some e ->
  exists mb' chunks', read_json_from_rpc mb (as_reads chunks) = Ret (e + 2, RpcConn mb' (as_reads chunks')) /\
    all_bytes mb' chunks' = all_bytes mb chunks /\ find_double mb' = Some e.
Proof.
  induction chunks as [|c chunks IH]; intros mb e HF HE; cbn [as_reads map read_json_from_rpc].
  - unfold all_bytes in *. cbn [concat] in HE. rewrite app_nil_r in HE. rewrite HE. exists mb, []. unfold all_bytes. by rewrite app_nil_r.
  - apply Forall_cons in HF as [Hc HF]. destruct (find_double mb) as [k|] eqn:Ek.
    + pose proof (find_double_app mb (concat (c :: chunks)) k Ek) as Ek'. unfold all_bytes in HE. rewrite HE in Ek'. injection Ek' as <-.
      by exists mb, (c :: chunks).
    + destruct c as [|x c]; [done|]. assert (HA : all_bytes (mb ++ x :: c) chunks = all_bytes mb ((x :: c) :: chunks)).
      { unfold all_bytes. cbn [concat]. by rewrite <- app_assoc. }
      destruct (IH (mb ++ x :: c) e HF) as (mb' & chunks' & E & HA' & E'); [by rewrite HA|].
      exists mb', chunks'. split_and!; [exact E|congruence|done].
Qed.

(** What was read once is there again. *)
Lemma read_json_again mb rs n c : read_json_from_rpc mb rs = Ret (n, c) -> read_json_from_rpc (SyncRpc.mb c) (to_read c) = Ret (n, c).
Proof.
  revert mb. induction rs as [|r rs IH]; intros mb; cbn [read_json_from_rpc]; destruct (find_double mb) as [e|] eqn:E.
  - intros [= <- <-]. cbn. by rewrite E.
  - done.
  - intros [= <- <-]. cbn [SyncRpc.mb to_read read_json_from_rpc]. by rewrite E.
  - destruct r as [[|x chunk]|]; [done|apply IH|done].
Qed.

(** ** A message without an id *)

Definition no_id (n : nat) (c : rpc_conn) : Prop :=
  exists toks, json_parse_simple (take n (mb c)) n = Some toks /\ json_get_member (mb c) toks (bs "id") = None.

Lemma next_reply_stuck fuel : forall c n c1,
  read_json_from_rpc (mb c) (to_read c) = Ret (n, c1) -> no_id n c1 -> next_reply fuel c = Abort "read_rpc_reply: fuel".
Proof.
  induction fuel as [|fuel IH]; intros c n c1 HR HN; [done|]. cbn [next_reply]. rewrite HR. cbn [obind].
  destruct HN as (toks & Ep & Em). rewrite Ep, Em. eapply IH; [by eapply read_json_again|]. by exists toks.
Qed.

(** * Replies *)

(** The reply [v], as lightningd sends it: the double newline ends it, and is
    nowhere inside. *)
Definition framed (v : jv) : Prop := jv_ok v = true /\ (exists w ms, v = JObj w ms) /\ find_double (text v ++ [LF; LF]) = Some (length (text v)).

Lemma framed_tokens v chunks :
  framed v -> Forall (fun c => c <> []) chunks -> (exists rest, concat chunks = text v ++ [LF; LF] ++ rest) ->
  exists mb' chunks' post, read_json_from_rpc [] (as_reads chunks) = Ret (length (text v) + 2, RpcConn mb' (as_reads chunks')) /\
    all_bytes mb' chunks' = concat chunks /\ mb' = text v ++ [LF; LF] ++ post /\
    json_parse_simple (take (length (text v) + 2) mb') (length (text v) + 2) = Some (toks 0 v ++ [end_tok]) /\
    holds mb' (toks 0 v ++ [end_tok]) v.
Proof.
  intros (Hv & Hobj & Hd) HF [rest HC].
  destruct (read_json_chunks chunks [] (length (text v)) HF) as (mb' & chunks' & E & HA & Hd').
  { unfold all_bytes. cbn [app]. rewrite HC, app_assoc. by apply find_double_app. }
  pose proof (find_double_bound _ _ Hd') as Hb. unfold all_bytes in HA. cbn [app] in HA. rewrite HC in HA.
  assert (HT : take (length (text v) + 2) mb' = text v ++ [LF; LF]).
  { apply (f_equal (take (length (text v) + 2))) in HA. rewrite take_app_le in HA by done. rewrite HA, app_assoc.
    rewrite take_app_length'; [done|]. by rewrite length_app. }
  exists mb', chunks', (drop (length (text v) + 2) mb').
  assert (HM : mb' = text v ++ [LF; LF] ++ drop (length (text v) + 2) mb') by (rewrite app_assoc, <- HT; by rewrite take_drop).
  split_and!; try done.
  - unfold all_bytes. by rewrite HA, HC.
  - rewrite HT. pose proof (json_parse_simple_value [] v [LF; LF] eq_refl eq_refl Hv) as HP. cbn [app] in HP.
    rewrite length_app in HP. exact HP.
  - rewrite HM. by exists [], ([LF; LF] ++ drop (length (text v) + 2) mb'), [end_tok].
Qed.

(** The request, as it is written. *)
Definition request_value (method : bytes) : jv :=
  JObj [] [Member0 (bs "jsonrpc") (JStr (bs "2.0")); Member0 (bs "id") (JPrim (bs "0")); Member0 (bs "method") (JStr (printed method));
           Member0 (bs "params") (JObj [] [])].

Lemma request_written method : finish_and_send_json (start_json_request 0 method (json_out_obj None)) = Wrote (text (request_value method) ++ [LF; LF]).
Proof.
  unfold finish_and_send_json, start_json_request, start_json_rpc, json_out_add. f_equal.
  set (js := (json_out_add_splice _ _ _).2). set (m1 := Member0 (bs "jsonrpc") (JStr (bs "2.0"))). set (m2 := Member0 (bs "id") (JPrim (bs "0"))).
  set (m3 := Member0 (bs "method") (JStr (printed method))).
  assert (HJ : in_obj js (bs "{") [m1; m2; m3; Member0 (bs "params") (JObj [] [])]).
  { apply (in_obj_add _ _ [m1; m2; m3] (bs "params") (JObj [] [])). rewrite (addstr_direct _ (Some (bs "method"))).
    apply (in_obj_add _ _ [m1; m2] (bs "method") (JStr (printed method))). rewrite addv_direct.
    by apply (in_obj_add _ _ [m1] (bs "id") (JPrim (bs "0"))). }
  cbn [json_out_finished json_out_direct outbuf]. f_equal. exact (in_obj_end js _ HJ).
Qed.

Section Reply.
Context {V : Type} (method guide : bytes) (args : list (scan_arg V)).

(** A reply with a result is scanned; all that follows is kept for later. *)
Lemma rpc_scan_reply v u fuel chunks rest :
  framed v -> Forall (fun c => c <> []) chunks -> concat chunks = text v ++ [LF; LF] ++ rest ->
  is_Some (field_of v (bs "id")) -> field_of v (bs "error") = None -> field_of v (bs "result") = Some u ->
  exists buf t c, holds buf t u /\ all_bytes (mb c) [] ++ concat (omap id (to_read c)) = rest /\
    rpc_scan (S fuel) (RpcConn [] (as_reads chunks)) method (json_out_obj None) guide args =
      let! err := json_scan buf t guide args in
      match err with
      | inl _ => Abort "plugin_err: Could not parse the reply"
      | inr vs => Ret (vs, c, [Wrote (text (request_value method) ++ [LF; LF])])
      end.
Proof.
  intros Hv HF HC [x Hid] He Hr. destruct (framed_tokens v chunks Hv HF ltac:(eauto)) as (mb' & chunks' & post & E & HA & HM & HP & Hh).
  pose proof (get_field mb' _ v (bs "id") Hh) as Gi. pose proof (get_field mb' _ v (bs "error") Hh) as Ge. pose proof (get_field mb' _ v (bs "result") Hh) as Gr.
  rewrite Hid in Gi. rewrite He in Ge. rewrite Hr in Gr. apply field_some in Gi as (ti & Ei & _), Gr as (t & Er & Ht). apply field_none in Ge as Ee.
  exists mb', t, (RpcConn post (as_reads chunks')). split; [done|]. split.
  { cbn [mb to_read]. unfold all_bytes in *. cbn [concat]. rewrite app_nil_r.
    replace (concat (omap id (as_reads chunks'))) with (concat chunks') by (unfold as_reads; clear; f_equal; induction chunks'; cbn; congruence).
    rewrite HC, HM, <- !app_assoc in HA. by do 2 apply app_inv_head in HA. }
  unfold rpc_scan. rewrite request_written. unfold read_rpc_reply. cbn [next_reply mb to_read]. rewrite E. cbn [obind mb to_read].
  rewrite HP. unfold json_get_member. rewrite Ei. cbn [obind mb to_read]. rewrite Ee, Er.
  cbn [obind error contents reqlen mb to_read]. replace (drop (length (text v) + 2) mb') with post; [done|].
  rewrite HM, app_assoc, drop_app_length'; [done|by rewrite length_app].
Qed.
End Reply.
