(* ===== verification/Features.v ===== *)
(** common/features.c: feature bits.

    A bit field is an array of bytes, the last one first; NULL is the empty
    array, which [tal_count] does not tell from it.  A feature has two bits, the
    even one when it is compulsory and the odd one when it is optional. *)
From S2P Require Import Prelude Wire.

Inductive feature_place : Type :=
| INIT_FEATURE | GLOBAL_INIT_FEATURE | NODE_ANNOUNCE_FEATURE | CHANNEL_FEATURE | BOLT11_FEATURE.

#[export] Instance feature_place_eq : EqDecision feature_place.
Proof. solve_decision. Defined.

(** The indices of the array, in order. *)
Definition feature_places : list feature_place :=
  [INIT_FEATURE; GLOBAL_INIT_FEATURE; NODE_ANNOUNCE_FEATURE; CHANNEL_FEATURE; BOLT11_FEATURE].

Definition feature_place_names (p : feature_place) : option bytes :=
  match p with
  | INIT_FEATURE => Some (bs "init")
  | GLOBAL_INIT_FEATURE => None
  | NODE_ANNOUNCE_FEATURE => Some (bs "node")
  | CHANNEL_FEATURE => Some (bs "channel")
  | BOLT11_FEATURE => Some (bs "invoice")
  end.

(** [struct feature_set] *)
Record feature_set : Type := FeatureSet {
  init_bits : bytes; global_bits : bytes; node_bits : bytes; channel_bits : bytes; bolt11_bits : bytes }.

Definition bits (fs : feature_set) (p : feature_place) : bytes :=
  match p with
  | INIT_FEATURE => init_bits fs
  | GLOBAL_INIT_FEATURE => global_bits fs
  | NODE_ANNOUNCE_FEATURE => node_bits fs
  | CHANNEL_FEATURE => channel_bits fs
  | BOLT11_FEATURE => bolt11_bits fs
  end.

(** The set whose fields are given by a function of the place. *)
Definition feature_set_of (f : feature_place -> bytes) : feature_set :=
  FeatureSet (f INIT_FEATURE) (f GLOBAL_INIT_FEATURE) (f NODE_ANNOUNCE_FEATURE) (f CHANNEL_FEATURE) (f BOLT11_FEATURE).

(** [fset->bits[p] = b] *)
Definition set_bits (fs : feature_set) (p : feature_place) (b : bytes) : feature_set :=
  feature_set_of (fun q => if decide (q = p) then b else bits fs q).

(** * Bits *)

(** Bit numbers are below 2^32, where masking with 0xFFFFFFFE clears bit 0. *)
Definition COMPULSORY_FEATURE (x : nat) : nat := 2 * (x / 2).
Definition OPTIONAL_FEATURE (x : nat) : nat := 2 * (x / 2) + 1.

(** Reading and writing [features[i]]. *)
Definition byte_get (features : bytes) (i : nat) : Z := code (nth i features NUL).

(** [test_bit]: the byte is in the array where it is called. *)
Definition test_bit (features : bytes) (byte bit : nat) : bool :=
  Z.testbit (byte_get features (length features - 1 - byte)) (Z.of_nat bit).

Definition feature_is_set (features : bytes) (bit : nat) : bool :=
  let bytenum := bit / 8 in
  if length features <=? bytenum then false else test_bit features bytenum (bit mod 8).

Definition feature_offered (features : bytes) (f : nat) : bool :=
  feature_is_set features (COMPULSORY_FEATURE f) || feature_is_set features (OPTIONAL_FEATURE f).

Definition set_feature_bit (features : bytes) (bit : nat) : bytes :=
  let newlen := bit / 8 + 1 in
  let arr := if length features <=? bit / 8 then repeat NUL (newlen - length features) ++ features else features in
  let i := length arr - 1 - bit / 8 in
  <[i := chr (Z.lor (byte_get arr i) (Z.shiftl 1 (Z.of_nat (bit mod 8))))]> arr.

Definition clear_feature_bit (features : bytes) (bit : nat) : bytes :=
  if length features <=? bit / 8 then features
  else
    let i := length features - 1 - bit / 8 in
    <[i := chr (Z.ldiff (byte_get features i) (Z.shiftl 1 (Z.of_nat (bit mod 8))))]> features.

Fixpoint trim_features (features : bytes) : bytes :=
  match features with
  | c :: r => if ch_eqb c NUL then trim_features r else features
  | [] => []
  end.

(** * Sets *)

(** The bits of the inner loops, [j < tal_bytelen(b) * 8], that are set. *)
Definition bits_set (b : bytes) : list nat := filter (fun j => feature_is_set b j = true) (seq 0 (length b * 8)).

Definition feature_set_or (a b : feature_set) : bool * feature_set :=
  if forallb (fun p => forallb (fun j => negb (feature_offered (bits a p) j)) (bits_set (bits b p))) feature_places
  then (true, feature_set_of (fun p => foldl set_feature_bit (bits a p) (bits_set (bits b p))))
  else (false, a).

Definition feature_set_sub (a b : feature_set) : bool * feature_set :=
  if forallb (fun p => forallb (feature_offered (bits a p)) (bits_set (bits b p))) feature_places
  then (true, feature_set_of (fun p => trim_features (foldl clear_feature_bit (bits a p) (bits_set (bits b p)))))
  else (false, a).

(** [result] is the longer one; bytes are combined at the end of the arrays. *)
Definition featurebits_or (f1 f2 : bytes) : bytes :=
  let go (a b : bytes) :=
    take (length a - length b) a ++ zip_with (fun x y => chr (Z.lor (code x) (code y))) (drop (length a - length b) a) b in
  if length f1 <? length f2 then go f2 f1 else go f1 f2.

Definition featurebits_eq (f1 f2 : bytes) : bool :=
  forallb (fun i => Bool.eqb (feature_is_set f1 i) (feature_is_set f2 i)) (seq 0 (Nat.max (length f1) (length f2) * 8)).

(** [fmt_featurebits]: the numbers, with commas. *)
Definition fmt_featurebits (b : bytes) : bytes :=
  foldl (fun acc i => acc ++ (match acc with [] => [] | _ => bs "," end) ++ fmt_u (Z.of_nat i)) [] (bits_set b).

(** * Known features *)

Inductive feature_copy_style : Type := FEATURE_DONT_REPRESENT | FEATURE_REPRESENT | FEATURE_REPRESENT_AS_OPTIONAL.

Definition OPT_DATA_LOSS_PROTECT : nat := 0.
Definition OPT_INITIAL_ROUTING_SYNC : nat := 2.
Definition OPT_UPFRONT_SHUTDOWN_SCRIPT : nat := 4.
Definition OPT_GOSSIP_QUERIES : nat := 6.
Definition OPT_VAR_ONION : nat := 8.
Definition OPT_GOSSIP_QUERIES_EX : nat := 10.
Definition OPT_STATIC_REMOTEKEY : nat := 12.
Definition OPT_PAYMENT_SECRET : nat := 14.
Definition OPT_BASIC_MPP : nat := 16.
Definition OPT_LARGE_CHANNELS : nat := 18.
Definition OPT_ANCHOR_OUTPUTS : nat := 20.
Definition OPT_SHUTDOWN_ANYSEGWIT : nat := 26.
Definition OPT_DUAL_FUND : nat := 28.
Definition OPT_ONION_MESSAGES : nat := 38.
Definition OPT_SHUTDOWN_WRONG_FUNDING : nat := 104.

(** [feature_styles]: the bit, and the places with a style other than the default. *)
Definition feature_styles : list (nat * list (feature_place * feature_copy_style)) :=
  let init_node := [(INIT_FEATURE, FEATURE_REPRESENT); (NODE_ANNOUNCE_FEATURE, FEATURE_REPRESENT)] in
  let bolt11 := (BOLT11_FEATURE, FEATURE_REPRESENT) in
  let global := (GLOBAL_INIT_FEATURE, FEATURE_REPRESENT) in
  let no_channel := (CHANNEL_FEATURE, FEATURE_DONT_REPRESENT) in
  [(OPT_DATA_LOSS_PROTECT, init_node);
   (OPT_INITIAL_ROUTING_SYNC, [(INIT_FEATURE, FEATURE_REPRESENT_AS_OPTIONAL); (NODE_ANNOUNCE_FEATURE, FEATURE_DONT_REPRESENT)]);
   (OPT_UPFRONT_SHUTDOWN_SCRIPT, init_node);
   (OPT_GOSSIP_QUERIES, init_node);
   (OPT_GOSSIP_QUERIES_EX, init_node);
   (OPT_VAR_ONION, init_node ++ [global; bolt11]);
   (OPT_STATIC_REMOTEKEY, init_node ++ [global]);
   (OPT_PAYMENT_SECRET, init_node ++ [bolt11]);
   (OPT_BASIC_MPP, init_node ++ [bolt11]);
   (OPT_LARGE_CHANNELS, init_node ++ [no_channel]);
   (OPT_ONION_MESSAGES, init_node ++ [bolt11; no_channel]);
   (OPT_SHUTDOWN_WRONG_FUNDING, init_node ++ [no_channel]);
   (OPT_ANCHOR_OUTPUTS, init_node ++ [no_channel]);
   (OPT_DUAL_FUND, init_node ++ [bolt11; no_channel]);
   (OPT_SHUTDOWN_ANYSEGWIT, init_node ++ [no_channel])].

(** The function [feature_copy_style]: it aborts on an unknown feature. *)
Definition copy_style (f : nat) (p : feature_place) : outcome feature_copy_style :=
  match List.find (fun s => s.1 =? COMPULSORY_FEATURE f) feature_styles with
  | None => Abort "feature_copy_style: abort"
  | Some (_, styles) =>
      match List.find (fun s => bool_decide (s.1 = p)) styles with
      | Some (_, st) => Ret st
      | None => Ret FEATURE_DONT_REPRESENT
      end
  end.

(** One field of the set. *)
Definition field_for_feature (feature : nat) (p : feature_place) : outcome bytes :=
  let! st := copy_style feature p in
  Ret match st with
      | FEATURE_DONT_REPRESENT => []
      | FEATURE_REPRESENT => set_feature_bit [] feature
      | FEATURE_REPRESENT_AS_OPTIONAL => set_feature_bit [] (OPTIONAL_FEATURE feature)
      end.

Definition feature_set_for_feature (feature : nat) : outcome feature_set :=
  let! b0 := field_for_feature feature INIT_FEATURE in
  let! b1 := field_for_feature feature GLOBAL_INIT_FEATURE in
  let! b2 := field_for_feature feature NODE_ANNOUNCE_FEATURE in
  let! b3 := field_for_feature feature CHANNEL_FEATURE in
  let! b4 := field_for_feature feature BOLT11_FEATURE in
  Ret (FeatureSet b0 b1 b2 b3 b4).

Definition feature_deps : list (nat * nat) :=
  [(OPT_GOSSIP_QUERIES_EX, OPT_GOSSIP_QUERIES); (OPT_PAYMENT_SECRET, OPT_VAR_ONION); (OPT_BASIC_MPP, OPT_PAYMENT_SECRET);
   (OPT_ANCHOR_OUTPUTS, OPT_STATIC_REMOTEKEY); (OPT_DUAL_FUND, OPT_ANCHOR_OUTPUTS)].

(** [feature_check_depends]: [None] is true; otherwise the two results. *)
Definition feature_check_depends (their_features : bytes) : option (nat * nat) :=
  List.find (fun d => feature_offered their_features d.1 && negb (feature_offered their_features d.2)) feature_deps.

Definition feature_negotiated (our_features : feature_set) (their_features : bytes) (f : nat) : bool :=
  feature_offered their_features f && feature_offered (bits our_features INIT_FEATURE) f.

(** The even bits below [n]. *)
Definition even_bits (n : nat) : list nat := filter (fun i => Nat.even i = true) (seq 0 n).

(** [None] is -1. *)
Definition all_supported_features (our_features : feature_set) (bitmap : bytes) (p : feature_place) : option nat :=
  List.find (fun i => test_bit bitmap (i / 8) (i mod 8) && negb (feature_offered (bits our_features p) i)) (even_bits (length bitmap * 8)).

Definition features_unsupported (our_features : feature_set) (their_features : bytes) (p : feature_place) : option nat :=
  if feature_is_set their_features (COMPULSORY_FEATURE OPT_INITIAL_ROUTING_SYNC)
  then Some (COMPULSORY_FEATURE OPT_INITIAL_ROUTING_SYNC)
  else all_supported_features our_features their_features p.

(** [get_agreed_channelfeatures]: the array shrinks while it is gone through.
    Each round advances [i], so that the bits of the array are fuel enough. *)
Fixpoint agreed_loop (fuel : nat) (their_features f : bytes) (i max_len : nat) : bytes * nat :=
  match fuel with
  | O => (f, max_len)
  | S k =>
      if i <? 8 * length f then
        if negb (feature_offered f i) then agreed_loop k their_features f (i + 2) max_len
        else if negb (feature_offered their_features i) then
          let f := clear_feature_bit f (COMPULSORY_FEATURE i) in
          let f := clear_feature_bit f (OPTIONAL_FEATURE i) in
          agreed_loop k their_features (trim_features f) (i + 2) max_len
        else agreed_loop k their_features f (i + 2) (i / 8 + 1)
      else (f, max_len)
  end.

Definition get_agreed_channelfeatures (our_features : feature_set) (their_features : bytes) : bytes :=
  let f := bits our_features CHANNEL_FEATURE in
  let '(f, max_len) := agreed_loop (8 * length f) their_features f 0 0 in
  take max_len f.

(** * Names *)

(** [fnames], by half the bit number. *)
Definition fname (k : nat) : option bytes :=
  match k with
  | 0 => Some (bs "option_data_loss_protect")
  | 1 => Some (bs "option_initial_routing_sync")
  | 2 => Some (bs "option_upfront_shutdown_script")
  | 3 => Some (bs "option_gossip_queries")
  | 4 => Some (bs "option_var_onion_optin")
  | 5 => Some (bs "option_gossip_queries_ex")
  | 6 => Some (bs "option_static_remotekey")
  | 7 => Some (bs "option_payment_secret")
  | 8 => Some (bs "option_basic_mpp")
  | 9 => Some (bs "option_support_large_channel")
  | 10 => Some (bs "option_anchor_outputs")
  | 11 => Some (bs "option_anchors_zero_fee_htlc_tx")
  | 13 => Some (bs "option_shutdown_anysegwit")
  | 14 => Some (bs "option_dual_fund")
  | 19 => Some (bs "option_onion_messages")
  | _ => None
  end.

Definition feature_name (f : nat) : bytes :=
  let parity := if Nat.odd f then bs "odd" else bs "even" in
  match fname (f / 2) with
  | None => bs "option_unknown_" ++ fmt_u (Z.of_nat (COMPULSORY_FEATURE f)) ++ bs "/" ++ parity
  | Some n => n ++ bs "/" ++ parity
  end.

Definition list_supported_features (fset : feature_set) : list bytes :=
  map feature_name (filter (fun i => test_bit (bits fset INIT_FEATURE) (i / 8) (i mod 8) = true) (seq 0 (length (bits fset INIT_FEATURE) * 8))).

(** * On the wire *)

Definition towire_feature_field (b : bytes) : bytes := towire_u16 (len b) ++ towire_u8_array b.

Definition towire_feature_set (fset : feature_set) : bytes :=
  flat_map (fun p => towire_feature_field (bits fset p)) feature_places.

Definition fromwire_feature_field (c : cursor) : bytes * cursor :=
  let '(n, c1) := fromwire_u16 c in
  let '(arr, c2) := fromwire_tal_arrn c1 (Z.to_nat n) in (default [] arr, c2).

(** [None] is NULL. *)
Definition fromwire_feature_set (c : cursor) : option feature_set * cursor :=
  let '(b0, c0) := fromwire_feature_field c in
  let '(b1, c1) := fromwire_feature_field c0 in
  let '(b2, c2) := fromwire_feature_field c1 in
  let '(b3, c3) := fromwire_feature_field c2 in
  let '(b4, c4) := fromwire_feature_field c3 in
  (match c4 with Some _ => Some (FeatureSet b0 b1 b2 b3 b4) | None => None end, c4).
