(* ===== verification/FeaturesProofs.v ===== *)
(** Bit fields as finite sets of numbers. *)
From S2P Require Import Prelude Wire Features.

(** The bits that are set. *)
Definition fbits (b : bytes) : gset nat := list_to_set (bits_set b).

Lemma is_set_bound b n : feature_is_set b n = true -> n < length b * 8.
Proof.
  unfold feature_is_set. destruct (Nat.leb_spec (length b) (n / 8)) as [|H]; [done|]. intros _.
  pose proof (Nat.div_mod n 8 ltac:(lia)). pose proof (Nat.mod_upper_bound n 8 ltac:(lia)). lia.
Qed.

Lemma elem_of_bits_set b n : n ∈ bits_set b <-> feature_is_set b n = true.
Proof.
  unfold bits_set. rewrite list_elem_of_filter, elem_of_seq. split; [by intros [? _]|]. intros H.
  pose proof (is_set_bound b n H). split; [done|lia].
Qed.

Lemma elem_of_fbits b n : n ∈ fbits b <-> feature_is_set b n = true.
Proof. unfold fbits. rewrite elem_of_list_to_set. apply elem_of_bits_set. Qed.

(** A bit, as the bit of a byte. *)
Lemma is_set_lookup b n c :
  n / 8 < length b -> b !! (length b - 1 - n / 8) = Some c -> feature_is_set b n = Z.testbit (code c) (Z.of_nat (n mod 8)).
Proof.
  intros H Hc. unfold feature_is_set, test_bit, byte_get. rewrite (proj2 (Nat.leb_gt _ _)) by done. by rewrite (nth_lookup_Some _ _ _ _ Hc).
Qed.

Lemma is_set_beyond b n : length b <= n / 8 -> feature_is_set b n = false.
Proof. intros H. unfold feature_is_set. by rewrite (proj2 (Nat.leb_le _ _)). Qed.

(** ** One byte *)

Lemma byte_set c k : k < 8 -> forall m, m < 8 ->
  Z.testbit (code (chr (Z.lor (code c) (Z.shiftl 1 (Z.of_nat k))))) (Z.of_nat m) = (m =? k) || Z.testbit (code c) (Z.of_nat m).
Proof.
  intros Hk m Hm. do 8 (destruct k as [|k]; [do 8 (destruct m as [|m]; [destruct c as [[] [] [] [] [] [] [] []]; reflexivity|]); lia|]). lia.
Qed.

Lemma byte_clear c k : k < 8 -> forall m, m < 8 ->
  Z.testbit (code (chr (Z.ldiff (code c) (Z.shiftl 1 (Z.of_nat k))))) (Z.of_nat m) = negb (m =? k) && Z.testbit (code c) (Z.of_nat m).
Proof.
  intros Hk m Hm. do 8 (destruct k as [|k]; [do 8 (destruct m as [|m]; [destruct c as [[] [] [] [] [] [] [] []]; reflexivity|]); lia|]). lia.
Qed.

Lemma same_bit m n : (m =? n) = (m / 8 =? n / 8) && (m mod 8 =? n mod 8).
Proof.
  pose proof (Nat.div_mod m 8 ltac:(lia)). pose proof (Nat.div_mod n 8 ltac:(lia)).
  destruct (Nat.eqb_spec m n) as [->|Hne]; [by rewrite !Nat.eqb_refl|].
  destruct (Nat.eqb_spec (m / 8) (n / 8)); [|done]. destruct (Nat.eqb_spec (m mod 8) (n mod 8)); [|done]. lia.
Qed.

(** Writing the byte of a bit. *)
Lemma is_set_insert b n g op :
  n / 8 < length b ->
  (forall c m, m < 8 -> Z.testbit (code (chr (g (code c)))) (Z.of_nat m) = op (m =? n mod 8) (Z.testbit (code c) (Z.of_nat m))) ->
  (forall x, op false x = x) ->
  forall m, feature_is_set (<[length b - 1 - n / 8 := chr (g (byte_get b (length b - 1 - n / 8)))]> b) m = op (m =? n) (feature_is_set b m).
Proof.
  intros Hn Hg Hop m. set (i := length b - 1 - n / 8). set (x := chr _). rewrite same_bit.
  destruct (le_lt_dec (length b) (m / 8)) as [Hm|Hm].
  { rewrite !is_set_beyond by (rewrite ?length_insert; done). destruct (Nat.eqb_spec (m / 8) (n / 8)); [lia|]. by rewrite Hop. }
  destruct (lookup_lt_is_Some_2 b (length b - 1 - m / 8) ltac:(lia)) as [c Hc]. rewrite (is_set_lookup b m c) by done.
  destruct (Nat.eqb_spec (m / 8) (n / 8)) as [E|E]; cbn [andb].
  - assert (Hi : length b - 1 - m / 8 = i) by (unfold i; by rewrite E). rewrite Hi in Hc.
    rewrite (is_set_lookup _ m x); [|by rewrite length_insert|rewrite length_insert, Hi; apply list_lookup_insert_eq; unfold i; lia].
    unfold x, byte_get. rewrite (nth_lookup_Some _ _ _ _ Hc). apply Hg. by apply Nat.mod_upper_bound.
  - rewrite (is_set_lookup _ m c), Hop; [done|by rewrite length_insert|]. rewrite length_insert, list_lookup_insert_ne by (unfold i; lia). done.
Qed.

(** Zeros in front change nothing. *)
Lemma is_set_pad k b m : feature_is_set (repeat NUL k ++ b) m = feature_is_set b m.
Proof.
  destruct (le_lt_dec (length (repeat NUL k ++ b)) (m / 8)) as [Hm|Hm].
  { rewrite !is_set_beyond; [done|rewrite length_app in Hm; lia|done]. }
  destruct (lookup_lt_is_Some_2 (repeat NUL k ++ b) (length (repeat NUL k ++ b) - 1 - m / 8) ltac:(lia)) as [c Hc].
  rewrite (is_set_lookup _ _ c Hm Hc). rewrite length_app, repeat_length in *.
  destruct (le_lt_dec (length b) (m / 8)) as [Hb|Hb].
  - rewrite (is_set_beyond b) by done. rewrite lookup_app_l in Hc by (rewrite repeat_length; lia).
    apply list_elem_of_lookup_2, list_elem_of_In, repeat_spec in Hc as ->. change (code NUL) with 0%Z. apply Z.bits_0.
  - rewrite lookup_app_r in Hc by (rewrite repeat_length; lia). rewrite repeat_length in Hc. symmetry. apply is_set_lookup; [done|].
    rewrite <- Hc. f_equal. lia.
Qed.

Lemma is_set_set b n m : feature_is_set (set_feature_bit b n) m = (m =? n) || feature_is_set b m.
Proof.
  unfold set_feature_bit. cbv zeta. set (b' := if length b <=? n / 8 then repeat NUL (n / 8 + 1 - length b) ++ b else b).
  assert (Hb : n / 8 < length b').
  { unfold b'. destruct (Nat.leb_spec (length b) (n / 8)); [rewrite length_app, repeat_length|]; lia. }
  replace (feature_is_set b m) with (feature_is_set b' m) by (unfold b'; destruct (_ <=? _); [apply is_set_pad|done]).
  apply (is_set_insert b' n (fun z => Z.lor z (Z.shiftl 1 (Z.of_nat (n mod 8)))) orb Hb); [|done].
  intros c k Hk. apply byte_set; [|done]. by apply Nat.mod_upper_bound.
Qed.

Lemma is_set_clear b n m : feature_is_set (clear_feature_bit b n) m = negb (m =? n) && feature_is_set b m.
Proof.
  unfold clear_feature_bit. destruct (Nat.leb_spec (length b) (n / 8)) as [Hn|Hn].
  { destruct (Nat.eqb_spec m n) as [->|]; [|done]. by apply is_set_beyond. }
  apply (is_set_insert b n (fun z => Z.ldiff z (Z.shiftl 1 (Z.of_nat (n mod 8)))) (fun e x => negb e && x) Hn); [|done].
  intros c k Hk. apply byte_clear; [|done]. by apply Nat.mod_upper_bound.
Qed.

Lemma is_set_trim b m : feature_is_set (trim_features b) m = feature_is_set b m.
Proof.
  induction b as [|c b IH]; [done|]. cbn [trim_features]. destruct (ch_eqb c NUL) eqn:E; [|done].
  apply Ascii.eqb_eq in E as ->. rewrite IH. symmetry. apply (is_set_pad 1).
Qed.

(** ** As sets *)

Lemma fbits_ext b b' : (forall n, feature_is_set b n = feature_is_set b' n) -> fbits b = fbits b'.
Proof. intros H. apply set_eq. intros n. by rewrite !elem_of_fbits, H. Qed.

Lemma fbits_set b n : fbits (set_feature_bit b n) = {[n]} ∪ fbits b.
Proof.
  apply set_eq. intros m. rewrite elem_of_union, elem_of_singleton, !elem_of_fbits, is_set_set, orb_true_iff, Nat.eqb_eq. done.
Qed.

Lemma fbits_clear b n : fbits (clear_feature_bit b n) = fbits b ∖ {[n]}.
Proof.
  apply set_eq. intros m. rewrite elem_of_difference, elem_of_singleton, !elem_of_fbits, is_set_clear, andb_true_iff, negb_true_iff, Nat.eqb_neq.
  tauto.
Qed.

Lemma fbits_trim b : fbits (trim_features b) = fbits b.
Proof. apply fbits_ext. apply is_set_trim. Qed.

Lemma fbits_nil : fbits [] = ∅.
Proof. reflexivity. Qed.

Lemma fbits_set_all l : forall b, fbits (foldl set_feature_bit b l) = list_to_set l ∪ fbits b.
Proof. induction l as [|n l IH]; intros b; cbn [foldl list_to_set]; [set_solver|]. rewrite IH, fbits_set. set_solver. Qed.

Lemma fbits_clear_all l : forall b, fbits (foldl clear_feature_bit b l) = fbits b ∖ list_to_set l.
Proof. induction l as [|n l IH]; intros b; cbn [foldl list_to_set]; [set_solver|]. rewrite IH, fbits_clear. set_solver. Qed.

(** The features of a set of bits, compulsory or optional. *)
Definition offers (X : gset nat) (f : nat) : Prop := COMPULSORY_FEATURE f ∈ X \/ OPTIONAL_FEATURE f ∈ X.

Lemma offered_iff b f : feature_offered b f = true <-> offers (fbits b) f.
Proof. unfold feature_offered, offers. by rewrite orb_true_iff, !elem_of_fbits. Qed.

Lemma offered_none b f : feature_offered b f = false <-> ~ offers (fbits b) f.
Proof. rewrite <- offered_iff. by rewrite not_true_iff_false. Qed.

Lemma bits_of f p : bits (feature_set_of f) p = f p.
Proof. by destruct p. Qed.

Lemma in_places p : p ∈ feature_places.
Proof. destruct p; unfold feature_places; set_solver. Qed.

Lemma forallb_not {A} (g : A -> bool) l : forallb g l = false -> exists x, x ∈ l /\ g x = false.
Proof.
  induction l as [|x l IH]; [done|]. cbn [forallb]. intros [H|H]%andb_false_iff; [exists x; set_solver|].
  destruct (IH H) as (y & Hy & E). exists y. set_solver.
Qed.

Lemma forallb_bits (g : nat -> bool) b : forallb g (bits_set b) = true <-> forall n, n ∈ fbits b -> g n = true.
Proof.
  rewrite forallb_forall. setoid_rewrite elem_of_fbits. setoid_rewrite <- list_elem_of_In. by setoid_rewrite elem_of_bits_set.
Qed.

Lemma forallb_places (g : feature_place -> bool) : forallb g feature_places = true <-> forall p, g p = true.
Proof. rewrite forallb_forall. setoid_rewrite <- list_elem_of_In. split; [|eauto]. intros H p. apply H, in_places. Qed.

(** Both operations test all bits of the second set first. *)
Lemma test_all (a b : feature_set) (g : feature_place -> nat -> bool) :
  (forallb (fun p => forallb (g p) (bits_set (bits b p))) feature_places = true /\ forall p n, n ∈ fbits (bits b p) -> g p n = true) \/
  (forallb (fun p => forallb (g p) (bits_set (bits b p))) feature_places = false /\ exists p n, n ∈ fbits (bits b p) /\ g p n = false).
Proof.
  destruct (forallb _ feature_places) eqn:E; [left|right]; (split; [done|]).
  - rewrite forallb_places in E. intros p. apply forallb_bits, E.
  - apply forallb_not in E as (p & _ & E). apply forallb_not in E as (n & Hn & E). exists p, n. split; [|done].
    by apply elem_of_fbits, elem_of_bits_set.
Qed.

Lemma or_spec a b :
  ((forall p n, n ∈ fbits (bits b p) -> ~ offers (fbits (bits a p)) n) /\
    exists c, feature_set_or a b = (true, c) /\ forall p, fbits (bits c p) = fbits (bits a p) ∪ fbits (bits b p)) \/
  ((exists p n, n ∈ fbits (bits b p) /\ offers (fbits (bits a p)) n) /\ feature_set_or a b = (false, a)).
Proof.
  unfold feature_set_or. destruct (test_all a b (fun p j => negb (feature_offered (bits a p) j))) as [[-> H]|[-> (p & n & Hn & H)]].
  - left. split.
    + intros p n Hn. apply offered_none, negb_true_iff, (H p n Hn).
    + eexists. split; [done|]. intros p. rewrite bits_of, fbits_set_all. fold (fbits (bits b p)). set_solver.
  - right. split; [|done]. exists p, n. split; [done|]. apply offered_iff. by apply negb_false_iff.
Qed.

Lemma sub_spec a b :
  ((forall p n, n ∈ fbits (bits b p) -> offers (fbits (bits a p)) n) /\
    exists c, feature_set_sub a b = (true, c) /\ forall p, fbits (bits c p) = fbits (bits a p) ∖ fbits (bits b p)) \/
  ((exists p n, n ∈ fbits (bits b p) /\ ~ offers (fbits (bits a p)) n) /\ feature_set_sub a b = (false, a)).
Proof.
  unfold feature_set_sub. destruct (test_all a b (fun p => feature_offered (bits a p))) as [[-> H]|[-> (p & n & Hn & H)]].
  - left. split.
    + intros p n Hn. apply offered_iff, (H p n Hn).
    + eexists. split; [done|]. intros p. rewrite bits_of, fbits_trim, fbits_clear_all. done.
  - right. split; [|done]. exists p, n. split; [done|]. by apply offered_none.
Qed.

(** ** Byte by byte *)

Lemma byte_or c d m : Z.testbit (code (chr (Z.lor (code c) (code d)))) (Z.of_nat m) = Z.testbit (code c) (Z.of_nat m) || Z.testbit (code d) (Z.of_nat m).
Proof.
  replace (code (chr (Z.lor (code c) (code d)))) with (Z.lor (code c) (code d)); [apply Z.lor_spec|].
  symmetry. apply code_chr. pose proof (code_range c). pose proof (code_range d). split; [apply Z.lor_nonneg; lia|].
  apply Z.log2_lt_cancel. rewrite Z.log2_lor by lia. change (Z.log2 256) with 8%Z.
  assert (forall z, (0 <= z < 256)%Z -> (Z.log2 z < 8)%Z) as HL.
  { intros z Hz. destruct (decide (z = 0%Z)) as [->|]; [done|]. apply Z.log2_lt_pow2; lia. }
  apply Z.max_lub_lt; by apply HL.
Qed.

(** The longer array comes first. *)
Lemma is_set_or_long (a b : bytes) n : length b <= length a ->
  feature_is_set (take (length a - length b) a ++ zip_with (fun x y => chr (Z.lor (code x) (code y))) (drop (length a - length b) a) b) n
  = feature_is_set a n || feature_is_set b n.
Proof.
  intros Hl. set (r := _ ++ _).
  assert (Hr : length r = length a) by (unfold r; rewrite length_app, length_zip_with, length_take, length_drop; lia).
  destruct (le_lt_dec (length a) (n / 8)) as [Hn|Hn]; [rewrite !is_set_beyond by lia; done|].
  destruct (lookup_lt_is_Some_2 a (length a - 1 - n / 8) ltac:(lia)) as [c Hc]. rewrite (is_set_lookup a n c) by done.
  destruct (le_lt_dec (length b) (n / 8)) as [Hb|Hb].
  - rewrite (is_set_beyond b), orb_false_r by done. apply is_set_lookup; [by rewrite Hr|]. rewrite Hr. unfold r.
    rewrite lookup_app_l by (rewrite length_take; lia). by rewrite lookup_take_lt by lia.
  - destruct (lookup_lt_is_Some_2 b (length b - 1 - n / 8) ltac:(lia)) as [d Hd]. rewrite (is_set_lookup b n d), <- byte_or by done.
    apply is_set_lookup; [by rewrite Hr|]. rewrite Hr. unfold r. rewrite lookup_app_r by (rewrite length_take; lia).
    rewrite length_take, Nat.min_l by lia. rewrite lookup_zip_with.
    replace (length a - 1 - n / 8 - (length a - length b)) with (length b - 1 - n / 8) by lia.
    rewrite lookup_drop. replace (length a - length b + (length b - 1 - n / 8)) with (length a - 1 - n / 8) by lia. by rewrite Hc, Hd.
Qed.

Lemma fbits_or f1 f2 : fbits (featurebits_or f1 f2) = fbits f1 ∪ fbits f2.
Proof.
  apply set_eq. intros n. rewrite elem_of_union, !elem_of_fbits, <- orb_true_iff. unfold featurebits_or.
  destruct (Nat.ltb_spec (length f1) (length f2)); rewrite is_set_or_long by lia; [by rewrite orb_comm|done].
Qed.

Lemma featurebits_eq_iff f1 f2 : featurebits_eq f1 f2 = true <-> fbits f1 = fbits f2.
Proof.
  unfold featurebits_eq. rewrite forallb_forall. split.
  - intros H. apply fbits_ext. intros n. destruct (le_lt_dec (Nat.max (length f1) (length f2) * 8) n) as [Hn|Hn].
    + rewrite !is_set_beyond; [done|..]; apply Nat.div_le_lower_bound; lia.
    + apply eqb_prop, H, in_seq. lia.
  - intros H n _. apply eqb_true_iff, eq_true_iff_eq. by rewrite <- !elem_of_fbits, H.
Qed.

(** ** Minimal arrays *)

(** The first byte is not zero. *)
Definition trimmed (b : bytes) : Prop := forall c r, b = c :: r -> c <> NUL.

Lemma trim_trimmed b : trimmed (trim_features b).
Proof.
  induction b as [|c b IH]; [done|]. cbn [trim_features]. destruct (ch_eqb c NUL) eqn:E; [done|].
  intros c' r [= <- <-] ->. by destruct (Ascii.eqb_neq NUL NUL) as [H _]; apply H.
Qed.

Lemma length_trim b : length (trim_features b) <= length b.
Proof. induction b as [|c b IH]; [done|]. cbn [trim_features]. destruct (ch_eqb c NUL); cbn [length]; lia. Qed.

Lemma byte_bit c : c <> NUL -> exists k, k < 8 /\ Z.testbit (code c) (Z.of_nat k) = true.
Proof.
  intros H. destruct (existsb (fun k => Z.testbit (code c) (Z.of_nat k)) (seq 0 8)) eqn:E.
  - apply existsb_exists in E as (k & Hk%in_seq & E). exists k. split; [lia|done].
  - exfalso. apply H. clear H. destruct c as [[] [] [] [] [] [] [] []]; first [reflexivity|discriminate E].
Qed.

(** A minimal array is as long as its greatest bit needs. *)
Lemma top_bit b : trimmed b -> b <> [] -> exists n, n ∈ fbits b /\ n / 8 = length b - 1.
Proof.
  destruct b as [|c b]; [done|]. intros HT _. destruct (byte_bit c (HT c b eq_refl)) as (k & Hk & E).
  exists (length b * 8 + k). assert (Hd : (length b * 8 + k) / 8 = length b) by (rewrite Nat.div_add_l, Nat.div_small by lia; lia).
  rewrite elem_of_fbits, Hd. cbn [length]. split; [|lia].
  rewrite (is_set_lookup (c :: b) _ c); [|rewrite Hd; cbn [length]; lia|rewrite Hd; cbn [length]; by replace (S (length b) - 1 - length b) with 0 by lia].
  by replace ((length b * 8 + k) mod 8) with k by (rewrite Nat.add_comm, Nat.Div0.mod_add, Nat.mod_small by lia; done).
Qed.

(** ** Agreed features *)

(** What is left of [X] when the other side offers [Y]. *)
Definition agreed (X Y : gset nat) : gset nat := filter (offers Y) X.

Lemma half_double k : 2 * k / 2 = k.
Proof. by rewrite Nat.mul_comm, Nat.div_mul. Qed.

Lemma pair_of i j : Nat.even i = true -> (j = COMPULSORY_FEATURE i \/ j = OPTIONAL_FEATURE i) <-> (i <= j < i + 2).
Proof.
  intros [k ->]%Nat.even_spec. unfold COMPULSORY_FEATURE, OPTIONAL_FEATURE. rewrite half_double. lia.
Qed.

Lemma offers_pair X i j : Nat.even i = true -> i <= j < i + 2 -> offers X j <-> offers X i.
Proof.
  intros Hi Hj. unfold offers, COMPULSORY_FEATURE, OPTIONAL_FEATURE. apply Nat.even_spec in Hi as [k ->].
  replace (j / 2) with k; [by rewrite half_double|]. apply Nat.div_unique with (j - 2 * k); lia.
Qed.

Lemma offers_self X i j : Nat.even i = true -> i <= j < i + 2 -> j ∈ X -> offers X i.
Proof. intros Hi Hj Hx. apply pair_of in Hj; [|done]. unfold offers. destruct Hj as [->| ->]; tauto. Qed.

Lemma even_up i : Nat.even i = true -> Nat.even (i + 2) = true.
Proof. intros H. by rewrite Nat.even_add, H. Qed.

Lemma even_byte i j : Nat.even i = true -> i <= j < i + 2 -> j / 8 = i / 8.
Proof.
  intros [k ->]%Nat.even_spec Hj. symmetry. pose proof (Nat.div_mod (2 * k) 8 ltac:(lia)). pose proof (Nat.mod_upper_bound (2 * k) 8 ltac:(lia)).
  assert ((2 * k) mod 8 <> 7) by (intros E; lia). apply Nat.div_unique with ((2 * k) mod 8 + (j - 2 * k)); lia.
Qed.

(** The state of the loop at the even number [i], for the field [f0]. *)
Record agreeing (f0 their f : bytes) (i max_len : nat) : Prop := {
  ag_even : Nat.even i = true;
  ag_trim : trimmed f;
  ag_bits : forall n, n ∈ fbits f <-> n ∈ fbits f0 /\ (n < i -> offers (fbits their) n);
  ag_max : forall n, n ∈ fbits f -> n < i -> n / 8 < max_len;
  ag_least : max_len = 0 \/ exists n, n ∈ fbits f /\ n < i /\ n / 8 + 1 = max_len }.

Lemma agreed_end f0 their f i max_len :
  agreeing f0 their f i max_len -> length f * 8 <= i -> length f = max_len /\ fbits f = agreed (fbits f0) (fbits their).
Proof.
  intros [He HT HB HM HL] Hi. assert (Hlt : forall n, n ∈ fbits f -> n < i).
  { intros n Hn. apply elem_of_fbits, is_set_bound in Hn. lia. }
  split.
  - destruct f as [|c r]; [destruct HL as [->|(n & Hn & _)]; [done|by rewrite fbits_nil in Hn]|].
    destruct (top_bit (c :: r) HT ltac:(done)) as (n & Hn & E). pose proof (HM n Hn (Hlt n Hn)).
    destruct HL as [->|(m & Hm & _ & <-)]; [lia|]. apply elem_of_fbits, is_set_bound in Hm. cbn [length] in *.
    assert (m / 8 < S (length r)) by (apply Nat.Div0.div_lt_upper_bound; lia). lia.
  - apply set_eq. intros n. unfold agreed. rewrite elem_of_filter. specialize (HB n). pose proof (Hlt n). tauto.
Qed.

Lemma agreed_loop_spec f0 their fuel : forall f i max_len,
  agreeing f0 their f i max_len -> length f * 8 <= i + 2 * fuel ->
  exists f', agreed_loop fuel their f i max_len = (f', length f') /\ trimmed f' /\ fbits f' = agreed (fbits f0) (fbits their).
Proof.
  induction fuel as [|fuel IH]; intros f i max_len HA Hf; cbn [agreed_loop].
  { destruct (agreed_end _ _ _ _ _ HA ltac:(lia)) as [<- E]. exists f. split_and!; [done|apply HA|done]. }
  destruct (Nat.ltb_spec i (8 * length f)) as [Hi|Hi].
  2: { destruct (agreed_end _ _ _ _ _ HA ltac:(lia)) as [<- E]. exists f. split_and!; [done|apply HA|done]. }
  destruct HA as [He HT HB HM HL]. pose proof (even_up i He) as He2.
  assert (Hsplit : forall n, n < i + 2 -> n < i \/ i <= n < i + 2) by (intros; lia).
  destruct (feature_offered f i) eqn:Eo; cbn [negb].
  2: { apply offered_none in Eo. apply IH; [|lia]. split; try done.
       - intros n. rewrite HB. split; intros [H1 H2]; (split; [done|]); intros Hn; [|apply H2; lia].
         destruct (Hsplit n Hn) as [|Hp]; [by apply H2|]. exfalso. apply Eo. apply (offers_self _ i n He Hp). apply HB. split; [done|lia].
       - intros n Hf' Hn. destruct (Hsplit n Hn) as [|Hp]; [by apply HM|]. exfalso. apply Eo. by apply (offers_self _ i n).
       - destruct HL as [->|(n & ? & ? & ?)]; [by left|]. right. exists n. split_and!; [done|lia|done]. }
  apply offered_iff in Eo. destruct (feature_offered their i) eqn:Et; cbn [negb].
  - apply offered_iff in Et. apply IH; [|lia]. split; try done.
    + intros n. rewrite HB. split; intros [H1 H2]; (split; [done|]); intros Hn; [|apply H2; lia].
      destruct (Hsplit n Hn) as [|Hp]; [by apply H2|]. by apply (offers_pair _ i n He Hp).
    + intros n Hf' Hn. destruct (Hsplit n Hn) as [Hlt|Hp]; [|rewrite (even_byte i n He Hp); lia].
      assert (n / 8 <= i / 8) by (apply Nat.Div0.div_le_mono; lia). lia.
    + right. destruct Eo as [Eo|Eo].
      * exists (COMPULSORY_FEATURE i). assert (i <= COMPULSORY_FEATURE i < i + 2) as Hp by (apply pair_of; tauto).
        split_and!; [done|lia|by rewrite (even_byte i _ He Hp)].
      * exists (OPTIONAL_FEATURE i). assert (i <= OPTIONAL_FEATURE i < i + 2) as Hp by (apply pair_of; tauto).
        split_and!; [done|lia|by rewrite (even_byte i _ He Hp)].
  - apply offered_none in Et. set (g := clear_feature_bit (clear_feature_bit f (COMPULSORY_FEATURE i)) (OPTIONAL_FEATURE i)).
    assert (Hg : forall n, n ∈ fbits (trim_features g) <-> n ∈ fbits f /\ ~ (i <= n < i + 2)).
    { intros n. rewrite fbits_trim. unfold g. rewrite !fbits_clear, <- (pair_of i n He). set_solver. }
    assert (Hlen : length (trim_features g) <= length f).
    { etrans; [apply length_trim|]. unfold g, clear_feature_bit. repeat case_match; rewrite ?length_insert; lia. }
    apply IH; [|lia]. split; [done|apply trim_trimmed|..].
    + intros n. rewrite Hg, HB. split.
      * intros [[H1 H2] H3]. split; [done|]. intros Hn. apply H2. lia.
      * intros [H1 H2]. split; [split; [done|intros; apply H2; lia]|]. intros Hp. apply Et. apply (offers_pair _ i n He Hp). apply H2. lia.
    + intros n Hn Hlt. apply Hg in Hn as [Hn Hp]. apply HM; [done|lia].
    + destruct HL as [->|(n & ? & ? & ?)]; [by left|]. right. exists n. rewrite Hg. split_and!; [done|lia|lia|done].
Qed.

(** From a minimal array of our bits, a minimal array of those bits whose
    feature the other side offers. *)
Lemma agreed_spec ours their :
  trimmed (bits ours CHANNEL_FEATURE) ->
  trimmed (get_agreed_channelfeatures ours their) /\
  fbits (get_agreed_channelfeatures ours their) = agreed (fbits (bits ours CHANNEL_FEATURE)) (fbits their).
Proof.
  intros HT. unfold get_agreed_channelfeatures. set (f := bits ours CHANNEL_FEATURE) in *. cbv zeta.
  destruct (agreed_loop_spec f their (8 * length f) f 0 0) as (f' & -> & HT' & HB).
  - split; try done; [intros n; split; [intros Hn; split; [done|lia]|tauto]|lia|by left].
  - lia.
  - by rewrite take_ge by lia.
Qed.

(** ** On the wire *)

Lemma read_feature_field b rest : (len b < 65536)%Z -> fromwire_feature_field (Some (towire_feature_field b ++ rest)) = (b, Some rest).
Proof.
  intros H. unfold fromwire_feature_field, towire_feature_field, towire_u8_array, towire. rewrite <- app_assoc.
  assert (HW : wire_ok (U16 (len b))) by (cbn [wire_ok wire_u16 u16_val]; unfold len in *; lia).
  pose proof (wire_roundtrip (U16 (len b)) (b ++ rest) HW) as E. cbn [to_wire from_wire wire_u16 u16_val] in E.
  destruct (fromwire_u16 _) as [x c]. injection E as -> ->. unfold len. rewrite Nat2Z.id. unfold fromwire_tal_arrn.
  destruct b as [|x b]; [done|]. change (length (x :: b) =? 0) with false. cbn iota. rewrite (proj2 (Nat.ltb_ge _ _)) by (rewrite length_app; lia).
  unfold fromwire_u8_array. by rewrite fromwire_app.
Qed.

Lemma read_feature_set fs rest : (forall p, (len (bits fs p) < 65536)%Z) ->
  fromwire_feature_set (Some (towire_feature_set fs ++ rest)) = (Some fs, Some rest).
Proof.
  intros H. unfold fromwire_feature_set, towire_feature_set, feature_places. cbn [flat_map]. rewrite app_nil_r, <- !app_assoc.
  rewrite !read_feature_field by apply H. by destruct fs.
Qed.
