(* ===== verification/WireTheorems.v ===== *)
(** Properties of the wire formats, of streams of fields, and of feature sets. *)
From Stdlib Require Import Sorting.Sorted.
From S2P Require Import Prelude Wire Tlv TlvProofs Features FeaturesProofs.

(** * Formats *)

(** What is written can be read back from a longer message, and nothing more
    is taken: for all formats at once, one after another. *)
Theorem wire_formats_roundtrip (x : u8 * u16 * u64 * bool * bigsize * sha256 * short_channel_id_dir) rest :
  wire_ok x -> from_wire (Some (to_wire x ++ rest)) = (x, Some rest).
Proof. apply wire_roundtrip. Qed.

Lemma wire_formats_roundtrip_witness :
  from_wire (Some (to_wire (U8 7, U16 258, U64 65536, true, Bigsize 253, Sha256 (repeat (chr 9) 32), ScidDir (Scid 5) false) ++ bs "rest"))
  = ((U8 7, U16 258, U64 65536, true, Bigsize 253, Sha256 (repeat (chr 9) 32), ScidDir (Scid 5) false), Some (bs "rest")).
Proof. apply wire_formats_roundtrip. vm_compute. repeat split; congruence. Defined.

(** C35.  A channel id is made from exactly the block heights, transaction
    indices and output indices that have 24, 24 and 16 bits; it is then a 64-bit
    number, its three parts are those it was made from, and it is read back from
    its wire form. *)
Theorem scid_fields b t o rest :
  (mk_short_channel_id b t o <> None <-> (0 <= b < 2 ^ 24 /\ 0 <= t < 2 ^ 24 /\ 0 <= o < 2 ^ 16)%Z) /\
  (forall s, mk_short_channel_id b t o = Some s ->
     (0 <= scid_u64 s < u64_mod)%Z /\ short_channel_id_blocknum s = b /\ short_channel_id_txnum s = t /\ short_channel_id_outnum s = o /\
     fromwire_short_channel_id (Some (towire_short_channel_id s ++ rest)) = (s, Some rest)).
Proof.
  split.
  - split.
    + destruct (mk_short_channel_id b t o) as [s|] eqn:E; [intros _|done]. by destruct (scid_parts _ _ _ _ E) as (? & ? & ? & _).
    + intros (Hb & Ht & Ho). by rewrite (scid_value _ _ _ Hb Ht Ho).
  - intros s E. destruct (scid_parts _ _ _ _ E) as (Hb & Ht & Ho & -> & -> & ->).
    rewrite (scid_value _ _ _ Hb Ht Ho) in E. injection E as <-.
    assert (HR : (0 <= b * 2 ^ 40 + t * 2 ^ 16 + o < u64_mod)%Z) by (unfold u64_mod; lia).
    split_and!; try done; cbn [scid_u64]; try lia. exact (wire_roundtrip (Scid (b * 2 ^ 40 + t * 2 ^ 16 + o)) rest HR).
Qed.

(** The bigsize format is a bijection between 64-bit numbers and the byte
    strings it accepts: a number is read back from its encoding, which has the
    length of [bigsize_len]; and bytes that are accepted are the encoding of the
    number they give, so that no number has a second form. *)
Theorem bigsize_bijective v p n :
  ((0 <= v < u64_mod)%Z -> bigsize_get (bigsize_put v ++ p) = Some (bigsize_len v, v)) /\
  (bigsize_get p = Some (n, v) -> take n p = bigsize_put v /\ n = bigsize_len v /\ n <= length p).
Proof.
  split.
  - intros H. rewrite bigsize_get_put by done. by rewrite length_bigsize_put.
  - intros H. apply bigsize_canonical in H as (E & Hn & _). split_and!; [done| |done].
    rewrite <- length_bigsize_put, <- E, length_take. lia.
Qed.

Lemma bigsize_bijective_witness : bigsize_get (bigsize_put 65536 ++ bs "x") = Some (5, 65536%Z).
Proof. apply (proj1 (bigsize_bijective 65536 (bs "x") 0)). done. Defined.

(** * Streams of fields *)

(** Fields that are written as a raw stream, in any order and with distinct
    types, are read back sorted by type, with the same values; when the unknown
    types among them are odd, the stream read back is valid. *)
Theorem tlv_raw_roundtrip l :
  Forall field_ok l -> NoDup (map numtype l) -> Forall (fun f => numtype f mod 2 = 1)%Z l ->
  exists l', fromwire_tlv [] (towire_tlvstream_raw l) tt = Some (tt, l') /\
    Permutation (map (fun f => (numtype f, value f)) l') (map (fun f => (numtype f, value f)) l) /\
    increasing l' /\ tlv_fields_valid l' None = None.
Proof.
  intros Hok Hd Ho. unfold towire_tlvstream_raw. rewrite read_stream by (by rewrite sort_perm). rewrite absorb_raw.
  eexists. split; [reflexivity|]. set (raw := fun f => Field false (numtype f) (value f)).
  assert (HI : increasing (map raw (sort_fields l))).
  { pose proof (sort_increasing l Hd) as HS. clear -HS. induction HS as [|f l' HS IH Hf]; cbn [map]; [constructor|]. constructor; [exact IH|]. by apply Forall_map. }
  split_and!; [|exact HI|].
  - rewrite map_map. change (fun x => (numtype (raw x), value (raw x))) with (fun x => (numtype x, value x)). by rewrite sort_perm.
  - apply valid_iff. split; [|exact HI]. apply Forall_map. rewrite sort_perm. eapply Forall_impl; [exact Ho|].
    intros f Hf. unfold tlv_type_is_allowed. cbn [numtype raw]. by rewrite Hf.
Qed.

Definition sample_fields : list tlv_field := [Field false 5 (bs "hello"); Field false 3 []; Field false 65537 (bs "x")].

Lemma tlv_raw_roundtrip_witness :
  exists l', fromwire_tlv [] (towire_tlvstream_raw sample_fields) tt = Some (tt, l') /\
    Permutation (map (fun f => (numtype f, value f)) l') (map (fun f => (numtype f, value f)) sample_fields) /\
    increasing l' /\ tlv_fields_valid l' None = None.
Proof.
  apply tlv_raw_roundtrip.
  - repeat constructor; done.
  - apply (bool_decide_eq_true_1 (NoDup (map numtype sample_fields))). vm_compute. reflexivity.
  - repeat constructor; done.
Defined.

(** C25.  A record that is written by a table of increasing types is read back by
    the same table, field by field, if each entry reads what it writes; the
    fields returned are those [tlv_make_fields] gives, and they are valid. *)
Theorem tlv_record_roundtrip {R : Type} (types : list (tlv_record_type R)) rec r0 :
  codec types -> types_increasing types -> Forall (fun ty => 0 <= rt_type ty < u64_mod)%Z types ->
  Forall (fun ty => match rt_towire ty rec with Some v => (len v < u64_mod)%Z | None => True end) types ->
  (forall ty, ty ∈ types -> rt_towire ty r0 = None) ->
  exists b l r', towire_tlv types rec = Ret b /\ tlv_make_fields types rec = Ret l /\ fromwire_tlv types b r0 = Some (r', l) /\
    (forall ty, ty ∈ types -> rt_towire ty r' = rt_towire ty rec) /\ tlv_fields_valid l None = None.
Proof.
  intros HC HT HR HV H0. set (l := omap (fun ty => Field true (rt_type ty) <$> rt_towire ty rec) types).
  assert (HM : make_fields None types rec = Ret l) by (apply make_fields_ret; [done|by apply Forall_forall]).
  destruct (absorb_made types rec types HC HT HT ltac:(done) r0 H0) as (r' & E & Hr & _). cbv zeta in E. fold l in E.
  exists (flat_map towire_field l), l, r'. unfold towire_tlv, tlv_make_fields. rewrite HM. cbn [obind].
  assert (Hl : Forall (fun f => field_ok f /\ known f = true) l).
  { apply Forall_forall. intros f Hf. apply list_elem_of_omap in Hf as (ty & Hty & Ef). rewrite Forall_forall in HR, HV. specialize (HR ty Hty). specialize (HV ty Hty).
    destruct (rt_towire ty rec) as [v|]; [|done]. injection Ef as <-. done. }
  split_and!; [done|done| |done|].
  - rewrite read_stream; [done|]. eapply Forall_impl; [exact Hl|]. by intros f [? _].
  - apply valid_iff. split; [eapply Forall_impl; [exact Hl|]; intros f [_ Hk]; unfold tlv_type_is_allowed; by rewrite Hk, orb_true_r|].
    unfold l. clear -HT. induction HT as [|ty tys HT IH Hty]; cbn [omap list_omap]; [constructor|].
    destruct (rt_towire ty rec) as [v|]; cbn [fmap option_fmap option_map]; [|exact IH]. constructor; [exact IH|].
    apply Forall_forall. intros f Hf. apply list_elem_of_omap in Hf as (ty' & Hty' & Ef). rewrite Forall_forall in Hty. specialize (Hty ty' Hty').
    destruct (rt_towire ty' rec) as [v'|]; [|done]. injection Ef as <-. done.
Qed.

(** A table of two types for a pair of optional numbers. *)
Definition sample_types : list (tlv_record_type (option Z * option Z)) :=
  [RecordType 2 (fun r => towire_u8 <$> r.1) (fun c r => let '(v, c') := fromwire_u8 c in ((Some v, r.2), c'));
   RecordType 4 (fun r => towire_u8 <$> r.2) (fun c r => let '(v, c') := fromwire_u8 c in ((r.1, Some v), c'))].

Lemma u8_byte v : towire_u8 (fromwire_u8 (Some (towire_u8 v))).1 = towire_u8 v /\ (fromwire_u8 (Some (towire_u8 v))).2 = Some [].
Proof.
  unfold towire_u8, fromwire_u8, towire. pose proof (fromwire_app (to_be 1 v) []) as E. rewrite app_nil_r, length_to_be in E. rewrite E. cbn [fst snd].
  split; [|done]. pose proof (to_from_be (to_be 1 v)) as H. by rewrite length_to_be in H.
Qed.

Lemma sample_codec : codec sample_types.
Proof.
  intros ty Hty rec v Hv r0. unfold sample_types in Hty.
  assert (HB : forall x, towire_u8 <$> x = Some v -> exists y, fromwire_u8 (Some v) = (y, Some []) /\ towire_u8 y = v).
  { intros [x|] [= <-]. destruct (u8_byte x) as [E1 E2]. destruct (fromwire_u8 _) as [y c]. cbn in E1, E2. subst c. eauto. }
  apply elem_of_cons in Hty as [->|Hty]; [|apply elem_of_cons in Hty as [->|Hty]; [|set_solver]]; cbn [rt_towire rt_fromwire rt_type] in *;
    destruct (HB _ Hv) as (y & E & Ey); rewrite E; eexists; (split; [reflexivity|]); cbn [fst snd fmap option_fmap option_map]; rewrite Ey;
    (split; [done|]); intros ty' Hty' Hne; unfold sample_types in Hty'; apply elem_of_cons in Hty' as [->|Hty'];
    (try (apply elem_of_cons in Hty' as [->|Hty']; [|set_solver])); cbn in *; done.
Qed.

Lemma tlv_record_roundtrip_witness :
  exists b l r', towire_tlv sample_types (None, Some 9%Z) = Ret b /\ tlv_make_fields sample_types (None, Some 9%Z) = Ret l /\
    fromwire_tlv sample_types b (None, None) = Some (r', l) /\
    (forall ty, ty ∈ sample_types -> rt_towire ty r' = rt_towire ty (None, Some 9%Z)) /\ tlv_fields_valid l None = None.
Proof.
  apply tlv_record_roundtrip.
  - apply sample_codec.
  - repeat constructor.
  - repeat constructor; done.
  - repeat constructor; done.
  - unfold sample_types. intros ty Hty. apply elem_of_cons in Hty as [->|Hty]; [done|]. apply elem_of_cons in Hty as [->|Hty]; [done|set_solver].
Defined.

(** A number that is set in a stream as a truncated u64 is found by the
    getter only when it needs all eight bytes: the setter drops leading zeros,
    the getter refuses every other length.  A channel id, which is not
    truncated, is found. *)
Theorem tlv_tu64_lost junk stream type v s :
  (0 <= v < u64_mod)%Z -> (0 <= scid_u64 s < u64_mod)%Z ->
  tlvstream_get_tu64 (tlvstream_set_tu64 junk stream type v) type = (if (2 ^ 56 <=? v)%Z then Some v else None) /\
  tlvstream_get_short_channel_id (tlvstream_set_short_channel_id junk stream type s) type = Some s.
Proof.
  intros Hv Hs. split.
  - unfold tlvstream_get_tu64, tlvstream_set_tu64. rewrite get_of_length_8_value, tlv_value_set, decide_True by done. cbn [mbind option_bind].
    pose proof (length_tu64 v Hv) as HL. destruct (Z.leb_spec (2 ^ 56) v) as [H|H].
    + rewrite (proj2 (Nat.eqb_eq _ _)) by tauto. cbn [fmap option_fmap option_map]. by rewrite tu64_roundtrip.
    + rewrite (proj2 (Nat.eqb_neq _ _)); [done|]. intros E. apply HL in E. lia.
  - unfold tlvstream_get_short_channel_id, tlvstream_set_short_channel_id. rewrite get_of_length_8_value, tlv_value_set, decide_True by done. cbn [mbind option_bind].
    unfold towire_short_channel_id at 1, towire_u64, towire. rewrite length_to_be. cbn [Nat.eqb fmap option_fmap option_map].
    pose proof (wire_roundtrip s [] Hs) as E. cbn [to_wire from_wire wire_scid] in E. rewrite app_nil_r in E. by rewrite E.
Qed.

Lemma tlv_tu64_lost_witness :
  tlvstream_get_tu64 (tlvstream_set_tu64 false [] 2 1000) 2 = None /\
  tlvstream_get_short_channel_id (tlvstream_set_short_channel_id false [] 2 (Scid 1000)) 2 = Some (Scid 1000).
Proof. apply (tlv_tu64_lost false [] 2 1000 (Scid 1000)); done. Defined.

(** * Feature bits *)

(** C24.  A bit field implements a finite set of numbers: setting, clearing and
    testing a bit, combining two fields of any lengths byte by byte, comparing
    two fields, and trimming, which changes no bit. *)
Theorem feature_bits_refine b b' n :
  fbits (set_feature_bit b n) = {[n]} ∪ fbits b /\ fbits (clear_feature_bit b n) = fbits b ∖ {[n]} /\
  (feature_is_set b n = true <-> n ∈ fbits b) /\ fbits (featurebits_or b b') = fbits b ∪ fbits b' /\
  (featurebits_eq b b' = true <-> fbits b = fbits b') /\ fbits (trim_features b) = fbits b /\ trimmed (trim_features b).
Proof.
  split_and!; [apply fbits_set|apply fbits_clear|symmetry; apply elem_of_fbits|apply fbits_or|apply featurebits_eq_iff|apply fbits_trim|apply trim_trimmed].
Qed.

Lemma offers_member X n : n ∈ X -> offers X n.
Proof.
  intros H. unfold offers, COMPULSORY_FEATURE, OPTIONAL_FEATURE. pose proof (Nat.div_mod n 2 ltac:(lia)).
  pose proof (Nat.mod_upper_bound n 2 ltac:(lia)). destruct (decide (n mod 2 = 0)); [left|right].
  - replace (2 * (n / 2)) with n by lia. done.
  - replace (2 * (n / 2) + 1) with n by lia. done.
Qed.

(** Adding a feature set to another succeeds exactly when no feature of it is
    offered there already, in either form, and then unites the bits in every
    place; otherwise nothing changes.  Subtracting it again restores the bits. *)
Theorem feature_set_or_then_sub a b :
  ((forall p n, n ∈ fbits (bits b p) -> ~ offers (fbits (bits a p)) n) /\
     exists c d, feature_set_or a b = (true, c) /\ (forall p, fbits (bits c p) = fbits (bits a p) ∪ fbits (bits b p)) /\
       feature_set_sub c b = (true, d) /\ forall p, fbits (bits d p) = fbits (bits a p)) \/
  ((exists p n, n ∈ fbits (bits b p) /\ offers (fbits (bits a p)) n) /\ feature_set_or a b = (false, a)).
Proof.
  destruct (or_spec a b) as [(Hn & c & E & Hc)|[Hx E]]; [left|by right]. split; [done|]. destruct (sub_spec c b) as [(_ & d & Ed & Hd)|[(p & n & Hb & Ho) _]].
  - exists c, d. split_and!; [done|done|done|]. intros p. rewrite Hd, Hc. apply set_eq. intros n. rewrite elem_of_difference, elem_of_union.
    split; [tauto|]. intros Ha. split; [by left|]. intros Hb. apply (Hn p n Hb). by apply offers_member.
  - exfalso. apply Ho, offers_member. rewrite Hc. set_solver.
Qed.

(** The agreed features of a channel are our bits whose feature the other
    side offers, in either form, in an array without leading zeros, if ours
    has none; with leading zeros in ours, the wrong end of the array is cut and
    an agreed feature is lost. *)
Theorem agreed_features ours their :
  (trimmed (bits ours CHANNEL_FEATURE) ->
     trimmed (get_agreed_channelfeatures ours their) /\
     fbits (get_agreed_channelfeatures ours their) = agreed (fbits (bits ours CHANNEL_FEATURE)) (fbits their)) /\
  get_agreed_channelfeatures (FeatureSet [] [] [] [chr 0; chr 1] []) [chr 1] = [chr 0].
Proof. split; [apply agreed_spec|reflexivity]. Qed.

Lemma agreed_features_witness :
  fbits (get_agreed_channelfeatures (FeatureSet [] [] [] [chr 5; chr 2] []) [chr 1]) = agreed (fbits [chr 5; chr 2]) (fbits [chr 1]).
Proof.
  apply (proj2 (proj1 (agreed_features (FeatureSet [] [] [] [chr 5; chr 2] []) [chr 1]) ltac:(intros c r [= <- <-]; discriminate))).
Defined.

(** A feature set is read back from its wire form. *)
Theorem feature_set_wire fs rest :
  (forall p, (len (bits fs p) < 65536)%Z) -> fromwire_feature_set (Some (towire_feature_set fs ++ rest)) = (Some fs, Some rest).
Proof. apply read_feature_set. Qed.

Lemma feature_set_wire_witness :
  fromwire_feature_set (Some (towire_feature_set (FeatureSet [chr 2] [] [] [chr 5; chr 2] []) ++ bs "x")) = (Some (FeatureSet [chr 2] [] [] [chr 5; chr 2] []), Some (bs "x")).
Proof. apply feature_set_wire. by intros []. Defined.
