(* ===== verification/Ec.v ===== *)
(** plugins/payz/ecs/ec.c: the entity-component table.

    An entity is a u32; each entity with components has a row in an intmap,
    a row maps component names to cells in a strmap, and a cell holds the text
    and the tokens of one JSON datum.  Rows are never empty. *)
From S2P Require Import Prelude Utf8 Jsmn JsonTree JsmnProofs Json JsonProofs Strmap Intmap.

(** * State *)

Record ec_cell : Type := Cell { component : bytes; buffer : bytes; tok : list jsmntok }.

Abbreviation ec_entityrow := (strmap ec_cell).

Record ec : Type := Ec { next_entity : Z; entity_map : intmap ec_entityrow }.

(** [null_buffer] and [null_tok], what a failed lookup returns. *)
Definition null_buffer : bytes := bs "null".
Definition null_tok : list jsmntok := [Tok JSMN_PRIMITIVE 0 4 0].

(** * Operations *)

Definition ec_new : ec := Ec 1 intmap_init.

(** [ec->next_entity++] on a u32. *)
Definition ec_newentity (e : ec) : Z * ec :=
  (next_entity e, Ec (wrap32 (next_entity e + 1)) (entity_map e)).

(** The half-open range [min, max) that covers every entity in use; both are
    u32, and so is the sum. *)
Definition ec_get_entity_bounds (e : ec) : Z * Z :=
  if intmap_empty (entity_map e) then (0, 0)%Z
  else
    match intmap_first (entity_map e), intmap_last (entity_map e) with
    | Some (im_min, _), Some (im_max, _) => (wrap32 im_min, wrap32 (wrap32 im_max + 1))
    | _, _ => (0, 0)%Z
    end.

(** The callback of [strmap_iterate]: append the name, go on. *)
Definition ec_get_components_from_strmap (name : bytes) (value : ec_cell) (components : list bytes)
  : bool * list bytes := (true, components ++ [name]).

Definition ec_get_components (e : ec) (entity : Z) : outcome (option (list bytes)) :=
  match intmap_get (entity_map e) entity with
  | None => Ret None
  | Some entityrow =>
      let components := strmap_iterate entityrow ec_get_components_from_strmap [] in
      let! _ := assert_ (negb (length components =? 0)) "ec_get_components: empty row" in
      Ret (Some components)
  end.

(** The result flag, and what [*buffer] and [*toks] point at. *)
Definition ec_get_component (e : ec) (entity : Z) (name : bytes) : bool * (bytes * list jsmntok) :=
  match intmap_get (entity_map e) entity with
  | None => (false, (null_buffer, null_tok))
  | Some entityrow =>
      match strmap_get entityrow name with
      | None => (false, (null_buffer, null_tok))
      | Some cell => (true, (buffer cell, tok cell))
      end
  end.

Definition ec_entityrow_new : ec_entityrow := strmap_init.

(** The map after the row of an entity was changed through its pointer. *)
Fixpoint poke_node {A : Type} (n : inode A) (index : Z) (value : A) : inode A :=
  match n with
  | ILeaf i v => ILeaf i (if (i =? index)%Z then value else v)
  | INode c0 c1 p => INode (poke_node c0 index value) (poke_node c1 index value) p
  end.

Definition poke {A : Type} (m : intmap A) (index : Z) (value : A) : intmap A :=
  match m with None => None | Some n => Some (poke_node n index value) end.

(** Move a token left by an offset. *)
Definition shift_tok (offset : Z) (t : jsmntok) : jsmntok :=
  Tok (ttype t) (tstart t - offset) (tend t - offset) (tsize t).

Definition ec_cell_new (name : bytes) (buf : bytes) (tk : list jsmntok) : ec_cell :=
  let to_copy := json_tok_full (cur tk) in
  let toks := json_tok_copy tk in
  Cell name (tok_full_text buf (cur tk))
    (if (to_copy =? 0)%Z then toks else map (shift_tok to_copy) toks).

(** [ec_set_component]; a C NULL is [None]. *)
Definition ec_set_component (e : ec) (entity : Z) (name : bytes)
    (buf : option bytes) (tk : option (list jsmntok)) : outcome ec :=
  let! detach :=
    match buf, tk with
    | Some b, Some t => Ret (json_tok_is_null b t)
    | None, None => Ret true
    | _, _ => Abort "ec_set_component: buffer and tok must both be NULL"
    end in
  let entityrow := intmap_get (entity_map e) entity in
  if detach : bool then
    match entityrow with
    | None => Ret e
    | Some row =>
        match strmap_get row name with
        | None => Ret e
        | Some _ =>
            let row' := (strmap_del row name).2 in
            let m := poke (entity_map e) entity row' in
            Ret (Ec (next_entity e) (if strmap_empty row' then (intmap_del m entity).2 else m))
        end
    end
  else
    match buf, tk with
    | Some b, Some t =>
        let '(m, row, cell) :=
          match entityrow with
          | None => ((intmap_add (entity_map e) entity ec_entityrow_new).2, ec_entityrow_new, None)
          | Some row => (entity_map e, row, strmap_get row name)
          end in
        let row1 := match cell with None => row | Some _ => (strmap_del row name).2 end in
        let cell' := ec_cell_new name b t in
        let row2 := (strmap_add row1 (component cell') cell').2 in
        Ret (Ec (next_entity e) (poke m entity row2))
    | _, _ => Ret e
    end.

(** [ec_set_component_datuml]: [value] with its length; [None] is NULL. *)
Definition ec_set_component_datuml (e : ec) (entity : Z) (name : bytes) (value : option bytes) : outcome ec :=
  let tk := match value with
            | Some v => json_parse_simple v (length v)
            | None => None
            end in
  ec_set_component e entity name value tk.

(** [ec_set_component_datum]: a C string, so that [strlen] is its length. *)
Definition ec_set_component_datum (e : ec) (entity : Z) (name : bytes) (valuez : option bytes) : outcome ec :=
  ec_set_component_datuml e entity name valuez.

(** * The table as a finite map *)

Definition ec_map (e : ec) : gmap Z (gmap bytes ec_cell) :=
  strmap_to_map <$> intmap_to_map (entity_map e).

(** The cell of a component, if it is attached. *)
Definition ec_cell_at (e : ec) (entity : Z) (name : bytes) : option ec_cell :=
  ec_map e !! entity ≫= fun row => row !! name.

(** What [json_tok_is_null] takes for null: a primitive that starts with n. *)
Definition jv_null (v : jv) : bool :=
  match v with JPrim (c :: _) => ch_in c (bs "n") | _ => false end.

(** The cell that holds a value under a name. *)
Definition cell_of (name : bytes) (v : jv) : ec_cell := Cell name (text v) (toks 0 v).

Definition cell_wf (name : bytes) (c : ec_cell) : Prop :=
  no_nul name /\ exists v, jv_ok v = true /\ jv_null v = false /\ c = cell_of name v.

Definition is_u32 (z : Z) : Prop := (0 <= z < u32_mod)%Z.

(** The representation invariant of the table. *)
Record ec_wf (e : ec) : Prop := {
  wf_next : is_u32 (next_entity e);
  wf_map : intmap_wf (entity_map e);
  wf_entity : forall k row, intmap_to_map (entity_map e) !! k = Some row -> is_u32 k;
  wf_row : forall k row, intmap_to_map (entity_map e) !! k = Some row ->
           strmap_wf row /\ strmap_to_map row <> ∅;
  wf_cell : forall k row name c, intmap_to_map (entity_map e) !! k = Some row ->
            strmap_to_map row !! name = Some c -> cell_wf name c }.
