(* ===== verification/EcProofs.v ===== *)
(** The entity-component table refines a finite map of finite maps: every
    operation keeps the representation invariant and does to the map what its
    name says. *)
From S2P Require Import Prelude Utf8 Jsmn JsonTree JsmnProofs Json JsonProofs Strmap Intmap Ec.
From Stdlib Require Import Sorted.

(** A 32-bit number, by evaluation. *)
Lemma u32_sample (z : Z) : (0 <=? z)%Z && (z <? u32_mod)%Z = true -> is_u32 z.
Proof. intros [H1 H2]%andb_true_iff. apply Z.leb_le in H1. by apply Z.ltb_lt in H2. Qed.

(** * Cells *)

Lemma toks_shift k v : forall o, map (shift_tok k) (toks (k + o) v) = toks o v.
Proof.
  induction v as [s|s|w es IH|w ms IH] using jv_ind; intros o.
  - simpl. unfold shift_tok. simpl. do 2 f_equal; lia.
  - simpl. unfold shift_tok. simpl. do 2 f_equal; lia.
  - rewrite !toks_arr. cbn [map]. f_equal; [unfold shift_tok; cbn [ttype tstart tend tsize]; f_equal; lia|].
    replace (k + o + 1 + len w)%Z with (k + (o + 1 + len w))%Z by lia. generalize (o + 1 + len w)%Z.
    induction IH as [|e r He _ IHr]; intros a; [done|]. cbn [elems_toks]. rewrite map_app, <- Z.add_assoc, He.
    f_equal. rewrite <- (IHr (a + len (elem_text e) + 1)%Z). do 2 f_equal. lia.
  - rewrite !toks_obj. cbn [map]. f_equal; [unfold shift_tok; cbn [ttype tstart tend tsize]; f_equal; lia|].
    replace (k + o + 1 + len w)%Z with (k + (o + 1 + len w))%Z by lia. generalize (o + 1 + len w)%Z.
    induction IH as [|e r He _ IHr]; intros a; [done|]. cbn [members_toks map].
    unfold key_off, val_off. f_equal; [unfold shift_tok; cbn [ttype tstart tend tsize]; f_equal; lia|].
    rewrite map_app, <- Z.add_assoc, He. f_equal. rewrite <- (IHr (a + len (member_text e) + 1)%Z). do 2 f_equal. lia.
Qed.

(** A new cell holds the value and nothing of its surroundings. *)
Lemma ec_cell_new_holds name buf tk v : holds buf tk v -> ec_cell_new name buf tk = cell_of name v.
Proof.
  intros (pre & post & rest & -> & -> & _ & Hv). unfold ec_cell_new, cell_of.
  rewrite tok_full_text_holds, json_tok_copy_toks, cur_toks, full_offset. f_equal.
  pose proof (toks_shift (len pre) v 0) as HS. rewrite Z.add_0_r in HS.
  destruct (Z.eqb_spec (len pre) 0) as [E|_]; [by rewrite E|done].
Qed.

Lemma is_null_holds buf tk v : holds buf tk v -> json_tok_is_null buf tk = jv_null v.
Proof.
  intros (pre & post & rest & -> & -> & _ & Hv). unfold json_tok_is_null. rewrite cur_toks.
  destruct v as [s|s|w es|w ms]; try done. cbn [toks cur hd ttype tstart type_eqb negb].
  unfold len. rewrite Nat2Z.id, lookup_app_r, Nat.sub_diag by lia. by destruct s.
Qed.

Lemma holds_self v : jv_ok v = true -> holds (text v) (toks 0 v) v.
Proof. intros Hv. exists [], [], []. by rewrite !app_nil_r. Qed.

(** * Writing through a row pointer *)

Lemma poke_elements {A : Type} (n : inode A) k (v : A) :
  ielements (poke_node n k v) = (fun kv => (kv.1, if (kv.1 =? k)%Z then v else kv.2)) <$> ielements n.
Proof. induction n as [i w|c0 IH0 c1 IH1 p]; csimpl; [done|]. by rewrite IH0, IH1, fmap_app. Qed.

Lemma poke_keys {A : Type} (n : inode A) k (v : A) : ikeys (poke_node n k v) = ikeys n.
Proof. unfold ikeys. rewrite poke_elements, <- list_fmap_compose. by apply list_fmap_ext. Qed.

Lemma poke_wf {A : Type} (m : intmap A) k (v : A) : intmap_wf m -> intmap_wf (poke m k v).
Proof.
  destruct m as [n|]; [|done]. simpl. induction n as [i w|c0 IH0 c1 IH1 p]; [done|].
  cbn [inode_wf poke_node]. intros (W0 & W1 & Hp & Hc & F0 & F1 & FA). rewrite !poke_keys. auto 10.
Qed.

Lemma list_to_map_poke {A : Type} (l : list (Z * A)) k v :
  NoDup l.*1 ->
  (list_to_map ((fun kv => (kv.1, if (kv.1 =? k)%Z then v else kv.2)) <$> l) : gmap Z A)
  = alter (fun _ => v) k (list_to_map l).
Proof.
  induction l as [|[i w] l IH]; csimpl; intros HN; [by rewrite alter_empty|].
  apply NoDup_cons in HN as [Hi HN]. rewrite IH by done. destruct (Z.eqb_spec i k) as [->|Hne].
  - rewrite alter_insert_eq. f_equal. apply map_eq. intros j. destruct (decide (j = k)) as [->|].
    + rewrite lookup_alter_eq. by rewrite (not_elem_of_list_to_map_1 l k Hi).
    + by rewrite lookup_alter_ne.
  - by rewrite alter_insert_ne.
Qed.

Lemma poke_map {A : Type} (m : intmap A) k (v : A) :
  intmap_wf m -> intmap_to_map (poke m k v) = alter (fun _ => v) k (intmap_to_map m).
Proof.
  destruct m as [n|]; intros Hwf; [|unfold intmap_to_map; simpl; by rewrite alter_empty].
  unfold intmap_to_map; simpl. rewrite poke_elements. apply list_to_map_poke. by apply ikeys_NoDup.
Qed.

Lemma poke_present {A : Type} (m : intmap A) k (v w : A) :
  intmap_wf m -> intmap_to_map m !! k = Some w -> intmap_to_map (poke m k v) = <[k := v]> (intmap_to_map m).
Proof.
  intros Hwf Hk. rewrite poke_map by done. apply map_eq. intros j. destruct (decide (j = k)) as [->|].
  - by rewrite lookup_alter_eq, lookup_insert_eq, Hk.
  - by rewrite lookup_alter_ne, lookup_insert_ne.
Qed.

(** * The abstract table *)

Abbreviation table := (gmap Z (gmap bytes ec_cell)).

Definition spec_attach (m : table) (entity : Z) (name : bytes) (v : jv) : table :=
  <[entity := <[name := cell_of name v]> (default ∅ (m !! entity))]> m.

(** Detaching the last component removes the entity. *)
Definition spec_detach (m : table) (entity : Z) (name : bytes) : table :=
  match m !! entity with
  | None => m
  | Some row => if decide (delete name row = ∅) then delete entity m else <[entity := delete name row]> m
  end.

Definition spec_set (m : table) (entity : Z) (name : bytes) (v : jv) : table :=
  if jv_null v then spec_detach m entity name else spec_attach m entity name v.

(** * Lookups *)

Lemma ec_row_map e k : ec_wf e -> ec_map e !! k = strmap_to_map <$> intmap_get (entity_map e) k.
Proof. intros H. unfold ec_map. by rewrite lookup_fmap, intmap_get_map by apply H. Qed.

Lemma ec_get_component_spec e entity name :
  ec_wf e ->
  ec_get_component e entity name =
    match ec_cell_at e entity name with
    | Some c => (true, (buffer c, tok c))
    | None => (false, (null_buffer, null_tok))
    end.
Proof.
  intros H. unfold ec_get_component, ec_cell_at. rewrite ec_row_map by done.
  destruct (intmap_get (entity_map e) entity) as [row|] eqn:E; [|done]. simpl.
  rewrite intmap_get_map in E by apply H. rewrite strmap_get_map by (by eapply wf_row). done.
Qed.

Lemma cell_at_wf e entity name c : ec_wf e -> ec_cell_at e entity name = Some c -> cell_wf name c.
Proof.
  intros H. unfold ec_cell_at. rewrite ec_row_map by done.
  destruct (intmap_get (entity_map e) entity) as [row|] eqn:E; [|done]. simpl.
  rewrite intmap_get_map in E by apply H. intros Hc. by eapply wf_cell.
Qed.

Lemma ec_wf_new : ec_wf ec_new.
Proof. split; simpl; try done; intros ? ? Hl; unfold intmap_to_map in Hl; simpl in Hl; simplify_map_eq. Qed.

Lemma ec_map_new : ec_map ec_new = ∅.
Proof. unfold ec_map, ec_new, intmap_to_map. simpl. by rewrite fmap_empty. Qed.

(** * The map underneath *)

(** A table whose map is another well-formed map with good rows. *)
Lemma ec_wf_map (e : ec) (m : intmap ec_entityrow) k row :
  ec_wf e -> intmap_wf m -> is_u32 k -> strmap_wf row -> strmap_to_map row <> ∅ ->
  map_Forall cell_wf (strmap_to_map row) ->
  intmap_to_map m = <[k := row]> (intmap_to_map (entity_map e)) ->
  ec_wf (Ec (next_entity e) m).
Proof.
  intros H Hm Hk Hr Hne Hc E. split; simpl; try done; [apply H|..]; rewrite E.
  - intros k' row' [[-> _]|[_ Hl]]%lookup_insert_Some; [done|by eapply wf_entity].
  - intros k' row' [[-> <-]|[_ Hl]]%lookup_insert_Some; [done|by eapply wf_row].
  - intros k' row' n c [[-> <-]|[_ Hl]]%lookup_insert_Some; [apply Hc|by eapply wf_cell].
Qed.

Lemma ec_wf_del (e : ec) (m : intmap ec_entityrow) k :
  ec_wf e -> intmap_wf m -> intmap_to_map m = delete k (intmap_to_map (entity_map e)) ->
  ec_wf (Ec (next_entity e) m).
Proof.
  intros H Hm E. split; simpl; try done; [apply H|..]; rewrite E.
  - intros k' row' [_ Hl]%lookup_delete_Some. by eapply wf_entity.
  - intros k' row' [_ Hl]%lookup_delete_Some. by eapply wf_row.
  - intros k' row' n c [_ Hl]%lookup_delete_Some. by eapply wf_cell.
Qed.

(** Replacing the cell of a name in a row. *)
Lemma row_replace row name (c : ec_cell) :
  strmap_wf row -> no_nul name ->
  let row1 := match strmap_get row name with None => row | Some _ => (strmap_del row name).2 end in
  strmap_wf (strmap_add row1 name c).2 /\
  strmap_to_map (strmap_add row1 name c).2 = <[name := c]> (strmap_to_map row).
Proof.
  intros Hr Hn row1.
  assert (H1 : strmap_wf row1 /\ strmap_to_map row1 = delete name (strmap_to_map row)).
  { subst row1. rewrite strmap_get_map by done. destruct (strmap_to_map row !! name) as [c0|] eqn:E.
    - by destruct (strmap_del_map row name Hr) as (_ & ? & ?).
    - by rewrite delete_id. }
  destruct H1 as [W1 M1].
  destruct (strmap_add_fresh row1 name c W1 Hn) as (m' & -> & W & M); [rewrite M1; apply lookup_delete_eq|].
  simpl. by rewrite M, M1, insert_delete_eq.
Qed.

Lemma map_Forall_cells e k row :
  ec_wf e -> intmap_to_map (entity_map e) !! k = Some row -> map_Forall cell_wf (strmap_to_map row).
Proof. intros H Hr n c Hc. by eapply wf_cell. Qed.

Lemma u32_u64 z : is_u32 z -> (0 <= z < u64_mod)%Z.
Proof. unfold is_u32, u32_mod, u64_mod. lia. Qed.

(** * [ec_set_component] *)

(** The attaching branch. *)
Lemma ec_attach e entity name b t v :
  ec_wf e -> is_u32 entity -> no_nul name -> holds b t v -> jv_null v = false ->
  exists e', ec_set_component e entity name (Some b) (Some t) = Ret e' /\ ec_wf e' /\
    next_entity e' = next_entity e /\ ec_map e' = spec_attach (ec_map e) entity name v.
Proof.
  intros H He Hn Hv Hnull. unfold ec_set_component. cbn [obind]. rewrite (is_null_holds _ _ _ Hv), Hnull.
  rewrite (ec_cell_new_holds name _ _ _ Hv). set (c := cell_of name v).
  assert (Hc : cell_wf name c) by (destruct Hv as (? & ? & ? & _ & _ & _ & ?); split; eauto).
  unfold spec_attach. rewrite ec_row_map by done. change (component c) with name. fold c.
  destruct (intmap_get (entity_map e) entity) as [row|] eqn:E; rewrite intmap_get_map in E by apply H.
  - destruct (wf_row e H _ _ E) as [Hr _]. destruct (row_replace row name c Hr Hn) as [W M].
    eexists. split; [done|].
    assert (EM : intmap_to_map (poke (entity_map e) entity
      (strmap_add match strmap_get row name with Some _ => (strmap_del row name).2 | None => row end name c).2)
      = <[entity := (strmap_add match strmap_get row name with Some _ => (strmap_del row name).2 | None => row end name c).2]>
          (intmap_to_map (entity_map e))) by (by eapply poke_present; [apply H|]).
    split_and!; [|done|unfold ec_map; simpl; by rewrite EM, fmap_insert, M].
    eapply ec_wf_map; [done|apply poke_wf, H|done|exact W|rewrite M; apply insert_non_empty| |exact EM].
    rewrite M. apply map_Forall_insert_2; [done|by eapply map_Forall_cells].
  - destruct (row_replace ec_entityrow_new name c I Hn) as [W M]. cbn [strmap_get ec_entityrow_new strmap_init] in W, M.
    destruct (intmap_add_fresh (entity_map e) entity ec_entityrow_new (wf_map e H) (u32_u64 _ He) E)
      as (m' & -> & W' & M'). cbn [snd]. eexists. split; [done|].
    assert (EM : intmap_to_map (poke m' entity (strmap_add ec_entityrow_new name c).2)
      = <[entity := (strmap_add ec_entityrow_new name c).2]> (intmap_to_map (entity_map e))).
    { rewrite (poke_present _ _ _ ec_entityrow_new W') by (rewrite M'; apply lookup_insert_eq).
      by rewrite M', insert_insert_eq. }
    split_and!; [|done|unfold ec_map; cbn [entity_map]; rewrite EM, fmap_insert, M; done].
    eapply ec_wf_map; [done|by apply poke_wf|done|exact W|rewrite M; apply insert_non_empty| |exact EM].
    rewrite M. apply map_Forall_insert_2; [done|]. apply map_Forall_empty.
Qed.

(** The detaching branch, reached with NULLs or with a null datum. *)
Lemma ec_detach_step e entity name :
  ec_wf e ->
  exists e', ec_set_component e entity name None None = Ret e' /\ ec_wf e' /\
    next_entity e' = next_entity e /\ ec_map e' = spec_detach (ec_map e) entity name.
Proof.
  intros H. unfold ec_set_component. cbn [obind]. unfold spec_detach. rewrite ec_row_map by done.
  destruct (intmap_get (entity_map e) entity) as [row|] eqn:E; [|by exists e].
  rewrite intmap_get_map in E by apply H. destruct (wf_row e H _ _ E) as [Hr Hne]. simpl.
  rewrite strmap_get_map by done.
  destruct (strmap_to_map row !! name) as [c|] eqn:Ec.
  2: { exists e. split_and!; try done. rewrite delete_id by done. rewrite decide_False by done.
       symmetry. apply insert_id. rewrite ec_row_map, intmap_get_map by (done || apply H). by rewrite E. }
  destruct (strmap_del_map row name Hr) as (_ & W & M). eexists. split; [done|].
  pose proof (poke_present (entity_map e) entity (strmap_del row name).2 row (wf_map e H) E) as EM.
  pose proof (poke_wf (entity_map e) entity (strmap_del row name).2 (wf_map e H)) as WP.
  destruct (strmap_empty (strmap_del row name).2) eqn:Em.
  - apply strmap_empty_map in Em. rewrite <- M, decide_True by done.
    destruct (intmap_del_map _ entity WP) as (_ & Wd & Md). rewrite EM, delete_insert_eq in Md.
    split_and!; [by eapply ec_wf_del|done|unfold ec_map; simpl; by rewrite Md, fmap_delete].
  - assert (Hne' : strmap_to_map (strmap_del row name).2 <> ∅).
    { intros Hx. apply strmap_empty_map in Hx. congruence. }
    rewrite <- M, decide_False by done.
    split_and!; [|done|unfold ec_map; simpl; by rewrite EM, fmap_insert].
    eapply ec_wf_map; [done|done|by eapply wf_entity|exact W|done| |exact EM].
    rewrite M. apply map_Forall_delete. by eapply map_Forall_cells.
Qed.

Lemma set_null_detach e entity name b t v :
  holds b t v -> jv_null v = true ->
  ec_set_component e entity name (Some b) (Some t) = ec_set_component e entity name None None.
Proof. intros Hv Hn. unfold ec_set_component. cbn [obind]. by rewrite (is_null_holds _ _ _ Hv), Hn. Qed.

(** Setting a component to a JSON datum. *)
Lemma ec_set_holds e entity name b t v :
  ec_wf e -> is_u32 entity -> no_nul name -> holds b t v ->
  exists e', ec_set_component e entity name (Some b) (Some t) = Ret e' /\ ec_wf e' /\
    next_entity e' = next_entity e /\ ec_map e' = spec_set (ec_map e) entity name v.
Proof.
  intros H He Hn Hv. unfold spec_set. destruct (jv_null v) eqn:E.
  - rewrite (set_null_detach _ _ _ _ _ _ Hv E). by apply ec_detach_step.
  - by apply ec_attach.
Qed.

(** Setting a component to the text of a datum. *)
Lemma holds_parsed w1 v w2 :
  ws_ok w2 = true -> jv_ok v = true -> holds (w1 ++ text v ++ w2) (toks (len w1) v ++ [end_tok]) v.
Proof.
  intros Hw Hv. exists w1, w2, [end_tok]. split_and!; [done|done| |done].
  rewrite <- (app_nil_r w2). by apply delim_ws.
Qed.

Lemma ec_set_text e entity name w1 v w2 :
  ec_wf e -> is_u32 entity -> no_nul name ->
  ws_ok w1 = true -> ws_ok w2 = true -> jv_ok v = true ->
  exists e', ec_set_component_datuml e entity name (Some (w1 ++ text v ++ w2)) = Ret e' /\ ec_wf e' /\
    next_entity e' = next_entity e /\ ec_map e' = spec_set (ec_map e) entity name v.
Proof.
  intros H He Hn H1 H2 Hv. unfold ec_set_component_datuml. rewrite json_parse_simple_value by done.
  apply ec_set_holds; try done. by apply holds_parsed.
Qed.

(** * Reading the abstract table *)

Definition cell_in (m : table) (entity : Z) (name : bytes) : option ec_cell :=
  m !! entity ≫= fun row => row !! name.

Lemma cell_in_attach m entity name v k n :
  cell_in (spec_attach m entity name v) k n =
    if decide ((k, n) = (entity, name)) then Some (cell_of name v) else cell_in m k n.
Proof.
  unfold cell_in, spec_attach. destruct (decide (k = entity)) as [->|Hk].
  - rewrite lookup_insert_eq. simpl. destruct (decide (n = name)) as [->|Hn].
    + rewrite lookup_insert_eq, decide_True; done.
    + rewrite lookup_insert_ne, decide_False by congruence. by destruct (m !! entity).
  - rewrite lookup_insert_ne, decide_False by congruence. done.
Qed.

Lemma cell_in_detach m entity name k n :
  cell_in (spec_detach m entity name) k n =
    if decide ((k, n) = (entity, name)) then None else cell_in m k n.
Proof.
  unfold cell_in, spec_detach. destruct (m !! entity) as [row|] eqn:E.
  - destruct (decide (delete name row = ∅)) as [Hd|Hd].
    + destruct (decide (k = entity)) as [->|Hk].
      * rewrite lookup_delete_eq, E. simpl. destruct (decide (n = name)) as [->|Hn]; [by rewrite decide_True|].
        rewrite decide_False by congruence. symmetry. rewrite <- (lookup_delete_ne row name n) by done.
        rewrite Hd. apply lookup_empty.
      * rewrite lookup_delete_ne, decide_False by congruence. done.
    + destruct (decide (k = entity)) as [->|Hk].
      * rewrite lookup_insert_eq, E. simpl. destruct (decide (n = name)) as [->|Hn].
        { by rewrite lookup_delete_eq, decide_True. }
        rewrite lookup_delete_ne, decide_False by congruence. done.
      * rewrite lookup_insert_ne, decide_False by congruence. done.
  - case_decide as Hd; [|done]. simplify_eq. by rewrite E.
Qed.

(** The cell a value leaves behind: none when it is null. *)
Definition cell_after (name : bytes) (v : jv) : option ec_cell :=
  if jv_null v then None else Some (cell_of name v).

Lemma cell_in_set m entity name v k n :
  cell_in (spec_set m entity name v) k n =
    if decide ((k, n) = (entity, name)) then cell_after name v else cell_in m k n.
Proof.
  unfold spec_set, cell_after. destruct (jv_null v); [apply cell_in_detach|apply cell_in_attach].
Qed.

(** * Names of an entity and the range of entities *)

Lemma get_components_foldl l (acc : list bytes) :
  foldl (fun d kv => (ec_get_components_from_strmap kv.1 kv.2 d).2) acc l = acc ++ l.*1.
Proof.
  revert acc. induction l as [|[k c] l IH]; intros acc; csimpl; [by rewrite app_nil_r|].
  rewrite IH. by rewrite <- app_assoc.
Qed.

Lemma ec_get_components_row e entity :
  ec_wf e ->
  ec_get_components e entity =
    Ret (match intmap_get (entity_map e) entity with
         | None => None
         | Some row => Some (strmap_elements row).*1
         end).
Proof.
  intros H. unfold ec_get_components. destruct (intmap_get (entity_map e) entity) as [row|] eqn:E; [|done].
  rewrite intmap_get_map in E by apply H. destruct (wf_row e H _ _ E) as [Hr Hne].
  rewrite strmap_iterate_elements by done. rewrite get_components_foldl. cbn [app].
  destruct (strmap_elements row) as [|kv l] eqn:El; [|done].
  exfalso. apply Hne. unfold strmap_to_map. by rewrite El.
Qed.

(** The names are those of the row, each once, in [strcmp] order. *)
Lemma row_names (row : ec_entityrow) :
  strmap_wf row ->
  (forall name, name ∈ (strmap_elements row).*1 <-> is_Some (strmap_to_map row !! name)) /\
  NoDup (strmap_elements row).*1 /\
  StronglySorted (fun a b => strcmp_lt a b = true) (strmap_elements row).*1.
Proof.
  intros Hr. pose proof (strmap_keys_NoDup row Hr) as HN. split_and!; [|done|].
  - intros name. split.
    + intros Hin. destruct (strmap_to_map row !! name) eqn:E; [done|].
      by apply not_elem_of_list_to_map_2 in E.
    + intros [c Hc]. apply elem_of_list_to_map_2 in Hc. by apply (list_elem_of_fmap_2' fst _ (name, c)).
  - destruct row as [n|]; [by apply keys_sorted|constructor].
Qed.

Lemma ec_get_components_spec e entity :
  ec_wf e ->
  match ec_map e !! entity with
  | None => ec_get_components e entity = Ret None
  | Some row =>
      exists names, ec_get_components e entity = Ret (Some names) /\ names <> [] /\ NoDup names /\
        StronglySorted (fun a b => strcmp_lt a b = true) names /\
        forall name, name ∈ names <-> is_Some (row !! name)
  end.
Proof.
  intros H. rewrite ec_get_components_row, ec_row_map by done.
  destruct (intmap_get (entity_map e) entity) as [row|] eqn:E; [|done]. simpl.
  rewrite intmap_get_map in E by apply H. destruct (wf_row e H _ _ E) as [Hr Hne].
  destruct (row_names row Hr) as (Hin & HN & HS). eexists. split_and!; try done.
  intros Hnil. apply Hne. destruct (map_choose (strmap_to_map row)) as (k & c & Hkc); [done|].
  assert (Hk : k ∈ (strmap_elements row).*1) by (apply Hin; by rewrite Hkc). rewrite Hnil in Hk. by inv Hk.
Qed.

(** The bounds cover the entities, unless the largest u32 is in use. *)
Lemma ec_bounds_spec e :
  ec_wf e ->
  (ec_map e = ∅ /\ ec_get_entity_bounds e = (0, 0)%Z) \/
  exists lo hi, is_Some (ec_map e !! lo) /\ is_Some (ec_map e !! hi) /\ is_u32 hi /\
    ec_get_entity_bounds e = (lo, wrap32 (hi + 1)) /\
    forall k, is_Some (ec_map e !! k) -> (lo <= k <= hi)%Z.
Proof.
  intros H. unfold ec_get_entity_bounds. destruct (entity_map e) as [n|] eqn:E.
  2: { left. split; [|done]. unfold ec_map. rewrite E. apply fmap_empty. }
  right. pose proof (wf_map e H) as W. rewrite E in W. simpl in W.
  destruct (first_node_min n W) as [F1 F2]. destruct (last_node_max n W) as [L1 L2].
  cbn [intmap_empty intmap_first intmap_last fmap option_fmap option_map].
  destruct (first_node n) as [lo rlo]. destruct (last_node n) as [hi rhi]. simpl in F2, L2.
  assert (Hmap : forall k r, (k, r) ∈ ielements n -> intmap_to_map (entity_map e) !! k = Some r).
  { intros k r Hk. unfold intmap_to_map. rewrite E. apply elem_of_list_to_map_1; [by apply ikeys_NoDup|done]. }
  pose proof (wf_entity e H _ _ (Hmap _ _ F1)) as Ulo. pose proof (wf_entity e H _ _ (Hmap _ _ L1)) as Uhi.
  exists lo, hi. unfold wrap32. rewrite (Z.mod_small lo), (Z.mod_small hi) by done.
  unfold ec_map. rewrite !lookup_fmap, (Hmap _ _ F1), (Hmap _ _ L1). split_and!; try done.
  intros k. rewrite lookup_fmap, fmap_is_Some. intros [r Hr]. unfold intmap_to_map in Hr. rewrite E in Hr.
  apply elem_of_list_to_map_2, ikeys_elem in Hr. auto.
Qed.
