(* ===== verification/FramingProofs.v ===== *)
(** Reading messages in pieces: a tokenizer that is stopped at the end of the
    input, anywhere but inside a primitive, and resumed when there is more, does
    what it would have done on the whole input; and the reader hands each message
    of a stream to its handler, in order, however the stream is cut. *)
From S2P Require Import Prelude Utf8 Jsmn JsonTree JsmnProofs Json JsonProofs Strmap Intmap Ec EcProofs.
From S2P Require Import Libplugin.

(** * Reading a prefix *)

Lemma rd_take (js : bytes) n i : n <= length js -> i < n -> rd (take n js) n i = rd js (length js) i.
Proof.
  intros Hn Hi. unfold rd. rewrite (proj2 (Nat.ltb_lt _ _)) by done. rewrite (proj2 (Nat.ltb_lt _ _)) by lia.
  by rewrite lookup_take_lt.
Qed.

Lemma rd_stop (js : bytes) n i : n <= i -> rd js n i = None.
Proof. intros H. unfold rd. by rewrite (proj2 (Nat.ltb_ge _ _)). Qed.

Lemma hex_run_take k (js : bytes) n : n <= length js -> forall i j,
  hex_run k js (length js) i = Some j ->
  hex_run k (take n js) n i = Some (if j <? n then j else i `max` n) \/ (n <= i /\ hex_run k (take n js) n i = Some i).
Proof.
  intros Hn. induction k as [|k IH]; intros i j; cbn [hex_run].
  - intros [= <-]. destruct (Nat.ltb_spec i n); [by left|]. right. done.
  - intros H. destruct (le_lt_dec n i) as [Hi|Hi]; [right; by rewrite rd_stop|].
    rewrite (rd_take js n i) by done. destruct (rd js (length js) i) as [c|] eqn:E.
    + destruct (isxdigit c); [|done]. apply IH in H as Hj. pose proof (hex_run_ge _ _ _ _ _ H). left. destruct Hj as [->|[Hni ->]].
      * f_equal. case_match; lia.
      * f_equal. destruct (Nat.ltb_spec j n); lia.
    + injection H as <-. left. destruct (Nat.ltb_spec i n); [done|lia].
Qed.

(** A string that ends before the cut is found; one that does not is partial. *)
Lemma string_end_take (js : bytes) n e : n <= length js -> forall f i f',
  string_end f js (length js) i = ScanFound e -> n - i < f' ->
  string_end f' (take n js) n i = if e <? n then ScanFound e else ScanPart.
Proof.
  intros Hn. induction f as [|f IH]; intros i f' H Hf; [done|]. destruct f' as [|f']; [lia|].
  pose proof (string_end_ge _ _ _ _ _ H) as Hge. cbn [string_end] in H |- *.
  destruct (le_lt_dec n i) as [Hi|Hi]; [rewrite rd_stop by done; by rewrite (proj2 (Nat.ltb_ge _ _)) by lia|].
  rewrite (rd_take js n i) by done. destruct (rd js (length js) i) as [c|] eqn:E; [|done].
  destruct (ch_eqb c DQUOTE). { injection H as <-. by rewrite (proj2 (Nat.ltb_lt _ _)). }
  destruct (ch_eqb c BACKSLASH); cbn [andb] in *.
  - destruct (Nat.ltb_spec (i + 1) (length js)) as [Hl|]; cbn [andb] in *.
    2: { destruct (Nat.ltb_spec (i + 1) n); [lia|]. apply IH; [done|lia]. }
    destruct (Nat.ltb_spec (i + 1) n) as [Hl'|Hl'].
    + rewrite lookup_take_lt by done. destruct (js !! (i + 1)) as [x|]; [|done].
      destruct (simple_escape x); [apply IH; [done|lia]|]. destruct (ch_in x (bs "u")); [|done].
      destruct (hex_run 4 js (length js) (i + 2)) as [j|] eqn:Ej; [|done].
      pose proof (hex_run_ge _ _ _ _ _ Ej). destruct (hex_run_take 4 js n Hn _ _ Ej) as [->|[Hni ->]].
      * destruct (Nat.ltb_spec j n); [apply IH; [done|lia]|]. pose proof (string_end_ge _ _ _ _ _ H).
        rewrite (proj2 (Nat.ltb_ge e n)) by lia. destruct f'; [done|]. cbn [string_end]. by rewrite rd_stop by lia.
      * pose proof (string_end_ge _ _ _ _ _ H). rewrite (proj2 (Nat.ltb_ge e n)) by lia.
        destruct f'; [done|]. cbn [string_end]. by rewrite rd_stop by lia.
    + assert (e >= n) as He.
      { destruct (js !! (i + 1)) as [x|]; [|done]. destruct (simple_escape x); [apply string_end_ge in H; lia|].
        destruct (ch_in x (bs "u")); [|done]. destruct (hex_run 4 js (length js) (i + 2)) as [j|] eqn:Ej; [|done].
        apply hex_run_ge in Ej. apply string_end_ge in H. lia. }
      rewrite (proj2 (Nat.ltb_ge e n)) by lia. destruct f'; [done|]. cbn [string_end]. by rewrite rd_stop by lia.
  - apply IH; [done|lia].
Qed.

(** A primitive that ends at or before the cut is found. *)
Lemma primitive_end_take (js : bytes) n e : n <= length js -> e <= n -> forall f i f',
  primitive_end f js (length js) i = Some e -> length js - i < f -> n - i < f' ->
  primitive_end f' (take n js) n i = Some e.
Proof.
  intros Hn He. induction f as [|f IH]; intros i f' H Hf Hf'; [lia|]. destruct f' as [|f']; [lia|].
  pose proof (primitive_end_ge _ _ _ _ _ H) as Hge. cbn [primitive_end] in H |- *.
  destruct (le_lt_dec n i) as [Hi|Hi]; [rewrite rd_stop by done; f_equal; lia|].
  rewrite (rd_take js n i) by done. destruct (rd js (length js) i) as [c|] eqn:E; [|done].
  destruct (prim_delim c); [done|]. destruct (_ || _); [done|]. apply IH; [done|lia..].
Qed.

(** * What a run of the tokenizer keeps *)

(** Closed tokens keep type, start and end, and can only grow. *)
Definition later (T T' : list jsmntok) : Prop := forall i t,
  T !! i = Some t -> tend t <> (-1)%Z ->
  exists t', T' !! i = Some t' /\ ttype t' = ttype t /\ tstart t' = tstart t /\ tend t' = tend t /\ (tsize t <= tsize t')%Z.

Lemma later_refl T : later T T.
Proof. intros i t Hi _. eauto 10 with lia. Qed.

#[export] Instance later_trans : Transitive later.
Proof.
  intros T1 T2 T3 H12 H23 i t Hi Ht. destruct (H12 i t Hi Ht) as (t2 & H2 & E1 & E2 & E3 & E4).
  destruct (H23 i t2 H2) as (t3 & H3 & F1 & F2 & F3 & F4); [congruence|]. exists t3. split_and!; congruence || lia.
Qed.

Lemma later_alter f i T :
  (forall t, T !! i = Some t -> tend t = (-1)%Z \/
    ttype (f t) = ttype t /\ tstart (f t) = tstart t /\ tend (f t) = tend t /\ (tsize t <= tsize (f t))%Z) ->
  later T (alter f i T).
Proof.
  intros Hf j t Hj Ht. destruct (decide (j = i)) as [->|Hne].
  - rewrite list_lookup_alter_eq, Hj. exists (f t). split; [done|]. by destruct (Hf t Hj).
  - rewrite list_lookup_alter_ne by done. eauto 10 with lia.
Qed.

Lemma later_app T D : later T (T ++ D).
Proof. intros i t Hi _. exists t. split; [by apply lookup_app_l_Some|done]. Qed.

Lemma later_bump s T : later T (bump s T).
Proof. unfold bump. case_match; [apply later_refl|]. apply later_alter. intros t _. right. cbn. split_and!; [done..|lia]. Qed.

Lemma later_alloc T num t T' : jsmn_alloc_token T num t = Some T' -> later T T'.
Proof. unfold jsmn_alloc_token. case_match; [done|]. intros [= <-]. apply later_app. Qed.

Lemma find_last_true f T n i : find_last f T n = Some i -> exists t, T !! i = Some t /\ f t = true.
Proof.
  induction n as [|n IH]; cbn [find_last]; [done|]. destruct (T !! n) as [t|] eqn:E; [|done].
  destruct (f t) eqn:Ef; [|done]. intros [= <-]. eauto.
Qed.

Lemma body_later p js n num c p' : jsmn_body p js n num c = Continue p' -> later (tokens p) (tokens p').
Proof.
  unfold jsmn_body, open_step, close_step, leaf_step, comma_step, jsmn_parse_string, jsmn_parse_primitive, advance.
  intros H. repeat case_match; simplify_eq/=; try apply later_refl;
    try (etrans; [by eapply later_alloc|apply later_bump]).
  all: apply later_alter; intros t Ht; left;
    match goal with E : find_last _ _ _ = Some _ |- _ => apply find_last_true in E as (t' & Et & Ho) end;
    unfold is_open in Ho; apply andb_true_iff in Ho as [_ Ho%Z.eqb_eq]; congruence.
Qed.

(** Tokens end at or before the position. *)
Definition ends_before (p : jsmn_parser) : Prop := Forall (fun t => (tend t <= Z.of_nat (pos p))%Z) (tokens p).

Lemma ends_mono T k k' : k <= k' -> Forall (fun t => (tend t <= Z.of_nat k)%Z) T -> Forall (fun t => (tend t <= Z.of_nat k')%Z) T.
Proof. intros Hk H. eapply Forall_impl; [exact H|]. cbn. intros t. lia. Qed.

Lemma ends_bump k s T : Forall (fun t => (tend t <= k)%Z) T -> Forall (fun t => (tend t <= k)%Z) (bump s T).
Proof. intros H. unfold bump. case_match; [done|]. apply Forall_alter; [done|]. by intros t _ Ht. Qed.

Lemma alloc_eq T num t T' : jsmn_alloc_token T num t = Some T' -> T' = T ++ [t].
Proof. unfold jsmn_alloc_token. case_match; by intros; simplify_eq. Qed.

Lemma body_ends p js n num c p' :
  rd js n (pos p) = Some c -> jsmn_body p js n num c = Continue p' -> ends_before p -> ends_before p'.
Proof.
  intros Hrd H Hp. pose proof (body_progress _ _ _ _ _ _ Hrd H) as Hpos. revert H Hpos. unfold ends_before in *.
  unfold jsmn_body, open_step, close_step, leaf_step, comma_step, jsmn_parse_string, jsmn_parse_primitive, advance.
  intros H. repeat case_match; simplify_eq/=; intros Hpos;
    try (match goal with E : jsmn_alloc_token _ _ _ = Some _ |- _ => apply alloc_eq in E as -> end; apply ends_bump, Forall_app; split; [|constructor; [cbn [tend jsmn_fill_token]; lia|constructor]]);
    try (by eapply ends_mono; [|exact Hp]; lia).
  all: apply Forall_alter; [by eapply ends_mono; [|exact Hp]; lia|]; intros t _ _; cbn [tend close_at]; lia.
Qed.

(** Tokens that are the same before and after were so all the time. *)
Lemma later_between T1 T2 T3 T D :
  T1 = T -> Forall (fun t => (0 <= tend t)%Z) T -> later T1 T2 -> later T2 T3 -> T3 = T ++ D -> exists D', T2 = T ++ D'.
Proof.
  intros -> HC H12 H23 ->. exists (drop (length T) T2). rewrite <- (take_drop (length T) T2) at 1. f_equal. apply list_eq. intros i.
  destruct (le_lt_dec (length T) i) as [Hi|Hi].
  { rewrite lookup_take_ge, lookup_ge_None_2 by done. done. }
  destruct (lookup_lt_is_Some_2 T i Hi) as [t Ht]. rewrite lookup_take_lt, Ht by done.
  assert (He : tend t <> (-1)%Z) by (eapply Forall_lookup_1 in HC; [|exact Ht]; lia).
  destruct (H12 i t Ht He) as (t2 & E2 & A1 & A2 & A3 & A4). destruct (H23 i t2 E2) as (t3 & E3 & B1 & B2 & B3 & B4); [congruence|].
  rewrite lookup_app_l, Ht in E3 by done. injection E3 as <-. rewrite E2. f_equal.
  destruct t, t2. cbn in *. f_equal; congruence || lia.
Qed.

(** * Runs *)

Section Runs.
Context (js : bytes) (num : nat).

Abbreviation steps := (rtc (jstep js num)).

Lemma jstep_det p p1 p2 : jstep js num p p1 -> jstep js num p p2 -> p1 = p2.
Proof. intros (c & Hc & H1) (c' & Hc' & H2). congruence. Qed.

Lemma jstep_pos p p' : jstep js num p p' -> pos p < pos p'.
Proof. intros (c & Hc & H). by eapply body_progress. Qed.

Lemma steps_pos p p' : steps p p' -> pos p <= pos p'.
Proof. induction 1 as [|x y z Hs _ IH]; [done|]. apply jstep_pos in Hs. lia. Qed.

Lemma steps_later p p' : steps p p' -> later (tokens p) (tokens p').
Proof. induction 1 as [|x y z (c & _ & H) _ IH]; [apply later_refl|]. etrans; [by eapply body_later|done]. Qed.

Lemma steps_ends p p' : steps p p' -> ends_before p -> ends_before p'.
Proof. induction 1 as [|x y z (c & Hc & H) _ IH]; [done|]. intros Hp. apply IH. by eapply body_ends. Qed.

Lemma steps_sparse p p' : steps p p' -> sparse p -> sparse p'.
Proof.
  induction 1 as [|x y z Hs _ IH]; [done|]. intros Hp. apply IH. pose proof (jstep_pos _ _ Hs).
  destruct Hs as (c & _ & HB). apply body_tokens in HB. unfold sparse in *. lia.
Qed.

(** Two states of one run: one comes before the other. *)
Lemma steps_linear p p1 p2 : steps p p1 -> steps p p2 -> steps p1 p2 \/ steps p2 p1.
Proof.
  intros H. revert p2. induction H as [|x y z Hxy Hyz IH]; intros p2 H2; [by left|].
  destruct H2 as [|x y' z' Hy' Hr]; [right; by eapply rtc_l|]. rewrite (jstep_det _ _ _ Hxy Hy') in *. by apply IH.
Qed.

(** * A cut *)

(** No primitive has bytes on both sides of the cut. *)
Definition cut_ok (T : list jsmntok) (n : nat) : Prop :=
  Forall (fun t => ttype t = JSMN_PRIMITIVE -> ~ (tstart t < Z.of_nat n < tend t)%Z) T.

Lemma cut_ok_true T n :
  forallb (fun t => negb (type_eqb (ttype t) JSMN_PRIMITIVE && (tstart t <? Z.of_nat n)%Z && (Z.of_nat n <? tend t)%Z)) T = true -> cut_ok T n.
Proof.
  intros H. apply Forall_forall. intros t Ht Hp [H1 H2]. rewrite forallb_forall in H. apply list_elem_of_In, H in Ht. rewrite Hp in Ht.
  apply Z.ltb_lt in H1, H2. rewrite H1, H2 in Ht. done.
Qed.

Lemma cut_ok_later T T' n : later T T' -> cut_ok T' n -> cut_ok T n.
Proof.
  intros HL HC. apply Forall_lookup. intros i t Hi Ht [H1 H2]. destruct (HL i t Hi ltac:(lia)) as (t' & Hi' & E1 & E2 & E3 & _).
  eapply Forall_lookup_1 in HC; [|exact Hi']. apply HC; [congruence|lia].
Qed.

(** One step of the whole input, on the input up to the cut: the same step, or
    a string that is cut. *)
Lemma body_take p p' n c :
  n <= length js -> pos p < n -> rd js (length js) (pos p) = Some c -> jsmn_body p js (length js) num c = Continue p' ->
  cut_ok (tokens p') n ->
  (jsmn_body p (take n js) n num c = Continue p' /\ pos p' <= n) \/
  (jsmn_body p (take n js) n num c = Return JSMN_ERROR_PART p /\ n < pos p').
Proof.
  intros Hn Hp Hrd HB HC. revert HB. unfold jsmn_body.
  destruct (ch_in c (bs "{[")). { unfold open_step. case_match; intros [= <-]. left. cbn [advance pos]. split; [done|lia]. }
  destruct (ch_in c (bs "}]")). { unfold close_step. intros HB. left. split; [done|]. repeat case_match; simplify_eq; cbn [advance pos]; lia. }
  destruct (ch_eqb c DQUOTE).
  { unfold leaf_step, jsmn_parse_string. destruct (string_end _ js _ _) as [e| |] eqn:E; try done.
    rewrite (string_end_take js n e Hn _ _ (S (n - pos p)) E) by lia. destruct (Nat.ltb_spec e n).
    - destruct (jsmn_alloc_token _ _ _); intros [= <-]. left. cbn [advance pos]. split; [done|lia].
    - destruct (jsmn_alloc_token _ _ _); intros [= <-]. right. cbn [advance pos]. split; [done|lia]. }
  destruct (is_space c). { intros [= <-]. left. cbn [advance pos]. split; [done|lia]. }
  destruct (ch_in c (bs ":")). { intros [= <-]. left. cbn [advance pos]. split; [done|lia]. }
  destruct (ch_in c (bs ",")). { unfold comma_step. intros HB. left. split; [done|]. repeat case_match; simplify_eq; cbn [advance pos]; lia. }
  unfold leaf_step, jsmn_parse_primitive. destruct (primitive_end _ js _ _) as [e|] eqn:E; [|done].
  destruct (jsmn_alloc_token _ _ _) as [T|] eqn:EA; [|done]. intros [= <-]. left. cbn [advance pos tokens] in *.
  assert (He : e <= n).
  { pose proof EA as EA'. apply alloc_eq in EA'. destruct (le_lt_dec e n) as [|Hlt]; [done|exfalso].
    apply (cut_ok_later T) in HC; [|apply later_bump]. rewrite EA' in HC. apply Forall_app in HC as [_ HC]. apply Forall_cons in HC as [HC _].
    apply HC; [done|]. cbn [tstart tend jsmn_fill_token]. lia. }
  rewrite (primitive_end_take js n e Hn He _ _ (S (n - pos p)) E) by lia. rewrite EA. split; [done|lia].
Qed.

(** Tokenizing up to a cut: the state is one of the whole run, as far on as it
    can be. *)
Lemma prefix_parse n p pf :
  steps p pf -> n <= length js -> n <= pos pf -> pos p <= n -> cut_ok (tokens pf) n ->
  exists r q, jsmn_parse p (take n js) n num = (r, q) /\ r <> JSMN_ERROR_INVAL /\ steps p q /\ steps q pf /\ pos q <= n /\
    forall q', jstep js num q q' -> n < pos q'.
Proof.
  intros HS Hn Hf. unfold jsmn_parse. generalize (S (n - pos p)), (Nat.lt_succ_diag_r (n - pos p)). intros f.
  assert (HF : forall q, pos q <= n -> n <= pos q -> forall q', jstep js num q q' -> n < pos q') by (intros q ? ? q' H'%jstep_pos; lia).
  assert (HE : forall q, jsmn_finish q <> JSMN_ERROR_INVAL) by (intros q; unfold jsmn_finish; by case_match).
  revert f. induction HS as [p|p p1 pf Hs HS IH]; intros f Hfu Hp HC; (destruct f as [|f]; [lia|]); cbn [jsmn_loop].
  { rewrite rd_stop by done. exists (jsmn_finish p), p. split_and!; try done. by apply HF. }
  destruct (le_lt_dec n (pos p)) as [Hge|Hlt].
  { rewrite rd_stop by done. exists (jsmn_finish p), p. split_and!; try done; [by eapply rtc_l|by apply HF]. }
  destruct Hs as (c & Hrd & HB). rewrite rd_take, Hrd by done.
  destruct (body_take p p1 n c Hn Hlt Hrd HB) as [[E Hp1]|[E Hp1]]; [by eapply cut_ok_later; [apply steps_later|]|..]; rewrite E.
  - pose proof (body_progress _ _ _ _ _ _ Hrd HB). destruct (IH Hf f) as (r & q & H1 & H2 & H3 & H4); [lia|done|done|].
    exists r, q. split_and!; try done; [|by apply H4..]. eapply rtc_l; [by exists c|done].
  - exists JSMN_ERROR_PART, p. split_and!; try done; [eapply rtc_l; [by exists c|done]|].
    intros q' (c' & Hc' & HB'). congruence.
Qed.
End Runs.

(** Enough tokens are enough. *)
Lemma parse_enough p js n num num' : sparse p -> n <= num -> n <= num' -> jsmn_parse p js n num = jsmn_parse p js n num'.
Proof.
  assert (HG : forall a b, sparse p -> n <= a -> a <= b -> jsmn_parse p js n a = jsmn_parse p js n b).
  { intros a b Hp Ha Hab. pose proof (parse_resume p js n a b Hab) as HR. destruct (jsmn_parse p js n a) as [r q] eqn:E.
    destruct r; try done. apply parse_nomem in E; [lia|done]. }
  intros Hp H1 H2. destruct (le_lt_dec num num'); [by apply HG|]. symmetry. apply HG; [done|done|lia].
Qed.

(** * Streams of messages *)

(** Each message is an object or array with white space after it. *)
Definition container (v : jv) : bool := match v with JArr _ _ | JObj _ _ => true | _ => false end.

Definition item_ok (m : jv * bytes) : Prop := jv_ok m.1 = true /\ container m.1 = true /\ ws_ok m.2 = true /\ m.2 <> [].

Definition stream (l : list (jv * bytes)) : bytes := concat (map (fun m => text m.1 ++ m.2) l).

Fixpoint stream_toks (off : Z) (l : list (jv * bytes)) : list jsmntok :=
  match l with
  | [] => []
  | m :: r => toks off m.1 ++ stream_toks (off + len (text m.1 ++ m.2)) r
  end.

Lemma stream_toks_closed l : forall off, (0 <= off)%Z -> Forall (fun t => is_open t = false) (stream_toks off l).
Proof.
  induction l as [|m l IH]; intros off Ho; [constructor|]. apply Forall_app. split; [by apply toks_closed|].
  apply IH. pose proof (len_nonneg (text m.1 ++ m.2)). lia.
Qed.

Lemma stream_toks_length l : Forall item_ok l -> forall off, length (stream_toks off l) <= length (stream l).
Proof.
  induction 1 as [|m l (Hv & _) _ IH]; intros off; [done|]. cbn [stream_toks]. change (stream (m :: l)) with ((text m.1 ++ m.2) ++ stream l).
  rewrite !length_app. pose proof (toks_le_text m.1 off Hv). specialize (IH (off + len (text m.1 ++ m.2))%Z). lia.
Qed.

Lemma ws_delim w post : ws_ok w = true -> w <> [] -> delim_next (w ++ post).
Proof. destruct w as [|c w]; [done|]. cbn. intros [Hc _]%andb_true_iff _. by destruct (space_facts c Hc) as ((_ & ? & _) & _). Qed.

Lemma last_open_none T : Forall (fun t => is_open t = false) T -> last_open T = (-1)%Z.
Proof. intros H. pose proof (last_open_closed [] T H) as HL. exact HL. Qed.

(** The run over a stream. *)
Lemma stream_steps js num l : Forall item_ok l -> forall pre T,
  js = pre ++ stream l -> Forall (fun t => is_open t = false) T -> length T + length (stream_toks (len pre) l) <= num ->
  rtc (jstep js num) (Parser (length pre) (-1) T) (Parser (length js) (-1) (T ++ stream_toks (len pre) l)).
Proof.
  induction 1 as [|[v w] l (Hv & Hc & Hw & Hn) _ IH]; intros pre T E HT HL; cbn [stream_toks fst snd] in *.
  { rewrite app_nil_r in E |- *. by subst. }
  change (stream ((v, w) :: l)) with ((text v ++ w) ++ stream l) in E. rewrite length_app in HL.
  assert (E1 : js = pre ++ text v ++ (w ++ stream l)) by (by rewrite E, <- app_assoc).
  etrans; [apply (value_steps js num v pre (w ++ stream l) (-1)%Z T E1 Hv); [by apply ws_delim|by left|lia]|].
  replace (after v (-1)%Z T) with (-1)%Z by (destruct v; cbn [after]; try done; by rewrite last_open_none).
  replace (bump (-1)%Z T) with T by done.
  etrans; [apply (ws_steps js num w (pre ++ text v) (stream l) (-1)%Z (T ++ toks (len pre) v)); [by rewrite E1, <- app_assoc|done]|].
  specialize (IH ((pre ++ text v) ++ w) (T ++ toks (len pre) v)). rewrite <- !app_assoc in IH.
  replace (len (pre ++ text v ++ w)) with (len pre + len (text v ++ w))%Z in IH by (by rewrite !len_app).
  rewrite <- app_assoc. apply IH; [by rewrite E1|apply Forall_app; split; [done|apply toks_closed, len_nonneg]|].
  rewrite length_app. lia.
Qed.

(** * The reader on a stream *)

(** What is still to be handled: white space, then messages. *)
Definition pending_text (w : bytes) (l : list (jv * bytes)) : bytes := w ++ stream l.

(** The first [n] bytes of it are in the buffer, and the tokenizer is at a point
    of its run over all of it. *)
Record on_stream (w : bytes) (l : list (jv * bytes)) (n : nat) (r : reader) : Prop := {
  os_buffer : buffer r = take n (pending_text w l);
  os_len : n <= length (pending_text w l);
  os_run : rtc (jstep (pending_text w l) (length (pending_text w l))) jsmn_init (parser r);
  os_pos : pos (parser r) <= n;
  os_toks : 1 <= ntoks r }.

(** The first token of a stream. *)
Lemma head_tok w l t : Forall item_ok l -> stream_toks (len w) l !! 0 = Some t ->
  exists m l', l = m :: l' /\ tend t = (len w + len (text m.1))%Z.
Proof.
  intros Hl Ht. destruct Hl as [|[v wv] l' (_ & Hc & _) _]; [done|]. exists (v, wv), l'. split; [done|]. cbn [fst] in *.
  destruct v as [| |w' es|w' ms]; try done; cbn [stream_toks fst] in Ht; [rewrite toks_arr in Ht|rewrite toks_obj in Ht]; by injection Ht as <-.
Qed.

Section Stream.
Context (w : bytes) (l : list (jv * bytes)).
Hypothesis (Hw : ws_ok w = true) (Hl : Forall item_ok l).

Abbreviation R := (pending_text w l).
Abbreviation steps := (rtc (jstep R (length R))).

Definition run_end : jsmn_parser := Parser (length R) (-1) (stream_toks (len w) l).

Lemma whole_run : steps jsmn_init run_end.
Proof.
  unfold run_end, jsmn_init. etrans; [apply (ws_steps R (length R) w [] (stream l) (-1)%Z []); done|].
  apply (stream_steps R (length R) l Hl w []); [done|constructor|].
  pose proof (stream_toks_length l Hl (len w)). unfold pending_text. rewrite length_app. simpl. lia.
Qed.

Lemma run_rest q : steps jsmn_init q -> steps q run_end.
Proof.
  intros Hq. destruct (steps_linear _ _ _ _ _ Hq whole_run) as [|H]; [done|].
  apply rtc_inv in H as [<-|(y & (c & Hc & _) & _)]; [done|]. by rewrite rd_stop in Hc.
Qed.

Lemma init_sparse : sparse jsmn_init.
Proof. unfold sparse. simpl. lia. Qed.

(** Where the tokenizer gets with [n] bytes. *)
Lemma parse_on_stream n r :
  on_stream w l n r -> cut_ok (stream_toks (len w) l) n ->
  exists x q nt, parse_again (S (S n)) (parser r) (buffer r) n (ntoks r) = Some (x, q, nt) /\ x <> JSMN_ERROR_INVAL /\ ntoks r <= nt /\
    steps jsmn_init q /\ pos q <= n /\ forall q', jstep R (length R) q q' -> n < pos q'.
Proof.
  intros [Hb Hn Hr Hp Ht] HC. pose proof (steps_sparse _ _ _ _ Hr init_sparse) as Hs.
  destruct (prefix_parse R (length R) n (parser r) run_end (run_rest _ Hr) Hn Hn Hp HC) as (x & q & E & Hx & S1 & S2 & Hq & HM).
  destruct (parse_again_result (S (S n)) (parser r) (buffer r) n (ntoks r) Hs Ht) as (nt & -> & Hnt); [lia..|].
  exists x, q, nt. rewrite Hb, (parse_enough _ _ _ (n + ntoks r) (length R)), E by (done || lia). split_and!; try done. by etrans.
Qed.

(** A message that has not arrived completely waits. *)
Lemma partial_message n r :
  on_stream w l n r -> cut_ok (stream_toks (len w) l) n ->
  match l with [] => True | m :: _ => n < length w + length (text m.1) end ->
  exists q nt, json_parse_input (parser r) (ntoks r) (buffer r) n = (PPartial, q, nt) /\ on_stream w l n (Reader (buffer r) q nt (capacity r)).
Proof.
  intros HO HC HE. destruct (parse_on_stream n r HO HC) as (x & q & nt & E & Hx & Hnt & Hq & Hp & _). exists q, nt.
  split; [|destruct HO; split; cbn [buffer parser ntoks]; try done; lia]. unfold json_parse_input. rewrite E.
  assert (HT : match tokens q with [] => True | t :: _ => tend t = (-1)%Z end).
  { destruct (tokens q) as [|t T] eqn:ET; [done|]. destruct (Z.eq_dec (tend t) (-1)%Z) as [|Ht]; [done|exfalso].
    pose proof (steps_ends _ _ _ _ Hq ltac:(constructor)) as HB. unfold ends_before in HB. rewrite ET in HB. apply Forall_cons in HB as [HB _].
    pose proof (steps_later _ _ _ _ (run_rest q Hq)) as HL. destruct (HL 0 t) as (t' & E0 & _ & _ & E3 & _); [by rewrite ET|done|].
    destruct (head_tok _ _ _ Hl E0) as (m & l' & El & Em). rewrite El in HE. unfold len in Em. lia. }
  destruct x; try done; (destruct (tokens q) as [|t T]; [done|]; rewrite HT; by rewrite orb_true_r).
Qed.

Lemma first_done v wv l' : l = (v, wv) :: l' ->
  steps jsmn_init (Parser (length (w ++ text v)) (-1) (toks (len w) v)).
Proof.
  intros El. rewrite El in Hl. apply Forall_cons in Hl as [(Hv & Hc & Hws & Hn) Hl'].
  assert (ER : R = w ++ text v ++ (wv ++ stream l')) by (unfold pending_text; rewrite El; change (stream ((v, wv) :: l')) with ((text v ++ wv) ++ stream l'); by rewrite <- app_assoc).
  etrans; [apply (ws_steps R (length R) w [] (stream l) (-1)%Z []); done|].
  pose proof (toks_le_text v (len w) Hv) as HT.
  pose proof (value_steps R (length R) v w (wv ++ stream l') (-1)%Z [] ER Hv ltac:(by apply ws_delim) ltac:(by left)) as HV.
  destruct v; try done; (apply HV; rewrite ER, !length_app; cbn [length] in *; lia).
Qed.

(** A message that has arrived is the one that is handled. *)
Lemma complete_message v wv l' n r : l = (v, wv) :: l' ->
  on_stream w l n r -> cut_ok (stream_toks (len w) l) n -> length w + length (text v) <= n ->
  exists q nt, json_parse_input (parser r) (ntoks r) (buffer r) n = (PComplete (toks (len w) v ++ [end_tok]), q, nt) /\ 1 <= nt.
Proof.
  intros El HO HC HE. destruct (parse_on_stream n r HO HC) as (x & q & nt & E & Hx & Hnt & Hq & Hp & HM).
  pose proof (first_done v wv l' El) as H1. set (s1 := Parser _ _ _) in H1.
  assert (H1q : steps s1 q).
  { destruct (steps_linear _ _ _ _ _ H1 Hq) as [|H]; [done|]. apply rtc_inv in H as [->|(q' & Hs & Hr)]; [done|].
    apply HM in Hs. apply steps_pos in Hr. cbn [s1 pos] in Hr. rewrite length_app in Hr. lia. }
  destruct (later_between (toks (len w) v) (tokens q) (tokens run_end) (toks (len w) v) (stream_toks (len w + len (text v ++ wv)) l'))
    as [D HD]; [done|apply toks_ends, len_nonneg|exact (steps_later _ _ _ _ H1q)|exact (steps_later _ _ _ _ (run_rest q Hq))|by cbn [run_end tokens]; rewrite El|].
  unfold json_parse_input. rewrite E, HD. rewrite json_next_toks, length_app, Nat.add_sub, take_app_length.
  pose proof (Forall_cons_1 _ _ _ (eq_ind _ _ Hl _ El)) as [(Hv & Hc & _) _]. cbn [fst] in *.
  assert (HV : validate_jsmn_parse_output (buffer r) (toks (len w) v) = true).
  { rewrite (os_buffer _ _ _ _ HO). unfold pending_text. rewrite El. change (stream ((v, wv) :: l')) with ((text v ++ wv) ++ stream l').
    rewrite <- app_assoc, !take_app, (take_ge w), (take_ge (text v)) by lia. by apply validate_toks. }
  rewrite HV. pose proof (len_nonneg w). pose proof (len_nonneg (text v)).
  destruct v as [| |w' es|w' ms]; try done; [rewrite !toks_arr|rewrite !toks_obj];
    cbn [app ttype tend]; (rewrite (proj2 (Z.eqb_neq _ _)) by lia); destruct x; try done; eexists _, _; (split; [done|lia]).
Qed.
End Stream.

(** ** Taking messages out *)

Lemma cut_ok_shift k l : forall off n, cut_ok (stream_toks (Z.of_nat k + off) l) (k + n) -> cut_ok (stream_toks off l) n.
Proof.
  unfold cut_ok. induction l as [|m l IH]; intros off n H; [constructor|]. cbn [stream_toks] in *. rewrite <- Z.add_assoc in H.
  apply Forall_app in H as [H1 H2]. apply Forall_app. split; [|by apply IH].
  rewrite <- (toks_shift (Z.of_nat k) m.1 off). apply Forall_map. eapply Forall_impl; [exact H1|]. intros t Ht Hp [A B].
  apply Ht; [done|]. cbn in A, B. lia.
Qed.

Lemma cut_ok_next w v wv l n :
  cut_ok (stream_toks (len w) ((v, wv) :: l)) (length w + length (text v) + n) -> cut_ok (stream_toks (len wv) l) n.
Proof.
  intros H. cbn [stream_toks fst snd] in H. apply Forall_app in H as [_ H]. apply (cut_ok_shift (length w + length (text v))).
  replace (Z.of_nat (length w + length (text v)) + len wv)%Z with (len w + len (text v ++ wv))%Z; [exact H|]. rewrite len_app. unfold len. lia.
Qed.

Lemma pending_cons w v wv l : pending_text w ((v, wv) :: l) = w ++ text v ++ pending_text wv l.
Proof. unfold pending_text. change (stream ((v, wv) :: l)) with ((text v ++ wv) ++ stream l). by rewrite <- app_assoc. Qed.

Lemma take_pending w v wv l n : length w + length (text v) <= n ->
  take n (pending_text w ((v, wv) :: l)) = w ++ text v ++ take (n - (length w + length (text v))) (pending_text wv l).
Proof. intros H. rewrite pending_cons, !take_app, (take_ge w), (take_ge (text v)) by lia. do 3 f_equal. lia. Qed.

Lemma on_stream_next w v wv l n nt cap :
  length w + length (text v) <= n -> n <= length (pending_text w ((v, wv) :: l)) -> 1 <= nt ->
  on_stream wv l (n - (length w + length (text v)))
    (Reader (drop (length w + length (text v)) (take n (pending_text w ((v, wv) :: l)))) jsmn_init nt cap).
Proof.
  intros H Hn Ht. rewrite take_pending by done. rewrite pending_cons, !length_app in Hn. split; cbn [buffer parser ntoks]; try done.
  - rewrite (app_assoc w), drop_app_length'; [done|by rewrite length_app].
  - lia.
  - cbn. lia.
Qed.

Section Handling.
Context {St : Type} (handle : St -> bytes -> list jsmntok -> outcome (St * list event)).

(** The messages one after another, with what each finds in the buffer. *)
Fixpoint handle_all (s : St) (found : list (bytes * list jsmntok)) : outcome (St * list event) :=
  match found with
  | [] => Ret (s, [])
  | (b, t) :: rest =>
      let! (s1, evs) := handle s b t in
      let! (s2, evs') := handle_all s1 rest in Ret (s2, evs ++ evs')
  end.

(** Handling some messages, then going on from a reader. *)
Definition then_read (found : list (bytes * list jsmntok)) (r : reader) (s : St) : outcome (St * list event * reader) :=
  let! (s', evs) := handle_all s found in Ret (s', evs, r).

Definition found_as (bt : bytes * list jsmntok) (m : jv * bytes) : Prop := holds bt.1 bt.2 m.1.

(** The loop handles exactly the messages that have arrived, in order. *)
Lemma read_loop_spec l : forall w n r f,
  ws_ok w = true -> Forall item_ok l -> on_stream w l n r -> cut_ok (stream_toks (len w) l) n -> n < f ->
  exists l1 l2 w' k found r', l = l1 ++ l2 /\ Forall2 found_as found l1 /\ ws_ok w' = true /\
    (forall s, read_loop handle f s r = then_read found r' s) /\
    k <= n /\ pending_text w' l2 = drop k (pending_text w l) /\ on_stream w' l2 (n - k) r' /\
    (forall m, n <= m -> cut_ok (stream_toks (len w) l) m -> cut_ok (stream_toks (len w') l2) (m - k)) /\
    match l2 with [] => True | m :: _ => n - k < length w' + length (text m.1) end.
Proof.
  induction l as [|[v wv] l IH]; intros w n r f Hw Hl HO HC Hf; (destruct f as [|f]; [lia|]).
  { destruct (partial_message w [] Hw Hl n r HO HC I) as (q & nt & E & HO').
    exists [], [], w, 0, [], (Reader (buffer r) q nt (capacity r)). rewrite drop_0, Nat.sub_0_r. split_and!; try done; [|lia|intros m _; by rewrite Nat.sub_0_r].
    intros s. cbn [read_loop]. unfold read_one. rewrite (os_buffer _ _ _ _ HO) at 2. rewrite length_take, Nat.min_l, E by apply HO. done. }
  pose proof (Forall_cons_1 _ _ _ Hl) as [(Hv & Hc & Hws & Hne) Hl']. cbn [fst snd] in *.
  assert (Hlen : length (buffer r) = n) by (rewrite (os_buffer _ _ _ _ HO), length_take, Nat.min_l by apply HO; done).
  destruct (le_lt_dec (length w + length (text v)) n) as [HE|HE].
  - set (E1 := length w + length (text v)) in *.
    destruct (complete_message w _ Hw Hl v wv l n r eq_refl HO HC HE) as (q & nt & E & Hnt).
    pose proof (on_stream_next w v wv l n nt (capacity r) HE (os_len _ _ _ _ HO) Hnt) as HO1. fold E1 in HO1.
    assert (HE1 : 0 < E1) by (unfold E1; destruct v; try done; cbn [text]; rewrite !length_app; simpl; lia).
    assert (HC1 : forall m, E1 <= m -> cut_ok (stream_toks (len w) ((v, wv) :: l)) m -> cut_ok (stream_toks (len wv) l) (m - E1)).
    { intros m Hm Hcm. apply (cut_ok_next w v wv l). fold E1. by replace (E1 + (m - E1)) with m by lia. }
    destruct (IH wv (n - E1) _ f Hws Hl' HO1 (HC1 n HE HC)) as (l1 & l2 & w' & k & found & r' & -> & HF & Hw' & HR & Hk & Hp & HO2 & HC2 & HN); [lia|].
    exists ((v, wv) :: l1), l2, w', (E1 + k), ((buffer r, toks (len w) v ++ [end_tok]) :: found), r'. split_and!; try done.
    + constructor; [|done]. unfold found_as. cbn [fst snd]. rewrite (os_buffer _ _ _ _ HO), take_pending by done.
      exists w, (take (n - (length w + length (text v))) (pending_text wv (l1 ++ l2))), [end_tok]. split_and!; try done.
      unfold pending_text. destruct wv as [|c wv']; [done|]. destruct (n - _); [done|]. cbn. cbn in Hws.
      apply andb_true_iff in Hws as [Hs _]. by destruct (space_facts c Hs) as ((_ & ? & _) & _).
    + intros s. cbn [read_loop]. unfold read_one. rewrite Hlen, E. rewrite (proj2 (Nat.eqb_neq _ _)).
      2: { rewrite length_app. destruct v; try done; cbn; lia. }
      unfold then_read. cbn [handle_all]. destruct (handle s (buffer r) _) as [[s1 evs]|msg]; [|done]. cbn [obind].
      replace (Z.to_nat (tend (cur (toks (len w) v ++ [end_tok])))) with E1.
      2: { unfold E1. destruct v; try done; [rewrite toks_arr|rewrite toks_obj]; cbn [app cur hd tend]; unfold len; lia. }
      rewrite (os_buffer _ _ _ _ HO) at 1. rewrite HR. unfold then_read. destruct (handle_all s1 found) as [[s2 evs2]|]; done.
    + lia.
    + rewrite Hp. rewrite pending_cons, (app_assoc w), drop_app_ge by (rewrite length_app; fold E1; lia). rewrite length_app. fold E1. f_equal. lia.
    + by replace (n - (E1 + k)) with (n - E1 - k) by lia.
    + intros m Hm Hcm. replace (m - (E1 + k)) with (m - E1 - k) by lia. apply HC2; [lia|]. apply HC1; [lia|done].
    + destruct l2; [done|]. lia.
  - destruct (partial_message w _ Hw Hl n r HO HC HE) as (q & nt & E & HO').
    exists [], ((v, wv) :: l), w, 0, [], (Reader (buffer r) q nt (capacity r)). rewrite drop_0, Nat.sub_0_r.
    split_and!; try done; [|lia|intros m _; by rewrite Nat.sub_0_r].
    intros s. cbn [read_loop]. unfold read_one. by rewrite Hlen, E.
Qed.

(** Where a stream is cut that arrives in chunks, after [n] bytes. *)
Fixpoint cuts (n : nat) (chunks : list bytes) : list nat :=
  match chunks with [] => [] | c :: rest => (n + length c) :: cuts (n + length c) rest end.

Lemma cuts_shift k chunks : forall n, k <= n -> cuts (n - k) chunks = map (fun m => m - k) (cuts n chunks) /\ Forall (fun m => n <= m) (cuts n chunks).
Proof.
  induction chunks as [|c rest IH]; intros n Hn; [by split|]. cbn [cuts map]. destruct (IH (n + length c) ltac:(lia)) as [E HF].
  replace (n - k + length c) with (n + length c - k) by lia. rewrite E. split; [done|]. constructor; [lia|].
  eapply Forall_impl; [exact HF|]. cbn. lia.
Qed.

Lemma handle_all_app a b s : handle_all s (a ++ b) = let! (s1, evs) := handle_all s a in let! (s2, evs') := handle_all s1 b in Ret (s2, evs ++ evs').
Proof.
  revert s. induction a as [|[x t] a IH]; intros s; cbn [app handle_all].
  { cbn [obind]. by destruct (handle_all s b) as [[? ?]|]. }
  destruct (handle s x t) as [[s1 evs]|]; [|done]. cbn [obind]. rewrite IH. destruct (handle_all s1 a) as [[s2 evs2]|]; [|done]. cbn [obind].
  destruct (handle_all s2 b) as [[s3 evs3]|]; [|done]. cbn [obind]. by rewrite app_assoc.
Qed.

Lemma received_on_stream grow_when w l n r c rest :
  on_stream w l n r -> drop n (pending_text w l) = c ++ rest -> on_stream w l (n + length c) (received grow_when r c).
Proof.
  intros [Hb Hn Hr Hp Ht] Hd.
  assert (HT : take n (pending_text w l) ++ c = take (n + length c) (pending_text w l)).
  { rewrite <- (take_drop n (pending_text w l)) at 2. rewrite take_app, take_take, Nat.min_r, length_take, Nat.min_l by lia.
    f_equal. rewrite Hd. replace (n + length c - n) with (length c) by lia. by rewrite take_app_length. }
  assert (HL : n + length c <= length (pending_text w l)).
  { apply (f_equal length) in Hd. rewrite length_drop, length_app in Hd. lia. }
  split; cbn [received buffer parser ntoks]; try done; [by rewrite Hb|lia].
Qed.

(** Chunk by chunk. *)
Lemma read_chunks_spec grow_when chunks : forall w l n r,
  ws_ok w = true -> Forall item_ok l -> on_stream w l n r -> drop n (pending_text w l) = concat chunks ->
  Forall (cut_ok (stream_toks (len w) l)) (cuts n chunks) ->
  match l with [] => True | m :: _ => n < length w + length (text m.1) end ->
  exists found r', Forall2 found_as found l /\ forall s, read_chunks handle grow_when s r chunks = then_read found r' s.
Proof.
  induction chunks as [|c rest IH]; intros w l n r Hw Hl HO Hd HC HN.
  { destruct l as [|[v wv] l]; [by exists [], r|]. exfalso. apply (f_equal length) in Hd. rewrite length_drop in Hd. cbn in Hd.
    pose proof (os_len _ _ _ _ HO). rewrite pending_cons, !length_app in *. cbn [fst] in HN. lia. }
  cbn [concat cuts] in Hd, HC. apply Forall_cons in HC as [HC HCr].
  pose proof (received_on_stream grow_when w l n r c _ HO Hd) as HO1.
  destruct (read_loop_spec l w (n + length c) (received grow_when r c) (S (length (buffer (received grow_when r c)))) Hw Hl HO1 HC)
    as (l1 & l2 & w' & k & found & r' & -> & HF & Hw' & HR & Hk & Hp & HO2 & HC2 & HN2).
  { rewrite (os_buffer _ _ _ _ HO1), length_take, Nat.min_l by apply HO1. lia. }
  apply Forall_app in Hl as [_ Hl2].
  destruct (IH w' l2 (n + length c - k) r' Hw' Hl2 HO2) as (found2 & r2 & HF2 & HR2).
  - rewrite Hp, drop_drop. replace (k + (n + length c - k)) with (n + length c) by lia. rewrite <- drop_drop, Hd. apply drop_app_length.
  - destruct (cuts_shift k rest (n + length c) Hk) as [-> HG]. apply Forall_map. apply Forall_forall. intros m Hm.
    eapply Forall_forall in HG; [|exact Hm]. eapply Forall_forall in HCr; [|exact Hm]. by apply HC2.
  - done.
  - exists (found ++ found2), r2. split; [by apply Forall2_app|]. intros s. cbn [read_chunks]. unfold read_chunk. rewrite HR. unfold then_read.
    rewrite handle_all_app. destruct (handle_all s found) as [[s1 evs]|]; [|done]. cbn [obind]. rewrite HR2. unfold then_read.
    by destruct (handle_all s1 found2) as [[s2 evs2]|].
Qed.
End Handling.

(** The reader at the start of a stream. *)
Lemma on_stream_init w l : on_stream w l 0 reader_init.
Proof. split; cbn; unfold TOKS_ALLOC; try done; lia. Qed.
