(* ===== verification/Setsystems.v ===== *)
(** plugins/payz/setsystems.c: one field of the [lightningd:systems]
    component.

    The C functions take the table's [get_component] and [set_component] as
    arguments, so that they can be tested without the table.  Here they are the
    operations of the class [EcOps], and what the callers may rely on is the
    class [EcLaws]; the table of ec.c is an instance. *)
From S2P Require Import Prelude Utf8 Jsmn JsonTree JsmnProofs Json JsonProofs.
From S2P Require Import JsonOut JsonOutProofs Strmap Intmap Ec EcProofs.

(** * The interface *)

Class EcOps (E : Type) : Type := {
  op_get : E -> Z -> bytes -> bool * (bytes * list jsmntok);
  op_set : E -> Z -> bytes -> option bytes -> option (list jsmntok) -> outcome E }.

(** What [get_component] returns for a component set to [v]. *)
Definition got (v : jv) : bool * (bytes * list jsmntok) :=
  if jv_null v then (false, (null_buffer, null_tok)) else (true, (text v, toks 0 v)).

Definition got_none : bool * (bytes * list jsmntok) := (false, (null_buffer, null_tok)).

Class EcLaws (E : Type) `{EcOps E} : Type := {
  einv : E -> Prop;
  law_get : forall e k n, einv e ->
    op_get e k n = got_none \/ exists v, jv_ok v = true /\ jv_null v = false /\ op_get e k n = (true, (text v, toks 0 v));
  law_set : forall e k n b t v, einv e -> is_u32 k -> no_nul n -> holds b t v ->
    exists e', op_set e k n (Some b) (Some t) = Ret e' /\ einv e' /\
      forall k' n', op_get e' k' n' = if decide ((k', n') = (k, n)) then got v else op_get e k' n';
  law_clear : forall e k n, einv e ->
    exists e', op_set e k n None None = Ret e' /\ einv e' /\
      forall k' n', op_get e' k' n' = if decide ((k', n') = (k, n)) then got_none else op_get e k' n' }.

(** * Operations *)

Definition syscomp : bytes := bs "lightningd:systems".

Section Generic.
Context {E : Type} `{EcOps E}.

(** One round of the copying loop. *)
Definition copy_field (buffer fieldname : bytes) (js : json_out) (key : list jsmntok) : outcome json_out :=
  if json_tok_streq buffer key fieldname then Ret js
  else json_add_tok js (Some (json_strdup buffer key)) (tl key) buffer.

Definition payz_generic_setsystems_tok (ec : E) (entity : Z) (fieldname : bytes)
    (value_buffer : option bytes) (value_toks : option (list jsmntok)) : outcome E :=
  let js := json_object_start new_json_stream None in
  let '(_, (buffer, toks)) := op_get ec entity syscomp in
  let! js :=
    if type_eqb (ttype (cur toks)) JSMN_OBJECT
    then ofold (copy_field buffer fieldname) js (json_for_each_obj toks)
    else Ret js in
  let! js :=
    match value_buffer with
    | None => Ret js
    | Some b =>
        match value_toks with
        | Some t => json_add_tok js (Some fieldname) t b
        | None => Abort "payz_generic_setsystems_tok: NULL value_toks"
        end
    end in
  let js := json_object_end js in
  let ncomp_buffer := outbuf js in
  let ncomp_toks := json_parse_simple ncomp_buffer (length ncomp_buffer) in
  op_set ec entity syscomp (Some ncomp_buffer) ncomp_toks.

(** [payz_generic_getsystems_] and [payz_generic_getsystems_tal_]: [json_to_x]
    fails with [None] in both. *)
Definition payz_generic_getsystems {X : Type} (ec : E) (entity : Z) (fieldname : bytes)
    (json_to_x : bytes -> list jsmntok -> option X) : option X :=
  let '(found, (buffer, toks)) := op_get ec entity syscomp in
  if negb found then None
  else
    match json_get_member buffer toks fieldname with
    | None => None
    | Some t => json_to_x buffer t
    end.

(** [payz_setsystems]: the value as the text of a datum. *)
Definition payz_setsystems (ec : E) (entity : Z) (fieldname value : bytes) : outcome E :=
  payz_generic_setsystems_tok ec entity fieldname (Some value) (json_parse_simple value (length value)).

End Generic.

(** * What the operations do, against the interface *)

(** The fields kept, and the fields after a set. *)
Definition strip (m : jmember) : jmember := Member0 (m_key m) (m_val m).

Definition kept (f : bytes) (ms : list jmember) : list jmember :=
  map strip (filter (fun m => m_key m <> f) ms).

Definition set_field (f : bytes) (o : option jv) (ms : list jmember) : list jmember :=
  kept f ms ++ match o with Some v => [Member0 f v] | None => [] end.

Lemma copy_field_step buf f js base acc key m :
  holds_member buf key m -> in_obj js base acc ->
  exists js', copy_field buf f js key = Ret js' /\ in_obj js' base (acc ++ kept f [m]).
Proof.
  intros Hm HJ. unfold copy_field. unfold json_tok_streq. rewrite (holds_member_streq _ _ _ _ Hm).
  unfold kept. destruct (bool_decide (m_key m = f)) eqn:E.
  - apply bool_decide_eq_true in E. rewrite filter_cons_False by (by intros ?). cbn [filter list_filter map]. rewrite app_nil_r. eauto.
  - apply bool_decide_eq_false in E. rewrite filter_cons_True by done. cbn [filter list_filter map].
    destruct Hm as (_ & _ & Hk & _ & Hs & Hv). rewrite (add_tok_holds _ _ _ _ _ Hv). eexists. split; [done|].
    unfold json_strdup. rewrite Hk, until_nul_id by (by apply str_ok_no_nul). by apply in_obj_add.
Qed.

Lemma copy_fields buf f keys ms : forall js base acc,
  Forall2 (holds_member buf) keys ms -> in_obj js base acc ->
  exists js', ofold (copy_field buf f) js keys = Ret js' /\ in_obj js' base (acc ++ kept f ms).
Proof.
  intros js base acc H. revert js acc. induction H as [|key m keys ms Hm _ IH]; intros js acc HJ.
  - exists js. by rewrite app_nil_r.
  - destruct (copy_field_step _ f _ _ _ _ _ Hm HJ) as (js1 & E1 & HJ1).
    destruct (IH _ _ HJ1) as (js2 & E2 & HJ2). exists js2. cbn [ofold]. rewrite E1. cbn [obind]. split; [done|].
    unfold kept in *. rewrite <- app_assoc, <- map_app, <- filter_app in HJ2. exact HJ2.
Qed.

(** The fields of a systems component. *)
Definition sys_fields (v : jv) : list jmember := match v with JObj _ ms => ms | _ => [] end.

Section Laws.
Context {E : Type} `{EcLaws E}.

(** The systems component of an entity has the fields [ms]. *)
Definition has_fields (e : E) (k : Z) (ms : list jmember) : Prop :=
  (op_get e k syscomp = got_none /\ ms = []) \/
  exists v, jv_ok v = true /\ jv_null v = false /\ op_get e k syscomp = (true, (text v, toks 0 v)) /\ ms = sys_fields v.

Lemma has_fields_total e k : einv e -> exists ms, has_fields e k ms.
Proof.
  intros He. destruct (law_get e k syscomp He) as [Hg|(v & H1 & H2 & H3)].
  - exists []. by left.
  - exists (sys_fields v). right. by exists v.
Qed.

Lemma fields_ok e k ms : has_fields e k ms -> forallb member_ok ms = true.
Proof.
  intros [[_ ->]|(v & Hv & _ & _ & ->)]; [done|]. destruct v as [| | |w ms]; try done.
  cbn [jv_ok] in Hv. by apply andb_true_iff in Hv as [_ ?].
Qed.

Lemma strip_ok m : member_ok m = true -> member_ok (strip m) = true.
Proof. intros Hm. apply member_ok_parts in Hm as [Hk Hv]. unfold member_ok, strip; simpl. by rewrite Hk, Hv. Qed.

Lemma kept_ok f ms : forallb member_ok ms = true -> forallb member_ok (kept f ms) = true.
Proof.
  intros Hm. unfold kept. rewrite forallb_forall in *. intros m [m0 [<- Hin]]%in_map_iff.
  apply strip_ok, Hm. apply list_elem_of_In in Hin. apply list_elem_of_In. by apply list_elem_of_filter in Hin as [_ ?].
Qed.

Lemma set_field_ok f o ms :
  forallb member_ok ms = true -> str_ok f = true -> (forall v, o = Some v -> jv_ok v = true) ->
  jv_ok (JObj [] (set_field f o ms)) = true.
Proof.
  intros Hm Hf Ho. change (ws_ok [] && forallb member_ok (set_field f o ms) = true).
  unfold set_field. rewrite forallb_app, kept_ok by done. simpl.
  destruct o as [v|]; [|done]. unfold member_ok; simpl. by rewrite Hf, Ho.
Qed.

(** Setting or deleting one field: the other fields stay, in order, the field
    goes to the end, every other component of every entity stays. *)
Lemma setsystems_fields e k f o ob ot ms :
  einv e -> is_u32 k -> str_ok f = true -> has_fields e k ms ->
  match o with
  | Some v => exists b t, holds b t v /\ ob = Some b /\ ot = Some t
  | None => ob = None
  end ->
  exists e', payz_generic_setsystems_tok e k f ob ot = Ret e' /\ einv e' /\
    has_fields e' k (set_field f o ms) /\
    forall k' n', (k', n') <> (k, syscomp) -> op_get e' k' n' = op_get e k' n'.
Proof.
  intros He Hk Hf Hms Ho.
  assert (Hok : jv_ok (JObj [] (set_field f o ms)) = true).
  { apply set_field_ok; [by eapply fields_ok|done|]. intros v ->. destruct Ho as (b & t & (? & ? & ? & _ & _ & _ & ?) & _). done. }
  assert (HC : exists js1, (let '(_, (buffer, toks)) := op_get e k syscomp in
      if type_eqb (ttype (cur toks)) JSMN_OBJECT
      then ofold (copy_field buffer f) (json_object_start new_json_stream None) (json_for_each_obj toks)
      else Ret (json_object_start new_json_stream None)) = Ret js1 /\ in_obj js1 (bs "{") (kept f ms)).
  { destruct Hms as [[-> ->]|(v & Hv & _ & -> & ->)]; [eexists; split; [reflexivity|apply in_obj_new]|].
    destruct v as [s|s|w es|w ms]; [eexists; split; [reflexivity|apply in_obj_new]..|].
    pose proof (for_each_obj_holds [] w ms [] [] Hv) as HF. rewrite !app_nil_r in HF. cbn [app] in HF.
    change (len []) with 0%Z in HF.
    destruct (copy_fields _ f _ _ _ _ _ HF in_obj_new) as (js' & E1 & HJ). exists js'. split; [exact E1|exact HJ]. }
  destruct HC as (js1 & E1 & HJ1). unfold payz_generic_setsystems_tok.
  destruct (op_get e k syscomp) as [fl [buffer tk]]. rewrite E1. cbn [obind].
  assert (HV : exists js2, match ob with
      | None => Ret js1
      | Some b => match ot with Some t => json_add_tok js1 (Some f) t b
                  | None => Abort "payz_generic_setsystems_tok: NULL value_toks" end
      end = Ret js2 /\ in_obj js2 (bs "{") (set_field f o ms)).
  { unfold set_field. destruct o as [v|].
    - destruct Ho as (b & t & Hh & -> & ->). rewrite (add_tok_holds _ _ _ _ _ Hh). eexists. split; [done|]. by apply in_obj_add.
    - subst ob. exists js1. by rewrite app_nil_r. }
  destruct HV as (js2 & E2 & HJ2). rewrite E2. cbn [obind]. rewrite (in_obj_end _ _ HJ2).
  rewrite parse_printed by done.
  destruct (law_set e k syscomp (text (JObj [] (set_field f o ms))) (toks 0 (JObj [] (set_field f o ms)) ++ [end_tok])
    (JObj [] (set_field f o ms)) He Hk) as (e' & E3 & He' & HG).
  { by apply no_nul_true. }
  { exists [], [], [end_tok]. by rewrite app_nil_r. }
  exists e'. split_and!; [exact E3|done| |].
  - right. exists (JObj [] (set_field f o ms)). split_and!; try done. rewrite HG. by rewrite decide_True.
  - intros k' n' Hne. rewrite HG. by rewrite decide_False.
Qed.

(** The value of a field after a set. *)
Lemma member_of_app l1 l2 f : member_of (l1 ++ l2) f = match member_of l1 f with Some v => Some v | None => member_of l2 f end.
Proof.
  unfold member_of. induction l1 as [|m l1 IH]; [done|]. cbn [app List.find]. by destruct (bool_decide (m_key m = f)).
Qed.

Lemma member_of_kept f g ms : member_of (kept f ms) g = if decide (g = f) then None else member_of ms g.
Proof.
  unfold member_of, kept. induction ms as [|m ms IH]; [by destruct (decide (g = f))|].
  destruct (decide (m_key m = f)) as [Hm|Hm].
  - rewrite filter_cons_False by (by intros ?). rewrite IH. case_decide as Hg; [done|]. cbn [List.find].
    by rewrite bool_decide_false by congruence.
  - rewrite filter_cons_True by done. cbn [map List.find strip Member0 m_key].
    destruct (bool_decide (m_key m = g)) eqn:Eg.
    + apply bool_decide_eq_true in Eg. by rewrite decide_False by congruence.
    + exact IH.
Qed.

Lemma member_of_set f o g ms :
  member_of (set_field f o ms) g = if decide (g = f) then o else member_of ms g.
Proof.
  unfold set_field. rewrite member_of_app, member_of_kept. destruct (decide (g = f)) as [->|Hg].
  - destruct o; [|done]. unfold member_of; simpl. by rewrite bool_decide_true.
  - destruct (member_of ms g); [done|]. destruct o; [|done]. unfold member_of; simpl. by rewrite bool_decide_false by congruence.
Qed.

(** Reading a field: the conversion sees the field's value. *)
Lemma getsystems_field {X : Type} e k f ms (jx : bytes -> list jsmntok -> option X) :
  has_fields e k ms ->
  match member_of ms f with
  | None => payz_generic_getsystems e k f jx = None
  | Some v => exists b t, holds b t v /\ payz_generic_getsystems e k f jx = jx b t
  end.
Proof.
  intros Hms. unfold payz_generic_getsystems. destruct Hms as [[-> ->]|(v & Hv & _ & -> & ->)]; [done|].
  cbn [negb]. destruct v as [s|s|w es|w ms]; try done.
  pose proof (json_get_member_holds [] w ms [] [] f Hv) as HM. rewrite !app_nil_r in HM. cbn [app] in HM.
  change (len []) with 0%Z in HM. cbn [sys_fields]. destruct HM as [t v Ht|]; [|done]. eauto.
Qed.

End Laws.

(** * The table of ec.c implements the interface *)

#[export] Instance ec_ops : EcOps ec := {| op_get := ec_get_component; op_set := ec_set_component |}.

Lemma ec_cell_at_in e k n : ec_cell_at e k n = cell_in (ec_map e) k n.
Proof. done. Qed.

Lemma ec_get_after e e' k n m v :
  ec_wf e -> ec_wf e' ->
  ec_map e' = m ->
  (forall k' n', cell_in m k' n' = if decide ((k', n') = (k, n)) then v else cell_in (ec_map e) k' n') ->
  forall k' n', ec_get_component e' k' n' =
    if decide ((k', n') = (k, n))
    then match v with Some c => (true, (buffer c, tok c)) | None => got_none end
    else ec_get_component e k' n'.
Proof.
  intros H H' Em Hc k' n'. rewrite !ec_get_component_spec, !ec_cell_at_in by done. rewrite Em, Hc. by case_decide.
Qed.

#[export] Program Instance ec_laws : EcLaws ec := {| einv := ec_wf |}.
Next Obligation.
  intros e k n He. simpl. rewrite ec_get_component_spec by done.
  destruct (ec_cell_at e k n) as [c|] eqn:Hc; [|by left]. right.
  destruct (cell_at_wf _ _ _ _ He Hc) as (_ & v & H1 & H2 & ->). by exists v.
Qed.
Next Obligation.
  intros e k n b t v He Hk Hn Hh. destruct (ec_set_holds e k n b t v He Hk Hn Hh) as (e' & E1 & W & _ & M).
  exists e'. split_and!; [done|done|]. intros k' n'. simpl.
  rewrite (ec_get_after e e' k n _ (cell_after n v) He W M) by apply cell_in_set.
  unfold cell_after, got. by destruct (jv_null v).
Qed.
Next Obligation.
  intros e k n He. destruct (ec_detach_step e k n He) as (e' & E1 & W & _ & M).
  exists e'. split_and!; [done|done|]. intros k' n'. simpl.
  by rewrite (ec_get_after e e' k n _ None He W M) by apply cell_in_detach.
Qed.
