(* ===== verification/Ecsys.v ===== *)
(** plugins/payz/ecs/ecsys.c: the systems handler.

    The handler keeps the registered systems; the table it works on is reached
    through [get_component] and [set_component] (class [EcOps]).  [ecsys_advance]
    ends in one of its two callbacks: the result says which, and with what code. *)
From S2P Require Import Prelude Utf8 Jsmn JsonTree JsmnProofs Json JsonProofs.
From S2P Require Import JsonEqual JsonOut JsonOutProofs JsonScan Libplugin.
From S2P Require Import Strmap Intmap Ec EcProofs Setsystems.

(** * State *)

Record ecsys_registered : Type := Registered {
  system : bytes; requiredComponents : list bytes; disallowedComponents : list bytes }.

(** [struct ecsys]: the registered systems by name. *)
Abbreviation ecsys := (strmap ecsys_registered).

Definition ecsys_new : ecsys := strmap_init.

Definition PAY_ECS_INVALID_SYSTEMS_COMPONENT : Z := 2200.
Definition PAY_ECS_NOT_ADVANCEABLE : Z := 2201.
Definition ECSYS_SYSTEM_NOTIFICATION : bytes := bs "payecs_system_invoke".

(** * Registration *)

(** [ecsys_register]; a NULL array is [None] and counts as empty.  A second
    registration of a name fails the assertion. *)
Definition ecsys_register (sys : ecsys) (name : bytes) (required disallowed : option (list bytes)) : outcome ecsys :=
  let r := Registered name (default [] required) (default [] disallowed) in
  let '(added, sys') := strmap_add sys name r in
  let! _ := assert_ added "ecsys_register: errno != EEXIST" in
  Ret sys'.

Definition ecsys_system_exists (sys : ecsys) (name : bytes) : bool :=
  match strmap_get sys name with Some _ => true | None => false end.

(** * Advance *)

Inductive adv_result : Type :=
| AdvOk                       (* cb *)
| AdvErr (code : Z).          (* errcb *)

Section Advance.
Context {E : Type} `{EcOps E}.

Definition attached (ec : E) (entity : Z) (c : bytes) : bool := (op_get ec entity c).1.

Definition system_matches (ec : E) (entity : Z) (s : ecsys_registered) : bool :=
  match requiredComponents s with
  | [] => false
  | _ => forallb (attached ec entity) (requiredComponents s)
         && forallb (fun c => negb (attached ec entity c)) (disallowedComponents s)
  end.

(** The components loop of [run_system]. *)
Definition add_component (ec : E) (entity : Z) (js : json_out) (c : bytes) : outcome json_out :=
  let '(_, (cmpbuf, cmptok)) := op_get ec entity c in
  json_add_tok js (Some c) cmptok cmpbuf.

Definition run_system (ec : E) (entity : Z) (s : ecsys_registered) : outcome event :=
  let js := plugin_notification_start ECSYS_SYSTEM_NOTIFICATION in
  let js := json_add_string js (Some (bs "system")) (system s) in
  let js := json_object_start js (Some (bs "entity")) in
  let js := json_add_u32 js (Some (bs "entity")) entity in
  let! js := ofold (add_component ec entity) js (requiredComponents s) in
  plugin_notification_end (json_object_end js).

(** [ecsys_advance_error] with the formatted message. *)
Definition ecsys_advance_error (ec : E) (entity code : Z) (msg : bytes) : outcome (E * adv_result) :=
  let jout := json_out_start json_out_new None (bs "{") in
  let jout := json_out_add jout (Some (bs "code")) false (fmt_d code) in
  let jout := json_out_add jout (Some (bs "message")) true msg in
  let jout := json_out_end jout (bs "}") in
  let buffer := outbuf jout in
  let toks := json_parse_simple buffer (length buffer) in
  let! ec' := payz_generic_setsystems_tok ec entity (bs "error") (Some buffer) toks in
  Ret (ec', AdvErr code).

(** What the search over the [systems] array comes to. *)
Inductive search : Type :=
| Found (i : nat) (s : ecsys_registered)
| Unregistered (name : bytes)
| NoMatch.

Fixpoint search_systems (sys : ecsys) (ec : E) (entity : Z) (i : nat) (systems : list bytes) : search :=
  match systems with
  | [] => NoMatch
  | name :: r =>
      match strmap_get sys name with
      | None => Unregistered name
      | Some s => if system_matches ec entity s then Found i s else search_systems sys ec entity (S i) r
      end
  end.

Definition msg_invalid : bytes :=
  bs "Invalid `lightningd:systems`: invalid or absent `systems` field.".
Definition msg_unregistered (name : bytes) : bytes :=
  bs "Invalid `lightningd:systems`: `systems` array contains unregistered system: " ++ name.
Definition msg_no_match : bytes := bs "No systems match, cannot advance.".

Definition ecsys_advance (sys : ecsys) (ec : E) (entity : Z) : outcome (E * list event * adv_result) :=
  let fail code msg :=
    let! (ec', r) := ecsys_advance_error ec entity code msg in Ret (ec', [], r) in
  match payz_generic_getsystems ec entity (bs "systems") json_to_array_of_strings with
  | None => fail PAY_ECS_INVALID_SYSTEMS_COMPONENT msg_invalid
  | Some systems =>
      match search_systems sys ec entity 0 systems with
      | Unregistered name => fail PAY_ECS_INVALID_SYSTEMS_COMPONENT (msg_unregistered name)
      | NoMatch => fail PAY_ECS_NOT_ADVANCEABLE msg_no_match
      | Found i s =>
          let current := wrap32 (Z.of_nat i) in      (* unsigned int *)
          let buffer := fmt_u current in
          let toks := json_parse_simple buffer (length buffer) in
          let! ec' := payz_generic_setsystems_tok ec entity (bs "current") (Some buffer) toks in
          let! ev := run_system ec' entity s in
          Ret (ec', [ev], AdvOk)
      end
  end.

(** [ecsys_err_wrap]: log the message that the failed advance left behind. *)
Definition ecsys_err_wrap (ec : E) (entity code : Z) : outcome event :=
  let level := if (code =? PAY_ECS_NOT_ADVANCEABLE)%Z then LOG_UNUSUAL else LOG_BROKEN in
  let '(_, (buffer, tok)) := op_get ec entity syscomp in
  let! r := json_scan buffer tok (bs "{error:{message:%}}")
              [ScanArg (bs "json_strdup") (fun b t => Some (json_strdup b t))] in
  match r with
  | inr [msg] => Ret (Logged level (bs "entity " ++ fmt_u entity ++ bs ": " ++ msg))
  | _ => Abort "ecsys_err_wrap: !err"
  end.

Definition ecsys_advance_done (sys : ecsys) (ec : E) (entity : Z) : outcome (E * list event) :=
  let! (ec', evs, r) := ecsys_advance sys ec entity in
  match r with
  | AdvOk => Ret (ec', evs)
  | AdvErr code => let! ev := ecsys_err_wrap ec' entity code in Ret (ec', evs ++ [ev])
  end.

End Advance.
