(* ===== verification/EcsysProofs.v ===== *)
(** The systems handler, proved against the interface of the table: what a
    system matches, which system an advance triggers, what it writes and sends,
    and what it leaves when it fails. *)
From S2P Require Import Prelude Utf8 Jsmn JsonTree JsmnProofs Json JsonProofs.
From S2P Require Import JsonEqual JsonOut JsonOutProofs JsonScan JsonScanProofs Libplugin.
From S2P Require Import Strmap Intmap Ec EcProofs Setsystems Ecsys.

(** * C strings *)

Lemma cstr_app_ascii a s : forallb is_ascii a = true -> cstr s -> cstr (a ++ s).
Proof.
  intros Ha [Hn Hu]. split.
  - apply Forall_app. split; [|done]. apply Forall_forall. intros c Hc ->. rewrite forallb_forall in Ha.
    apply list_elem_of_In in Hc. by apply Ha in Hc.
  - unfold utf8_check in *. destruct a as [|c a]; [done|]. by rewrite utf8_ascii_run.
Qed.

Lemma cstr_ascii a : forallb is_ascii a = true -> cstr a.
Proof. intros Ha. rewrite <- (app_nil_r a). apply cstr_app_ascii; [done|]. split; [constructor|done]. Qed.

Lemma cstr_printed s : cstr s -> str_ok (printed s) = true.
Proof. intros [Hn Hu]. by apply printed_ok. Qed.

#[export] Hint Extern 1 (cstr (bs _)) => apply cstr_ascii; reflexivity : payz.

(** * Registration *)

Lemma register_fresh (sys : ecsys) name required disallowed :
  strmap_wf sys -> no_nul name -> strmap_to_map sys !! name = None ->
  exists sys', ecsys_register sys name required disallowed = Ret sys' /\ strmap_wf sys' /\
    strmap_to_map sys' = <[name := Registered name (default [] required) (default [] disallowed)]> (strmap_to_map sys).
Proof.
  intros W Hn Hf. unfold ecsys_register.
  destruct (strmap_add_fresh sys name (Registered name (default [] required) (default [] disallowed)) W Hn Hf)
    as (m' & -> & W' & M'). simpl. eauto.
Qed.

Lemma register_again (sys : ecsys) name required disallowed :
  strmap_wf sys -> is_Some (strmap_to_map sys !! name) ->
  exists w, ecsys_register sys name required disallowed = Abort w.
Proof.
  intros W [r Hr]. unfold ecsys_register. rewrite (strmap_add_present sys name _ r W Hr). simpl. eauto.
Qed.

Lemma system_exists_map (sys : ecsys) name :
  strmap_wf sys -> ecsys_system_exists sys name = true <-> is_Some (strmap_to_map sys !! name).
Proof.
  intros W. unfold ecsys_system_exists. rewrite strmap_get_map by done.
  destruct (strmap_to_map sys !! name); [|split; [done|by intros []]]. split; [eauto|done].
Qed.

Section Against.
Context {E : Type} `{EcLaws E}.
Implicit Types (e : E) (sys : ecsys).

(** * Matching *)

Lemma system_matches_iff e k s :
  system_matches e k s = true <->
    requiredComponents s <> [] /\
    (forall c, c ∈ requiredComponents s -> attached e k c = true) /\
    (forall c, c ∈ disallowedComponents s -> attached e k c = false).
Proof.
  unfold system_matches. destruct (requiredComponents s) as [|r0 r] eqn:Er; [split; [done|by intros (? & _)]|].
  rewrite andb_true_iff, !forallb_forall. setoid_rewrite negb_true_iff. setoid_rewrite <- list_elem_of_In.
  split; [intros []; auto|intros (_ & ? & ?); auto].
Qed.

(** * The search *)

Definition registered (sys : ecsys) (name : bytes) (s : ecsys_registered) : Prop := strmap_get sys name = Some s.

(** A name that the search passes over. *)
Definition passed (sys : ecsys) (e : E) (k : Z) (name : bytes) : Prop :=
  exists s, registered sys name s /\ system_matches e k s = false.

Lemma search_spec sys e k systems : forall i,
  match search_systems sys e k i systems with
  | Found j s => exists l1 name l2, systems = l1 ++ name :: l2 /\ j = i + length l1 /\
      Forall (passed sys e k) l1 /\ registered sys name s /\ system_matches e k s = true
  | Unregistered name => exists l1 l2, systems = l1 ++ name :: l2 /\
      Forall (passed sys e k) l1 /\ strmap_get sys name = None
  | NoMatch => Forall (passed sys e k) systems
  end.
Proof.
  induction systems as [|name r IH]; intros i; cbn [search_systems]; [done|].
  destruct (strmap_get sys name) as [s|] eqn:Es; [|by exists [], r].
  destruct (system_matches e k s) eqn:Em; [by exists [], name, r|].
  specialize (IH (S i)). assert (Hp : passed sys e k name) by (by exists s).
  destruct (search_systems sys e k (S i) r) as [j s'|n|].
  - destruct IH as (l1 & n & l2 & -> & -> & HF & HR). exists (name :: l1), n, l2. split_and!; [done|simpl; lia|by constructor|by destruct HR..].
  - destruct IH as (l1 & l2 & -> & HF & HN). exists (name :: l1), l2. split_and!; [done|by constructor|done].
  - by constructor.
Qed.

(** * Failing *)

Definition error_obj (code : Z) (msg : bytes) : jv :=
  JObj [] [Member0 (bs "code") (JPrim (fmt_d code)); Member0 (bs "message") (JStr (printed msg))].

Lemma error_obj_ok code msg : (- u64_mod < code < u64_mod)%Z -> cstr msg -> jv_ok (error_obj code msg) = true.
Proof.
  intros Hc Hm. apply (jv_ok_obj0 [(bs "code", JPrim (fmt_d code)); (bs "message", JStr (printed msg))]).
  repeat constructor; simpl; [by apply fmt_d_ok|by apply cstr_printed].
Qed.

Lemma advance_error_spec e k ms code msg :
  einv e -> is_u32 k -> has_fields e k ms -> cstr msg -> (- u64_mod < code < u64_mod)%Z ->
  exists e', ecsys_advance_error e k code msg = Ret (e', AdvErr code) /\ einv e' /\
    has_fields e' k (set_field (bs "error") (Some (error_obj code msg)) ms) /\
    forall k' n', (k', n') <> (k, syscomp) -> op_get e' k' n' = op_get e k' n'.
Proof.
  intros He Hk Hms Hm Hc. pose proof (error_obj_ok code msg Hc Hm) as Hok. unfold ecsys_advance_error.
  match goal with |- context [outbuf ?j] => set (js := j) end.
  assert (Hj : outbuf js = text (error_obj code msg)).
  { apply in_obj_end. subst js. unfold json_out_add. rewrite !addv_direct.
    apply (in_obj_add _ _ [Member0 (bs "code") (JPrim (fmt_d code))] (bs "message") (JStr (printed msg))).
    apply (in_obj_add _ _ [] (bs "code") (JPrim (fmt_d code))). apply in_obj_new. }
  rewrite Hj, parse_printed by done.
  destruct (setsystems_fields e k (bs "error") (Some (error_obj code msg)) (Some (text (error_obj code msg)))
    (Some (toks 0 (error_obj code msg) ++ [end_tok])) ms He Hk eq_refl Hms) as (e' & -> & R).
  { eexists _, _. split_and!; [|done|done]. exists [], [], [end_tok]. by rewrite app_nil_r. }
  exists e'. by split.
Qed.

(** * Triggering *)

(** What [get_component] reads as a value: null when it is not attached. *)
Definition reads (e : E) (k : Z) (c : bytes) (v : jv) : Prop :=
  jv_ok v = true /\ (op_get e k c).2 = (text v, toks 0 v).

Lemma reads_total e k c : einv e -> exists v, reads e k c v.
Proof.
  intros He. destruct (law_get e k c He) as [Hg|(v & Hv & _ & Hg)].
  - exists (JPrim (bs "null")). split; [done|]. by rewrite Hg.
  - exists v. split; [done|]. by rewrite Hg.
Qed.

(** The message a system is triggered with. *)
Definition entity_obj (k : Z) (cs : list (bytes * jv)) : jv :=
  JObj [] (Member0 (bs "entity") (JPrim (fmt_u k)) :: map (fun cv => Member0 cv.1 cv.2) cs).

Definition invoke_params (name : bytes) (k : Z) (cs : list (bytes * jv)) : jv :=
  JObj [] [Member0 (bs "system") (JStr (printed name)); Member0 (bs "entity") (entity_obj k cs)].

Definition notification (method : bytes) (params : jv) : jv :=
  JObj [] [Member0 (bs "jsonrpc") (JStr (bs "2.0")); Member0 (bs "method") (JStr (printed method)); Member0 (bs "params") params].

Lemma add_components_spec e k cs vs : forall js base ms,
  Forall2 (reads e k) cs vs -> in_obj js base ms ->
  exists js', ofold (add_component e k) js cs = Ret js' /\
    in_obj js' base (ms ++ map (fun cv => Member0 cv.1 cv.2) (zip cs vs)).
Proof.
  intros js base ms HF. revert js ms. induction HF as [|c v cs vs [Hv Hr] _ IH]; intros js ms HJ.
  - exists js. simpl. by rewrite app_nil_r.
  - cbn [ofold]. unfold add_component at 1. destruct (op_get e k c) as [fl [b t]]. simpl in Hr. simplify_eq.
    rewrite (add_tok_holds js (Some c) (text v) (toks 0 v) v) by (by apply holds_self). cbn [obind].
    destruct (IH _ _ (in_obj_add js base ms c v HJ)) as (js' & E1 & HJ'). exists js'. split; [done|].
    rewrite <- app_assoc in HJ'. exact HJ'.
Qed.

Lemma run_system_spec e k s vs :
  Forall2 (reads e k) (requiredComponents s) vs -> no_nul (system s) ->
  run_system e k s =
    Ret (Sent (text (notification ECSYS_SYSTEM_NOTIFICATION
      (invoke_params (system s) k (zip (requiredComponents s) vs))) ++ [LF; LF])).
Proof.
  intros HF Hs. unfold run_system, plugin_notification_start.
  pose proof (in_obj_string _ _ _ (bs "jsonrpc") (bs "2.0") in_obj_new ltac:(auto with payz)) as J1.
  pose proof (in_obj_string _ _ _ (bs "method") ECSYS_SYSTEM_NOTIFICATION J1 ltac:(by apply no_nul_true)) as J2.
  set (js2 := json_add_string _ (Some (bs "method")) _) in *.
  pose proof (in_obj_string _ _ _ (bs "system") (system s) (in_obj_open _ _ _ (bs "params") J2) Hs) as J3.
  set (js3 := json_add_string _ (Some (bs "system")) _) in *.
  pose proof (in_obj_raw _ _ _ (bs "entity") (fmt_u k) (in_obj_open _ _ _ (bs "entity") J3)) as J4.
  set (js4 := json_add_u32 _ _ _). change (json_add_member _ _ false (fmt_u k)) with js4 in J4.
  destruct (add_components_spec e k _ _ _ _ _ HF J4) as (js5 & -> & J5). cbn [obind].
  pose proof (in_obj_close _ _ _ _ _ _ J3 J5) as J6. pose proof (in_obj_close _ _ _ _ _ _ J2 J6) as J7.
  unfold plugin_notification_end, jsonrpc_finish_and_send, json_stream_close.
  destruct (double_cr_text _ _ (in_obj_end _ _ J7)) as (js8 & -> & E8); [eauto|]. cbn [obind]. by rewrite E8.
Qed.

(** * Advancing *)

Lemma getsystems_strings e k f ms :
  has_fields e k ms ->
  payz_generic_getsystems e k f json_to_array_of_strings = member_of ms f ≫= strings_of.
Proof.
  intros Hms. pose proof (getsystems_field e k f ms json_to_array_of_strings Hms) as HG.
  destruct (member_of ms f) as [v|]; [|done]. destruct HG as (b & t & Hh & ->).
  by rewrite (json_to_array_of_strings_spec _ _ _ Hh).
Qed.

Lemma member_ok_value ms f v : forallb member_ok ms = true -> member_of ms f = Some v -> jv_ok v = true.
Proof.
  intros Hm. unfold member_of. destruct (List.find _ ms) as [m|] eqn:Ef; [|done]. intros [= <-].
  apply find_key in Ef as [Hin _]. rewrite forallb_forall in Hm. apply list_elem_of_In in Hin.
  by apply Hm, member_ok_parts in Hin as [_ ?].
Qed.

Lemma systems_cstr e k ms f l :
  has_fields e k ms -> member_of ms f ≫= strings_of = Some l -> Forall cstr l.
Proof.
  intros Hms Hl. destruct (member_of ms f) as [v|] eqn:Ev; [|done]. simpl in Hl.
  eapply strings_of_cstr; [|done]. eapply member_ok_value; [|done]. by eapply fields_ok.
Qed.

(** The outcome of a failed advance. *)
Definition failed (e : E) (k : Z) (ms : list jmember) (code : Z) (msg : bytes)
    (x : outcome (E * list event * adv_result)) : Prop :=
  cstr msg /\ exists e', x = Ret (e', [], AdvErr code) /\ einv e' /\
    has_fields e' k (set_field (bs "error") (Some (error_obj code msg)) ms) /\
    forall k' n', (k', n') <> (k, syscomp) -> op_get e' k' n' = op_get e k' n'.

(** The outcome of an advance that triggered system [s], entry [i] of the list. *)
Definition triggered (e : E) (k : Z) (ms : list jmember) (i : nat) (s : ecsys_registered)
    (x : outcome (E * list event * adv_result)) : Prop :=
  exists e' vs, x = Ret (e', [Sent (text (notification ECSYS_SYSTEM_NOTIFICATION
        (invoke_params (system s) k (zip (requiredComponents s) vs))) ++ [LF; LF])], AdvOk) /\
    einv e' /\ Forall2 (reads e' k) (requiredComponents s) vs /\
    has_fields e' k (set_field (bs "current") (Some (JPrim (fmt_u (wrap32 (Z.of_nat i))))) ms) /\
    forall k' n', (k', n') <> (k, syscomp) -> op_get e' k' n' = op_get e k' n'.

Lemma fail_step e k ms code msg :
  einv e -> is_u32 k -> has_fields e k ms -> cstr msg -> (- u64_mod < code < u64_mod)%Z ->
  failed e k ms code msg (let! (ec', r) := ecsys_advance_error e k code msg in Ret (ec', [], r)).
Proof.
  intros He Hk Hms Hm Hc. split; [done|].
  destruct (advance_error_spec e k ms code msg He Hk Hms Hm Hc) as (e' & -> & R). exists e'. by split.
Qed.

Lemma reads_all e k cs : einv e -> exists vs, Forall2 (reads e k) cs vs.
Proof.
  intros He. induction cs as [|c cs [vs IH]]; [by exists []|].
  destruct (reads_total e k c He) as [v Hv]. exists (v :: vs). by constructor.
Qed.

Lemma trigger_step e k ms i s :
  einv e -> is_u32 k -> has_fields e k ms -> no_nul (system s) ->
  triggered e k ms i s
    (let buffer := fmt_u (wrap32 (Z.of_nat i)) in
     let toks := json_parse_simple buffer (length buffer) in
     let! ec' := payz_generic_setsystems_tok e k (bs "current") (Some buffer) toks in
     let! ev := run_system ec' k s in
     Ret (ec', [ev], AdvOk)).
Proof.
  intros He Hk Hms Hs. set (n := wrap32 (Z.of_nat i)).
  assert (Hn : (0 <= n < u64_mod)%Z) by (pose proof (Z.mod_pos_bound (Z.of_nat i) u32_mod eq_refl); unfold n, wrap32, u32_mod, u64_mod in *; lia).
  destruct (fmt_u_ok n Hn) as [Hp _]. cbv zeta.
  pose proof (parse_printed (JPrim (fmt_u n)) Hp) as HP. cbn [text] in HP. rewrite HP.
  destruct (setsystems_fields e k (bs "current") (Some (JPrim (fmt_u n))) (Some (fmt_u n))
    (Some (toks 0 (JPrim (fmt_u n)) ++ [end_tok])) ms He Hk eq_refl Hms) as (e' & -> & He' & Hf & Hfr).
  { eexists _, _. split_and!; [|done|done]. exists [], [], [end_tok]. by rewrite app_nil_r. }
  cbn [obind]. destruct (reads_all e' k (requiredComponents s) He') as [vs Hvs].
  rewrite (run_system_spec e' k s vs Hvs Hs). cbn [obind]. exists e', vs. split_and!; done.
Qed.

(** The registered systems are filed under their names. *)
Definition ecsys_wf (sys : ecsys) : Prop :=
  strmap_wf sys /\ forall name s, strmap_to_map sys !! name = Some s -> system s = name /\ no_nul name.

Lemma registered_no_nul sys name s : ecsys_wf sys -> registered sys name s -> system s = name /\ no_nul (system s).
Proof.
  intros [W HS] Hr. unfold registered in Hr. rewrite strmap_get_map in Hr by done. destruct (HS _ _ Hr) as [-> ?]. done.
Qed.

Lemma advance_spec e sys k ms :
  einv e -> ecsys_wf sys -> is_u32 k -> has_fields e k ms ->
  match member_of ms (bs "systems") ≫= strings_of with
  | None => failed e k ms PAY_ECS_INVALID_SYSTEMS_COMPONENT msg_invalid (ecsys_advance sys e k)
  | Some systems =>
      match search_systems sys e k 0 systems with
      | Unregistered name =>
          failed e k ms PAY_ECS_INVALID_SYSTEMS_COMPONENT (msg_unregistered name) (ecsys_advance sys e k)
      | NoMatch => failed e k ms PAY_ECS_NOT_ADVANCEABLE msg_no_match (ecsys_advance sys e k)
      | Found i s => triggered e k ms i s (ecsys_advance sys e k)
      end
  end.
Proof.
  intros He Hw Hk Hms. unfold ecsys_advance. rewrite (getsystems_strings _ _ _ _ Hms).
  destruct (member_of ms (bs "systems") ≫= strings_of) as [systems|] eqn:Es.
  2: { apply fail_step; try done. by apply cstr_ascii. }
  pose proof (systems_cstr _ _ _ _ _ Hms Es) as HC. pose proof (search_spec sys e k systems 0) as HS.
  destruct (search_systems sys e k 0 systems) as [i s|name|].
  - destruct HS as (l1 & name & l2 & _ & _ & _ & Hr & _). apply trigger_step; try done. by eapply registered_no_nul.
  - destruct HS as (l1 & l2 & -> & _). apply fail_step; try done. apply cstr_app_ascii; [done|].
    apply Forall_app in HC as [_ HC]. by apply Forall_cons in HC as [? _].
  - apply fail_step; try done. by apply cstr_ascii.
Qed.

(** * The log line of a failed advance *)

Lemma fields_object e k ms :
  has_fields e k ms -> ms <> [] ->
  exists w, jv_ok (JObj w ms) = true /\ op_get e k syscomp = (true, (text (JObj w ms), toks 0 (JObj w ms))).
Proof.
  intros [[_ ->]|(v & Hv & _ & Hg & ->)] Hne; [done|]. destruct v as [| | |w ms']; try done. by exists w.
Qed.

(** The message of a failed advance can be read back from the component. *)
Lemma error_message_scan e k ms code msg :
  has_fields e k (set_field (bs "error") (Some (error_obj code msg)) ms) -> cstr msg ->
  exists b t, op_get e k syscomp = (true, (b, t)) /\
    json_scan b t (bs "{error:{message:%}}") [ScanArg (bs "json_strdup") (fun b t => Some (json_strdup b t))] = Ret (inr [printed msg]).
Proof.
  intros Hf Hm. destruct (fields_object _ _ _ Hf) as (w & Hok & Hg).
  { unfold set_field. by destruct (kept _ ms). }
  set (V := JObj w _) in *. exists (text V), (toks 0 V). split; [done|].
  pose proof (scan_field2 (text V) (toks 0 V) V (bs "error") (bs "message")
    (ScanArg (bs "json_strdup") (fun b t => Some (json_strdup b t))) (holds_self V Hok) eq_refl eq_refl) as HS.
  cbv zeta in HS. subst V. cbn [field_of] in HS. rewrite member_of_set, decide_True in HS by done. cbn [mbind option_bind] in HS.
  change (field_of (error_obj code msg) (bs "message")) with (Some (JStr (printed msg))) in HS.
  destruct HS as (t & Ht & HR). cbn [fmt scan_result] in HR.
  change (bs "{error:{message:%}}") with (bs "{" ++ bs "error" ++ bs ":{" ++ bs "message" ++ bs ":%}}"). rewrite HR.
  destruct (holds_cur _ _ _ Ht) as (_ & _ & _ & HB). unfold json_strdup. rewrite HB. cbn [body].
  rewrite until_nul_id; [done|]. apply str_ok_no_nul. by apply cstr_printed.
Qed.

Lemma err_wrap_spec e k ms code msg :
  has_fields e k (set_field (bs "error") (Some (error_obj code msg)) ms) -> cstr msg ->
  ecsys_err_wrap e k code =
    Ret (Logged (if (code =? PAY_ECS_NOT_ADVANCEABLE)%Z then LOG_UNUSUAL else LOG_BROKEN)
           (bs "entity " ++ fmt_u k ++ bs ": " ++ printed msg)).
Proof.
  intros Hf Hm. destruct (error_message_scan _ _ _ _ _ Hf Hm) as (b & t & Hg & HS).
  unfold ecsys_err_wrap. by rewrite Hg, HS.
Qed.

(** [ecsys_advance_done] always returns: either one trigger and no log line, or
    no trigger and one log line. *)
Lemma advance_done_spec e sys k :
  einv e -> ecsys_wf sys -> is_u32 k ->
  exists e' ev, ecsys_advance_done sys e k = Ret (e', [ev]) /\ einv e' /\
    (forall k' n', (k', n') <> (k, syscomp) -> op_get e' k' n' = op_get e k' n') /\
    ((exists b, ev = Sent b /\ exists evs, ecsys_advance sys e k = Ret (e', evs, AdvOk)) \/
     (exists level msg code, ev = Logged level msg /\ ecsys_advance sys e k = Ret (e', [], AdvErr code))).
Proof.
  intros He Hw Hk. destruct (has_fields_total e k He) as [ms Hms].
  pose proof (advance_spec e sys k ms He Hw Hk Hms) as HA. unfold ecsys_advance_done.
  assert (HF : forall code msg, failed e k ms code msg (ecsys_advance sys e k) ->
    exists e' ev, (let! (ec', evs, r) := ecsys_advance sys e k in
      match r with AdvOk => Ret (ec', evs) | AdvErr code => let! ev := ecsys_err_wrap ec' k code in Ret (ec', evs ++ [ev]) end)
      = Ret (e', [ev]) /\ einv e' /\
      (forall k' n', (k', n') <> (k, syscomp) -> op_get e' k' n' = op_get e k' n') /\
      ((exists b, ev = Sent b /\ exists evs, ecsys_advance sys e k = Ret (e', evs, AdvOk)) \/
       (exists level msg code, ev = Logged level msg /\ ecsys_advance sys e k = Ret (e', [], AdvErr code)))).
  { intros code msg (Hm & e' & Ea & He' & Hf & Hfr). rewrite Ea. cbn [obind].
    rewrite (err_wrap_spec _ _ _ _ _ Hf Hm). cbn [obind app]. eexists e', _. split_and!; [done|done|done|right; eauto 10]. }
  destruct (member_of ms (bs "systems") ≫= strings_of) as [systems|]; [|by eapply HF].
  destruct (search_systems sys e k 0 systems) as [i s|name|]; [|by eapply HF..].
  destruct HA as (e' & vs & Ea & He' & _ & _ & Hfr). rewrite Ea. cbn [obind].
  eexists e', _. split_and!; [done|done|done|left; eauto 10].
Qed.

(** Either a system is triggered or the advance fails with one of its codes. *)
Lemma advance_cases e sys k :
  einv e -> ecsys_wf sys -> is_u32 k -> exists ms,
  (exists i s, triggered e k ms i s (ecsys_advance sys e k)) \/
  (exists code msg, (code = PAY_ECS_INVALID_SYSTEMS_COMPONENT \/ code = PAY_ECS_NOT_ADVANCEABLE) /\
     failed e k ms code msg (ecsys_advance sys e k)).
Proof.
  intros He Hw Hk. destruct (has_fields_total e k He) as [ms Hms]. exists ms.
  pose proof (advance_spec e sys k ms He Hw Hk Hms) as HA.
  destruct (member_of ms (bs "systems") ≫= strings_of) as [systems|]; [|by eauto 10].
  destruct (search_systems sys e k 0 systems); eauto 10.
Qed.

End Against.
