(* ===== verification/Ecs.v ===== *)
(** plugins/payz/ecs/ecs.c: the table and the systems handler together, the
    registration of systems, and the dispatch of built-in systems.

    A built-in system's function pointer is a value of the type [F]; calling it
    is the business of whoever knows [F]. *)
From S2P Require Import Prelude Utf8 Jsmn JsonTree JsmnProofs Json JsonProofs JsonEqual JsonOut JsonOutProofs JsonScan.
From S2P Require Import JsonScanProofs Libplugin Strmap Intmap Ec EcProofs Setsystems Ecsys EcsysProofs.

Section Ecs.
Context {F : Type}.

(** * State *)

Record ecs_system_wrapper : Type := Wrapper { w_name : bytes; w_func : F; w_required : list bytes }.

Record ecs : Type := Ecs { ecs_ec : ec; ecs_ecsys : ecsys; system_funcs : strmap ecs_system_wrapper }.

Definition ecs_new : ecs := Ecs ec_new ecsys_new strmap_init.

(** * Delegation to the table *)

Definition with_ec (s : ecs) (e : ec) : ecs := Ecs e (ecs_ecsys s) (system_funcs s).

Definition ecs_newentity (s : ecs) : Z * ecs :=
  let '(n, e) := ec_newentity (ecs_ec s) in (n, with_ec s e).
Definition ecs_get_entity_bounds (s : ecs) : Z * Z := ec_get_entity_bounds (ecs_ec s).
Definition ecs_get_components (s : ecs) (entity : Z) : outcome (option (list bytes)) :=
  ec_get_components (ecs_ec s) entity.
Definition ecs_get_component (s : ecs) (entity : Z) (c : bytes) : bool * (bytes * list jsmntok) :=
  ec_get_component (ecs_ec s) entity c.
Definition ecs_set_component (s : ecs) (entity : Z) (c : bytes) (b : option bytes) (t : option (list jsmntok))
  : outcome ecs := let! e := ec_set_component (ecs_ec s) entity c b t in Ret (with_ec s e).
Definition ecs_set_component_datuml (s : ecs) (entity : Z) (c : bytes) (v : option bytes) : outcome ecs :=
  let! e := ec_set_component_datuml (ecs_ec s) entity c v in Ret (with_ec s e).
Definition ecs_set_component_datum (s : ecs) (entity : Z) (c : bytes) (v : option bytes) : outcome ecs :=
  let! e := ec_set_component_datum (ecs_ec s) entity c v in Ret (with_ec s e).

(** * Delegation to the handler *)

Definition ecs_advance (s : ecs) (entity : Z) : outcome (ecs * list event * adv_result) :=
  let! (e, evs, r) := ecsys_advance (ecs_ecsys s) (ecs_ec s) entity in Ret (with_ec s e, evs, r).

(** [ecs_done] only frees the command. *)
Definition ecs_done (s : ecs) : outcome (ecs * list event) := Ret (s, []).

Definition ecs_advance_done (s : ecs) (entity : Z) : outcome (ecs * list event) :=
  let! (e, evs) := ecsys_advance_done (ecs_ecsys s) (ecs_ec s) entity in
  let! (s', evs') := ecs_done (with_ec s e) in Ret (s', evs ++ evs').

Definition ecs_system_exists (s : ecs) (name : bytes) : bool := ecsys_system_exists (ecs_ecsys s) name.

(** * Triggering of built-in systems *)

Definition show_text (buffer : bytes) (tok : list jsmntok) : bytes := until_nul (tok_full_text buffer (cur tok)).

Definition triggered_msg (rest : bytes) (buffer : bytes) (tok : list jsmntok) : bytes :=
  bs "Triggered '" ++ ECSYS_SYSTEM_NOTIFICATION ++ bs "' " ++ rest ++ show_text buffer tok.

(** The first required component that the message does not carry. *)
Definition missing_component (buffer : bytes) (entity : list jsmntok) (required : list bytes) : option bytes :=
  List.find (fun c => match json_get_member buffer entity c with Some _ => false | None => true end) required.

Definition str_arg : scan_arg bytes := ScanArg (bs "json_strdup") (fun b t => Some (json_strdup b t)).
Definition u32_arg : scan_arg Z := ScanArg (bs "json_to_u32") json_to_u32.

(** [ecs_system_notify]; [call] is the call through [wrapper->func]. *)
Definition ecs_system_notify (call : F -> ecs -> Z -> bytes -> list jsmntok -> outcome (ecs * list event))
    (s : ecs) (buffer : bytes) (params : list jsmntok) : outcome (ecs * list event) :=
  let handled msg := Ret (s, [Logged LOG_UNUSUAL msg]) in
  let! r := json_scan buffer params (bs "{system:%}") [str_arg] in
  match r with
  | inr [name] =>
      match strmap_get (system_funcs s) name with
      | None => Ret (s, [])
      | Some wrapper =>
          match json_get_member buffer params (bs "entity") with
          | None => handled (triggered_msg (bs "without 'entity' parameter: ") buffer params)
          | Some entity =>
              let! r := json_scan buffer entity (bs "{entity:%}") [u32_arg] in
              match r with
              | inr [eid] =>
                  match missing_component buffer entity (w_required wrapper) with
                  | Some c =>
                      handled (triggered_msg (bs "on system '" ++ w_name wrapper
                        ++ bs "' without being provided required component '" ++ c ++ bs "': ") buffer entity)
                  | None => call (w_func wrapper) s eid buffer entity
                  end
              | _ => handled (triggered_msg (bs "without 'entity' ID: 'entity': ") buffer entity)
              end
          end
      end
  | _ => handled (triggered_msg (bs "without 'system' parameter: ") buffer params)
  end.

(** * Registration *)

(** [enum ecs_register_type] with the pointer each carries. *)
Inductive ecs_register_desc : Type :=
| OVER_AND_OUT
| NAME (name : bytes)
| FUNC (func : F)
| REQUIRE (component : bytes)
| DISALLOW (component : bytes)
| DONE.

Definition is_over (d : ecs_register_desc) : bool := match d with OVER_AND_OUT => true | _ => false end.

Definition ecs_register_begin : list ecs_register_desc := [OVER_AND_OUT].

(** The entries of an array up to and with its terminator. *)
Fixpoint through_end (l : list ecs_register_desc) : list ecs_register_desc :=
  match l with
  | [] => []
  | d :: r => if is_over d then [d] else d :: through_end r
  end.

(** The first new entry overwrites the old terminator. *)
Definition ecs_register_concat (parray to_add : list ecs_register_desc) : list ecs_register_desc :=
  match to_add with
  | [] => parray
  | d :: _ => if is_over d then parray else removelast parray ++ through_end to_add
  end.

Definition ecs_register_extend (parray : list ecs_register_desc) (d : ecs_register_desc) : list ecs_register_desc :=
  removelast parray ++ [d; OVER_AND_OUT].
Definition ecs_register_name (p : list ecs_register_desc) (name : bytes) := ecs_register_extend p (NAME name).
Definition ecs_register_func (p : list ecs_register_desc) (func : F) := ecs_register_extend p (FUNC func).
Definition ecs_register_require (p : list ecs_register_desc) (c : bytes) := ecs_register_extend p (REQUIRE c).
Definition ecs_register_disallow (p : list ecs_register_desc) (c : bytes) := ecs_register_extend p (DISALLOW c).
Definition ecs_register_done (p : list ecs_register_desc) := ecs_register_extend p DONE.

(** The local variables of [ecs_register]; NULL is [None]. *)
Record reg_state : Type := Reg {
  r_name : option bytes; r_func : option F;
  r_required : option (list bytes); r_disallowed : option (list bytes) }.

Definition reg_empty : reg_state := Reg None None None None.

Definition is_null {A : Type} (o : option A) : bool := match o with None => true | Some _ => false end.

(** [tal_arr_expand] on an array that is created when NULL. *)
Definition expand (o : option (list bytes)) (c : bytes) : option (list bytes) := Some (default [] o ++ [c]).

(** [case ECS_REGISTER_TYPE_DONE] once [name] is known. *)
Definition register_done (s : ecs) (name : bytes) (r : reg_state) : outcome ecs :=
  let! sys := ecsys_register (ecs_ecsys s) name (r_required r) (r_disallowed r) in
  let funcs :=
    match r_func r with
    | None => system_funcs s
    | Some f => (strmap_add (system_funcs s) name (Wrapper name f (default [] (r_required r)))).2
    end in
  Ret (Ecs (ecs_ec s) sys funcs).

(** One round of the switch. *)
Definition register_step (s : ecs) (r : reg_state) (d : ecs_register_desc) : outcome (ecs * reg_state) :=
  match d with
  | NAME n =>
      let! _ := assert_ (is_null (r_name r)) "ecs_register: !name" in
      Ret (s, Reg (Some n) (r_func r) (r_required r) (r_disallowed r))
  | FUNC f =>
      let! _ := assert_ (is_null (r_func r)) "ecs_register: !func" in
      Ret (s, Reg (r_name r) (Some f) (r_required r) (r_disallowed r))
  | REQUIRE c =>
      let! _ := assert_ (negb (is_null (r_name r))) "ecs_register: name" in
      Ret (s, Reg (r_name r) (r_func r) (expand (r_required r) c) (r_disallowed r))
  | DISALLOW c =>
      let! _ := assert_ (negb (is_null (r_name r)) && negb (is_null (r_required r))) "ecs_register: name && required" in
      Ret (s, Reg (r_name r) (r_func r) (r_required r) (expand (r_disallowed r) c))
  | DONE =>
      match r_name r with
      | None => Abort "ecs_register: name"
      | Some n => let! s' := register_done s n r in Ret (s', reg_empty)
      end
  | OVER_AND_OUT => Abort "ecs_register: abort()"
  end.

Fixpoint register_loop (s : ecs) (r : reg_state) (l : list ecs_register_desc) : outcome (ecs * reg_state) :=
  match l with
  | [] => Abort "ecs_register: array without terminator"
  | d :: rest => if is_over d then Ret (s, r) else let! (s', r') := register_step s r d in register_loop s' r' rest
  end.

Definition ecs_register (s : ecs) (to_register : list ecs_register_desc) : outcome ecs :=
  let! (s', r) := register_loop s reg_empty to_register in
  let! _ := assert_ (is_null (r_name r)) "ecs_register: !name" in
  let! _ := assert_ (is_null (r_func r)) "ecs_register: !func" in
  let! _ := assert_ (is_null (r_required r)) "ecs_register: !required" in
  let! _ := assert_ (is_null (r_disallowed r)) "ecs_register: !disallowed" in
  Ret s'.
End Ecs.
Arguments ecs : clear implicits.
Arguments ecs_system_wrapper : clear implicits.
Arguments ecs_register_desc : clear implicits.
Arguments reg_state : clear implicits.

(** * What registration and dispatch do *)

Section Proofs.
Context {F : Type}.
Implicit Types (s : ecs F) (d : ecs_register_desc F).

(** * Invariant *)

Definition sysmap (s : ecs F) : gmap bytes ecsys_registered := strmap_to_map (ecs_ecsys s).
Definition funcmap (s : ecs F) : gmap bytes (ecs_system_wrapper F) := strmap_to_map (system_funcs s).

(** Every built-in function belongs to a registered system of that name and
    has that system's required components. *)
Record ecs_wf (s : ecs F) : Prop := {
  wf_ec : ec_wf (ecs_ec s);
  wf_ecsys : ecsys_wf (ecs_ecsys s);
  wf_funcs : strmap_wf (system_funcs s);
  wf_funcs_sys : forall n w, funcmap s !! n = Some w ->
    w_name w = n /\ exists r, sysmap s !! n = Some r /\ requiredComponents r = w_required w }.

Lemma ecs_wf_new : ecs_wf ecs_new.
Proof. split; [apply ec_wf_new|by split|done|]. intros n w Hw. unfold funcmap in Hw. by simplify_map_eq. Qed.

Lemma ecs_wf_with s e : ecs_wf s -> ec_wf e -> ecs_wf (with_ec s e).
Proof. intros [? ? ? ?] He. by split. Qed.

(** * Registration *)

(** A system to register. *)
Record sysdef : Type := Def {
  d_name : bytes; d_func : option F; d_required : list bytes; d_disallowed : list bytes }.

Definition desc_of (x : sysdef) : list (ecs_register_desc F) :=
  NAME (d_name x) :: match d_func x with Some f => [FUNC f] | None => [] end
  ++ map REQUIRE (d_required x) ++ map DISALLOW (d_disallowed x) ++ [DONE].

Definition def_ok (x : sysdef) : Prop :=
  no_nul (d_name x) /\ (d_required x = [] -> d_disallowed x = []).

Definition reg_of (x : sysdef) : ecsys_registered := Registered (d_name x) (d_required x) (d_disallowed x).

(** What one definition adds. *)
Definition add_sys (m : gmap bytes ecsys_registered) (x : sysdef) : gmap bytes ecsys_registered :=
  <[d_name x := reg_of x]> m.
Definition add_func (m : gmap bytes (ecs_system_wrapper F)) (x : sysdef) : gmap bytes (ecs_system_wrapper F) :=
  match d_func x with Some f => <[d_name x := Wrapper (d_name x) f (d_required x)]> m | None => m end.

Lemma loop_require s n f req dis cs rest :
  register_loop s (Reg (Some n) f req dis) (map REQUIRE cs ++ rest) =
  register_loop s (Reg (Some n) f (match cs with [] => req | _ => Some (default [] req ++ cs) end) dis) rest.
Proof.
  revert req. induction cs as [|c cs IH]; intros req; [done|]. cbn [map app register_loop is_over register_step r_name is_null negb assert_ obind r_func r_required r_disallowed].
  rewrite IH. unfold expand. destruct cs; simpl; [done|]. by rewrite <- app_assoc.
Qed.

Lemma loop_disallow s n f r req dis cs rest :
  req = Some r \/ cs = [] ->
  register_loop s (Reg (Some n) f req dis) (map DISALLOW cs ++ rest) =
  register_loop s (Reg (Some n) f req (match cs with [] => dis | _ => Some (default [] dis ++ cs) end)) rest.
Proof.
  revert dis. induction cs as [|c cs IH]; intros dis Hr; [done|]. destruct Hr as [->|]; [|done].
  cbn [map app register_loop is_over register_step r_name is_null negb andb assert_ obind r_func r_required r_disallowed].
  rewrite IH by auto. unfold expand. destruct cs; simpl; [done|]. by rewrite <- app_assoc.
Qed.

(** The loop over one definition reaches [DONE] with what it declares. *)
Lemma loop_def s x rest :
  def_ok x ->
  exists req dis, default [] req = d_required x /\ default [] dis = d_disallowed x /\
    register_loop s reg_empty (desc_of x ++ rest) =
      let! s' := register_done s (d_name x) (Reg (Some (d_name x)) (d_func x) req dis) in register_loop s' reg_empty rest.
Proof.
  intros [_ Hd]. destruct x as [n f req dis]; cbn [d_name d_func d_required d_disallowed] in *.
  exists (match req with [] => None | _ => Some ([] ++ req) end), (match dis with [] => None | _ => Some ([] ++ dis) end).
  split; [by destruct req|]. split; [by destruct dis|]. unfold desc_of. cbn [d_name d_func d_required d_disallowed].
  assert (E : register_loop s reg_empty ((NAME n :: match f with Some f => [FUNC f] | None => [] end ++ map REQUIRE req ++ map DISALLOW dis ++ [DONE]) ++ rest)
    = register_loop s (Reg (Some n) f None None) (map REQUIRE req ++ map DISALLOW dis ++ [DONE] ++ rest)).
  { destruct f; cbn [app]; rewrite <- !app_assoc; reflexivity. }
  rewrite E, loop_require. cbn [default].
  rewrite (loop_disallow s n f req) by (destruct req; [right; by apply Hd|by left]). cbn [default app].
  cbn [register_loop is_over register_step r_name]. by destruct (register_done _ _ _).
Qed.

Lemma done_step s x req dis :
  ecs_wf s -> def_ok x -> sysmap s !! d_name x = None ->
  default [] req = d_required x -> default [] dis = d_disallowed x ->
  exists s', register_done s (d_name x) (Reg (Some (d_name x)) (d_func x) req dis) = Ret s' /\ ecs_wf s' /\
    ecs_ec s' = ecs_ec s /\ sysmap s' = add_sys (sysmap s) x /\ funcmap s' = add_func (funcmap s) x.
Proof.
  intros Hw [Hn _] Hf Er Ed. unfold register_done. cbn [r_required r_disallowed r_func].
  destruct (wf_ecsys s Hw) as [Ws Hs]. destruct (register_fresh (ecs_ecsys s) (d_name x) req dis Ws Hn Hf) as (sys' & -> & W' & M').
  cbn [obind]. rewrite Er, Ed in *. fold (reg_of x) in M'.
  assert (HF : funcmap s !! d_name x = None).
  { destruct (funcmap s !! d_name x) as [w|] eqn:Ew; [|done]. destruct (wf_funcs_sys s Hw _ _ Ew) as (_ & r & Hr & _). congruence. }
  assert (HS' : ecsys_wf sys').
  { split; [done|]. rewrite M'. intros n r [[<- <-]|[_ Hr]]%lookup_insert_Some; [done|by apply Hs]. }
  eexists. split; [reflexivity|]. cbn [ecs_ec].
  destruct (d_func x) as [f|] eqn:Efn; unfold funcmap, sysmap, add_sys, add_func; cbn [system_funcs ecs_ecsys]; rewrite Efn.
  - destruct (strmap_add_fresh (system_funcs s) (d_name x) (Wrapper (d_name x) f (d_required x)) (wf_funcs s Hw) Hn HF) as (m' & -> & Wm & Mm).
    cbn [snd]. split_and!; try done. split; cbn [ecs_ec ecs_ecsys system_funcs]; [by apply wf_ec|done|done|].
    unfold funcmap, sysmap. cbn [ecs_ecsys system_funcs]. rewrite Mm, M'. intros n w [[<- <-]|[Hne Hl]]%lookup_insert_Some.
    + split; [done|]. exists (reg_of x). by rewrite lookup_insert_eq.
    + rewrite lookup_insert_ne by done. by apply (wf_funcs_sys s Hw).
  - split_and!; try done. split; cbn [ecs_ec ecs_ecsys system_funcs]; [by apply wf_ec|done|by apply wf_funcs|].
    unfold funcmap, sysmap. cbn [ecs_ecsys system_funcs]. rewrite M'. intros n w Hl.
    destruct (wf_funcs_sys s Hw _ _ Hl) as (? & r & Hr & ?). split; [done|]. exists r. split; [|done].
    rewrite lookup_insert_ne; [done|]. intros <-. unfold sysmap in *. congruence.
Qed.

Lemma register_defs_loop defs : forall s,
  ecs_wf s -> Forall def_ok defs -> NoDup (map d_name defs) -> (forall x, x ∈ defs -> sysmap s !! d_name x = None) ->
  exists s', register_loop s reg_empty (flat_map desc_of defs ++ [OVER_AND_OUT]) = Ret (s', reg_empty) /\ ecs_wf s' /\
    ecs_ec s' = ecs_ec s /\ sysmap s' = foldl add_sys (sysmap s) defs /\ funcmap s' = foldl add_func (funcmap s) defs.
Proof.
  induction defs as [|x defs IH]; intros s Hw Hok HN Hf; [by exists s|].
  apply Forall_cons in Hok as [Hx Hok]. cbn [map] in HN. apply NoDup_cons in HN as [Hnx HN].
  cbn [flat_map]. rewrite <- app_assoc. destruct (loop_def s x (flat_map desc_of defs ++ [OVER_AND_OUT]) Hx) as (req & dis & Er & Ed & ->).
  destruct (done_step s x req dis Hw Hx (Hf x ltac:(set_solver)) Er Ed) as (s1 & -> & Hw1 & Ee & Es & Ef). cbn [obind].
  destruct (IH s1 Hw1 Hok HN) as (s' & E' & Hw' & Ee' & Es' & Ef').
  - intros y Hy. rewrite Es. unfold add_sys. rewrite lookup_insert_ne; [by apply Hf; set_solver|].
    intros E. apply Hnx. rewrite E. by apply (list_elem_of_fmap_2' d_name _ y).
  - exists s'. cbn [foldl]. rewrite <- Es, <- Ef, <- Ee. done.
Qed.

(** Registering a list of definitions adds exactly them. *)
Lemma register_defs defs s :
  ecs_wf s -> Forall def_ok defs -> NoDup (map d_name defs) -> (forall x, x ∈ defs -> sysmap s !! d_name x = None) ->
  exists s', ecs_register s (flat_map desc_of defs ++ [OVER_AND_OUT]) = Ret s' /\ ecs_wf s' /\
    ecs_ec s' = ecs_ec s /\ sysmap s' = foldl add_sys (sysmap s) defs /\ funcmap s' = foldl add_func (funcmap s) defs.
Proof.
  intros Hw Hok HN Hf. destruct (register_defs_loop defs s Hw Hok HN Hf) as (s' & E & R).
  exists s'. unfold ecs_register. by rewrite E.
Qed.

(** A definition in the list is known afterwards. *)
Lemma added_kept defs : forall (m : gmap bytes ecsys_registered) n, is_Some (m !! n) -> is_Some (foldl add_sys m defs !! n).
Proof.
  induction defs as [|y l IH]; intros m n Hn; [done|]. cbn [foldl]. apply IH. unfold add_sys.
  destruct (decide (d_name y = n)) as [->|]; [rewrite lookup_insert_eq; eauto|by rewrite lookup_insert_ne].
Qed.

Lemma added_known defs : forall (m : gmap bytes ecsys_registered) x, x ∈ defs -> is_Some (foldl add_sys m defs !! d_name x).
Proof.
  induction defs as [|y l IH]; intros m x Hx; [by inv Hx|]. cbn [foldl].
  apply elem_of_cons in Hx as [->|Hx]; [|by apply IH]. apply added_kept. unfold add_sys. rewrite lookup_insert_eq. eauto.
Qed.

(** A system with disallowed but no required components stops the process. *)
Lemma register_disallow_alone s n c rest :
  ecs_register s (NAME n :: DISALLOW c :: rest) = Abort "ecs_register: name && required".
Proof. reflexivity. Qed.

(** * Arrays of descriptors *)

Lemma through_end_defs defs : through_end (flat_map desc_of defs ++ [OVER_AND_OUT]) = flat_map desc_of defs ++ [OVER_AND_OUT].
Proof.
  assert (H : forall l, Forall (fun d => is_over d = false) l -> through_end (l ++ [OVER_AND_OUT]) = l ++ [OVER_AND_OUT]).
  { induction 1 as [|d l Hd _ IH]; [done|]. cbn [app through_end]. by rewrite Hd, IH. }
  apply H. induction defs as [|x defs IH]; [done|]. cbn [flat_map]. apply Forall_app. split; [|done].
  unfold desc_of. constructor; [done|]. rewrite !Forall_app. split_and!.
  - destruct (d_func x); [by repeat constructor|done].
  - apply Forall_fmap, Forall_true. done.
  - apply Forall_fmap, Forall_true. done.
  - by repeat constructor.
Qed.

(** Concatenation of arrays is concatenation of their definitions. *)
Lemma concat_defs a b :
  ecs_register_concat (flat_map desc_of a ++ [OVER_AND_OUT]) (flat_map desc_of b ++ [OVER_AND_OUT])
  = flat_map desc_of (a ++ b) ++ [OVER_AND_OUT].
Proof.
  unfold ecs_register_concat. rewrite flat_map_app, <- app_assoc.
  destruct b as [|x b]; [done|]. cbn [flat_map app desc_of is_over].
  rewrite removelast_last. f_equal. exact (through_end_defs (x :: b)).
Qed.

Lemma extend_app l d : ecs_register_extend (l ++ [OVER_AND_OUT]) d = (l ++ [d]) ++ [OVER_AND_OUT].
Proof. unfold ecs_register_extend. rewrite removelast_last. by rewrite <- app_assoc. Qed.

Lemma extend_all (f : bytes -> ecs_register_desc F) cs : forall l,
  foldl (fun p c => ecs_register_extend p (f c)) (l ++ [OVER_AND_OUT]) cs = (l ++ map f cs) ++ [OVER_AND_OUT].
Proof.
  induction cs as [|c cs IH]; intros l; cbn [foldl map]; [by rewrite app_nil_r|].
  rewrite extend_app, IH. by rewrite <- !app_assoc.
Qed.
End Proofs.
Arguments sysdef : clear implicits.
