(* ===== verification/Systems.v ===== *)
(** plugins/payz/systems: the built-in systems.

    [sysfn] names the functions; [system_call] is the call through the pointer.
    What a system takes from outside the program is in [env]: the random bytes
    of sodium, the [max-locktime-blocks] read from lightningd at start-up, the
    next request id. *)
From S2P Require Import Prelude Utf8 Jsmn JsonTree JsmnProofs Json JsonProofs JsonEqual JsonOut JsonOutProofs JsonScan.
From S2P Require Import JsonScanProofs Libplugin Strmap Intmap Ec EcProofs Setsystems Ecsys EcsysProofs Ecs.


Inductive sysfn : Type :=
| generate_nonce_fn | parse_invoice_fn | promote_invoice_type_fn
| invoice_amount_msat_fn | fail_invoice_amount_and_amount_fn
| defaulter_riskfactor_fn | defaulter_maxfeepercent_fn | defaulter_retry_for_fn
| defaulter_maxdelay_fn | defaulter_exemptfee_fn.

Record env : Type := Env {
  random32 : bytes;                  (* randombytes_buf(nonce, 32) *)
  default_maxdelay : option bytes;   (* NULL before init *)
  next_outreq_id : Z }.

Abbreviation pecs := (ecs sysfn).

(** * systems/nonce.c *)

Module Nonce.

Definition system_nonce : list (ecs_register_desc sysfn) :=
  [NAME (bs "lightningd:generate_nonce"); FUNC generate_nonce_fn;
   REQUIRE (bs "lightningd:systems"); DISALLOW (bs "lightningd:nonce"); DONE; OVER_AND_OUT].

Definition generate_nonce (v : env) (s : pecs) (entity : Z) : outcome (pecs * list event) :=
  let nonce_hex := hex_encode (random32 v) in
  let! s := ecs_set_component_datum s entity (bs "lightningd:nonce") (Some (quoted nonce_hex)) in
  ecs_advance_done s entity.

End Nonce.

(** * systems/invoice_amount.c *)

Module InvoiceAmount.

Definition system_invoice_amount : list (ecs_register_desc sysfn) :=
  [NAME (bs "lightningd:invoice_amount_msat"); FUNC invoice_amount_msat_fn;
   REQUIRE (bs "lightningd:invoice:amount_msat"); DISALLOW (bs "lightningd:amount"); DONE;
   NAME (bs "lightningd:fail_invoice_amount_and_amount"); FUNC fail_invoice_amount_and_amount_fn;
   REQUIRE (bs "lightningd:invoice:amount_msat"); REQUIRE (bs "lightningd:amount"); DONE;
   OVER_AND_OUT].

Definition invoice_amount_msat (s : pecs) (entity : Z) (buffer : bytes) (components : list jsmntok)
  : outcome (pecs * list event) :=
  let amount_msat := json_get_member buffer components (bs "lightningd:invoice:amount_msat") in
  let! s := ecs_set_component_datum s entity (bs "lightningd:invoice:amount_msat") None in
  let! s := ecs_set_component s entity (bs "lightningd:amount") (Some buffer) amount_msat in
  ecs_advance_done s entity.

(** The error object the system attaches. *)
Definition amount_error : json_out :=
  let js := json_object_start new_json_stream None in
  let js := json_add_errcode js (Some (bs "code")) JSONRPC2_INVALID_PARAMS in
  let js := json_add_string js (Some (bs "message")) (bs "msatoshi parameter unnecessary") in
  json_object_end js.

Definition fail_invoice_amount_and_amount (s : pecs) (entity : Z) : outcome (pecs * list event) :=
  let! s := ecs_set_component_datuml s entity (bs "lightningd:error") (json_out_contents amount_error) in
  let! s := ecs_set_component_datum s entity (bs "lightningd:systems") None in
  ecs_done s.

End InvoiceAmount.

(** * systems/parse_invoice.c *)

Module ParseInvoice.

Definition system_parse_invoice : list (ecs_register_desc sysfn) :=
  [NAME (bs "lightningd:parse_invoice"); FUNC parse_invoice_fn;
   REQUIRE (bs "lightningd:invoice"); DISALLOW (bs "lightningd:parse_invoice:ran"); DONE;
   NAME (bs "lightningd:promote_invoice_type"); FUNC promote_invoice_type_fn;
   REQUIRE (bs "lightningd:invoice:type"); DISALLOW (bs "lightningd:promote_invoice_type:ran"); DONE;
   OVER_AND_OUT].

(** Sends a [decode] request; its reply goes to one of the two functions below. *)
Definition parse_invoice (v : env) (s : pecs) (entity : Z) (buffer : bytes) (eo : list jsmntok)
  : outcome (pecs * list event) :=
  let invoice := json_get_member buffer eo (bs "lightningd:invoice") in
  let! s := ecs_set_component_datum s entity (bs "lightningd:parse_invoice:ran") (Some (bs "true")) in
  let js := jsonrpc_request_start (next_outreq_id v) (bs "decode") in
  match invoice with
  | None => Abort "parse_invoice: NULL invoice"
  | Some t =>
      let! js := json_add_tok js (Some (bs "string")) t buffer in
      let! ev := send_outreq (next_outreq_id v) entity js in
      Ret (s, [ev])
  end.

(** One field of the decoded invoice becomes one component. *)
Definition set_invoice_field (entity : Z) (buf : bytes) (s : pecs) (key : list jsmntok) : outcome pecs :=
  let key_string := bs "lightningd:invoice:" ++ until_nul (tok_text buf (cur key)) in
  ecs_set_component s entity key_string (Some buf) (Some (tl key)).

Definition parse_invoice_decode_ok (s : pecs) (entity : Z) (buf : bytes) (res : list jsmntok)
  : outcome (pecs * list event) :=
  let! s := ofold (set_invoice_field entity buf) s (json_for_each_obj res) in
  ecs_advance_done s entity.

Definition parse_invoice_decode_ng (s : pecs) (entity : Z) (buf : bytes) (res : list jsmntok)
  : outcome (pecs * list event) :=
  let! s := ecs_set_component s entity (bs "lightningd:error") (Some buf) (Some res) in
  let! s := ecs_set_component s entity (bs "lightningd:systems") None None in
  ecs_done s.

Definition promote_invoice_type (s : pecs) (entity : Z) (buffer : bytes) (eo : list jsmntok)
  : outcome (pecs * list event) :=
  match json_get_member buffer eo (bs "lightningd:invoice:type") with
  | None => Abort "promote_invoice_type: NULL type"
  | Some type_tok =>
      let type := json_strdup buffer type_tok in
      let! s := ecs_set_component_datum s entity (bs "lightningd:invoice:type:" ++ type) (Some (bs "true")) in
      ecs_advance_done s entity
  end.

End ParseInvoice.

(** * systems/defaulter.c *)

Module Defaulter.

Definition default_riskfactor : bytes := bs "10".
Definition default_maxfeepercent : bytes := bs "0.5".
Definition default_retry_for : bytes := bs "60".
Definition default_exemptfee : bytes := quoted (bs "5000msat").

Definition defaulter_desc (name : bytes) (f : sysfn) (disallow : bytes) : list (ecs_register_desc sysfn) :=
  [NAME name; FUNC f; REQUIRE (bs "lightningd:main-payment"); DISALLOW disallow; DONE].

Definition system_defaulter : list (ecs_register_desc sysfn) :=
  defaulter_desc (bs "lightningd:default_riskfactor") defaulter_riskfactor_fn (bs "lightningd:riskfactor")
  ++ defaulter_desc (bs "lightningd:default_maxfeepercent") defaulter_maxfeepercent_fn (bs "lightningd:maxfeepercent")
  ++ defaulter_desc (bs "lightningd:default_retry_for") defaulter_retry_for_fn (bs "lightningd:retry_for")
  ++ defaulter_desc (bs "lightningd:default_maxdelay") defaulter_maxdelay_fn (bs "lightningd:maxdelay")
  ++ defaulter_desc (bs "lightningd:default_exemptfee") defaulter_exemptfee_fn (bs "lightningd:exemptfee")
  ++ [OVER_AND_OUT].

(** The common body: attach the datum, advance. *)
Definition set_default (s : pecs) (entity : Z) (component datum : bytes) : outcome (pecs * list event) :=
  let! s := ecs_set_component_datum s entity component (Some datum) in
  ecs_advance_done s entity.

Definition defaulter_riskfactor (s : pecs) (entity : Z) := set_default s entity (bs "lightningd:riskfactor") default_riskfactor.
Definition defaulter_maxfeepercent (s : pecs) (entity : Z) :=
  set_default s entity (bs "lightningd:maxfeepercent") default_maxfeepercent.
Definition defaulter_retry_for (s : pecs) (entity : Z) := set_default s entity (bs "lightningd:retry_for") default_retry_for.
Definition defaulter_exemptfee (s : pecs) (entity : Z) := set_default s entity (bs "lightningd:exemptfee") default_exemptfee.
Definition defaulter_maxdelay (v : env) (s : pecs) (entity : Z) : outcome (pecs * list event) :=
  match default_maxdelay v with
  | None => Abort "defaulter_maxdelay: default_maxdelay"
  | Some d => set_default s entity (bs "lightningd:maxdelay") d
  end.

(** [system_defaulter_init]: the reply of [listconfigs] to the variable. *)
Definition system_defaulter_init (buffer : bytes) (contents : list jsmntok) : outcome bytes :=
  let! r := json_scan buffer contents (bs "{max-locktime-blocks:%}") [str_arg] in
  match r with inr [d] => Ret d | _ => Abort "rpc_scan: plugin_err" end.

End Defaulter.

(** * The call through a function pointer *)

Definition system_call (v : env) (f : sysfn) (s : pecs) (entity : Z) (buffer : bytes) (eo : list jsmntok)
  : outcome (pecs * list event) :=
  match f with
  | generate_nonce_fn => Nonce.generate_nonce v s entity
  | parse_invoice_fn => ParseInvoice.parse_invoice v s entity buffer eo
  | promote_invoice_type_fn => ParseInvoice.promote_invoice_type s entity buffer eo
  | invoice_amount_msat_fn => InvoiceAmount.invoice_amount_msat s entity buffer eo
  | fail_invoice_amount_and_amount_fn => InvoiceAmount.fail_invoice_amount_and_amount s entity
  | defaulter_riskfactor_fn => Defaulter.defaulter_riskfactor s entity
  | defaulter_maxfeepercent_fn => Defaulter.defaulter_maxfeepercent s entity
  | defaulter_retry_for_fn => Defaulter.defaulter_retry_for s entity
  | defaulter_maxdelay_fn => Defaulter.defaulter_maxdelay v s entity
  | defaulter_exemptfee_fn => Defaulter.defaulter_exemptfee s entity
  end.

(** * What the systems do

    The built-in systems: what each one attaches and detaches, that each one
    hands over to the next advance, and which of them disable themselves. *)

(** * Operations of the ecs layer *)

Lemma ec_inv (e : ec) : ec_wf e -> einv e.
Proof. done. Qed.

Section Layer.
Context {F : Type}.
Implicit Types (s : ecs F).

Definition same_systems (s s' : ecs F) : Prop :=
  ecs_ecsys s' = ecs_ecsys s /\ system_funcs s' = system_funcs s.

(** [s'] is [s] with one component changed to what [g] says. *)
Definition updated (s s' : ecs F) (k : Z) (n : bytes) (g : bool * (bytes * list jsmntok)) : Prop :=
  ecs_wf s' /\ same_systems s s' /\
  forall k' n', ecs_get_component s' k' n' = if decide ((k', n') = (k, n)) then g else ecs_get_component s k' n'.

Lemma ecs_set_holds s k n b t v :
  ecs_wf s -> is_u32 k -> no_nul n -> holds b t v ->
  exists s', ecs_set_component s k n (Some b) (Some t) = Ret s' /\ updated s s' k n (got v).
Proof.
  intros Hw Hk Hn Hh. unfold ecs_set_component.
  destruct (law_set (ecs_ec s) k n b t v (ec_inv _ (wf_ec s Hw)) Hk Hn Hh) as (e' & E & We & Hg). simpl in E. rewrite E.
  exists (with_ec s e'). split; [done|]. split; [by apply ecs_wf_with|]. split; [done|]. exact Hg.
Qed.

Lemma ecs_clear s k n :
  ecs_wf s -> exists s', ecs_set_component s k n None None = Ret s' /\ updated s s' k n got_none.
Proof.
  intros Hw. unfold ecs_set_component.
  destruct (law_clear (ecs_ec s) k n (ec_inv _ (wf_ec s Hw))) as (e' & E & We & Hg). simpl in E. rewrite E.
  exists (with_ec s e'). split; [done|]. split; [by apply ecs_wf_with|]. split; [done|]. exact Hg.
Qed.

Lemma ecs_datum_null s k n : ecs_set_component_datum s k n None = ecs_set_component s k n None None.
Proof. reflexivity. Qed.

Lemma ecs_datum s k n v :
  ecs_wf s -> is_u32 k -> no_nul n -> jv_ok v = true ->
  exists s', ecs_set_component_datum s k n (Some (text v)) = Ret s' /\ updated s s' k n (got v).
Proof.
  intros Hw Hk Hn Hv. unfold ecs_set_component_datum, ec_set_component_datum, ec_set_component_datuml.
  rewrite parse_printed by done. apply (ecs_set_holds s k n (text v) (toks 0 v ++ [end_tok]) v Hw Hk Hn).
  exists [], [], [end_tok]. by rewrite app_nil_r.
Qed.

(** Advancing changes nothing but the systems component. *)
Lemma ecs_advance_done_returns s k :
  ecs_wf s -> is_u32 k ->
  exists s' ev, ecs_advance_done s k = Ret (s', [ev]) /\ ecs_wf s' /\ same_systems s s' /\
    forall k' n', (k', n') <> (k, syscomp) -> ecs_get_component s' k' n' = ecs_get_component s k' n'.
Proof.
  intros Hw Hk. unfold ecs_advance_done.
  destruct (advance_done_spec (ecs_ec s) (ecs_ecsys s) k (ec_inv _ (wf_ec s Hw)) (wf_ecsys s Hw) Hk) as (e' & ev & -> & We & Hfr & _).
  exists (with_ec s e'), ev. split_and!; [done|by apply ecs_wf_with|done|exact Hfr].
Qed.

(** Does a system match an entity? *)
Definition matches (s : ecs F) (k : Z) (r : ecsys_registered) : bool := system_matches (ecs_ec s) k r.

Lemma disallowed_no_match s k r c :
  c ∈ disallowedComponents r -> (ecs_get_component s k c).1 = true -> matches s k r = false.
Proof.
  intros Hc Ha. destruct (matches s k r) eqn:E; [|done]. apply (system_matches_iff (ecs_ec s) k r) in E as (_ & _ & Hd).
  specialize (Hd c Hc). unfold attached in Hd. simpl in Hd. unfold ecs_get_component in Ha. congruence.
Qed.
End Layer.

(** * The common shape: attach, then advance *)

Lemma attach_then_advance (s : pecs) k n v :
  ecs_wf s -> is_u32 k -> no_nul n -> jv_ok v = true -> n <> syscomp ->
  exists s' ev, (let! s1 := ecs_set_component_datum s k n (Some (text v)) in ecs_advance_done s1 k) = Ret (s', [ev]) /\
    ecs_wf s' /\ same_systems s s' /\ ecs_get_component s' k n = got v /\
    forall k' n', (k', n') <> (k, syscomp) -> (k', n') <> (k, n) -> ecs_get_component s' k' n' = ecs_get_component s k' n'.
Proof.
  intros Hw Hk Hn Hv Hne. destruct (ecs_datum s k n v Hw Hk Hn Hv) as (s1 & -> & W1 & S1 & G1). cbn [obind].
  destruct (ecs_advance_done_returns s1 k W1 Hk) as (s' & ev & E & W' & S' & G'). exists s', ev.
  split_and!; [done|done|destruct S1, S'; split; congruence| |].
  - rewrite G' by congruence. rewrite G1. by rewrite decide_True.
  - intros k' n' H1 H2. rewrite G' by done. rewrite G1. by rewrite decide_False.
Qed.

(** * Hex *)

Lemma hexchar_plain d : (0 <= d < 16)%Z ->
  is_ascii (hexchar d) = true /\ escape_char (hexchar d) = false /\ ch_eqb (hexchar d) NUL = false.
Proof.
  intros H. assert (d = 0 \/ d = 1 \/ d = 2 \/ d = 3 \/ d = 4 \/ d = 5 \/ d = 6 \/ d = 7 \/ d = 8 \/ d = 9 \/
    d = 10 \/ d = 11 \/ d = 12 \/ d = 13 \/ d = 14 \/ d = 15)%Z as E by lia.
  repeat destruct E as [->|E]; try done. by subst.
Qed.

Lemma hex_encode_plain b : forallb is_ascii (hex_encode b) = true /\ json_escape_needed (hex_encode b) = false.
Proof.
  unfold json_escape_needed. induction b as [|c b [IH1 IH2]]; [done|].
  pose proof (code_range c). cbn [hex_encode flat_map app forallb existsb].
  fold (hex_encode b).
  destruct (hexchar_plain (code c / 16)) as (-> & -> & _); [split; [apply Z.div_pos; lia|apply Z.div_lt_upper_bound; lia]|].
  destruct (hexchar_plain (code c mod 16)) as (-> & -> & _); [apply Z.mod_pos_bound; lia|]. by rewrite IH1, IH2.
Qed.

Lemma hex_encode_ok b : str_ok (hex_encode b) = true.
Proof.
  destruct (hex_encode_plain b) as [Ha Hp]. rewrite <- (escape_plain _ Hp). apply cstr_printed. by apply cstr_ascii.
Qed.

(** Two hex digits per byte, and the bytes come back. *)
Lemma hex_encode_length b : length (hex_encode b) = 2 * length b.
Proof. induction b as [|c b IH]; [done|]. cbn [hex_encode flat_map app length]. fold (hex_encode b). lia. Qed.

(** * Fields of a decoded invoice *)

Import ParseInvoice.

Definition invoice_component (f : bytes) : bytes := bs "lightningd:invoice:" ++ f.

Lemma invoice_component_no_nul f : no_nul f -> no_nul (invoice_component f).
Proof. intros Hf. apply Forall_app. split; [|done]. by apply no_nul_true. Qed.

(** What the loop leaves: the last member with a name wins, null detaches. *)
Fixpoint attach_all (g : bytes -> bool * (bytes * list jsmntok)) (ms : list jmember) : bytes -> bool * (bytes * list jsmntok) :=
  match ms with
  | [] => g
  | m :: r => attach_all (fun n => if decide (n = invoice_component (m_key m)) then got (m_val m) else g n) r
  end.

Lemma attach_all_ext g g' ms n : (forall n, g n = g' n) -> attach_all g ms n = attach_all g' ms n.
Proof.
  revert g g'. induction ms as [|m r IH]; intros g g' Hg; simpl; [done|]. apply IH. intros n'. by case_decide.
Qed.

Lemma invoice_fields_loop buf k keys ms : forall (s : pecs),
  ecs_wf s -> is_u32 k -> Forall2 (holds_member buf) keys ms ->
  exists s', ofold (set_invoice_field k buf) s keys = Ret s' /\ ecs_wf s' /\ same_systems s s' /\
    (forall n, ecs_get_component s' k n = attach_all (ecs_get_component s k) ms n) /\
    (forall k' n, k' <> k -> ecs_get_component s' k' n = ecs_get_component s k' n).
Proof.
  intros s Hw Hk HF. revert s Hw. induction HF as [|key m keys ms Hm _ IH]; intros s Hw.
  - by exists s.
  - cbn [ofold]. unfold set_invoice_field at 1. destruct Hm as (_ & _ & Hkey & _ & Hs & Hv).
    pose proof (str_ok_no_nul _ Hs) as Hn. rewrite Hkey, until_nul_id by done. fold (invoice_component (m_key m)).
    destruct (ecs_set_holds s k (invoice_component (m_key m)) buf (tl key) (m_val m) Hw Hk (invoice_component_no_nul _ Hn) Hv)
      as (s1 & -> & W1 & S1 & G1). cbn [obind].
    destruct (IH s1 W1) as (s' & E & W' & S' & G' & G2). exists s'. split_and!; [done|done|destruct S1, S'; split; congruence| |].
    + intros n. rewrite G'. simpl. apply attach_all_ext. intros n'. rewrite G1.
      destruct (decide (n' = invoice_component (m_key m))) as [->|Hne]; [by rewrite decide_True|].
      by rewrite decide_False by congruence.
    + intros k' n Hne. rewrite G2 by done. rewrite G1. by rewrite decide_False by congruence.
Qed.
