(* ===== verification/Param.v ===== *)
(** common/param.c and common/json_tok.c: the parameters of a command.

    A parameter's callback stores a value or fails the command with a message;
    every failure of [param] has the code JSONRPC2_INVALID_PARAMS, so that a
    failure is its message. *)
From S2P Require Import Prelude Utf8 Jsmn JsonTree JsmnProofs Json JsonProofs JsonEqual JsonOut JsonOutProofs.
From S2P Require Import Libplugin.

Section Param.
Context {V : Type}.

(** [param_cbx]: name, buffer, token; an error message, or the value. *)
Definition param_cbx : Type := bytes -> bytes -> list jsmntok -> bytes + V.

(** [struct param]; [p_arg] is what the argument pointer holds, NULL at first. *)
Record param : Type := MkParam {
  p_name : bytes; p_is_set : bool; p_required : bool; p_cbx : param_cbx; p_arg : option V }.

Definition p_req (name : bytes) (cbx : param_cbx) : param := MkParam name false true cbx None.
Definition p_opt (name : bytes) (cbx : param_cbx) : param := MkParam name false false cbx None.

Definition make_callback (def : param) (buffer : bytes) (tok : list jsmntok) : bytes + param :=
  match p_cbx def (p_name def) buffer tok with
  | inl msg => inl msg
  | inr v => inr (MkParam (p_name def) true (p_required def) (p_cbx def) (Some v))
  end.

(** Required parameters come first: the check stops at the first optional one. *)
Fixpoint post_check (params : list param) : option bytes :=
  match params with
  | p :: r =>
      if p_required p then
        if p_is_set p then post_check r else Some (bs "missing required parameter: " ++ p_name p)
      else None
  | [] => None
  end.

Definition checked (params : list param) : bytes + list param :=
  match post_check params with Some msg => inl msg | None => inr params end.

(** The array loop: [i] tokens were seen. *)
Fixpoint position_loop (buffer : bytes) (size : Z) (allow_extra : bool) (i : nat) (params : list param)
    (toks : list (list jsmntok)) : bytes + list param :=
  match toks with
  | [] => inr params
  | tok :: r =>
      if (i =? length params) then
        if allow_extra then inr params
        else inl (bs "too many parameters: got " ++ fmt_u size ++ bs ", expected " ++ fmt_u (Z.of_nat (length params)))
      else if json_tok_is_null buffer tok then position_loop buffer size allow_extra (S i) params r
      else
        match params !! i with
        | None => inr params
        | Some p =>
            match make_callback p buffer tok with
            | inl msg => inl msg
            | inr p' => position_loop buffer size allow_extra (S i) (<[i := p']> params) r
            end
        end
  end.

Definition parse_by_position (params : list param) (buffer : bytes) (tokens : list jsmntok) (allow_extra : bool)
  : bytes + list param :=
  match position_loop buffer (tsize (cur tokens)) allow_extra 0 params (json_for_each_arr tokens) with
  | inl msg => inl msg
  | inr params' => checked params'
  end.

(** [find_param]: the index of the parameter with that name. *)
Fixpoint find_param (params : list param) (name : bytes) : option nat :=
  match params with
  | [] => None
  | p :: r => if streq (p_name p) name then Some 0 else option_map S (find_param r name)
  end.

Definition unknown_msg (name : bytes) : bytes :=
  bs "unknown parameter: " ++ name ++ bs (String.append
    ", this may be caused by a failure to autodetect key=value-style parameters. "
    "Please try using the -k flag and explicit key=value pairs of parameters.").

Fixpoint name_loop (buffer : bytes) (allow_extra : bool) (params : list param) (keys : list (list jsmntok))
  : bytes + list param :=
  match keys with
  | [] => inr params
  | t :: r =>
      let name := tok_text buffer (cur t) in
      match find_param params name with
      | None => if allow_extra then name_loop buffer allow_extra params r else inl (unknown_msg (until_nul name))
      | Some i =>
          match params !! i with
          | None => inr params
          | Some p =>
              if p_is_set p then inl (bs "duplicate json names: " ++ p_name p)
              else
                match make_callback p buffer (tl t) with
                | inl msg => inl msg
                | inr p' => name_loop buffer allow_extra (<[i := p']> params) r
                end
          end
      end
  end.

Definition parse_by_name (params : list param) (buffer : bytes) (tokens : list jsmntok) (allow_extra : bool)
  : bytes + list param :=
  match name_loop buffer allow_extra params (json_for_each_obj tokens) with
  | inl msg => inl msg
  | inr params' => checked params'
  end.

Definition param_arr (buffer : bytes) (tokens : list jsmntok) (params : list param) (allow_extra : bool)
  : bytes + list param :=
  match ttype (cur tokens) with
  | JSMN_ARRAY => parse_by_position params buffer tokens allow_extra
  | JSMN_OBJECT => parse_by_name params buffer tokens allow_extra
  | _ => inl (bs "Expected array or object for params")
  end.

(** [param]: the message of the failure, or what the argument pointers hold,
    in the order of the list.  (The command is not run for its usage.) *)
Definition param_ (buffer : bytes) (tokens : list jsmntok) (params : list param) : bytes + list (option V) :=
  match param_arr buffer tokens params false with
  | inl msg => inl msg
  | inr params' => inr (map p_arg params')
  end.

(** [param_usage]: what the command reports at registration. *)
Fixpoint param_usage (params : list param) : bytes :=
  let one p := if p_required p then p_name p else bs "[" ++ p_name p ++ bs "]" in
  match params with
  | [] => []
  | [p] => one p
  | p :: r => one p ++ bs " " ++ param_usage r
  end.
End Param.
Arguments param : clear implicits.
Arguments param_cbx : clear implicits.

(** * Callbacks *)

(** The values the plugin's commands take. *)
Inductive pval : Type :=
| PString (s : bytes)
| PNumber (n : Z)
| PStrings (l : list bytes).

Definition param_array (name buffer : bytes) (tok : list jsmntok) : bytes + list jsmntok :=
  match ttype (cur tok) with
  | JSMN_ARRAY => inr tok
  | _ => inl (badparam_msg name buffer tok (bs "should be an array"))
  end.

Definition param_string (name buffer : bytes) (tok : list jsmntok) : bytes + bytes :=
  inr (until_nul (tok_text buffer (cur tok))).

Definition param_number (name buffer : bytes) (tok : list jsmntok) : bytes + Z :=
  match json_to_number buffer tok with
  | Some n => inr n
  | None => inl (badparam_msg name buffer tok (bs "should be an integer"))
  end.

(** plugins/payz/parsing.c *)
Definition param_array_of_strings (name buffer : bytes) (tok : list jsmntok) : bytes + list bytes :=
  match json_to_array_of_strings buffer tok with
  | Some l => inr l
  | None => inl (badparam_msg name buffer tok (bs "should be an array of strings."))
  end.

(** A callback whose value is one kind of a larger type. *)
Definition into {A V : Type} (inj : A -> V) (cbx : bytes -> bytes -> list jsmntok -> bytes + A) : param_cbx V :=
  fun name buffer tok => match cbx name buffer tok with inl m => inl m | inr a => inr (inj a) end.

(** * What a command is given

    What [param] hands to a command: every argument comes from a callback that
    accepted a token of the parameters, and the required ones are there. *)

Section ParamProofs.
Context {V : Type}.
Implicit Types (ps : list (param V)).

(** A parameter as declared, and what parsing made of it. *)
Definition param_done (buf : bytes) (p0 p : param V) : Prop :=
  p_name p = p_name p0 /\ p_required p = p_required p0 /\ p_cbx p = p_cbx p0 /\
  (p_is_set p = true <-> is_Some (p_arg p)) /\
  forall x, p_arg p = Some x -> exists t u, holds buf t u /\ p_cbx p0 (p_name p0) buf t = inr x.

Definition fresh (p : param V) : Prop := p_is_set p = false /\ p_arg p = None.

Lemma fresh_done buf p : fresh p -> param_done buf p p.
Proof. intros [H1 H2]. split_and!; try done; rewrite H1 || idtac; rewrite ?H2; [split; [done|by intros []]|done]. Qed.

Lemma callback_done buf p0 p t u p' :
  param_done buf p0 p -> holds buf t u -> make_callback p buf t = inr p' -> param_done buf p0 p'.
Proof.
  intros (Hn & Hr & Hc & _ & _) Ht. unfold make_callback. destruct (p_cbx p (p_name p) buf t) as [m|x] eqn:E; [done|].
  intros [= <-]. cbn. split; [done|]. split; [done|]. split; [done|]. split; [split; eauto|].
  intros y [= <-]. exists t, u. rewrite <- Hc, <- Hn. by split.
Qed.

Lemma done_insert buf ps0 ps i p p' :
  Forall2 (param_done buf) ps0 ps -> ps !! i = Some p -> (forall p0, param_done buf p0 p -> param_done buf p0 p') ->
  Forall2 (param_done buf) ps0 (<[i := p']> ps).
Proof.
  intros HF Hi HP. apply Forall2_same_length_lookup_2; [by rewrite length_insert, (Forall2_length _ _ _ HF)|].
  intros j a b Ha Hb. destruct (decide (i = j)) as [<-|Hne].
  - rewrite list_lookup_insert_eq in Hb by (by eapply lookup_lt_Some). injection Hb as <-. apply HP. by eapply Forall2_lookup_lr.
  - rewrite list_lookup_insert_ne in Hb by done. by eapply Forall2_lookup_lr.
Qed.

Lemma position_loop_done buf sz ae ts us : Forall2 (holds buf) ts us -> forall i ps0 ps ps',
  Forall2 (param_done buf) ps0 ps -> position_loop buf sz ae i ps ts = inr ps' -> Forall2 (param_done buf) ps0 ps'.
Proof.
  induction 1 as [|t u ts us Ht _ IH]; intros i ps0 ps ps' HF; cbn [position_loop]; [by intros [= <-]|].
  repeat case_match; try done; try (intros [= <-]; done).
  - by apply IH.
  - intros HL. refine (IH _ _ _ _ _ HL). eapply done_insert; [done..|]. intros q Hq. by eapply callback_done.
Qed.

Lemma name_loop_done buf ae ks ms : Forall2 (holds_member buf) ks ms -> forall ps0 ps ps',
  Forall2 (param_done buf) ps0 ps -> name_loop buf ae ps ks = inr ps' -> Forall2 (param_done buf) ps0 ps'.
Proof.
  induction 1 as [|t m ts ms Ht _ IH]; intros ps0 ps ps' HF; cbn [name_loop]; [by intros [= <-]|].
  repeat case_match; try done; try (intros [= <-]; done).
  - intros HL. refine (IH _ _ _ _ HL). eapply done_insert; [done..|]. intros q Hq.
    destruct Ht as (_ & _ & _ & _ & _ & Hh). by eapply callback_done.
  - by apply IH.
Qed.

Lemma post_check_set ps : post_check ps = None -> forall i p,
  ps !! i = Some p -> (forall j q, j <= i -> ps !! j = Some q -> p_required q = true) -> p_is_set p = true.
Proof.
  induction ps as [|q ps IH]; intros HC i p Hi Hreq; [done|]. cbn [post_check] in HC.
  pose proof (Hreq 0 q ltac:(lia) eq_refl) as Hq. rewrite Hq in HC. destruct (p_is_set q) eqn:Es; [|done].
  destruct i as [|i]; [simpl in Hi; by simplify_eq|]. apply (IH HC i p Hi). intros j r Hj Hr. by apply (Hreq (S j) r ltac:(lia)).
Qed.

(** The arguments, in the order of the declarations. *)
Lemma param_args buf tk v ps args :
  holds buf tk v -> Forall fresh ps -> param_ buf tk ps = inr args ->
  length args = length ps /\
  (forall i x, args !! i = Some (Some x) -> exists p t u, ps !! i = Some p /\ holds buf t u /\ p_cbx p (p_name p) buf t = inr x) /\
  (forall i, i < length ps -> (forall j q, j <= i -> ps !! j = Some q -> p_required q = true) -> exists x, args !! i = Some (Some x)).
Proof.
  intros Hh Hf. unfold param_, param_arr.
  assert (HD : Forall2 (param_done buf) ps ps) by (apply Forall_Forall2_diag; eapply Forall_impl; [done|apply fresh_done]).
  assert (HL : forall ps', checked ps' = inr ps' -> Forall2 (param_done buf) ps ps' -> length (map p_arg ps') = length ps /\
    (forall i x, map p_arg ps' !! i = Some (Some x) -> exists p t u, ps !! i = Some p /\ holds buf t u /\ p_cbx p (p_name p) buf t = inr x) /\
    (forall i, i < length ps -> (forall j q, j <= i -> ps !! j = Some q -> p_required q = true) -> exists x, map p_arg ps' !! i = Some (Some x))).
  { intros ps' HC HF. split_and!.
    - by rewrite length_map, (Forall2_length _ _ _ HF).
    - intros i x Hx. apply list_lookup_fmap_Some in Hx as (p' & Hx & Hp'). destruct (Forall2_lookup_r _ _ _ _ _ HF Hp') as (p & Hp & Hd).
      destruct Hd as (_ & _ & _ & _ & Hd). destruct (Hd x ltac:(done)) as (t & u & Ht & Hc). by exists p, t, u.
    - intros i Hi Hreq. destruct (lookup_lt_is_Some_2 ps i Hi) as [p Hp]. destruct (Forall2_lookup_l _ _ _ _ _ HF Hp) as (p' & Hp' & Hd).
      assert (Hs : p_is_set p' = true).
      { apply (post_check_set ps') with i; [unfold checked in HC; by destruct (post_check ps')|done|].
        intros j q Hj Hq. destruct (Forall2_lookup_r _ _ _ _ _ HF Hq) as (q0 & Hq0 & _ & -> & _). by apply (Hreq j). }
      destruct Hd as (_ & _ & _ & Hd & _). apply Hd in Hs as [x Hx]. exists x. by rewrite list_lookup_fmap, Hp'; cbn; rewrite Hx. }
  assert (HCK : forall ps' r, checked ps' = inr r -> r = ps') by (intros ps' r; unfold checked; case_match; [done|by intros [=]]).
  destruct (holds_cur _ _ _ Hh) as (-> & _). destruct v as [s|s|w es|w ms]; [done|done|..].
  - unfold parse_by_position. destruct (position_loop _ _ _ _ _ _) as [|ps'] eqn:E; [done|].
    destruct (checked ps') as [|r] eqn:EC; [done|]. pose proof (HCK _ _ EC) as ->. intros [= <-]. apply HL; [done|].
    exact (position_loop_done _ _ _ _ _ (holds_arr _ _ _ _ Hh) _ _ _ _ HD E).
  - unfold parse_by_name. destruct (name_loop _ _ _ _) as [|ps'] eqn:E; [done|].
    destruct (checked ps') as [|r] eqn:EC; [done|]. pose proof (HCK _ _ EC) as ->. intros [= <-]. apply HL; [done|].
    exact (name_loop_done _ _ _ _ (proj1 (holds_obj _ _ _ _ Hh)) _ _ _ HD E).
Qed.
End ParamProofs.
