(* ===== verification/PayecsData.v ===== *)
(** plugins/payz/payecs_data.c: the commands that read and write the table. *)
From S2P Require Import Prelude Utf8 Jsmn JsonTree JsmnProofs Json JsonProofs.
From S2P Require Import JsonEqual JsonOut JsonOutProofs JsonScan JsonScanProofs Libplugin Param.
From S2P Require Import Strmap Intmap Ec EcProofs Setsystems Ecsys EcsysProofs Ecs Systems.

(** * Write specifications *)

Record payecs_writespec : Type := WriteSpec {
  ws_entity : Z; ws_exact : bool; ws_components : strmap (list jsmntok); ws_num_components : nat }.

(** One round of the member loop: the entity found so far, and the spec. *)
Definition writespec_member (buffer : bytes) (st : option Z * payecs_writespec) (key : list jsmntok)
  : option (option Z * payecs_writespec) :=
  let '(entity, spec) := st in
  let value := tl key in
  if json_tok_streq buffer key (bs "entity") then
    match json_to_u32 buffer value with
    | Some e => Some (Some e, WriteSpec e (ws_exact spec) (ws_components spec) (ws_num_components spec))
    | None => None
    end
  else if json_tok_streq buffer key (bs "exact") then
    match json_to_bool buffer value with
    | Some b => Some (entity, WriteSpec (ws_entity spec) b (ws_components spec) (ws_num_components spec))
    | None => None
    end
  else if json_escape_needed (tok_text buffer (cur key)) then None
  else
    Some (entity, WriteSpec (ws_entity spec) (ws_exact spec)
                    (strmap_add (ws_components spec) (json_strdup buffer key) value).2
                    (S (ws_num_components spec))).

Fixpoint writespec_loop (buffer : bytes) (st : option Z * payecs_writespec) (keys : list (list jsmntok))
  : option (option Z * payecs_writespec) :=
  match keys with
  | [] => Some st
  | key :: r => match writespec_member buffer st key with Some st' => writespec_loop buffer st' r | None => None end
  end.

Definition json_to_payecs_writespec (buffer : bytes) (tok : list jsmntok) : option payecs_writespec :=
  if negb (type_eqb (ttype (cur tok)) JSMN_OBJECT) then None
  else
    match writespec_loop buffer (None, WriteSpec 0 false strmap_init 0) (json_for_each_obj tok) with
    | Some (Some _, spec) => Some spec
    | _ => None
    end.

Fixpoint writespecs (buffer : bytes) (l : list (list jsmntok)) : option (list payecs_writespec) :=
  match l with
  | [] => Some []
  | entry :: r =>
      match json_to_payecs_writespec buffer entry, writespecs buffer r with
      | Some s, Some l' => Some (s :: l')
      | _, _ => None
      end
  end.

(** An array of specifications, or one by itself. *)
Definition param_array_of_payecs_writespec (name buffer : bytes) (tok : list jsmntok)
  : bytes + list payecs_writespec :=
  let fail := inl (badparam_msg name buffer tok (bs "should be an array of entity-component specifications.")) in
  match ttype (cur tok) with
  | JSMN_OBJECT => match json_to_payecs_writespec buffer tok with Some s => inr [s] | None => fail end
  | JSMN_ARRAY => match writespecs buffer (json_for_each_arr tok) with Some l => inr l | None => fail end
  | _ => fail
  end.

(** * Output of components *)

Definition splice_component (s : pecs) (entity : Z) (out : json_out) (component : bytes) : outcome json_out :=
  let '(_, (compbuf, comptok)) := ecs_get_component s entity component in
  json_add_tok out (Some component) comptok compbuf.

Definition json_splice_entity_components (s : pecs) (out : json_out) (entity : Z) (components : list bytes)
  : outcome json_out :=
  ofold (splice_component s entity) (json_add_u32 out (Some (bs "entity")) entity) components.

(** * payecs_listentities *)

Definition has (components : list bytes) (c : bytes) : bool := existsb (streq c) components.

(** The two filter loops; the second one starts at index 9. *)
Definition skip_required (required components : list bytes) : bool := negb (forallb (has components) required).
Definition skip_disallowed (disallowed components : list bytes) : bool := existsb (has components) (drop 9 disallowed).

Definition list_entity (s : pecs) (required disallowed : list bytes) (out : json_out) (entity : Z) : outcome json_out :=
  let! components := ecs_get_components s entity in
  match components with
  | None | Some [] => Ret out
  | Some components =>
      if skip_required required components then Ret out
      else if skip_disallowed disallowed components then Ret out
      else
        let out := json_object_start out None in
        let! out := json_splice_entity_components s out entity components in
        Ret (json_object_end out)
  end.

(** [for (entity = min; entity < max; ++entity)] *)
Definition entity_range (min max : Z) : list Z :=
  map (fun i => (min + Z.of_nat i)%Z) (seq 0 (Z.to_nat (max - min))).

Definition listentities_params : list (param (list bytes)) :=
  [p_opt (bs "required") param_array_of_strings; p_opt (bs "disallowed") param_array_of_strings].

Definition payecs_listentities (id : Z) (s : pecs) (buf : bytes) (params : list jsmntok) : outcome (pecs * list event) :=
  match param_ buf params listentities_params with
  | inl msg => let! ev := command_fail id JSONRPC2_INVALID_PARAMS msg in Ret (s, [ev])
  | inr args =>
      let required := default [] (mjoin (args !! 0)) in
      let disallowed := default [] (mjoin (args !! 1)) in
      let '(min_entity, max_entity) := ecs_get_entity_bounds s in
      let out := json_array_start (jsonrpc_stream_success id) (Some (bs "entities")) in
      let! out := ofold (list_entity s required disallowed) out (entity_range min_entity max_entity) in
      let! ev := command_finished (json_array_end out) in
      Ret (s, [ev])
  end.

(** * payecs_newentity *)

Definition newentity_params : list (param unit) := [].

Definition payecs_newentity (id : Z) (s : pecs) (buf : bytes) (params : list jsmntok) : outcome (pecs * list event) :=
  match param_ buf params newentity_params with
  | inl msg => let! ev := command_fail id JSONRPC2_INVALID_PARAMS msg in Ret (s, [ev])
  | inr _ =>
      let '(entity, s') := ecs_newentity s in
      let! ev := command_finished (json_add_u32 (jsonrpc_stream_success id) (Some (bs "entity")) entity) in
      Ret (s', [ev])
  end.

(** * payecs_getcomponents *)

Definition getcomponents_params : list (param pval) :=
  [p_req (bs "entity") (into PNumber param_number); p_req (bs "components") (into PStrings param_array_of_strings)].

Definition payecs_getcomponents (id : Z) (s : pecs) (buf : bytes) (params : list jsmntok) : outcome (pecs * list event) :=
  match param_ buf params getcomponents_params with
  | inl msg => let! ev := command_fail id JSONRPC2_INVALID_PARAMS msg in Ret (s, [ev])
  | inr [Some (PNumber entity); Some (PStrings components)] =>
      let! out := json_splice_entity_components s (jsonrpc_stream_success id) entity components in
      let! ev := command_finished out in
      Ret (s, [ev])
  | inr _ => Abort "payecs_getcomponents: NULL parameter"
  end.

(** * payecs_setcomponents *)

Definition PAYECS_SETCOMPONENTS_UNEXPECTED_COMPONENTS : Z := 2244.

(** The callbacks of [strmap_iterate]; the data is the flag, or the store. *)
Definition payecs_setcomponents_validate (s : pecs) (entity : Z) (buffer : bytes) (component : bytes)
    (value : list jsmntok) (success : outcome bool) : bool * outcome bool :=
  let '(_, (ecsbuf, ecstok)) := ecs_get_component s entity component in
  match json_equal buffer value ecsbuf ecstok with
  | Ret true => (true, success)
  | r => (false, r)
  end.

Definition payecs_setcomponents_write (entity : Z) (buffer : bytes) (component : bytes)
    (value : list jsmntok) (s : outcome pecs) : bool * outcome pecs :=
  (true, let! s := s in ecs_set_component s entity component (Some buffer) (Some value)).

(** Does one expectation hold? *)
Definition validate1 (s : pecs) (buf : bytes) (expect1 : payecs_writespec) : outcome bool :=
  let! success := strmap_iterate (ws_components expect1)
                    (payecs_setcomponents_validate s (ws_entity expect1) buf) (Ret true) in
  if negb success then Ret false
  else if ws_exact expect1 then
    let! components := ecs_get_components s (ws_entity expect1) in
    Ret (length (default [] components) =? ws_num_components expect1)
  else Ret true.

(** The deletion loop of an exact write [i]: it deletes [components[i]] in
    every round. *)
Definition delete_round (entity : Z) (components : list bytes) (i : nat) (s : pecs) (j : nat) : outcome pecs :=
  match components !! i with
  | None => Abort "payecs_setcomponents: components[i] out of range"
  | Some c => ecs_set_component s entity c None None
  end.

Definition write1 (buf : bytes) (s : pecs) (iw : nat * payecs_writespec) : outcome pecs :=
  let '(i, w) := iw in
  let! s :=
    if ws_exact w then
      let! components := ecs_get_components s (ws_entity w) in
      let components := default [] components in
      ofold (delete_round (ws_entity w) components i) s (seq 0 (length components))
    else Ret s in
  strmap_iterate (ws_components w) (payecs_setcomponents_write (ws_entity w) buf) (Ret s).

Definition setcomponents_params : list (param (list payecs_writespec)) :=
  [p_req (bs "writes") param_array_of_payecs_writespec; p_opt (bs "expected") param_array_of_payecs_writespec].

Definition payecs_setcomponents (id : Z) (s : pecs) (buf : bytes) (params : list jsmntok) : outcome (pecs * list event) :=
  match param_ buf params setcomponents_params with
  | inl msg => let! ev := command_fail id JSONRPC2_INVALID_PARAMS msg in Ret (s, [ev])
  | inr args =>
      let writes := default [] (mjoin (args !! 0)) in
      let expected := default [] (mjoin (args !! 1)) in
      let! valid := oall (validate1 s buf) expected in
      if valid : bool then
        let! s' := ofold (write1 buf) s (imap pair writes) in
        let! ev := command_success id (json_out_obj None) in
        Ret (s', [ev])
      else
        let! ev := command_fail id PAYECS_SETCOMPONENTS_UNEXPECTED_COMPONENTS (bs "Validation of expected failed.") in
        Ret (s, [ev])
  end.
