(* ===== verification/PayecsCode.v ===== *)
(** plugins/payz/payecs_code.c and plugins/payz/top.c: external systems, the
    advance command, the default systems, the trace of triggered systems, and
    the plugin's set-up. *)
From S2P Require Import Prelude Utf8 Jsmn JsonTree JsmnProofs Json JsonProofs.
From S2P Require Import JsonEqual JsonOut JsonOutProofs JsonScan JsonScanProofs Libplugin Param.
From S2P Require Import Strmap Intmap Ec EcProofs Setsystems Ecsys EcsysProofs Ecs Systems.

(** * State *)

Record payecs_external_system : Type := External {
  x_system : bytes; x_required : list bytes; x_disallowed : list bytes }.

Record payecs_systrace_entry : Type := TraceEntry { t_entity : Z; t_json : bytes }.

(** The globals: [payz_top], the registry and the trace. *)
Record payz : Type := Payz {
  top_ecs : pecs;
  default_systems : list bytes;
  payecs_registry : strmap payecs_external_system;
  payecs_systraces_remaining : Z;
  payecs_systraces : list payecs_systrace_entry }.

Definition with_ecs (p : payz) (s : pecs) : payz :=
  Payz s (default_systems p) (payecs_registry p) (payecs_systraces_remaining p) (payecs_systraces p).

Definition SYSTRACE_MAX : Z := 100000.

(** * Registry of external systems *)

(** [payecs_register]: the flag, and the new globals. *)
Definition payecs_register (p : payz) (system : bytes) (required disallowed : list bytes) : outcome (bool * payz) :=
  match strmap_get (payecs_registry p) system with
  | Some exsys =>
      let ok := streq system (x_system exsys)
                && (length required =? length (x_required exsys))
                && (length disallowed =? length (x_disallowed exsys))
                && forallb (fun ab => streq ab.1 ab.2) (zip required (x_required exsys))
                && forallb (fun ab => streq ab.1 ab.2) (zip disallowed (x_disallowed exsys)) in
      Ret (ok, p)
  | None =>
      if ecs_system_exists (top_ecs p) system then Ret (false, p)
      else
        let exsys := External system required disallowed in
        let registry := (strmap_add (payecs_registry p) (x_system exsys) exsys).2 in
        let reg := ecs_register_begin in
        let reg := ecs_register_name reg (x_system exsys) in
        let reg := foldl ecs_register_require reg (x_required exsys) in
        let reg := foldl ecs_register_disallow reg (x_disallowed exsys) in
        let reg := ecs_register_done reg in
        let! s := ecs_register (top_ecs p) reg in
        Ret (true, Payz s (default_systems p) registry (payecs_systraces_remaining p) (payecs_systraces p))
  end.

Definition bad_params (id : Z) (p : payz) (msg : bytes) : outcome (payz * list event) :=
  let! ev := command_fail id JSONRPC2_INVALID_PARAMS msg in Ret (p, [ev]).

Definition empty_reply (id : Z) (p : payz) : outcome (payz * list event) :=
  let! ev := command_success id (json_out_obj None) in Ret (p, [ev]).

Definition newsystem_params : list (param pval) :=
  [p_req (bs "system") (into PString param_string); p_req (bs "required") (into PStrings param_array_of_strings);
   p_opt (bs "disallowed") (into PStrings param_array_of_strings)].

Definition payecs_newsystem (id : Z) (p : payz) (buf : bytes) (params : list jsmntok) : outcome (payz * list event) :=
  match param_ buf params newsystem_params with
  | inl msg => bad_params id p msg
  | inr [Some (PString system); Some (PStrings required); d] =>
      let disallowed := match d with Some (PStrings l) => l | _ => [] end in
      let! (ok, p') := payecs_register p system required disallowed in
      if ok : bool then empty_reply id p'
      else bad_params id p' (bs "Conflict with existing `system`: " ++ system)
  | inr _ => Abort "payecs_newsystem: NULL parameter"
  end.

(** * Advancing *)

Definition advance_params : list (param Z) := [p_req (bs "entity") param_number].

Definition payecs_advance (id : Z) (p : payz) (buf : bytes) (params : list jsmntok) : outcome (payz * list event) :=
  match param_ buf params advance_params with
  | inl msg => bad_params id p msg
  | inr [Some entity] =>
      let! (s, evs, r) := ecs_advance (top_ecs p) entity in
      let p' := with_ecs p s in
      match r with
      | AdvOk => let! (p2, evs2) := empty_reply id p' in Ret (p2, evs ++ evs2)
      | AdvErr errcode =>
          let '(_, (compbuf, comptok)) := ecs_get_component s entity (bs "lightningd:systems") in
          let! r := json_scan compbuf comptok (bs "{error:{message:%}}") [str_arg] in
          match r with
          | inr [message] => let! ev := command_fail id errcode message in Ret (p', evs ++ [ev])
          | _ => Abort "payecs_advance_ng: !scan_err"
          end
      end
  | inr _ => Abort "payecs_advance: NULL parameter"
  end.

(** * Default systems *)

Definition add_strings (js : json_out) (l : list bytes) : json_out :=
  foldl (fun js n => json_add_string js None n) js l.

Definition json_splice_default_systems (p : payz) (js : json_out) : json_out := add_strings js (default_systems p).

Definition getdefaultsystems_params : list (param unit) := [].

Definition payecs_getdefaultsystems (id : Z) (p : payz) (buf : bytes) (params : list jsmntok) : outcome (payz * list event) :=
  match param_ buf params getdefaultsystems_params with
  | inl msg => bad_params id p msg
  | inr _ =>
      let out := json_array_start (jsonrpc_stream_success id) (Some (bs "systems")) in
      let out := json_array_end (json_splice_default_systems p out) in
      let! ev := command_finished out in
      Ret (p, [ev])
  end.

(** The first name of a list that is not registered. *)
Definition first_unregistered (p : payz) (l : list bytes) : option bytes :=
  List.find (fun n => negb (ecs_system_exists (top_ecs p) n)) l.

Definition setdefault_params : list (param pval) :=
  [p_req (bs "entity") (into PNumber param_number); p_opt (bs "prepend") (into PStrings param_array_of_strings);
   p_opt (bs "append") (into PStrings param_array_of_strings)].

Definition payecs_setdefaultsystems (id : Z) (p : payz) (buf : bytes) (params : list jsmntok) : outcome (payz * list event) :=
  match param_ buf params setdefault_params with
  | inl msg => bad_params id p msg
  | inr [Some (PNumber entity); pre; app] =>
      let strings o := match o with Some (PStrings l) => l | _ => [] end in
      let prepend := strings pre in
      let append := strings app in
      match first_unregistered p prepend with
      | Some n => bad_params id p (bs "Unregistered system: " ++ n)
      | None =>
          match first_unregistered p append with
          | Some n => bad_params id p (bs "Unregistered system: " ++ n)
          | None =>
              let js := json_array_start new_json_stream None in
              let js := add_strings js prepend in
              let js := json_splice_default_systems p js in
              let js := add_strings js append in
              let newcompbuf := outbuf (json_array_end js) in
              let newcomptok := json_parse_simple newcompbuf (length newcompbuf) in
              let! e := payz_generic_setsystems_tok (ecs_ec (top_ecs p)) entity (bs "systems") (Some newcompbuf) newcomptok in
              empty_reply id (with_ecs p (with_ec (top_ecs p) e))
          end
      end
  | inr _ => Abort "payecs_setdefaultsystems: NULL parameter"
  end.

(** * Trace *)

(** [payecs_systrace_add]; [time] is what [format_time] makes of the clock. *)
Definition payecs_systrace_add (time : bytes) (p : payz) (buf : bytes) (params : list jsmntok)
  : outcome (payz * list event) :=
  let! r := json_scan buf params (bs "{entity:{entity:%}}") [u32_arg] in
  match r with
  | inr [entity] =>
      let p1 :=
        if (payecs_systraces_remaining p =? 0)%Z
        then Payz (top_ecs p) (default_systems p) (payecs_registry p) (payecs_systraces_remaining p + 1) (tl (payecs_systraces p))
        else p in
      match json_get_member buf params (bs "system"), json_get_member buf params (bs "entity") with
      | Some system, Some entity_obj =>
          let json := bs "{" ++ quoted (bs "time") ++ bs ": " ++ quoted time ++ bs ", " ++ quoted (bs "system") ++ bs ": "
                      ++ show_text buf system ++ bs ", " ++ quoted (bs "entity") ++ bs ": " ++ show_text buf entity_obj ++ bs "}" in
          Ret (Payz (top_ecs p1) (default_systems p1) (payecs_registry p1) (payecs_systraces_remaining p1 - 1)
                 (payecs_systraces p1 ++ [TraceEntry entity json]), [])
      | _, _ =>
          Ret (p1, [Logged LOG_UNUSUAL (bs "'" ++ ECSYS_SYSTEM_NOTIFICATION
                      ++ bs "' parameter missing 'system' or 'entity': " ++ show_text buf params)])
      end
  | inl error =>
      Ret (p, [Logged LOG_UNUSUAL (bs "Invalid '" ++ ECSYS_SYSTEM_NOTIFICATION ++ bs "' parameters: " ++ error
                 ++ bs ": " ++ show_text buf params)])
  | inr _ => Abort "payecs_systrace_add: scan"
  end.

Definition systrace_params : list (param Z) := [p_req (bs "entity") param_number].

Definition payecs_systrace (id : Z) (p : payz) (buf : bytes) (params : list jsmntok) : outcome (payz * list event) :=
  match param_ buf params systrace_params with
  | inl msg => bad_params id p msg
  | inr [Some entity] =>
      let out := json_add_u32 (jsonrpc_stream_success id) (Some (bs "entity")) entity in
      let out := json_array_start out (Some (bs "trace")) in
      let out := foldl (fun out e => if negb (t_entity e =? entity)%Z then out else json_add_literal out None (t_json e))
                   out (payecs_systraces p) in
      let! ev := command_finished (json_array_end out) in
      Ret (p, [ev])
  | inr _ => Abort "payecs_systrace: NULL parameter"
  end.

(** * The notification that triggers a system *)

Definition payecs_system_notification (v : env) (time : bytes) (p : payz) (buf : bytes) (params : list jsmntok)
  : outcome (payz * list event) :=
  match json_get_member buf params (bs "payload") with
  | None =>
      Ret (p, [Logged LOG_UNUSUAL (ECSYS_SYSTEM_NOTIFICATION ++ bs " parameters has no payload: " ++ show_text buf params)])
  | Some payload =>
      let dbg := Logged LOG_DBG (ECSYS_SYSTEM_NOTIFICATION ++ bs " payload: " ++ show_text buf payload) in
      let! (p1, evs1) := payecs_systrace_add time p buf payload in
      let! (s, evs2) := ecs_system_notify (system_call v) (top_ecs p1) buf payload in
      Ret (with_ecs p1 s, dbg :: evs1 ++ evs2)
  end.

(** * top.c: [setup_payz_top] *)

(** The built-in systems, in the order of registration. *)
Definition to_register : list (ecs_register_desc sysfn) :=
  let l := ecs_register_begin in
  let l := ecs_register_concat l Nonce.system_nonce in
  let l := ecs_register_concat l ParseInvoice.system_parse_invoice in
  let l := ecs_register_concat l InvoiceAmount.system_invoice_amount in
  ecs_register_concat l Defaulter.system_defaulter.

(** The loop that extracts the names. *)
Definition names_of (l : list (ecs_register_desc sysfn)) : list bytes :=
  omap (fun d => match d with NAME n => Some n | _ => None end) l.

Definition setup_payz_top : outcome payz :=
  let! s := ecs_register ecs_new to_register in
  Ret (Payz s (names_of to_register) strmap_init SYSTRACE_MAX []).
