(* ===== verification/PayecsProofs.v ===== *)
(** The commands of payecs_data.c and payecs_code.c, the dispatch of triggered
    systems, and the plugin's set-up. *)
From S2P Require Import Prelude Utf8 Jsmn JsonTree JsmnProofs Json JsonProofs.
From S2P Require Import JsonEqual JsonOut JsonOutProofs JsonScan JsonScanProofs Libplugin Param.
From S2P Require Import Strmap Intmap Ec EcProofs Setsystems Ecsys EcsysProofs Ecs.
From S2P Require Import Systems PayecsData PayecsCode.

(** * Dispatch *)

Lemma json_to_u32_holds buf tk z :
  is_u32 z -> holds buf tk (JPrim (fmt_u z)) -> json_to_u32 buf tk = Some z.
Proof. intros Hz (pre & post & rest & -> & -> & Hd & _). by apply json_to_u32_fmt. Qed.

Lemma strdup_holds buf tk s : holds buf tk (JStr s) -> json_strdup buf tk = s.
Proof.
  intros H. unfold json_strdup. destruct (holds_cur _ _ _ H) as (_ & _ & _ & ->). cbn [body].
  apply until_nul_id, str_ok_no_nul. by destruct H as (? & ? & ? & _ & _ & _ & ?).
Qed.

Lemma get_field_some buf tk v f u :
  holds buf tk v -> field_of v f = Some u -> exists t, json_get_member buf tk f = Some t /\ holds buf t u.
Proof. intros H Hf. pose proof (get_field buf tk v f H) as HG. rewrite Hf in HG. inv HG. eauto. Qed.

Lemma get_field_none buf tk v f : holds buf tk v -> field_of v f = None -> json_get_member buf tk f = None.
Proof. intros H Hf. pose proof (get_field buf tk v f H) as HG. rewrite Hf in HG. by inv HG. Qed.

Lemma scan_str buf tk v f s :
  holds buf tk v -> forallb literal_char f = true -> field_of v f = Some (JStr s) ->
  json_scan buf tk (bs "{" ++ f ++ bs ":%}") [str_arg] = Ret (inr [s]).
Proof.
  intros H Hf Hs. pose proof (scan_field buf tk v f str_arg H Hf) as HS. rewrite Hs in HS. destruct HS as (t & Ht & HR).
  cbn [fmt str_arg] in HR. by rewrite (strdup_holds _ _ _ Ht) in HR.
Qed.

Lemma scan_u32 buf tk v f z :
  holds buf tk v -> forallb literal_char f = true -> is_u32 z -> field_of v f = Some (JPrim (fmt_u z)) ->
  json_scan buf tk (bs "{" ++ f ++ bs ":%}") [u32_arg] = Ret (inr [z]).
Proof.
  intros H Hf Hz Hs. pose proof (scan_field buf tk v f u32_arg H Hf) as HS. rewrite Hs in HS. destruct HS as (t & Ht & HR).
  cbn [fmt u32_arg] in HR. by rewrite (json_to_u32_holds _ _ _ Hz Ht) in HR.
Qed.

(** The member of a list of named values. *)
Lemma member_of_zip cs vs c :
  length cs = length vs -> c ∈ cs ->
  is_Some (member_of (map (fun cv => Member0 cv.1 cv.2) (zip cs vs)) c).
Proof.
  revert vs. induction cs as [|x cs IH]; intros [|v vs] Hl Hc; try done; [by inv Hc|].
  unfold member_of. cbn [zip zip_with map List.find fst snd Member0 m_key]. destruct (bool_decide (x = c)) eqn:E; [done|].
  apply bool_decide_eq_false in E. apply elem_of_cons in Hc as [->|Hc]; [done|]. apply IH; [by simplify_eq/=|done].
Qed.

Section Dispatch.
Context {F : Type}.
Implicit Types (s : ecs F).

(** A message made for a system by [run_system] reaches that system's
    function, with the entity it was made for. *)
Lemma notify_dispatch call s buf tk w k vs :
  ecs_wf s -> funcmap s !! w_name w = Some w -> json_escape_needed (w_name w) = false -> is_u32 k ->
  length (w_required w) = length vs -> holds buf tk (invoke_params (w_name w) k (zip (w_required w) vs)) ->
  exists t, holds buf t (entity_obj k (zip (w_required w) vs)) /\
    ecs_system_notify call s buf tk = call (w_func w) s k buf t.
Proof.
  intros Hw Hf Hp Hk Hl H. set (P := invoke_params _ _ _) in *. unfold ecs_system_notify.
  assert (ES : json_scan buf tk (bs "{system:%}") [str_arg] = Ret (inr [w_name w])).
  { apply (scan_str buf tk P (bs "system") (w_name w) H eq_refl).
    subst P. unfold invoke_params. rewrite <- (escape_plain _ Hp) at 2. reflexivity. }
  rewrite ES. cbn [obind]. rewrite strmap_get_map by (by apply wf_funcs). unfold funcmap in Hf. rewrite Hf.
  destruct (get_field_some buf tk P (bs "entity") _ H eq_refl) as (t & -> & Ht). fold (entity_obj k (zip (w_required w) vs)) in Ht.
  assert (EU : json_scan buf t (bs "{entity:%}") [u32_arg] = Ret (inr [k])).
  { by apply (scan_u32 buf t _ (bs "entity") k Ht eq_refl Hk). }
  rewrite EU. cbn [obind]. exists t. split; [done|].
  assert (EM : missing_component buf t (w_required w) = None).
  { unfold missing_component. destruct (List.find _ (w_required w)) as [c|] eqn:Ef; [|done]. exfalso.
    apply find_some in Ef as [Hin Hm]. apply list_elem_of_In in Hin.
    assert (HF : is_Some (field_of (entity_obj k (zip (w_required w) vs)) c)).
    { unfold entity_obj. cbn [field_of]. unfold member_of. cbn [List.find m_key Member0].
      destruct (bool_decide (bs "entity" = c)); [done|]. by apply member_of_zip. }
    destruct HF as [u Hu]. destruct (get_field_some buf t _ c u Ht Hu) as (t' & Et & _). by rewrite Et in Hm. }
  by rewrite EM.
Qed.

(** A message that lacks a required component does not reach it. *)
Lemma notify_missing call s buf tk v w k c eo :
  ecs_wf s -> funcmap s !! w_name w = Some w -> is_u32 k ->
  holds buf tk v -> field_of v (bs "system") = Some (JStr (w_name w)) ->
  field_of v (bs "entity") = Some eo -> field_of eo (bs "entity") = Some (JPrim (fmt_u k)) ->
  c ∈ w_required w -> field_of eo c = None ->
  exists msg, ecs_system_notify call s buf tk = Ret (s, [Logged LOG_UNUSUAL msg]).
Proof.
  intros Hw Hf Hk H Hsys Hent Hid Hc Hmiss. unfold ecs_system_notify.
  assert (ES : json_scan buf tk (bs "{system:%}") [str_arg] = Ret (inr [w_name w]))
    by (apply (scan_str buf tk v (bs "system") (w_name w) H eq_refl Hsys)).
  rewrite ES. cbn [obind]. rewrite strmap_get_map by (by apply wf_funcs). unfold funcmap in Hf. rewrite Hf.
  destruct (get_field_some buf tk v (bs "entity") _ H Hent) as (t' & -> & Ht).
  assert (EU : json_scan buf t' (bs "{entity:%}") [u32_arg] = Ret (inr [k]))
    by (by apply (scan_u32 buf t' _ (bs "entity") k Ht eq_refl Hk)).
  rewrite EU. cbn [obind]. unfold missing_component.
  destruct (List.find _ (w_required w)) as [c'|] eqn:Ef; [eauto|].
  eapply find_none in Ef; [|by apply list_elem_of_In]. by rewrite (get_field_none _ _ _ _ Ht Hmiss) in Ef.
Qed.
End Dispatch.

(** * Set-up *)

(** The built-in systems as definitions. *)
Definition builtin_defs : list (sysdef sysfn) :=
  [Def (bs "lightningd:generate_nonce") (Some generate_nonce_fn) [bs "lightningd:systems"] [bs "lightningd:nonce"];
   Def (bs "lightningd:parse_invoice") (Some parse_invoice_fn) [bs "lightningd:invoice"] [bs "lightningd:parse_invoice:ran"];
   Def (bs "lightningd:promote_invoice_type") (Some promote_invoice_type_fn) [bs "lightningd:invoice:type"]
     [bs "lightningd:promote_invoice_type:ran"];
   Def (bs "lightningd:invoice_amount_msat") (Some invoice_amount_msat_fn) [bs "lightningd:invoice:amount_msat"] [bs "lightningd:amount"];
   Def (bs "lightningd:fail_invoice_amount_and_amount") (Some fail_invoice_amount_and_amount_fn)
     [bs "lightningd:invoice:amount_msat"; bs "lightningd:amount"] [];
   Def (bs "lightningd:default_riskfactor") (Some defaulter_riskfactor_fn) [bs "lightningd:main-payment"] [bs "lightningd:riskfactor"];
   Def (bs "lightningd:default_maxfeepercent") (Some defaulter_maxfeepercent_fn) [bs "lightningd:main-payment"] [bs "lightningd:maxfeepercent"];
   Def (bs "lightningd:default_retry_for") (Some defaulter_retry_for_fn) [bs "lightningd:main-payment"] [bs "lightningd:retry_for"];
   Def (bs "lightningd:default_maxdelay") (Some defaulter_maxdelay_fn) [bs "lightningd:main-payment"] [bs "lightningd:maxdelay"];
   Def (bs "lightningd:default_exemptfee") (Some defaulter_exemptfee_fn) [bs "lightningd:main-payment"] [bs "lightningd:exemptfee"]].

Lemma to_register_defs : to_register = flat_map desc_of builtin_defs ++ [OVER_AND_OUT].
Proof. vm_compute. reflexivity. Qed.

Lemma builtin_defs_ok : Forall def_ok builtin_defs /\ NoDup (map d_name builtin_defs).
Proof.
  split.
  - unfold builtin_defs. repeat constructor; try done; by apply no_nul_true.
  - apply (bool_decide_unpack _). vm_compute. exact I.
Qed.

Lemma setup_spec :
  exists s, setup_payz_top = Ret (Payz s (map d_name builtin_defs) strmap_init SYSTRACE_MAX []) /\ ecs_wf s /\
    ecs_ec s = ec_new /\ sysmap s = foldl add_sys ∅ builtin_defs /\ funcmap s = foldl add_func ∅ builtin_defs.
Proof.
  destruct builtin_defs_ok as [Hok HN].
  destruct (register_defs builtin_defs ecs_new ecs_wf_new Hok HN) as (s & E & R); [done|].
  exists s. split; [|done]. unfold setup_payz_top. rewrite to_register_defs, E. done.
Qed.

(** * External systems *)

(** The components a built-in function reads from its message unchecked. *)
Definition needs (f : sysfn) : list bytes :=
  match f with
  | parse_invoice_fn => [bs "lightningd:invoice"]
  | promote_invoice_type_fn => [bs "lightningd:invoice:type"]
  | invoice_amount_msat_fn => [bs "lightningd:invoice:amount_msat"]
  | _ => []
  end.

(** The globals: a function requires what it reads, every external system is registered as it is on file, and
    the trace has its bound. *)
Record payz_wf (p : payz) : Prop := {
  wf_top : ecs_wf (top_ecs p);
  wf_default : forall n, n ∈ default_systems p -> cstr n /\ is_Some (sysmap (top_ecs p) !! n);
  wf_needs : forall n w c, funcmap (top_ecs p) !! n = Some w -> c ∈ needs (w_func w) -> c ∈ w_required w;
  wf_registry : strmap_wf (payecs_registry p);
  wf_external : forall n x, strmap_to_map (payecs_registry p) !! n = Some x ->
    x_system x = n /\ sysmap (top_ecs p) !! n = Some (Registered n (x_required x) (x_disallowed x));
  wf_trace : (0 <= payecs_systraces_remaining p)%Z /\
    (payecs_systraces_remaining p + Z.of_nat (length (payecs_systraces p)) = SYSTRACE_MAX)%Z }.

(** A new table keeps the invariant. *)
Lemma payz_wf_with p e : payz_wf p -> ec_wf e -> payz_wf (with_ecs p (with_ec (top_ecs p) e)).
Proof. intros [Wt Wd Wn Wr Wx Wc] He. split; [by apply ecs_wf_with|done|exact Wn|done|exact Wx|done]. Qed.

(** So does any change of the table that leaves the systems alone. *)
Lemma payz_wf_ecs p s : payz_wf p -> ecs_wf s -> same_systems (top_ecs p) s -> payz_wf (with_ecs p s).
Proof.
  intros [Wt Wd Wn Wr Wx Wc] Ws [E1 E2]. unfold sysmap, funcmap in *.
  split; cbn [top_ecs default_systems payecs_registry payecs_systraces_remaining payecs_systraces with_ecs]; unfold sysmap, funcmap; rewrite ?E1, ?E2; done.
Qed.

Lemma streq_zip a b : length a = length b -> forallb (fun ab => streq ab.1 ab.2) (zip a b) = true -> a = b.
Proof.
  revert b. induction a as [|x a IH]; intros [|y b] Hl; try done. cbn [zip zip_with forallb fst snd].
  intros [Hx Ha]%andb_true_iff. apply bool_decide_eq_true in Hx. f_equal; [done|]. apply IH; [by simplify_eq/=|done].
Qed.

Lemma streq_zip_refl a : forallb (fun ab => streq ab.1 ab.2) (zip a a) = true.
Proof.
  induction a as [|x a IH]; [done|]. cbn [zip zip_with forallb fst snd]. unfold streq at 1.
  by rewrite bool_decide_true by done.
Qed.

(** A name already on file: accepted exactly when it is the same system. *)
Lemma register_known p n required disallowed x :
  payz_wf p -> strmap_to_map (payecs_registry p) !! n = Some x ->
  payecs_register p n required disallowed =
    Ret (bool_decide (required = x_required x /\ disallowed = x_disallowed x), p).
Proof.
  intros Hw Hx. unfold payecs_register. rewrite strmap_get_map, Hx by (by apply wf_registry).
  destruct (wf_external p Hw n x Hx) as [Hn _]. rewrite Hn. unfold streq at 1. rewrite bool_decide_true by done. cbn [andb].
  do 2 f_equal. case_bool_decide as Hb.
  - destruct Hb as [-> ->]. by rewrite !Nat.eqb_refl, !streq_zip_refl.
  - destruct (Nat.eqb_spec (length required) (length (x_required x))) as [E1|]; [|done]. cbn [andb].
    destruct (Nat.eqb_spec (length disallowed) (length (x_disallowed x))) as [E2|]; [|done]. cbn [andb].
    destruct (forallb _ (zip required _)) eqn:F1; [|done]. cbn [andb].
    destruct (forallb _ (zip disallowed _)) eqn:F2; [|done]. destruct Hb. by apply streq_zip in F1, F2.
Qed.

Lemma register_builtin p n required disallowed :
  payz_wf p -> strmap_to_map (payecs_registry p) !! n = None -> is_Some (sysmap (top_ecs p) !! n) ->
  payecs_register p n required disallowed = Ret (false, p).
Proof.
  intros Hw Hx Hs. unfold payecs_register. rewrite strmap_get_map, Hx by (by apply wf_registry).
  unfold ecs_system_exists. destruct (wf_ecsys _ (wf_top p Hw)) as [Ws _].
  by rewrite (proj2 (system_exists_map (ecs_ecsys (top_ecs p)) n Ws) Hs).
Qed.

(** The array [payecs_register] builds is the definition's. *)
Lemma dynamic_desc (n : bytes) (req dis : list bytes) :
  ecs_register_done (foldl ecs_register_disallow (foldl ecs_register_require
    (ecs_register_name (F := sysfn) ecs_register_begin n) req) dis)
  = flat_map desc_of [Def n None req dis] ++ [OVER_AND_OUT].
Proof.
  unfold ecs_register_done, ecs_register_name, ecs_register_begin.
  change [OVER_AND_OUT] with (([] : list (ecs_register_desc sysfn)) ++ [OVER_AND_OUT]). rewrite extend_app.
  unfold ecs_register_require. rewrite (extend_all REQUIRE). unfold ecs_register_disallow. rewrite (extend_all DISALLOW), extend_app.
  cbn [flat_map desc_of d_name d_func d_required d_disallowed app]. by rewrite app_nil_r, <- !app_assoc.
Qed.

Lemma register_new p n required disallowed :
  payz_wf p -> no_nul n -> (required = [] -> disallowed = []) ->
  strmap_to_map (payecs_registry p) !! n = None -> sysmap (top_ecs p) !! n = None ->
  exists p', payecs_register p n required disallowed = Ret (true, p') /\ payz_wf p' /\
    ecs_ec (top_ecs p') = ecs_ec (top_ecs p) /\
    sysmap (top_ecs p') = <[n := Registered n required disallowed]> (sysmap (top_ecs p)) /\
    strmap_to_map (payecs_registry p') = <[n := External n required disallowed]> (strmap_to_map (payecs_registry p)).
Proof.
  intros Hw Hn Hd Hx Hs. unfold payecs_register. rewrite strmap_get_map, Hx by (by apply wf_registry).
  destruct (wf_ecsys _ (wf_top p Hw)) as [Ws _].
  assert (He : ecs_system_exists (top_ecs p) n = false).
  { unfold ecs_system_exists. destruct (ecsys_system_exists _ n) eqn:E; [|done].
    apply (system_exists_map _ n Ws) in E as [r Hr]. unfold sysmap in Hs. congruence. }
  rewrite He. cbn [x_system x_required x_disallowed]. rewrite dynamic_desc.
  destruct (register_defs [Def n None required disallowed] (top_ecs p) (wf_top p Hw)) as (s & -> & W' & Ee & Es & Ef).
  { by repeat constructor. } { apply NoDup_singleton. } { intros x ->%list_elem_of_singleton. done. }
  destruct (strmap_add_fresh (payecs_registry p) n (External n required disallowed) (wf_registry p Hw) Hn Hx) as (m' & -> & Wm & Mm).
  cbn [obind snd]. eexists. split; [reflexivity|]. cbn [foldl] in Es. unfold add_sys in Es. cbn [d_name reg_of d_required d_disallowed] in Es.
  split_and!; [|done|done|done].
  split; cbn [top_ecs default_systems payecs_registry payecs_systraces_remaining payecs_systraces]; [done| | |done| |by apply wf_trace]; cycle 1.
  { rewrite Ef. exact (wf_needs p Hw). }
  2:{ intros n' Hn'. destruct (wf_default p Hw n' Hn') as [Hc [r Hr]]. split; [done|]. rewrite Es.
    destruct (decide (n = n')) as [->|]; [by rewrite lookup_insert_eq|rewrite lookup_insert_ne by done; by exists r]. }
  rewrite Mm, Es. intros n' x [[<- <-]|[Hne Hl]]%lookup_insert_Some.
  - rewrite lookup_insert_eq. done.
  - rewrite lookup_insert_ne by done. by apply (wf_external p Hw).
Qed.

(** * The trace *)

Lemma trace_add_spec time p buf tk v :
  payz_wf p -> holds buf tk v ->
  exists p' evs, payecs_systrace_add time p buf tk = Ret (p', evs) /\ payz_wf p' /\ top_ecs p' = top_ecs p /\
    (payecs_systraces p' = payecs_systraces p \/ payecs_systraces p' = tl (payecs_systraces p) \/
     exists entry, payecs_systraces p' =
       (if (payecs_systraces_remaining p =? 0)%Z then tl (payecs_systraces p) else payecs_systraces p) ++ [entry]).
Proof.
  intros Hw Hv. unfold payecs_systrace_add.
  pose proof (scan_field2 buf tk v (bs "entity") (bs "entity") u32_arg Hv eq_refl eq_refl) as HS. cbv zeta in HS.
  change (bs "{" ++ bs "entity" ++ bs ":{" ++ bs "entity" ++ bs ":%}}") with (bs "{entity:{entity:%}}") in HS.
  assert (HE : (exists m, json_scan buf tk (bs "{entity:{entity:%}}") [u32_arg] = Ret (inl m)) \/
    (exists k, json_scan buf tk (bs "{entity:{entity:%}}") [u32_arg] = Ret (inr [k]))).
  { destruct (field_of v (bs "entity") ≫= _) as [u|]; [|by left]. destruct HS as (t & _ & HR).
    destruct (fmt u32_arg buf t) as [k|]; [right; by exists k|by left]. }
  destruct (wf_trace p Hw) as [H0 HB].
  destruct HE as [[m ->]|[k ->]]; cbn [obind]; [eexists p, _; split_and!; [reflexivity|done|done|by left]|].
  set (p1 := if (payecs_systraces_remaining p =? 0)%Z then _ else p).
  assert (H1 : payz_wf p1 /\ top_ecs p1 = top_ecs p /\ (0 < payecs_systraces_remaining p1)%Z /\
    payecs_systraces p1 = (if (payecs_systraces_remaining p =? 0)%Z then tl (payecs_systraces p) else payecs_systraces p)).
  { subst p1. destruct (Z.eqb_spec (payecs_systraces_remaining p) 0) as [E|E]; [|split_and!; [done|done|lia|done]].
    split_and!; [|done|cbn; lia|done]. destruct Hw as [A B C D].
    split; cbn [top_ecs payecs_registry payecs_systraces_remaining payecs_systraces]; try done. rewrite E in *. split; [lia|].
    destruct (payecs_systraces p) as [|x l]; cbn [tl length] in *; [unfold SYSTRACE_MAX in HB; lia|lia]. }
  destruct H1 as (W1 & T1 & R1 & L1). destruct (wf_trace p1 W1) as [_ B1].
  assert (Hkeep : payecs_systraces p1 = payecs_systraces p \/ payecs_systraces p1 = tl (payecs_systraces p)).
  { rewrite L1. destruct (payecs_systraces_remaining p =? 0)%Z; auto. }
  destruct (json_get_member buf tk (bs "system")) as [t1|]; [|eexists p1, _; split_and!; [reflexivity|done|done|tauto]].
  destruct (json_get_member buf tk (bs "entity")) as [t2|]; [|eexists p1, _; split_and!; [reflexivity|done|done|tauto]].
  eexists _, _. split_and!; [reflexivity| |done|right; right; cbn [payecs_systraces]; rewrite L1; eauto].
  destruct W1 as [A Ad B C D]. split; cbn [top_ecs default_systems payecs_registry payecs_systraces_remaining payecs_systraces]; try done.
  rewrite length_app. cbn [length]. lia.
Qed.

(** * Write specifications *)

(** A specification whose values are JSON data of the request. *)
Definition ws_good (buf : bytes) (w : payecs_writespec) : Prop :=
  is_u32 (ws_entity w) /\ strmap_wf (ws_components w) /\
  forall n t, strmap_to_map (ws_components w) !! n = Some t -> no_nul n /\ exists v, holds buf t v.

Lemma fits_range m o z : (0 < m)%Z -> fits m o = Some z -> (0 <= z < m)%Z.
Proof.
  intros Hm. unfold fits. destruct o as [u|]; [|done]. destruct (_ =? _)%Z; [|done]. intros [= <-]. by apply Z.mod_pos_bound.
Qed.

Lemma writespec_member_good buf o w key m o' w' :
  ws_good buf w -> holds_member buf key m -> writespec_member buf (o, w) key = Some (o', w') -> ws_good buf w'.
Proof.
  intros (G1 & G2 & G3) Hm. unfold writespec_member.
  destruct (json_tok_streq buf key (bs "entity")).
  { destruct (json_to_u32 buf (tl key)) as [e|] eqn:Ee; [|done]. intros [= <- <-]. split_and!; try done.
    by apply fits_range in Ee. }
  destruct (json_tok_streq buf key (bs "exact")).
  { destruct (json_to_bool buf (tl key)); [|done]. by intros [= <- <-]. }
  destruct (json_escape_needed _); [done|]. intros [= <- <-]. destruct Hm as (_ & _ & Hk & _ & Hs & Hv).
  assert (Hn : no_nul (json_strdup buf key)) by (unfold json_strdup; apply until_nul_no_nul).
  split; [done|]. cbn [ws_components].
  destruct (strmap_to_map (ws_components w) !! json_strdup buf key) as [t0|] eqn:E.
  - rewrite (strmap_add_present _ _ (tl key) _ G2 E). done.
  - destruct (strmap_add_fresh (ws_components w) _ (tl key) G2 Hn E) as (m' & -> & W & M). cbn [snd]. split; [done|].
    rewrite M. intros n t [[<- <-]|[_ Hl]]%lookup_insert_Some; [eauto|by apply G3].
Qed.

Lemma writespec_loop_good buf keys ms : forall st st',
  Forall2 (holds_member buf) keys ms -> ws_good buf st.2 -> writespec_loop buf st keys = Some st' -> ws_good buf st'.2.
Proof.
  intros st st' HF. revert st. induction HF as [|key m keys ms Hm _ IH]; intros [o w] Hg; cbn [writespec_loop]; [by intros [= <-]|].
  destruct (writespec_member buf (o, w) key) as [[o' w']|] eqn:E; [|done]. apply IH.
  by apply (writespec_member_good buf o w key m o' w').
Qed.

(** Every specification read from a request is good. *)
Lemma writespec_good buf tk v w :
  holds buf tk v -> json_to_payecs_writespec buf tk = Some w -> ws_good buf w.
Proof.
  intros Hv. unfold json_to_payecs_writespec. destruct (holds_cur _ _ _ Hv) as (HT & _). rewrite HT.
  destruct v as [| | |ww ms]; try done. cbn [type_eqb negb].
  replace (bool_decide (JSMN_OBJECT = JSMN_OBJECT)) with true by done. cbn [negb].
  destruct (holds_obj _ _ _ _ Hv) as [HF _].
  destruct (writespec_loop buf (None, WriteSpec 0 false strmap_init 0) (json_for_each_obj tk)) as [[[e|] w']|] eqn:E; try done.
  intros [= <-]. apply (writespec_loop_good buf _ ms _ _ HF) in E; [done|]. split_and!; [done|done|].
  intros n t Hl. unfold strmap_to_map in Hl. by simplify_map_eq.
Qed.

(** * Comparing and writing *)

(** The iteration of [strmap_iterate] with a callback that may stop. *)
Lemma iterate_validate s k buf comps :
  ecs_wf s -> strmap_wf comps ->
  (forall n t, strmap_to_map comps !! n = Some t -> exists v, holds buf t v) ->
  exists b, strmap_iterate comps (payecs_setcomponents_validate s k buf) (Ret true) = Ret b /\
    (b = true <-> forall n t v u, strmap_to_map comps !! n = Some t -> holds buf t v -> reads (ecs_ec s) k n u -> jequal v u = true).
Proof.
  intros Hw W HV.
  assert (Hone : forall n t, strmap_to_map comps !! n = Some t -> exists b,
    payecs_setcomponents_validate s k buf n t (Ret true) = (b, Ret b) /\
    (b = true <-> forall v u, holds buf t v -> reads (ecs_ec s) k n u -> jequal v u = true)).
  { intros n t Ht. destruct (HV n t Ht) as [v Hv]. destruct (reads_total (ecs_ec s) k n (ec_inv _ (wf_ec s Hw))) as [u [Hu1 Hu2]].
    unfold payecs_setcomponents_validate. unfold ecs_get_component. simpl in Hu2.
    destruct (ec_get_component (ecs_ec s) k n) as [fl [eb et]] eqn:Eg. simpl in Hu2. simplify_eq.
    rewrite (json_equal_spec buf t v (text u) (toks 0 u) u Hv (holds_self u Hu1)). exists (jequal v u).
    split; [by destruct (jequal v u)|]. split.
    - intros Hq v' u' Hv' [Hu1' Hu2']. simpl in Hu2'. rewrite Eg in Hu2'. simpl in Hu2'. simplify_eq.
      pose proof (json_equal_spec buf t v' (text u) (toks 0 u) u Hv' (holds_self u Hu1)) as E1.
      pose proof (json_equal_spec buf t v (text u) (toks 0 u) u Hv (holds_self u Hu1)) as E2.
      pose proof (json_equal_spec buf t v' (text u') (toks 0 u') u' Hv' (holds_self u' Hu1')) as E3.
      congruence.
    - intros Hall. apply Hall; [done|]. split; [done|]. simpl. by rewrite Eg. }
  destruct comps as [nd|]; [|exists true; split; [done|]; split; [|done]; intros _ n t v u Hl; unfold strmap_to_map in Hl; by simplify_map_eq].
  cbn [strmap_iterate]. simpl in W.
  assert (HI : forall n, (forall k0 t0, (k0, t0) ∈ elements n -> strmap_to_map (Some nd) !! k0 = Some t0) ->
    exists b, iterate n (payecs_setcomponents_validate s k buf) (Ret true) = (b, Ret b) /\
      (b = true <-> forall n0 t v u, (n0, t) ∈ elements n -> holds buf t v -> reads (ecs_ec s) k n0 u -> jequal v u = true)).
  { induction n as [n0 t0|c0 IH0 c1 IH1 b i]; intros Hsub; cbn [iterate elements] in *.
    - destruct (Hone n0 t0) as (b & E & Hb); [apply Hsub; set_solver|]. rewrite E. exists b. split; [done|]. rewrite Hb. split.
      + intros Hall n1 t1 v u [= -> ->]%list_elem_of_singleton. apply Hall.
      + intros Hall v u. apply Hall. set_solver.
    - destruct IH0 as (b0 & E0 & Hb0); [intros; apply Hsub; set_solver|]. rewrite E0. destruct b0.
      + destruct IH1 as (b1 & E1 & Hb1); [intros; apply Hsub; set_solver|]. rewrite E1. exists b1. split; [done|]. rewrite Hb1. split.
        * intros Hall n1 t1 v u [Hin|Hin]%elem_of_app; [by apply Hb0|by apply Hall].
        * intros Hall n1 t1 v u Hin. apply Hall. set_solver.
      + exists false. split; [done|]. split; [done|]. intros Hall. apply Hb0. intros n1 t1 v u Hin. apply Hall. set_solver. }
  destruct (HI nd) as (b & E & Hb).
  { intros k0 t0 Hin. unfold strmap_to_map. apply elem_of_list_to_map_1; [by apply keys_NoDup|done]. }
  exists b. rewrite E. split; [done|]. rewrite Hb. split.
  - intros Hall n t v u Hl. apply Hall. by apply elem_of_list_to_map_2.
  - intros Hall n t v u Hin. apply Hall. apply elem_of_list_to_map_1; [by apply keys_NoDup|done].
Qed.

(** After a write the components named have the values given, the rest is as
    it was. *)
Definition written (s s' : pecs) (k : Z) (buf : bytes) (comps : gmap bytes (list jsmntok)) : Prop :=
  ecs_wf s' /\ same_systems s s' /\
  (forall n t v, comps !! n = Some t -> holds buf t v -> ecs_get_component s' k n = got v) /\
  (forall k' n, k' <> k \/ comps !! n = None -> ecs_get_component s' k' n = ecs_get_component s k' n).

(** Two readings of the same tokens give the same component. *)
Lemma got_same buf t v v' : holds buf t v -> holds buf t v' -> got v = got v'.
Proof.
  intros H H'. unfold got. rewrite <- (is_null_holds _ _ _ H), <- (is_null_holds _ _ _ H').
  destruct (json_tok_is_null buf t); [done|].
  pose proof (ec_cell_new_holds [] _ _ _ H) as E. rewrite (ec_cell_new_holds [] _ _ _ H') in E.
  unfold cell_of in E. injection E as E1 E2. by rewrite E1, E2.
Qed.

Lemma write_elements k buf l : forall s,
  ecs_wf s -> is_u32 k -> NoDup l.*1 -> (forall n t, (n, t) ∈ l -> no_nul n /\ exists v, holds buf t v) ->
  exists s', foldl (fun d kv => (payecs_setcomponents_write k buf kv.1 kv.2 d).2) (Ret s) l = Ret s' /\
    written s s' k buf (list_to_map l).
Proof.
  induction l as [|[n t] l IH]; intros s Hw Hk HN HG.
  { exists s. split; [done|]. split_and!; done. }
  cbn [fmap list_fmap fst] in HN. apply NoDup_cons in HN as [Hnin HN].
  destruct (HG n t ltac:(set_solver)) as [Hn [v Hv]].
  destruct (ecs_set_holds s k n buf t v Hw Hk Hn Hv) as (s1 & E1 & W1 & S1 & G1).
  destruct (IH s1 W1 Hk HN) as (s' & E' & W' & S' & A' & B'); [intros; apply HG; set_solver|].
  exists s'. cbn [foldl fst snd payecs_setcomponents_write obind]. rewrite E1. split; [done|].
  assert (Hnone : (list_to_map l : gmap bytes (list jsmntok)) !! n = None) by (by apply not_elem_of_list_to_map_1).
  split_and!; [done|destruct S1, S'; split; congruence| |].
  - intros n' t' v' Hl Hv'. cbn [list_to_map foldr] in Hl. simpl in Hl. apply lookup_insert_Some in Hl as [[<- <-]|[Hne Hl]].
    + rewrite B' by auto. rewrite G1, decide_True by done. by eapply got_same.
    + by eapply A'.
  - intros k' n' Hd. simpl in Hd. assert (Hd' : k' <> k \/ (n <> n' /\ (list_to_map l : gmap bytes (list jsmntok)) !! n' = None)).
    { destruct Hd as [?|[? ?]%lookup_insert_None]; auto. }
    rewrite B' by tauto. rewrite G1. by rewrite decide_False by (intros [= -> ->]; tauto).
Qed.

Lemma iterate_write s k buf comps :
  ecs_wf s -> is_u32 k -> strmap_wf comps ->
  (forall n t, strmap_to_map comps !! n = Some t -> no_nul n /\ exists v, holds buf t v) ->
  exists s', strmap_iterate comps (payecs_setcomponents_write k buf) (Ret s) = Ret s' /\
    written s s' k buf (strmap_to_map comps).
Proof.
  intros Hw Hk W HG. rewrite strmap_iterate_elements by done. pose proof (strmap_keys_NoDup comps W) as HN.
  apply write_elements; try done. intros n t Hin. apply HG. by apply elem_of_list_to_map_1.
Qed.

(** A write that is not exact. *)
Lemma write1_spec buf s i w :
  ecs_wf s -> ws_good buf w -> ws_exact w = false ->
  exists s', write1 buf s (i, w) = Ret s' /\ written s s' (ws_entity w) buf (strmap_to_map (ws_components w)).
Proof.
  intros Hw (G1 & G2 & G3) He. unfold write1. rewrite He. cbn [obind]. by apply iterate_write.
Qed.

(** Each expectation is decided. *)
Lemma validate1_spec s buf w :
  ecs_wf s -> ws_good buf w ->
  exists b, validate1 s buf w = Ret b /\
    (b = true <->
      (forall n t v u, strmap_to_map (ws_components w) !! n = Some t -> holds buf t v ->
         reads (ecs_ec s) (ws_entity w) n u -> jequal v u = true) /\
      (ws_exact w = true -> ws_num_components w = size (default ∅ (ec_map (ecs_ec s) !! ws_entity w)))).
Proof.
  intros Hw (G1 & G2 & G3). unfold validate1.
  destruct (iterate_validate s (ws_entity w) buf (ws_components w) Hw G2) as (b & -> & Hb); [intros; by eapply G3|].
  cbn [obind]. destruct b; cbn [negb].
  2: { exists false. split; [done|]. split; [done|]. intros [HA _]. apply Hb. exact HA. }
  destruct (ws_exact w) eqn:Ex.
  2: { exists true. split; [done|]. split; [|done]. intros _. split; [by apply Hb|done]. }
  unfold ecs_get_components. rewrite ec_get_components_row by (by apply wf_ec). cbn [obind].
  eexists. split; [reflexivity|]. rewrite Nat.eqb_eq.
  assert (Hsz : length (default [] match intmap_get (entity_map (ecs_ec s)) (ws_entity w) with Some row => Some (strmap_elements row).*1 | None => None end)
    = size (default ∅ (ec_map (ecs_ec s) !! ws_entity w))).
  { rewrite ec_row_map by (by apply wf_ec). destruct (intmap_get (entity_map (ecs_ec s)) (ws_entity w)) as [row|] eqn:E; [|done]. simpl.
    rewrite length_fmap. rewrite intmap_get_map in E by (apply wf_ec; done).
    destruct (wf_row _ (wf_ec s Hw) _ _ E) as [Wr _]. unfold strmap_to_map.
    rewrite <- (length_map_to_list (M := gmap bytes)), map_to_list_to_map; [done|]. by apply strmap_keys_NoDup. }
  rewrite Hsz. split; [intros E; split; [by apply Hb|by intros _]|intros [_ HE]; symmetry; by apply HE].
Qed.
