(* ===== verification/Replies.v ===== *)
(** The replies of the commands, as JSON trees. *)
From S2P Require Import Prelude Utf8 Jsmn JsonTree JsmnProofs Json JsonProofs JsonEqual JsonOut JsonOutProofs JsonScan.
From S2P Require Import JsonScanProofs Libplugin Param Strmap Intmap Ec EcProofs Setsystems Ecsys.
From S2P Require Import EcsysProofs Ecs Systems PayecsData PayecsCode PayecsProofs.

(** [{"jsonrpc": "2.0", "id": ..., "result": v}] *)
Definition reply (id : Z) (v : jv) : jv :=
  JObj [] [Member0 (bs "jsonrpc") (JStr (bs "2.0")); Member0 (bs "id") (JPrim (fmt_u id)); Member0 (bs "result") v].

(** The same with an error object. *)
Definition error_reply (id code : Z) (msg : bytes) : jv :=
  JObj [] [Member0 (bs "jsonrpc") (JStr (bs "2.0")); Member0 (bs "id") (JPrim (fmt_u id));
           Member0 (bs "error") (error_obj code msg)].

(** The message as it is sent. *)
Definition message (v : jv) : event := Sent (text v ++ [LF; LF]).

Lemma stream_start_obj id :
  in_obj (jsonrpc_stream_start id) (bs "{") [Member0 (bs "jsonrpc") (JStr (bs "2.0")); Member0 (bs "id") (JPrim (fmt_u id))].
Proof.
  unfold jsonrpc_stream_start, json_add_u64.
  apply (in_obj_raw _ _ [Member0 (bs "jsonrpc") (JStr (bs "2.0"))]).
  apply (in_obj_string _ _ [] (bs "jsonrpc") (bs "2.0") in_obj_new). auto with payz.
Qed.

(** A message whose outer object has the members [ms]. *)
Lemma complete_obj js ms :
  in_obj js (bs "{") ms -> command_complete js = Ret (message (JObj [] ms)).
Proof.
  intros HJ. unfold command_complete, json_stream_close.
  destruct (double_cr_text _ _ (in_obj_end _ _ HJ)) as (js8 & -> & E8); [eauto|]. cbn [obind]. by rewrite E8.
Qed.

(** Finishing a result object. *)
Lemma finished_obj id js ms :
  in_obj js (outbuf (jsonrpc_stream_success id)) ms -> command_finished js = Ret (message (reply id (JObj [] ms))).
Proof.
  intros HJ. unfold command_finished. apply complete_obj.
  exact (in_obj_close _ _ _ _ _ _ (stream_start_obj id) HJ).
Qed.

Lemma success_obj id : command_success id (json_out_obj None) = Ret (message (reply id (JObj [] []))).
Proof.
  unfold command_success. apply complete_obj.
  exact (in_obj_add _ _ _ (bs "result") (JObj [] []) (stream_start_obj id)).
Qed.

Lemma fail_obj id code msg :
  no_nul msg -> command_fail id code msg = Ret (message (error_reply id code msg)).
Proof.
  intros Hm. unfold command_fail, command_done_err. apply complete_obj.
  eapply (in_obj_close _ _ _ _ _ _ (stream_start_obj id)).
  apply (in_obj_string _ _ [Member0 (bs "code") (JPrim (fmt_d code))]); [|done].
  apply (in_obj_raw _ _ []). apply start_again.
Qed.

(** * Components of an entity *)

Lemma splice_spec (s : pecs) k cs vs js base ms :
  Forall2 (reads (ecs_ec s) k) cs vs -> in_obj js base ms ->
  exists js', json_splice_entity_components s js k cs = Ret js' /\
    in_obj js' base (ms ++ Member0 (bs "entity") (JPrim (fmt_u k)) :: map (fun cv => Member0 cv.1 cv.2) (zip cs vs)).
Proof.
  intros HF HJ. unfold json_splice_entity_components.
  destruct (add_components_spec (ecs_ec s) k cs vs _ _ _ HF (in_obj_raw _ _ _ (bs "entity") (fmt_u k) HJ)) as (js' & E & HJ').
  exists js'. split; [exact E|]. by rewrite <- app_assoc in HJ'.
Qed.

(** * Listing *)

Lemma has_spec cs c : has cs c = true <-> c ∈ cs.
Proof.
  unfold has. rewrite existsb_exists. unfold streq. setoid_rewrite bool_decide_eq_true. setoid_rewrite <- list_elem_of_In.
  split; [by intros (x & ? & ->)|eauto].
Qed.

(** Is the entity in the list?  [cs] are the names of its components. *)
Definition selected (required disallowed cs : list bytes) : bool :=
  match cs with
  | [] => false
  | _ => negb (skip_required required cs) && negb (skip_disallowed disallowed cs)
  end.

Lemma selected_iff required disallowed cs :
  selected required disallowed cs = true <->
    cs <> [] /\ (forall c, c ∈ required -> c ∈ cs) /\ (forall c, c ∈ drop 9 disallowed -> c ∉ cs).
Proof.
  unfold selected. destruct cs as [|c0 cs]; [split; [done|by intros [? _]]|]. set (l := c0 :: cs).
  unfold skip_required, skip_disallowed. rewrite negb_involutive, andb_true_iff, forallb_forall, negb_true_iff.
  setoid_rewrite has_spec. setoid_rewrite <- list_elem_of_In. split.
  - intros [H1 H2]. split_and!; [done|done|]. intros c Hc Hin. apply not_true_iff_false in H2. apply H2.
    apply existsb_exists. exists c. rewrite has_spec. split; [by apply list_elem_of_In|done].
  - intros (_ & H1 & H2). split; [done|]. apply not_true_iff_false. intros (c & Hc & Hh)%existsb_exists.
    apply has_spec in Hh. apply list_elem_of_In in Hc. by apply (H2 c).
Qed.

(** The names of an entity's components. *)
Definition names (s : pecs) (k : Z) : list bytes :=
  match intmap_get (entity_map (ecs_ec s)) k with Some row => (strmap_elements row).*1 | None => [] end.

Lemma list_entity_spec (s : pecs) required disallowed k js base es :
  ecs_wf s -> in_arr js base es ->
  exists js' vs, list_entity s required disallowed js k = Ret js' /\ Forall2 (reads (ecs_ec s) k) (names s k) vs /\
    in_arr js' base (es ++ if selected required disallowed (names s k) then [Elem0 (entity_obj k (zip (names s k) vs))] else []).
Proof.
  intros Hw HJ. destruct (reads_all (ecs_ec s) k (names s k) (ec_inv _ (wf_ec s Hw))) as [vs Hvs].
  unfold list_entity, ecs_get_components. rewrite ec_get_components_row by (by apply wf_ec). cbn [obind].
  unfold names in *. destruct (intmap_get (entity_map (ecs_ec s)) k) as [row|]; [|exists js, vs; by rewrite app_nil_r].
  destruct ((strmap_elements row).*1) as [|c0 cs] eqn:Ecs; [exists js, vs; by rewrite app_nil_r|].
  unfold selected. destruct (skip_required required (c0 :: cs)); [exists js, vs; by rewrite app_nil_r|].
  destruct (skip_disallowed disallowed (c0 :: cs)); [exists js, vs; by rewrite app_nil_r|]. cbn [negb andb].
  destruct (splice_spec s k (c0 :: cs) vs _ _ _ Hvs (start_again js None)) as (js' & -> & HJ'). cbn [obind].
  exists (json_object_end js'), vs. split_and!; [done|done|]. exact (in_arr_close_obj _ _ _ _ _ HJ HJ').
Qed.

(** The list built by the loop. *)
Inductive listing (s : pecs) (required disallowed : list bytes) : list Z -> list jelem -> Prop :=
| listing_nil : listing s required disallowed [] []
| listing_take k ks vs es :
    selected required disallowed (names s k) = true -> Forall2 (reads (ecs_ec s) k) (names s k) vs ->
    listing s required disallowed ks es ->
    listing s required disallowed (k :: ks) (Elem0 (entity_obj k (zip (names s k) vs)) :: es)
| listing_skip k ks es :
    selected required disallowed (names s k) = false ->
    listing s required disallowed ks es -> listing s required disallowed (k :: ks) es.

Lemma list_entities_spec (s : pecs) required disallowed ks : forall js base es,
  ecs_wf s -> in_arr js base es ->
  exists js' es', ofold (list_entity s required disallowed) js ks = Ret js' /\
    listing s required disallowed ks es' /\ in_arr js' base (es ++ es').
Proof.
  induction ks as [|k ks IH]; intros js base es Hw HJ.
  { exists js, []. rewrite app_nil_r. split_and!; [done|constructor|done]. }
  destruct (list_entity_spec s required disallowed k js base es Hw HJ) as (js1 & vs & E1 & Hvs & HJ1).
  destruct (IH js1 base _ Hw HJ1) as (js' & es' & E' & HL & HJ'). cbn [ofold]. rewrite E1. cbn [obind].
  destruct (selected required disallowed (names s k)) eqn:Es.
  - exists js', (Elem0 (entity_obj k (zip (names s k) vs)) :: es'). split_and!; [done|by constructor|].
    by rewrite <- app_assoc in HJ'.
  - exists js', es'. split_and!; [done|by constructor|]. by rewrite app_nil_r in HJ'.
Qed.

(** Which entities are in a listing. *)
Lemma listing_entities s required disallowed ks es :
  listing s required disallowed ks es ->
  Forall2 (fun k e => exists cs, e = Elem0 (entity_obj k cs) /\ map fst cs = names s k)
    (filter (fun k => selected required disallowed (names s k) = true) ks) es.
Proof.
  induction 1 as [|k ks vs es Hs Hv _ IH|k ks es Hs _ IH]; [constructor| |].
  - rewrite filter_cons_True by done. constructor; [|done]. exists (zip (names s k) vs). split; [done|].
    apply Forall2_length in Hv. clear -Hv. revert vs Hv. generalize (names s k) as cs.
    induction cs as [|c cs IH]; intros [|v vs] Hl; try done. cbn [zip zip_with map fst]. f_equal. apply IH. by simplify_eq/=.
  - rewrite filter_cons_False by (rewrite Hs; done). done.
Qed.

(** * Parameters of the commands

    What the parameters of the commands give, and what validating and writing
    lists of specifications does. *)

(** * payecs_setcomponents *)

Lemma writespecs_good buf ts vs l :
  Forall2 (holds buf) ts vs -> writespecs buf ts = Some l -> Forall (ws_good buf) l.
Proof.
  intros HF. revert l. induction HF as [|t v ts vs Ht _ IH]; intros l; cbn [writespecs]; [by intros [= <-]|].
  destruct (json_to_payecs_writespec buf t) as [w|] eqn:E; [|done]. destruct (writespecs buf ts) as [l'|]; [|done].
  intros [= <-]. constructor; [by eapply writespec_good|by apply IH].
Qed.

Lemma array_of_writespec_good name buf t v l :
  holds buf t v -> param_array_of_payecs_writespec name buf t = inr l -> Forall (ws_good buf) l.
Proof.
  intros Hh. unfold param_array_of_payecs_writespec. destruct (holds_cur _ _ _ Hh) as (-> & _). destruct v as [| |w es|w ms]; [done|done|..].
  - destruct (writespecs _ _) as [l'|] eqn:E; [|done]. intros [= <-]. exact (writespecs_good _ _ _ _ (holds_arr _ _ _ _ Hh) E).
  - destruct (json_to_payecs_writespec buf t) as [x|] eqn:E; [|done]. intros [= <-]. apply Forall_singleton. by eapply writespec_good.
Qed.

(** What the parameters give: the writes and the expectations. *)
Lemma setcomponents_args buf params v args :
  holds buf params v -> param_ buf params setcomponents_params = inr args ->
  exists writes expected, args = [Some writes; expected] /\ Forall (ws_good buf) writes /\ Forall (ws_good buf) (default [] expected).
Proof.
  intros Hh Hp. destruct (param_args _ _ _ setcomponents_params _ Hh ltac:(repeat constructor) Hp) as (HL & HA & HR).
  destruct (HR 0 ltac:(simpl; lia)) as [w Hw]. { intros [|j] q Hj Hq; [by injection Hq as <-|lia]. }
  destruct args as [|a [|b [|]]]; try done. injection Hw as ->. exists w, b. split; [done|]. split.
  - destruct (HA 0 w eq_refl) as (p & t & u & [= <-] & Ht & Hc). by eapply array_of_writespec_good.
  - destruct b as [e|]; [|done]. destruct (HA 1 e eq_refl) as (p & t & u & [= <-] & Ht & Hc). by eapply array_of_writespec_good.
Qed.

(** An expectation holds of the table: each component it names reads as a value
    that equals the given one, and an exact one names all of them. *)
Definition expectation (s : pecs) (buf : bytes) (w : payecs_writespec) : Prop :=
  (forall n t v u, strmap_to_map (ws_components w) !! n = Some t -> holds buf t v ->
     reads (ecs_ec s) (ws_entity w) n u -> jequal v u = true) /\
  (ws_exact w = true -> ws_num_components w = size (default ∅ (ec_map (ecs_ec s) !! ws_entity w))).

Lemma validate_all s buf l :
  ecs_wf s -> Forall (ws_good buf) l ->
  exists b, oall (validate1 s buf) l = Ret b /\ (b = true <-> Forall (expectation s buf) l).
Proof.
  intros Hs. induction 1 as [|w l Hw _ IH]; [by exists true|]. cbn [oall].
  destruct (validate1_spec s buf w Hs Hw) as (b & -> & Hb). cbn [obind]. destruct b.
  - destruct IH as (b' & -> & Hb'). exists b'. split; [done|]. rewrite Hb', Forall_cons. unfold expectation at 2. tauto.
  - exists false. split; [done|]. split; [done|]. rewrite Forall_cons. intros [HX _]. by apply Hb in HX.
Qed.

(** The writes, one after another. *)
Inductive writes_done (buf : bytes) : list payecs_writespec -> pecs -> pecs -> Prop :=
| writes_nil s : writes_done buf [] s s
| writes_cons w l s s1 s2 :
    written s s1 (ws_entity w) buf (strmap_to_map (ws_components w)) ->
    writes_done buf l s1 s2 -> writes_done buf (w :: l) s s2.

Lemma write_all buf l : Forall (ws_good buf) l -> Forall (fun w => ws_exact w = false) l -> forall n s,
  ecs_wf s -> exists s', ofold (write1 buf) s (imap (fun i w => (n + i, w)) l) = Ret s' /\ ecs_wf s' /\ writes_done buf l s s'.
Proof.
  induction 1 as [|w l Hw _ IH]; intros HE n s Hs; [exists s; split_and!; [done..|constructor]|].
  inv HE as [|? ? He HE']. cbn [imap ofold]. destruct (write1_spec buf s (n + 0) w Hs Hw He) as (s1 & -> & W1). cbn [obind].
  destruct (IH HE' (S n) s1) as (s' & E & W & D); [apply W1|]. exists s'. split_and!; [|done|by econstructor].
  rewrite <- E. f_equal. apply imap_ext. intros i x _. simpl. f_equal. lia.
Qed.

(** The deletions of an exact write only ever delete one component. *)
Lemma delete_rounds k cs i c : cs !! i = Some c -> forall js s, ecs_wf s -> js <> [] ->
  exists s', ofold (delete_round k cs i) s js = Ret s' /\ updated s s' k c got_none.
Proof.
  intros Hc. induction js as [|j js IH]; intros s Hs Hj; [done|]. cbn [ofold]. unfold delete_round at 1. rewrite Hc.
  destruct (ecs_clear s k c Hs) as (s1 & -> & U1). cbn [obind]. destruct js as [|j' js]; [by exists s1|].
  destruct (IH s1 (proj1 U1)) as (s' & E & U); [done|]. exists s'. split; [done|].
  destruct U1 as (W1 & [S1 S1'] & G1), U as (W & [S2 S2'] & G). split; [done|]. split; [split; congruence|].
  intros k' n'. rewrite G, G1. by case_decide.
Qed.

(** * Other parameters *)

Lemma param_number_u32 name buf t n : param_number name buf t = inr n -> is_u32 n.
Proof.
  unfold param_number. destruct (json_to_number buf t) as [z|] eqn:E; [|done]. intros [= <-].
  by apply fits_range in E.
Qed.
