(* ===== verification/Plugin.v ===== *)
(** The plugin as lightningd drives it: the command tables of payecs_data.c and
    payecs_code.c, and the two places of plugins/libplugin.c where messages come
    in, [ld_command_handle] (once the handshake is done) and [handle_rpc_reply]. *)
From S2P Require Import Prelude Utf8 Jsmn JsonTree JsmnProofs Json JsonProofs.
From S2P Require Import JsonEqual JsonOut JsonOutProofs JsonScan JsonScanProofs Libplugin Param.
From S2P Require Import Strmap Intmap Ec EcProofs Setsystems Ecsys EcsysProofs Ecs Systems.
From S2P Require Import PayecsData PayecsCode.

(** * Command tables *)

(** [plugin_command.handle]; the first argument is [*cmd->id]. *)
Definition handler : Type := Z -> payz -> bytes -> list jsmntok -> outcome (payz * list event).

(** A command that only works on [payz_top->ecs]. *)
Definition on_ecs (h : Z -> pecs -> bytes -> list jsmntok -> outcome (pecs * list event)) : handler :=
  fun id p buf params => let! (s, evs) := h id (top_ecs p) buf params in Ret (with_ecs p s, evs).

Definition payecs_data_commands : list (bytes * handler) :=
  [(bs "payecs_listentities", on_ecs payecs_listentities);
   (bs "payecs_newentity", on_ecs payecs_newentity);
   (bs "payecs_getcomponents", on_ecs payecs_getcomponents);
   (bs "payecs_setcomponents", on_ecs payecs_setcomponents)].

Definition payecs_code_commands : list (bytes * handler) :=
  [(bs "payecs_newsystem", payecs_newsystem);
   (bs "payecs_advance", payecs_advance);
   (bs "payecs_getdefaultsystems", payecs_getdefaultsystems);
   (bs "payecs_setdefaultsystems", payecs_setdefaultsystems);
   (bs "payecs_systrace", payecs_systrace)].

(** [payz_top->commands] *)
Definition payz_commands : list (bytes * handler) := payecs_data_commands ++ payecs_code_commands.

(** * The plugin *)

(** What a message finds outside the program: random bytes, the formatted time. *)
Record world : Type := World { w_random : bytes; w_time : bytes }.

(** The plugin's globals, [default_maxdelay], and of [struct plugin] the requests
    that wait for a reply, with the entity in the closure of each. *)
Record plugin : Type := Plugin {
  top : payz; maxdelay : option bytes; outreq_id : Z; out_reqs : intmap Z }.

Definition payecs_code_notifications (w : world) (pl : plugin) : list (bytes * (payz -> bytes -> list jsmntok -> outcome (payz * list event))) :=
  [(ECSYS_SYSTEM_NOTIFICATION, payecs_system_notification (Env (w_random w) (maxdelay pl) (outreq_id pl)) (w_time w))].

(** [plugin->next_outreq_id++] and [uintmap_add] of [jsonrpc_request_start_]. *)
Definition record_request (st : Z * intmap Z) (ev : event) : Z * intmap Z :=
  match ev with
  | Requested id arg _ => (wrap64 (st.1 + 1), (intmap_add st.2 id arg).2)
  | _ => st
  end.

(** The plugin after a handler. *)
Definition handled (pl : plugin) (r : outcome (payz * list event)) : outcome (plugin * list event) :=
  let! (p, evs) := r in
  let '(next, reqs) := foldl record_request (outreq_id pl, out_reqs pl) evs in
  Ret (Plugin p (maxdelay pl) next reqs, evs).

(** The entry of a table with a name. *)
Definition find_name {A : Type} (table : list (bytes * A)) (name : bytes) : option A :=
  snd <$> List.find (fun e => streq name e.1) table.

(** [ld_command_handle] after getmanifest and init; the plugin has no hooks. *)
Definition ld_dispatch (w : world) (pl : plugin) (buffer : bytes) (toks : list jsmntok) : outcome (plugin * list event) :=
  let idtok := json_get_member buffer toks (bs "id") in
  match json_get_member buffer toks (bs "method"), json_get_member buffer toks (bs "params") with
  | Some methtok, Some paramstok =>
      let methodname := json_strdup buffer methtok in
      match idtok with
      | Some t =>
          match json_to_u64 false buffer t with
          | None => Abort "plugin_err: JSON id is not a number"
          | Some id =>
              match find_name payz_commands methodname with
              | Some h => handled pl (h id (top pl) buffer paramstok)
              | None => Abort "plugin_err: Unknown command"
              end
          end
      | None =>
          match find_name (payecs_code_notifications w pl) methodname with
          | Some h => handled pl (h (top pl) buffer paramstok)
          | None => Abort "plugin_err: Unregistered notification"
          end
      end
  | _, _ => Abort "plugin_err: Malformed JSON-RPC notification"
  end.

(** [handle_rpc_reply]; every request of the plugin is [decode], with the
    callbacks of parse_invoice.c. *)
Definition handle_rpc_reply (pl : plugin) (buffer : bytes) (toks : list jsmntok) : outcome (plugin * list event) :=
  match json_get_member buffer toks (bs "id") with
  | None => Ret (pl, [])
  | Some idtok =>
      match json_to_u64 false buffer idtok with
      | None => Abort "plugin_err: JSON reply without numeric id"
      | Some id =>
          match intmap_get (out_reqs pl) id with
          | None => Abort "plugin_err: JSON reply with unknown id"
          | Some entity =>
              let pl1 := Plugin (top pl) (maxdelay pl) (outreq_id pl) (intmap_del (out_reqs pl) id).2 in
              let call (cb : pecs -> Z -> bytes -> list jsmntok -> outcome (pecs * list event)) t :=
                handled pl1 (let! (s, evs) := cb (top_ecs (top pl)) entity buffer t in Ret (with_ecs (top pl) s, evs)) in
              match json_get_member buffer toks (bs "error") with
              | Some contenttok => call ParseInvoice.parse_invoice_decode_ng contenttok
              | None =>
                  match json_get_member buffer toks (bs "result") with
                  | Some contenttok => call ParseInvoice.parse_invoice_decode_ok contenttok
                  | None => Abort "plugin_err: Bad JSONRPC, no 'error' nor 'result'"
                  end
              end
          end
      end
  end.

(** The plugin after set-up and init; [contents] is the reply to the
    [listconfigs] of [system_defaulter_init]. *)
Definition plugin_start (buffer : bytes) (contents : list jsmntok) : outcome plugin :=
  let! p := setup_payz_top in
  let! delay := Defaulter.system_defaulter_init buffer contents in
  Ret (Plugin p (Some delay) 0 intmap_init).

(** * Runs *)

(** A message on one of the two connections. *)
Inductive message_in : Type :=
| FromLightningd (buffer : bytes) (toks : list jsmntok)
| RpcReply (buffer : bytes) (toks : list jsmntok).

Definition handle_message (w : world) (pl : plugin) (m : message_in) : outcome (plugin * list event) :=
  match m with
  | FromLightningd buffer toks => ld_dispatch w pl buffer toks
  | RpcReply buffer toks => handle_rpc_reply pl buffer toks
  end.

(** Any JSON text for a command or a notification; the result of a [decode] is
    an object. *)
Inductive well_formed : message_in -> Prop :=
| wf_from buffer toks v : holds buffer toks v -> well_formed (FromLightningd buffer toks)
| wf_reply buffer toks v :
    holds buffer toks v -> (forall u, field_of v (bs "result") = Some u -> exists w ms, u = JObj w ms) ->
    well_formed (RpcReply buffer toks).

(** One message, handled to the end. *)
Inductive plugin_step : plugin -> plugin -> Prop :=
| step_message w pl m pl' evs : well_formed m -> handle_message w pl m = Ret (pl', evs) -> plugin_step pl pl'.
