(* ===== verification/PluginProofs.v ===== *)
(** Every command, notification and reply preserves the plugin's invariant. *)
From S2P Require Import Prelude Utf8 Jsmn JsonTree JsmnProofs Json JsonProofs JsonEqual JsonOut JsonOutProofs JsonScan.
From S2P Require Import JsonScanProofs Libplugin Param Strmap Intmap Ec EcProofs Setsystems Ecsys EcsysProofs.
From S2P Require Import Ecs Systems PayecsData PayecsCode PayecsProofs Replies Plugin.

(** Takes a [let!] that returned apart. *)
Ltac run H :=
  let a := fresh "a" in let E := fresh "E" in
  apply obind_ret in H as (a & E & H).

(** * What the table operations keep *)

(** A table that is still well formed, with the same systems. *)
Definition kept_ecs (s s' : pecs) : Prop := ecs_wf s' /\ same_systems s s'.

Lemma kept_refl s : ecs_wf s -> kept_ecs s s.
Proof. done. Qed.

Lemma kept_trans s1 s2 s3 : kept_ecs s1 s2 -> kept_ecs s2 s3 -> kept_ecs s1 s3.
Proof. intros [_ [A B]] [W [C D]]. split; [done|split; congruence]. Qed.

(** A request that is sent has a u64 for an id and is about an entity. *)
Definition ev_ok (ev : event) : Prop :=
  match ev with Requested id arg _ => (0 <= id < u64_mod)%Z /\ is_u32 arg | _ => True end.

(** The result of a handler on the table. *)
Definition good (s s' : pecs) (evs : list event) : Prop := kept_ecs s s' /\ Forall ev_ok evs.

Lemma good_trans s1 s2 s3 evs : kept_ecs s1 s2 -> good s2 s3 evs -> good s1 s3 evs.
Proof. intros K [K' HE]. split; [by eapply kept_trans|done]. Qed.

(** Replies are sent to lightningd. *)
Lemma complete_ok js ev : command_complete js = Ret ev -> ev_ok ev.
Proof. intros H. unfold command_complete in H. run H. by injection H as <-. Qed.

#[local] Hint Extern 1 (ev_ok _) => eapply complete_ok; eassumption : core.

(** Closes what is left of a handler that ends with a reply. *)
Ltac replied H := run H; injection H as <- <-; split; [done|constructor; [eapply complete_ok; eassumption|constructor]].

Lemma kept_updated s s' k n g : updated s s' k n g -> kept_ecs s s'.
Proof. by intros (W & S & _). Qed.

Lemma kept_datum (s s' : pecs) k n d v :
  ecs_wf s -> is_u32 k -> no_nul n -> jv_ok v = true -> d = text v -> ecs_set_component_datum s k n (Some d) = Ret s' -> kept_ecs s s'.
Proof.
  intros Hs Hk Hn Hv -> H. destruct (ecs_datum s k n v Hs Hk Hn Hv) as (s1 & E & U). rewrite E in H. injection H as <-. by eapply kept_updated.
Qed.

Lemma kept_set (s s' : pecs) k n b t v :
  ecs_wf s -> is_u32 k -> no_nul n -> holds b t v -> ecs_set_component s k n (Some b) (Some t) = Ret s' -> kept_ecs s s'.
Proof.
  intros Hs Hk Hn Hv H. destruct (ecs_set_holds s k n b t v Hs Hk Hn Hv) as (s1 & E & U). rewrite E in H. injection H as <-. by eapply kept_updated.
Qed.

Lemma kept_clear (s s' : pecs) k n : ecs_wf s -> ecs_set_component s k n None None = Ret s' -> kept_ecs s s'.
Proof.
  intros Hs H. destruct (ecs_clear s k n Hs) as (s1 & E & U). rewrite E in H. injection H as <-. by eapply kept_updated.
Qed.

Lemma kept_advance_done (s s' : pecs) k evs : ecs_wf s -> is_u32 k -> ecs_advance_done s k = Ret (s', evs) -> good s s' evs.
Proof.
  intros Hs Hk H. unfold ecs_advance_done in H.
  destruct (advance_done_spec (ecs_ec s) (ecs_ecsys s) k (ec_inv _ (wf_ec s Hs)) (wf_ecsys s Hs) Hk) as (e' & ev & E & We & _ & HE).
  rewrite E in H. injection H as <- <-. split; [split; [by apply ecs_wf_with|done]|]. constructor; [|constructor].
  by destruct HE as [(b & -> & _)|(l & m & c & -> & _)].
Qed.

(** * The built-in systems *)

(** A default delay that is the text of a JSON value. *)
Definition delay_ok (o : option bytes) : Prop := forall d, o = Some d -> exists v, jv_ok v = true /\ d = text v.

Lemma kept_set_default (s s' : pecs) k n v evs :
  ecs_wf s -> is_u32 k -> no_nul n -> jv_ok v = true -> Defaulter.set_default s k n (text v) = Ret (s', evs) -> good s s' evs.
Proof.
  intros Hs Hk Hn Hv H. unfold Defaulter.set_default in H. run H.
  pose proof (kept_datum _ _ _ _ _ v Hs Hk Hn Hv eq_refl E) as K1. eapply good_trans; [exact K1|].
  by eapply kept_advance_done; [apply K1| |].
Qed.

Lemma system_call_kept v f (s s' : pecs) k buffer eo u evs :
  ecs_wf s -> is_u32 k -> holds buffer eo u -> delay_ok (default_maxdelay v) -> (0 <= next_outreq_id v < u64_mod)%Z ->
  system_call v f s k buffer eo = Ret (s', evs) -> good s s' evs.
Proof.
  intros Hs Hk Hh Hd Hi H. destruct f; cbn [system_call] in H.
  - run H. pose proof (kept_datum _ _ _ (bs "lightningd:nonce") _ (JStr (hex_encode (random32 v))) Hs Hk ltac:(by apply no_nul_true) (hex_encode_ok _) eq_refl E) as K1.
    eapply good_trans; [exact K1|]. by eapply kept_advance_done; [apply K1| |].
  - unfold ParseInvoice.parse_invoice in H. run H. destruct (json_get_member _ _ _) as [t|]; [|done]. run H. run H. injection H as <- <-.
    split; [exact (kept_datum _ _ _ (bs "lightningd:parse_invoice:ran") _ (JPrim (bs "true")) Hs Hk ltac:(by apply no_nul_true) eq_refl eq_refl E)|].
    constructor; [|constructor]. unfold send_outreq in E1. run E1. by injection E1 as <-.
  - unfold ParseInvoice.promote_invoice_type in H. destruct (json_get_member _ _ _) as [t|]; [|done]. run H.
    assert (Hn : no_nul (bs "lightningd:invoice:type:" ++ json_strdup buffer t)).
    { apply Forall_app. split; [by apply no_nul_true|apply until_nul_no_nul]. }
    pose proof (kept_datum _ _ _ _ _ (JPrim (bs "true")) Hs Hk Hn eq_refl eq_refl E) as K1.
    eapply good_trans; [exact K1|]. by eapply kept_advance_done; [apply K1| |].
  - unfold InvoiceAmount.invoice_amount_msat in H. run H. rewrite ecs_datum_null in E. pose proof (kept_clear _ _ _ _ Hs E) as K1.
    run H. pose proof (get_field _ _ _ (bs "lightningd:invoice:amount_msat") Hh) as HG. unfold json_get_member in E0.
    destruct HG as [t y Ht|]; [|done]. pose proof (kept_set _ _ _ (bs "lightningd:amount") _ _ _ (proj1 K1) Hk ltac:(by apply no_nul_true) Ht E0) as K2.
    eapply good_trans; [exact K1|]. eapply good_trans; [exact K2|]. by eapply kept_advance_done; [apply K2| |].
  - unfold InvoiceAmount.fail_invoice_amount_and_amount in H. run H. run H. rewrite ecs_datum_null in E0. injection H as <- <-.
    assert (K1 : kept_ecs s a).
    { eapply (kept_datum s a k (bs "lightningd:error") _ (error_obj (-32602) (bs "msatoshi parameter unnecessary"))); [done|done|by apply no_nul_true| |reflexivity|exact E]. done. }
    split; [|constructor]. eapply kept_trans; [exact K1|]. eapply kept_clear; [apply K1|done].
  - eapply (kept_set_default s s' k _ (JPrim (bs "10"))); try done. by apply no_nul_true.
  - eapply (kept_set_default s s' k _ (JPrim (bs "0.5"))); try done. by apply no_nul_true.
  - eapply (kept_set_default s s' k _ (JPrim (bs "60"))); try done. by apply no_nul_true.
  - unfold Defaulter.defaulter_maxdelay in H. destruct (default_maxdelay v) as [d|] eqn:Ed; [|done].
    destruct (Hd d eq_refl) as (w & Hw & ->). eapply (kept_set_default s s' k _ w); try done. by apply no_nul_true.
  - eapply (kept_set_default s s' k _ (JStr (bs "5000msat"))); try done. by apply no_nul_true.
Qed.

(** * Commands *)

(** If it returns, the invariant holds of the new globals. *)
Definition keeps (r : outcome (payz * list event)) : Prop :=
  forall p' evs, r = Ret (p', evs) -> payz_wf p' /\ Forall ev_ok evs.

Lemma keeps_reply p js : payz_wf p -> keeps (let! ev := command_complete js in Ret (p, [ev])).
Proof. intros Hp p' evs H. run H. injection H as <- <-. auto. Qed.

Lemma keeps_bad id p msg : payz_wf p -> keeps (bad_params id p msg).
Proof. apply keeps_reply. Qed.

Lemma keeps_empty id p : payz_wf p -> keeps (empty_reply id p).
Proof. apply keeps_reply. Qed.

Lemma keeps_on_ecs h id p buf params :
  payz_wf p -> (forall s' evs, h id (top_ecs p) buf params = Ret (s', evs) -> good (top_ecs p) s' evs) ->
  keeps (on_ecs h id p buf params).
Proof.
  intros Hp Hk p' evs H. unfold on_ecs in H. run H. destruct a as [s' evs']. injection H as <- <-.
  destruct (Hk _ _ E) as [[? ?] ?]. split; [by apply payz_wf_ecs|done].
Qed.

(** The commands that only read. *)
Lemma kept_listentities id (s : pecs) buf params s' evs :
  ecs_wf s -> payecs_listentities id s buf params = Ret (s', evs) -> good s s' evs.
Proof.
  intros Hs H. unfold payecs_listentities in H. destruct (param_ _ _ _); [replied H|].
  destruct (ecs_get_entity_bounds s). run H. replied H.
Qed.

Lemma kept_getcomponents id (s : pecs) buf params s' evs :
  ecs_wf s -> payecs_getcomponents id s buf params = Ret (s', evs) -> good s s' evs.
Proof.
  intros Hs H. unfold payecs_getcomponents in H. repeat case_match; try done; [replied H|run H; replied H].
Qed.

Lemma kept_newentity id (s : pecs) buf params s' evs :
  ecs_wf s -> payecs_newentity id s buf params = Ret (s', evs) -> good s s' evs.
Proof.
  intros Hs H. unfold payecs_newentity in H. destruct (param_ _ _ _); [replied H|].
  unfold ecs_newentity in H. destruct (ec_newentity (ecs_ec s)) as [k e] eqn:En. run H. injection H as <- <-.
  split; [|constructor; [eapply complete_ok; eassumption|constructor]]. split; [|done]. apply ecs_wf_with; [done|]. injection En as _ <-.
  destruct (wf_ec s Hs) as [A B C D G]. split; cbn [next_entity entity_map]; try done.
  unfold is_u32, wrap32. apply Z.mod_pos_bound. reflexivity.
Qed.

(** Writing, exact or not. *)
Lemma kept_write1 buf (s s' : pecs) i w : ecs_wf s -> ws_good buf w -> write1 buf s (i, w) = Ret s' -> kept_ecs s s'.
Proof.
  intros Hs (Hk & Wc & Hc) H. unfold write1 in H. run H.
  assert (K1 : kept_ecs s a).
  { destruct (ws_exact w); [|injection E as <-; done]. run E. clear H E0. revert s Hs E. generalize (seq 0 (length (default [] a0))).
    intros js. induction js as [|j js IH]; intros s Hs E; cbn [ofold] in E; [injection E as <-; done|].
    run E. unfold delete_round in E0. destruct (_ !! i); [|done]. pose proof (kept_clear _ _ _ _ Hs E0) as K. eapply kept_trans; [exact K|]. apply IH; [apply K|done]. }
  destruct (iterate_write a _ buf _ (proj1 K1) Hk Wc Hc) as (s1 & E1 & W & S & _). rewrite E1 in H. injection H as <-.
  eapply kept_trans; [exact K1|done].
Qed.

Lemma kept_setcomponents id (s : pecs) buf params v s' evs :
  ecs_wf s -> holds buf params v -> payecs_setcomponents id s buf params = Ret (s', evs) -> good s s' evs.
Proof.
  intros Hs Hh H. unfold payecs_setcomponents in H.
  destruct (param_ buf params setcomponents_params) as [|args] eqn:Ep; [replied H|].
  destruct (setcomponents_args _ _ _ _ Hh Ep) as (writes & expected & -> & Gw & _). run H.
  destruct a; [|replied H]. run H. run H. injection H as <- <-. split; [|constructor; [eapply complete_ok; eassumption|constructor]]. clear E E1.
  change (default [] (mjoin ([Some writes; expected] !! 0))) with writes in E0.
  clear Ep. revert E0. generalize a. clear a. change (imap pair writes) with (imap (fun i w => (0 + i, w)) writes). generalize 0.
  revert s Hs. induction Gw as [|w l Hw _ IH]; intros s Hs n a E; cbn [imap ofold] in E; [injection E as <-; done|].
  run E. pose proof (kept_write1 _ _ _ _ _ Hs Hw E0) as K. eapply kept_trans; [exact K|]. apply (IH _ (proj1 K) (S n)).
  rewrite <- E. f_equal. apply imap_ext. intros i x _. simpl. f_equal. lia.
Qed.

Lemma keeps_newsystem id p buf params v : payz_wf p -> holds buf params v -> keeps (payecs_newsystem id p buf params).
Proof.
  intros Hp Hh. unfold payecs_newsystem.
  destruct (param_ buf params newsystem_params) as [msg|args] eqn:Ea; [by apply keeps_bad|].
  destruct (param_args _ _ _ newsystem_params _ Hh ltac:(repeat constructor) Ea) as (_ & HA & _).
  destruct args as [|[[name| |]|] [|[[| |required]|] [|d [|]]]]; try done.
  assert (Hn : no_nul name).
  { destruct (HA 0 _ eq_refl) as (q & t & u & [= <-] & _ & Hc). unfold into in Hc. cbn [p_cbx p_req] in Hc. injection Hc as <-. apply until_nul_no_nul. }
  set (disallowed := match d with Some (PStrings l) => l | _ => [] end).
  intros p' evs H. run H. destruct a as [ok p1].
  assert (Hp1 : payz_wf p1).
  { destruct (strmap_to_map (payecs_registry p) !! name) as [x|] eqn:Ex.
    { rewrite (register_known p name required disallowed x Hp Ex) in E. by injection E as _ <-. }
    destruct (sysmap (top_ecs p) !! name) as [r|] eqn:Er.
    { rewrite (register_builtin p name required disallowed Hp Ex) in E by (by eexists). by injection E as _ <-. }
    destruct required as [|r0 required].
    - destruct disallowed as [|d0 dl] eqn:Edl.
      + destruct (register_new p name [] [] Hp Hn ltac:(done) Ex Er) as (p2 & E2 & W & _). rewrite E2 in E. by injection E as _ <-.
      + exfalso. revert E. unfold payecs_register. rewrite strmap_get_map, Ex by (by apply wf_registry).
        assert (He : ecs_system_exists (top_ecs p) name = false).
        { unfold ecs_system_exists. destruct (ecsys_system_exists _ name) eqn:E'; [|done].
          apply (system_exists_map _ name (proj1 (wf_ecsys _ (wf_top p Hp)))) in E' as [r Hr]. unfold sysmap in Er. congruence. }
        rewrite He. cbn [x_system x_required x_disallowed]. rewrite dynamic_desc. cbn [flat_map desc_of map app d_name d_func d_required d_disallowed]. rewrite register_disallow_alone. done.
    - destruct (register_new p name (r0 :: required) disallowed Hp Hn ltac:(done) Ex Er) as (p2 & E2 & W & _). rewrite E2 in E. by injection E as _ <-. }
  destruct ok; [exact (keeps_empty _ _ Hp1 _ _ H)|exact (keeps_bad _ _ _ Hp1 _ _ H)].
Qed.

Lemma keeps_advance id p buf params v : payz_wf p -> holds buf params v -> keeps (payecs_advance id p buf params).
Proof.
  intros Hp Hh. unfold payecs_advance.
  destruct (param_ buf params advance_params) as [msg|args] eqn:Ea; [by apply keeps_bad|].
  destruct (param_args _ _ _ advance_params _ Hh ltac:(repeat constructor) Ea) as (_ & HA & _).
  destruct args as [|[k|] [|]]; try done. destruct (HA 0 k eq_refl) as (q & t & u & [= <-] & Ht & Hc). apply param_number_u32 in Hc.
  intros p' evs H. run H. destruct a as [[s evs'] r].
  assert (Hp' : payz_wf (with_ecs p s) /\ Forall ev_ok evs').
  { unfold ecs_advance in E. run E. destruct a as [[e evs2] r2]. injection E as <- <- <-.
    pose proof (wf_top p Hp) as Ht'. destruct (advance_cases _ _ k (ec_inv _ (wf_ec _ Ht')) (wf_ecsys _ Ht') Hc) as (ms & [(i & s & e' & vs & E' & We & _)|(code & msg & _ & _ & e' & E' & We & _)]);
      rewrite E' in E0; injection E0 as <- <- _; (split; [by apply payz_wf_with|by repeat constructor]). }
  destruct Hp' as [Hp' Hev].
  destruct r as [|code].
  - run H. destruct a as [p2 evs2]. injection H as <- <-. destruct (keeps_empty _ _ Hp' _ _ E0). split; [done|by apply Forall_app].
  - destruct (ecs_get_component _ _ _) as [? [? ?]]. run H. destruct a as [|[|? [|]]]; try done. run H. injection H as <- <-.
    split; [done|]. apply Forall_app. split; [done|]. constructor; [eapply complete_ok; eassumption|constructor].
Qed.

Lemma keeps_getdefaultsystems id p buf params : payz_wf p -> keeps (payecs_getdefaultsystems id p buf params).
Proof. intros Hp. unfold payecs_getdefaultsystems. destruct (param_ _ _ _); [by apply keeps_bad|by apply keeps_reply]. Qed.

Lemma keeps_systrace id p buf params : payz_wf p -> keeps (payecs_systrace id p buf params).
Proof.
  intros Hp. unfold payecs_systrace. destruct (param_ _ _ _) as [|[|[k|] [|]]]; try done; [by apply keeps_bad|by apply keeps_reply].
Qed.

(** An array of names. *)
Definition name_array (l : list bytes) : jv := JArr [] (map (fun n => Elem0 (JStr (printed n))) l).

Lemma name_array_ok l : Forall cstr l -> jv_ok (name_array l) = true.
Proof.
  intros HF. unfold name_array. cbn. induction HF as [|n l Hn _ IH]; [done|]. cbn. by rewrite cstr_printed.
Qed.

Lemma add_strings_in js base es l :
  Forall cstr l -> in_arr js base es -> in_arr (add_strings js l) base (es ++ map (fun n => Elem0 (JStr (printed n))) l).
Proof.
  intros HF. unfold add_strings. revert js es. induction HF as [|n l [Hn _] _ IH]; intros js es HI; cbn [foldl map]; [by rewrite app_nil_r|].
  pose proof (IH _ _ (in_arr_string _ _ _ n HI Hn)) as H. by rewrite <- app_assoc in H.
Qed.

Lemma strings_arg_cstr name buf t u l :
  holds buf t u -> into PStrings param_array_of_strings name buf t = inr (PStrings l) -> Forall cstr l.
Proof.
  intros Ht. unfold into, param_array_of_strings. rewrite (json_to_array_of_strings_spec _ _ _ Ht).
  destruct (strings_of u) as [l'|] eqn:E; [|done]. intros [= <-]. destruct Ht as (? & ? & ? & _ & _ & _ & Hok). by eapply strings_of_cstr.
Qed.

Definition strings_arg (o : option pval) : list bytes := match o with Some (PStrings l) => l | _ => [] end.

(** What the parameters give: the entity, and names to put around the default. *)
Lemma setdefault_args buf params v args :
  holds buf params v -> param_ buf params setdefault_params = inr args ->
  exists k pre app, args = [Some (PNumber k); pre; app] /\ is_u32 k /\ Forall cstr (strings_arg pre) /\ Forall cstr (strings_arg app).
Proof.
  intros Hh Ea. destruct (param_args _ _ _ setdefault_params _ Hh ltac:(repeat constructor) Ea) as (HL & HA & HR).
  destruct (HR 0 ltac:(simpl; lia)) as [x Hx]. { intros [|j] q Hj Hq; [by injection Hq as <-|lia]. }
  destruct args as [|a [|pre [|app [|]]]]; try done. injection Hx as ->.
  assert (HS : forall i n o, setdefault_params !! i = Some (p_opt n (into PStrings param_array_of_strings)) ->
    [Some x; pre; app] !! i = Some o -> Forall cstr (strings_arg o)).
  { intros i n o Hp Ho. destruct o as [[| |l]|]; try constructor. destruct (HA i _ Ho) as (q & t & u & Hq & Ht & Hc).
    rewrite Hp in Hq. injection Hq as <-. exact (strings_arg_cstr _ _ _ _ _ Ht Hc). }
  destruct (HA 0 x eq_refl) as (q & t & u & [= <-] & Ht & Hc). unfold into in Hc. cbn [p_cbx p_req] in Hc.
  destruct (param_number _ buf t) as [|k] eqn:Ek; [done|]. injection Hc as <-. exists k, pre, app.
  split_and!; [done|by eapply param_number_u32|by apply (HS 1 (bs "prepend"))|by apply (HS 2 (bs "append"))].
Qed.

(** The array of [payecs_setdefaultsystems] parses. *)
Lemma splice_parses p pre app :
  payz_wf p -> Forall cstr pre -> Forall cstr app ->
  let V := name_array ((pre ++ default_systems p) ++ app) in
  jv_ok V = true /\
  outbuf (json_array_end (add_strings (json_splice_default_systems p (add_strings (json_array_start new_json_stream None) pre)) app)) = text V.
Proof.
  intros Hp Cp Ca. assert (Cd : Forall cstr (default_systems p)) by (apply Forall_forall; intros n Hn; by apply (wf_default p Hp)).
  pose proof (add_strings_in _ _ _ _ Ca (add_strings_in _ _ _ _ Cd (add_strings_in _ _ _ _ Cp in_arr_new))) as HI.
  cbn [List.app] in HI. rewrite <- !map_app in HI. apply in_arr_end in HI. split; [apply name_array_ok; by rewrite !Forall_app|exact HI].
Qed.

Lemma keeps_setdefaultsystems id p buf params v : payz_wf p -> holds buf params v -> keeps (payecs_setdefaultsystems id p buf params).
Proof.
  intros Hp Hh. unfold payecs_setdefaultsystems.
  destruct (param_ buf params setdefault_params) as [msg|args] eqn:Ea; [by apply keeps_bad|].
  destruct (setdefault_args _ _ _ _ Hh Ea) as (k & pre & app & -> & Hk & Cp & Ca). fold (strings_arg pre) (strings_arg app).
  destruct (first_unregistered p (strings_arg pre)); [by apply keeps_bad|].
  destruct (first_unregistered p (strings_arg app)); [by apply keeps_bad|].
  destruct (splice_parses p _ _ Hp Cp Ca) as [HV HT]. set (V := name_array _) in *. rewrite HT, parse_printed by done. intros p' evs H. run H. eapply keeps_empty; [|exact H].
  destruct (has_fields_total (ecs_ec (top_ecs p)) k (ec_inv _ (wf_ec _ (wf_top p Hp)))) as [ms Hms].
  destruct (setsystems_fields (ecs_ec (top_ecs p)) k (bs "systems") (Some V) (Some (text V)) (Some (toks 0 V ++ [end_tok])) ms
    (ec_inv _ (wf_ec _ (wf_top p Hp))) Hk eq_refl Hms) as (e' & E' & We & _).
  { exists (text V), (toks 0 V ++ [end_tok]). split; [|done]. exists [], [], [end_tok]. by rewrite app_nil_r. }
  rewrite E' in E. injection E as <-. by apply payz_wf_with.
Qed.

(** The id of the entity in a message is a u32. *)
Lemma scan_entity_u32 buf tk v k l :
  holds buf tk v -> json_scan buf tk (bs "{entity:%}") [u32_arg] = Ret (inr (k :: l)) -> is_u32 k.
Proof.
  intros Hh E. pose proof (scan_field buf tk v (bs "entity") u32_arg Hh eq_refl) as HS.
  change (bs "{" ++ bs "entity" ++ bs ":%}") with (bs "{entity:%}") in HS.
  destruct (field_of v (bs "entity")) as [u|]; [|destruct HS as [m Hm]; rewrite Hm in E; done].
  destruct HS as (t & _ & HR). destruct (fmt u32_arg buf t) as [z|] eqn:Ez; [|destruct HR as [m Hm]; rewrite Hm in E; done].
  unfold scan_result in HR. rewrite HR in E. injection E as -> _. cbn in Ez. by apply fits_range in Ez.
Qed.

Lemma notify_kept w (s s' : pecs) buf tk v evs :
  ecs_wf s -> holds buf tk v -> delay_ok (default_maxdelay w) -> (0 <= next_outreq_id w < u64_mod)%Z ->
  ecs_system_notify (system_call w) s buf tk = Ret (s', evs) -> good s s' evs.
Proof.
  intros Hs Hh Hd Hi H. unfold ecs_system_notify in H.
  assert (L : forall l m, good s s [Logged l m]) by (intros; split; [done|by repeat constructor]).
  run H. destruct a as [|[|name [|]]]; try (injection H as <- <-; done).
  destruct (strmap_get _ _) as [wr|]; [|injection H as <- <-; done].
  pose proof (get_field _ _ _ (bs "entity") Hh) as HG. unfold json_get_member at 1 in H.
  destruct HG as [t u Ht|]; [|injection H as <- <-; done].
  run H. destruct a as [|[|k [|]]]; try (injection H as <- <-; done). pose proof (scan_entity_u32 _ _ _ _ _ Ht E0) as Hk.
  destruct (missing_component _ _ _); [injection H as <- <-; done|]. by eapply system_call_kept.
Qed.

(** Tracing only logs. *)
Lemma trace_add_events time p buf tk p' evs : payecs_systrace_add time p buf tk = Ret (p', evs) -> Forall ev_ok evs.
Proof.
  intros H. unfold payecs_systrace_add in H. run H.
  repeat case_match; try done; injection H as _ <-; by repeat constructor.
Qed.

Lemma keeps_notification w time p buf params v :
  payz_wf p -> holds buf params v -> delay_ok (default_maxdelay w) -> (0 <= next_outreq_id w < u64_mod)%Z ->
  keeps (payecs_system_notification w time p buf params).
Proof.
  intros Hp Hh Hd Hi. unfold payecs_system_notification. pose proof (get_field _ _ _ (bs "payload") Hh) as HG. unfold json_get_member at 1.
  destruct HG as [payload u Hu|]; [|intros p' evs [= <- <-]; split; [done|by repeat constructor]].
  destruct (trace_add_spec time p buf payload u Hp Hu) as (p1 & evs1 & E1 & W1 & _). rewrite E1. cbn [obind].
  intros p' evs H. run H. destruct a as [s evs2]. injection H as <- <-.
  destruct (notify_kept _ _ _ _ _ _ _ (wf_top p1 W1) Hu Hd Hi E) as [[? ?] ?]. split; [by apply payz_wf_ecs|].
  constructor; [done|]. apply Forall_app. split; [by eapply trace_add_events|done].
Qed.

(** * Replies *)

Lemma kept_decode_ok (s s' : pecs) k buf res w ms evs :
  ecs_wf s -> is_u32 k -> holds buf res (JObj w ms) -> ParseInvoice.parse_invoice_decode_ok s k buf res = Ret (s', evs) -> good s s' evs.
Proof.
  intros Hs Hk Hh H. destruct (holds_obj _ _ _ _ Hh) as [HF _]. unfold ParseInvoice.parse_invoice_decode_ok in H.
  destruct (invoice_fields_loop buf k _ ms s Hs Hk HF) as (s1 & E1 & W1 & S1 & _). rewrite E1 in H. cbn [obind] in H.
  eapply good_trans; [by split|]. by eapply kept_advance_done.
Qed.

Lemma kept_decode_ng (s s' : pecs) k buf res u evs :
  ecs_wf s -> is_u32 k -> holds buf res u -> ParseInvoice.parse_invoice_decode_ng s k buf res = Ret (s', evs) -> good s s' evs.
Proof.
  intros Hs Hk Hh H. unfold ParseInvoice.parse_invoice_decode_ng in H. run H. run H. injection H as <- <-.
  pose proof (kept_set _ _ _ (bs "lightningd:error") _ _ _ Hs Hk ltac:(by apply no_nul_true) Hh E) as K.
  split; [|constructor]. eapply kept_trans; [exact K|]. eapply kept_clear; [apply K|done].
Qed.

(** * The plugin *)

(** The globals are well formed, and each request that waits for a reply is
    about an entity. *)
Record plugin_wf (pl : plugin) : Prop := {
  wf_payz : payz_wf (Plugin.top pl);
  wf_delay : exists v, jv_ok v = true /\ maxdelay pl = Some (text v);
  wf_outreq : (0 <= outreq_id pl < u64_mod)%Z;
  wf_reqs : intmap_wf (out_reqs pl);
  wf_entities : forall id k, intmap_to_map (out_reqs pl) !! id = Some k -> is_u32 k }.

Lemma delay_known pl : plugin_wf pl -> delay_ok (maxdelay pl).
Proof. intros Hw. destruct (wf_delay pl Hw) as (v & Hv & ->). intros d [= <-]. eauto. Qed.

(** The two fields that requests change. *)
Definition requests_ok (st : Z * intmap Z) : Prop :=
  (0 <= st.1 < u64_mod)%Z /\ intmap_wf st.2 /\ forall id k, intmap_to_map st.2 !! id = Some k -> is_u32 k.

Lemma record_request_ok st ev : requests_ok st -> ev_ok ev -> requests_ok (record_request st ev).
Proof.
  intros (H1 & H2 & H3) He. destruct ev as [| |id arg js|]; try done. destruct He as [Hi Ha]. cbn [record_request].
  split; [by apply Z.mod_pos_bound|]. destruct (intmap_to_map st.2 !! id) as [x|] eqn:Ex; cbn [snd].
  - by rewrite (intmap_add_present _ _ arg _ H2 Hi Ex).
  - destruct (intmap_add_fresh _ _ arg H2 Hi Ex) as (m' & -> & W & M). split; [done|]. cbn [snd]. rewrite M.
    intros id' k. destruct (decide (id = id')) as [->|Hne]; [rewrite lookup_insert_eq; by intros [= <-]|].
    rewrite lookup_insert_ne by done. apply H3.
Qed.

Lemma record_requests_ok evs st : requests_ok st -> Forall ev_ok evs -> requests_ok (foldl record_request st evs).
Proof.
  intros H HF. revert st H. induction HF; intros st H'; [done|]. cbn [foldl]. by apply IHHF, record_request_ok.
Qed.

Lemma handled_wf pl r pl' evs : plugin_wf pl -> keeps r -> handled pl r = Ret (pl', evs) -> plugin_wf pl'.
Proof.
  intros Hw Hk H. unfold handled in H. run H. destruct a as [p evs']. destruct (Hk _ _ E) as [Hp He].
  pose proof (record_requests_ok _ (outreq_id pl, out_reqs pl) ltac:(split_and!; apply Hw) He) as HR.
  destruct (foldl record_request _ _) as [next reqs]. injection H as <- _. destruct HR as (? & ? & ?). split; try done. apply Hw.
Qed.

(** Every command in the tables preserves the invariant. *)
Lemma commands_keep name h id p buf params v :
  find_name payz_commands name = Some h -> payz_wf p -> holds buf params v -> keeps (h id p buf params).
Proof.
  intros Hf Hp Hh. unfold find_name in Hf. destruct (List.find _ _) as [e|] eqn:E; [|done]. injection Hf as <-.
  apply find_some in E as [Hin _]. pose proof (wf_top p Hp) as Hs. unfold payz_commands, payecs_data_commands, payecs_code_commands in Hin.
  repeat (destruct Hin as [<-|Hin]); cbn [snd].
  - apply keeps_on_ecs; [done|]. intros. by eapply kept_listentities.
  - apply keeps_on_ecs; [done|]. intros. by eapply kept_newentity.
  - apply keeps_on_ecs; [done|]. intros. by eapply kept_getcomponents.
  - apply keeps_on_ecs; [done|]. intros. by eapply kept_setcomponents.
  - by eapply keeps_newsystem.
  - by eapply keeps_advance.
  - by apply keeps_getdefaultsystems.
  - by eapply keeps_setdefaultsystems.
  - by apply keeps_systrace.
  - done.
Qed.

Lemma command_handle_wf w pl buf tk v pl' evs :
  plugin_wf pl -> holds buf tk v -> ld_dispatch w pl buf tk = Ret (pl', evs) -> plugin_wf pl'.
Proof.
  intros Hw Hh H. unfold ld_dispatch in H. cbv zeta in H.
  destruct (json_get_member buf tk (bs "method")) as [mt|]; [|done].
  pose proof (get_field _ _ _ (bs "params") Hh) as HG. unfold json_get_member at 1 in H. destruct HG as [pt u Hu|]; [|done].
  destruct (json_get_member buf tk (bs "id")) as [it|].
  - destruct (json_to_u64 false buf it) as [id|]; [|done]. destruct (find_name _ _) as [h|] eqn:Ef; [|done].
    eapply handled_wf; [exact Hw| |exact H]. eapply commands_keep; [exact Ef|apply Hw|exact Hu].
  - destruct (find_name _ _) as [h|] eqn:Ef; [|done]. eapply handled_wf; [exact Hw| |exact H].
    unfold find_name, payecs_code_notifications in Ef. cbn [List.find] in Ef. destruct (streq _ _); [|done]. injection Ef as <-. cbn [snd].
    eapply keeps_notification; [apply Hw|exact Hu|by apply delay_known|apply Hw].
Qed.

Lemma rpc_reply_wf pl buf tk v pl' evs :
  plugin_wf pl -> holds buf tk v -> (forall u, field_of v (bs "result") = Some u -> exists w ms, u = JObj w ms) ->
  handle_rpc_reply pl buf tk = Ret (pl', evs) -> plugin_wf pl'.
Proof.
  intros Hw Hh Hr H. unfold handle_rpc_reply in H. destruct (json_get_member buf tk (bs "id")) as [it|]; [|by injection H as <- _].
  destruct (json_to_u64 false buf it) as [id|]; [|done]. rewrite intmap_get_map in H by apply Hw.
  destruct (intmap_to_map (out_reqs pl) !! id) as [k|] eqn:Ek; [|done]. cbv zeta in H. pose proof (wf_entities pl Hw _ _ Ek) as Hk.
  set (pl1 := {| Plugin.top := _ |}) in H. assert (Hw1 : plugin_wf pl1).
  { destruct (intmap_del_map (out_reqs pl) id (wf_reqs pl Hw)) as (_ & W & M). split; try apply Hw; [exact W|].
    intros id' k'. subst pl1. cbn [out_reqs]. rewrite M. intros [_ H']%lookup_delete_Some. by eapply wf_entities. }
  assert (HC : forall r, (forall s' evs, r = Ret (s', evs) -> good (top_ecs (Plugin.top pl)) s' evs) ->
    keeps (let! (s, evs) := r in Ret (with_ecs (Plugin.top pl) s, evs))).
  { intros r Hg p' evs' H'. run H'. destruct a as [s' evs2]. injection H' as <- <-. destruct (Hg _ _ E) as [[? ?] ?].
    split; [apply payz_wf_ecs; [apply Hw|done|done]|done]. }
  pose proof (get_field _ _ _ (bs "error") Hh) as HG. unfold json_get_member at 1 in H. destruct HG as [et u Hu|].
  { eapply handled_wf; [exact Hw1| |exact H]. apply HC. intros. eapply kept_decode_ng; [apply Hw|exact Hk|exact Hu|done]. }
  destruct (field_of v (bs "result")) as [u|] eqn:Eu; [|by rewrite (get_field_none _ _ _ _ Hh Eu) in H].
  destruct (get_field_some _ _ _ _ _ Hh Eu) as (t & Et & Ht). rewrite Et in H. destruct (Hr u eq_refl) as (w & ms & ->).
  eapply handled_wf; [exact Hw1| |exact H]. apply HC. intros. eapply kept_decode_ok; [apply Hw|exact Hk|exact Ht|done].
Qed.

(** * Progress

    Which messages the plugin survives: the handlers return on all JSON texts
    but the few inputs named here. *)

Definition returns {A : Type} (r : outcome A) : Prop := exists x, r = Ret x.

Lemma returns_bind {A B : Type} (r : outcome A) (f : A -> outcome B) :
  returns r -> (forall a, r = Ret a -> returns (f a)) -> returns (let! a := r in f a).
Proof. intros [a ->] H. by apply H. Qed.

Lemma returns_ret {A : Type} (x : A) : returns (Ret x).
Proof. by exists x. Qed.

#[local] Hint Resolve returns_ret : core.

(** * Replies can always be sent *)

(** What is in a stream is not taken back. *)
Definition begins (o : bytes) (js : json_out) : Prop := o `prefix_of` outbuf js.

Lemma begins_member o js f c : begins o js -> begins o (json_out_member_direct js f c).
Proof. apply prefix_app_r. Qed.

Lemma begins_start o js f c : begins o js -> begins o (json_out_start js f c).
Proof. apply begins_member. Qed.

Lemma begins_end o js c : begins o js -> begins o (json_out_end js c).
Proof. apply prefix_app_r. Qed.

Lemma begins_add o js f q c : begins o js -> begins o (json_out_addv js f q c).
Proof. rewrite addv_direct. apply begins_member. Qed.

Lemma begins_self js : begins (outbuf js) js.
Proof. unfold begins. reflexivity. Qed.

Create HintDb stream.
#[local] Hint Resolve begins_member begins_start begins_end begins_add begins_self : stream.

(** The assertion of [json_stream_double_cr] holds of such a stream. *)
Lemma close_begins o js : 2 <= length o -> begins o js -> exists b, json_stream_close js = Ret (o ++ b).
Proof.
  intros HL [b Hb]. unfold json_stream_close, json_stream_double_cr, json_stream_append, json_out_direct. cbn [json_out_finished outbuf].
  rewrite (proj2 (Nat.leb_le _ _)) by (rewrite Hb, length_app; lia). cbn [assert_ obind]. rewrite Hb.
  repeat case_match; cbn [obind outbuf json_out_finished]; rewrite ?Hb, <- ?app_assoc; (eexists; reflexivity).
Qed.

(** The first bytes of a reply: version and id. *)
Definition opening (id : Z) : bytes := outbuf (jsonrpc_stream_start id).

Lemma opening_long id : 2 <= length (opening id).
Proof.
  unfold opening, jsonrpc_stream_start, json_add_u64, json_add_member. rewrite addv_direct. cbn [json_out_member_direct outbuf]. rewrite length_app.
  enough (2 <= length (outbuf (json_add_string (json_object_start new_json_stream None) (Some (bs "jsonrpc")) (bs "2.0")))) by lia.
  vm_compute. lia.
Qed.

(** The events of a command: its one reply, which comes last, after at most one
    notification that triggers a system. *)
Definition answered (id : Z) (evs : list event) : Prop :=
  exists pre b, evs = pre ++ [Sent (opening id ++ b)] /\
    (pre = [] \/ exists v, pre = [Sent (text (notification ECSYS_SYSTEM_NOTIFICATION v) ++ [LF; LF])]).

Definition answers {S : Type} (id : Z) (r : outcome (S * list event)) : Prop :=
  exists s evs, r = Ret (s, evs) /\ answered id evs.

Lemma complete_sends id js : begins (opening id) js -> exists b, command_complete js = Ret (Sent (opening id ++ b)).
Proof.
  intros HB. unfold command_complete. destruct (close_begins _ _ (opening_long id) (begins_end _ _ (bs "}") HB)) as [b E].
  unfold json_object_end. rewrite E. cbn [obind]. eauto.
Qed.

Lemma complete_answers {S : Type} id (s : S) js : begins (opening id) js -> answers id (let! ev := command_complete js in Ret (s, [ev])).
Proof. intros [b ->]%complete_sends. cbn [obind]. eexists _, _. split; [reflexivity|]. exists [], b. auto. Qed.

Lemma finished_answers {S : Type} id (s : S) js : begins (opening id) js -> answers id (let! ev := command_finished js in Ret (s, [ev])).
Proof. intros HB. apply complete_answers. by apply begins_end. Qed.

Lemma fail_answers {S : Type} id code msg (s : S) : answers id (let! ev := command_fail id code msg in Ret (s, [ev])).
Proof.
  apply complete_answers. unfold opening, json_object_end, json_add_string, json_add_stringn, json_add_errcode, json_add_member, json_object_start.
  auto 10 with stream.
Qed.

Lemma bad_answers id p msg : answers id (bad_params id p msg).
Proof. apply fail_answers. Qed.

Lemma success_answers {S : Type} id (s : S) : answers id (let! ev := command_success id (json_out_obj None) in Ret (s, [ev])).
Proof. apply complete_answers. apply begins_member, begins_self. Qed.

Lemma empty_answers id p : answers id (empty_reply id p).
Proof. apply success_answers. Qed.

#[local] Hint Resolve bad_answers empty_answers fail_answers success_answers : core.

(** * Commands *)

Lemma listentities_answers id (s : pecs) buf params : ecs_wf s -> answers id (payecs_listentities id s buf params).
Proof.
  intros Hs. unfold payecs_listentities. destruct (param_ _ _ _) as [|args]; [auto|]. destruct (ecs_get_entity_bounds s) as [lo hi].
  destruct (list_entities_spec s (default [] (mjoin (args !! 0))) (default [] (mjoin (args !! 1))) (entity_range lo hi) _ _ _ Hs
    (array_start_again (jsonrpc_stream_success id) (Some (bs "entities")))) as (js & es & -> & _ & Hj). cbn [obind].
  apply finished_answers, begins_end. destruct Hj as [E _]. unfold begins. rewrite E. apply prefix_app_r.
  unfold opening, json_array_start, jsonrpc_stream_success, json_object_start. do 2 apply begins_start. apply begins_self.
Qed.

Lemma newentity_answers id (s : pecs) buf params : answers id (payecs_newentity id s buf params).
Proof.
  unfold payecs_newentity. destruct (param_ _ _ _); [auto|]. destruct (ecs_newentity s). apply finished_answers.
  unfold opening, json_add_u32, json_add_member, jsonrpc_stream_success, json_object_start. auto with stream.
Qed.

Lemma into_inv {A V : Type} (k : A -> V) f name buf t x : into k f name buf t = inr x -> exists a, x = k a.
Proof. unfold into. destruct (f name buf t); [done|]. intros [= <-]. eauto. Qed.

Lemma getcomponents_answers id (s : pecs) buf params v : ecs_wf s -> holds buf params v -> answers id (payecs_getcomponents id s buf params).
Proof.
  intros Hs Hh. unfold payecs_getcomponents.
  destruct (param_ _ _ getcomponents_params) as [|args] eqn:Ea; [auto|].
  destruct (param_args _ _ _ getcomponents_params _ Hh ltac:(repeat constructor) Ea) as (HL & HA & HR).
  destruct (HR 0 ltac:(simpl; lia)) as [x Hx]. { intros [|j] q Hj Hq; [by injection Hq as <-|lia]. }
  destruct (HR 1 ltac:(simpl; lia)) as [y Hy]. { intros [|[|j]] q Hj Hq; [by injection Hq as <-..|lia]. }
  destruct args as [|a [|b [|]]]; try done. injection Hx as ->. injection Hy as ->.
  destruct (HA 0 x eq_refl) as (q & t & u & [= <-] & _ & [k ->]%into_inv).
  destruct (HA 1 y eq_refl) as (q & t' & u' & [= <-] & _ & [cs ->]%into_inv).
  destruct (reads_all (ecs_ec s) k cs (ec_inv _ (wf_ec s Hs))) as [vs Hvs].
  destruct (splice_spec s k cs vs _ _ _ Hvs (start_again (jsonrpc_stream_start id) (Some (bs "result")))) as (js & E & HJ).
  unfold jsonrpc_stream_success. rewrite E. cbn [obind]. apply finished_answers.
  destruct HJ as [HJ _]. unfold begins. rewrite HJ. apply prefix_app_r, begins_start, begins_self.
Qed.

(** No write is exact. *)
Definition harmless_writes (buf : bytes) (params : list jsmntok) : Prop :=
  forall writes expected, param_ buf params setcomponents_params = inr [Some writes; expected] ->
    Forall (fun w => ws_exact w = false) writes.

Lemma setcomponents_answers id (s : pecs) buf params v :
  ecs_wf s -> holds buf params v -> harmless_writes buf params -> answers id (payecs_setcomponents id s buf params).
Proof.
  intros Hs Hh HX. unfold payecs_setcomponents.
  destruct (param_ buf params setcomponents_params) as [|args] eqn:Ea; [auto|].
  destruct (setcomponents_args _ _ _ _ Hh Ea) as (writes & expected & -> & Gw & Ge).
  change (default [] (mjoin ([Some writes; expected] !! 0))) with writes.
  change (default [] (mjoin ([Some writes; expected] !! 1))) with (default [] expected).
  destruct (validate_all s buf _ Hs Ge) as (b & -> & _). cbn [obind]. destruct b; [|auto].
  destruct (write_all buf writes Gw (HX _ _ Ea) 0 s Hs) as (s' & E & _).
  change (imap pair writes) with (imap (fun i w => (0 + i, w)) writes). rewrite E. cbn [obind]. auto.
Qed.

(** A system that disallows something requires something. *)
Definition harmless_system (buf : bytes) (params : list jsmntok) : Prop :=
  forall n d, param_ buf params newsystem_params = inr [Some (PString n); Some (PStrings []); d] -> strings_arg d = [].

Lemma newsystem_answers id p buf params v :
  payz_wf p -> holds buf params v -> harmless_system buf params -> answers id (payecs_newsystem id p buf params).
Proof.
  intros Hp Hh HX. unfold payecs_newsystem.
  destruct (param_ _ _ newsystem_params) as [|args] eqn:Ea; [auto|].
  destruct (param_args _ _ _ newsystem_params _ Hh ltac:(repeat constructor) Ea) as (HL & HA & HR).
  destruct (HR 0 ltac:(simpl; lia)) as [x Hx]. { intros [|j] q Hj Hq; [by injection Hq as <-|lia]. }
  destruct (HR 1 ltac:(simpl; lia)) as [y Hy]. { intros [|[|j]] q Hj Hq; [by injection Hq as <-..|lia]. }
  destruct args as [|a [|b [|d [|]]]]; try done. injection Hx as ->. injection Hy as ->.
  destruct (HA 0 x eq_refl) as (q & t & u & [= <-] & _ & Hc). destruct (HA 1 y eq_refl) as (q & t' & u' & [= <-] & _ & [r ->]%into_inv).
  unfold into in Hc. cbn [p_cbx p_req] in Hc. destruct (param_string _ buf t) as [|n] eqn:En; [done|]. injection Hc as <-.
  assert (Hn : no_nul n) by (injection En as <-; apply until_nul_no_nul). fold (strings_arg d).
  assert (Hd : r = [] -> strings_arg d = []) by (intros ->; by eapply HX).
  assert (returns (payecs_register p n r (strings_arg d))) as [[ok p'] ->]; [|cbn [obind]; destruct ok; auto].
  destruct (strmap_to_map (payecs_registry p) !! n) as [e|] eqn:Ex; [rewrite (register_known p n r _ e Hp Ex); auto|].
  destruct (sysmap (top_ecs p) !! n) as [e|] eqn:Er; [rewrite (register_builtin p n r _ Hp Ex) by (by eexists); auto|].
  destruct (register_new p n r _ Hp Hn Hd Ex Er) as (p' & -> & _). auto.
Qed.

Lemma number_args name buf params v args :
  holds buf params v -> param_ buf params [p_req name param_number] = inr args -> exists k, args = [Some k] /\ is_u32 k.
Proof.
  intros Hh Ea. destruct (param_args _ _ _ [p_req name param_number] _ Hh ltac:(repeat constructor) Ea) as (HL & HA & HR).
  destruct (HR 0 ltac:(simpl; lia)) as [k Hk]. { intros [|j] q Hj Hq; [by injection Hq as <-|lia]. }
  destruct args as [|a [|]]; try done. injection Hk as ->. exists k. split; [done|].
  destruct (HA 0 k eq_refl) as (q & t & u & [= <-] & _ & Hc). by eapply param_number_u32.
Qed.

Lemma advance_answers id p buf params v : payz_wf p -> holds buf params v -> answers id (payecs_advance id p buf params).
Proof.
  intros Hp Hh. unfold payecs_advance. destruct (param_ _ _ _) as [|args] eqn:Ea; [auto|].
  destruct (number_args _ _ _ _ _ Hh Ea) as (k & -> & Hk). unfold ecs_advance. pose proof (wf_top p Hp) as Ht.
  destruct (advance_cases _ _ k (ec_inv _ (wf_ec _ Ht)) (wf_ecsys _ Ht) Hk) as (ms & [(i & s & e' & vs & E & _)|(code & msg & _ & Hm & e' & E & _ & Hf & _)]);
    rewrite E; cbn [obind].
  - unfold empty_reply, command_success. destruct (complete_sends id (json_out_add_splice (jsonrpc_stream_start id) (Some (bs "result")) (json_out_obj None)).2) as [b ->]; [apply begins_member, begins_self|].
    cbn [obind]. eexists _, _. split; [reflexivity|]. eexists _, b. split; [reflexivity|eauto].
  - destruct (error_message_scan e' k ms code msg Hf Hm) as (b & tk & Hg & HS). unfold ecs_get_component. cbn [with_ec ecs_ec]. simpl in Hg. unfold syscomp in Hg. rewrite Hg.
    unfold str_arg. rewrite HS. cbn [obind]. apply (fail_answers id code).
Qed.

Lemma begins_strings o js l : begins o js -> begins o (add_strings js l).
Proof.
  unfold add_strings. revert js. induction l as [|n l IH]; intros js H; cbn [foldl]; [done|]. apply IH. by apply begins_add.
Qed.

Lemma getdefaultsystems_answers id p buf params : answers id (payecs_getdefaultsystems id p buf params).
Proof.
  unfold payecs_getdefaultsystems. destruct (param_ _ _ _); [auto|]. apply finished_answers, begins_end, begins_strings.
  unfold opening, json_array_start, jsonrpc_stream_success, json_object_start. auto with stream.
Qed.

Lemma systrace_answers id p buf params v : holds buf params v -> answers id (payecs_systrace id p buf params).
Proof.
  intros Hh. unfold payecs_systrace. destruct (param_ _ _ _) as [|args] eqn:Ea; [auto|].
  destruct (number_args _ _ _ _ _ Hh Ea) as (k & -> & _). apply finished_answers, begins_end.
  assert (HB : begins (opening id) (json_array_start (json_add_u32 (jsonrpc_stream_success id) (Some (bs "entity")) k) (Some (bs "trace")))).
  { unfold opening, json_array_start, jsonrpc_stream_success, json_object_start, json_add_u32, json_add_member. auto with stream. }
  revert HB. generalize (json_array_start (json_add_u32 (jsonrpc_stream_success id) (Some (bs "entity")) k) (Some (bs "trace"))).
  induction (payecs_systraces p) as [|e l IH]; intros js HB; cbn [foldl]; [done|]. apply IH. destruct (negb _); [done|]. by apply begins_member.
Qed.

Lemma setdefaultsystems_answers id p buf params v :
  payz_wf p -> holds buf params v -> answers id (payecs_setdefaultsystems id p buf params).
Proof.
  intros Hp Hh. unfold payecs_setdefaultsystems.
  destruct (param_ buf params setdefault_params) as [msg|args] eqn:Ea; [auto|].
  destruct (setdefault_args _ _ _ _ Hh Ea) as (k & pre & app & -> & Hk & Cp & Ca). fold (strings_arg pre) (strings_arg app).
  destruct (first_unregistered p (strings_arg pre)); [auto|]. destruct (first_unregistered p (strings_arg app)); [auto|].
  destruct (splice_parses p _ _ Hp Cp Ca) as [HV HT]. set (V := name_array _) in *. rewrite HT, parse_printed by done.
  destruct (has_fields_total (ecs_ec (top_ecs p)) k (ec_inv _ (wf_ec _ (wf_top p Hp)))) as [ms Hms].
  destruct (setsystems_fields (ecs_ec (top_ecs p)) k (bs "systems") (Some V) (Some (text V)) (Some (toks 0 V ++ [end_tok])) ms
    (ec_inv _ (wf_ec _ (wf_top p Hp))) Hk eq_refl Hms) as (e' & -> & _).
  { exists (text V), (toks 0 V ++ [end_tok]). split; [|done]. exists [], [], [end_tok]. by rewrite app_nil_r. }
  cbn [obind]. auto.
Qed.

(** * Triggered systems *)

Lemma advance_done_returns (s : pecs) k : ecs_wf s -> is_u32 k -> returns (ecs_advance_done s k).
Proof. intros Hs Hk. destruct (ecs_advance_done_returns s k Hs Hk) as (s' & ev & -> & _). auto. Qed.

Lemma datum_then (s : pecs) k n d v (f : pecs -> outcome (pecs * list event)) :
  ecs_wf s -> is_u32 k -> no_nul n -> jv_ok v = true -> d = text v -> (forall s', ecs_wf s' -> returns (f s')) ->
  returns (let! s' := ecs_set_component_datum s k n (Some d) in f s').
Proof. intros Hs Hk Hn Hv -> Hf. destruct (ecs_datum s k n v Hs Hk Hn Hv) as (s1 & -> & U). cbn [obind]. apply Hf, U. Qed.

Lemma set_default_returns (s : pecs) k n v :
  ecs_wf s -> is_u32 k -> no_nul n -> jv_ok v = true -> returns (Defaulter.set_default s k n (text v)).
Proof. intros Hs Hk Hn Hv. eapply datum_then; try done. intros. by apply advance_done_returns. Qed.

Lemma outreq_returns id arg o js : 2 <= length o -> begins o js -> returns (send_outreq id arg js).
Proof.
  intros HL HB. unfold send_outreq, json_object_end.
  destruct (close_begins o _ HL (begins_end _ _ (bs "}") (begins_end _ _ (bs "}") HB))) as [b ->]. apply returns_ret.
Qed.

Lemma get_member_holds buf tk v f t : holds buf tk v -> json_get_member buf tk f = Some t -> exists u, holds buf t u.
Proof.
  intros Hh Ht. destruct (field_of v f) as [u|] eqn:E; [|by rewrite (get_field_none _ _ _ _ Hh E) in Ht].
  destruct (get_field_some _ _ _ _ _ Hh E) as (t' & E' & H'). rewrite E' in Ht. injection Ht as <-. eauto.
Qed.

(** A built-in function returns, given the components it reads. *)
Lemma system_call_returns v f (s : pecs) k buffer eo u :
  ecs_wf s -> is_u32 k -> holds buffer eo u -> delay_ok (default_maxdelay v) -> is_Some (default_maxdelay v) ->
  (forall c, c ∈ needs f -> is_Some (json_get_member buffer eo c)) -> returns (system_call v f s k buffer eo).
Proof.
  intros Hs Hk Hh Hd [d Ed] HN. destruct f; cbn [system_call].
  - eapply (datum_then s k (bs "lightningd:nonce") _ (JStr (hex_encode (random32 v)))); [done|done|by apply no_nul_true|apply hex_encode_ok|reflexivity|].
    intros. by apply advance_done_returns.
  - unfold ParseInvoice.parse_invoice. destruct (HN (bs "lightningd:invoice") ltac:(by left)) as [t Ht]. rewrite Ht.
    eapply (datum_then s k (bs "lightningd:parse_invoice:ran") _ (JPrim (bs "true"))); [done|done|by apply no_nul_true|done|reflexivity|]. intros s1 W1.
    destruct (get_member_holds _ _ _ _ _ Hh Ht) as [y Hy]. rewrite (add_tok_holds _ _ _ _ _ Hy). cbn [obind].
    apply returns_bind; [|auto]. eapply (outreq_returns _ _ (outbuf (json_add_string (json_object_start new_json_stream None) (Some (bs "jsonrpc")) (bs "2.0")))); [vm_compute; lia|].
    apply begins_member, begins_start, begins_add, begins_add, begins_self.
  - unfold ParseInvoice.promote_invoice_type. destruct (HN (bs "lightningd:invoice:type") ltac:(by left)) as [t ->].
    eapply (datum_then s k _ _ (JPrim (bs "true"))); [done|done| |done|reflexivity|intros; by apply advance_done_returns].
    apply Forall_app. split; [by apply no_nul_true|apply until_nul_no_nul].
  - unfold InvoiceAmount.invoice_amount_msat. destruct (HN (bs "lightningd:invoice:amount_msat") ltac:(by left)) as [t Ht]. rewrite Ht, ecs_datum_null.
    destruct (get_member_holds _ _ _ _ _ Hh Ht) as [y Hy]. destruct (ecs_clear s k (bs "lightningd:invoice:amount_msat") Hs) as (s1 & -> & W1 & _). cbn [obind].
    destruct (ecs_set_holds s1 k (bs "lightningd:amount") buffer t y W1 Hk ltac:(by apply no_nul_true) Hy) as (s2 & -> & W2 & _). cbn [obind]. by apply advance_done_returns.
  - unfold InvoiceAmount.fail_invoice_amount_and_amount.
    eapply (datum_then s k (bs "lightningd:error") _ (error_obj (-32602) (bs "msatoshi parameter unnecessary"))); [done|done|by apply no_nul_true|done|reflexivity|].
    intros s1 W1. rewrite ecs_datum_null. destruct (ecs_clear s1 k (bs "lightningd:systems") W1) as (s2 & -> & _). apply returns_ret.
  - apply (set_default_returns s k _ (JPrim (bs "10"))); try done. by apply no_nul_true.
  - apply (set_default_returns s k _ (JPrim (bs "0.5"))); try done. by apply no_nul_true.
  - apply (set_default_returns s k _ (JPrim (bs "60"))); try done. by apply no_nul_true.
  - unfold Defaulter.defaulter_maxdelay. rewrite Ed. destruct (Hd d Ed) as (w & Hw & ->). apply set_default_returns; try done. by apply no_nul_true.
  - apply (set_default_returns s k _ (JStr (bs "5000msat"))); try done. by apply no_nul_true.
Qed.

(** A scan for one field never fails to parse its guide. *)
Lemma scan_returns {V : Type} buf tk v f (a : scan_arg V) :
  holds buf tk v -> forallb literal_char f = true ->
  (exists m, json_scan buf tk (bs "{" ++ f ++ bs ":%}") [a] = Ret (inl m)) \/
  (exists x, json_scan buf tk (bs "{" ++ f ++ bs ":%}") [a] = Ret (inr [x])).
Proof.
  intros Hh Hf. pose proof (scan_field buf tk v f a Hh Hf) as HS. destruct (field_of v f) as [u|]; [|by left].
  destruct HS as (t & _ & HR). destruct (fmt a buf t) as [x|]; [right; by exists x|by left].
Qed.

Lemma notify_returns w p buf tk v :
  payz_wf p -> holds buf tk v -> delay_ok (default_maxdelay w) -> is_Some (default_maxdelay w) ->
  returns (ecs_system_notify (system_call w) (top_ecs p) buf tk).
Proof.
  intros Hp Hh Hd Hs. unfold ecs_system_notify. pose proof (wf_top p Hp) as Hw.
  destruct (scan_returns buf tk v (bs "system") str_arg Hh eq_refl) as [[m E]|[name E]]; change (bs "{" ++ bs "system" ++ bs ":%}") with (bs "{system:%}") in E; rewrite E; cbn [obind]; [auto|].
  rewrite strmap_get_map by (by apply wf_funcs). fold (funcmap (top_ecs p)). destruct (funcmap (top_ecs p) !! name) as [wr|] eqn:Ef; [|auto].
  destruct (json_get_member buf tk (bs "entity")) as [t|] eqn:Et; [|auto]. destruct (get_member_holds _ _ _ _ _ Hh Et) as [u Hu].
  destruct (scan_returns buf t u (bs "entity") u32_arg Hu eq_refl) as [[m E']|[k E']]; change (bs "{" ++ bs "entity" ++ bs ":%}") with (bs "{entity:%}") in E'; rewrite E'; cbn [obind]; [auto|].
  pose proof (scan_entity_u32 _ _ _ _ _ Hu E') as Hk. destruct (missing_component _ _ _) as [c|] eqn:Em; [auto|].
  eapply system_call_returns; try done. intros c Hc. pose proof (wf_needs p Hp _ _ c Ef Hc) as Hr.
  unfold missing_component in Em. eapply find_none in Em; [|by apply list_elem_of_In]. by destruct (json_get_member buf t c).
Qed.

Lemma notification_returns w time p buf params v :
  payz_wf p -> holds buf params v -> delay_ok (default_maxdelay w) -> is_Some (default_maxdelay w) ->
  returns (payecs_system_notification w time p buf params).
Proof.
  intros Hp Hh Hd Hs. unfold payecs_system_notification. destruct (json_get_member buf params (bs "payload")) as [t|] eqn:Et; [|auto].
  destruct (get_member_holds _ _ _ _ _ Hh Et) as [u Hu]. destruct (trace_add_spec time p buf t u Hp Hu) as (p1 & evs1 & -> & W1 & _). cbn [obind].
  apply returns_bind; [by eapply notify_returns|]. intros [s evs2] _. auto.
Qed.

(** * Messages *)

(** The parameters that end the process are not in the message. *)
Definition harmless (name : bytes) (buf : bytes) (params : list jsmntok) : Prop :=
  (name = bs "payecs_setcomponents" -> harmless_writes buf params) /\
  (name = bs "payecs_newsystem" -> harmless_system buf params).

Lemma on_ecs_answers h id p buf params : answers id (h id (top_ecs p) buf params) -> answers id (on_ecs h id p buf params).
Proof. intros (s & evs & E & HA). unfold on_ecs. rewrite E. cbn [obind]. by eexists _, evs. Qed.

Lemma commands_answer name h id p buf params v :
  find_name payz_commands name = Some h -> payz_wf p -> holds buf params v -> harmless name buf params ->
  answers id (h id p buf params).
Proof.
  intros Hf Hp Hh [HW HS]. unfold find_name in Hf. destruct (List.find _ _) as [e|] eqn:E; [|done]. injection Hf as <-.
  apply find_some in E as [Hin Hn]. apply bool_decide_eq_true in Hn as ->. pose proof (wf_top p Hp) as Hs.
  unfold payz_commands, payecs_data_commands, payecs_code_commands in Hin.
  repeat (destruct Hin as [<-|Hin]); cbn [fst snd] in *.
  - by apply on_ecs_answers, listentities_answers.
  - by apply on_ecs_answers, newentity_answers.
  - by eapply on_ecs_answers, getcomponents_answers.
  - eapply on_ecs_answers, setcomponents_answers; [done|exact Hh|by apply HW].
  - eapply newsystem_answers; [done|exact Hh|by apply HS].
  - by eapply advance_answers.
  - apply getdefaultsystems_answers.
  - by eapply setdefaultsystems_answers.
  - by eapply systrace_answers.
  - done.
Qed.

Lemma handled_returns pl r : returns r -> returns (handled pl r).
Proof. intros [[p evs] ->]. unfold handled. cbn [obind]. destruct (foldl _ _ _). auto. Qed.

Lemma handled_answers id pl r : answers id r -> answers id (handled pl r).
Proof. intros (p & evs & -> & HA). unfold handled. cbn [obind]. destruct (foldl _ _ _). by eexists _, evs. Qed.

Lemma answers_returns {S : Type} id (r : outcome (S * list event)) : answers id r -> returns r.
Proof. intros (s & evs & -> & _). auto. Qed.

(** What lightningd may send: a command of the tables, the one notification
    that is subscribed to, or the reply to a request. *)
Inductive expected (pl : plugin) : message_in -> Prop :=
| exp_command buf tk v id name h t :
    holds buf tk v -> (0 <= id < u64_mod)%Z -> field_of v (bs "id") = Some (JPrim (fmt_u id)) ->
    field_of v (bs "method") = Some (JStr name) -> find_name payz_commands name = Some h ->
    json_get_member buf tk (bs "params") = Some t -> harmless name buf t -> expected pl (FromLightningd buf tk)
| exp_notification buf tk v t :
    holds buf tk v -> field_of v (bs "id") = None -> field_of v (bs "method") = Some (JStr ECSYS_SYSTEM_NOTIFICATION) ->
    json_get_member buf tk (bs "params") = Some t -> expected pl (FromLightningd buf tk)
| exp_error buf tk v id u :
    holds buf tk v -> (0 <= id < u64_mod)%Z -> field_of v (bs "id") = Some (JPrim (fmt_u id)) ->
    is_Some (intmap_to_map (out_reqs pl) !! id) -> field_of v (bs "error") = Some u -> expected pl (RpcReply buf tk)
| exp_result buf tk v id w ms :
    holds buf tk v -> (0 <= id < u64_mod)%Z -> field_of v (bs "id") = Some (JPrim (fmt_u id)) ->
    is_Some (intmap_to_map (out_reqs pl) !! id) -> field_of v (bs "error") = None ->
    field_of v (bs "result") = Some (JObj w ms) -> expected pl (RpcReply buf tk).

Lemma json_to_u64_holds buf tk z : (0 <= z < u64_mod)%Z -> holds buf tk (JPrim (fmt_u z)) -> json_to_u64 false buf tk = Some z.
Proof. intros Hz (pre & post & rest & -> & -> & Hd & _). by apply json_to_u64_fmt. Qed.

Lemma expected_command w pl buf tk v id name h t :
  plugin_wf pl -> holds buf tk v -> (0 <= id < u64_mod)%Z -> field_of v (bs "id") = Some (JPrim (fmt_u id)) ->
  field_of v (bs "method") = Some (JStr name) -> find_name payz_commands name = Some h ->
  json_get_member buf tk (bs "params") = Some t -> harmless name buf t -> answers id (ld_dispatch w pl buf tk).
Proof.
  intros Hw Hh Hi Ei Em Ef Et HX. unfold ld_dispatch. cbv zeta.
  destruct (get_field_some _ _ _ _ _ Hh Em) as (mt & -> & Hm). rewrite Et, (strdup_holds _ _ _ Hm).
  destruct (get_field_some _ _ _ _ _ Hh Ei) as (it & -> & Hit). rewrite (json_to_u64_holds _ _ _ Hi Hit), Ef.
  destruct (get_member_holds _ _ _ _ _ Hh Et) as [u Hu]. eapply handled_answers, commands_answer; [exact Ef|apply Hw|exact Hu|exact HX].
Qed.

Lemma expected_notification w pl buf tk v t :
  plugin_wf pl -> holds buf tk v -> field_of v (bs "id") = None -> field_of v (bs "method") = Some (JStr ECSYS_SYSTEM_NOTIFICATION) ->
  json_get_member buf tk (bs "params") = Some t -> returns (ld_dispatch w pl buf tk).
Proof.
  intros Hw Hh Ei Em Et. unfold ld_dispatch. cbv zeta.
  destruct (get_field_some _ _ _ _ _ Hh Em) as (mt & -> & Hm). rewrite Et, (strdup_holds _ _ _ Hm), (get_field_none _ _ _ _ Hh Ei).
  destruct (get_member_holds _ _ _ _ _ Hh Et) as [u Hu]. unfold find_name, payecs_code_notifications. cbn [List.find fst].
  unfold streq. rewrite bool_decide_true by done. destruct (wf_delay pl Hw) as (d & Hd & Ed).
  eapply handled_returns, notification_returns; [apply Hw|exact Hu| |]; cbn [default_maxdelay]; [exact (delay_known pl Hw)|by rewrite Ed].
Qed.

Lemma expected_reply pl buf tk v id :
  plugin_wf pl -> holds buf tk v -> (0 <= id < u64_mod)%Z -> field_of v (bs "id") = Some (JPrim (fmt_u id)) ->
  is_Some (intmap_to_map (out_reqs pl) !! id) ->
  is_Some (field_of v (bs "error")) \/ field_of v (bs "error") = None /\ (exists w ms, field_of v (bs "result") = Some (JObj w ms)) ->
  returns (handle_rpc_reply pl buf tk).
Proof.
  intros Hw Hh Hi Ei [k Ek] HC. unfold handle_rpc_reply. pose proof (wf_top _ (wf_payz pl Hw)) as Ht.
  destruct (get_field_some _ _ _ _ _ Hh Ei) as (it & -> & Hit). rewrite (json_to_u64_holds _ _ _ Hi Hit), intmap_get_map, Ek by apply Hw.
  pose proof (wf_entities pl Hw _ _ Ek) as Hk. cbv zeta. destruct HC as [[u Ee]|(Ee & w & ms & Er)].
  - destruct (get_field_some _ _ _ _ _ Hh Ee) as (et & -> & Het). apply handled_returns. unfold ParseInvoice.parse_invoice_decode_ng.
    destruct (ecs_set_holds (top_ecs (Plugin.top pl)) k (bs "lightningd:error") buf et u Ht Hk ltac:(by apply no_nul_true) Het) as (s1 & -> & W1 & _). cbn [obind].
    destruct (ecs_clear s1 k (bs "lightningd:systems") W1) as (s2 & -> & _). apply returns_ret.
  - rewrite (get_field_none _ _ _ _ Hh Ee). destruct (get_field_some _ _ _ _ _ Hh Er) as (rt & -> & Hrt). apply handled_returns.
    destruct (holds_obj _ _ _ _ Hrt) as [HF _]. unfold ParseInvoice.parse_invoice_decode_ok.
    destruct (invoice_fields_loop buf k _ ms (top_ecs (Plugin.top pl)) Ht Hk HF) as (s1 & -> & W1 & _). cbn [obind].
    destruct (advance_done_returns s1 k W1 Hk) as [[s2 evs] ->]. apply returns_ret.
Qed.

(** * Runs *)

Lemma message_wf w pl m pl' evs : plugin_wf pl -> well_formed m -> handle_message w pl m = Ret (pl', evs) -> plugin_wf pl'.
Proof. intros Hw Hm H. destruct Hm; [by eapply command_handle_wf|by eapply rpc_reply_wf]. Qed.

Lemma steps_wf pl pl' : plugin_wf pl -> rtc plugin_step pl pl' -> plugin_wf pl'.
Proof. intros Hw H. induction H as [|x y z [w ? m ? evs Hm E] _ IH]; [done|]. by eapply IH, message_wf. Qed.

Lemma expected_returns w pl m : plugin_wf pl -> expected pl m -> returns (handle_message w pl m).
Proof.
  intros Hw He. destruct He; cbn [handle_message].
  - by eapply answers_returns, expected_command.
  - by eapply expected_notification.
  - eapply expected_reply; eauto.
  - eapply expected_reply; eauto.
Qed.

(** ** The start *)

Lemma add_funcs_in (defs : list (sysdef sysfn)) : forall m n w, foldl add_func m defs !! n = Some w ->
  m !! n = Some w \/ exists x, x ∈ defs /\ d_func x = Some (w_func w) /\ d_required x = w_required w.
Proof.
  induction defs as [|x defs IH]; intros m n w H; cbn [foldl] in H; [by left|].
  apply IH in H as [H|(y & Hy & E)]; [|right; exists y; split; [by right|done]]. unfold add_func in H.
  destruct (d_func x) as [f|] eqn:Ef; [|by left]. apply lookup_insert_Some in H as [[_ <-]|[_ H]]; [|by left].
  right. exists x. split; [by left|done].
Qed.

(** The built-in systems require what their functions read. *)
Lemma builtin_needs x f c : x ∈ builtin_defs -> d_func x = Some f -> c ∈ needs f -> c ∈ d_required x.
Proof.
  intros Hx. revert f c. pattern x. revert x Hx. apply Forall_forall. unfold builtin_defs.
  repeat (apply Forall_cons; split; [intros f c [= <-] Hc; cbn [needs d_required] in *; set_solver|]). by apply Forall_nil.
Qed.

Lemma builtin_registered n : n ∈ map d_name builtin_defs -> cstr n /\ is_Some (foldl add_sys (∅ : gmap bytes ecsys_registered) builtin_defs !! n).
Proof.
  revert n. apply Forall_forall. unfold builtin_defs at 1. cbn [map d_name].
  repeat (constructor; [split; [split; [by apply no_nul_true|reflexivity]|vm_compute; eauto]|]). constructor.
Qed.

Lemma setup_wf : exists p, setup_payz_top = Ret p /\ payz_wf p.
Proof.
  destruct setup_spec as (s & E & W & _ & Es & Ef). eexists. split; [exact E|]. clear E.
  split; cbn [top_ecs default_systems payecs_registry payecs_systraces_remaining payecs_systraces]; [done| | |done|done|by split].
  - rewrite Es. apply builtin_registered.
  - rewrite Ef. intros n w c Hw Hc. apply add_funcs_in in Hw as [Hw|(x & Hx & E1 & E2)]; [done|]. rewrite <- E2. by eapply builtin_needs.
Qed.

(** The plugin starts, with the blocks in the reply of [listconfigs]. *)
Lemma start_spec buf tk v n :
  holds buf tk v -> is_u32 n -> field_of v (bs "max-locktime-blocks") = Some (JPrim (fmt_u n)) ->
  exists pl, plugin_start buf tk = Ret pl /\ plugin_wf pl.
Proof.
  intros Hh Hn Hf. unfold plugin_start. destruct setup_wf as (p & E & Hp). rewrite E. clear E. cbn [obind]. unfold Defaulter.system_defaulter_init.
  pose proof (scan_field buf tk v (bs "max-locktime-blocks") str_arg Hh eq_refl) as HS. rewrite Hf in HS. destruct HS as (t & Ht & HR).
  change (bs "{" ++ bs "max-locktime-blocks" ++ bs ":%}") with (bs "{max-locktime-blocks:%}") in HR.
  cbn [fmt str_arg] in HR. unfold scan_result in HR. rewrite HR. cbn [obind]. eexists. split; [reflexivity|].
  assert (Ed : json_strdup buf t = text (JPrim (fmt_u n))).
  { unfold json_strdup. destruct (holds_cur _ _ _ Ht) as (_ & _ & _ & ->). cbn [body text]. apply until_nul_id, prim_ok_no_nul. by destruct Ht as (? & ? & ? & _ & _ & _ & ?). }
  split; cbn [Plugin.top maxdelay outreq_id out_reqs]; [exact Hp| |done|done|by intros id k [=]].
  exists (JPrim (fmt_u n)). split; [|by rewrite Ed].
  by destruct Ht as (? & ? & ? & _ & _ & _ & ?).
Qed.
