(* ===== verification/PluginTheorems.v ===== *)
(** The plugin as a whole: its invariant over all runs, the messages it
    survives, and the replies to commands. *)
From S2P Require Import Prelude Utf8 Jsmn JsonTree JsmnProofs Json JsonProofs.
From S2P Require Import JsonEqual JsonOut JsonOutProofs JsonScan JsonScanProofs Libplugin Param.
From S2P Require Import Strmap Intmap Ec EcProofs Setsystems Ecsys EcsysProofs Ecs.
From S2P Require Import Systems PayecsData PayecsCode PayecsProofs Replies Plugin PluginProofs.

(** The states the plugin can be in after it was started with the reply of
    [listconfigs] in a buffer. *)
Definition reachable (buf : bytes) (tk : list jsmntok) (pl : plugin) : Prop :=
  exists pl0, plugin_start buf tk = Ret pl0 /\ rtc plugin_step pl0 pl.

Lemma reachable_wf buf tk v n pl :
  holds buf tk v -> is_u32 n -> field_of v (bs "max-locktime-blocks") = Some (JPrim (fmt_u n)) ->
  reachable buf tk pl -> plugin_wf pl.
Proof.
  intros Hh Hn Hf (pl0 & E & HR). destruct (start_spec _ _ _ _ Hh Hn Hf) as (pl1 & E1 & W). rewrite E in E1. injection E1 as <-.
  by eapply steps_wf.
Qed.

(** A configuration, and a request for a new entity. *)
Definition sample_config : jv := JObj [] [Member0 (bs "max-locktime-blocks") (JPrim (bs "2016"))].

Definition sample_request : jv :=
  JObj [] [Member0 (bs "jsonrpc") (JStr (bs "2.0")); Member0 (bs "id") (JPrim (bs "7"));
           Member0 (bs "method") (JStr (bs "payecs_newentity")); Member0 (bs "params") (JArr [] [])].

Definition sample_in : message_in := FromLightningd (text sample_request) (toks 0 sample_request).

Lemma sample_expected pl : expected pl sample_in.
Proof.
  eapply (exp_command pl _ _ sample_request 7 (bs "payecs_newentity")).
  - apply (holds_self sample_request). reflexivity.
  - done.
  - reflexivity.
  - reflexivity.
  - reflexivity.
  - reflexivity.
  - by split.
Qed.

(** The state after one request. *)
Lemma sample_reachable : exists pl, reachable (text sample_config) (toks 0 sample_config) pl.
Proof.
  destruct (start_spec (text sample_config) (toks 0 sample_config) sample_config 2016) as (pl & E & W).
  - apply (holds_self sample_config). reflexivity.
  - by apply u32_sample.
  - reflexivity.
  - destruct (expected_returns (World [] []) pl sample_in W (sample_expected pl)) as [[pl' evs] E'].
    exists pl', pl. split; [exact E|]. eapply rtc_once, step_message; [|exact E'].
    eapply wf_from, (holds_self sample_request). reflexivity.
Qed.

(** C6.  After any run that starts with a readable configuration, whatever JSON
    texts came in, the plugin's state is well formed: the table and the two maps
    of systems are, every default and external system is registered as it is
    on file, the trace is within its bound, and each request that waits for a
    reply is about a 32-bit entity. *)
Theorem plugin_invariant buf tk v n pl :
  holds buf tk v -> is_u32 n -> field_of v (bs "max-locktime-blocks") = Some (JPrim (fmt_u n)) ->
  reachable buf tk pl -> plugin_wf pl.
Proof. apply reachable_wf. Qed.

Lemma plugin_invariant_witness :
  exists pl, reachable (text sample_config) (toks 0 sample_config) pl /\ plugin_wf pl.
Proof.
  destruct sample_reachable as [pl Hr]. exists pl. split; [exact Hr|].
  apply (plugin_invariant (text sample_config) (toks 0 sample_config) sample_config 2016).
  - apply (holds_self sample_config). reflexivity.
  - by apply u32_sample.
  - reflexivity.
  - exact Hr.
Defined.

(** C5.  In every state a run can reach, the plugin handles each message that
    lightningd may send without stopping in an assertion, in [plugin_err] or out
    of an array: a command of the two tables with any JSON parameters, the
    notification of a system with any payload, and the reply to a request.
    Two inputs are excluded: an exact write of [payecs_setcomponents], and a
    new system that disallows components and requires none. *)
Theorem plugin_survives buf tk v n pl w m :
  holds buf tk v -> is_u32 n -> field_of v (bs "max-locktime-blocks") = Some (JPrim (fmt_u n)) ->
  reachable buf tk pl -> expected pl m ->
  exists pl' evs, handle_message w pl m = Ret (pl', evs).
Proof.
  intros Hh Hn Hf Hr He. pose proof (reachable_wf _ _ _ _ _ Hh Hn Hf Hr) as Hw.
  destruct (expected_returns w pl m Hw He) as [[pl' evs] E]. eauto.
Qed.

Lemma plugin_survives_witness :
  exists pl, reachable (text sample_config) (toks 0 sample_config) pl /\
    exists pl' evs, handle_message (World [] []) pl sample_in = Ret (pl', evs).
Proof.
  destruct sample_reachable as [pl Hr]. exists pl. split; [exact Hr|].
  apply (plugin_survives (text sample_config) (toks 0 sample_config) sample_config 2016).
  - apply (holds_self sample_config). reflexivity.
  - by apply u32_sample.
  - reflexivity.
  - exact Hr.
  - apply sample_expected.
Defined.

(** C7.  Every command of the two tables is answered exactly once, in every
    state a run can reach and whatever its parameters are (the two inputs above
    apart): the last thing it sends is a reply that opens with the id of the
    request, and all it may send before is one notification that triggers a
    system. *)
Theorem commands_answered cbuf ctk cv n pl w buf tk v id name h t :
  holds cbuf ctk cv -> is_u32 n -> field_of cv (bs "max-locktime-blocks") = Some (JPrim (fmt_u n)) -> reachable cbuf ctk pl ->
  holds buf tk v -> (0 <= id < u64_mod)%Z -> field_of v (bs "id") = Some (JPrim (fmt_u id)) ->
  field_of v (bs "method") = Some (JStr name) -> find_name payz_commands name = Some h ->
  json_get_member buf tk (bs "params") = Some t -> harmless name buf t ->
  exists pl' evs, ld_dispatch w pl buf tk = Ret (pl', evs) /\ answered id evs.
Proof.
  intros Hc Hn Hf Hr Hh Hi Ei Em Ef Et HX. pose proof (reachable_wf _ _ _ _ _ Hc Hn Hf Hr) as Hw.
  exact (expected_command w pl buf tk v id name h t Hw Hh Hi Ei Em Ef Et HX).
Qed.

Lemma commands_answered_witness :
  exists pl, reachable (text sample_config) (toks 0 sample_config) pl /\
    exists pl' evs, ld_dispatch (World [] []) pl (text sample_request) (toks 0 sample_request) = Ret (pl', evs) /\ answered 7 evs.
Proof.
  destruct sample_reachable as [pl Hr]. exists pl. split; [exact Hr|].
  eapply (commands_answered (text sample_config) (toks 0 sample_config) sample_config 2016 pl (World [] []) _ _ sample_request 7 (bs "payecs_newentity")).
  - apply (holds_self sample_config). reflexivity.
  - by apply u32_sample.
  - reflexivity.
  - exact Hr.
  - apply (holds_self sample_request). reflexivity.
  - done.
  - reflexivity.
  - reflexivity.
  - reflexivity.
  - reflexivity.
  - by split.
Defined.
