(* ===== verification/Handshake.v ===== *)
(** plugins/libplugin.c, payz/main.c and payz/top.c: from the start of the process
    to the state in which it serves commands.

    lightningd first sends getmanifest, then init; [ld_command_handle] enforces
    this order and afterwards dispatches ([ld_dispatch]). *)
From S2P Require Import Prelude Utf8 Jsmn JsonTree JsmnProofs Json JsonProofs.
From S2P Require Import JsonEqual JsonOut JsonOutProofs JsonScan JsonScanProofs Libplugin Param.
From S2P Require Import SyncRpc Features.
From S2P Require Import Strmap Intmap Ec EcProofs Setsystems Ecsys EcsysProofs Ecs Systems.
From S2P Require Import PayecsData PayecsCode Plugin.

(** * What a plugin is given *)

(** [struct plugin_command]; [c_usage] is what [param] makes of the parameters
    of its handler when it is called for its usage. *)
Record plugin_command : Type := Command {
  c_name : bytes; c_category : bytes; c_description : bytes; c_long_description : option bytes;
  c_usage : bytes; c_deprecated : bool }.

(** [struct plugin_option]; [arg] points to a flag. *)
Record plugin_option : Type := Option {
  o_name : bytes; o_type : bytes; o_description : bytes;
  o_handle : bytes -> bool -> outcome (option bytes * bool); o_deprecated : bool }.

(** [struct plugin_hook], without its handler. *)
Record plugin_hook : Type := Hook { h_name : bytes; h_before : option (list bytes); h_after : option (list bytes) }.

(** The arguments of [plugin_main]. *)
Record config : Type := Config {
  cf_restartable : bool;
  cf_commands : list plugin_command;
  cf_notif_subs : list bytes;
  cf_hook_subs : list plugin_hook;
  cf_notif_topics : list bytes;
  cf_opts : list plugin_option }.

(** * What payz gives *)

Definition payecs_data_info : list plugin_command :=
  [Command (bs "payecs_listentities") (bs "payment")
     (bs "List all entities with attached components, or those with {required} components and without {disallowed} components")
     (Some (bs "List entities.")) (param_usage listentities_params) false;
   Command (bs "payecs_newentity") (bs "payment") (bs "Allocate an entity ID number.")
     (Some (bs "Allocate entity.")) (param_usage newentity_params) false;
   Command (bs "payecs_getcomponents") (bs "payment") (bs "Look up {entity} for one or more {components}.")
     (Some (bs "Look up components of an entity.")) (param_usage getcomponents_params) false;
   Command (bs "payecs_setcomponents") (bs "payment")
     (bs "Perform specified {writes}, after atomically ensuring that the optional {expected} still holds.")
     (Some (bs "Set components of an entity.")) (param_usage setcomponents_params) false].

Definition payecs_code_info : list plugin_command :=
  [Command (bs "payecs_newsystem") (bs "payment")
     (bs "Register a new {system}, which will invoke {command} if it is used in an entity with all {required} components and with none of the {disallowed} components.")
     (Some (bs "Register new system.")) (param_usage newsystem_params) false;
   Command (bs "payecs_advance") (bs "payment") (bs "Advance the processing of systems of the given {entity}.")
     (Some (bs "Advance entity processing.")) (param_usage advance_params) false;
   Command (bs "payecs_getdefaultsystems") (bs "payment") (bs "Return the list of built-in systems for normal payment flow.")
     (Some (bs "Return the list of built-in systems for normal payment flow.")) (param_usage getdefaultsystems_params) false;
   Command (bs "payecs_setdefaultsystems") (bs "payment")
     (bs "Set the given {entity} to use the built-in systmes for normal payment flow, optionally adding {prepend}ed and {append}ed systems.")
     (Some (bs "Set entity to use normal payment flow, possibly with additional systems.")) (param_usage setdefault_params) false;
   Command (bs "payecs_systrace") (bs "payment") (bs "Return a trace of systems that were triggered for a specified {entity}.")
     (Some (bs "Trace the systems that ran on the given entity.")) (param_usage systrace_params) false].

(** [payecs_code_topics] *)
Definition payecs_code_topics : list bytes := [ECSYS_SYSTEM_NOTIFICATION].

(** The option's name in [payz_main]. *)
Definition disablempp_option (pay_command keysend_command : bytes) : bytes :=
  if streq pay_command (bs "pay") && streq keysend_command (bs "keysend") then bs "disable-mpp"
  else pay_command ++ bs "-disable-mpp".

(** The call of [plugin_main] in [payz_main]; no hooks. *)
Definition payz_config (pay_command keysend_command : bytes) : config :=
  Config false (payecs_data_info ++ payecs_code_info) [ECSYS_SYSTEM_NOTIFICATION] [] payecs_code_topics
    [Option (disablempp_option pay_command keysend_command) (bs "flag") (bs "Disable multi-part payments.") flag_option false].

(** * The state *)

(** Of [struct plugin] what the handshake uses, [deprecated_apis],
    [payz_top->disablempp], whether the connection for requests was opened, and
    the state of the plugin proper. *)
Record libplugin : Type := Lib {
  manifested : bool; initialized : bool;
  usagemap : strmap bytes;
  our_features : option feature_set;
  rpc_location : option bytes;
  deprecated_apis : bool;
  disablempp : bool;
  rpc_open : bool;
  running : plugin }.

(** * Usage *)

(** A command that is called for its usage: [command_set_usage], then the
    assertion of [setup_command_usage]. *)
Definition set_usage (m : strmap bytes) (c : plugin_command) : outcome (strmap bytes) :=
  let '(ok, m') := strmap_add m (c_name c) (c_usage c) in
  if ok : bool then
    let! _ := assert_ (match strmap_get m' (c_name c) with Some _ => true | None => false end) "setup_command_usage: usage" in
    Ret m'
  else Abort "plugin_err: Two usages for command?".

Definition setup_command_usage (commands : list plugin_command) : outcome (strmap bytes) :=
  ofold set_usage strmap_init commands.

(** [setup_payz_top], then [plugin_main] up to the event loop. *)
Definition plugin_main (cf : config) : outcome libplugin :=
  let! p := setup_payz_top in
  let! u := setup_command_usage (cf_commands cf) in
  Ret (Lib false false u None None false false false (Plugin p None 0 intmap_init)).

(** * getmanifest *)

Definition add_option (js : json_out) (o : plugin_option) : json_out :=
  let js := json_object_start js None in
  let js := json_add_string js (Some (bs "name")) (o_name o) in
  let js := json_add_string js (Some (bs "type")) (o_type o) in
  let js := json_add_string js (Some (bs "description")) (o_description o) in
  let js := json_add_bool js (Some (bs "deprecated")) (o_deprecated o) in
  json_object_end js.

Definition add_command (u : strmap bytes) (js : json_out) (c : plugin_command) : outcome json_out :=
  let js := json_object_start js None in
  let js := json_add_string js (Some (bs "name")) (c_name c) in
  match strmap_get u (c_name c) with
  | None => Abort "handle_getmanifest: no usage"
  | Some usage =>
      let js := json_add_string js (Some (bs "usage")) usage in
      let js := json_add_string js (Some (bs "description")) (c_description c) in
      let js := match c_long_description c with
                | Some d => json_add_string js (Some (bs "long_description")) d
                | None => js
                end in
      let js := json_add_bool js (Some (bs "deprecated")) (c_deprecated c) in
      Ret (json_object_end js)
  end.

(** [before] and [after] of a hook. *)
Definition add_names (field : bytes) (js : json_out) (names : option (list bytes)) : json_out :=
  match names with
  | None => js
  | Some l => json_array_end (foldl (fun js n => json_add_string js None n) (json_array_start js (Some field)) l)
  end.

Definition add_hook (js : json_out) (h : plugin_hook) : json_out :=
  let js := json_object_start js None in
  let js := json_add_string js (Some (bs "name")) (h_name h) in
  let js := add_names (bs "before") js (h_before h) in
  let js := add_names (bs "after") js (h_after h) in
  json_object_end js.

Definition add_featurebits (js : json_out) (f : option feature_set) : json_out :=
  match f with
  | None => js
  | Some fs =>
      let js := json_object_start js (Some (bs "featurebits")) in
      let js := foldl (fun js p => match feature_place_names p with
                                   | None => js
                                   | Some n => json_add_hex js (Some n) (bits fs p)
                                   end) js feature_places in
      json_object_end js
  end.

Definition add_topic (js : json_out) (t : bytes) : json_out :=
  json_object_end (json_add_string (json_object_start js None) (Some (bs "method")) t).

(** [handle_getmanifest]: the new value of [deprecated_apis], and the reply. *)
Definition handle_getmanifest (cf : config) (u : strmap bytes) (f : option feature_set) (id : Z) (buf : bytes) (params : list jsmntok)
  : outcome (bool * event) :=
  let js := jsonrpc_stream_success id in
  let! dep :=
    match json_get_member buf params (bs "allow-deprecated-apis") with
    | None => Ret true
    | Some t =>
        match json_to_bool buf t with
        | Some b => Ret b
        | None => Abort "plugin_err: Invalid allow-deprecated-apis"
        end
    end in
  let js := json_array_start js (Some (bs "options")) in
  let js := foldl add_option js (cf_opts cf) in
  let js := json_array_end js in
  let js := json_array_start js (Some (bs "rpcmethods")) in
  let! js := ofold (add_command u) js (cf_commands cf) in
  let js := json_array_end js in
  let js := json_array_start js (Some (bs "subscriptions")) in
  let js := foldl (fun js n => json_add_string js None n) js (cf_notif_subs cf) in
  let js := json_array_end js in
  let js := json_array_start js (Some (bs "hooks")) in
  let js := foldl add_hook js (cf_hook_subs cf) in
  let js := json_array_end js in
  let js := add_featurebits js f in
  let js := json_add_bool js (Some (bs "dynamic")) (cf_restartable cf) in
  let js := json_array_start js (Some (bs "notifications")) in
  let js := foldl add_topic js (cf_notif_topics cf) in
  let js := json_array_end js in
  let! ev := command_finished js in
  Ret (dep, ev).

(** * init *)

(** What the system calls of [handle_init] give: an error message of [chdir] and
    of [connect], and what can be read from the socket. *)
Record os : Type := Os {
  os_chdir : bytes -> option bytes; os_connect : bytes -> option bytes; os_reads : list (option bytes) }.

Definition feature_key (buf : bytes) (t : list jsmntok) : option feature_place :=
  if json_tok_streq buf t (bs "init") then Some INIT_FEATURE
  else if json_tok_streq buf t (bs "node") then Some NODE_ANNOUNCE_FEATURE
  else if json_tok_streq buf t (bs "channel") then Some CHANNEL_FEATURE
  else if json_tok_streq buf t (bs "invoice") then Some BOLT11_FEATURE
  else None.

Definition json_to_feature_set (buf : bytes) (features : list jsmntok) : feature_set :=
  foldl (fun fs t => match feature_key buf t with
                     | Some p => set_bits fs p (default [] (json_tok_bin_from_hex buf (tl t)))
                     | None => fs
                     end) (feature_set_of (fun _ => [])) (json_for_each_obj features).

(** The values of the scan. *)
Inductive init_val : Type :=
| IString (s : bytes)
| IFeatures (fs : feature_set).

Definition init_string : scan_arg init_val := ScanArg (bs "json_strdup") (fun buf t => Some (IString (json_strdup buf t))).
Definition init_features : scan_arg init_val :=
  ScanArg (bs "json_to_feature_set") (fun buf t => Some (IFeatures (json_to_feature_set buf t))).

Definition init_guide : bytes := bs "{lightning-dir:%,network:%,feature_set:%,rpc-file:%}".

(** [sizeof(addr.sun_path)] *)
Definition SUN_PATH : nat := 108.

(** One option of init: the first entry with its name handles it. *)
Definition handle_option (opts : list plugin_option) (buf : bytes) (flag : bool) (t : list jsmntok) : outcome bool :=
  let opt := json_strdup buf t in
  match List.find (fun o => streq (o_name o) opt) opts with
  | None => Ret flag
  | Some o =>
      let! (problem, flag') := o_handle o (json_strdup buf (tl t)) flag in
      match problem with
      | Some _ => Abort "plugin_err: option"
      | None => Ret flag'
      end
  end.

(** [payz_top_init]: the maximum delay; [system_defaulter_init] asks for it. *)
Definition payz_top_init (fuel : nat) (c : rpc_conn) : outcome (bytes * rpc_conn * list event) :=
  let! (vs, c', evs) := rpc_scan fuel c (bs "listconfigs") (json_out_obj None) (bs "{max-locktime-blocks:%}") [str_arg] in
  match vs with
  | [d] => Ret (d, c', evs)
  | _ => Abort "rpc_scan: guide"
  end.

Definition no_connection (rpc_file err : bytes) : event :=
  Logged LOG_UNUSUAL (bs "Could not connect to '" ++ rpc_file ++ bs "': " ++ err).

(** [handle_init]; the plugin is run with a connection for requests. The global
    [chainparams], which nothing in the plugin reads, is not kept. *)
Definition handle_init (fuel : nat) (o : os) (cf : config) (lp : libplugin) (id : Z) (buf : bytes) (params : list jsmntok)
  : outcome (libplugin * list event) :=
  match json_get_member buf params (bs "configuration") with
  | None => Abort "handle_init: no configuration"
  | Some configtok =>
      let! scanned := json_scan buf configtok init_guide [init_string; init_string; init_features; init_string] in
      match scanned with
      | inr [IString dir; IString network; IFeatures fs; IString rpc_file] =>
          match os_chdir o dir with
          | Some _ => Abort "plugin_err: chdir"
          | None =>
              if SUN_PATH <? length rpc_file + 1 then Abort "plugin_err: rpc filename too long"
              else
                let '(with_rpc, logged) :=
                  match os_connect o rpc_file with
                  | Some err => (false, [no_connection rpc_file err])
                  | None => (true, [])
                  end in
                match json_get_member buf params (bs "options") with
                | None => Abort "handle_init: no options"
                | Some opttok =>
                    let! flag := ofold (handle_option (cf_opts cf) buf) (disablempp lp) (json_for_each_obj opttok) in
                    let! (delay, _, evs) := payz_top_init fuel (RpcConn [] (os_reads o)) in
                    let! ev := command_success id (json_out_obj None) in
                    let pl := running lp in
                    Ret (Lib (manifested lp) (initialized lp) (usagemap lp) (Some fs) (Some rpc_file) (deprecated_apis lp) flag
                           with_rpc (Plugin (top pl) (Some delay) (outreq_id pl) (out_reqs pl)),
                         logged ++ evs ++ [ev])
                end
          end
      | _ => Abort "plugin_err: cannot scan init params"
      end
  end.

(** * All messages *)

Definition set_manifested (lp : libplugin) (dep : bool) : libplugin :=
  Lib true (initialized lp) (usagemap lp) (our_features lp) (rpc_location lp) dep (disablempp lp) (rpc_open lp) (running lp).
Definition set_initialized (lp : libplugin) : libplugin :=
  Lib (manifested lp) true (usagemap lp) (our_features lp) (rpc_location lp) (deprecated_apis lp) (disablempp lp) (rpc_open lp) (running lp).
Definition set_running (lp : libplugin) (pl : plugin) : libplugin :=
  Lib (manifested lp) (initialized lp) (usagemap lp) (our_features lp) (rpc_location lp) (deprecated_apis lp) (disablempp lp) (rpc_open lp) pl.

(** [*cmd->id] where there is no id. *)
Definition need_id {A : Type} (id : option Z) (k : Z -> outcome A) : outcome A :=
  match id with Some i => k i | None => Abort "jsonrpc_stream_start: cmd->id" end.

Definition ld_command_handle (fuel : nat) (o : os) (w : world) (cf : config) (lp : libplugin) (buffer : bytes) (toks : list jsmntok)
  : outcome (libplugin * list event) :=
  match json_get_member buffer toks (bs "method"), json_get_member buffer toks (bs "params") with
  | Some methtok, Some paramstok =>
      let methodname := json_strdup buffer methtok in
      let! id :=
        match json_get_member buffer toks (bs "id") with
        | None => Ret None
        | Some t =>
            match json_to_u64 false buffer t with
            | None => Abort "plugin_err: JSON id is not a number"
            | Some i => Ret (Some i)
            end
        end in
      if negb (manifested lp) then
        if streq methodname (bs "getmanifest") then
          need_id id (fun i =>
            let! (dep, ev) := handle_getmanifest cf (usagemap lp) (our_features lp) i buffer paramstok in
            Ret (set_manifested lp dep, [ev]))
        else Abort "plugin_err: Did not receive 'getmanifest' yet"
      else if negb (initialized lp) then
        if streq methodname (bs "init") then
          need_id id (fun i =>
            let! (lp', evs) := handle_init fuel o cf lp i buffer paramstok in
            Ret (set_initialized lp', evs))
        else Abort "plugin_err: Did not receive 'init' yet"
      else
        let! (pl, evs) := ld_dispatch w (running lp) buffer toks in Ret (set_running lp pl, evs)
  | _, _ => Abort "plugin_err: Malformed JSON-RPC notification"
  end.

(** * The two connections *)

(** [ld_command_handle], called from [ld_read_json_one]; the world may differ
    from message to message, which are counted. *)
Definition ld_handle (fuel : nat) (o : os) (ws : nat -> world) (cf : config) (st : nat * libplugin) (buffer : bytes) (toks : list jsmntok)
  : outcome ((nat * libplugin) * list event) :=
  let! (lp, evs) := ld_command_handle fuel o (ws st.1) cf st.2 buffer toks in Ret ((S st.1, lp), evs).

Definition ld_read_json (fuel : nat) (o : os) (ws : nat -> world) (cf : config) : nat * libplugin -> reader -> bytes -> outcome ((nat * libplugin) * list event * reader) :=
  read_chunk (ld_handle fuel o ws cf) ld_grow.

(** What [rpc_read_response_one] does with a complete message. *)
Definition rpc_handle (pl : plugin) (buffer : bytes) (toks : list jsmntok) : outcome (plugin * list event) :=
  match json_get_member buffer toks (bs "jsonrpc") with
  | None => Abort "plugin_err: JSON-RPC message does not contain jsonrpc field"
  | Some _ => handle_rpc_reply pl buffer toks
  end.

Definition rpc_conn_read_response : plugin -> reader -> bytes -> outcome (plugin * list event * reader) := read_chunk rpc_handle rpc_grow.
