(* ===== verification/HandshakeProofs.v ===== *)
(** The handshake: usages, the manifest as a JSON value, and what init does. *)
From S2P Require Import Prelude Utf8 Jsmn JsonTree JsmnProofs Json JsonProofs.
From S2P Require Import JsonEqual JsonOut JsonOutProofs JsonScan JsonScanProofs Libplugin Param.
From S2P Require Import SyncRpc Features.
From S2P Require Import Strmap Intmap Ec EcProofs Setsystems Ecsys EcsysProofs Ecs.
From S2P Require Import Systems PayecsData PayecsCode PayecsProofs Replies Plugin PluginProofs PluginTheorems Handshake.

(** * Usages *)

Definition usages (u : strmap bytes) (commands : list plugin_command) : Prop :=
  Forall (fun c => strmap_get u (c_name c) = Some (c_usage c)) commands.

Lemma setup_usage_go commands : forall m,
  strmap_wf m -> NoDup (c_name <$> commands) -> Forall (fun c => no_nul (c_name c) /\ strmap_to_map m !! c_name c = None) commands ->
  exists u, ofold set_usage m commands = Ret u /\ strmap_wf u /\ usages u commands /\
    forall k, k ∉ (c_name <$> commands) -> strmap_to_map u !! k = strmap_to_map m !! k.
Proof.
  induction commands as [|c commands IH]; intros m Hm Hd HF; cbn [ofold]; [exists m; split_and!; [done..|constructor|done]|].
  apply Forall_cons in HF as [[Hn Hc] HF]. cbn [fmap list_fmap] in Hd. apply NoDup_cons in Hd as [Hc' Hd].
  unfold set_usage at 1. destruct (strmap_add_fresh m (c_name c) (c_usage c) Hm Hn Hc) as (m' & Ea & Hm' & Em'). rewrite Ea.
  rewrite (strmap_get_map m' _ Hm'), Em', lookup_insert_eq. cbn [assert_ obind].
  destruct (IH m' Hm' Hd) as (u & Eu & Hu & HU & HO).
  { apply Forall_forall. intros d Hd'. eapply Forall_forall in HF; [|exact Hd']. destruct HF as [H1 H2]. split; [done|].
    rewrite Em', lookup_insert_ne; [done|]. intros E. apply Hc'. rewrite E. by apply list_elem_of_fmap_2. }
  exists u. split_and!; [done|done|constructor; [|done]|].
  - rewrite (strmap_get_map u _ Hu), HO, Em' by done. apply lookup_insert_eq.
  - intros k Hk. cbn [fmap list_fmap] in Hk. apply not_elem_of_cons in Hk as [H1 H2]. rewrite HO, Em', lookup_insert_ne by done. done.
Qed.

Lemma setup_usage_spec commands :
  NoDup (c_name <$> commands) -> Forall (fun c => no_nul (c_name c)) commands ->
  exists u, setup_command_usage commands = Ret u /\ usages u commands.
Proof.
  intros Hd HF. destruct (setup_usage_go commands strmap_init I Hd) as (u & E & _ & HU & _); [|by eauto].
  eapply Forall_impl; [exact HF|]. intros c Hc. split; [done|]. reflexivity.
Qed.

(** * The manifest *)

Definition jbool (b : bool) : jv := JPrim (if b then bs "true" else bs "false").
Definition jstring (s : bytes) : jv := JStr (printed s).

(** A loop that adds an element in each round. *)
Lemma fold_arr {A : Type} (f : json_out -> A -> json_out) (g : A -> jv) (P : A -> Prop) base :
  (forall js es x, P x -> in_arr js base es -> in_arr (f js x) base (es ++ [Elem0 (g x)])) ->
  forall l js es, Forall P l -> in_arr js base es -> in_arr (foldl f js l) base (es ++ map (fun x => Elem0 (g x)) l).
Proof.
  intros H. induction l as [|x l IH]; intros js es HF HJ; cbn [foldl map]; [by rewrite app_nil_r|].
  apply Forall_cons in HF as [Hx HF]. specialize (IH _ _ HF (H js es x Hx HJ)). by rewrite <- app_assoc in IH.
Qed.

Lemma in_obj_bool js base ms k b : in_obj js base ms -> in_obj (json_add_bool js (Some k) b) base (ms ++ [Member0 k (jbool b)]).
Proof. intros H. unfold json_add_bool. by apply in_obj_raw. Qed.

Lemma in_obj_hex js base ms k d : in_obj js base ms -> in_obj (json_add_hex js (Some k) d) base (ms ++ [Member0 k (JStr (hex_encode d))]).
Proof. intros H. unfold json_add_hex. exact (in_obj_add js base ms k (JStr (hex_encode d)) H). Qed.

Definition option_value (o : plugin_option) : jv :=
  JObj [] [Member0 (bs "name") (jstring (o_name o)); Member0 (bs "type") (jstring (o_type o));
           Member0 (bs "description") (jstring (o_description o)); Member0 (bs "deprecated") (jbool (o_deprecated o))].

Definition command_value (c : plugin_command) : jv :=
  JObj [] ([Member0 (bs "name") (jstring (c_name c)); Member0 (bs "usage") (jstring (c_usage c));
            Member0 (bs "description") (jstring (c_description c))]
           ++ match c_long_description c with Some d => [Member0 (bs "long_description") (jstring d)] | None => [] end
           ++ [Member0 (bs "deprecated") (jbool (c_deprecated c))]).

Definition names_member (field : bytes) (l : option (list bytes)) : list jmember :=
  match l with Some l => [Member0 field (JArr [] (map (fun n => Elem0 (jstring n)) l))] | None => [] end.

Definition hook_value (h : plugin_hook) : jv :=
  JObj [] ([Member0 (bs "name") (jstring (h_name h))] ++ names_member (bs "before") (h_before h) ++ names_member (bs "after") (h_after h)).

Definition features_member (f : option feature_set) : list jmember :=
  match f with
  | Some fs =>
      [Member0 (bs "featurebits")
         (JObj [] [Member0 (bs "init") (JStr (hex_encode (bits fs INIT_FEATURE))); Member0 (bs "node") (JStr (hex_encode (bits fs NODE_ANNOUNCE_FEATURE)));
                   Member0 (bs "channel") (JStr (hex_encode (bits fs CHANNEL_FEATURE))); Member0 (bs "invoice") (JStr (hex_encode (bits fs BOLT11_FEATURE)))])]
  | None => []
  end.

Definition topic_value (t : bytes) : jv := JObj [] [Member0 (bs "method") (jstring t)].

Definition manifest_value (cf : config) (f : option feature_set) : jv :=
  JObj [] ([Member0 (bs "options") (JArr [] (map (fun o => Elem0 (option_value o)) (cf_opts cf)));
            Member0 (bs "rpcmethods") (JArr [] (map (fun c => Elem0 (command_value c)) (cf_commands cf)));
            Member0 (bs "subscriptions") (JArr [] (map (fun n => Elem0 (jstring n)) (cf_notif_subs cf)));
            Member0 (bs "hooks") (JArr [] (map (fun h => Elem0 (hook_value h)) (cf_hook_subs cf)))]
           ++ features_member f
           ++ [Member0 (bs "dynamic") (jbool (cf_restartable cf));
               Member0 (bs "notifications") (JArr [] (map (fun t => Elem0 (topic_value t)) (cf_notif_topics cf)))]).

(** All strings of a configuration are C strings. *)
Definition option_ok (o : plugin_option) : Prop := no_nul (o_name o) /\ no_nul (o_type o) /\ no_nul (o_description o).
Definition command_ok (c : plugin_command) : Prop :=
  no_nul (c_name c) /\ no_nul (c_usage c) /\ no_nul (c_description c) /\ match c_long_description c with Some d => no_nul d | None => True end.
Definition hook_ok (h : plugin_hook) : Prop := no_nul (h_name h) /\ Forall no_nul (default [] (h_before h)) /\ Forall no_nul (default [] (h_after h)).

Record config_ok (cf : config) : Prop := {
  ok_opts : Forall option_ok (cf_opts cf);
  ok_commands : Forall command_ok (cf_commands cf);
  ok_subs : Forall no_nul (cf_notif_subs cf);
  ok_hooks : Forall hook_ok (cf_hook_subs cf);
  ok_topics : Forall no_nul (cf_notif_topics cf) }.

Lemma add_option_spec base js es o : option_ok o -> in_arr js base es -> in_arr (add_option js o) base (es ++ [Elem0 (option_value o)]).
Proof.
  intros (H1 & H2 & H3) HJ. unfold add_option. eapply in_arr_close_obj; [done|].
  pose proof (in_obj_string _ _ _ (bs "name") _ (start_again js None) H1) as J. pose proof (in_obj_string _ _ _ (bs "type") _ J H2) as J2.
  pose proof (in_obj_string _ _ _ (bs "description") _ J2 H3) as J3. exact (in_obj_bool _ _ _ (bs "deprecated") _ J3).
Qed.

Lemma add_command_spec u base js es c :
  command_ok c -> strmap_get u (c_name c) = Some (c_usage c) -> in_arr js base es ->
  exists js', add_command u js c = Ret js' /\ in_arr js' base (es ++ [Elem0 (command_value c)]).
Proof.
  intros (H1 & H2 & H3 & H4) Hu HJ. unfold add_command. cbv zeta. rewrite Hu. eexists. split; [reflexivity|]. eapply in_arr_close_obj; [done|].
  pose proof (in_obj_string _ _ _ (bs "name") _ (start_again js None) H1) as J. pose proof (in_obj_string _ _ _ (bs "usage") _ J H2) as J2.
  pose proof (in_obj_string _ _ _ (bs "description") _ J2 H3) as J3. unfold command_value.
  destruct (c_long_description c) as [d|]; cbn [app].
  - pose proof (in_obj_string _ _ _ (bs "long_description") _ J3 H4) as J4. exact (in_obj_bool _ _ _ (bs "deprecated") _ J4).
  - exact (in_obj_bool _ _ _ (bs "deprecated") _ J3).
Qed.

Lemma add_commands_spec u base commands : forall js es,
  Forall command_ok commands -> usages u commands -> in_arr js base es ->
  exists js', ofold (add_command u) js commands = Ret js' /\ in_arr js' base (es ++ map (fun c => Elem0 (command_value c)) commands).
Proof.
  induction commands as [|c commands IH]; intros js es HF HU HJ; cbn [ofold map]; [exists js; by rewrite app_nil_r|].
  apply Forall_cons in HF as [Hc HF]. apply Forall_cons in HU as [Hu HU].
  destruct (add_command_spec u base js es c Hc Hu HJ) as (js1 & -> & HJ1). cbn [obind].
  destruct (IH js1 _ HF HU HJ1) as (js' & E & HJ'). exists js'. split; [done|]. by rewrite <- app_assoc in HJ'.
Qed.

Lemma add_strings_arr base js es l : Forall no_nul l -> in_arr js base es ->
  in_arr (foldl (fun js n => json_add_string js None n) js l) base (es ++ map (fun n => Elem0 (jstring n)) l).
Proof. apply (fold_arr (fun js n => json_add_string js None n) jstring no_nul base). intros js' es' n Hn HJ. by apply in_arr_string. Qed.

Lemma add_names_spec field base js ms l : Forall no_nul (default [] l) -> in_obj js base ms ->
  in_obj (add_names field js l) base (ms ++ names_member field l).
Proof.
  intros HF HJ. destruct l as [l|]; cbn [add_names names_member]; [|by rewrite app_nil_r].
  eapply in_obj_close_arr; [done|]. exact (add_strings_arr _ _ [] l HF (array_start_again js (Some field))).
Qed.

Lemma add_hook_spec base js es h : hook_ok h -> in_arr js base es -> in_arr (add_hook js h) base (es ++ [Elem0 (hook_value h)]).
Proof.
  intros (H1 & H2 & H3) HJ. unfold add_hook. eapply in_arr_close_obj; [done|].
  pose proof (in_obj_string _ _ _ (bs "name") _ (start_again js None) H1) as J.
  pose proof (add_names_spec (bs "before") _ _ _ _ H2 J) as J2. pose proof (add_names_spec (bs "after") _ _ _ _ H3 J2) as J3.
  by rewrite <- app_assoc in J3.
Qed.

Lemma add_featurebits_spec base js ms f : in_obj js base ms -> in_obj (add_featurebits js f) base (ms ++ features_member f).
Proof.
  intros HJ. destruct f as [fs|]; cbn [add_featurebits features_member]; [|by rewrite app_nil_r]. eapply in_obj_close; [done|].
  unfold feature_places. cbn [foldl feature_place_names].
  pose proof (in_obj_hex _ _ _ (bs "init") (bits fs INIT_FEATURE) (start_again js (Some (bs "featurebits")))) as J.
  pose proof (in_obj_hex _ _ _ (bs "node") (bits fs NODE_ANNOUNCE_FEATURE) J) as J2. pose proof (in_obj_hex _ _ _ (bs "channel") (bits fs CHANNEL_FEATURE) J2) as J3.
  exact (in_obj_hex _ _ _ (bs "invoice") (bits fs BOLT11_FEATURE) J3).
Qed.

Lemma add_topic_spec base js es t : no_nul t -> in_arr js base es -> in_arr (add_topic js t) base (es ++ [Elem0 (topic_value t)]).
Proof.
  intros Ht HJ. unfold add_topic. eapply in_arr_close_obj; [done|]. exact (in_obj_string _ _ _ (bs "method") _ (start_again js None) Ht).
Qed.

(** The flag of the request: absent is true. *)
Definition deprecated_flag (v : jv) : option bool :=
  match field_of v (bs "allow-deprecated-apis") with
  | None => Some true
  | Some (JPrim s) => if decide (s = bs "true") then Some true else if decide (s = bs "false") then Some false else None
  | Some _ => None
  end.

Lemma deprecated_read buf params v dep :
  holds buf params v -> deprecated_flag v = Some dep ->
  match json_get_member buf params (bs "allow-deprecated-apis") with
  | None => Ret true
  | Some t => match json_to_bool buf t with Some b => Ret b | None => Abort "plugin_err: Invalid allow-deprecated-apis" end
  end = Ret dep.
Proof.
  intros Hh Hd. unfold json_get_member. pose proof (get_field buf params v (bs "allow-deprecated-apis") Hh) as HG. unfold deprecated_flag in Hd.
  destruct HG as [t u Ht|]; [|by injection Hd as <-]. destruct u as [s| | |]; try done. unfold json_to_bool.
  destruct (holds_cur _ _ _ Ht) as (-> & _ & _ & ->). cbn [negb type_eqb body].
  destruct (decide (s = bs "true")) as [->|]; [by injection Hd as <-|]. rewrite bool_decide_eq_false_2 by done.
  destruct (decide (s = bs "false")) as [->|]; [by injection Hd as <-|done].
Qed.

(** The reply to getmanifest. *)
Lemma getmanifest_spec cf u f id buf params v dep :
  config_ok cf -> usages u (cf_commands cf) -> holds buf params v -> deprecated_flag v = Some dep ->
  handle_getmanifest cf u f id buf params = Ret (dep, message (reply id (manifest_value cf f))).
Proof.
  intros [Ho Hc Hs Hh Ht] Hu Hb Hd. unfold handle_getmanifest. cbv zeta. rewrite (deprecated_read _ _ _ _ Hb Hd). cbn [obind].
  set (js0 := jsonrpc_stream_success id).
  assert (J0 : in_obj js0 (outbuf js0) []) by (split; [by rewrite app_nil_r|done]).
  pose proof (fold_arr add_option option_value option_ok _ (add_option_spec _) _ _ _ Ho (array_start_again js0 (Some (bs "options")))) as A1.
  pose proof (in_obj_close_arr _ _ _ (bs "options") _ _ J0 A1) as J1. cbn [app] in J1. set (js1 := json_array_end (foldl add_option _ _)) in *.
  destruct (add_commands_spec u _ _ _ _ Hc Hu (array_start_again js1 (Some (bs "rpcmethods")))) as (js2 & -> & A2). cbn [obind].
  pose proof (in_obj_close_arr _ _ _ (bs "rpcmethods") _ _ J1 A2) as J2. cbn [app] in J2. set (js3 := json_array_end js2) in *.
  pose proof (in_obj_close_arr _ _ _ (bs "subscriptions") _ _ J2 (add_strings_arr _ _ _ _ Hs (array_start_again js3 (Some (bs "subscriptions"))))) as J3.
  cbn [app] in J3. set (js4 := json_array_end (foldl _ (json_array_start js3 _) _)) in *.
  pose proof (fold_arr add_hook hook_value hook_ok _ (add_hook_spec _) _ _ _ Hh (array_start_again js4 (Some (bs "hooks")))) as A4.
  pose proof (in_obj_close_arr _ _ _ (bs "hooks") _ _ J3 A4) as J4. cbn [app] in J4. set (js5 := json_array_end (foldl add_hook _ _)) in *.
  pose proof (in_obj_bool _ _ _ (bs "dynamic") (cf_restartable cf) (add_featurebits_spec _ _ _ f J4)) as J5.
  set (js6 := json_add_bool _ _ _) in *.
  pose proof (fold_arr add_topic topic_value no_nul _ (add_topic_spec _) _ _ _ Ht (array_start_again js6 (Some (bs "notifications")))) as A6.
  pose proof (in_obj_close_arr _ _ _ (bs "notifications") _ _ J5 A6) as J6. rewrite <- !app_assoc in J6.
  rewrite (finished_obj id _ _ J6). reflexivity.
Qed.

(** * init *)

(** What the RPC socket delivers answers [listconfigs], in whatever pieces. *)
Record configured (rs : list (option bytes)) (n : Z) (chunks : list bytes) (v u : jv) (rest : bytes) : Prop := {
  cg_reads : rs = as_reads chunks;
  cg_chunks : Forall (fun c => c <> []) chunks;
  cg_framed : framed v;
  cg_bytes : concat chunks = text v ++ [LF; LF] ++ rest;
  cg_id : is_Some (field_of v (bs "id"));
  cg_error : field_of v (bs "error") = None;
  cg_result : field_of v (bs "result") = Some u;
  cg_delay : field_of u (bs "max-locktime-blocks") = Some (JPrim (fmt_u n)) }.

Definition listconfigs_request : event := Wrote (text (request_value (bs "listconfigs")) ++ [LF; LF]).

Lemma top_init_spec fuel rs n chunks v u rest :
  configured rs n chunks v u rest -> is_u32 n ->
  exists buf tk c, holds buf tk u /\ Defaulter.system_defaulter_init buf tk = Ret (fmt_u n) /\
    payz_top_init (S fuel) (RpcConn [] rs) = Ret (fmt_u n, c, [listconfigs_request]).
Proof.
  intros [-> HF Hv HC Hi He Hr Hd] Hn.
  destruct (rpc_scan_reply (bs "listconfigs") (bs "{max-locktime-blocks:%}") [str_arg] v u fuel chunks rest Hv HF HC Hi He Hr) as (buf & t & c & Ht & _ & E).
  assert (ES : json_scan buf t (bs "{max-locktime-blocks:%}") [str_arg] = Ret (inr [fmt_u n])).
  { pose proof (scan_field buf t u (bs "max-locktime-blocks") str_arg Ht eq_refl) as HS. rewrite Hd in HS. destruct HS as (t' & Ht' & HR).
    change (bs "{" ++ bs "max-locktime-blocks" ++ bs ":%}") with (bs "{max-locktime-blocks:%}") in HR. cbn [fmt str_arg] in HR. unfold scan_result in HR.
    rewrite HR. do 3 f_equal. unfold json_strdup. destruct (holds_cur _ _ _ Ht') as (_ & _ & _ & ->). cbn [body text].
    apply until_nul_id, prim_ok_no_nul. by destruct Ht' as (? & ? & ? & _ & _ & _ & ?). }
  exists buf, t, c. split; [done|]. split.
  - unfold Defaulter.system_defaulter_init. rewrite ES. reflexivity.
  - unfold payz_top_init. rewrite E, ES. reflexivity.
Qed.

(** ** The configuration *)

Definition cstring (v : jv) : bytes := until_nul (body v).

Lemma strdup_cstring buf tk v : holds buf tk v -> json_strdup buf tk = cstring v.
Proof. intros H. unfold json_strdup. by destruct (holds_cur _ _ _ H) as (_ & _ & _ & ->). Qed.

(** The four fields are there; the directory and the socket can be used. *)
Record usable (o : os) (cv : jv) (dir network fs rpc_file : jv) : Prop := {
  us_dir : field_of cv (bs "lightning-dir") = Some dir;
  us_network : field_of cv (bs "network") = Some network;
  us_features : field_of cv (bs "feature_set") = Some fs;
  us_rpc : field_of cv (bs "rpc-file") = Some rpc_file;
  us_chdir : os_chdir o (cstring dir) = None;
  us_path : length (cstring rpc_file) < SUN_PATH }.

Lemma init_scan o buf tk cv dir network fs rpc_file :
  holds buf tk cv -> usable o cv dir network fs rpc_file ->
  exists tf, holds buf tf fs /\
  json_scan buf tk init_guide [init_string; init_string; init_features; init_string]
  = Ret (inr [IString (cstring dir); IString (cstring network); IFeatures (json_to_feature_set buf tf); IString (cstring rpc_file)]).
Proof.
  intros Hh [H1 H2 H3 H4 _ _].
  destruct (get_field_some _ _ _ _ _ Hh H1) as (t1 & E1 & T1), (get_field_some _ _ _ _ _ Hh H2) as (t2 & E2 & T2),
    (get_field_some _ _ _ _ _ Hh H3) as (t3 & E3 & T3), (get_field_some _ _ _ _ _ Hh H4) as (t4 & E4 & T4).
  exists t3. split; [done|].
  pose proof (scan_fields buf tk [(bs "lightning-dir", init_string, IString (cstring dir)); (bs "network", init_string, IString (cstring network));
    (bs "feature_set", init_features, IFeatures (json_to_feature_set buf t3)); (bs "rpc-file", init_string, IString (cstring rpc_file))] ltac:(done)) as HS.
  apply HS.
  - destruct (holds_cur _ _ _ Hh) as (-> & _). by destruct cv.
  - repeat constructor; cbn [fst snd fmt init_string init_features]; eexists; (split; [eassumption|]); rewrite ?(strdup_cstring _ _ _ T1), ?(strdup_cstring _ _ _ T2), ?(strdup_cstring _ _ _ T4); done.
Qed.

(** ** Options *)

(** The members for a flag: none, or one that is true. *)
Definition flag_of (name : bytes) (ms : list jmember) (flag : bool) : Prop :=
  if flag then exists a m b, ms = a ++ m :: b /\ Forall (fun m => m_key m <> name) a /\ m_key m = name /\
                             cstring (m_val m) = bs "true" /\ Forall (fun m => m_key m <> name) b
  else Forall (fun m => m_key m <> name) ms.

Definition is_flag (o : plugin_option) : Prop := o_handle o = flag_option.

Lemma member_name buf t m : holds_member buf t m -> json_strdup buf t = m_key m.
Proof. intros (_ & _ & E & _ & Hk & _). unfold json_strdup. rewrite E. by apply until_nul_id, str_ok_no_nul. Qed.

Lemma other_options o buf ts ms flag :
  Forall2 (holds_member buf) ts ms -> Forall (fun m => m_key m <> o_name o) ms -> ofold (handle_option [o] buf) flag ts = Ret flag.
Proof.
  induction 1 as [|t m ts ms Ht _ IH]; intros HF; [done|]. apply Forall_cons in HF as [Hm HF]. cbn [ofold]. unfold handle_option at 1. cbv zeta.
  rewrite (member_name _ _ _ Ht). cbn [List.find]. unfold streq. rewrite bool_decide_eq_false_2 by congruence. cbn [obind]. by apply IH.
Qed.

Lemma flag_read o buf ts ms flag :
  is_flag o -> Forall2 (holds_member buf) ts ms -> flag_of (o_name o) ms flag -> ofold (handle_option [o] buf) false ts = Ret flag.
Proof.
  intros Ho HF Hf. destruct flag; [|by eapply other_options]. destruct Hf as (a & m & b & -> & Ha & Hm & Hv & Hb).
  apply Forall2_app_inv_r in HF as (ta & tb & Fa & Fb & ->). inv Fb as [|t ? tb' ? Ht Fb']. rewrite ofold_app, (other_options o buf ta a) by done. cbn [obind ofold].
  unfold handle_option at 1. cbv zeta. rewrite (member_name _ _ _ Ht). cbn [List.find]. unfold streq. rewrite bool_decide_eq_true_2 by congruence.
  rewrite Ho. destruct Ht as (_ & _ & _ & _ & _ & Ht). rewrite (strdup_cstring _ _ _ Ht), Hv. cbn [flag_option negb assert_ obind]. by eapply other_options.
Qed.

(** ** All of it *)

(** What is logged when the socket refuses the connection. *)
Definition connect_log (o : os) (rpc_file : bytes) : list event :=
  match os_connect o rpc_file with Some err => [no_connection rpc_file err] | None => [] end.

Lemma init_spec fuel o cf op lp id buf params v cv dir network fs rpc_file w ms flag n chunks rv u rest :
  holds buf params v -> field_of v (bs "configuration") = Some cv -> usable o cv dir network fs rpc_file ->
  cf_opts cf = [op] -> is_flag op -> field_of v (bs "options") = Some (JObj w ms) -> flag_of (o_name op) ms flag -> disablempp lp = false ->
  configured (os_reads o) n chunks rv u rest -> is_u32 n ->
  exists tf rbuf rtk, holds buf tf fs /\ holds rbuf rtk u /\ Defaulter.system_defaulter_init rbuf rtk = Ret (fmt_u n) /\
  handle_init (S fuel) o cf lp id buf params =
    Ret (Lib (manifested lp) (initialized lp) (usagemap lp) (Some (json_to_feature_set buf tf)) (Some (cstring rpc_file)) (deprecated_apis lp) flag
           (match os_connect o (cstring rpc_file) with Some _ => false | None => true end)
           (Plugin (top (running lp)) (Some (fmt_u n)) (outreq_id (running lp)) (out_reqs (running lp))),
         connect_log o (cstring rpc_file) ++ [listconfigs_request; message (reply id (JObj [] []))]).
Proof.
  intros Hh Hc HU Hop Hfl Ho Hf Hd Hg Hn. unfold handle_init.
  destruct (get_field_some _ _ _ _ _ Hh Hc) as (tc & -> & Htc). destruct (init_scan _ _ _ _ _ _ _ _ Htc HU) as (tf & Htf & ->). cbn [obind].
  destruct HU as [_ _ _ _ Hch Hpath]. rewrite Hch. rewrite (proj2 (Nat.ltb_ge _ _)) by lia.
  destruct (get_field_some _ _ _ _ _ Hh Ho) as (topt & Eo & Ht). destruct (holds_obj _ _ _ _ Ht) as [HF _].
  destruct (top_init_spec fuel _ _ _ _ _ _ Hg Hn) as (rbuf & rtk & c & Hr & Es & Ei). exists tf, rbuf, rtk. split_and!; [done|done|done|].
  unfold connect_log. rewrite success_obj.
  destruct (os_connect o (cstring rpc_file)); rewrite Eo, Hop, Hd, (flag_read op buf _ _ _ Hfl HF Hf); cbn [obind]; rewrite Ei; reflexivity.
Qed.

(** Whatever init is given: if it returns, the delay came from [listconfigs],
    and the rest of the plugin is as it was. *)
Lemma init_keeps fuel o cf lp id buf params lp' evs :
  handle_init fuel o cf lp id buf params = Ret (lp', evs) ->
  exists d c evs', payz_top_init fuel (RpcConn [] (os_reads o)) = Ret (d, c, evs') /\ manifested lp' = manifested lp /\
    running lp' = Plugin (top (running lp)) (Some d) (outreq_id (running lp)) (out_reqs (running lp)).
Proof.
  unfold handle_init. destruct (json_get_member buf params (bs "configuration")) as [tc|]; [|done].
  destruct (json_scan buf tc _ _) as [[m|l]|]; cbn [obind]; try done. destruct l as [|[dir|] [|[network|] [|[|fs] [|[rpc_file|] [|]]]]]; try done.
  destruct (os_chdir o dir); [done|]. destruct (_ <? _); [done|]. destruct (match os_connect o rpc_file with Some _ => _ | None => _ end) as [with_rpc logged].
  destruct (json_get_member buf params (bs "options")) as [topt|]; [|done].
  destruct (ofold _ _ _) as [flag|]; cbn [obind]; [|done]. destruct (payz_top_init fuel _) as [[[d c] evs']|]; cbn [obind]; [|done].
  destruct (command_success id _) as [ev|]; cbn [obind]; [|done]. intros [= <- <-]. exists d, c, evs'. done.
Qed.

(** With no fuel there is no reply. *)
Lemma top_init_fuel fuel rs d c evs : payz_top_init fuel (RpcConn [] rs) = Ret (d, c, evs) -> exists f, fuel = S f.
Proof. destruct fuel as [|f]; [done|eauto]. Qed.

(** * Runs from the start of the process *)

Definition answers_config (o : os) : Prop := exists n chunks rv u rest, is_u32 n /\ configured (os_reads o) n chunks rv u rest.

(** A message from lightningd, or a reply on the connection that init opened. *)
Inductive lib_step (cf : config) : libplugin -> libplugin -> Prop :=
| lib_message fuel o w lp buffer toks v lp' evs :
    holds buffer toks v -> answers_config o -> ld_command_handle fuel o w cf lp buffer toks = Ret (lp', evs) -> lib_step cf lp lp'
| lib_reply lp buffer toks pl' evs :
    initialized lp = true -> well_formed (RpcReply buffer toks) -> handle_rpc_reply (running lp) buffer toks = Ret (pl', evs) ->
    lib_step cf lp (set_running lp pl').

(** Started from the reply of [listconfigs], and run from there. *)
Definition serving (pl : plugin) : Prop :=
  exists buf tk v n, holds buf tk v /\ is_u32 n /\ field_of v (bs "max-locktime-blocks") = Some (JPrim (fmt_u n)) /\ reachable buf tk pl.

Definition fresh (pl : plugin) : Prop := exists p, setup_payz_top = Ret p /\ pl = Plugin p None 0 intmap_init.

Record lib_inv (lp : libplugin) : Prop := {
  li_order : initialized lp = true -> manifested lp = true;
  li_before : initialized lp = false -> fresh (running lp);
  li_after : initialized lp = true -> serving (running lp) }.

Lemma serving_step pl pl' : serving pl -> plugin_step pl pl' -> serving pl'.
Proof.
  intros (buf & tk & v & n & Hh & Hn & Hf & pl0 & E & HR) HS. exists buf, tk, v, n. split_and!; [done..|].
  exists pl0. split; [done|]. by eapply rtc_r.
Qed.

Lemma main_inv cf lp : plugin_main cf = Ret lp -> lib_inv lp.
Proof.
  unfold plugin_main. destruct setup_payz_top as [p|] eqn:E; cbn [obind]; [|discriminate].
  destruct (setup_command_usage _); cbn [obind]; [|discriminate]. intros [= <-].
  split; cbn [initialized]; [discriminate| |discriminate]. intros _. exists p. split; [exact E|reflexivity].
Qed.

Lemma init_serving fuel o pl d c evs :
  fresh pl -> answers_config o -> payz_top_init fuel (RpcConn [] (os_reads o)) = Ret (d, c, evs) ->
  serving (Plugin (top pl) (Some d) (outreq_id pl) (out_reqs pl)).
Proof.
  intros (p & Ep & ->) (n & chunks & rv & u & rest & Hn & Hg) E. destruct (top_init_fuel _ _ _ _ _ E) as [f ->].
  destruct (top_init_spec f _ _ _ _ _ _ Hg Hn) as (buf & tk & c' & Hh & Es & Ei). rewrite Ei in E. injection E as <- _ _.
  exists buf, tk, u, n. split_and!; [exact Hh|exact Hn|exact (cg_delay _ _ _ _ _ _ Hg)|]. eexists. split; [|apply rtc_refl].
  unfold plugin_start. rewrite Ep, Es. reflexivity.
Qed.

Lemma lib_step_inv cf lp lp' : lib_step cf lp lp' -> lib_inv lp -> lib_inv lp'.
Proof.
  intros HS [H1 H2 H3]. destruct HS as [fuel o w lp buffer toks v lp' evs Hh Ho E|lp buffer toks pl' evs Hi Hw E].
  2: { split; cbn [initialized manifested running set_running]; [done|congruence|]. intros _. eapply serving_step; [by apply H3|].
       by eapply (step_message (World [] []) _ (RpcReply buffer toks)). }
  unfold ld_command_handle in E. destruct (json_get_member buffer toks (bs "method")) as [tm|]; [|done].
  destruct (json_get_member buffer toks (bs "params")) as [tp|]; [|done]. cbv zeta in E.
  destruct (match json_get_member buffer toks (bs "id") with Some _ => _ | None => _ end) as [id|]; cbn [obind] in E; [|done].
  destruct (manifested lp) eqn:Em; cbn [negb] in E.
  2: { destruct (streq _ _); [|done]. destruct id as [id|]; cbn [need_id] in E; [|done].
       destruct (handle_getmanifest _ _ _ _ _ _) as [[dep ev]|]; cbn [obind] in E; [|done]. injection E as <- _.
       split; cbn [initialized manifested running set_manifested]; [done|done|]. intros Hi. by specialize (H1 Hi). }
  destruct (initialized lp) eqn:Ei; cbn [negb] in E.
  - destruct (ld_dispatch w (running lp) buffer toks) as [[pl evs']|] eqn:Ed; cbn [obind] in E; [|done]. injection E as <- _.
    split; cbn [initialized manifested running set_running]; [done|congruence|]. intros _. eapply serving_step; [by apply H3|].
    eapply (step_message w _ (FromLightningd buffer toks)); [by eapply wf_from|exact Ed].
  - destruct (streq _ _); [|done]. destruct id as [id|]; cbn [need_id] in E; [|done].
    destruct (handle_init fuel o cf lp id buffer tp) as [[lp1 evs']|] eqn:Eh; cbn [obind] in E; [|done]. injection E as <- _.
    destruct (init_keeps _ _ _ _ _ _ _ _ _ Eh) as (d & c & evs1 & Et & Em' & ER).
    split; cbn [initialized manifested running set_initialized]; [by rewrite Em'|done|]. intros _. rewrite ER.
    by eapply init_serving; [apply H2| |].
Qed.
