(* ===== verification/LibpluginTheorems.v ===== *)
(** The plugin library: the handshake, messages that arrive in pieces,
    synchronous requests. *)
From S2P Require Import Prelude Utf8 Jsmn JsonTree JsmnProofs Json JsonProofs.
From S2P Require Import JsonEqual JsonOut JsonOutProofs JsonScan JsonScanProofs Param.
From S2P Require Import SyncRpc Features.
From S2P Require Import Strmap Intmap Ec EcProofs Setsystems Ecsys EcsysProofs Ecs.
From S2P Require Import Systems PayecsData PayecsCode PayecsProofs Replies Plugin PluginProofs PluginTheorems.
From S2P Require Import Handshake HandshakeProofs FramingProofs Libplugin.

(** * The handshake *)

(** A request with a numeric id. *)
Record requests (buf : bytes) (tk : list jsmntok) (v : jv) (id : Z) (method : bytes) (params : jv) : Prop := {
  rq_holds : holds buf tk v;
  rq_range : (0 <= id < u64_mod)%Z;
  rq_id : field_of v (bs "id") = Some (JPrim (fmt_u id));
  rq_method : field_of v (bs "method") = Some (JStr method);
  rq_params : field_of v (bs "params") = Some params }.

(** What [ld_command_handle] reads of it. *)
Lemma request_read buf tk v id method params :
  requests buf tk v id method params ->
  exists tm tp ti, json_get_member buf tk (bs "method") = Some tm /\ json_get_member buf tk (bs "params") = Some tp /\
    json_get_member buf tk (bs "id") = Some ti /\ json_strdup buf tm = method /\ holds buf tp params /\ json_to_u64 false buf ti = Some id.
Proof.
  intros [Hh Hr Hi Hm Hp]. destruct (get_field_some _ _ _ _ _ Hh Hm) as (tm & Em & Tm). destruct (get_field_some _ _ _ _ _ Hh Hp) as (tp & Ep & Tp).
  destruct (get_field_some _ _ _ _ _ Hh Hi) as (ti & Ei & Ti). exists tm, tp, ti. split_and!; [done|done|done|by apply strdup_holds|done|].
  by apply json_to_u64_holds.
Qed.

Lemma getmanifest_handled fuel o w cf lp buf tk v id params dep :
  config_ok cf -> usages (usagemap lp) (cf_commands cf) -> manifested lp = false -> our_features lp = None ->
  requests buf tk v id (bs "getmanifest") params -> deprecated_flag params = Some dep ->
  ld_command_handle fuel o w cf lp buf tk = Ret (set_manifested lp dep, [message (reply id (manifest_value cf None))]).
Proof.
  intros Hc Hu Hm Hf HR Hd. destruct (request_read _ _ _ _ _ _ HR) as (tm & tp & ti & Em & Ep & Ei & En & Hp & Eu).
  unfold ld_command_handle. rewrite Em, Ep, Ei, Eu. cbv zeta. cbn [obind]. rewrite Hm, En, Hf. cbn [negb].
  change (streq (bs "getmanifest") (bs "getmanifest")) with true. cbn [need_id]. by rewrite (getmanifest_spec _ _ _ _ _ _ _ _ Hc Hu Hp Hd).
Qed.

Lemma start_manifest cf : NoDup (c_name <$> cf_commands cf) -> config_ok cf ->
  exists p u, setup_payz_top = Ret p /\ plugin_main cf = Ret (Lib false false u None None false false false (Plugin p None 0 intmap_init)) /\
    usages u (cf_commands cf).
Proof.
  intros Hd [_ Hc _ _ _]. destruct setup_wf as (p & E & _). destruct (setup_usage_spec (cf_commands cf) Hd) as (u & Eu & HU).
  { eapply Forall_impl; [exact Hc|]. by intros c (? & _). }
  exists p, u. split; [exact E|]. split; [|exact HU]. unfold plugin_main. rewrite E, Eu. reflexivity.
Qed.

(** The tables of payz. *)
Lemma payz_names : NoDup (c_name <$> payecs_data_info ++ payecs_code_info).
Proof. apply (bool_decide_eq_true_1 (NoDup (c_name <$> payecs_data_info ++ payecs_code_info))). vm_compute. reflexivity. Qed.

Lemma payz_ok pay keysend : no_nul pay -> config_ok (payz_config pay keysend).
Proof.
  intros Hp. split; cbn [cf_opts cf_commands cf_notif_subs cf_hook_subs cf_notif_topics payz_config].
  - apply Forall_singleton. split_and!; cbn [o_name o_type o_description]; [|by apply no_nul_true..].
    unfold disablempp_option. case_match; [by apply no_nul_true|]. apply Forall_app. split; [done|by apply no_nul_true].
  - unfold payecs_data_info, payecs_code_info. cbn [app]. repeat (apply Forall_cons; split; [unfold command_ok; split_and!; by apply no_nul_true|]). constructor.
  - apply Forall_singleton. by apply no_nul_true.
  - constructor.
  - apply Forall_singleton. by apply no_nul_true.
Qed.

(** C14.  A plugin that is started with any tables, with distinct command names,
    answers a first getmanifest with its manifest, as a JSON value: every option,
    every command with the usage its own parameter list gives, every
    subscription, hook and topic, in the order of the tables. *)
Theorem getmanifest_reply fuel o w cf buf tk v id params dep :
  NoDup (c_name <$> cf_commands cf) -> config_ok cf -> requests buf tk v id (bs "getmanifest") params -> deprecated_flag params = Some dep ->
  exists lp lp', plugin_main cf = Ret lp /\
    ld_command_handle fuel o w cf lp buf tk = Ret (lp', [message (reply id (manifest_value cf None))]) /\ deprecated_apis lp' = dep.
Proof.
  intros Hd Hc HR HD. destruct (start_manifest cf Hd Hc) as (p & u & _ & E & HU). eexists _, _. split; [exact E|].
  split; [by eapply getmanifest_handled|reflexivity].
Qed.

Definition sample_getmanifest : jv :=
  JObj [] [Member0 (bs "jsonrpc") (JStr (bs "2.0")); Member0 (bs "id") (JPrim (bs "1"));
           Member0 (bs "method") (JStr (bs "getmanifest")); Member0 (bs "params") (JObj [] [Member0 (bs "allow-deprecated-apis") (JPrim (bs "false"))])].

Definition payz_main_config : config := payz_config (bs "payz") (bs "keysendz").

(** The system calls succeed, and the socket delivers this reply in two pieces. *)
Definition sample_reply : jv :=
  JObj [] [Member0 (bs "jsonrpc") (JStr (bs "2.0")); Member0 (bs "id") (JPrim (bs "0")); Member0 (bs "result") sample_config].

Definition sample_chunks : list bytes := [take 20 (text sample_reply); drop 20 (text sample_reply) ++ [LF; LF]].
Definition sample_os : os := Os (fun _ => None) (fun _ => None) (as_reads sample_chunks).

Lemma sample_manifest_request : requests (text sample_getmanifest) (toks 0 sample_getmanifest) sample_getmanifest 1 (bs "getmanifest")
  (JObj [] [Member0 (bs "allow-deprecated-apis") (JPrim (bs "false"))]).
Proof. split; try done. by apply (holds_self sample_getmanifest). Qed.

Lemma getmanifest_reply_witness :
  exists lp lp', plugin_main payz_main_config = Ret lp /\
    ld_command_handle 1 sample_os (World [] []) payz_main_config lp (text sample_getmanifest) (toks 0 sample_getmanifest)
      = Ret (lp', [message (reply 1 (manifest_value payz_main_config None))]) /\ deprecated_apis lp' = false.
Proof.
  eapply (getmanifest_reply 1 sample_os (World [] []) payz_main_config _ _ sample_getmanifest 1).
  - exact payz_names.
  - apply payz_ok. by apply no_nul_true.
  - apply sample_manifest_request.
  - reflexivity.
Defined.

(** getmanifest, then init, from the start. *)
Lemma handshake_run fuel o w1 w2 pay keysend buf1 tk1 v1 id1 params1 dep buf2 tk2 v2 id2 params2 cv dir network fs rpc_file w ms flag n chunks rv u rest :
  let cf := payz_config pay keysend in
  no_nul pay -> requests buf1 tk1 v1 id1 (bs "getmanifest") params1 -> deprecated_flag params1 = Some dep ->
  requests buf2 tk2 v2 id2 (bs "init") params2 -> field_of params2 (bs "configuration") = Some cv -> usable o cv dir network fs rpc_file ->
  field_of params2 (bs "options") = Some (JObj w ms) -> flag_of (disablempp_option pay keysend) ms flag ->
  configured (os_reads o) n chunks rv u rest -> is_u32 n ->
  exists lp0 lp1 lp2 rbuf rtk, plugin_main cf = Ret lp0 /\
    ld_command_handle (S fuel) o w1 cf lp0 buf1 tk1 = Ret (lp1, [message (reply id1 (manifest_value cf None))]) /\
    ld_command_handle (S fuel) o w2 cf lp1 buf2 tk2
      = Ret (lp2, connect_log o (cstring rpc_file) ++ [listconfigs_request; message (reply id2 (JObj [] []))]) /\
    initialized lp2 = true /\ disablempp lp2 = flag /\ rpc_location lp2 = Some (cstring rpc_file) /\
    holds rbuf rtk u /\ plugin_start rbuf rtk = Ret (running lp2).
Proof.
  intros cf Hp HR1 HD HR2 Hc HU Ho Hf Hg Hn. destruct (start_manifest cf payz_names (payz_ok pay keysend Hp)) as (p & us & Es & Em & Hus).
  set (lp0 := Lib _ _ _ _ _ _ _ _ _) in Em.
  assert (E1 : ld_command_handle (S fuel) o w1 cf lp0 buf1 tk1 = Ret (set_manifested lp0 dep, [message (reply id1 (manifest_value cf None))])).
  { eapply getmanifest_handled; [by apply payz_ok|exact Hus|reflexivity|reflexivity|exact HR1|exact HD]. }
  destruct (request_read _ _ _ _ _ _ HR2) as (tm & tp & ti & Emm & Ep & Ei & En & Hh & Eu).
  destruct (init_spec fuel o cf _ (set_manifested lp0 dep) id2 buf2 tp params2 cv dir network fs rpc_file w ms flag n chunks rv u rest
    Hh Hc HU eq_refl eq_refl Ho Hf eq_refl Hg Hn) as (tf & rbuf & rtk & _ & Hr & Ed & EI).
  exists lp0, (set_manifested lp0 dep). eexists _, rbuf, rtk. split; [exact Em|]. split; [exact E1|]. split.
  { unfold ld_command_handle. rewrite Emm, Ep, Ei, Eu. cbv zeta. cbn [obind set_manifested manifested initialized negb lp0]. rewrite En.
    change (streq (bs "init") (bs "init")) with true. cbn [need_id]. fold (set_manifested lp0 dep). rewrite EI. cbn [obind]. reflexivity. }
  cbn [set_initialized initialized disablempp rpc_location running top outreq_id out_reqs set_manifested lp0]. split_and!; try reflexivity; [exact Hr|].
  unfold plugin_start. rewrite Es, Ed. reflexivity.
Qed.

(** C4.  The handshake, from the start of the process: getmanifest is answered
    with the manifest, then init with an empty result, after the one request for
    the configuration, however its reply is cut into reads.  The flag of the
    options is taken over, and what serves from then on is the state of
    [plugin_start] for that configuration. *)
Theorem handshake_completes fuel o w1 w2 pay keysend buf1 tk1 v1 id1 params1 dep buf2 tk2 v2 id2 params2 cv dir network fs rpc_file w ms flag n chunks rv u rest :
  let cf := payz_config pay keysend in
  no_nul pay -> requests buf1 tk1 v1 id1 (bs "getmanifest") params1 -> deprecated_flag params1 = Some dep ->
  requests buf2 tk2 v2 id2 (bs "init") params2 -> field_of params2 (bs "configuration") = Some cv -> usable o cv dir network fs rpc_file ->
  field_of params2 (bs "options") = Some (JObj w ms) -> flag_of (disablempp_option pay keysend) ms flag ->
  configured (os_reads o) n chunks rv u rest -> is_u32 n ->
  exists lp0 lp1 lp2 rbuf rtk, plugin_main cf = Ret lp0 /\
    ld_command_handle (S fuel) o w1 cf lp0 buf1 tk1 = Ret (lp1, [message (reply id1 (manifest_value cf None))]) /\
    ld_command_handle (S fuel) o w2 cf lp1 buf2 tk2
      = Ret (lp2, connect_log o (cstring rpc_file) ++ [listconfigs_request; message (reply id2 (JObj [] []))]) /\
    initialized lp2 = true /\ disablempp lp2 = flag /\ rpc_location lp2 = Some (cstring rpc_file) /\
    holds rbuf rtk u /\ plugin_start rbuf rtk = Ret (running lp2).
Proof. apply handshake_run. Qed.

Definition sample_init_config : jv :=
  JObj [] [Member0 (bs "lightning-dir") (JStr (bs "/tmp/ln")); Member0 (bs "rpc-file") (JStr (bs "lightning-rpc"));
           Member0 (bs "network") (JStr (bs "regtest")); Member0 (bs "feature_set") (JObj [] [Member0 (bs "init") (JStr (bs "02"))])].
Definition sample_init_params : jv :=
  JObj [] [Member0 (bs "options") (JObj [] [Member0 (bs "payz-disable-mpp") (JPrim (bs "true"))]); Member0 (bs "configuration") sample_init_config].
Definition sample_init : jv :=
  JObj [] [Member0 (bs "jsonrpc") (JStr (bs "2.0")); Member0 (bs "id") (JPrim (bs "2"));
           Member0 (bs "method") (JStr (bs "init")); Member0 (bs "params") sample_init_params].

Lemma sample_init_request : requests (text sample_init) (toks 0 sample_init) sample_init 2 (bs "init") sample_init_params.
Proof. split; try done. by apply (holds_self sample_init). Qed.

Lemma sample_configured : configured (os_reads sample_os) 2016 sample_chunks sample_reply sample_config [].
Proof.
  split; try done.
  - repeat constructor; vm_compute; congruence.
  - split_and!; [done|by eexists _, _|by vm_compute].
Qed.

Lemma sample_usable : usable sample_os sample_init_config (JStr (bs "/tmp/ln")) (JStr (bs "regtest")) (JObj [] [Member0 (bs "init") (JStr (bs "02"))])
  (JStr (bs "lightning-rpc")).
Proof. split; try done. vm_compute. lia. Qed.

Lemma sample_flag : flag_of (disablempp_option (bs "payz") (bs "keysendz")) [Member0 (bs "payz-disable-mpp") (JPrim (bs "true"))] true.
Proof. exists [], (Member0 (bs "payz-disable-mpp") (JPrim (bs "true"))), []. split_and!; done || constructor. Qed.

Lemma handshake_completes_witness :
  exists lp0 lp1 lp2 rbuf rtk, plugin_main payz_main_config = Ret lp0 /\
    ld_command_handle 1 sample_os (World [] []) payz_main_config lp0 (text sample_getmanifest) (toks 0 sample_getmanifest)
      = Ret (lp1, [message (reply 1 (manifest_value payz_main_config None))]) /\
    ld_command_handle 1 sample_os (World [] []) payz_main_config lp1 (text sample_init) (toks 0 sample_init)
      = Ret (lp2, connect_log sample_os (bs "lightning-rpc") ++ [listconfigs_request; message (reply 2 (JObj [] []))]) /\
    initialized lp2 = true /\ disablempp lp2 = true /\ rpc_location lp2 = Some (bs "lightning-rpc") /\
    holds rbuf rtk sample_config /\ plugin_start rbuf rtk = Ret (running lp2).
Proof.
  eapply (handshake_completes 0 sample_os (World [] []) (World [] []) (bs "payz") (bs "keysendz") _ _ sample_getmanifest 1 _ false _ _ sample_init 2
    sample_init_params sample_init_config _ _ _ (JStr (bs "lightning-rpc")) _ _ true 2016 sample_chunks sample_reply sample_config []).
  - by apply no_nul_true.
  - apply sample_manifest_request.
  - reflexivity.
  - apply sample_init_request.
  - reflexivity.
  - apply sample_usable.
  - reflexivity.
  - apply sample_flag.
  - apply sample_configured.
  - by apply u32_sample.
Defined.

(** C3.  Over all runs of the process, from its start and with any JSON texts in
    any order: init is accepted only after getmanifest; until then nothing but
    the set-up has happened; and from then on the plugin is in a state that its
    commands, notifications and replies reach from [plugin_start], so that the
    plugin's invariant holds. *)
Theorem process_runs cf lp0 lp :
  plugin_main cf = Ret lp0 -> rtc (lib_step cf) lp0 lp ->
  (initialized lp = true -> manifested lp = true) /\ (initialized lp = false -> fresh (running lp)) /\
  (initialized lp = true -> serving (running lp) /\ plugin_wf (running lp)).
Proof.
  intros E HR. assert (HI : lib_inv lp).
  { apply main_inv in E. clear -E HR. induction HR as [|x y z Hxy _ IH]; [done|]. apply IH. by eapply lib_step_inv. }
  destruct HI as [H1 H2 H3]. split_and!; [done|done|]. intros Hi. pose proof (H3 Hi) as HS. split; [done|].
  destruct HS as (buf & tk & v & n & Hh & Hn & Hf & Hr). by eapply reachable_wf.
Qed.

Lemma sample_answers : answers_config sample_os.
Proof. exists 2016%Z, sample_chunks, sample_reply, sample_config, []. split; [by apply u32_sample|apply sample_configured]. Qed.

Lemma sample_served :
  exists lp0 lp2, plugin_main payz_main_config = Ret lp0 /\ rtc (lib_step payz_main_config) lp0 lp2 /\ initialized lp2 = true.
Proof.
  destruct (handshake_run 0 sample_os (World [] []) (World [] []) (bs "payz") (bs "keysendz") (text sample_getmanifest) (toks 0 sample_getmanifest)
    sample_getmanifest 1 (JObj [] [Member0 (bs "allow-deprecated-apis") (JPrim (bs "false"))]) false (text sample_init) (toks 0 sample_init) sample_init 2
    sample_init_params sample_init_config (JStr (bs "/tmp/ln")) (JStr (bs "regtest")) (JObj [] [Member0 (bs "init") (JStr (bs "02"))])
    (JStr (bs "lightning-rpc")) [] [Member0 (bs "payz-disable-mpp") (JPrim (bs "true"))] true 2016 sample_chunks sample_reply sample_config [])
    as (lp0 & lp1 & lp2 & rbuf & rtk & E0 & E1 & E2 & Hi & _).
  { by apply no_nul_true. }
  { apply sample_manifest_request. }
  { reflexivity. }
  { apply sample_init_request. }
  { reflexivity. }
  { apply sample_usable. }
  { reflexivity. }
  { apply sample_flag. }
  { apply sample_configured. }
  { by apply u32_sample. }
  exists lp0, lp2. split; [exact E0|]. split; [|exact Hi]. eapply rtc_l; [|apply rtc_once].
  - eapply lib_message; [exact (rq_holds _ _ _ _ _ _ sample_manifest_request)|exact sample_answers|exact E1].
  - eapply lib_message; [exact (rq_holds _ _ _ _ _ _ sample_init_request)|exact sample_answers|exact E2].
Qed.

Lemma process_runs_witness :
  exists lp0 lp, plugin_main payz_main_config = Ret lp0 /\ rtc (lib_step payz_main_config) lp0 lp /\ initialized lp = true /\ plugin_wf (running lp).
Proof.
  destruct sample_served as (lp0 & lp & E & HR & Hi). exists lp0, lp. split; [exact E|]. split; [exact HR|]. split; [exact Hi|].
  exact (proj2 (proj2 (proj2 (process_runs payz_main_config lp0 lp E HR)) Hi)).
Defined.

(** * Synchronous requests *)

(** A message without an id on the socket of the synchronous requests, such
    as a notification, is never passed: it stays at the front of the buffer, so
    that the loop of [read_rpc_reply] finds it again, whatever comes after it.
    No number of rounds ends the loop. *)
Theorem notification_blocks_rpc v chunks fuel :
  framed v -> field_of v (bs "id") = None -> Forall (fun c => c <> []) chunks -> (exists rest, concat chunks = text v ++ [LF; LF] ++ rest) ->
  read_rpc_reply fuel (RpcConn [] (as_reads chunks)) = Abort "read_rpc_reply: fuel".
Proof.
  intros Hv Hi HF HC. destruct (framed_tokens v chunks Hv HF HC) as (mb' & chunks' & post & E & _ & _ & HP & Hh).
  unfold read_rpc_reply. rewrite (next_reply_stuck fuel (RpcConn [] (as_reads chunks)) _ _ E); [done|]. exists (toks 0 v ++ [end_tok]). split; [exact HP|].
  by apply (get_field_none _ _ _ _ Hh).
Qed.

Definition sample_notification : jv :=
  JObj [] [Member0 (bs "jsonrpc") (JStr (bs "2.0")); Member0 (bs "method") (JStr (bs "block_added")); Member0 (bs "params") (JObj [] [])].

Lemma notification_blocks_rpc_witness :
  read_rpc_reply 1000 (RpcConn [] (as_reads [text sample_notification ++ [LF; LF]; text sample_reply ++ [LF; LF]])) = Abort "read_rpc_reply: fuel".
Proof.
  apply (notification_blocks_rpc sample_notification).
  - split_and!; [reflexivity|by eexists _, _|by vm_compute].
  - reflexivity.
  - repeat constructor; vm_compute; congruence.
  - exists (text sample_reply ++ [LF; LF]). reflexivity.
Defined.

(** * Messages in pieces *)

(** C8.  Messages that arrive on lightningd's connection in arbitrary pieces,
    several in one or one in several, are handled exactly as if each had been
    given to [ld_command_handle] by itself, in order: same state, same replies,
    same failures.  The pieces may end anywhere but inside a number or another
    primitive. *)
Theorem pieces_handled_as_whole fuel o ws cf w l chunks :
  ws_ok w = true -> Forall item_ok l -> concat chunks = w ++ stream l -> Forall (cut_ok (stream_toks (len w) l)) (cuts 0 chunks) ->
  exists found r, Forall2 found_as found l /\
    forall st, read_chunks (ld_handle fuel o ws cf) ld_grow st reader_init chunks = then_read (ld_handle fuel o ws cf) found r st.
Proof.
  intros Hw Hl HC HX. apply (read_chunks_spec (ld_handle fuel o ws cf) ld_grow chunks w l 0 reader_init Hw Hl); [apply on_stream_init|by rewrite HC|done|].
  destruct l as [|[v wv] l]; [done|]. apply Forall_cons in Hl as [(_ & Hc & _) _]. cbn [fst]. destruct v; try done; cbn [text]; rewrite !length_app; cbn; lia.
Qed.

(** Two messages, the second one cut. *)
Definition sample_stream : list (jv * bytes) := [(sample_getmanifest, [LF; LF]); (sample_init, [LF; LF])].
Definition sample_pieces : list bytes := [take 150 (stream sample_stream); drop 150 (stream sample_stream)].

Lemma pieces_handled_as_whole_witness :
  concat sample_pieces = stream sample_stream /\
  exists found r, Forall2 found_as found sample_stream /\
    forall st, read_chunks (ld_handle 1 sample_os (fun _ => World [] []) payz_main_config) ld_grow st reader_init sample_pieces
      = then_read (ld_handle 1 sample_os (fun _ => World [] []) payz_main_config) found r st.
Proof.
  split; [apply take_drop|]. apply (pieces_handled_as_whole 1 sample_os (fun _ => World [] []) payz_main_config [] sample_stream sample_pieces).
  - reflexivity.
  - repeat constructor; discriminate.
  - apply (take_drop 150).
  - apply Forall_cons; split; [|apply Forall_singleton]; apply cut_ok_true; vm_compute; reflexivity.
Defined.

(** Requests with a number at byte 64, the size of the first read. *)
Definition cut_in_array : jv :=
  JObj [] [Member0 (bs "jsonrpc") (JStr (bs "2.0")); Member0 (bs "id") (JPrim (bs "777"));
           Member0 (bs "method") (JStr (bs "payecs_systrace")); Member0 (bs "params") (JArr [] [Elem0 (JPrim (bs "12"))])].
Definition cut_in_object : jv :=
  JObj [] [Member0 (bs "jsonrpc") (JStr (bs "2.0")); Member0 (bs "method") (JStr (bs "payecs_advance"));
           Member0 (bs "params") (JObj [] [Member0 (bs "entity") (JPrim (bs "123"))]); Member0 (bs "id") (JPrim (bs "7"))].
Definition in_two_reads (v : jv) : list bytes :=
  let m := text v ++ [LF; LF] in [take (space reader_init) m; drop (space reader_init) m].

(** One round of the reader. *)
Lemma chunk_partial {St : Type} (handle : St -> bytes -> list jsmntok -> outcome (St * list event)) s r c p n :
  json_parse_input (parser r) (ntoks r) (buffer r ++ c) (length (buffer r ++ c)) = (PPartial, p, n) ->
  exists cap, read_chunk handle ld_grow s r c = Ret (s, [], Reader (buffer r ++ c) p n cap).
Proof. intros E. eexists. unfold read_chunk, received. cbn [read_loop buffer]. unfold read_one. cbn [buffer parser ntoks capacity]. rewrite E. reflexivity. Qed.

Lemma chunk_complete {St : Type} (handle : St -> bytes -> list jsmntok -> outcome (St * list event)) s r c T p n p' n' :
  let b := buffer r ++ c in let rest := drop (Z.to_nat (tend (cur T))) b in
  b <> [] -> json_parse_input (parser r) (ntoks r) b (length b) = (PComplete T, p, n) -> length T <> 1 ->
  json_parse_input jsmn_init n rest (length rest) = (PPartial, p', n') ->
  exists r', read_chunk handle ld_grow s r c = then_read handle [(b, T)] r' s.
Proof.
  intros b rest Hb E HT E'. eexists. unfold read_chunk, received. cbv zeta. cbn [buffer]. fold b. 
  replace (S (length b)) with (S (S (length b - 1))) by (destruct b; [done|cbn; lia]). cbn [read_loop]. unfold read_one at 1. cbn [buffer parser ntoks capacity]. fold b. rewrite E. rewrite (proj2 (Nat.eqb_neq _ _) HT).
  unfold then_read. cbn [handle_all]. destruct (handle s b T) as [[s1 evs]|]; [|reflexivity]. cbn [obind].
  unfold read_one. cbn [buffer parser ntoks capacity]. fold rest. rewrite E'. cbn [obind]. by rewrite !app_nil_r.
Qed.

(** A message that comes in two pieces. *)
Lemma read_in_two {St : Type} (handle : St -> bytes -> list jsmntok -> outcome (St * list event)) s a b p1 n1 T p2 n2 p3 n3 :
  let rest := drop (Z.to_nat (tend (cur T))) (a ++ b) in
  a ++ b <> [] -> json_parse_input jsmn_init TOKS_ALLOC a (length a) = (PPartial, p1, n1) ->
  json_parse_input p1 n1 (a ++ b) (length (a ++ b)) = (PComplete T, p2, n2) -> length T <> 1 ->
  json_parse_input jsmn_init n2 rest (length rest) = (PPartial, p3, n3) ->
  exists r, read_chunks handle ld_grow s reader_init [a; b] = then_read handle [(a ++ b, T)] r s.
Proof.
  intros rest Hne E1 E2 HT E3. cbn [read_chunks]. destruct (chunk_partial handle s reader_init a p1 n1 E1) as [cap ->]. cbn [obind].
  destruct (chunk_complete handle s (Reader a p1 n1 cap) b T p2 n2 p3 n3 Hne E2 HT E3) as [r E]. change (buffer reader_init ++ a) with a.
  exists r. rewrite E. unfold then_read. cbn [buffer]. destruct (handle_all handle s [(a ++ b, T)]) as [[s1 evs]|]; [|reflexivity]. cbn [obind].
  by rewrite app_nil_l, app_nil_r.
Qed.

(** A number that is cut by the end of a read is taken for two.  The first
    read has room for 64 bytes, and the tokenizer, which is not compiled in
    strict mode, takes the end of the input for the end of a primitive.  In an
    array the handler is then given two numbers in the place of one; in an object
    the message is refused and the plugin stops.  Both requests are valid. *)
Theorem number_cut_by_read {St : Type} (handle : St -> bytes -> list jsmntok -> outcome (St * list event)) s :
  jv_ok cut_in_array = true /\ jv_ok cut_in_object = true /\
  (exists T p r, json_get_member (text cut_in_array ++ [LF; LF]) T (bs "params") = Some p /\
     map (fun t => tok_text (text cut_in_array ++ [LF; LF]) (cur t)) (json_for_each_arr p) = [bs "1"; bs "2"] /\
     read_chunks handle ld_grow s reader_init (in_two_reads cut_in_array) = then_read handle [(text cut_in_array ++ [LF; LF], T)] r s) /\
  read_chunks handle ld_grow s reader_init (in_two_reads cut_in_object) = Abort "plugin_err: Failed to parse JSON response".
Proof.
  split_and!; [reflexivity|reflexivity| |vm_compute; reflexivity].
  set (a := take (space reader_init) (text cut_in_array ++ [LF; LF])). set (b := drop (space reader_init) (text cut_in_array ++ [LF; LF])).
  set (first := json_parse_input jsmn_init TOKS_ALLOC a (length a)). set (second := json_parse_input first.1.2 first.2 (a ++ b) (length (a ++ b))).
  set (T := match second.1.1 with PComplete t => t | _ => [] end).
  destruct (read_in_two handle s a b first.1.2 first.2 T second.1.2 second.2
    (json_parse_input jsmn_init second.2 [LF; LF] 2).1.2 (json_parse_input jsmn_init second.2 [LF; LF] 2).2) as [r E]; [vm_compute; congruence..|].
  assert (Eab : a ++ b = text cut_in_array ++ [LF; LF]) by apply take_drop. rewrite Eab in E.
  eexists T, _, r. split_and!; [vm_compute; reflexivity|vm_compute; reflexivity|exact E].
Qed.

(** * Options *)

(** Numeric options, given the decimal text of a 64-bit number: the 32-bit
    and the 16-bit option take exactly the numbers that fit, and name the
    problem otherwise; the 64-bit option, which converts to a signed number,
    refuses the upper half of its range, and takes a negative number as a
    large one. *)
Theorem numeric_options n old :
  (0 <= n < u64_mod)%Z ->
  u32_option (fmt_u n) old = (if (n <? u32_mod)%Z then (None, n) else (Some (too_large (fmt_u n)), wrap32 n)) /\
  u16_option (fmt_u n) old = (if (n <? 65536)%Z then (None, n) else (Some (too_large (fmt_u n)), (n mod 65536)%Z)) /\
  u64_option (fmt_u n) = (if (n <=? LLONG_MAX)%Z then (None, n) else (Some (out_of_range (fmt_u n)), LLONG_MAX)) /\
  u64_option (bs "-1") = (None, (u64_mod - 1)%Z).
Proof.
  intros Hn. pose proof (strto_fmt n [] Hn I) as ES. rewrite app_nil_r in ES.
  assert (HR : not_read (fmt_u n) (length (fmt_u n)) = false).
  { unfold not_read. rewrite Nat.eqb_refl. cbn [negb orb]. destruct (fmt_u_ok n Hn) as [Hp _]. by destruct (fmt_u n). }
  assert (HN : forall m, (0 < m)%Z -> narrow_option m (fmt_u n) old = if (n <? m)%Z then (None, n) else (Some (too_large (fmt_u n)), (n mod m)%Z)).
  { intros m Hm. unfold narrow_option, strtoull. rewrite ES. rewrite (proj2 (Z.ltb_ge _ _)) by (unfold ULLONG_MAX; lia). rewrite HR.
    destruct (Z.ltb_spec n m) as [H|H]; [rewrite Z.mod_small, Z.eqb_refl by lia; done|].
    rewrite (proj2 (Z.eqb_neq _ _)); [done|]. pose proof (Z.mod_pos_bound n m Hm). lia. }
  split_and!; [by apply HN|by apply HN| |reflexivity]. unfold u64_option, strtoll. rewrite ES.
  destruct (Z.leb_spec n LLONG_MAX) as [H|H].
  - rewrite (proj2 (Z.ltb_ge _ _)) by lia. rewrite (proj2 (Z.ltb_ge n LLONG_MIN)) by (unfold LLONG_MIN; lia). rewrite HR.
    unfold wrap64. by rewrite Z.mod_small.
  - rewrite (proj2 (Z.ltb_lt _ _)) by lia. rewrite HR. reflexivity.
Qed.

Lemma numeric_options_witness : u64_option (fmt_u 9223372036854775808) = (Some (out_of_range (fmt_u 9223372036854775808)), LLONG_MAX).
Proof. by apply (numeric_options 9223372036854775808 0). Defined.
