(* ===== verification/TesterRpc.v ===== *)
(** plugins/payz/tester/rpc.c: the RPC emulator of the test harness.

    Requests that come in on any connection and responses that a test prepares
    are matched by method name, each kind waiting in a list for the other.  What
    is written to a file descriptor is a list of pairs; [errx] is [Abort]. *)
From S2P Require Import Prelude Strmap Intmap Utf8 Jsmn JsonTree Json JsonOut JsonScan Libplugin Ec.

(** * Messages from a connection *)

(** [parser], [buffer] and the size of [toks], of a connection and of a
    struct payz_tester_command. *)
Record feeder : Type := Feeder { f_parser : jsmn_parser; f_buffer : bytes; f_ntoks : nat }.

Definition feeder_init : feeder := Feeder jsmn_init [] TOKS_ALLOC.

Section Feed.
Context {St Out : Type}.
Variable process : St -> bytes -> list jsmntok -> outcome (St * list Out).
Variable malformed : string.

(** The [do ... while] of [payz_tester_rpc_conn_feed] and
    [payz_tester_command_check]; every round takes a message out. *)
Fixpoint feed_loop (fuel : nat) (s : St) (f : feeder) : outcome (St * list Out * feeder) :=
  match fuel with
  | O => Abort "feed: fuel"
  | S fuel =>
      match json_parse_input (f_parser f) (f_ntoks f) (f_buffer f) (length (f_buffer f)) with
      | (PInvalid, _, _) => Abort malformed
      | (PPartial, p, n) => Ret (s, [], Feeder p (f_buffer f) n)
      | (PComplete toks, _, n) =>
          if length toks =? 1 then Ret (s, [], Feeder jsmn_init [] n)
          else
            let! (s1, out) := process s (f_buffer f) toks in
            let f1 := Feeder jsmn_init (drop (Z.to_nat (tend (cur toks))) (f_buffer f)) n in
            if length (f_buffer f1) =? 0 then Ret (s1, out, f1)
            else let! (s2, out', f2) := feed_loop fuel s1 f1 in Ret (s2, out ++ out', f2)
      end
  end.

(** [tal_expand], then the loop. *)
Definition feed (s : St) (f : feeder) (data : bytes) : outcome (St * list Out * feeder) :=
  let f1 := Feeder (f_parser f) (f_buffer f ++ data) (f_ntoks f) in
  feed_loop (S (length (f_buffer f1))) s f1.
End Feed.

(** * Lists by method name *)

(** A STRMAP of [struct list_head *]: the map has addresses of list heads, which
    are changed in place. *)
Record lists (A : Type) : Type := Lists { list_index : strmap nat; list_heads : list (list A) }.
Arguments Lists {A}.
Arguments list_index {A}.
Arguments list_heads {A}.

Section Lists.
Context {A : Type}.

Definition lists_init : lists A := Lists strmap_init [].

(** The list of a method, with its address. *)
Definition list_of (l : lists A) (method : bytes) : option (nat * list A) :=
  match strmap_get (list_index l) method with
  | None => None
  | Some a => Some (a, default [] (list_heads l !! a))
  end.

(** A new list head where there is none, and [list_add_tail]. *)
Definition lists_push (l : lists A) (method : bytes) (x : A) : lists A :=
  match list_of l method with
  | Some (a, q) => Lists (list_index l) (<[a := q ++ [x]]> (list_heads l))
  | None => Lists (strmap_add (list_index l) method (length (list_heads l))).2 (list_heads l ++ [[x]])
  end.

(** [list_pop], if there is a list that is not empty. *)
Definition lists_pop (l : lists A) (method : bytes) : option (A * lists A) :=
  match list_of l method with
  | Some (a, x :: q) => Some (x, Lists (list_index l) (<[a := q]> (list_heads l)))
  | _ => None
  end.

(** A scan with [strmap_iterate] that stops at the first list that is not
    empty. *)
Definition lists_scan (l : lists A) : bool :=
  strmap_iterate (list_index l)
    (fun _ a found => match list_heads l !! a with Some (_ :: _) => (false, true) | _ => (true, found) end) false.
End Lists.

(** * Responses *)

(** [data] and [message] are JSON texts; [message] is NULL unless [error]. *)
Record payz_tester_rpc_response : Type := Response { r_error : bool; r_data : bytes; r_message : option bytes; r_code : Z }.

Definition listconfigs : bytes := bs "{ " ++ quoted (bs "max-locktime-blocks") ++ bs ": 2016}".

(** [payz_tester_rpc_resolve]: the text that is written; [%s] of NULL is
    [(null)]. *)
Definition payz_tester_rpc_resolve (fd id : Z) (response : payz_tester_rpc_response) : Z * bytes :=
  let start := bs "{" ++ quoted (bs "jsonrpc") ++ bs ": " ++ quoted (bs "2.0") ++ bs ", " ++ quoted (bs "id") ++ bs ": " ++ fmt_u id ++ bs ",  " in
  (fd,
   if r_error response then
     start ++ quoted (bs "error") ++ bs ": {" ++ quoted (bs "code") ++ bs ": " ++ fmt_d (r_code response) ++ bs ",              "
       ++ quoted (bs "data") ++ bs ": " ++ r_data response ++ bs ", " ++ quoted (bs "message") ++ bs ": "
       ++ default (bs "(null)") (r_message response) ++ bs "}}" ++ [LF; LF]
   else start ++ quoted (bs "result") ++ bs ": " ++ r_data response ++ bs "}" ++ [LF; LF]).

Definition payz_tester_rpc_queues_new : lists payz_tester_rpc_response := lists_init.
Definition payz_tester_rpc_queues_pop (q : lists payz_tester_rpc_response) (method : bytes) := lists_pop q method.
Definition payz_tester_rpc_queues_push (q : lists payz_tester_rpc_response) (method : bytes) (response : payz_tester_rpc_response) :=
  lists_push q method response.
Definition payz_tester_rpc_queues_has_outgoing (q : lists payz_tester_rpc_response) : bool := lists_scan q.

(** * Connections *)

(** [conn_queues]: which of the queues objects [conn->queues] points to. *)
Record payz_tester_rpc_conn : Type := Conn {
  conn_queues : nat; conn_fd : Z; requests : lists Z; conn_feeder : feeder }.

Definition payz_tester_rpc_conn_new (queues : nat) (fd : Z) : payz_tester_rpc_conn := Conn queues fd lists_init feeder_init.

Definition payz_tester_rpc_conn_add_request (r : lists Z) (method : bytes) (id : Z) : lists Z := lists_push r method id.
Definition payz_tester_rpc_conn_has_incoming (conn : payz_tester_rpc_conn) : bool := lists_scan (requests conn).

(** [JSON_SCAN(json_to_u64, &id)] beside a string. *)
Inductive request_val : Type :=
| RMethod (m : bytes)
| RId (id : Z).

Definition method_arg : scan_arg request_val := ScanArg (bs "json_strdup") (fun buf t => Some (RMethod (json_strdup buf t))).
Definition id_arg : scan_arg request_val := ScanArg (bs "json_to_u64") (fun buf t => RId <$> json_to_u64 false buf t).

(** [payz_tester_rpc_conn_process] *)
Definition payz_tester_rpc_conn_process (fd : Z) (st : lists Z * lists payz_tester_rpc_response) (buffer : bytes) (tok : list jsmntok)
  : outcome (lists Z * lists payz_tester_rpc_response * list (Z * bytes)) :=
  let '(reqs, queues) := st in
  let! scanned := json_scan buffer tok (bs "{method:%,id:%}") [method_arg; id_arg] in
  match scanned with
  | inr [RMethod method; RId id] =>
      let '(response, queues1) :=
        if streq method (bs "listconfigs") then (Some (Response false listconfigs None 0), queues)
        else match payz_tester_rpc_queues_pop queues method with
             | Some (r, q) => (Some r, q)
             | None => (None, queues)
             end in
      match response with
      | None => Ret (payz_tester_rpc_conn_add_request reqs method id, queues1, [])
      | Some r => Ret (reqs, queues1, [payz_tester_rpc_resolve fd id r])
      end
  | _ => Abort "errx: Invalid JSON-RPC request"
  end.

Definition payz_tester_rpc_conn_feed (conn : payz_tester_rpc_conn) (queues : lists payz_tester_rpc_response) (data : bytes)
  : outcome (payz_tester_rpc_conn * lists payz_tester_rpc_response * list (Z * bytes)) :=
  let! (reqs, queues1, out, f) :=
    feed (payz_tester_rpc_conn_process (conn_fd conn)) "errx: RPC: malformed JSON text in request" (requests conn, queues) (conn_feeder conn) data in
  Ret (Conn (conn_queues conn) (conn_fd conn) reqs f, queues1, out).

Definition payz_tester_rpc_conn_tryrespond (conn : payz_tester_rpc_conn) (method : bytes) (response : payz_tester_rpc_response)
  : option (payz_tester_rpc_conn * (Z * bytes)) :=
  match lists_pop (requests conn) method with
  | None => None
  | Some (id, reqs) =>
      Some (Conn (conn_queues conn) (conn_fd conn) reqs (conn_feeder conn), payz_tester_rpc_resolve (conn_fd conn) id response)
  end.

(** * The emulator *)

(** [queues_made]: how many queues objects were made, the last of which is
    [rpc->queues]; the others were freed. *)
Record payz_tester_rpc : Type := Rpc {
  rpc_dir : bytes; fds : list Z; queues_made : nat; queues : lists payz_tester_rpc_response; conns : intmap payz_tester_rpc_conn }.

(** The directory is [mkdtemp]'s, the socket the first descriptor. *)
Definition payz_tester_rpc_new (dir : bytes) (socketfd : Z) : payz_tester_rpc :=
  Rpc dir [socketfd] 1 payz_tester_rpc_queues_new intmap_init.

Definition payz_tester_rpc_has_incoming (rpc : payz_tester_rpc) : bool :=
  existsb (fun c => payz_tester_rpc_conn_has_incoming c.2) (sintmap_walk (conns rpc)).

Definition payz_tester_rpc_has_outgoing (rpc : payz_tester_rpc) : bool := payz_tester_rpc_queues_has_outgoing (queues rpc).

(** The connections keep their pointers to the old queues. *)
Definition payz_tester_rpc_clear (rpc : payz_tester_rpc) : payz_tester_rpc :=
  Rpc (rpc_dir rpc) (fds rpc) (S (queues_made rpc)) payz_tester_rpc_queues_new (conns rpc).

(** The first connection of the loop that takes the response. *)
Fixpoint first_waiting (l : list (Z * payz_tester_rpc_conn)) (method : bytes) (response : payz_tester_rpc_response)
  : option (Z * payz_tester_rpc_conn * (Z * bytes)) :=
  match l with
  | [] => None
  | (i, conn) :: r =>
      match payz_tester_rpc_conn_tryrespond conn method response with
      | Some (conn', out) => Some (i, conn', out)
      | None => first_waiting r method response
      end
  end.

Definition payz_tester_rpc_add_response_obj (rpc : payz_tester_rpc) (method : bytes) (response : payz_tester_rpc_response)
  : payz_tester_rpc * list (Z * bytes) :=
  match first_waiting (sintmap_walk (conns rpc)) method response with
  | Some (i, conn, out) => (Rpc (rpc_dir rpc) (fds rpc) (queues_made rpc) (queues rpc) (poke (conns rpc) (SINTMAP_OFF i) conn), [out])
  | None =>
      (Rpc (rpc_dir rpc) (fds rpc) (queues_made rpc) (payz_tester_rpc_queues_push (queues rpc) method response) (conns rpc), [])
  end.

Definition payz_tester_rpc_add_response (rpc : payz_tester_rpc) (method data : bytes) : payz_tester_rpc * list (Z * bytes) :=
  payz_tester_rpc_add_response_obj rpc method (Response false data None 0).

Definition payz_tester_rpc_add_error (rpc : payz_tester_rpc) (method : bytes) (code : Z) (message data : bytes) : payz_tester_rpc * list (Z * bytes) :=
  payz_tester_rpc_add_response_obj rpc method (Response true data (Some message) code).

(** * Input *)

Definition payz_tester_rpc_listenfd (rpc : payz_tester_rpc) (newfd : Z) : payz_tester_rpc :=
  Rpc (rpc_dir rpc) (fds rpc ++ [newfd]) (queues_made rpc) (queues rpc)
    (sintmap_add (conns rpc) newfd (payz_tester_rpc_conn_new (queues_made rpc) newfd)).2.

(** The loop that reads; [reads] is what [read] gives, at most [count - offset]
    bytes each time.  A read that fills the buffer is followed by another
    whatever [poll] says, as [events] is what was asked for and not what has
    happened; at the end of [reads] nothing more comes. *)
Fixpoint slurp (count : nat) (buffer : bytes) (reads : list bytes) : outcome bytes :=
  match reads with
  | [] => Abort "read blocks"
  | b :: rest =>
      let to_read := count - length buffer in
      let buffer1 := buffer ++ take to_read b in
      let count1 := if length buffer1 =? count then count + 4096 else count in
      if to_read <=? length b then slurp count1 buffer1 rest else Ret buffer1
  end.

(** [tal_arr_remove] of the first entry with a descriptor. *)
Fixpoint remove_fd (fd : Z) (l : list Z) : list Z :=
  match l with
  | [] => []
  | x :: r => if (x =? fd)%Z then r else x :: remove_fd fd r
  end.

Definition payz_tester_rpc_fd (rpc : payz_tester_rpc) (fd : Z) (reads : list bytes) : outcome (payz_tester_rpc * list (Z * bytes)) :=
  match sintmap_get (conns rpc) fd with
  | None => Abort "assert(conn)"
  | Some conn =>
      let! buffer := slurp 4096 [] reads in
      if length buffer =? 0 then
        Ret (Rpc (rpc_dir rpc) (remove_fd fd (fds rpc)) (queues_made rpc) (queues rpc) (sintmap_del (conns rpc) fd).2, [])
      else
        let! _ := assert_ (conn_queues conn =? queues_made rpc) "conn->queues was freed" in
        let! (conn', queues', out) := payz_tester_rpc_conn_feed conn (queues rpc) buffer in
        Ret (Rpc (rpc_dir rpc) (fds rpc) (queues_made rpc) queues' (poke (conns rpc) (SINTMAP_OFF fd) conn'), out)
  end.

(** The entries of [polls] after the first; [input] has what can be read from
    those with an event. *)
Fixpoint check_fds (rpc : payz_tester_rpc) (polls : list Z) (input : Z -> option (list bytes)) : outcome (payz_tester_rpc * list (Z * bytes)) :=
  match polls with
  | [] => Ret (rpc, [])
  | fd :: r =>
      match input fd with
      | None => check_fds rpc r input
      | Some reads =>
          let! (rpc1, out) := payz_tester_rpc_fd rpc fd reads in
          let! (rpc2, out') := check_fds rpc1 r input in
          Ret (rpc2, out ++ out')
      end
  end.

(** [payz_tester_rpc_check]; [accepted]: the new descriptor, if there was an
    event on the socket. *)
Definition payz_tester_rpc_check (rpc : payz_tester_rpc) (accepted : option Z) (input : Z -> option (list bytes))
  : outcome (payz_tester_rpc * list (Z * bytes)) :=
  let polls := fds rpc in
  let rpc1 := match accepted with Some newfd => payz_tester_rpc_listenfd rpc newfd | None => rpc end in
  check_fds rpc1 (tl polls) input.
