(* ===== verification/Tester.v ===== *)
(** plugins/payz/tester: the test harness.  First command.c, its end of the plugin's
    stdin and stdout.

    Replies and notifications are queued; a notification that triggers a system
    is sent back to the plugin, as lightningd does. *)
From S2P Require Import Ecsys Prelude Utf8 Jsmn JsonTree Json JsonOut JsonScan JsonEqual Libplugin Ecs TesterRpc.

(** A C string with quotes in it, written here with apostrophes. *)
Definition qs (s : string) : bytes := map (fun c => if ch_in c (bs "'") then DQUOTE else c) (bs s).

(** What the harness does to the outside. *)
Inductive output : Type :=
| ToPlugin (text : bytes)
| ToRpc (fd : Z) (text : bytes)
| Printed (line : bytes).

(** [struct payz_tester_command_qentry] *)
Record qentry : Type := QEntry { qe_buffer : bytes; qe_toks : list jsmntok }.

Record payz_tester_command : Type := TCommand { tc_feeder : feeder; responses : list qentry; notifs : list qentry }.

Definition payz_tester_command_new : payz_tester_command := TCommand feeder_init [] [].

(** ** Writing *)

(** One round of the loop of [write_timed]. *)
Inductive attempt : Type :=
| TimedOut
| PollFailed
| NotReady        (* also when interrupted *)
| WriteFailed
| Written (n : nat).

(** [write_timed]: what was written.  Both files have this function. *)
Fixpoint write_timed (buffer : bytes) (rounds : list attempt) : outcome bytes :=
  match buffer with
  | [] => Ret []
  | _ =>
      match rounds with
      | [] => Abort "write blocks"
      | TimedOut :: _ => Abort "errx: Timed out."
      | PollFailed :: _ => Abort "err: poll"
      | NotReady :: r => write_timed buffer r
      | WriteFailed :: _ => Abort "err: write"
      | Written n :: r =>
          let! _ := assert_ (n <=? length buffer) "nwrite <= len" in
          let! rest := write_timed (drop n buffer) r in
          Ret (take n buffer ++ rest)
      end
  end.

Definition payz_tester_command_send (id : Z) (method params : bytes) : output :=
  ToPlugin (qs "{'jsonrpc': '2.0', 'id': " ++ fmt_u id ++ qs ",  'method': '" ++ method ++ qs "', 'params': " ++ params ++ bs "}").

(** ** Receiving *)

(** The notification as lightningd passes it on. *)
Definition reflected (payload : bytes) : bytes :=
  qs "{'jsonrpc': '2.0', 'method': '" ++ ECSYS_SYSTEM_NOTIFICATION ++ qs "', 'params':    {'origin': 'payz',    'payload': " ++ payload ++ bs "}}".

(** [payz_tester_command_process], on the two queues. *)
Definition payz_tester_command_process (q : list qentry * list qentry) (buffer : bytes) (toks : list jsmntok)
  : outcome (list qentry * list qentry * list output) :=
  let entry := QEntry (until_nul (take (Z.to_nat (tend (cur toks))) buffer)) (json_tok_copy toks) in
  match json_get_member buffer toks (bs "id") with
  | Some _ => Ret (q.1 ++ [entry], q.2, [])
  | None =>
      match json_get_member buffer toks (bs "method"), json_get_member buffer toks (bs "params") with
      | None, _ => Abort "errx: plugin stdout: No 'method' in response"
      | _, None => Abort "errx: plugin stdout: No 'params' in notification"
      | Some method, Some params =>
          if json_tok_streq buffer method (bs "log") then
            let! scanned := json_scan buffer params (bs "{level:%,message:%}") [str_arg; str_arg] in
            match scanned with
            | inr [level; message] => Ret (q.1, q.2, [Printed (level ++ bs ": " ++ message)])
            | _ => Abort "errx: plugin stdout: 'params'"
            end
          else if json_tok_streq buffer method ECSYS_SYSTEM_NOTIFICATION then
            Ret (q.1, q.2 ++ [entry], [ToPlugin (reflected (show_text buffer params))])
          else Ret (q.1, q.2 ++ [entry], [])
      end
  end.

(** [payz_tester_command_check], with the bytes [read] gave. *)
Definition payz_tester_command_check (c : payz_tester_command) (nread : bytes) : outcome (payz_tester_command * list output) :=
  if length nread =? 0 then Abort "errx: Unexpected EOF from plugin."
  else
    let! (q, out, f) :=
      feed payz_tester_command_process "errx: plugin stdout: malformed JSON text in response" (responses c, notifs c) (tc_feeder c) nread in
    Ret (TCommand f q.1 q.2, out).

(** ** Dequeueing *)

Definition payz_tester_command_get (queue : list qentry) : option (qentry * list qentry) :=
  match queue with [] => None | qe :: r => Some (qe, r) end.

Definition payz_tester_command_get_response (c : payz_tester_command) : option (qentry * payz_tester_command) :=
  match payz_tester_command_get (responses c) with
  | None => None
  | Some (qe, r) => Some (qe, TCommand (tc_feeder c) r (notifs c))
  end.

Definition payz_tester_command_get_notif (c : payz_tester_command) : option (qentry * payz_tester_command) :=
  match payz_tester_command_get (notifs c) with
  | None => None
  | Some (qe, r) => Some (qe, TCommand (tc_feeder c) (responses c) r)
  end.

(** * The tester

    plugins/payz/tester/tester.c and loop.c: the test harness.

    A test is a program [prog] that calls commands of the plugin, one after
    another; [Call] is a command with what follows its response.  A program ends
    with [Done], or with [Fail] where C calls [errx] or an assertion fails. *)

Record payz_tester : Type := Tester {
  t_rpc : payz_tester_rpc; t_command : payz_tester_command; t_id : Z; t_current : option qentry }.

(** * The loop *)

(** What one round of the loop meets: [stdout] has been read where there was an
    event on it; [rpc] the events on the descriptors of the emulator. *)
Inductive round : Type :=
| RTimedOut
| RQuiet          (* no event within 20 ms, or interrupted *)
| RFailed
| REvents (stdout : option bytes) (rpc : option (option Z * (Z -> option (list bytes)))).

Definition set_command (t : payz_tester) (c : payz_tester_command) : payz_tester := Tester (t_rpc t) c (t_id t) (t_current t).
Definition set_rpc (t : payz_tester) (r : payz_tester_rpc) : payz_tester := Tester r (t_command t) (t_id t) (t_current t).

(** The loop over the events. *)
Definition check_events (t : payz_tester) (stdout : option bytes) (rpc : option (option Z * (Z -> option (list bytes))))
  : outcome (payz_tester * list output) :=
  let! (t1, out1) :=
    match stdout with
    | None => Ret (t, [])
    | Some b => let! (c, out) := payz_tester_command_check (t_command t) b in Ret (set_command t c, out)
    end in
  match rpc with
  | None => Ret (t1, out1)
  | Some (accepted, input) =>
      let! (r, out2) := payz_tester_rpc_check (t_rpc t1) accepted input in
      Ret (set_rpc t1 r, out1 ++ map (fun w => ToRpc w.1 w.2) out2)
  end.

(** [payz_tester_loop_] *)
Fixpoint payz_tester_loop (t : payz_tester) (cb : payz_tester -> outcome (bool * payz_tester)) (rounds : list round)
  : outcome (payz_tester * list output) :=
  let! (go, t1) := cb t in
  if negb go then Ret (t1, [])
  else
    match rounds with
    | [] => Abort "poll"
    | RTimedOut :: _ => Abort "errx: Timed out while waiting for plugin."
    | RFailed :: _ => Abort "err: poll()"
    | RQuiet :: r => payz_tester_loop t1 cb r
    | REvents stdout rpc :: r =>
        let! (t2, out) := check_events t1 stdout rpc in
        let! (t3, out') := payz_tester_loop t2 cb r in
        Ret (t3, out ++ out')
    end.

(** [JSON_SCAN(json_to_u64, &id)] *)
Definition u64_arg : scan_arg Z := ScanArg (bs "json_to_u64") (fun buf t => json_to_u64 false buf t).

(** [wait_for_response]: whether to keep going. *)
Definition wait_for_response (t : payz_tester) : outcome (bool * payz_tester) :=
  match payz_tester_command_get_response (t_command t) with
  | None => Ret (true, t)
  | Some (qe, c) =>
      let! scanned := json_scan (qe_buffer qe) (qe_toks qe) (bs "{id:%}") [u64_arg] in
      match scanned with
      | inr [id] =>
          if negb (id =? t_id t)%Z then Abort "errx: Plugin handshake: incorrrect 'id'"
          else Ret (false, Tester (t_rpc t) c (wrap64 (t_id t + 1)) (Some qe))
      | _ => Abort "errx: Plugin handshake: Response"
      end
  end.

(** A call: [payz_tester_command_send], then [payz_tester_loop]. *)
Definition call (t : payz_tester) (method params : bytes) (rounds : list round) : outcome (payz_tester * qentry * list output) :=
  let sent := payz_tester_command_send (t_id t) method params in
  let! (t1, out) := payz_tester_loop (Tester (t_rpc t) (t_command t) (t_id t) None) wait_for_response rounds in
  match t_current t1 with
  | Some qe => Ret (t1, qe, sent :: out)
  | None => Abort "payz_tester_loop ended without a response"
  end.

(** * Programs *)

Inductive prog : Type :=
| Done
| Fail (msg : string)
| Call (method params : bytes) (k : qentry -> prog).

(** An outcome within a program. *)
Definition then_ {A : Type} (o : outcome A) (k : A -> prog) : prog :=
  match o with Ret x => k x | Abort msg => Fail msg end.

(** [assert], with NDEBUG undefined. *)
Definition require (b : bool) (k : prog) : prog := if b then k else Fail "assert".

(** The parameters of init. *)
Definition init_params (dir : bytes) : bytes :=
  let js := json_object_start new_json_stream None in
  let js := json_object_start js (Some (bs "configuration")) in
  let js := json_add_string js (Some (bs "lightning-dir")) dir in
  let js := json_add_string js (Some (bs "rpc-file")) (bs "lightning-rpc") in
  let js := json_add_string js (Some (bs "network")) (bs "testnet") in
  let js := json_object_end (json_object_start js (Some (bs "feature_set"))) in
  let js := json_object_end js in
  let js := json_object_end (json_object_start js (Some (bs "options"))) in
  let js := json_object_end js in
  default [] (json_out_contents (json_out_finished js)).

(** The object that [payz_tester_new] makes, and its two commands. *)
Definition payz_tester_start (dir : bytes) (socketfd : Z) : payz_tester :=
  Tester (payz_tester_rpc_new dir socketfd) payz_tester_command_new 1 None.

Definition payz_tester_new (dir : bytes) (k : prog) : prog :=
  Call (bs "getmanifest") (qs "{'allow-deprecated-apis': true}") (fun _ => Call (bs "init") (init_params dir) (fun _ => k)).

(** [payz_tester_command]: true with the result, or false with the error. *)
Definition payz_tester_command_ (method params : bytes) (k : bool -> bytes -> list jsmntok -> prog) : prog :=
  Call method params (fun qe =>
    match json_get_member (qe_buffer qe) (qe_toks qe) (bs "result"), json_get_member (qe_buffer qe) (qe_toks qe) (bs "error") with
    | Some result, _ => k true (qe_buffer qe) result
    | None, Some error => k false (qe_buffer qe) error
    | None, None => Fail "errx: Response from plugin did not have result or error"
    end).

Definition payz_tester_command_expect (method params expected : bytes) (k : prog) : prog :=
  payz_tester_command_ method params (fun ret buffer result =>
    if negb ret then Fail "errx: payz_tester_command_expect: Command failed"
    else
      match json_parse_simple expected (length expected) with
      | None => Fail "json_equal: NULL"
      | Some exptoks =>
          then_ (json_equal buffer result expected exptoks) (fun same : bool =>
            if same then k else Fail "errx: payz_tester_command_expect: Unexpected 'result'")
      end).

Definition errcode_arg : scan_arg Z := ScanArg (bs "json_to_errcode") (fun buf t => json_to_errcode buf t).

Definition payz_tester_command_expectfail (method params : bytes) (expected_code : Z) (k : prog) : prog :=
  payz_tester_command_ method params (fun ret buffer result =>
    if ret then Fail "errx: payz_tester_command_expectfail: Command succeeded?"
    else
      then_ (json_scan buffer result (bs "{code:%}") [errcode_arg]) (fun scanned =>
        match scanned with
        | inr [actual_code] =>
            if negb (actual_code =? expected_code)%Z then Fail "errx: payz_tester_command_expectfail: Expected error code" else k
        | _ => Fail "errx: payz_tester_command_expectfail: Failed to parse error"
        end)).

Definition payz_tester_command_ok (method params : bytes) (k : prog) : prog :=
  payz_tester_command_ method params (fun ret _ _ =>
    if ret then k else Fail "errx: payz_tester_command_ok: Command failed!").

(** [payz_tester_wait_component_generic]; [rounds] is how often the loop runs
    before its time is over. *)
Fixpoint payz_tester_wait_component_generic (rounds : nat) (expected_found : bool) (entity : Z) (component_name : bytes)
    (k : bytes -> list jsmntok -> prog) : prog :=
  match rounds with
  | O =>
      payz_tester_command_ (bs "payecs_systrace") (bs "[" ++ fmt_u entity ++ bs "]") (fun _ _ _ =>
        payz_tester_command_ (bs "payecs_listentities") (bs "[]") (fun _ _ _ => Fail "errx: Timed out!"))
  | S n =>
      payz_tester_command_ (bs "payecs_getcomponents") (bs "[" ++ fmt_u entity ++ qs ", ['" ++ component_name ++ qs "']]")
        (fun ret buffer result =>
          if negb ret then Fail "errx: payecs_getcomponents failed!"
          else
            match json_get_member buffer result component_name with
            | None => Fail "errx: payecs_getcomponents did not return component???"
            | Some component =>
                let found := negb (json_tok_is_null buffer component) in
                if Bool.eqb found expected_found then k buffer component
                else payz_tester_wait_component_generic n expected_found entity component_name k
            end)
  end.

Definition payz_tester_wait_component (rounds : nat) (entity : Z) (component_name : bytes) (k : bytes -> list jsmntok -> prog) : prog :=
  payz_tester_wait_component_generic rounds true entity component_name k.

Definition payz_tester_wait_detach_component (rounds : nat) (entity : Z) (component_name : bytes) (k : prog) : prog :=
  payz_tester_wait_component_generic rounds false entity component_name (fun _ _ => k).
