(* ===== verification/Tests.v ===== *)
(** plugins/payz/tests: the test programs of the repository.

    [rounds] bounds the loops that wait for the plugin. *)
From S2P Require Import Prelude Utf8 Jsmn JsonTree Json JsonOut JsonScan Ecsys PayecsData Tester.

Section Tests.
Variable rounds : nat.

(** test_advance_fail.c *)
Definition test_advance_fail : prog :=
  payz_tester_command_expectfail (bs "payecs_advance") (bs "[1]") PAY_ECS_INVALID_SYSTEMS_COMPONENT (
  payz_tester_command_expect (bs "payecs_setcomponents") (qs "[{'entity': 1,'lightningd:systems': {'foo': 42}}]") (bs "{}") (
  payz_tester_command_expectfail (bs "payecs_advance") (bs "[1]") PAY_ECS_INVALID_SYSTEMS_COMPONENT (
  payz_tester_command_expect (bs "payecs_setcomponents") (qs "[{'entity': 1,   'lightningd:systems': {'systems': []}}]") (bs "{}") (
  payz_tester_command_expectfail (bs "payecs_advance") (bs "[1]") PAY_ECS_NOT_ADVANCEABLE
  Done)))).

(** test_advance_systrace.c *)
Inductive trace_val : Type :=
| TNum (n : Z)
| TStr (s : bytes).

Definition tnum : scan_arg trace_val := ScanArg (bs "json_to_u32") (fun buf t => TNum <$> json_to_u32 buf t).
Definition tstr : scan_arg trace_val := ScanArg (bs "json_strdup") (fun buf t => Some (TStr (json_strdup buf t))).

Definition test_advance_systrace : prog :=
  let DUMMY_SYS := bs "payz:tests:test_advance_systrace" in
  payz_tester_command_expect (bs "payecs_newsystem") (qs "['" ++ DUMMY_SYS ++ qs "', ['example']]") (bs "{}") (
  payz_tester_command_expect (bs "payecs_setcomponents")
    (qs "[{'entity': 1, 'lightningd:systems': {'systems': ['" ++ DUMMY_SYS ++ qs "']}}]") (bs "{}") (
  payz_tester_command_expectfail (bs "payecs_advance") (bs "[1]") PAY_ECS_NOT_ADVANCEABLE (
  payz_tester_command_expect (bs "payecs_systrace") (bs "[1]") (qs "{'entity': 1, 'trace': []}") (
  payz_tester_command_expect (bs "payecs_systrace") (bs "[2]") (qs "{'entity': 2, 'trace': []}") (
  payz_tester_command_expect (bs "payecs_setcomponents") (qs "[{'entity': 1, 'example': 42}]") (bs "{}") (
  payz_tester_command_expect (bs "payecs_advance") (bs "[1]") (bs "{}") (
  payz_tester_command_ (bs "payecs_systrace") (bs "[1]") (fun _ buffer result =>
    then_ (json_scan buffer result (bs "{entity:%,trace:[0:{system:%,entity:{entity:%,example:%}}]}") [tnum; tstr; tnum; tnum]) (fun scanned =>
      match scanned with
      | inr [TNum entity1; TStr system; TNum entity2; TNum example] =>
          require (entity1 =? entity2)%Z (require (entity1 =? 1)%Z (require (streq system DUMMY_SYS) (require (example =? 42)%Z (
          payz_tester_command_expect (bs "payecs_systrace") (bs "[2]") (qs "{'entity': 2, 'trace': []}")
          Done))))
      | _ => Fail "errx: payecs_systrace result"
      end))))))))).

(** test_getdefaultsystems.c; the systems before the [i]-th are those of the
    inner loop. *)
Fixpoint unique_systems (buffer : bytes) (before systems : list (list jsmntok)) : bool :=
  match systems with
  | [] => true
  | sys :: r =>
      type_eqb (ttype (cur sys)) JSMN_STRING
      && forallb (fun sys2 => negb (json_tok_streq buffer sys (json_strdup buffer sys2))) before
      && unique_systems buffer (before ++ [sys]) r
  end.

Definition test_getdefaultsystems : prog :=
  payz_tester_command_ (bs "payecs_getdefaultsystems") (bs "{}") (fun success buffer result =>
    require success
      match json_get_member buffer result (bs "systems") with
      | None => Fail "assert"
      | Some systems =>
          require (type_eqb (ttype (cur systems)) JSMN_ARRAY) (require (0 <? tsize (cur systems))%Z (
          require (unique_systems buffer [] (json_for_each_arr systems))
          Done))
      end).

(** test_setcomponents.c *)
Definition test_setcomponents : prog :=
  payz_tester_command_expect (bs "payecs_setcomponents") (qs "[{'entity': 1, 'component': {'x': 0}}]") (bs "{}") (
  payz_tester_command_expect (bs "payecs_setcomponents")
    (qs "[{'entity': 1, 'component': {'x': 1}}, {'entity': 1, 'component': {'x': 0}}]") (bs "{}") (
  payz_tester_command_expect (bs "payecs_getcomponents") (qs "[1, ['component']]") (qs "{'entity': 1, 'component': {'x': 1}}") (
  payz_tester_command_expectfail (bs "payecs_setcomponents")
    (qs "[{'entity': 1, 'component': {'x': -1}}, {'entity': 1, 'component': {'x': 0}}]") PAYECS_SETCOMPONENTS_UNEXPECTED_COMPONENTS (
  payz_tester_command_expect (bs "payecs_getcomponents") (qs "[1, 'component']") (qs "{'entity': 1, 'component': {'x': 1}}")
  Done)))).

(** test_simple.c *)
Definition test_simple : prog :=
  payz_tester_command_expect (bs "payecs_newentity") (bs "{}") (qs "{'entity': 1}") (
  payz_tester_command_expect (bs "payecs_newentity") (bs "{}") (qs "{'entity': 2}") (
  payz_tester_command_expect (bs "payecs_newentity") (bs "{}") (qs "{'entity': 3}") (
  payz_tester_command_expect (bs "payecs_listentities") (bs "{}") (qs "{'entities': []}") (
  payz_tester_command_expect (bs "payecs_setcomponents") (qs "{'writes': [{'entity': 1, 'example': 42}]}") (bs "{}") (
  payz_tester_command_expect (bs "payecs_listentities") (bs "{}") (qs "{'entities': [{'entity': 1, 'example': 42}]}") (
  payz_tester_command_expect (bs "payecs_setcomponents") (qs "{'writes': [{'entity': 1, 'example': null}]}") (bs "{}") (
  payz_tester_command_expect (bs "payecs_listentities") (bs "{}") (qs "{'entities': []}")
  Done))))))).

(** test_system_defaulter.c *)
Definition expected : list (bytes * bytes) :=
  [(bs "lightningd:riskfactor", bs "10"); (bs "lightningd:maxfeepercent", bs "0.5"); (bs "lightningd:retry_for", bs "60");
   (bs "lightningd:maxdelay", bs "2016"); (bs "lightningd:exemptfee", qs "'5000msat'")].

Fixpoint quote_keys (first : bool) (l : list (bytes * bytes)) : bytes :=
  match l with
  | [] => bs "]"
  | (key, _) :: r => (if first then [] else bs ", ") ++ quoted key ++ quote_keys false r
  end.

Fixpoint check_defaults (l : list (bytes * bytes)) (k : prog) : prog :=
  match l with
  | [] => k
  | (key, value) :: r =>
      payz_tester_wait_component rounds 42 key (fun buf res =>
        require (streq (until_nul (tok_full_text buf (cur res))) value) (check_defaults r k))
  end.

Definition test_system_defaulter : prog :=
  let DUMMY_SYS := bs "test:system_defaulter" in
  payz_tester_command_ok (bs "payecs_newsystem") (qs "['" ++ DUMMY_SYS ++ qs "', " ++ bs "[" ++ quote_keys true expected ++ bs "]") (
  payz_tester_command_ok (bs "payecs_setdefaultsystems") (qs "[42, ['" ++ DUMMY_SYS ++ qs "']]") (
  payz_tester_command_ok (bs "payecs_setcomponents") (qs "[{'entity': 42, 'lightningd:main-payment': true}]") (
  payz_tester_command_ok (bs "payecs_advance") (bs "[42]") (
  check_defaults expected
  Done)))).

(** test_system_invoice_amount.c *)
Definition test_system_invoice_amount : prog :=
  let DUMMY_SYS := bs "test:invoice_amount" in
  let TEST_AMOUNT := bs "123456789msat" in
  let set_amount := qs "[{'entity': 42, 'lightningd:invoice:amount_msat': '" ++ TEST_AMOUNT ++ qs "'}]" in
  payz_tester_command_ok (bs "payecs_newsystem") (qs "['" ++ DUMMY_SYS ++ qs "', ['lightningd:amount']]") (
  payz_tester_command_ok (bs "payecs_setcomponents") set_amount (
  payz_tester_command_ok (bs "payecs_setdefaultsystems") (qs "[42, [], ['" ++ DUMMY_SYS ++ qs "']]") (
  payz_tester_wait_component rounds 42 (bs "lightningd:invoice:amount_msat") (fun _ _ =>
  payz_tester_command_ok (bs "payecs_advance") (bs "[42]") (
  payz_tester_wait_detach_component rounds 42 (bs "lightningd:invoice:amount_msat") (
  payz_tester_wait_component rounds 42 (bs "lightningd:amount") (fun buffer amount =>
  require (json_tok_streq buffer amount TEST_AMOUNT) (
  payz_tester_command_ok (bs "payecs_setcomponents") set_amount (
  payz_tester_command_ok (bs "payecs_advance") (bs "[42]") (
  payz_tester_wait_component rounds 42 (bs "lightningd:error") (fun _ _ =>
  Done))))))))))).

(** test_system_nonce.c *)
Fixpoint wait_trace (n : nat) (k : bytes -> list jsmntok -> prog) : prog :=
  match n with
  | O => Fail "while (!found): rounds"
  | S n =>
      payz_tester_command_ (bs "payecs_systrace") (bs "[42]") (fun ret buffer result =>
        require ret
          match json_get_member buffer result (bs "trace") with
          | None => Fail "assert"
          | Some trace =>
              require (type_eqb (ttype (cur trace)) JSMN_ARRAY)
                (if (tsize (cur trace) <? 2)%Z then wait_trace n k else k buffer trace)
          end)
  end.

(** The system of the [i]-th entry of the trace. *)
Definition traced (buffer : bytes) (trace : list jsmntok) (i : nat) (system : bytes) : bool :=
  match json_get_arr trace i with
  | None => false
  | Some e => match json_get_member buffer e (bs "system") with None => false | Some s => json_tok_streq buffer s system end
  end.

Definition test_system_nonce : prog :=
  let SUT := bs "lightningd:generate_nonce" in
  let DUMMY_SYS := bs "test:system_nonce:dummy" in
  payz_tester_command_ok (bs "payecs_newsystem") (qs "['" ++ DUMMY_SYS ++ qs "', ['lightningd:nonce']]") (
  payz_tester_command_ok (bs "payecs_setcomponents")
    (qs "[{'entity': 42, 'lightningd:systems': {'systems': ['" ++ SUT ++ qs "', '" ++ DUMMY_SYS ++ qs "']}}]") (
  payz_tester_command_ok (bs "payecs_advance") (bs "[42]") (
  payz_tester_wait_component rounds 42 (bs "lightningd:nonce") (fun buffer nonce =>
  require (type_eqb (ttype (cur nonce)) JSMN_STRING) (
  require (tend (cur nonce) - tstart (cur nonce) =? 64)%Z (
  require (match json_tok_bin_from_hex buffer nonce with Some _ => true | None => false end) (
  wait_trace rounds (fun buffer trace =>
  require (traced buffer trace 0 SUT) (require (traced buffer trace 1 DUMMY_SYS)
  Done))))))))).

Definition all_tests : list prog :=
  [test_advance_fail; test_advance_systrace; test_getdefaultsystems; test_setcomponents; test_simple; test_system_defaulter;
   test_system_invoice_amount; test_system_nonce].
End Tests.
