(* ===== verification/TesterSystem.v ===== *)
(** The harness and the plugin together: two processes, the pipes between them,
    and the socket of the emulator.

    Each write is one entry of a pipe.  The plugin reads a write in as many
    pieces as its buffer needs, the harness in pieces of 4096 bytes.  Which of
    the two moves next is not determined. *)
From S2P Require Import Prelude Strmap Intmap Utf8 Jsmn JsonTree Json JsonOut JsonScan Libplugin SyncRpc.
From S2P Require Import Ecs Plugin Handshake TesterRpc Tester Tests.

(** * The plugin's process *)

(** The messages handled so far with the state, and the buffer of stdin. *)
Record process : Type := Process { pr_state : nat * libplugin; pr_reader : reader }.

(** [payz_tester_spawn_child]: the arguments of [payz_main]. *)
Definition payz_tester_spawn_child : config := payz_config (bs "payz") (bs "keysendz").

(** The request of the init callback. *)
Definition listconfigs_text : bytes :=
  match finish_and_send_json (start_json_request 0 (bs "listconfigs") (json_out_obj None)) with Wrote b => b | _ => [] end.

(** The descriptor of the connection that the emulator accepts. *)
Definition conn_socket : Z := 7.

(** The plugin connects and writes; what the emulator answers. *)
Definition socket_exchange (rpc : payz_tester_rpc) (request : bytes) : outcome (payz_tester_rpc * list bytes) :=
  let! (r1, _) := payz_tester_rpc_check rpc (Some conn_socket) (fun _ => None) in
  let! (r2, out) := payz_tester_rpc_check r1 None (fun fd => if (fd =? conn_socket)%Z then Some [request] else None) in
  Ret (r2, map snd out).

(** What arrives at the harness; none of the tests needs other requests. *)
Definition to_stdout (ev : event) : outcome (list bytes) :=
  match ev with
  | Sent b => Ret [b]
  | Logged l msg => let! e := plugin_logv l msg in match e with Sent b => Ret [b] | _ => Ret [] end
  | Requested _ _ _ => Abort "a request of the plugin"
  | Wrote _ => Ret []
  end.

Fixpoint stdout_texts (evs : list event) : outcome (list bytes) :=
  match evs with
  | [] => Ret []
  | e :: r => let! a := to_stdout e in let! b := stdout_texts r in Ret (a ++ b)
  end.

Fixpoint emulated (rpc : payz_tester_rpc) (evs : list event) : outcome payz_tester_rpc :=
  match evs with
  | [] => Ret rpc
  | Wrote b :: r => let! (rpc', _) := socket_exchange rpc b in emulated rpc' r
  | _ :: r => emulated rpc r
  end.

Section System.
Variable ws : nat -> world.

(** One write, read in pieces. *)
Fixpoint read_write (fuel : nat) (o : os) (st : nat * libplugin) (r : reader) (data : bytes) : outcome ((nat * libplugin) * list event * reader) :=
  match data with
  | [] => Ret (st, [], r)
  | _ =>
      match fuel with
      | O => Abort "no room"
      | S f =>
          let n := min (space r) (length data) in
          let! (st1, evs, r1) := ld_read_json 1 o ws payz_tester_spawn_child st r (take n data) in
          let! (st2, evs', r2) := read_write f o st1 r1 (drop n data) in
          Ret (st2, evs ++ evs', r2)
      end
  end.

Definition plugin_next (p : process) (rpc : payz_tester_rpc) (w : bytes) : outcome (process * payz_tester_rpc * list bytes) :=
  let reads := match socket_exchange rpc listconfigs_text with Ret (_, l) => map Some l | Abort _ => [] end in
  let! (st, evs, r) := read_write (length w) (Os (fun _ => None) (fun _ => None) reads) (pr_state p) (pr_reader p) w in
  let! rpc' := emulated rpc evs in
  let! out := stdout_texts evs in
  Ret (Process st r, rpc', out).
End System.

(** * The harness *)

(** A program that runs, or one that waits for a response. *)
Inductive control : Type :=
| Running (p : prog)
| Waiting (k : qentry -> prog).

Record harness : Type := Harness { h_command : payz_tester_command; h_id : Z; h_control : control }.

Definition texts_of (out : list output) : list bytes := omap (fun o => match o with ToPlugin b => Some b | _ => None end) out.

(** A write of the plugin, read in pieces. *)
Fixpoint check_write (fuel : nat) (c : payz_tester_command) (data : bytes) : outcome (payz_tester_command * list output) :=
  match data with
  | [] => Ret (c, [])
  | _ =>
      match fuel with
      | O => Abort "no room"
      | S f =>
          let! (c1, out) := payz_tester_command_check c (take 4096 data) in
          let! (c2, out') := check_write f c1 (drop 4096 data) in
          Ret (c2, out ++ out')
      end
  end.

(** One move of the harness: a command is sent; or a round of the loop, which
    looks for a response and then reads.  [None] if it has to wait or has ended. *)
Definition harness_next (rpc : payz_tester_rpc) (h : harness) (inbox : list bytes) : option (harness * list bytes * list bytes) :=
  let failed msg inbox := Some (Harness (h_command h) (h_id h) (Running (Fail msg)), inbox, []) in
  match h_control h with
  | Running (Call m p k) =>
      Some (Harness (h_command h) (h_id h) (Waiting k), inbox, texts_of [payz_tester_command_send (h_id h) m p])
  | Running _ => None
  | Waiting k =>
      match wait_for_response (Tester rpc (h_command h) (h_id h) None) with
      | Abort msg => failed msg inbox
      | Ret (false, t) =>
          match t_current t with
          | Some qe => Some (Harness (t_command t) (t_id t) (Running (k qe)), inbox, [])
          | None => failed "no response"%string inbox
          end
      | Ret (true, _) =>
          match inbox with
          | [] => None
          | w :: rest =>
              match check_write (length w) (h_command h) w with
              | Ret (c, out) => Some (Harness c (h_id h) (Waiting k), rest, texts_of out)
              | Abort msg => failed msg rest
              end
          end
      end
  end.

(** * Steps *)

Record system : Type := System {
  s_process : process; s_rpc : payz_tester_rpc; s_harness : harness; to_plugin : list bytes; to_tester : list bytes }.

Section Steps.
Variable ws : nat -> world.

Inductive step : system -> system -> Prop :=
| step_plugin p rpc h w rest inbox p' rpc' out :
    plugin_next ws p rpc w = Ret (p', rpc', out) -> step (System p rpc h (w :: rest) inbox) (System p' rpc' h rest (inbox ++ out))
| step_harness p rpc h pipe inbox h' inbox' out :
    harness_next rpc h inbox = Some (h', inbox', out) -> step (System p rpc h pipe inbox) (System p rpc h' (pipe ++ out) inbox').

(** The test has ended well, and the plugin has handled all it was sent. *)
Definition passed (s : system) : bool :=
  match h_control (s_harness s), to_plugin s with Running Done, [] => true | _, _ => false end.

(** One schedule: the harness moves when it can. *)
Fixpoint run (fuel : nat) (s : system) : nat * system :=
  match fuel with
  | O => (0, s)
  | S f =>
      match harness_next (s_rpc s) (s_harness s) (to_tester s) with
      | Some (h', inbox', out) =>
          let '(n, s') := run f (System (s_process s) (s_rpc s) h' (to_plugin s ++ out) inbox') in (S n, s')
      | None =>
          match to_plugin s with
          | [] => (0, s)
          | w :: rest =>
              match plugin_next ws (s_process s) (s_rpc s) w with
              | Abort _ => (0, s)
              | Ret (p', rpc', out) => let '(n, s') := run f (System p' rpc' (s_harness s) rest (to_tester s ++ out)) in (S n, s')
              end
          end
      end
  end.
End Steps.

(** The two processes at the start, with a test. *)
Definition start (dir : bytes) (socketfd : Z) (test : prog) : outcome system :=
  let! lp := plugin_main payz_tester_spawn_child in
  let t := payz_tester_start dir socketfd in
  Ret (System (Process (0, lp) reader_init) (t_rpc t) (Harness (t_command t) (t_id t) (Running (payz_tester_new dir test))) [] []).
