(* ===== verification/TesterProofs.v ===== *)
(** Lemmas about the RPC emulator: lists by method name, and the invariant that
    no method has both a request and a response waiting. *)
From S2P Require Import Prelude Strmap Intmap Utf8 Jsmn JsonTree Json JsonOut JsonScan JsonScanProofs Libplugin Ec EcProofs TesterRpc.

(** * Lists by method name *)

Section Lists.
Context {A : Type}.
Implicit Types (l : lists A) (m : bytes).

(** The list of a method; none is empty. *)
Definition queue l m : list A := from_option snd [] (list_of l m).

(** Each address is that of one list. *)
Definition lists_wf l : Prop :=
  strmap_wf (list_index l) /\
  (forall m a, strmap_to_map (list_index l) !! m = Some a -> a < length (list_heads l)) /\
  (forall m m' a, strmap_to_map (list_index l) !! m = Some a -> strmap_to_map (list_index l) !! m' = Some a -> m = m').

Lemma lists_init_wf : lists_wf lists_init.
Proof. unfold lists_wf. cbn. split_and!; [done|intros m a H..]; done. Qed.

Lemma queue_init m : queue lists_init m = [].
Proof. done. Qed.

Lemma queue_index l m a q :
  lists_wf l -> strmap_to_map (list_index l) !! m = Some a -> list_heads l !! a = Some q -> queue l m = q.
Proof. intros (Hwf & _) Ha Hq. unfold queue, list_of. rewrite strmap_get_map, Ha by done. cbn. by rewrite Hq. Qed.

Lemma queue_none l m : lists_wf l -> strmap_to_map (list_index l) !! m = None -> queue l m = [].
Proof. intros (Hwf & _) Ha. unfold queue, list_of. by rewrite strmap_get_map, Ha. Qed.

(** A list head that is changed in place is that of one method. *)
Lemma queue_insert l m a q m' :
  lists_wf l -> strmap_to_map (list_index l) !! m = Some a ->
  lists_wf (Lists (list_index l) (<[a := q]> (list_heads l))) /\
  queue (Lists (list_index l) (<[a := q]> (list_heads l))) m' = if decide (m' = m) then q else queue l m'.
Proof.
  intros (Hwf & HB & HI) Ha. pose proof (HB m a Ha) as Hlt. split.
  { unfold lists_wf. cbn. rewrite length_insert. done. }
  unfold queue, list_of. cbn. rewrite !strmap_get_map by done. destruct (decide (m' = m)) as [->|Hne].
  - rewrite Ha. cbn. by rewrite list_lookup_insert_eq.
  - destruct (strmap_to_map (list_index l) !! m') as [a'|] eqn:E; [|done]. cbn.
    rewrite list_lookup_insert_ne; [done|]. intros <-. apply Hne. by apply (HI m' m a).
Qed.

Lemma push_spec l m x m' :
  lists_wf l -> no_nul m ->
  lists_wf (lists_push l m x) /\ queue (lists_push l m x) m' = if decide (m' = m) then queue l m ++ [x] else queue l m'.
Proof.
  intros HL Hm. pose proof HL as (Hwf & HB & HI). unfold lists_push.
  destruct (list_of l m) as [[a q]|] eqn:E; unfold list_of in E; rewrite strmap_get_map in E by done;
    destruct (strmap_to_map (list_index l) !! m) as [a'|] eqn:Ea; try done.
  - injection E as -> <-. destruct (lookup_lt_is_Some_2 (list_heads l) a (HB m a Ea)) as [q Hq]. rewrite Hq. cbn [default from_option id].
    rewrite (queue_index l m a q HL Ea Hq). by apply queue_insert.
  - destruct (strmap_add_fresh (list_index l) m (length (list_heads l)) Hwf Hm Ea) as (i' & Ei & Wi & Mi). rewrite Ei. cbn [snd]. split.
    + unfold lists_wf. cbn. rewrite Mi. split_and!; [done| |].
      * intros k a. rewrite lookup_insert_Some, length_app. cbn. intros [[_ <-]|[_ H]]; [lia|]. specialize (HB k a H). lia.
      * intros k k' a. rewrite !lookup_insert_Some. intros [[<- <-]|[? H]] [[<- E']|[? H']]; try done.
        -- specialize (HB _ _ H'). lia.
        -- specialize (HB _ _ H). lia.
        -- by apply (HI k k' a).
    + unfold queue, list_of. cbn. rewrite !strmap_get_map, Mi by done. destruct (decide (m' = m)) as [->|Hne].
      * rewrite lookup_insert_eq, Ea. cbn. rewrite lookup_app_r by lia. by rewrite Nat.sub_diag.
      * rewrite lookup_insert_ne by done. destruct (strmap_to_map (list_index l) !! m') as [a|] eqn:Em; [|done]. cbn.
        rewrite lookup_app_l; [done|]. by apply (HB m' a).
Qed.

Lemma pop_spec l m :
  lists_wf l ->
  match lists_pop l m with
  | None => queue l m = []
  | Some (x, l') => queue l m = x :: queue l' m /\ lists_wf l' /\ forall m', m' <> m -> queue l' m' = queue l m'
  end.
Proof.
  intros HL. pose proof HL as (Hwf & HB & HI). unfold lists_pop.
  destruct (list_of l m) as [[a q]|] eqn:E; [|unfold queue; by rewrite E].
  assert (EQ : queue l m = q) by (unfold queue; by rewrite E). destruct q as [|x q]; [done|].
  unfold list_of in E. rewrite strmap_get_map in E by done. destruct (strmap_to_map (list_index l) !! m) as [a'|] eqn:Ea; [|done].
  injection E as -> _. pose proof (fun m' => queue_insert l m a q m' HL Ea) as HQ. split_and!.
  - rewrite EQ. destruct (HQ m) as [_ ->]. by rewrite decide_True.
  - apply (HQ m).
  - intros m' Hne. destruct (HQ m') as [_ ->]. by rewrite decide_False.
Qed.

(** The scan finds whether some list has an element. *)
Lemma iterate_found (n : Strmap.node nat) l found :
  let handle := fun (_ : bytes) a (found : bool) => match list_heads l !! a with Some (_ :: _) => (false, true) | _ => (true, found) end in
  iterate n handle found = if existsb (fun e => match list_heads l !! e.2 with Some (_ :: _) => true | _ => false end) (Strmap.elements n)
                           then (false, true) else (true, found).
Proof.
  intros handle. revert found. induction n as [s v|c0 IH0 c1 IH1 b i]; intros found; cbn [iterate Strmap.elements].
  - unfold handle. cbn. by destruct (list_heads l !! v) as [[|]|].
  - rewrite existsb_app, IH0. destruct (existsb _ (Strmap.elements c0)); [done|]. cbn [orb]. apply IH1.
Qed.

Lemma scan_spec l : lists_wf l -> lists_scan l = true <-> exists m, queue l m <> [].
Proof.
  intros HL. pose proof HL as (Hwf & HB & HI). unfold lists_scan.
  assert (E : forall m q, queue l m = q -> q <> [] <-> exists a, strmap_to_map (list_index l) !! m = Some a /\ match list_heads l !! a with Some (_ :: _) => true | _ => false end = true).
  { intros m q <-. unfold queue, list_of. rewrite strmap_get_map by done. destruct (strmap_to_map (list_index l) !! m) as [a|] eqn:Em.
    - cbn. split.
      + intros Hne. exists a. split; [done|]. by destruct (list_heads l !! a) as [[|]|].
      + intros (a' & [= <-] & H). by destruct (list_heads l !! a) as [[|]|].
    - cbn. split; [done|]. by intros (? & ? & _). }
  unfold strmap_iterate, strmap_to_map in *. destruct (list_index l) as [n|].
  - rewrite (iterate_found n l false). split.
    + destruct (existsb _ _) eqn:EX; [intros _|done]. apply existsb_exists in EX as ([m a] & Hin & Ha). exists m. apply (E m _ eq_refl). exists a. split; [|done].
      apply elem_of_list_to_map_1; [by apply (strmap_keys_NoDup (Some n))|]. by apply list_elem_of_In.
    + intros (m & Hm). apply (E m _ eq_refl) in Hm as (a & Ha & Hq). apply elem_of_list_to_map_2 in Ha.
      replace (existsb _ _) with true; [done|]. symmetry. apply existsb_exists. exists (m, a). split; [by apply list_elem_of_In|done].
  - split; [done|]. intros (m & Hm). by apply (E m _ eq_refl) in Hm as (a & ? & _).
Qed.
End Lists.

(** * Feeding *)

Lemma feed_preserves {St Out : Type} (process : St -> bytes -> list jsmntok -> outcome (St * list Out)) malformed (P : St -> Prop) s f data s' out f' :
  (forall s buf toks s' out, P s -> process s buf toks = Ret (s', out) -> P s') -> P s -> feed process malformed s f data = Ret (s', out, f') -> P s'.
Proof.
  intros HP. unfold feed. cbn [f_buffer]. generalize (S (length (f_buffer f ++ data))) as fuel.
  generalize (Feeder (f_parser f) (f_buffer f ++ data) (f_ntoks f)) as g. intros g fuel. revert s g out.
  induction fuel as [|fuel IH]; intros s g out Hs; [done|]. cbn [feed_loop].
  destruct (json_parse_input _ _ _ _) as [[[| |toks] p] n]; [intros H; by simplify_eq..|].
  destruct (length toks =? 1); [intros H; by simplify_eq|].
  destruct (process s (f_buffer g) toks) as [[s1 o1]|] eqn:E; [|done]. cbn [obind]. apply (HP _ _ _ _ _ Hs) in E.
  destruct (length _ =? 0); [intros H; by simplify_eq|].
  destruct (feed_loop _ _ _ _ _) as [[[s2 o2] f2]|] eqn:E2; [|done]. cbn [obind]. intros H. simplify_eq. by eapply IH.
Qed.

(** * The invariant *)

(** A method with a waiting request has no waiting response. *)
Definition exclusive (reqs : lists Z) (q : lists payz_tester_rpc_response) : Prop := forall m, queue reqs m <> [] -> queue q m = [].

(** Only responses that were there are left. *)
Definition shrunk (q q' : lists payz_tester_rpc_response) : Prop := forall m, queue q m = [] -> queue q' m = [].

Definition method_no_nul (v : request_val) : Prop := match v with RMethod m => no_nul m | RId _ => True end.

Lemma method_made : makes method_no_nul method_arg.
Proof. intros buf t v [= <-]. apply until_nul_no_nul. Qed.

Lemma id_made : makes method_no_nul id_arg.
Proof. intros buf t v. cbn. by destruct (json_to_u64 false buf t); intros [= <-]. Qed.

Lemma process_ok fd q0 reqs q buf toks s' out :
  lists_wf reqs /\ lists_wf q /\ exclusive reqs q /\ shrunk q0 q ->
  payz_tester_rpc_conn_process fd (reqs, q) buf toks = Ret (s', out) -> lists_wf s'.1 /\ lists_wf s'.2 /\ exclusive s'.1 s'.2 /\ shrunk q0 s'.2.
Proof.
  intros (Wr & Wq & HX & HS). unfold payz_tester_rpc_conn_process.
  destruct (json_scan _ _ _ _) as [[err|[|[m|] [|[|id] [|? ?]]]]|] eqn:ES; cbn [obind]; try done.
  apply (scan_made method_no_nul) in ES; [|repeat constructor; [apply method_made|apply id_made]].
  assert (Hm : no_nul m) by (by inv ES).
  destruct (streq m (bs "listconfigs")); [by intros [= <- _]|].
  unfold payz_tester_rpc_queues_pop. pose proof (pop_spec q m Wq) as HP. destruct (lists_pop q m) as [[r q1]|].
  - destruct HP as (Eq & Wq1 & Hne). assert (HS1 : shrunk q q1).
    { intros m' E. destruct (decide (m' = m)) as [->|]; [congruence|]. by rewrite Hne. }
    intros [= <- _]. cbn [fst snd]. split_and!; [done..| |].
    + intros m' Hm'. apply HS1. by apply HX.
    + intros m' E. by apply HS1, HS.
  - intros [= <- _]. cbn [fst snd]. unfold payz_tester_rpc_conn_add_request.
    pose proof (fun m' => push_spec reqs m id m' Wr Hm) as HQ. split_and!; [apply (HQ m)|done| |done].
    intros m' Hne. destruct (HQ m') as [_ E]. rewrite E in Hne. destruct (decide (m' = m)) as [->|]; [done|by apply HX].
Qed.

(** The emulator as long as [payz_tester_rpc_clear] is not called. *)
Record rpc_ok (rpc : payz_tester_rpc) : Prop := {
  ok_conns : intmap_wf (conns rpc);
  ok_queues : lists_wf (queues rpc);
  ok_conn : forall i c, intmap_to_map (conns rpc) !! i = Some c ->
    i = SINTMAP_OFF (conn_fd c) /\ lists_wf (requests c) /\ exclusive (requests c) (queues rpc) /\ conn_queues c = queues_made rpc }.

(** What may happen to it: a connection is accepted, there is input on one, or a
    test adds a response. *)
Inductive rpc_step : payz_tester_rpc -> payz_tester_rpc -> Prop :=
| rpc_accept rpc newfd : sintmap_get (conns rpc) newfd = None -> rpc_step rpc (payz_tester_rpc_listenfd rpc newfd)
| rpc_input rpc fd reads rpc' out : payz_tester_rpc_fd rpc fd reads = Ret (rpc', out) -> rpc_step rpc rpc'
| rpc_response rpc method r : no_nul method -> rpc_step rpc (payz_tester_rpc_add_response_obj rpc method r).1.

Lemma rpc_new_ok dir fd : rpc_ok (payz_tester_rpc_new dir fd).
Proof. split; [done|apply lists_init_wf|]. intros i c H. done. Qed.

Lemma listenfd_ok rpc newfd : rpc_ok rpc -> sintmap_get (conns rpc) newfd = None -> rpc_ok (payz_tester_rpc_listenfd rpc newfd).
Proof.
  intros [HC HQ HI] Hn. unfold sintmap_get in Hn. rewrite intmap_get_map in Hn by done.
  destruct (intmap_add_fresh (conns rpc) (SINTMAP_OFF newfd) (payz_tester_rpc_conn_new (queues_made rpc) newfd) HC (off_bound newfd) Hn) as (m' & E & W & M).
  unfold payz_tester_rpc_listenfd, sintmap_add. rewrite E. cbn [snd]. split; cbn; [done|done|]. intros i c. rewrite M, lookup_insert_Some.
  intros [[<- <-]|[_ H]]; [|by apply HI]. cbn. split_and!; [done|apply lists_init_wf| |done]. intros m Hm. by destruct Hm.
Qed.

(** A connection that is changed in place, together with the queues. *)
Lemma poke_ok rpc i c c' q :
  rpc_ok rpc -> intmap_to_map (conns rpc) !! i = Some c -> conn_fd c' = conn_fd c -> conn_queues c' = conn_queues c ->
  lists_wf (requests c') -> lists_wf q -> exclusive (requests c') q ->
  (forall j d, j <> i -> intmap_to_map (conns rpc) !! j = Some d -> exclusive (requests d) q) ->
  rpc_ok (Rpc (rpc_dir rpc) (fds rpc) (queues_made rpc) q (poke (conns rpc) i c')).
Proof.
  intros [HC HQ HI] Hi Hfd Hqs Wr Wq HX HO. split; cbn; [by apply poke_wf|done|]. intros j d. rewrite (poke_present _ i c' c HC Hi), lookup_insert_Some.
  destruct (HI i c Hi) as (Ei & _ & _ & Eq). intros [[<- <-]|[Hne Hd]]; [split_and!; congruence || done|].
  destruct (HI j d Hd) as (? & ? & _ & ?). split_and!; try done. by apply (HO j d).
Qed.

Lemma fd_ok rpc fd reads rpc' out : rpc_ok rpc -> payz_tester_rpc_fd rpc fd reads = Ret (rpc', out) -> rpc_ok rpc'.
Proof.
  intros Hok. pose proof Hok as [HC HQ HI]. unfold payz_tester_rpc_fd, sintmap_get. rewrite intmap_get_map by done.
  destruct (intmap_to_map (conns rpc) !! SINTMAP_OFF fd) as [c|] eqn:Ec; [|done]. destruct (HI _ _ Ec) as (Efd & Wr & HX & Eq).
  destruct (slurp 4096 [] reads) as [b|]; [|done]. cbn [obind]. destruct (length b =? 0).
  - intros [= <- _]. destruct (intmap_del_map (conns rpc) (SINTMAP_OFF fd) HC) as (_ & W & M). unfold sintmap_del.
    split; cbn; [done|done|]. intros j d. rewrite M, lookup_delete_Some. intros [_ H]. by apply HI.
  - rewrite Eq, Nat.eqb_refl. cbn [assert_ obind]. unfold payz_tester_rpc_conn_feed.
    destruct (feed _ _ _ _ _) as [[[[reqs q] o] f]|] eqn:EF; [|done]. cbn [obind]. intros [= <- _].
    apply (feed_preserves _ _ (fun s => lists_wf s.1 /\ lists_wf s.2 /\ exclusive s.1 s.2 /\ shrunk (queues rpc) s.2)) in EF as (W1 & W2 & HX' & HS').
    2:{ intros [r0 q0] buf toks s' o' H E. by eapply process_ok. }
    2:{ cbn. split_and!; try done. by intros m. }
    apply (poke_ok rpc _ c); cbn; try done. intros j d Hne Hd m Hm. apply HS'. destruct (HI j d Hd) as (_ & _ & HXd & _). by apply HXd.
Qed.

(** ** Adding a response *)

Lemma walk_lookup rpc i c : rpc_ok rpc -> (i, c) ∈ sintmap_walk (conns rpc) <-> intmap_to_map (conns rpc) !! SINTMAP_OFF i = Some c /\ i = SINTMAP_UNOFF (SINTMAP_OFF i).
Proof.
  intros [HC _ _]. rewrite sintmap_walk_elements by done. destruct (elements_keys (conns rpc) HC) as [HS HB]. rewrite Forall_forall in HB.
  assert (HN : NoDup (intmap_elements (conns rpc)).*1) by (destruct (conns rpc); [by apply ikeys_NoDup|constructor]).
  unfold intmap_to_map. split.
  - intros ([k v] & [= -> ->] & Hin)%list_elem_of_fmap. specialize (HB _ Hin). cbn in HB.
    rewrite unoff_off by done. split; [|done]. by apply elem_of_list_to_map_1.
  - intros [H%elem_of_list_to_map_2 E]. apply list_elem_of_fmap. exists (SINTMAP_OFF i, c). split; [|done]. cbn. by rewrite <- E.
Qed.

(** The first connection with a waiting request takes the response, to its oldest
    request; there is none exactly when no connection waits. *)
Lemma first_waiting_spec l method r :
  Forall (fun e => lists_wf (requests e.2)) l ->
  match first_waiting l method r with
  | None => Forall (fun e => queue (requests e.2) method = []) l
  | Some (i, c', out) =>
      exists l1 c l2 id, l = l1 ++ (i, c) :: l2 /\ Forall (fun e => queue (requests e.2) method = []) l1 /\
        queue (requests c) method = id :: queue (requests c') method /\ lists_wf (requests c') /\
        (forall m, m <> method -> queue (requests c') m = queue (requests c) m) /\
        conn_fd c' = conn_fd c /\ conn_queues c' = conn_queues c /\ out = payz_tester_rpc_resolve (conn_fd c) id r
  end.
Proof.
  induction 1 as [|[i c] l Hc Hl IH]; [constructor|]. cbn [first_waiting]. unfold payz_tester_rpc_conn_tryrespond. cbn in Hc.
  pose proof (pop_spec (requests c) method Hc) as HP. destruct (lists_pop (requests c) method) as [[id reqs]|].
  - destruct HP as (E & W & Hne). exists [], c, l, id. cbn. done.
  - destruct (first_waiting l method r) as [[[i' c'] out]|]; [|by constructor].
    destruct IH as (l1 & d & l2 & id & -> & HF & H). exists ((i, c) :: l1), d, l2, id. split; [done|]. split; [by constructor|done].
Qed.

Lemma walk_wf rpc : rpc_ok rpc -> Forall (fun e => lists_wf (requests e.2)) (sintmap_walk (conns rpc)).
Proof.
  intros Hok. apply Forall_forall. intros [i c] Hin. apply walk_lookup in Hin as [Hin _]; [|done]. cbn.
  by destruct (ok_conn _ Hok _ _ Hin) as (_ & ? & _).
Qed.

Lemma conn_walked rpc k c : rpc_ok rpc -> intmap_to_map (conns rpc) !! k = Some c -> (SINTMAP_UNOFF k, c) ∈ sintmap_walk (conns rpc).
Proof.
  intros Hok Hk. pose proof (ok_conns _ Hok) as HC. apply walk_lookup; [done|].
  assert (0 <= k < u64_mod)%Z; [|by rewrite unoff_off]. destruct (elements_keys (conns rpc) HC) as [_ HB].
  unfold intmap_to_map in Hk. apply elem_of_list_to_map_2 in Hk. rewrite Forall_forall in HB. by apply (HB _ Hk).
Qed.

Lemma response_ok rpc method r : rpc_ok rpc -> no_nul method -> rpc_ok (payz_tester_rpc_add_response_obj rpc method r).1.
Proof.
  intros Hok Hm. pose proof Hok as [HC HQ HI]. unfold payz_tester_rpc_add_response_obj.
  pose proof (first_waiting_spec _ method r (walk_wf rpc Hok)) as HF.
  destruct (first_waiting _ method r) as [[[i c'] out]|]; cbn [fst].
  - destruct HF as (l1 & c & l2 & id & EW & _ & Eq & W' & Hne & Hfd & Hqs & _).
    assert (Hin : (i, c) ∈ sintmap_walk (conns rpc)) by (rewrite EW; set_solver). apply walk_lookup in Hin as [Hin _]; [|done].
    destruct (HI _ _ Hin) as (_ & Wc & HX & _). apply (poke_ok rpc _ c); try done.
    + intros m Hq. apply HX. destruct (decide (m = method)) as [->|]; [by rewrite Eq|]. by rewrite <- Hne.
    + intros j d _ Hd. by destruct (HI j d Hd) as (_ & _ & ? & _).
  - split; cbn; [done|by apply (push_spec (queues rpc) method r method)|]. intros i c Hc. destruct (HI i c Hc) as (? & ? & HX & ?). split_and!; try done.
    intros m Hq. destruct (push_spec (queues rpc) method r m HQ Hm) as [_ E]. unfold payz_tester_rpc_queues_push. rewrite E.
    rewrite decide_False; [by apply HX|]. intros ->. rewrite Forall_forall in HF. specialize (HF _ (conn_walked rpc i c Hok Hc)). done.
Qed.

Lemma rpc_step_ok rpc rpc' : rpc_ok rpc -> rpc_step rpc rpc' -> rpc_ok rpc'.
Proof. intros Hok HS. destruct HS as [rpc newfd H|rpc fd reads rpc' out H|rpc method r H]; [by apply listenfd_ok|exact (fd_ok _ _ _ _ _ Hok H)|by apply response_ok]. Qed.
