(* ===== verification/TesterTheorems.v ===== *)
(** The test harness: the tests pass under every schedule, and the emulator
    matches requests with responses. *)
From stdpp Require Import relations.
From S2P Require Import Prelude Strmap Intmap Utf8 Jsmn JsonTree JsmnProofs Json JsonProofs JsonEqual JsonOut JsonOutProofs JsonScan JsonScanProofs Libplugin Param SyncRpc Ec EcProofs.
From S2P Require Import Setsystems Ecsys EcsysProofs Ecs Systems PayecsProofs PluginProofs Plugin Handshake HandshakeProofs TesterRpc Tester Tests TesterSystem TesterProofs.

(** * Schedules *)

(** ** Steps that commute *)

Section Diamond.
Context {St : Type} (R : relation St).
Hypothesis diamond : forall s t1 t2, R s t1 -> R s t2 -> t1 = t2 \/ exists u, R t1 u /\ R t2 u.

Lemma first_step n : forall s t s1, nsteps R n s t -> nf R t -> R s s1 -> 1 <= n /\ nsteps R (n - 1) s1 t.
Proof.
  induction n as [|n IH]; intros s t s1 HN HF H1.
  - inv HN. exfalso. apply HF. by exists s1.
  - inversion HN as [|n' x a z Ha HN' E1 E2 E3]; subst; clear HN; rename HN' into HN. split; [lia|]. rewrite Nat.sub_1_r. cbn [Nat.pred].
    destruct (diamond s a s1 Ha H1) as [<-|(u & Hu & Hu1)]; [done|].
    destruct (IH a t u HN HF Hu) as [Hn HNu]. replace n with (S (n - 1)) by lia. by eapply nsteps_l.
Qed.

(** When one run ends, every run is part of one that ends there, after as many
    steps. *)
Lemma all_runs_end n m : forall s t s', nsteps R n s t -> nf R t -> nsteps R m s s' -> m <= n /\ nsteps R (n - m) s' t.
Proof.
  revert n. induction m as [|m IH]; intros n s t s' HN HF HM.
  - inv HM. rewrite Nat.sub_0_r. split; [lia|done].
  - inversion HM as [|n' x a z Ha HM' E1 E2 E3]; subst; clear HM; rename HM' into HM. destruct (first_step n s t a HN HF Ha) as [Hn HN1].
    destruct (IH (n - 1) a t s' HN1 HF HM) as [Hm HN2]. split; [lia|]. by replace (n - S m) with (n - 1 - m) by lia.
Qed.
End Diamond.

(** The two processes use different ends of the pipes. *)
Lemma harness_grows rpc rpc' h inbox more h' inbox' out :
  harness_next rpc h inbox = Some (h', inbox', out) -> harness_next rpc' h (inbox ++ more) = Some (h', inbox' ++ more, out).
Proof.
  unfold harness_next, wait_for_response. destruct (h_control h) as [[| |m p k]|k]; try done; [intros H; by simplify_eq|].
  cbn [t_command t_id t_rpc]. destruct (payz_tester_command_get_response (h_command h)) as [[qe c]|]; cbn [obind].
  - destruct (json_scan _ _ _ _) as [[|[|id [|]]]|]; cbn [obind]; try (intros H; by simplify_eq).
    destruct (negb _); cbn [t_current t_command t_id]; intros H; by simplify_eq.
  - destruct inbox as [|w rest]; [done|]. cbn [app]. destruct (check_write _ _ _) as [[c out']|]; intros H; by simplify_eq.
Qed.

Lemma step_diamond ws s t1 t2 : step ws s t1 -> step ws s t2 -> t1 = t2 \/ exists u, step ws t1 u /\ step ws t2 u.
Proof.
  assert (HC : forall p rpc h w rest inbox p' rpc' out h' inbox' outh,
    plugin_next ws p rpc w = Ret (p', rpc', out) -> harness_next rpc h inbox = Some (h', inbox', outh) ->
    exists u, step ws (System p' rpc' h rest (inbox ++ out)) u /\ step ws (System p rpc h' ((w :: rest) ++ outh) inbox') u).
  { intros p rpc h w rest inbox p' rpc' out h' inbox' outh HP HH. exists (System p' rpc' h' (rest ++ outh) (inbox' ++ out)). split.
    - apply step_harness. by eapply harness_grows.
    - by apply step_plugin. }
  intros H1 H2. destruct H1 as [p rpc h w rest inbox p' rpc' out HP|p rpc h pipe inbox h' inbox' out HH]; inv H2.
  - left. congruence.
  - right. by eapply HC.
  - right. edestruct HC as (u & ? & ?); [done..|]. by exists u.
  - left. congruence.
Qed.

(** ** The schedule that is computed *)

Lemma run_steps ws fuel s : nsteps (step ws) (run ws fuel s).1 s (run ws fuel s).2.
Proof.
  revert s. induction fuel as [|f IH]; intros [p rpc h pipe inbox]; cbn [run s_rpc s_harness to_tester s_process to_plugin]; [constructor|].
  destruct (harness_next rpc h inbox) as [[[h' inbox'] out]|] eqn:EH.
  - specialize (IH (System p rpc h' (pipe ++ out) inbox')). destruct (run ws f _) as [n s']. cbn [fst snd] in *. eapply nsteps_l; [by apply step_harness|done].
  - destruct pipe as [|w rest]; [constructor|]. destruct (plugin_next ws p rpc w) as [[[p' rpc'] out]|] eqn:EP; [|constructor].
    specialize (IH (System p' rpc' h rest (inbox ++ out))). destruct (run ws f _) as [n s']. cbn [fst snd] in *. eapply nsteps_l; [by apply step_plugin|done].
Qed.

Lemma passed_ends ws s : passed s = true -> nf (step ws) s.
Proof.
  intros H [t Ht]. unfold passed in H. destruct Ht as [p rpc h w rest inbox p' rpc' out HP|p rpc h pipe inbox h' inbox' out HH]; cbn in H.
  - by destruct (h_control h) as [[]|].
  - unfold harness_next in HH. by destruct (h_control h) as [[]|].
Qed.

(** A clock and a source of random bytes. *)
Definition test_world (n : nat) : world := World (repeat (chr (Z.of_nat n mod 256)) 32) (bs "2021-11-18T02:44:00." ++ fmt_u (Z.of_nat n)).

Definition test_dir : bytes := bs "/tmp/payz_tester_rpc.oNrTcX".

(** The tests, run by one schedule. *)
Lemma tests_run :
  forallb (fun test => match start test_dir 5 test with Ret s => passed (run test_world 300 s).2 | Abort _ => false end) (all_tests 50) = true.
Proof. vm_compute. reflexivity. Qed.

(** C9.  Each of the eight test programs of the repository, run against the
    plugin, passes under every schedule of the two processes: whatever has
    happened so far, the run goes on for a bounded number of steps and, however
    it is scheduled, ends with the test done and every message handled.  Nothing
    fails an assertion on the way, in the plugin or in the harness. *)
Theorem tests_pass test s0 s :
  test ∈ all_tests 50 -> start test_dir 5 test = Ret s0 -> rtc (step test_world) s0 s ->
  exists n s', nsteps (step test_world) n s s' /\ passed s' = true /\
    forall m t, nsteps (step test_world) m s t -> m <= n /\ nsteps (step test_world) (n - m) t s'.
Proof.
  intros HT H0 HR. pose proof tests_run as HA. rewrite forallb_forall in HA. apply list_elem_of_In, HA in HT. rewrite H0 in HT.
  apply rtc_nsteps in HR as (k & HK). pose proof (run_steps test_world 300 s0) as HN. pose proof (passed_ends test_world _ HT) as HF.
  destruct (all_runs_end _ (step_diamond test_world) _ _ _ _ _ HN HF HK) as [_ HN'].
  eexists _, _. split; [exact HN'|]. split; [done|]. intros m t HM. by eapply (all_runs_end _ (step_diamond test_world)).
Qed.

Lemma tests_pass_witness :
  exists s0, start test_dir 5 test_simple = Ret s0 /\
    exists n s', nsteps (step test_world) n s0 s' /\ passed s' = true.
Proof.
  destruct (start test_dir 5 test_simple) as [s0|m] eqn:E; [|exfalso; vm_compute in E; discriminate E].
  exists s0. split; [reflexivity|].
  destruct (tests_pass test_simple s0 s0) as (n & s' & HN & HP & _); [apply list_elem_of_In; do 4 right; left; reflexivity|exact E|apply rtc_refl|].
  exists n, s'. split; [exact HN|exact HP].
Defined.

(** * The emulator *)






(** ** What goes wrong in the harness *)

(** The bytes that wait on a socket, as reads into a buffer of 4096 bytes get
    them. *)
Fixpoint socket_reads (fuel : nat) (data : bytes) : list bytes :=
  match fuel with
  | O => []
  | S f => match data with [] => [] | _ => take 4096 data :: socket_reads f (drop 4096 data) end
  end.

Lemma slurp_socket fuel k data : length data <= fuel -> data <> [] ->
  forall before, length before = k * 4096 ->
  slurp (length before + 4096) before (socket_reads fuel data) = if (Z.of_nat (length data) mod 4096 =? 0)%Z then Abort "read blocks" else Ret (before ++ data).
Proof.
  revert k data. induction fuel as [|f IH]; intros k data Hl Hne before Hb; [by destruct data; [|cbn in Hl; lia]|].
  cbn [socket_reads]. destruct data as [|x data']; [done|]. set (data := x :: data') in *. cbn [slurp].
  replace (length before + 4096 - length before) with 4096 by lia. rewrite take_take, Nat.min_id.
  destruct (decide (4096 <= length data)) as [Hge|Hlt].
  - rewrite length_take_le by done. cbn [Nat.leb]. change (4096 <=? 4096) with true. cbn iota.
    rewrite length_app, length_take_le, Nat.eqb_refl by done.
    destruct (decide (length data = 4096)) as [E|E].
    + rewrite E. change (Z.of_nat 4096 mod 4096 =? 0)%Z with true. cbn iota. rewrite (drop_ge data) by lia. by destruct f.
    + assert (HD : drop 4096 data <> []) by (intros HD%(f_equal length); rewrite length_drop in HD; cbn [length] in HD; lia).
      pose proof (IH (S k) (drop 4096 data) ltac:(rewrite length_drop; lia) HD (before ++ take 4096 data)) as H.
      rewrite length_app, length_take_le in H by done. rewrite H by lia. rewrite length_drop.
      replace (Z.of_nat (length data - 4096) mod 4096)%Z with (Z.of_nat (length data) mod 4096)%Z.
      * rewrite <- app_assoc, take_drop. done.
      * replace (Z.of_nat (length data)) with (Z.of_nat (length data - 4096) + 1 * 4096)%Z by lia. apply Z.mod_add. lia.
  - rewrite (take_ge data) by lia. rewrite (proj2 (Nat.leb_gt 4096 (length data))) by lia.
    rewrite Z.mod_small by lia. rewrite (proj2 (Z.eqb_neq _ _)); [done|]. unfold data. cbn [length]. lia.
Qed.

(** A connection's input is read completely, unless its length is a multiple of
    4096: then the harness asks for more and waits, although [poll] says that
    there is nothing to read. *)
Theorem socket_read_blocks data :
  data <> [] -> slurp 4096 [] (socket_reads (length data) data) = if (Z.of_nat (length data) mod 4096 =? 0)%Z then Abort "read blocks" else Ret data.
Proof. intros H. by apply (slurp_socket (length data) 0 data (le_n _) H []). Qed.

(** [payz_tester_rpc_clear] leaves the connections with a pointer to the queues
    that it frees: the next request on one of them uses it. *)
Theorem clear_leaves_dangling rpc fd c b :
  intmap_wf (conns rpc) -> intmap_to_map (conns rpc) !! SINTMAP_OFF fd = Some c -> conn_queues c <= queues_made rpc -> b <> [] -> length b < 4096 ->
  payz_tester_rpc_fd (payz_tester_rpc_clear rpc) fd [b] = Abort "conn->queues was freed".
Proof.
  intros HC Hc Hq Hb Hl. unfold payz_tester_rpc_fd, sintmap_get. cbn [conns payz_tester_rpc_clear]. rewrite intmap_get_map, Hc by done.
  cbn [slurp length]. rewrite Nat.sub_0_r, take_ge by lia. rewrite (proj2 (Nat.leb_gt 4096 (length b))) by lia. cbn [obind app].
  destruct b as [|x b]; [done|]. change (length (x :: b) =? 0) with false. cbn iota. replace (conn_queues c =? _) with false; [done|].
  symmetry. apply Nat.eqb_neq. cbn. lia.
Qed.

(** ** Writing *)

(** However the writes are cut, all of the text is written, in order. *)
Theorem write_timed_writes b rounds out : write_timed b rounds = Ret out -> out = b.
Proof.
  revert b out. induction rounds as [|a rounds IH]; intros b out; destruct b as [|x b]; cbn [write_timed]; try (intros H; by simplify_eq).
  destruct a as [| | | |n]; try done; [apply IH|]. destruct (assert_ _ _) as [[]|] eqn:EA; [|done]. cbn [obind].
  destruct (write_timed (drop n (x :: b)) rounds) as [rest|] eqn:E; [|done]. cbn [obind]. apply IH in E as ->. intros [= <-]. apply take_drop.
Qed.

(** ** The loop of the harness *)

(** Moves of the harness alone, with what it takes from its inbox and what it
    sends. *)
Inductive moves (rpc : payz_tester_rpc) : harness -> list bytes -> harness -> list bytes -> list bytes -> Prop :=
| moves_done h inbox : moves rpc h inbox h inbox []
| moves_next h inbox h1 inbox1 out1 h2 inbox2 out2 :
    harness_next rpc h inbox = Some (h1, inbox1, out1) -> moves rpc h1 inbox1 h2 inbox2 out2 -> moves rpc h inbox h2 inbox2 (out1 ++ out2).

Lemma check_write_one w c r : w <> [] -> length w <= 4096 -> payz_tester_command_check c w = Ret r -> check_write (length w) c w = Ret r.
Proof.
  intros Hne Hl E. destruct w as [|x w]; [done|]. set (d := x :: w) in *. change (length d) with (S (length w)). cbn [check_write].
  rewrite (take_ge d), (drop_ge d) by done. change (match d with [] => Ret (c, []) | _ :: _ => ?z end) with z. rewrite E. destruct r as [c1 o]. cbn [obind].
  destruct (length w); cbn [check_write obind]; by rewrite app_nil_r.
Qed.

(** A call in C, which is [payz_tester_loop] with [wait_for_response], is a
    sequence of moves: the steps of the two processes leave nothing out. *)
Theorem loop_is_moves rpc k ws : forall c id t out,
  Forall (fun w => w <> [] /\ length w <= 4096) ws ->
  payz_tester_loop (Tester rpc c id None) wait_for_response (map (fun w => REvents (Some w) None) ws) = Ret (t, out) ->
  exists qe rest, t_current t = Some qe /\ t_rpc t = rpc /\
    moves rpc (Harness c id (Waiting k)) ws (Harness (t_command t) (t_id t) (Running (k qe))) rest (texts_of out).
Proof.
  assert (HW : forall c id, (exists t qe, wait_for_response (Tester rpc c id None) = Ret (false, t) /\ t_current t = Some qe /\ t_rpc t = rpc) \/
    wait_for_response (Tester rpc c id None) = Ret (true, Tester rpc c id None) \/ exists m, wait_for_response (Tester rpc c id None) = Abort m).
  { intros c id. unfold wait_for_response. cbn [t_command t_id t_rpc]. destruct (payz_tester_command_get_response c) as [[qe c']|]; [|by right; left].
    destruct (json_scan _ _ _ _) as [[|[|i [|]]]|]; cbn [obind]; try (right; right; by eexists). destruct (negb _); [right; right; by eexists|]. left. by eexists _, qe. }
  induction ws as [|w ws IH]; intros c id t out HF; cbn [map payz_tester_loop]; destruct (HW c id) as [(t1 & qe & E & Eq & Er)|[E|[m E]]]; rewrite E; cbn [obind negb]; try done.
  - intros [= <- <-]. exists qe, []. split_and!; [done..|]. change (texts_of []) with ([] ++ [] : list bytes). eapply moves_next; [|apply moves_done].
    unfold harness_next. cbn [h_control h_command h_id]. rewrite E, Eq. done.
  - intros [= <- <-]. exists qe, (w :: ws). split_and!; [done..|]. change (texts_of []) with ([] ++ [] : list bytes). eapply moves_next; [|apply moves_done].
    unfold harness_next. cbn [h_control h_command h_id]. rewrite E, Eq. done.
  - inv HF. destruct H1 as [Hne Hl]. unfold check_events. cbn [t_command]. destruct (payz_tester_command_check c w) as [[c1 o1]|] eqn:EC; [|done]. cbn [obind].
    unfold set_command. cbn [t_rpc t_id t_current]. destruct (payz_tester_loop _ _ _) as [[t3 o3]|] eqn:EL; [|done]. cbn [obind]. intros [= <- <-].
    destruct (IH c1 id t3 o3 H2 EL) as (qe & rest & Eq & Er & HM). exists qe, rest. split_and!; [done..|].
    unfold texts_of. rewrite omap_app. eapply moves_next; [|exact HM]. unfold harness_next. cbn [h_control h_command h_id]. rewrite E.
    rewrite (check_write_one w c (c1, o1) Hne Hl EC). done.
Qed.
