(* ===== verification/JsonHelpers.v ===== *)
(** common/json_helpers.c with the types it converts: common/node_id.c,
    bitcoin/tx.c, bitcoin/privkey.c, bitcoin/preimage.c, common/channel_id.c, and
    the texts of bitcoin/short_channel_id.c.

    [pubkey_parse] is libsecp256k1's test of a compressed public key. *)
From S2P Require Import Prelude Utf8 Jsmn JsonTree Json JsonOut Wire Tlv Amount.

(** * Texts of channel ids *)

(** The conversion [%u] of [sscanf] into a type of [m] values: what it stores,
    and the rest. *)
Definition scan_uint (m : Z) (s : bytes) : option (Z * bytes) :=
  let '(_, s1) := skip_space s in
  let '(_, neg, s2) := take_sign s1 in
  let '(n, v) := digits 10 0 s2 in
  match n with
  | O => None
  | _ =>
      let l := if (ULLONG_MAX <? v)%Z then ULLONG_MAX else if neg : bool then wrap64 (- v) else v in
      Some ((l mod m)%Z, drop n s2)
  end.

(** The letter between two numbers of the format. *)
Definition scan_x (s : bytes) : option bytes :=
  match s with c :: r => if ch_in c (bs "x") then Some r else None | [] => None end.

Definition short_channel_id_from_str (str : bytes) : option short_channel_id :=
  match scan_uint u32_mod (until_nul str) with
  | None => None
  | Some (blocknum, r1) =>
      match scan_x r1 ≫= scan_uint u32_mod with
      | None => None
      | Some (txnum, r2) =>
          match scan_x r2 ≫= scan_uint 65536 with
          | None => None
          | Some (outnum, _) => mk_short_channel_id blocknum txnum outnum
          end
      end
  end.

(** [memchr]: the offset. *)
Fixpoint memchr (c : ascii) (s : bytes) : option nat :=
  match s with
  | [] => None
  | x :: r => if ch_eqb x c then Some 0 else S <$> memchr c r
  end.

Definition short_channel_id_dir_from_str (str : bytes) : option short_channel_id_dir :=
  match memchr "/"%char str with
  | None => None
  | Some slash =>
      if negb (slash + 2 =? length str) then None
      else
        match short_channel_id_from_str (take slash str), str !! S slash with
        | Some scid, Some d =>
            if ch_in d (bs "0") then Some (ScidDir scid false)
            else if ch_in d (bs "1") then Some (ScidDir scid true)
            else None
        | _, _ => None
        end
  end.

(** * Keys, transactions, secrets *)

Record node_id : Type := NodeId { node_k : bytes }.
Record bitcoin_txid : Type := Txid { txid_bytes : bytes }.
Record bitcoin_outpoint : Type := Outpoint { op_txid : bitcoin_txid; op_n : Z }.
Record channel_id : Type := ChannelId { cid : bytes }.
Record secret : Type := Secret { secret_data : bytes }.

(** [reverse_bytes]: the loop over half of the array. *)
Fixpoint reverse_loop (n i : nat) (arr : bytes) : bytes :=
  match n with
  | O => arr
  | S k =>
      let j := length arr - 1 - i in
      let a := default NUL (arr !! i) in let b := default NUL (arr !! j) in
      reverse_loop k (S i) (<[j := a]> (<[i := b]> arr))
  end.
Definition reverse_bytes (arr : bytes) : bytes := reverse_loop (length arr / 2) 0 arr.

Definition bitcoin_txid_from_hex (hexstr : bytes) : option bitcoin_txid := Txid ∘ reverse_bytes <$> hex_decode hexstr 32.
Definition bitcoin_txid_to_hex (txid : bitcoin_txid) : bytes := hex_encode (reverse_bytes (txid_bytes txid)).

Definition node_id_to_hexstr (id : node_id) : bytes := hex_encode (node_k id).
Definition fromwire_node_id (c : cursor) : node_id * cursor := let '(k, c') := fromwire c 33 in (NodeId k, c').
Definition towire_node_id (id : node_id) : outcome bytes :=
  let k0 := default 0%Z (code <$> head (node_k id)) in
  let! _ := assert_ ((k0 =? 2)%Z || (k0 =? 3)%Z) "towire_node_id: id->k[0]" in
  Ret (towire (node_k id)).

(** The sign of [memcmp]. *)
Fixpoint node_id_cmp_bytes (a b : bytes) : Z :=
  match a, b with
  | x :: r, y :: s => if (code x <? code y)%Z then -1 else if (code y <? code x)%Z then 1 else node_id_cmp_bytes r s
  | _, _ => 0
  end%Z.
Definition node_id_cmp (a b : node_id) : Z := node_id_cmp_bytes (node_k a) (node_k b).

(** The loop accumulates the differences of all 32 bytes. *)
Definition secret_eq_consttime (a b : secret) : bool :=
  (foldl (fun result xy => Z.lor result (Z.lxor (code xy.1) (code xy.2))) 0 (zip (secret_data a) (secret_data b)) =? 0)%Z.

Definition towire_secret (s : secret) : bytes := towire (secret_data s).
Definition fromwire_secret (c : cursor) : secret * cursor := let '(b, c') := fromwire c 32 in (Secret b, c').

(** [id[30] ^= txout >> 8; id[31] ^= txout] *)
Definition derive_channel_id (txid : bitcoin_txid) (txout : Z) : channel_id :=
  let xor_at i v (b : bytes) := <[i := chr (Z.lxor (code (default NUL (b !! i))) v)]> b in
  ChannelId (xor_at 31 (txout mod 256)%Z (xor_at 30 (Z.shiftr txout 8) (txid_bytes txid))).
Definition towire_channel_id (c : channel_id) : bytes := towire (cid c).
Definition fromwire_channel_id (c : cursor) : channel_id * cursor := let '(b, c') := fromwire c 32 in (ChannelId b, c').

(** * Tokens to values *)

(** [strtoul] in base 10: bytes read, value, and whether errno became ERANGE. *)
Definition strtoul10 (s : bytes) : nat * Z * bool :=
  let '(ns, s1) := skip_space s in
  let '(nsign, neg, s2) := take_sign s1 in
  let '(n, v) := digits 10 0 s2 in
  match n with
  | O => (0, 0%Z, false)
  | _ => if (ULLONG_MAX <? v)%Z then (ns + nsign + n, ULLONG_MAX, true) else (ns + nsign + n, if neg : bool then wrap64 (- v) else v, false)
  end.

(** [json_to_bitcoin_amount]; [erange] as for [json_to_u64].  The comparison at
    the end is of a value with itself. *)
Definition json_to_bitcoin_amount (erange : bool) (buffer : bytes) (tok : list jsmntok) : option Z :=
  let t := cur tok in
  let '(n, btc, e) := strtoul10 (drop (Z.to_nat (tstart t)) buffer) in
  if (btc =? ULLONG_MAX)%Z && (e || erange) then None
  else
    let e1 := (tstart t + Z.of_nat n)%Z in
    let finish (sat : Z) := Some (wrap64 (btc * 100000000 + sat)) in
    if negb (e1 =? tend t)%Z then
      if negb (match buffer !! Z.to_nat e1 with Some c => ch_in c (bs ".") | None => false end) || negb (tend t - e1 =? 9)%Z then None
      else
        let '(n2, sat, er2) := strtoul10 (drop (Z.to_nat (e1 + 1)) buffer) in
        if (sat =? ULLONG_MAX)%Z && (er2 || e || erange) then None
        else if negb (e1 + 1 + Z.of_nat n2 =? tend t)%Z then
          (* no number: [end] stays at its start *)
          None
        else finish sat
    else finish 0%Z.

Definition json_to_msat (buffer : bytes) (tok : list jsmntok) : outcome (option amount_msat) := parse_amount_msat (tok_text buffer (cur tok)).
Definition json_to_sat (buffer : bytes) (tok : list jsmntok) : outcome (option amount_sat) := parse_amount_sat (tok_text buffer (cur tok)).
Definition json_to_sat_or_all (buffer : bytes) (tok : list jsmntok) : outcome (option amount_sat) :=
  if json_tok_streq buffer tok (bs "all") then Ret (Some (Sat ULLONG_MAX)) else json_to_sat buffer tok.
Definition json_to_short_channel_id (buffer : bytes) (tok : list jsmntok) : option short_channel_id :=
  short_channel_id_from_str (tok_text buffer (cur tok)).
Definition json_to_txid (buffer : bytes) (tok : list jsmntok) : option bitcoin_txid := bitcoin_txid_from_hex (tok_text buffer (cur tok)).

(** [split_tok]: two tokens on the two sides of a character. *)
Definition split_tok (buffer : bytes) (tok : jsmntok) (split : ascii) : option (jsmntok * jsmntok) :=
  match memchr split (tok_text buffer tok) with
  | None => None
  | Some p =>
      let at_ := (tstart tok + Z.of_nat p)%Z in
      Some (Tok (ttype tok) (tstart tok) at_ (tsize tok), Tok (ttype tok) (at_ + 1) (tend tok) (tsize tok))
  end.

Definition json_to_outpoint (buffer : bytes) (tok : list jsmntok) : option bitcoin_outpoint :=
  match split_tok buffer (cur tok) ":"%char with
  | None => None
  | Some (t1, t2) =>
      match json_to_txid buffer [t1] with
      | None => None
      | Some txid => Outpoint txid <$> json_to_u32 buffer [t2]
      end
  end.

Definition json_to_channel_id (buffer : bytes) (tok : list jsmntok) : option channel_id := ChannelId <$> hex_decode (tok_text buffer (cur tok)) 32.
Definition json_to_secret (buffer : bytes) (tok : list jsmntok) : option secret := Secret <$> hex_decode (tok_text buffer (cur tok)) 32.
Definition json_to_preimage (buffer : bytes) (tok : list jsmntok) : option bytes := hex_decode (tok_text buffer (cur tok)) 32.

Section Keys.
Variable pubkey_parse : bytes -> bool.

(** [node_id_valid], through [pubkey_from_node_id]. *)
Definition node_id_valid (id : node_id) : bool := pubkey_parse (node_k id).

Definition node_id_from_hexstr (str : bytes) : option node_id :=
  match hex_decode str 33 with
  | None => None
  | Some k => if node_id_valid (NodeId k) then Some (NodeId k) else None
  end.

Definition json_to_node_id (buffer : bytes) (tok : list jsmntok) : option node_id := node_id_from_hexstr (tok_text buffer (cur tok)).
End Keys.

(** * Values to JSON *)

Definition json_add_node_id (js : json_out) (f : option bytes) (id : node_id) : json_out := json_add_hex js f (node_k id).
Definition json_add_channel_id (js : json_out) (f : option bytes) (c : channel_id) : json_out := json_add_hex js f (cid c).
Definition json_add_txid (js : json_out) (f : option bytes) (txid : bitcoin_txid) : json_out := json_add_string js f (bitcoin_txid_to_hex txid).

(** [%d] of an unsigned number of 32 bits. *)
Definition fmt_u32_as_d (z : Z) : bytes := fmt_d (if (z <? 2147483648)%Z then z else z - u32_mod).

Definition json_add_outpoint (js : json_out) (f : option bytes) (out : bitcoin_outpoint) : json_out :=
  json_add_member js f true (bitcoin_txid_to_hex (op_txid out) ++ bs ":" ++ fmt_u32_as_d (op_n out)).
Definition json_add_short_channel_id (js : json_out) (f : option bytes) (scid : short_channel_id) : json_out :=
  json_add_member js f true (short_channel_id_to_str scid).
Definition json_add_short_channel_id_dir (js : json_out) (f : option bytes) (scidd : short_channel_id_dir) : json_out :=
  json_add_member js f true (short_channel_id_dir_to_str scidd).
Definition json_add_amount_msat_only (js : json_out) (f : option bytes) (msat : amount_msat) : json_out := json_add_string js f (fmt_amount_msat msat).
Definition json_add_amount_msat_compat (js : json_out) (msat : amount_msat) (raw msatfield : option bytes) : json_out :=
  json_add_amount_msat_only (json_add_u64 js raw (millisatoshis msat)) msatfield msat.
Definition json_add_amount_sat_only (js : json_out) (f : option bytes) (sat : amount_sat) : json_out :=
  match amount_sat_to_msat sat with Some msat => json_add_string js f (fmt_amount_msat msat) | None => js end.
Definition json_add_amount_sat_compat (js : json_out) (sat : amount_sat) (raw msatfield : option bytes) : json_out :=
  json_add_amount_sat_only (json_add_u64 js raw (satoshis sat)) msatfield sat.
Definition json_add_secret (js : json_out) (f : option bytes) (s : secret) : json_out := json_add_hex js f (secret_data s).
Definition json_add_sha256 (js : json_out) (f : option bytes) (h : sha256) : json_out := json_add_hex js f (sha256_bytes h).
Definition json_add_preimage (js : json_out) (f : option bytes) (r : bytes) : json_out := json_add_hex js f r.
