(* ===== verification/LibpluginParse.v ===== *)
(** plugins/libplugin.c: the parsers of replies to listpeers, createonion and
    getroute, and the functions that pass a reply on or report progress.

    The results of the conversions inside a reply are not checked: a field whose
    conversion fails keeps what the memory had, here [None]. *)
From S2P Require Import Prelude Utf8 Jsmn JsonTree Json JsonOut Libplugin Wire Tlv Amount JsonHelpers.

(** * Replies of other commands *)

(** [None]: the field is not set. *)
Record listpeers_channel : Type := Channel {
  ch_private : option bool; ch_state : bytes; ch_funding_txid : option bitcoin_txid;
  ch_scid : option (option short_channel_id); ch_direction : option (option Z);
  ch_total_msat : option amount_msat; ch_spendable_msat : option amount_msat }.

Record listpeers_peer : Type := Peer {
  pe_id : option node_id; pe_connected : option bool; pe_netaddr : list bytes; pe_channels : list listpeers_channel }.

Record createonion_response : Type := Onion { on_onion : option bytes; on_secrets : list (option secret) }.

Inductive route_hop_style : Type := ROUTE_HOP_LEGACY | ROUTE_HOP_TLV.

Record route_hop : Type := Hop {
  hop_scid : option short_channel_id; hop_direction : option Z; hop_node_id : option node_id;
  hop_amount : option amount_msat; hop_delay : option Z; hop_style : route_hop_style }.

(** A token that is there and has a type; one that has it if it is there. *)
Definition has_type (t : option (list jsmntok)) (ty : jsmntype) : bool := match t with Some t => type_eqb (ttype (cur t)) ty | None => false end.
Definition may_have (t : option (list jsmntok)) (ty : jsmntype) : bool := match t with Some t => type_eqb (ttype (cur t)) ty | None => true end.

Section Parsers.
Variable pubkey_parse : bytes -> bool.
Variable buffer : bytes.

(** [Ret None] is NULL. *)
Definition json_to_listpeers_channel (tok : list jsmntok) : outcome (option listpeers_channel) :=
  let get name := json_get_member buffer tok (bs name) in
  let privtok := get "private" in let statetok := get "state" in let ftxidtok := get "funding_txid" in
  let scidtok := get "short_channel_id" in let dirtok := get "direction" in
  let tmsattok := get "total_msat" in let smsattok := get "spendable_msat" in
  match privtok, statetok, ftxidtok, tmsattok, smsattok with
  | Some priv, Some state, Some ftxid, Some tmsat, Some smsat =>
      if negb (has_type privtok JSMN_PRIMITIVE && has_type statetok JSMN_STRING && has_type ftxidtok JSMN_STRING
               && may_have scidtok JSMN_STRING && may_have dirtok JSMN_PRIMITIVE && has_type tmsattok JSMN_STRING && has_type smsattok JSMN_STRING)
      then Ret None
      else
        let! (scid, direction) :=
          match scidtok, dirtok with
          | Some s, Some d => Ret (Some (json_to_short_channel_id buffer s), Some (json_to_int buffer d))
          | Some _, None => Abort "assert(dirtok != NULL)"
          | None, Some _ => Abort "assert(dirtok == NULL)"
          | None, None => Ret (None, None)
          end in
        let! total := json_to_msat buffer tmsat in
        let! spendable := json_to_msat buffer smsat in
        Ret (Some (Channel (json_to_bool buffer priv) (json_strdup buffer state) (json_to_txid buffer ftxid) scid direction total spendable))
  | _, _, _, _, _ => Ret None
  end.

(** The loop over the channels, with its assertion. *)
Fixpoint channels_loop (toks : list (list jsmntok)) : outcome (list listpeers_channel) :=
  match toks with
  | [] => Ret []
  | t :: r =>
      let! c := json_to_listpeers_channel t in
      match c with
      | None => Abort "assert(chan != NULL)"
      | Some c => let! l := channels_loop r in Ret (c :: l)
      end
  end.

Definition json_to_listpeers_peer (tok : list jsmntok) : outcome (option listpeers_peer) :=
  let get name := json_get_member buffer tok (bs name) in
  let idtok := get "id" in let conntok := get "connected" in let netaddrtok := get "netaddr" in let channelstok := get "channels" in
  match idtok, conntok, channelstok with
  | Some id, Some conn, Some chans =>
      if negb (has_type idtok JSMN_STRING && has_type conntok JSMN_PRIMITIVE && may_have netaddrtok JSMN_ARRAY && has_type channelstok JSMN_ARRAY)
      then Ret None
      else
        let netaddr := match netaddrtok with Some n => map (json_strdup buffer) (json_for_each_arr n) | None => [] end in
        let! channels := channels_loop (json_for_each_arr chans) in
        Ret (Some (Peer (json_to_node_id pubkey_parse buffer id) (json_to_bool buffer conn) netaddr channels))
  | _, _, _ => Ret None
  end.

Fixpoint peers_loop (toks : list (list jsmntok)) : outcome (option (list listpeers_peer)) :=
  match toks with
  | [] => Ret (Some [])
  | t :: r =>
      let! p := json_to_listpeers_peer t in
      match p with
      | None => Ret None
      | Some p => let! l := peers_loop r in Ret (cons p <$> l)
      end
  end.

(** The peers are an array; the loop is that for the members of an object. *)
Definition json_to_listpeers_result (toks : list jsmntok) : outcome (option (list listpeers_peer)) :=
  match json_get_member buffer toks (bs "peers") with
  | None => Ret None
  | Some peerstok =>
      if negb (type_eqb (ttype (cur peerstok)) JSMN_ARRAY) then Ret None else peers_loop (json_for_each_obj peerstok)
  end.

Definition json_to_createonion_response (toks : list jsmntok) : option createonion_response :=
  match json_get_member buffer toks (bs "onion"), json_get_member buffer toks (bs "shared_secrets") with
  | Some oniontok, Some secretstok =>
      if negb (type_eqb (ttype (cur oniontok)) JSMN_STRING) then None
      else if negb (forallb (fun t => type_eqb (ttype (cur t)) JSMN_STRING) (json_for_each_arr secretstok)) then None
      else Some (Onion (json_tok_bin_from_hex buffer oniontok) (map (json_to_secret buffer) (json_for_each_arr secretstok)))
  | _, _ => None
  end.

Definition json_to_route_hop_inplace (toks : list jsmntok) : outcome (option route_hop) :=
  let get name := json_get_member buffer toks (bs name) in
  match get "id", get "channel", get "direction", get "amount_msat", get "delay", get "style" with
  | Some id, Some channel, Some direction, Some amount, Some delay, Some style =>
      let! amt := json_to_msat buffer amount in
      Ret (Some (Hop (json_to_short_channel_id buffer channel) (json_to_int buffer direction) (json_to_node_id pubkey_parse buffer id) amt
                   (json_to_number buffer delay) (if json_tok_streq buffer style (bs "legacy") then ROUTE_HOP_LEGACY else ROUTE_HOP_TLV)))
  | _, _, _, _, _, _ => Ret None
  end.

Fixpoint hops_loop (toks : list (list jsmntok)) : outcome (option (list route_hop)) :=
  match toks with
  | [] => Ret (Some [])
  | t :: r =>
      let! h := json_to_route_hop_inplace t in
      match h with
      | None => Ret None
      | Some h => let! l := hops_loop r in Ret (cons h <$> l)
      end
  end.

Definition json_to_route (toks : list jsmntok) : outcome (option (list route_hop)) :=
  if negb (type_eqb (ttype (cur toks)) JSMN_ARRAY) then Ret None else hops_loop (json_for_each_arr toks).
End Parsers.

(** * Other replies *)

Definition jsonrpc_stream_fail (id code : Z) (err : bytes) : json_out :=
  let js := json_object_start (jsonrpc_stream_start id) (Some (bs "error")) in
  let js := json_add_member js (Some (bs "code")) false (fmt_d code) in
  json_add_string js (Some (bs "message")) err.

Definition jsonrpc_stream_fail_data (id code : Z) (err : bytes) : json_out :=
  json_object_start (jsonrpc_stream_fail id code err) (Some (bs "data")).

(** [command_done_raw]: the text is copied as it is. *)
Definition command_done_raw (id : Z) (label str : bytes) : outcome event :=
  command_complete (json_out_member_direct (jsonrpc_stream_start id) (Some label) str).

Definition command_err_raw (id : Z) (json_str : bytes) : outcome event := command_done_raw id (bs "error") json_str.
Definition forward_error (id : Z) (buf : bytes) (error : list jsmntok) : outcome event := command_done_raw id (bs "error") (tok_text buf (cur error)).
Definition forward_result (id : Z) (buf : bytes) (result : list jsmntok) : outcome event := command_done_raw id (bs "result") (tok_text buf (cur result)).

Definition command_hook_success (id : Z) : outcome event :=
  command_finished (json_add_string (jsonrpc_stream_success id) (Some (bs "result")) (bs "continue")).

(** [in_timer] *)
Definition timer_complete (in_timer : nat) : outcome nat :=
  let! _ := assert_ (0 <? in_timer) "timer_complete: in_timer" in Ret (in_timer - 1).

(** ** Notifications about a command *)

Definition plugin_notify_start (id : Z) (method : bytes) : json_out :=
  let js := json_object_start new_json_stream None in
  let js := json_add_string js (Some (bs "jsonrpc")) (bs "2.0") in
  let js := json_add_string js (Some (bs "method")) method in
  let js := json_object_start js (Some (bs "params")) in
  json_add_u64 js (Some (bs "id")) id.

Definition plugin_notify_end (js : json_out) : outcome event := jsonrpc_finish_and_send (json_object_end js).

(** [log_level_name] *)
Definition log_level_name (l : log_level) : bytes :=
  match l with
  | LOG_IO_OUT | LOG_IO_IN => bs "io"
  | LOG_DBG => bs "debug"
  | LOG_INFORM => bs "info"
  | LOG_UNUSUAL => bs "unusual"
  | LOG_BROKEN => bs "broken"
  end.

Definition plugin_notify_message (id : Z) (level : log_level) (msg : bytes) : outcome (list event) :=
  let js := plugin_notify_start id (bs "message") in
  let js := json_add_string js (Some (bs "level")) (log_level_name level) in
  let js := json_out_addstr js (Some (bs "message")) msg in
  let! ev := plugin_notify_end js in
  Ret [Logged LOG_DBG (bs "notify msg " ++ log_level_name level ++ bs ": " ++ msg); ev].

Definition plugin_notify_progress (id num_stages stage num_progress progress : Z) : outcome event :=
  let js := plugin_notify_start id (bs "progress") in
  let! _ := assert_ (progress <? num_progress)%Z "plugin_notify_progress: progress" in
  let js := json_add_u32 js (Some (bs "num")) progress in
  let js := json_add_u32 js (Some (bs "total")) num_progress in
  let! js :=
    if (0 <? num_stages)%Z then
      let! _ := assert_ (stage <? num_stages)%Z "plugin_notify_progress: stage" in
      let js := json_object_start js (Some (bs "stage")) in
      let js := json_add_u32 js (Some (bs "num")) stage in
      let js := json_add_u32 js (Some (bs "total")) num_stages in
      Ret (json_object_end js)
    else Ret js in
  plugin_notify_end js.

(** * Levels *)

(** [log_level_parse], with [strncasecmp]. *)
Definition tolower (c : ascii) : ascii := if (65 <=? code c)%Z && (code c <=? 90)%Z then chr (code c + 32) else c.
Definition streq_case (str s : bytes) : bool := bool_decide (map tolower str = map tolower s).

Definition log_level_parse (levelstr : bytes) : option log_level :=
  match List.find (fun l => streq_case (log_level_name l) levelstr) [LOG_IO_OUT; LOG_IO_IN; LOG_DBG; LOG_INFORM; LOG_UNUSUAL; LOG_BROKEN] with
  | Some l => Some l
  | None =>
      if streq_case (bs "error") levelstr then Some LOG_BROKEN
      else if streq_case (bs "warn") levelstr then Some LOG_UNUSUAL
      else None
  end.
