(* ===== verification/GossipStore.v ===== *)
(** gossipd/gossip_store_wiregen.c and common/gossip_store.h: the records of the
    gossip store.

    A message that does not parse is [None]; what the C code leaves in its result
    variables then is not read by anybody. *)
From S2P Require Import Prelude Utf8 Jsmn JsonTree Json Wire Tlv TlvProofs JsonOut Amount AmountTheorems.
From S2P Require Import JsonHelpers.

(** * The header of a record *)

Definition GOSSIP_STORE_VERSION : Z := 9.
Definition GOSSIP_STORE_LEN_DELETED_BIT : Z := 2147483648.
Definition GOSSIP_STORE_LEN_PUSH_BIT : Z := 1073741824.
Definition GOSSIP_STORE_LEN_MASK : Z := u32_mod - 1 - Z.lor GOSSIP_STORE_LEN_PUSH_BIT GOSSIP_STORE_LEN_DELETED_BIT.
(** [sizeof(struct gossip_hdr)] *)
Definition HDR : Z := 12.

Record gossip_hdr : Type := GossipHdr { h_len : Z; h_crc : Z; h_timestamp : Z }.

(** * Messages *)

Inductive gossip_store_wire : Type :=
| WIRE_GOSSIP_STORE_CHANNEL_AMOUNT
| WIRE_GOSSIP_STORE_PRIVATE_CHANNEL
| WIRE_GOSSIP_STORE_PRIVATE_UPDATE
| WIRE_GOSSIP_STORE_DELETE_CHAN
| WIRE_GOSSIP_STORE_ENDED
| WIRE_GOSSIPD_LOCAL_ADD_CHANNEL_OBS.

Definition wire_number (w : gossip_store_wire) : Z :=
  match w with
  | WIRE_GOSSIP_STORE_CHANNEL_AMOUNT => 4101
  | WIRE_GOSSIP_STORE_PRIVATE_CHANNEL => 4104
  | WIRE_GOSSIP_STORE_PRIVATE_UPDATE => 4102
  | WIRE_GOSSIP_STORE_DELETE_CHAN => 4103
  | WIRE_GOSSIP_STORE_ENDED => 4105
  | WIRE_GOSSIPD_LOCAL_ADD_CHANNEL_OBS => 3503
  end.

Definition all_wires : list gossip_store_wire :=
  [WIRE_GOSSIP_STORE_CHANNEL_AMOUNT; WIRE_GOSSIP_STORE_PRIVATE_CHANNEL; WIRE_GOSSIP_STORE_PRIVATE_UPDATE; WIRE_GOSSIP_STORE_DELETE_CHAN; WIRE_GOSSIP_STORE_ENDED; WIRE_GOSSIPD_LOCAL_ADD_CHANNEL_OBS].

Definition wire_of (e : Z) : option gossip_store_wire := List.find (fun w => (wire_number w =? e)%Z) all_wires.

Definition gossip_store_wire_name (e : Z) : bytes :=
  match wire_of e with
  | Some WIRE_GOSSIP_STORE_CHANNEL_AMOUNT => bs "WIRE_GOSSIP_STORE_CHANNEL_AMOUNT"
  | Some WIRE_GOSSIP_STORE_PRIVATE_CHANNEL => bs "WIRE_GOSSIP_STORE_PRIVATE_CHANNEL"
  | Some WIRE_GOSSIP_STORE_PRIVATE_UPDATE => bs "WIRE_GOSSIP_STORE_PRIVATE_UPDATE"
  | Some WIRE_GOSSIP_STORE_DELETE_CHAN => bs "WIRE_GOSSIP_STORE_DELETE_CHAN"
  | Some WIRE_GOSSIP_STORE_ENDED => bs "WIRE_GOSSIP_STORE_ENDED"
  | Some WIRE_GOSSIPD_LOCAL_ADD_CHANNEL_OBS => bs "WIRE_GOSSIPD_LOCAL_ADD_CHANNEL_OBS"
  | None => bs "INVALID " ++ fmt_d e
  end.

Definition gossip_store_wire_is_defined (type : Z) : bool := match wire_of type with Some _ => true | None => false end.

(** The type and the rest; [None] for another type. *)
Definition expect (w : gossip_store_wire) (p : bytes) : option cursor :=
  let '(t, c) := fromwire_u16 (Some p) in if (t =? wire_number w)%Z then Some c else None.

(** [return cursor != NULL] *)
Definition unless_failed {A : Type} (c : cursor) (a : A) : option A := match c with Some _ => Some a | None => None end.

(** An array with its length in front; its length is cut to 16 bits. *)
Definition towire_len_array (a : bytes) : bytes :=
  let len := (len a mod 65536)%Z in towire_u16 len ++ towire_u8_array (take (Z.to_nat len) a).

(** [len ? tal_arr : NULL] and the bytes. *)
Definition fromwire_len_array (c : cursor) : bytes * cursor :=
  let '(len, c) := fromwire_u16 c in fromwire_u8_array c (Z.to_nat len).

Definition towire_gossip_store_channel_amount (satoshis : amount_sat) : bytes :=
  towire_u16 (wire_number WIRE_GOSSIP_STORE_CHANNEL_AMOUNT) ++ towire_amount_sat satoshis.
Definition fromwire_gossip_store_channel_amount (p : bytes) : option amount_sat :=
  match expect WIRE_GOSSIP_STORE_CHANNEL_AMOUNT p with
  | None => None
  | Some c => let '(satoshis, c) := fromwire_amount_sat c in unless_failed c satoshis
  end.

Definition towire_gossip_store_private_channel (satoshis : amount_sat) (announcement : bytes) : bytes :=
  towire_u16 (wire_number WIRE_GOSSIP_STORE_PRIVATE_CHANNEL) ++ towire_amount_sat satoshis ++ towire_len_array announcement.
Definition fromwire_gossip_store_private_channel (p : bytes) : option (amount_sat * bytes) :=
  match expect WIRE_GOSSIP_STORE_PRIVATE_CHANNEL p with
  | None => None
  | Some c => let '(satoshis, c) := fromwire_amount_sat c in let '(a, c) := fromwire_len_array c in unless_failed c (satoshis, a)
  end.

Definition towire_gossip_store_private_update (update : bytes) : bytes :=
  towire_u16 (wire_number WIRE_GOSSIP_STORE_PRIVATE_UPDATE) ++ towire_len_array update.
Definition fromwire_gossip_store_private_update (p : bytes) : option bytes :=
  match expect WIRE_GOSSIP_STORE_PRIVATE_UPDATE p with
  | None => None
  | Some c => let '(a, c) := fromwire_len_array c in unless_failed c a
  end.

Definition towire_gossip_store_delete_chan (scid : short_channel_id) : bytes :=
  towire_u16 (wire_number WIRE_GOSSIP_STORE_DELETE_CHAN) ++ towire_short_channel_id scid.
Definition fromwire_gossip_store_delete_chan (p : bytes) : option short_channel_id :=
  match expect WIRE_GOSSIP_STORE_DELETE_CHAN p with
  | None => None
  | Some c => let '(scid, c) := fromwire_short_channel_id c in unless_failed c scid
  end.

Definition towire_gossip_store_ended (equivalent_offset : Z) : bytes :=
  towire_u16 (wire_number WIRE_GOSSIP_STORE_ENDED) ++ towire_u64 equivalent_offset.
Definition fromwire_gossip_store_ended (p : bytes) : option Z :=
  match expect WIRE_GOSSIP_STORE_ENDED p with
  | None => None
  | Some c => let '(o, c) := fromwire_u64 c in unless_failed c o
  end.

Definition towire_gossipd_local_add_channel_obs (scid : short_channel_id) (remote : node_id) (satoshis : amount_sat) (features : bytes) : outcome bytes :=
  let! id := towire_node_id remote in
  Ret (towire_u16 (wire_number WIRE_GOSSIPD_LOCAL_ADD_CHANNEL_OBS) ++ towire_short_channel_id scid ++ id ++ towire_amount_sat satoshis ++ towire_len_array features).
Definition fromwire_gossipd_local_add_channel_obs (p : bytes) : option (short_channel_id * node_id * amount_sat * bytes) :=
  match expect WIRE_GOSSIPD_LOCAL_ADD_CHANNEL_OBS p with
  | None => None
  | Some c =>
      let '(scid, c) := fromwire_short_channel_id c in
      let '(id, c) := fromwire_node_id c in
      let '(satoshis, c) := fromwire_amount_sat c in
      let '(a, c) := fromwire_len_array c in
      unless_failed c (scid, id, satoshis, a)
  end.

(** * Messages read back

    The messages of the gossip store read back what was written. *)

Lemma expect_own w rest : expect w (towire_u16 (wire_number w) ++ rest) = Some (Some rest).
Proof.
  unfold expect. assert (Hr : (0 <= wire_number w < 65536)%Z) by (destruct w; cbn; lia).
  pose proof (wire_roundtrip (U16 (wire_number w)) rest Hr) as E. cbn [to_wire from_wire wire_u16 u16_val] in E.
  destruct (fromwire_u16 _) as [v c]. injection E as -> ->. by rewrite Z.eqb_refl.
Qed.

(** Another message is not taken for this one. *)
Lemma expect_other w w' rest : w <> w' -> expect w (towire_u16 (wire_number w') ++ rest) = None.
Proof.
  intros Hne. unfold expect. assert (Hr : (0 <= wire_number w' < 65536)%Z) by (destruct w'; cbn; lia).
  pose proof (wire_roundtrip (U16 (wire_number w')) rest Hr) as E. cbn [to_wire from_wire wire_u16 u16_val] in E.
  destruct (fromwire_u16 _) as [v c]. injection E as -> ->. by destruct w, w'.
Qed.

Lemma len_array_roundtrip a rest : (len a < 65536)%Z -> fromwire_len_array (Some (towire_len_array a ++ rest)) = (a, Some rest).
Proof.
  intros Hl. unfold towire_len_array, fromwire_len_array. assert (Hr : (0 <= len a < 65536)%Z) by (unfold len in *; lia). rewrite Z.mod_small by done.
  pose proof (wire_roundtrip (U16 (len a)) (towire_u8_array (take (Z.to_nat (len a)) a) ++ rest) Hr) as E. cbn [to_wire from_wire wire_u16 u16_val] in E. rewrite <- app_assoc.
  destruct (fromwire_u16 _) as [v c]. injection E as -> ->. unfold len. rewrite Nat2Z.id, firstn_all. unfold fromwire_u8_array, fromwire, towire_u8_array, towire.
  rewrite length_app, (proj2 (Nat.ltb_ge _ _)) by lia. by rewrite take_app_length, drop_app_length.
Qed.

Lemma sat_roundtrip x rest : wire_ok x -> fromwire_amount_sat (Some (towire_amount_sat x ++ rest)) = (x, Some rest).
Proof. intros H. exact (wire_roundtrip x rest H). Qed.

Lemma scid_roundtrip x rest : wire_ok x -> fromwire_short_channel_id (Some (towire_short_channel_id x ++ rest)) = (x, Some rest).
Proof. intros H. exact (wire_roundtrip x rest H). Qed.

Lemma node_id_roundtrip id b rest : length (node_k id) = 33 -> towire_node_id id = Ret b -> fromwire_node_id (Some (b ++ rest)) = (id, Some rest).
Proof.
  intros Hl. unfold towire_node_id. destruct (assert_ _ _); [|done]. cbn [obind]. intros [= <-]. unfold fromwire_node_id, fromwire, towire.
  rewrite length_app, Hl. cbn [Nat.ltb Nat.leb Nat.add]. rewrite <- Hl, take_app_length, drop_app_length. by destruct id.
Qed.

(** Every message of the gossip store is read back as it was written, and a
    reader refuses the messages of the other kinds: amounts and short channel ids
    of 64 bits, announcements, updates and features shorter than 65536 bytes, node
    identifiers of 33 bytes with a valid tag. *)
Theorem gossip_store_roundtrip sat scid off msg id b : wire_ok sat -> wire_ok scid -> (0 <= off < u64_mod)%Z -> (len msg < 65536)%Z ->
  length (node_k id) = 33 -> towire_gossipd_local_add_channel_obs scid id sat msg = Ret b ->
  fromwire_gossip_store_channel_amount (towire_gossip_store_channel_amount sat) = Some sat /\
  fromwire_gossip_store_private_channel (towire_gossip_store_private_channel sat msg) = Some (sat, msg) /\
  fromwire_gossip_store_private_update (towire_gossip_store_private_update msg) = Some msg /\
  fromwire_gossip_store_delete_chan (towire_gossip_store_delete_chan scid) = Some scid /\
  fromwire_gossip_store_ended (towire_gossip_store_ended off) = Some off /\
  fromwire_gossipd_local_add_channel_obs b = Some (scid, id, sat, msg) /\
  fromwire_gossip_store_channel_amount b = None /\ fromwire_gossip_store_delete_chan (towire_gossip_store_ended off) = None /\
  fromwire_gossip_store_private_update (towire_gossip_store_private_channel sat msg) = None.
Proof.
  intros Hsat Hscid Hoff Hmsg Hid Hb. pose proof (sat_roundtrip sat) as Rs. pose proof (scid_roundtrip scid) as Rc. pose proof (len_array_roundtrip msg) as Rl.
  unfold towire_gossipd_local_add_channel_obs in Hb. destruct (towire_node_id id) as [i|] eqn:Hi; [|done]. cbn [obind] in Hb. match type of Hb with Ret ?x = _ => assert (b = x) as -> by congruence end.
  pose proof (wire_roundtrip (U64 off) [] Hoff) as Ro. cbn [to_wire from_wire wire_u64 u64_val] in Ro.
  split_and!.
  - unfold fromwire_gossip_store_channel_amount, towire_gossip_store_channel_amount. rewrite expect_own. rewrite <- (app_nil_r (towire_amount_sat sat)), Rs by done. done.
  - unfold fromwire_gossip_store_private_channel, towire_gossip_store_private_channel. rewrite expect_own, Rs by done. rewrite <- (app_nil_r (towire_len_array msg)), Rl by done. done.
  - unfold fromwire_gossip_store_private_update, towire_gossip_store_private_update. rewrite expect_own. rewrite <- (app_nil_r (towire_len_array msg)), Rl by done. done.
  - unfold fromwire_gossip_store_delete_chan, towire_gossip_store_delete_chan. rewrite expect_own. rewrite <- (app_nil_r (towire_short_channel_id scid)), Rc by done. done.
  - unfold fromwire_gossip_store_ended, towire_gossip_store_ended. rewrite expect_own. rewrite <- (app_nil_r (towire_u64 off)). destruct (fromwire_u64 _) as [v c]. by injection Ro as -> ->.
  - unfold fromwire_gossipd_local_add_channel_obs. rewrite expect_own, Rc by done. rewrite (node_id_roundtrip id i) by done. rewrite Rs by done. rewrite <- (app_nil_r (towire_len_array msg)), Rl by done. done.
  - unfold fromwire_gossip_store_channel_amount. by rewrite expect_other.
  - unfold fromwire_gossip_store_delete_chan, towire_gossip_store_ended. by rewrite expect_other.
  - unfold fromwire_gossip_store_private_update, towire_gossip_store_private_channel. by rewrite expect_other.
Qed.

Lemma gossip_store_roundtrip_witness : exists b,
  towire_gossipd_local_add_channel_obs (Scid 7) (NodeId (replicate 33 (ascii_of_nat 2))) (Sat 5) (bs "x") = Ret b /\
  fromwire_gossipd_local_add_channel_obs b = Some (Scid 7, NodeId (replicate 33 (ascii_of_nat 2)), Sat 5, bs "x").
Proof.
  eexists. split; [vm_compute; reflexivity|].
  apply (gossip_store_roundtrip (Sat 5) (Scid 7) 0 (bs "x") (NodeId (replicate 33 (ascii_of_nat 2)))); try (vm_compute; split; congruence); vm_compute; reflexivity.
Defined.
