(* ===== verification/Gossmap.v ===== *)
(** common/gossmap.c: the map of the network, read from the gossip store.

    Nodes and channels are known by their index.  A hash table of indices is the
    list of those it holds; looking up a key is the search for an index whose key,
    computed from the map, is equal.  The array of a node's channels has its
    length as [num_chans]; a NULL array is [None].  The file is the list of its
    bytes, which [mmap] or [pread] read. *)
From S2P Require Import Prelude Utf8 Jsmn JsonTree Json JsonOut Wire Tlv Amount JsonHelpers Features GossipStore.

Definition WIRE_CHANNEL_ANNOUNCEMENT : Z := 256.
Definition WIRE_NODE_ANNOUNCEMENT : Z := 257.
Definition WIRE_CHANNEL_UPDATE : Z := 258.
Definition UINT_MAX : Z := u32_mod - 1.
Definition PUBKEY_CMPR_LEN : Z := 33.

Record gossmap_node : Type := GNode { nann_off : Z; chan_idxs : option (list nat) }.
Definition num_chans (n : gossmap_node) : nat := length (default [] (chan_idxs n)).

Record half_chan : Type := Half {
  hc_enabled : bool; hc_nodeidx : nat; hc_htlc_min : Z; hc_htlc_max : Z; hc_base_fee : Z; hc_proportional_fee : Z; hc_delay : Z }.

(** An array of two, by direction. *)
Record two (A : Type) : Type := Two { at0 : A; at1 : A }.
Arguments Two {A}.
Arguments at0 {A}.
Arguments at1 {A}.
Definition sel {A : Type} (d : bool) (t : two A) : A := if d then at1 t else at0 t.
Definition upd {A : Type} (d : bool) (a : A) (t : two A) : two A := if d then Two (at0 t) a else Two a (at1 t).

Record gossmap_chan : Type := GChan { cann_off : Z; private_ : bool; plus_scid_off : Z; cupdate_off : two Z; half : two half_chan }.

(** [memset(chan->half, 0, ...)] *)
Definition half_zero : half_chan := Half false 0 0 0 0 0 0.

Record gossmap : Type := Gossmap {
  g_mmap : bytes; g_map_end : Z; g_nodes : list nat; g_channels : list nat;
  g_node_arr : list gossmap_node; g_chan_arr : list gossmap_chan; g_freed_nodes : Z; g_freed_chans : Z; g_local : option bytes }.

Definition g_map_size (m : gossmap) : Z := len (g_mmap m).

Definition set_map_end (v : Z) (m : gossmap) : gossmap := Gossmap (g_mmap m) v (g_nodes m) (g_channels m) (g_node_arr m) (g_chan_arr m) (g_freed_nodes m) (g_freed_chans m) (g_local m).
Definition set_mmap (v : bytes) (m : gossmap) : gossmap := Gossmap v (g_map_end m) (g_nodes m) (g_channels m) (g_node_arr m) (g_chan_arr m) (g_freed_nodes m) (g_freed_chans m) (g_local m).
Definition set_nodes (v : list nat) (m : gossmap) : gossmap := Gossmap (g_mmap m) (g_map_end m) v (g_channels m) (g_node_arr m) (g_chan_arr m) (g_freed_nodes m) (g_freed_chans m) (g_local m).
Definition set_channels (v : list nat) (m : gossmap) : gossmap := Gossmap (g_mmap m) (g_map_end m) (g_nodes m) v (g_node_arr m) (g_chan_arr m) (g_freed_nodes m) (g_freed_chans m) (g_local m).
Definition set_node_arr (v : list gossmap_node) (m : gossmap) : gossmap := Gossmap (g_mmap m) (g_map_end m) (g_nodes m) (g_channels m) v (g_chan_arr m) (g_freed_nodes m) (g_freed_chans m) (g_local m).
Definition set_chan_arr (v : list gossmap_chan) (m : gossmap) : gossmap := Gossmap (g_mmap m) (g_map_end m) (g_nodes m) (g_channels m) (g_node_arr m) v (g_freed_nodes m) (g_freed_chans m) (g_local m).
Definition set_freed_nodes (v : Z) (m : gossmap) : gossmap := Gossmap (g_mmap m) (g_map_end m) (g_nodes m) (g_channels m) (g_node_arr m) (g_chan_arr m) v (g_freed_chans m) (g_local m).
Definition set_freed_chans (v : Z) (m : gossmap) : gossmap := Gossmap (g_mmap m) (g_map_end m) (g_nodes m) (g_channels m) (g_node_arr m) (g_chan_arr m) (g_freed_nodes m) v (g_local m).
Definition set_local (v : option bytes) (m : gossmap) : gossmap := Gossmap (g_mmap m) (g_map_end m) (g_nodes m) (g_channels m) (g_node_arr m) (g_chan_arr m) (g_freed_nodes m) (g_freed_chans m) v.

(** A field of an array element; out of range is a crash. *)
Definition node_at (m : gossmap) (i : nat) : outcome gossmap_node := match g_node_arr m !! i with Some n => Ret n | None => Abort "node_arr: out of range" end.
Definition chan_at (m : gossmap) (i : nat) : outcome gossmap_chan := match g_chan_arr m !! i with Some c => Ret c | None => Abort "chan_arr: out of range" end.

(** * Reading the map *)

Definition map_copy (m : gossmap) (offset : Z) (n : nat) : outcome bytes :=
  if (g_map_size m <=? offset)%Z then
    let localoff := (offset - g_map_size m)%Z in
    let local := default [] (g_local m) in
    let! _ := assert_ (localoff + Z.of_nat n <=? len local)%Z "map_copy: local" in
    Ret (take n (drop (Z.to_nat localoff) local))
  else
    let! _ := assert_ (offset + Z.of_nat n <=? g_map_size m)%Z "map_copy: map_size" in
    Ret (take n (drop (Z.to_nat offset) (g_mmap m))).

Definition map_be (n : nat) (m : gossmap) (offset : Z) : outcome Z := let! b := map_copy m offset n in Ret (from_be b).
Definition map_u8 (m : gossmap) (offset : Z) : outcome Z := map_be 1 m offset.
Definition map_be16 (m : gossmap) (offset : Z) : outcome Z := map_be 2 m offset.
Definition map_be32 (m : gossmap) (offset : Z) : outcome Z := map_be 4 m offset.
Definition map_be64 (m : gossmap) (offset : Z) : outcome Z := map_be 8 m offset.
Definition map_nodeid (m : gossmap) (offset : Z) : outcome node_id := let! b := map_copy m offset 33 in Ret (NodeId b).

(** The feature that is set, or -1. *)
Definition map_feature_test (m : gossmap) (compulsory_bit : nat) (offset : Z) (n : Z) : outcome Z :=
  let bytenum := (Z.of_nat compulsory_bit / 8)%Z in
  let! _ := assert_ (COMPULSORY_FEATURE compulsory_bit =? compulsory_bit) "map_feature_test" in
  if (n <=? bytenum)%Z then Ret (-1)%Z
  else
    let! bits := map_u8 m (offset + n - 1 - bytenum) in
    if Z.testbit bits (Z.of_nat compulsory_bit mod 8) then Ret (Z.of_nat compulsory_bit)
    else if Z.testbit bits (Z.of_nat (OPTIONAL_FEATURE compulsory_bit) mod 8) then Ret (Z.of_nat (OPTIONAL_FEATURE compulsory_bit))
    else Ret (-1)%Z.

Definition gossmap_max_node_idx (m : gossmap) : nat := length (g_node_arr m).
Definition gossmap_max_chan_idx (m : gossmap) : nat := length (g_chan_arr m).

(** The index of a node or channel, which is what it is known by. *)
Definition gossmap_node_idx (m : gossmap) (node : nat) : outcome nat := let! _ := assert_ (node <? length (g_node_arr m)) "gossmap_node_idx" in Ret node.
Definition gossmap_chan_idx (m : gossmap) (chan : nat) : outcome nat := let! _ := assert_ (chan <? length (g_chan_arr m)) "gossmap_chan_idx" in Ret chan.

Definition gossmap_chan_scid (m : gossmap) (c : gossmap_chan) : outcome short_channel_id := let! v := map_be64 m (wrap32 (cann_off c + plus_scid_off c)) in Ret (Scid v).

(** The channel and, in [which_half], the direction that starts at the node. *)
Definition gossmap_nth_chan (m : gossmap) (node : nat) (n : nat) : outcome (nat * bool) :=
  let! nd := node_at m node in
  let! _ := assert_ (n <? num_chans nd) "gossmap_nth_chan: num_chans" in
  match default [] (chan_idxs nd) !! n with
  | None => Abort "gossmap_nth_chan: chan_idxs"
  | Some ci =>
      let! _ := assert_ (ci <? length (g_chan_arr m)) "gossmap_nth_chan: chan_arr" in
      let! chan := chan_at m ci in
      if hc_nodeidx (at0 (half chan)) =? node then Ret (ci, false)
      else
        let! _ := assert_ (hc_nodeidx (at1 (half chan)) =? node) "gossmap_nth_chan: nodeidx" in
        Ret (ci, true)
  end.

Definition gossmap_nth_node (c : gossmap_chan) (n : bool) : nat := hc_nodeidx (sel n (half c)).

Definition gossmap_node_get_id (m : gossmap) (node : nat) : outcome node_id :=
  let! (ci, dir) := gossmap_nth_chan m node 0 in
  let! c := chan_at m ci in
  map_nodeid m (wrap32 (cann_off c + plus_scid_off c + 8 + PUBKEY_CMPR_LEN * (if dir then 1 else 0))).

(** The search of a hash table: the elements have their keys in the map. *)
Fixpoint htable_find {K : Type} (key : nat -> outcome K) (eqb : K -> K -> bool) (k : K) (l : list nat) : outcome (option nat) :=
  match l with
  | [] => Ret None
  | i :: r => let! k' := key i in if eqb k' k then Ret (Some i) else htable_find key eqb k r
  end.

Definition node_id_eqb (a b : node_id) : bool := bool_decide (node_k a = node_k b).
Definition scid_eqb (a b : short_channel_id) : bool := (scid_u64 a =? scid_u64 b)%Z.

Definition nodeidx_id (m : gossmap) (i : nat) : outcome node_id := gossmap_node_get_id m i.
Definition chanidx_id (m : gossmap) (i : nat) : outcome short_channel_id := let! c := chan_at m i in gossmap_chan_scid m c.

Definition gossmap_find_node (m : gossmap) (id : node_id) : outcome (option nat) := htable_find (nodeidx_id m) node_id_eqb id (g_nodes m).
Definition gossmap_find_chan (m : gossmap) (scid : short_channel_id) : outcome (option nat) := htable_find (chanidx_id m) scid_eqb scid (g_channels m).

(** * Arrays with a list of free entries *)

(** The entries from [start] on, linked through [nann_off], to the end of an array
    of [n]. *)
Definition free_nodes (start n : nat) : list gossmap_node :=
  map (fun i => GNode (if S i =? n then UINT_MAX else Z.of_nat (S i)) None) (seq start (n - start)).
Definition init_node_arr (arr : list gossmap_node) (start n : nat) : list gossmap_node * Z := (take start arr ++ free_nodes start n, Z.of_nat start).

Definition chan_free (next : Z) : gossmap_chan := GChan next false 0 (Two 0 0)%Z (Two half_zero half_zero).
Definition free_chans (start n : nat) : list gossmap_chan :=
  map (fun i => chan_free (if S i =? n then UINT_MAX else Z.of_nat (S i))) (seq start (n - start)).
Definition init_chan_arr (arr : list gossmap_chan) (start n : nat) : list gossmap_chan * Z := (take start arr ++ free_chans start n, Z.of_nat start).

(** Double in size, add second half to free list *)
Definition more_nodes (m : gossmap) : gossmap :=
  if (g_freed_nodes m =? UINT_MAX)%Z then
    let n := length (g_node_arr m) in
    let '(arr, f) := init_node_arr (g_node_arr m) n (n * 2) in
    set_freed_nodes f (set_node_arr arr m)
  else m.
Definition next_free_node (m : gossmap) : outcome (gossmap * nat) :=
  let m := more_nodes m in
  let f := Z.to_nat (g_freed_nodes m) in
  let! nd := node_at m f in
  Ret (set_freed_nodes (nann_off nd) m, f).

Definition new_node (m : gossmap) : outcome (gossmap * nat) :=
  let! (m, f) := next_free_node m in
  let! nd := node_at m f in
  let! _ := assert_ (match chan_idxs nd with None => true | Some _ => false end) "new_node: chan_idxs" in
  Ret (set_node_arr (<[f := GNode 0 None]> (g_node_arr m)) m, f).

(** [nodeidx_htable_del]: the key is computed, then the element removed. *)
Definition remove_node (m : gossmap) (node : nat) : outcome gossmap :=
  let! _ := nodeidx_id m node in
  if negb (bool_decide (node ∈ g_nodes m)) then Abort "remove_node: htable_del"
  else
    let m := set_nodes (List.filter (fun i => negb (i =? node)) (g_nodes m)) m in
    Ret (set_freed_nodes (Z.of_nat node) (set_node_arr (<[node := GNode (g_freed_nodes m) None]> (g_node_arr m)) m)).

Definition node_add_channel (n : gossmap_node) (chanidx : nat) : gossmap_node := GNode (nann_off n) (Some (default [] (chan_idxs n) ++ [chanidx])).

(** Double in size, add second half to free list *)
Definition more_chans (m : gossmap) : gossmap :=
  if (g_freed_chans m =? UINT_MAX)%Z then
    let n := length (g_chan_arr m) in
    let '(arr, f) := init_chan_arr (g_chan_arr m) n (n * 2) in
    set_freed_chans f (set_chan_arr arr m)
  else m.
Definition next_free_chan (m : gossmap) : outcome (gossmap * nat) :=
  let m := more_chans m in
  let f := Z.to_nat (g_freed_chans m) in
  let! c := chan_at m f in
  Ret (set_freed_chans (cann_off c) m, f).

Definition new_channel (m : gossmap) (cannounce_off plus_scid : Z) (private : bool) (n1idx n2idx : nat) : outcome (gossmap * nat) :=
  let! (m, ci) := next_free_chan m in
  let h n := Half false n 0 0 0 0 0 in
  let c := GChan (wrap32 cannounce_off) private (plus_scid mod 2147483648) (Two 0 0)%Z (Two (h n1idx) (h n2idx)) in
  let m := set_chan_arr (<[ci := c]> (g_chan_arr m)) m in
  let! a := node_at m n1idx in
  let m := set_node_arr (<[n1idx := node_add_channel a ci]> (g_node_arr m)) m in
  let! b := node_at m n2idx in
  let m := set_node_arr (<[n2idx := node_add_channel b ci]> (g_node_arr m)) m in
  let! _ := chanidx_id m ci in
  Ret (set_channels (g_channels m ++ [ci]) m, ci).

(** The loop finds the first place; it runs out of the array when there is none. *)
Definition remove_idx (ci : nat) (l : list nat) : option (list nat) :=
  match list_find (eq ci) l with Some (i, _) => Some (take i l ++ drop (S i) l) | None => None end.

Definition remove_chan_from_node (m : gossmap) (node : nat) (chanidx : nat) : outcome gossmap :=
  let! nd := node_at m node in
  if num_chans nd =? 1 then remove_node m node
  else
    match remove_idx chanidx (default [] (chan_idxs nd)) with
    | None => Abort "remove_chan_from_node: num_chans"
    | Some l => Ret (set_node_arr (<[node := GNode (nann_off nd) (Some l)]> (g_node_arr m)) m)
    end.

Definition gossmap_remove_chan (m : gossmap) (ci : nat) : outcome gossmap :=
  let! chan := chan_at m ci in
  let! _ := chanidx_id m ci in
  if negb (bool_decide (ci ∈ g_channels m)) then Abort "gossmap_remove_chan: htable_del"
  else
    let m := set_channels (List.filter (fun i => negb (i =? ci)) (g_channels m)) m in
    let! m := remove_chan_from_node m (gossmap_nth_node chan false) ci in
    let! m := remove_chan_from_node m (gossmap_nth_node chan true) ci in
    let c := GChan (g_freed_chans m) (private_ chan) 0 (cupdate_off chan) (half chan) in
    Ret (set_freed_chans (Z.of_nat ci) (set_chan_arr (<[ci := c]> (g_chan_arr m)) m)).

(** The loop of [gossmap_remove_node]: as many rounds as the node has channels. *)
Fixpoint remove_node_loop (fuel : nat) (m : gossmap) (node : nat) : outcome gossmap :=
  let! nd := node_at m node in
  match num_chans nd, fuel with
  | O, _ => Ret m
  | _, O => Abort "gossmap_remove_node: fuel"
  | _, S f =>
      let! (ci, _) := gossmap_nth_chan m node 0 in
      let! m := gossmap_remove_chan m ci in
      remove_node_loop f m node
  end.
Definition gossmap_remove_node (m : gossmap) (node : nat) : outcome gossmap :=
  let! nd := node_at m node in remove_node_loop (num_chans nd) m node.

(** * Messages of the store *)

(** The search with [new_node] for an identifier that is not there: the node and
    whether it is new. *)
Definition find_or_new (m : gossmap) (id : node_id) : outcome (gossmap * nat * bool) :=
  let! n := gossmap_find_node m id in
  match n with
  | Some n => let! i := gossmap_node_idx m n in Ret (m, i, false)
  | None => let! (m, i) := new_node m in Ret (m, i, true)
  end.

(** [nodeidx_htable_add], which computes the key. *)
Definition nodeidx_htable_add (m : gossmap) (i : nat) : outcome gossmap := let! _ := nodeidx_id m i in Ret (set_nodes (g_nodes m ++ [i]) m).

Definition CANN_FEATURE_LEN_OFF : Z := 2 + (64 + 64 + 64 + 64).

Definition add_channel (m : gossmap) (cannounce_off : Z) (private : bool) : outcome (gossmap * nat) :=
  let! feature_len := map_be16 m (cannounce_off + CANN_FEATURE_LEN_OFF) in
  let plus_scid := (CANN_FEATURE_LEN_OFF + 2 + feature_len + 32)%Z in
  let! id0 := map_nodeid m (cannounce_off + plus_scid + 8) in
  let! id1 := map_nodeid m (cannounce_off + plus_scid + 8 + PUBKEY_CMPR_LEN) in
  let! (m, n0, new0) := find_or_new m id0 in
  let! (m, n1, new1) := find_or_new m id1 in
  let! (m, ci) := new_channel m cannounce_off plus_scid private n0 n1 in
  let! m := if new0 then nodeidx_htable_add m n0 else Ret m in
  let! m := if new1 then nodeidx_htable_add m n1 else Ret m in
  Ret (m, ci).

(** The bit fields of [struct half_chan]. *)
Definition BASE_FEE : Z := 2 ^ 24.
Definition PROPORTIONAL_FEE : Z := 2 ^ 20.
Definition DELAY : Z := 2 ^ 20.
Definition half_fits (base_fee proportional_fee delay : Z) : bool :=
  (base_fee mod BASE_FEE =? base_fee)%Z && (proportional_fee mod PROPORTIONAL_FEE =? proportional_fee)%Z && (delay mod DELAY =? delay)%Z.

Definition set_half (d : bool) (hc : half_chan) (off : Z) (c : gossmap_chan) : gossmap_chan :=
  GChan (cann_off c) (private_ c) (plus_scid_off c) (upd d off (cupdate_off c)) (upd d hc (half c)).
Definition set_chan (m : gossmap) (ci : nat) (c : gossmap_chan) : gossmap := set_chan_arr (<[ci := c]> (g_chan_arr m)) m.

Definition update_channel (m : gossmap) (cupdate : Z) : outcome (gossmap * bool) :=
  let scid_off := (cupdate + 2 + (64 + 32))%Z in
  let message_flags_off := (scid_off + 8 + 4)%Z in
  let channel_flags_off := (message_flags_off + 1)%Z in
  let cltv_expiry_delta_off := (channel_flags_off + 1)%Z in
  let htlc_minimum_off := (cltv_expiry_delta_off + 2)%Z in
  let fee_base_off := (htlc_minimum_off + 8)%Z in
  let fee_prop_off := (fee_base_off + 4)%Z in
  let htlc_maximum_off := (fee_prop_off + 4)%Z in
  let! scid := map_be64 m scid_off in
  let! found := gossmap_find_chan m (Scid scid) in
  match found with
  | None => Abort "errx: update for channel not found!"
  | Some ci =>
      let! min := map_be64 m htlc_minimum_off in
      let! htlc_min := u64_to_fp16 min false in
      let! mflags := map_u8 m message_flags_off in
      let! htlc_max := if Z.testbit mflags 0 then let! max := map_be64 m htlc_maximum_off in u64_to_fp16 max true else Ret 65535%Z in
      let! chanflags := map_u8 m channel_flags_off in
      let! base_fee := map_be32 m fee_base_off in
      let! proportional_fee := map_be32 m fee_prop_off in
      let! delay := map_be16 m cltv_expiry_delta_off in
      let dumb_values := negb (half_fits base_fee proportional_fee delay) in
      let d := Z.testbit chanflags 0 in
      let! chan := chan_at m ci in
      let hc := Half (negb dumb_values && negb (Z.testbit chanflags 1)) (hc_nodeidx (sel d (half chan))) htlc_min
                  (if dumb_values then 0 else htlc_max)%Z (base_fee mod BASE_FEE) (proportional_fee mod PROPORTIONAL_FEE) (delay mod DELAY) in
      Ret (set_chan m ci (set_half d hc (wrap32 cupdate) chan), negb dumb_values)
  end.

Definition remove_channel_by_deletemsg (m : gossmap) (del_off : Z) : outcome gossmap :=
  let! scid := map_be64 m (del_off + 2) in
  let! found := gossmap_find_chan m (Scid scid) in
  match found with None => Ret m | Some ci => gossmap_remove_chan m ci end.

Definition NANN_FEATURE_LEN_OFF : Z := 2 + 64.

(** The node that is not found is the null pointer. *)
Definition node_announcement (m : gossmap) (nann : Z) : outcome gossmap :=
  let! feature_len := map_be16 m (nann + NANN_FEATURE_LEN_OFF) in
  let! id := map_nodeid m (nann + NANN_FEATURE_LEN_OFF + 2 + feature_len + 4) in
  let! found := gossmap_find_node m id in
  match found with
  | None => Abort "node_announcement: NULL"
  | Some n => let! nd := node_at m n in Ret (set_node_arr (<[n := GNode (wrap32 nann) (chan_idxs nd)]> (g_node_arr m)) m)
  end.

(** * Reading the store

    The files: the contents of the open one, and of those that its name refers to
    when it is opened again. *)

Definition files : Type := list bytes.

(** [gossmap_refresh]; [catchup] is [map_catchup]: the map, the files, whether it
    changed and the number of bad updates. *)
Definition refresh_with (catchup : gossmap -> files -> outcome (gossmap * files * bool * Z)) (m : gossmap) (fs : files)
    : outcome (gossmap * files * bool * Z) :=
  let! _ := assert_ (match g_local m with None => true | Some _ => false end) "gossmap_refresh: local" in
  match fs with
  | [] => Abort "gossmap_refresh: lseek"
  | f :: _ =>
      if (len f =? g_map_size m)%Z then Ret (m, fs, false, 0%Z)
      else catchup (set_mmap f m) fs
  end.

Definition reopen_with (catchup : gossmap -> files -> outcome (gossmap * files * bool * Z)) (m : gossmap) (fs : files) (ended_off : Z)
    : outcome (gossmap * files) :=
  match fs with
  | _ :: (f :: r) as fs' =>
      let! e := map_be64 m (ended_off + 2) in
      let! (m, fs, _, _) := refresh_with catchup (set_map_end e m) fs' in
      Ret (m, fs)
  | _ => Abort "err: Failed to reopen"
  end.

(** What the body of the loop does with a record: the map, the files, the number
    of bad updates it adds; [None] for a type that is passed over. *)
Definition catchup_message (catchup : gossmap -> files -> outcome (gossmap * files * bool * Z)) (m : gossmap) (fs : files) (off : Z)
    : outcome (option (gossmap * files * Z)) :=
  let! type := map_be16 m off in
  let bad (b : bool) := if b then 0%Z else 1%Z in
  if (type =? WIRE_CHANNEL_ANNOUNCEMENT)%Z then let! (m, _) := add_channel m off false in Ret (Some (m, fs, 0%Z))
  else if (type =? wire_number WIRE_GOSSIP_STORE_PRIVATE_CHANNEL)%Z then let! (m, _) := add_channel m (off + 2 + 8 + 2) true in Ret (Some (m, fs, 0%Z))
  else if (type =? WIRE_CHANNEL_UPDATE)%Z then let! (m, ok) := update_channel m off in Ret (Some (m, fs, bad ok))
  else if (type =? wire_number WIRE_GOSSIP_STORE_PRIVATE_UPDATE)%Z then let! (m, ok) := update_channel m (off + 2 + 2) in Ret (Some (m, fs, bad ok))
  else if (type =? wire_number WIRE_GOSSIP_STORE_DELETE_CHAN)%Z then let! m := remove_channel_by_deletemsg m off in Ret (Some (m, fs, 0%Z))
  else if (type =? WIRE_NODE_ANNOUNCEMENT)%Z then let! m := node_announcement m off in Ret (Some (m, fs, 0%Z))
  else if (type =? wire_number WIRE_GOSSIP_STORE_ENDED)%Z then let! (m, fs) := reopen_with catchup m fs off in Ret (Some (m, fs, 0%Z))
  else Ret None.

(** The loop of [map_catchup], with what it has changed and counted so far; [fuel]
    bounds its rounds. *)
Fixpoint catchup_loop (fuel : nat) (m : gossmap) (fs : files) (changed : bool) (num_bad : Z) : outcome (gossmap * files * bool * Z) :=
  match fuel with
  | O => Abort "map_catchup: fuel"
  | S f =>
      if negb (wrap64 (g_map_end m + HDR) <? g_map_size m)%Z then Ret (m, fs, changed, num_bad)
      else
        let! len := map_be32 m (g_map_end m) in
        let! _ := map_copy m (g_map_end m) 12 in
        let reclen := (Z.land len GOSSIP_STORE_LEN_MASK + HDR)%Z in
        let next m := set_map_end (wrap64 (g_map_end m + reclen)) m in
        if negb (Z.land len GOSSIP_STORE_LEN_DELETED_BIT =? 0)%Z then catchup_loop f (next m) fs changed num_bad
        else if (g_map_size m <? g_map_end m + reclen)%Z then Ret (m, fs, changed, num_bad)
        else
          let! r := catchup_message (fun m fs => catchup_loop f m fs false 0) m fs (g_map_end m + HDR) in
          match r with
          | None => catchup_loop f (next m) fs changed num_bad
          | Some (m, fs, bad) => catchup_loop f (next m) fs true (num_bad + bad)
          end
  end.

(** As many rounds as there are bytes to read. *)
Definition catchup_fuel (m : gossmap) (fs : files) : nat := S (length (g_mmap m) + list_sum (map (fun f => S (length f)) fs)).
Definition map_catchup (m : gossmap) (fs : files) : outcome (gossmap * files * bool * Z) := catchup_loop (catchup_fuel m fs) m fs false 0.
Definition reopen_store : gossmap -> files -> Z -> outcome (gossmap * files) := reopen_with map_catchup.
Definition gossmap_refresh : gossmap -> files -> outcome (gossmap * files * bool * Z) := refresh_with map_catchup.

(** A store of another version, or one that cannot be opened, gives no map. *)
Definition load_gossip_store (fs : files) : outcome (option (gossmap * files * Z)) :=
  match fs with
  | [] => Ret None
  | f :: _ =>
      let size := length f in
      let '(chans, fc) := init_chan_arr [] 0 (size / 750 / 2 + 1) in
      let '(nodes, fn) := init_node_arr [] 0 (size / 2500 / 2 + 1) in
      let m := Gossmap f 1 [] [] nodes chans fn fc None in
      let! version := map_u8 m 0 in
      if negb (version =? GOSSIP_STORE_VERSION)%Z then Ret None
      else let! (m, fs, _, num_rejected) := map_catchup m fs in Ret (Some (m, fs, num_rejected))
  end.
Definition gossmap_load (fs : files) : outcome (option (gossmap * files * Z)) := load_gossip_store fs.

(** * Local modifications *)

Definition NOT_LOCAL : Z := 4294967295.

Record localmod : Type := LocalMod {
  lm_scid : short_channel_id; local_off : Z; updates_set : two bool; lm_hc : two half_chan; orig : two half_chan; orig_cupdate_off : two Z }.
Record gossmap_localmods : Type := LocalMods { mods : list localmod; lm_local : bytes }.

Definition gossmap_localmods_new : gossmap_localmods := LocalMods [] [].

(** The new bytes are not set: zeros here; nobody reads those that stay so. *)
Definition insert_local_space (l : gossmap_localmods) (msglen : nat) : gossmap_localmods * nat :=
  (LocalMods (mods l) (lm_local l ++ replicate msglen NUL), length (lm_local l)).

Definition find_localmod (l : gossmap_localmods) (scid : short_channel_id) : option nat :=
  match list_find (fun md => scid_eqb (lm_scid md) scid = true) (mods l) with Some (i, _) => Some i | None => None end.

(** [memcpy(local + off, ...)] with [off] moved past it. *)
Definition put (p : bytes * nat) (b : bytes) : bytes * nat :=
  let '(local, off) := p in (take off local ++ b ++ drop (off + length b) local, off + length b).
Definition skip (p : bytes * nat) (n : nat) : bytes * nat := (p.1, p.2 + n).

Definition mod_new (scid : short_channel_id) (off : Z) : localmod := LocalMod scid off (Two false false) (Two half_zero half_zero) (Two half_zero half_zero) (Two 0 0)%Z.

Definition gossmap_local_addchan (l : gossmap_localmods) (n1 n2 : node_id) (scid : short_channel_id) (features : bytes) : outcome (gossmap_localmods * bool) :=
  match find_localmod l scid with
  | Some _ => Ret (l, false)
  | None =>
      let '(l, off) := insert_local_space l (2 + 64 * 4 + 2 + length features + 32 + 8 + 33 + 33) in
      let p := put (lm_local l, off) (to_be 2 WIRE_CHANNEL_ANNOUNCEMENT) in
      let p := skip p (64 * 4) in
      let p := put p (to_be 2 (len features)) in
      let p := put p features in
      let p := skip p 32 in
      let p := put p (to_be 8 (scid_u64 scid)) in
      let p := put p (node_k n1) in
      let p := put p (node_k n2) in
      let! _ := assert_ (p.2 =? length p.1) "gossmap_local_addchan: off" in
      Ret (LocalMods (mods l ++ [mod_new scid (wrap32 (Z.of_nat off))]) p.1, true)
  end.

Definition mod_update (d : bool) (hc : half_chan) (md : localmod) : localmod :=
  LocalMod (lm_scid md) (local_off md) (upd d true (updates_set md)) (upd d hc (lm_hc md)) (orig md) (orig_cupdate_off md).

Definition gossmap_local_updatechan (l : gossmap_localmods) (scid : short_channel_id) (htlc_min htlc_max : amount_msat)
    (base_fee proportional_fee delay : Z) (enabled : bool) (dir : bool) : outcome (gossmap_localmods * bool) :=
  let '(l, i) :=
    match find_localmod l scid with
    | Some i => (l, i)
    | None => (LocalMods (mods l ++ [mod_new scid NOT_LOCAL]) (lm_local l), length (mods l))
    end in
  let! min := u64_to_fp16 (millisatoshis htlc_min) false in
  let! max := u64_to_fp16 (millisatoshis htlc_max) true in
  let hc := Half enabled 0 min max (base_fee mod BASE_FEE) (proportional_fee mod PROPORTIONAL_FEE) (delay mod DELAY) in
  Ret (LocalMods (alter (mod_update dir hc) i (mods l)) (lm_local l), half_fits base_fee proportional_fee delay).

(** One direction: the old half is kept in the modification. *)
Definition apply_half (h : bool) (p : gossmap_chan * localmod) : gossmap_chan * localmod :=
  let '(c, md) := p in
  if negb (sel h (updates_set md)) then (c, md)
  else
    let o := sel h (half c) in
    let n := sel h (lm_hc md) in
    (set_half h (Half (hc_enabled n) (hc_nodeidx o) (hc_htlc_min n) (hc_htlc_max n) (hc_base_fee n) (hc_proportional_fee n) (hc_delay n)) NOT_LOCAL c,
     LocalMod (lm_scid md) (local_off md) (updates_set md) (lm_hc md) (upd h o (orig md)) (upd h (sel h (cupdate_off c)) (orig_cupdate_off md))).

Definition apply_mod (m : gossmap) (md : localmod) : outcome (gossmap * localmod) :=
  let! found := gossmap_find_chan m (lm_scid md) in
  let apply m ci :=
    let! c := chan_at m ci in
    let '(c, md) := apply_half true (apply_half false (c, md)) in
    Ret (set_chan m ci c, md) in
  match found with
  | Some ci => apply m ci
  | None =>
      if (local_off md =? NOT_LOCAL)%Z then Ret (m, md)
      else let! (m, ci) := add_channel m (g_map_size m + local_off md) true in apply m ci
  end.

Fixpoint apply_mods (m : gossmap) (l : list localmod) : outcome (gossmap * list localmod) :=
  match l with
  | [] => Ret (m, [])
  | md :: r => let! (m, md) := apply_mod m md in let! (m, r) := apply_mods m r in Ret (m, md :: r)
  end.

Definition gossmap_apply_localmods (m : gossmap) (l : gossmap_localmods) : outcome (gossmap * gossmap_localmods) :=
  let! _ := assert_ (match g_local m with None => true | Some _ => false end) "gossmap_apply_localmods: local" in
  let! (m, ms) := apply_mods (set_local (Some (lm_local l)) m) (mods l) in
  Ret (m, LocalMods ms (lm_local l)).

Definition restore_half (md : localmod) (h : bool) (c : gossmap_chan) : gossmap_chan :=
  if negb (sel h (updates_set md)) then c
  else
    let o := sel h (orig md) in
    set_half h (Half (hc_enabled o) (hc_nodeidx (sel h (half c))) (hc_htlc_min o) (hc_htlc_max o) (hc_base_fee o) (hc_proportional_fee o) (hc_delay o))
      (sel h (orig_cupdate_off md)) c.

Definition remove_mod (m : gossmap) (md : localmod) : outcome gossmap :=
  let! found := gossmap_find_chan m (lm_scid md) in
  match found with
  | None => Abort "gossmap_remove_localmods: NULL"
  | Some ci =>
      let! c := chan_at m ci in
      if (g_map_size m <=? cann_off c)%Z then gossmap_remove_chan m ci
      else Ret (set_chan m ci (restore_half md true (restore_half md false c)))
  end.

(** The pointers to the local bytes are compared by what they point to. *)
Definition gossmap_remove_localmods (m : gossmap) (l : gossmap_localmods) : outcome gossmap :=
  let! _ := assert_ (bool_decide (g_local m = Some (lm_local l))) "gossmap_remove_localmods: local" in
  let! m := ofold remove_mod m (mods l) in
  Ret (set_local None m).

(** * Questions *)

Definition gossmap_chan_get_capacity (m : gossmap) (c : gossmap_chan) : outcome (option amount_sat) :=
  if private_ c then let! v := map_be64 m (wrap32 (cann_off c - 8 - 2)) in Ret (Some (Sat v))
  else
    let off := wrap64 (cann_off c - HDR) in
    let! _ := map_copy m off 12 in
    let! len := map_be32 m off in
    let off := (off + HDR + Z.land len GOSSIP_STORE_LEN_MASK)%Z in
    if (g_map_size m <? off + HDR + 2)%Z then Ret None
    else
      let! type := map_be16 m (off + HDR) in
      if negb (type =? wire_number WIRE_GOSSIP_STORE_CHANNEL_AMOUNT)%Z then Ret None
      else let! v := map_be64 m (off + HDR + 2) in Ret (Some (Sat v)).

Definition gossmap_num_nodes (m : gossmap) : nat := length (g_nodes m).
Definition gossmap_num_chans (m : gossmap) : nat := length (g_channels m).

Definition node_iter (m : gossmap) (start : nat) : option nat :=
  match list_find (fun n => bool_decide (chan_idxs n <> None) = true) (drop start (g_node_arr m)) with Some (i, _) => Some (start + i) | None => None end.
Definition gossmap_first_node (m : gossmap) : option nat := node_iter m 0.
Definition gossmap_next_node (m : gossmap) (prev : nat) : option nat := node_iter m (prev + 1).

Definition chan_iter (m : gossmap) (start : nat) : option nat :=
  match list_find (fun c => negb (plus_scid_off c =? 0)%Z = true) (drop start (g_chan_arr m)) with Some (i, _) => Some (start + i) | None => None end.
Definition gossmap_first_chan (m : gossmap) : option nat := chan_iter m 0.
Definition gossmap_next_chan (m : gossmap) (prev : nat) : option nat := chan_iter m (prev + 1).

Definition gossmap_chan_capacity (c : gossmap_chan) (direction : bool) (amount : amount_msat) : bool :=
  if amount_msat_less_fp16 amount (hc_htlc_min (sel direction (half c))) then false
  else if amount_msat_greater_fp16 amount (hc_htlc_max (sel direction (half c))) then false
  else true.

Definition gossmap_chan_set (c : gossmap_chan) (dir : bool) : bool := negb (sel dir (cupdate_off c) =? 0)%Z.

(** The length is that of the whole record. *)
Definition gossmap_chan_get_announce (m : gossmap) (c : gossmap_chan) : outcome bytes :=
  let pre_off := if private_ c then (2 + 8 + 2 + HDR)%Z else HDR in
  let! l := map_be32 m (wrap32 (cann_off c - pre_off)) in
  map_copy m (cann_off c) (Z.to_nat (Z.land l GOSSIP_STORE_LEN_MASK)).

Definition gossmap_node_get_announce (m : gossmap) (n : gossmap_node) : outcome (option bytes) :=
  if (nann_off n =? 0)%Z then Ret None
  else
    let! l := map_be32 m (wrap64 (nann_off n - HDR)) in
    let! b := map_copy m (nann_off n) (Z.to_nat (Z.land l GOSSIP_STORE_LEN_MASK)) in
    Ret (Some b).

Definition gossmap_chan_get_feature (m : gossmap) (c : gossmap_chan) (fbit : nat) : outcome Z :=
  let! feature_len := map_be16 m (cann_off c + CANN_FEATURE_LEN_OFF) in
  map_feature_test m (COMPULSORY_FEATURE fbit) (cann_off c + CANN_FEATURE_LEN_OFF + 2) feature_len.

Definition gossmap_chan_get_features (m : gossmap) (c : gossmap_chan) : outcome bytes :=
  let! feature_len := map_be16 m (cann_off c + CANN_FEATURE_LEN_OFF) in
  map_copy m (cann_off c + CANN_FEATURE_LEN_OFF + 2) (Z.to_nat feature_len).

(** The fields that are asked for: all of them; the maximum is set when the flag
    says so. *)
Record update_details : Type := UpdateDetails {
  ud_timestamp : Z; ud_message_flags : Z; ud_channel_flags : Z; ud_fee_base_msat : Z; ud_fee_proportional_millionths : Z;
  ud_htlc_minimum_msat : amount_msat; ud_htlc_maximum_msat : option amount_msat }.

Definition gossmap_chan_get_update_details (m : gossmap) (c : gossmap_chan) (dir : bool) : outcome update_details :=
  let scid_off := (sel dir (cupdate_off c) + 2 + (64 + 32))%Z in
  let timestamp_off := (scid_off + 8)%Z in
  let message_flags_off := (timestamp_off + 4)%Z in
  let channel_flags_off := (message_flags_off + 1)%Z in
  let cltv_expiry_delta_off := (channel_flags_off + 1)%Z in
  let htlc_minimum_off := (cltv_expiry_delta_off + 2)%Z in
  let fee_base_off := (htlc_minimum_off + 8)%Z in
  let fee_prop_off := (fee_base_off + 4)%Z in
  let htlc_maximum_off := (fee_prop_off + 4)%Z in
  let! _ := assert_ (gossmap_chan_set c dir) "gossmap_chan_get_update_details" in
  let! timestamp := map_be32 m timestamp_off in
  let! mflags := map_u8 m message_flags_off in
  let! channel_flags := map_u8 m channel_flags_off in
  let! fee_base := map_be32 m fee_base_off in
  let! fee_prop := map_be32 m fee_prop_off in
  let! min := map_be64 m htlc_minimum_off in
  let! max := if Z.testbit mflags 0 then let! v := map_be64 m htlc_maximum_off in Ret (Some (Msat v)) else Ret None in
  Ret (UpdateDetails timestamp mflags channel_flags fee_base fee_prop (Msat min) max).

Definition gossmap_node_get_feature (m : gossmap) (n : gossmap_node) (fbit : nat) : outcome Z :=
  if (nann_off n =? 0)%Z then Ret (-1)%Z
  else
    let! feature_len := map_be16 m (nann_off n + NANN_FEATURE_LEN_OFF) in
    map_feature_test m (COMPULSORY_FEATURE fbit) (nann_off n + NANN_FEATURE_LEN_OFF + 2) feature_len.

Definition TAG_PUBKEY_EVEN : ascii := ascii_of_nat 2.
Definition TAG_PUBKEY_ODD : ascii := ascii_of_nat 3.
(** [x] is the serialized x coordinate. *)
Definition gossmap_guess_node_id (m : gossmap) (x : bytes) : outcome node_id :=
  let! found := gossmap_find_node m (NodeId (TAG_PUBKEY_EVEN :: x)) in
  Ret (NodeId ((if found then TAG_PUBKEY_EVEN else TAG_PUBKEY_ODD) :: x)).
