(* ===== verification/GossmapProofs.v ===== *)
(** The invariant of the map of the network.

    [wf m E N fn fc]: [E] gives each channel index its short channel id and the
    indices of its two nodes, [N] each node index its identifier; [fn] and [fc] are
    the free entries of the two arrays, in the order their links give. *)
From S2P Require Import Prelude Utf8 Jsmn JsonTree Json JsonOut Wire Tlv Amount JsonHelpers Features GossipStore Gossmap.

Definition edge : Type := short_channel_id * nat * nat.
Definition e_scid (e : edge) : short_channel_id := e.1.1.
Definition e_node (d : bool) (e : edge) : nat := if d then e.2 else e.1.2.

(** * Reading does not depend on the tables *)

Definition same_file (m m' : gossmap) : Prop := g_mmap m = g_mmap m' /\ g_local m = g_local m'.

Lemma map_copy_file m m' off n : same_file m m' -> map_copy m off n = map_copy m' off n.
Proof. intros [H1 H2]. unfold map_copy, g_map_size. by rewrite H1, H2. Qed.

Lemma scid_file m m' c : same_file m m' -> gossmap_chan_scid m c = gossmap_chan_scid m' c.
Proof. intros H. unfold gossmap_chan_scid, map_be64, map_be. by rewrite (map_copy_file m m'). Qed.

(** The identifier an announcement gives for one side. *)
Definition side_id (m : gossmap) (c : gossmap_chan) (d : bool) : outcome node_id :=
  map_nodeid m (wrap32 (cann_off c + plus_scid_off c + 8 + PUBKEY_CMPR_LEN * (if d then 1 else 0))).

Lemma side_file m m' c d : same_file m m' -> side_id m c d = side_id m' c d.
Proof. intros H. unfold side_id, map_nodeid. by rewrite (map_copy_file m m'). Qed.

(** * Free lists *)

Fixpoint chain (next : nat -> option Z) (h : Z) (l : list nat) : Prop :=
  match l with
  | [] => h = UINT_MAX
  | i :: r => h = Z.of_nat i /\ exists h', next i = Some h' /\ chain next h' r
  end.

Lemma chain_ext next next' h l : (forall i, i ∈ l -> next i = next' i) -> chain next h l -> chain next' h l.
Proof.
  revert h. induction l as [|i r IH]; intros h Hn Hc; [done|]. destruct Hc as (-> & h' & Hi & Hc).
  split; [done|]. exists h'. split; [rewrite <- Hn; [done|left]|]. apply IH; [|done]. intros j Hj. apply Hn. by right.
Qed.

(** The links that [init_node_arr] and [init_chan_arr] write. *)
Definition link (n i : nat) : Z := if S i =? n then UINT_MAX else Z.of_nat (S i).

Lemma chain_link next n s k : s + k = n -> 0 < k -> (forall i, s <= i < n -> next i = Some (link n i)) -> chain next (Z.of_nat s) (seq s k).
Proof.
  revert s. induction k as [|k IH]; intros s Hs Hk Hn; [lia|]. cbn [seq chain]. split; [done|].
  exists (link n s). split; [apply Hn; lia|]. unfold link. destruct (Nat.eqb_spec (S s) n) as [He|He].
  - destruct k; [done|lia].
  - apply IH; [lia|lia|]. intros i Hi. apply Hn. lia.
Qed.

Lemma fresh_lookup {A : Type} (f : nat -> A) (arr : list A) n i :
  (take (length arr) arr ++ map f (seq (length arr) (n - length arr))) !! i =
  (if decide (i < length arr) then arr !! i else if decide (i < n) then Some (f i) else None).
Proof.
  rewrite take_ge by lia. destruct (decide (i < length arr)) as [Hi|Hi].
  - by rewrite lookup_app_l by lia.
  - rewrite lookup_app_r by lia. destruct (decide (i < n)) as [Hn|Hn].
    + rewrite list_lookup_fmap, lookup_seq_lt by lia. simpl. do 2 f_equal. lia.
    + apply lookup_ge_None. rewrite length_fmap, length_seq. lia.
Qed.

(** * The invariant *)

Definition next_node (arr : list gossmap_node) (i : nat) : option Z := nann_off <$> arr !! i.
Definition next_chan (arr : list gossmap_chan) (i : nat) : option Z := cann_off <$> arr !! i.

(** An entry with its place in an array. *)
Definition chan_ok (m : gossmap) (N : gmap nat node_id) (e : edge) (c : gossmap_chan) : Prop :=
  plus_scid_off c <> 0%Z /\ gossmap_chan_scid m c = Ret (e_scid e) /\ e_node false e <> e_node true e /\
  forall d, hc_nodeidx (sel d (half c)) = e_node d e /\ exists id, N !! e_node d e = Some id /\ side_id m c d = Ret id.

Definition node_ok (E : gmap nat edge) (n : nat) (nd : gossmap_node) : Prop :=
  exists l, chan_idxs nd = Some l /\ l <> [] /\ NoDup l /\
    forall ci, ci ∈ l <-> exists e d, E !! ci = Some e /\ e_node d e = n.

Record wf (m : gossmap) (E : gmap nat edge) (N : gmap nat node_id) (fn fc : list nat) : Prop := Wf {
  wf_channels : NoDup (g_channels m) /\ forall ci, ci ∈ g_channels m <-> is_Some (E !! ci);
  wf_nodes : NoDup (g_nodes m) /\ forall n, n ∈ g_nodes m <-> is_Some (N !! n);
  wf_chan : forall ci e, E !! ci = Some e -> exists c, g_chan_arr m !! ci = Some c /\ chan_ok m N e c;
  wf_node : forall n id, N !! n = Some id -> exists nd, g_node_arr m !! n = Some nd /\ node_ok E n nd;
  wf_chan_free : forall ci c, g_chan_arr m !! ci = Some c -> E !! ci = None -> plus_scid_off c = 0%Z;
  wf_node_free : forall n nd, g_node_arr m !! n = Some nd -> N !! n = None -> chan_idxs nd = None;
  wf_scids : forall ci ci' e e', E !! ci = Some e -> E !! ci' = Some e' -> e_scid e = e_scid e' -> ci = ci';
  wf_ids : forall n n' id, N !! n = Some id -> N !! n' = Some id -> n = n';
  wf_fn : NoDup fn /\ (forall n, n ∈ fn -> N !! n = None /\ n < length (g_node_arr m)) /\ chain (next_node (g_node_arr m)) (g_freed_nodes m) fn;
  wf_fc : NoDup fc /\ (forall ci, ci ∈ fc -> E !! ci = None /\ ci < length (g_chan_arr m)) /\ chain (next_chan (g_chan_arr m)) (g_freed_chans m) fc;
  wf_len : 0 < length (g_node_arr m) /\ 0 < length (g_chan_arr m) }.

(** * Looking up *)

Lemma find_key_some {K : Type} (key : nat -> outcome K) eqb (k0 : K) l i0 :
  (forall a b, eqb a b = true <-> a = b) ->
  (forall i, i ∈ l -> exists k, key i = Ret k /\ (k = k0 -> i = i0)) -> i0 ∈ l -> key i0 = Ret k0 -> htable_find key eqb k0 l = Ret (Some i0).
Proof.
  intros He Hl Hi Hk. induction l as [|i r IH]; [by apply elem_of_nil in Hi|]. cbn [htable_find].
  destruct (Hl i) as (k & Hki & Hu); [left|]. rewrite Hki. cbn [obind].
  destruct (eqb k k0) eqn:Heq.
  - apply He in Heq. by rewrite (Hu Heq).
  - apply IH; [intros j Hj; apply Hl; by right|]. apply list_elem_of_In in Hi. destruct Hi as [->|Hi]; [|by apply list_elem_of_In].
    exfalso. assert (k = k0) as -> by congruence. assert (eqb k0 k0 = true) by by apply He. congruence.
Qed.

Lemma find_key_none {K : Type} (key : nat -> outcome K) eqb (k0 : K) l :
  (forall a b, eqb a b = true <-> a = b) ->
  (forall i, i ∈ l -> exists k, key i = Ret k /\ k <> k0) -> htable_find key eqb k0 l = Ret None.
Proof.
  intros He Hl. induction l as [|i r IH]; [done|]. cbn [htable_find].
  destruct (Hl i) as (k & Hki & Hu); [left|]. rewrite Hki. cbn [obind].
  destruct (eqb k k0) eqn:Heq; [by apply He in Heq|]. apply IH. intros j Hj. apply Hl. by right.
Qed.

Lemma scid_eqb_spec a b : scid_eqb a b = true <-> a = b.
Proof. destruct a as [a], b as [b]. unfold scid_eqb. cbn. rewrite Z.eqb_eq. split; congruence. Qed.

Lemma node_id_eqb_spec a b : node_id_eqb a b = true <-> a = b.
Proof. destruct a as [a], b as [b]. unfold node_id_eqb. cbn. rewrite bool_decide_eq_true. split; congruence. Qed.

Section Wf.
  Context {m : gossmap} {E : gmap nat edge} {N : gmap nat node_id} {fn fc : list nat}.
  Hypothesis W : wf m E N fn fc.

Lemma chan_key ci e : E !! ci = Some e -> chanidx_id m ci = Ret (e_scid e).
Proof.
  intros He. destruct (wf_chan _ _ _ _ _ W ci e He) as (c & Hc & _ & Hs & _).
  unfold chanidx_id, chan_at. rewrite Hc. exact Hs.
Qed.

Lemma find_chan_some ci e : E !! ci = Some e -> gossmap_find_chan m (e_scid e) = Ret (Some ci).
Proof.
  intros He. destruct (wf_channels _ _ _ _ _ W) as [_ Hch]. apply find_key_some; [apply scid_eqb_spec| |by apply Hch; eauto|by apply chan_key].
  intros i Hi. apply Hch in Hi as [e' He']. exists (e_scid e'). split; [by apply chan_key|]. intros Hs. by eapply (wf_scids _ _ _ _ _ W).
Qed.

Lemma find_chan_none s : (forall ci e, E !! ci = Some e -> e_scid e <> s) -> gossmap_find_chan m s = Ret None.
Proof.
  intros Hn. destruct (wf_channels _ _ _ _ _ W) as [_ Hch]. apply find_key_none; [apply scid_eqb_spec|].
  intros i Hi. apply Hch in Hi as [e' He']. exists (e_scid e'). split; [by apply chan_key|]. by eapply Hn.
Qed.

(** The first channel of a node: its direction is the one that starts there. *)
Lemma nth_chan n id nd k ci : N !! n = Some id -> g_node_arr m !! n = Some nd -> default [] (chan_idxs nd) !! k = Some ci ->
  exists e d, E !! ci = Some e /\ e_node d e = n /\ gossmap_nth_chan m n k = Ret (ci, d).
Proof.
  intros Hn Hnd Hk. destruct (wf_node _ _ _ _ _ W n id Hn) as (nd' & Hnd' & l & Hl & _ & _ & Hll). simplify_eq. rewrite Hl in Hk. cbn in Hk.
  destruct (proj1 (Hll ci)) as (e & d & He & Hd); [by eapply list_elem_of_lookup_2|].
  destruct (wf_chan _ _ _ _ _ W ci e He) as (c & Hc & _ & _ & Hne & Hside).
  exists e. unfold gossmap_nth_chan, node_at. rewrite Hnd. cbn [obind]. unfold num_chans. rewrite Hl. change (default [] (Some l)) with l.
  assert (Hlt : k < length l) by by eapply lookup_lt_Some. apply Nat.ltb_lt in Hlt. rewrite Hlt. cbn [assert_ obind]. rewrite Hk.
  assert (Hcl : ci < length (g_chan_arr m)) by by eapply lookup_lt_Some. apply Nat.ltb_lt in Hcl. rewrite Hcl. cbn [assert_ obind].
  unfold chan_at. rewrite Hc. cbn [obind]. destruct (Hside false) as [Hs0 _], (Hside true) as [Hs1 _]. cbn [sel] in Hs0, Hs1. rewrite Hs0, Hs1.
  destruct d.
  - exists true. split; [done|]. split; [done|]. rewrite (proj2 (Nat.eqb_neq _ _)) by congruence. rewrite (proj2 (Nat.eqb_eq _ _)) by congruence. done.
  - exists false. split; [done|]. split; [done|]. by rewrite (proj2 (Nat.eqb_eq _ _)) by congruence.
Qed.

Lemma node_key n id : N !! n = Some id -> nodeidx_id m n = Ret id.
Proof.
  intros Hn. destruct (wf_node _ _ _ _ _ W n id Hn) as (nd & Hnd & l & Hl & Hne & _). destruct l as [|ci r]; [done|].
  destruct (nth_chan n id nd 0 ci Hn Hnd) as (e & d & He & Hd & Hnth); [by rewrite Hl|].
  destruct (wf_chan _ _ _ _ _ W ci e He) as (c & Hc & _ & _ & _ & Hside). destruct (Hside d) as (_ & id' & Hid & Hs).
  unfold nodeidx_id, gossmap_node_get_id. rewrite Hnth. cbn [obind]. unfold chan_at. rewrite Hc. cbn [obind].
  unfold side_id in Hs. rewrite Hs. congruence.
Qed.

Lemma find_node_some n id : N !! n = Some id -> gossmap_find_node m id = Ret (Some n).
Proof.
  intros Hn. destruct (wf_nodes _ _ _ _ _ W) as [_ Hns]. apply find_key_some; [apply node_id_eqb_spec| |by apply Hns; eauto|by apply node_key].
  intros i Hi. apply Hns in Hi as [id' Hid']. exists id'. split; [by apply node_key|]. intros ->. by eapply (wf_ids _ _ _ _ _ W).
Qed.

Lemma find_node_none id : (forall n, N !! n <> Some id) -> gossmap_find_node m id = Ret None.
Proof.
  intros Hn. destruct (wf_nodes _ _ _ _ _ W) as [_ Hns]. apply find_key_none; [apply node_id_eqb_spec|].
  intros i Hi. apply Hns in Hi as [id' Hid']. exists id'. split; [by apply node_key|]. intros ->. by apply (Hn i).
Qed.

End Wf.

(** * Entries that are in no table *)

Definition fn_ok (N : gmap nat node_id) (arr : list gossmap_node) (h : Z) (fn : list nat) : Prop :=
  NoDup fn /\ (forall n, n ∈ fn -> N !! n = None /\ n < length arr) /\ chain (next_node arr) h fn.

Lemma wf_node_arr m E N fn fc arr h fn' : wf m E N fn fc ->
  (forall n id, N !! n = Some id -> chan_idxs <$> arr !! n = chan_idxs <$> g_node_arr m !! n) ->
  (forall n nd, arr !! n = Some nd -> N !! n = None -> chan_idxs nd = None) ->
  fn_ok N arr h fn' -> 0 < length arr -> wf (set_freed_nodes h (set_node_arr arr m)) E N fn' fc.
Proof.
  intros W Hsame Hfree Hfn Hlen. destruct W. split; try done.
  - intros n id Hn. destruct (wf_node0 n id Hn) as (nd & Hnd & Hok). specialize (Hsame n id Hn). rewrite Hnd in Hsame. cbn in Hsame |- *.
    destruct (arr !! n) as [nd'|]; [|done]. exists nd'. split; [done|]. destruct Hok as (l & Hl & Hrest). exists l. split; [|done]. simpl in Hsame. congruence.
  - split; [done|apply wf_len0].
Qed.

(** How an array of [L] entries, [k] of them free, may change when [a] entries are
    taken: those in use grow by [a] at most, and the array is doubled only when all
    its entries are in use. *)
Definition fill (L k L' k' a : nat) : Prop := L' + k <= L + k' + a /\ L' <= Nat.max L (2 * (L - k + a)).

Lemma fill_trans L k L' k' L'' k'' a b : fill L k L' k' a -> fill L' k' L'' k'' b -> fill L k L'' k'' (a + b).
Proof. unfold fill. lia. Qed.

(** A free list that ends at once is empty. *)
Lemma chain_end next h l n : chain next h l -> (forall i, i ∈ l -> i < n) -> (Z.of_nat n < UINT_MAX)%Z -> h = UINT_MAX -> l = [].
Proof. intros Hc Hl Hn ->. destruct l as [|i l]; [done|]. destruct Hc as [He _]. specialize (Hl i ltac:(left)). lia. Qed.

(** The same entry may be linked from two places when an array is extended: the
    links of the old ones stay. *)
Lemma grow_nodes m E N fn fc : wf m E N fn fc -> (Z.of_nat (2 * length (g_node_arr m)) < UINT_MAX)%Z ->
  exists m1 h fn1,
    more_nodes m = m1 /\ m1 = set_freed_nodes h (set_node_arr (g_node_arr m1) m) /\ wf m1 E N fn1 fc /\ fn1 <> [] /\
    length (g_node_arr m) <= length (g_node_arr m1) <= 2 * length (g_node_arr m) /\
    fill (length (g_node_arr m)) (length fn) (length (g_node_arr m1)) (length fn1) 0 /\
    forall i, i < length (g_node_arr m) -> g_node_arr m1 !! i = g_node_arr m !! i /\ (i ∉ fn -> i ∉ fn1).
Proof.
  intros W Hlen. pose proof (wf_len _ _ _ _ _ W) as [Hpos _]. destruct (wf_fn _ _ _ _ _ W) as (Hnd & Hfn & Hch). unfold more_nodes.
  destruct (Z.eqb_spec (g_freed_nodes m) UINT_MAX) as [Hu|Hu].
  - eexists _, (Z.of_nat (length (g_node_arr m))), (seq (length (g_node_arr m)) (length (g_node_arr m))). split; [reflexivity|]. split; [reflexivity|].
    unfold init_node_arr, free_nodes. set (n := length (g_node_arr m)) in *.
    set (arr := take n (g_node_arr m) ++ map (fun i => GNode (link (n * 2) i) None) (seq n (n * 2 - n))).
    assert (Harr : forall i, arr !! i = if decide (i < n) then g_node_arr m !! i else if decide (i < n * 2) then Some (GNode (link (n * 2) i) None) else None).
    { intros i. apply (fresh_lookup (fun i => GNode (link (n * 2) i) None)). }
    assert (Hal : length arr = n * 2).
    { unfold arr. rewrite length_app, length_fmap, length_seq, length_take. unfold n. lia. }
    assert (Hout : forall i, n <= i -> N !! i = None).
    { intros i Hi. destruct (N !! i) as [id|] eqn:HN; [|done]. destruct (wf_node _ _ _ _ _ W i id HN) as (nd & Hl & _). apply lookup_lt_Some in Hl. unfold n in Hi. lia. }
    split; [|split; [|split; [|split]]].
    + apply (wf_node_arr m E N fn fc arr); [done| | | |lia].
      * intros i id Hi. rewrite Harr. destruct (decide (i < n)); [done|]. rewrite (Hout i) in Hi by lia. done.
      * intros i nd. rewrite Harr. destruct (decide (i < n)); [apply (wf_node_free _ _ _ _ _ W)|]. destruct (decide (i < n * 2)); naive_solver.
      * split; [apply NoDup_seq|]. split; [intros i Hi; apply elem_of_seq in Hi; split; [apply Hout|]; lia|].
        apply (chain_link _ (n * 2)); [lia|lia|]. intros i Hi. unfold next_node. rewrite Harr. destruct (decide (i < n)); [lia|]. destruct (decide (i < n * 2)); [done|lia].
    + destruct n; [lia|done].
    + change (n <= length arr <= 2 * n). lia.
    + rewrite (chain_end _ _ _ n Hch) by (done || lia || (intros i Hi; by apply Hfn)). change (fill n 0 (length arr) (length (seq n n)) 0). rewrite length_seq, Hal. unfold fill. lia.
    + intros i Hi. change (arr !! i = g_node_arr m !! i /\ (i ∉ fn -> i ∉ seq n n)). rewrite Harr. destruct (decide (i < n)); [|lia]. split; [done|]. intros _ Hs. apply elem_of_seq in Hs. lia.
  - exists m, (g_freed_nodes m), fn. split; [done|]. split; [by destruct m|]. split; [done|]. split; [|split; [lia|split; [unfold fill; lia|done]]].
    intros ->. by cbn in Hch.
Qed.

Definition same_chans (m m' : gossmap) : Prop :=
  same_file m m' /\ g_map_end m = g_map_end m' /\ g_channels m = g_channels m' /\ g_nodes m = g_nodes m' /\ g_chan_arr m = g_chan_arr m' /\ g_freed_chans m = g_freed_chans m'.

Lemma new_node_spec m E N fn fc : wf m E N fn fc -> (Z.of_nat (2 * length (g_node_arr m)) < UINT_MAX)%Z ->
  exists m' f fn', new_node m = Ret (m', f) /\ wf m' E N fn' fc /\ same_chans m m' /\ length (g_node_arr m') <= 2 * length (g_node_arr m) /\
    fill (length (g_node_arr m)) (length fn) (length (g_node_arr m')) (length fn') 1 /\ N !! f = None /\ f ∉ fn' /\ g_node_arr m' !! f = Some (GNode 0 None) /\
    forall i, i < length (g_node_arr m) -> i ∉ fn -> g_node_arr m' !! i = g_node_arr m !! i /\ i ∉ fn' /\ i <> f.
Proof.
  intros W Hlen. destruct (grow_nodes m E N fn fc W Hlen) as (m1 & h & fn1 & Heq & Hset & W1 & Hne & Hl1 & Hfill & Hold).
  destruct fn1 as [|f fn1]; [done|]. destruct (wf_fn _ _ _ _ _ W1) as (Hnd & Hfn & Hh & h' & Hnx & Hch).
  destruct (Hfn f) as [HNf Hfl]; [left|]. unfold next_node in Hnx. destruct (g_node_arr m1 !! f) as [nd|] eqn:Hf; [|done]. cbn in Hnx. injection Hnx as <-.
  apply NoDup_cons in Hnd as [Hnin Hnd1].
  exists (set_freed_nodes (nann_off nd) (set_node_arr (<[f := GNode 0 None]> (g_node_arr m1)) m1)), f, fn1.
  split.
  { unfold new_node, next_free_node. rewrite Heq, Hh, Nat2Z.id. unfold node_at. rewrite Hf. cbn [obind].
    cbn [g_node_arr set_freed_nodes]. rewrite Hf. cbn [obind]. by rewrite (wf_node_free _ _ _ _ _ W1 f nd Hf HNf). }
  split; [|split; [|split; [|split; [|split; [done|split; [done|split]]]]]].
  - apply (wf_node_arr m1 E N (f :: fn1) fc); [done| | | |].
    + intros n id Hn. rewrite list_lookup_insert_ne; [done|]. congruence.
    + intros n nd' Hn HN. destruct (decide (f = n)) as [->|Hfn']; [rewrite list_lookup_insert_eq in Hn by done; naive_solver|].
      rewrite list_lookup_insert_ne in Hn by done. by eapply (wf_node_free _ _ _ _ _ W1).
    + split; [done|]. split; [intros n Hn; rewrite length_insert; apply Hfn; by right|].
      eapply chain_ext; [|exact Hch]. intros i Hi. unfold next_node. rewrite list_lookup_insert_ne; [done|]. congruence.
    + rewrite length_insert. apply (wf_len _ _ _ _ _ W1).
  - rewrite Hset. done.
  - cbn. rewrite length_insert. lia.
  - cbn. rewrite length_insert. revert Hfill. unfold fill. cbn [length]. lia.
  - cbn. by apply list_lookup_insert_eq.
  - intros i Hi Hin. destruct (Hold i Hi) as [Hsame Hnotin]. specialize (Hnotin Hin). apply not_elem_of_cons in Hnotin as [Hif Hi1].
    cbn. rewrite list_lookup_insert_ne by done. done.
Qed.

Definition fc_ok (E : gmap nat edge) (arr : list gossmap_chan) (h : Z) (fc : list nat) : Prop :=
  NoDup fc /\ (forall ci, ci ∈ fc -> E !! ci = None /\ ci < length arr) /\ chain (next_chan arr) h fc.

Lemma wf_chan_arr m E N fn fc arr h fc' : wf m E N fn fc ->
  (forall ci e c, E !! ci = Some e -> g_chan_arr m !! ci = Some c -> chan_ok m N e c -> exists c', arr !! ci = Some c' /\ chan_ok m N e c') ->
  (forall ci c, arr !! ci = Some c -> E !! ci = None -> plus_scid_off c = 0%Z) ->
  fc_ok E arr h fc' -> 0 < length arr -> wf (set_freed_chans h (set_chan_arr arr m)) E N fn fc'.
Proof.
  intros W Hsame Hfree Hfc Hlen. destruct W. split; try done.
  - intros ci e He. destruct (wf_chan0 ci e He) as (c & Hc & Hok). by eapply Hsame.
  - split; [apply wf_len0|done].
Qed.

Lemma grow_chans m E N fn fc : wf m E N fn fc -> (Z.of_nat (2 * length (g_chan_arr m)) < UINT_MAX)%Z ->
  exists m1 h fc1, more_chans m = m1 /\ m1 = set_freed_chans h (set_chan_arr (g_chan_arr m1) m) /\ wf m1 E N fn fc1 /\ fc1 <> [] /\
    fill (length (g_chan_arr m)) (length fc) (length (g_chan_arr m1)) (length fc1) 0.
Proof.
  intros W Hlen. pose proof (wf_len _ _ _ _ _ W) as [_ Hpos]. destruct (wf_fc _ _ _ _ _ W) as (Hnd & Hfc & Hch). unfold more_chans.
  destruct (Z.eqb_spec (g_freed_chans m) UINT_MAX) as [Hu|Hu].
  - eexists _, (Z.of_nat (length (g_chan_arr m))), (seq (length (g_chan_arr m)) (length (g_chan_arr m))). split; [reflexivity|]. split; [reflexivity|].
    unfold init_chan_arr, free_chans. set (n := length (g_chan_arr m)) in *.
    set (arr := take n (g_chan_arr m) ++ map (fun i => chan_free (link (n * 2) i)) (seq n (n * 2 - n))).
    assert (Harr : forall i, arr !! i = if decide (i < n) then g_chan_arr m !! i else if decide (i < n * 2) then Some (chan_free (link (n * 2) i)) else None).
    { intros i. apply (fresh_lookup (fun i => chan_free (link (n * 2) i))). }
    assert (Hal : length arr = n * 2).
    { unfold arr. rewrite length_app, length_fmap, length_seq, length_take. unfold n. lia. }
    assert (Hout : forall i, n <= i -> E !! i = None).
    { intros i Hi. destruct (E !! i) as [e|] eqn:HE; [|done]. destruct (wf_chan _ _ _ _ _ W i e HE) as (c & Hl & _). apply lookup_lt_Some in Hl. unfold n in Hi. lia. }
    split; [|split; [destruct n; [lia|done]|]].
    2: { rewrite (chain_end _ _ _ n Hch) by (done || lia || (intros i Hi; by apply Hfc)). change (fill n 0 (length arr) (length (seq n n)) 0). rewrite length_seq, Hal. unfold fill. lia. }
    apply (wf_chan_arr m E N fn fc arr); [done| | | |lia].
    + intros i e c Hi Hc Hok. exists c. rewrite Harr. destruct (decide (i < n)); [done|]. rewrite (Hout i) in Hi by lia. done.
    + intros i c. rewrite Harr. destruct (decide (i < n)); [apply (wf_chan_free _ _ _ _ _ W)|]. destruct (decide (i < n * 2)); naive_solver.
    + split; [apply NoDup_seq|]. split; [intros i Hi; apply elem_of_seq in Hi; split; [apply Hout|]; lia|].
      apply (chain_link _ (n * 2)); [lia|lia|]. intros i Hi. unfold next_chan. rewrite Harr. destruct (decide (i < n)); [lia|]. destruct (decide (i < n * 2)); [done|lia].
  - exists m, (g_freed_chans m), fc. split; [done|]. split; [by destruct m|]. split; [done|]. split; [intros ->; by cbn in Hch|unfold fill; lia].
Qed.

Lemma next_free_chan_spec m E N fn fc : wf m E N fn fc -> (Z.of_nat (2 * length (g_chan_arr m)) < UINT_MAX)%Z ->
  exists m' h ci fc', next_free_chan m = Ret (m', ci) /\ m' = set_freed_chans h (set_chan_arr (g_chan_arr m') m) /\
    wf m' E N fn fc' /\ fill (length (g_chan_arr m)) (length fc) (length (g_chan_arr m')) (length fc') 1 /\ E !! ci = None /\ ci ∉ fc' /\ ci < length (g_chan_arr m').
Proof.
  intros W Hlen. destruct (grow_chans m E N fn fc W Hlen) as (m1 & h & fc1 & Heq & Hset & W1 & Hne & Hfill).
  destruct fc1 as [|ci fc1]; [done|]. destruct (wf_fc _ _ _ _ _ W1) as (Hnd & Hfc & Hh & h' & Hnx & Hch).
  destruct (Hfc ci) as [HE Hl]; [left|]. unfold next_chan in Hnx. destruct (g_chan_arr m1 !! ci) as [c|] eqn:Hc; [|done]. cbn in Hnx. injection Hnx as <-.
  apply NoDup_cons in Hnd as [Hnin Hnd1].
  exists (set_freed_chans (cann_off c) m1), (cann_off c), ci, fc1.
  split; [|split; [|split; [|split; [|done]]]].
  - unfold next_free_chan. rewrite Heq, Hh, Nat2Z.id. unfold chan_at. by rewrite Hc.
  - rewrite Hset at 1. done.
  - assert (wf (set_freed_chans (cann_off c) (set_chan_arr (g_chan_arr m1) m1)) E N fn fc1) as HW; [|by destruct m1].
    apply (wf_chan_arr m1 E N fn (ci :: fc1)); [done| | | |apply (wf_len _ _ _ _ _ W1)].
    + intros i e c0 Hi Hc0 Hok. by exists c0.
    + apply (wf_chan_free _ _ _ _ _ W1).
    + split; [done|]. split; [|done]. intros i Hi. apply Hfc. by right.
  - revert Hfill. unfold fill. cbn [length g_chan_arr set_freed_chans]. lia.
Qed.

(** * Adding a channel *)

Lemma chan_ok_mono m m' N N' e c : same_file m m' -> N ⊆ N' -> chan_ok m N e c -> chan_ok m' N' e c.
Proof.
  intros Hf HN (Hp & Hs & Hne & Hside). split; [done|]. split; [by rewrite <- (scid_file m m')|]. split; [done|].
  intros d. destruct (Hside d) as (Hi & id & Hid & Hsi). split; [done|]. exists id. split; [by eapply lookup_weaken|]. by rewrite <- (side_file m m').
Qed.

(** The channels of an entry, which is a node or one to become it. *)
Definition lists (E : gmap nat edge) (n : nat) (nd : gossmap_node) : Prop :=
  NoDup (default [] (chan_idxs nd)) /\ forall ci, ci ∈ default [] (chan_idxs nd) <-> exists e d, E !! ci = Some e /\ e_node d e = n.

(** What [find_or_new] gives: a node, or an entry taken from the free ones. *)
Definition slot (m : gossmap) (N : gmap nat node_id) (fn : list nat) (id : node_id) (n : nat) (new : bool) : Prop :=
  n < length (g_node_arr m) /\ n ∉ fn /\
  if new then N !! n = None /\ g_node_arr m !! n = Some (GNode 0 None) /\ (forall n', N !! n' <> Some id) else N !! n = Some id.

Lemma slot_lists m E N fn fc id n new : wf m E N fn fc -> slot m N fn id n new -> exists nd, g_node_arr m !! n = Some nd /\ lists E n nd.
Proof.
  intros W (_ & _ & Hs). destruct new.
  - destruct Hs as (HN & Harr & _). eexists. split; [done|]. split; [constructor|]. intros ci. split; [by intros ?%elem_of_nil|].
    intros (e & d & He & Hd). destruct (wf_chan _ _ _ _ _ W ci e He) as (c & _ & _ & _ & _ & Hside). destruct (Hside d) as (_ & id' & Hid & _). congruence.
  - destruct (wf_node _ _ _ _ _ W n id Hs) as (nd & Hnd & l & Hl & _ & Hdup & Hll). exists nd. split; [done|]. split; by rewrite Hl.
Qed.

Lemma node_ok_add E ci e n nd d : E !! ci = None -> e_node d e = n -> lists E n nd -> node_ok (<[ci := e]> E) n (node_add_channel nd ci).
Proof.
  intros HE Hd [Hdup Hll]. exists (default [] (chan_idxs nd) ++ [ci]). split; [done|]. split; [by destruct (default _ _)|].
  assert (Hnin : ci ∉ default [] (chan_idxs nd)) by (intros (e' & d' & He' & _)%Hll; congruence).
  split.
  - apply NoDup_app. split; [done|]. split; [|apply NoDup_singleton]. intros x Hx ->%list_elem_of_singleton. done.
  - intros ci'. rewrite elem_of_app, list_elem_of_singleton, Hll. split.
    + intros [(e' & d' & He' & Hd')| ->]; [|exists e, d; by rewrite lookup_insert_eq]. exists e', d'. rewrite lookup_insert_ne by congruence. done.
    + intros (e' & d' & He' & Hd'). destruct (decide (ci = ci')) as [->|Hne]; [by right|]. rewrite lookup_insert_ne in He' by done. left. eauto.
Qed.

Lemma node_ok_other E ci e n nd : E !! ci = None -> (forall d, e_node d e <> n) -> node_ok E n nd -> node_ok (<[ci := e]> E) n nd.
Proof.
  intros HE Hd (l & Hl & Hne & Hdup & Hll). exists l. split; [done|]. split; [done|]. split; [done|].
  intros ci'. rewrite Hll. split; intros (e' & d' & He' & Hd'); exists e', d'.
  - rewrite lookup_insert_ne by congruence. done.
  - destruct (decide (ci = ci')) as [->|Hn]; [rewrite lookup_insert_eq in He'; naive_solver|]. by rewrite lookup_insert_ne in He' by done.
Qed.

(** The map with one more channel. *)
Definition with_channel (m : gossmap) (ci : nat) (c : gossmap_chan) (n0 n1 : nat) (a b : gossmap_node) (new0 new1 : bool) : gossmap :=
  set_nodes (g_nodes m ++ (if new0 then [n0] else []) ++ (if new1 then [n1] else []))
    (set_channels (g_channels m ++ [ci])
      (set_node_arr (<[n1 := node_add_channel b ci]> (<[n0 := node_add_channel a ci]> (g_node_arr m)))
        (set_chan_arr (<[ci := c]> (g_chan_arr m)) m))).

Lemma slot_N m N fn n id new : slot m N fn id n new -> N !! n = None \/ N !! n = Some id.
Proof. intros (_ & _ & Hs). destruct new; naive_solver. Qed.

Lemma add_sub (N : gmap nat node_id) n0 n1 id0 id1 : (N !! n0 = None \/ N !! n0 = Some id0) -> (N !! n1 = None \/ N !! n1 = Some id1) ->
  N ⊆ <[n1 := id1]> (<[n0 := id0]> N).
Proof. intros H0 H1. apply map_subseteq_spec. intros n id Hi. rewrite !lookup_insert_Some. destruct (decide (n1 = n)), (decide (n0 = n)); naive_solver. Qed.

Section Add.
  Context {m : gossmap} {E : gmap nat edge} {N : gmap nat node_id} {fn fc : list nat}.
  Hypothesis W : wf m E N fn fc.
  Context (ci : nat) (c : gossmap_chan) (n0 n1 : nat) (a b : gossmap_node) (new0 new1 : bool) (s : short_channel_id) (id0 id1 : node_id).
  Hypothesis Hci : E !! ci = None /\ ci ∉ fc /\ ci < length (g_chan_arr m).
  Hypothesis Hs0 : slot m N fn id0 n0 new0.
  Hypothesis Hs1 : slot m N fn id1 n1 new1.
  Hypothesis Hn : n0 <> n1.
  Hypothesis Hid : id0 <> id1.
  Hypothesis Ha : g_node_arr m !! n0 = Some a.
  Hypothesis Hb : g_node_arr m !! n1 = Some b.
  Hypothesis Hfresh : forall ci e, E !! ci = Some e -> e_scid e <> s.
  Hypothesis Hc : plus_scid_off c <> 0%Z /\ gossmap_chan_scid m c = Ret s /\ side_id m c false = Ret id0 /\ side_id m c true = Ret id1 /\
    hc_nodeidx (at0 (half c)) = n0 /\ hc_nodeidx (at1 (half c)) = n1.
Let E' : gmap nat edge := <[ci := (s, n0, n1)]> E.
Let N' : gmap nat node_id := <[n1 := id1]> (<[n0 := id0]> N).
Let m' : gossmap := with_channel m ci c n0 n1 a b new0 new1.

Lemma add_N n id : N' !! n = Some id -> (n = n1 /\ id = id1) \/ (n = n0 /\ id = id0) \/ (n <> n0 /\ n <> n1 /\ N !! n = Some id).
Proof.
  unfold N'. destruct (decide (n1 = n)) as [->|]; [rewrite lookup_insert_eq; naive_solver|rewrite lookup_insert_ne by done].
  destruct (decide (n0 = n)) as [->|]; [rewrite lookup_insert_eq; naive_solver|rewrite lookup_insert_ne by done]. naive_solver.
Qed.

Lemma add_nodes_table : NoDup (g_nodes m') /\ forall n, n ∈ g_nodes m' <-> is_Some (N' !! n).
Proof.
  destruct (wf_nodes _ _ _ _ _ W) as [Hdup Hns]. change (g_nodes m') with (g_nodes m ++ (if new0 then [n0] else []) ++ (if new1 then [n1] else [])).
  assert (Hnew0 : if new0 then n0 ∉ g_nodes m else n0 ∈ g_nodes m) by (destruct Hs0 as (_ & _ & H); destruct new0; rewrite Hns; [destruct H as [-> _]; by intros []|rewrite H; eauto]).
  assert (Hnew1 : if new1 then n1 ∉ g_nodes m else n1 ∈ g_nodes m) by (destruct Hs1 as (_ & _ & H); destruct new1; rewrite Hns; [destruct H as [-> _]; by intros []|rewrite H; eauto]).
  split.
  - apply NoDup_app. split; [done|]. split.
    + intros x Hx Hin. destruct new0, new1; set_solver.
    + destruct new0, new1; cbn; repeat (apply NoDup_cons; split); try apply NoDup_nil_2; set_solver.
  - intros n. rewrite !elem_of_app, Hns. unfold N'. destruct (decide (n1 = n)) as [->|H1]; [|destruct (decide (n0 = n)) as [->|H0]].
    + rewrite lookup_insert_eq. split; [eauto|]. intros _. destruct new1; [set_solver|]. left. by apply Hns.
    + rewrite lookup_insert_ne, lookup_insert_eq by done. split; [eauto|]. intros _. destruct new0; [set_solver|]. left. by apply Hns.
    + rewrite !lookup_insert_ne by done. destruct new0, new1; set_solver.
Qed.

Lemma add_ids x y id : N' !! x = Some id -> N' !! y = Some id -> x = y.
Proof.
  intros Hx Hy. destruct Hs0 as (_ & _ & S0), Hs1 as (_ & _ & S1).
  assert (U0 : forall z, N !! z = Some id0 -> z = n0) by (intros z Hz; destruct new0; [by destruct S0 as (_ & _ & S0); destruct (S0 z)|by eapply (wf_ids _ _ _ _ _ W)]).
  assert (U1 : forall z, N !! z = Some id1 -> z = n1) by (intros z Hz; destruct new1; [by destruct S1 as (_ & _ & S1); destruct (S1 z)|by eapply (wf_ids _ _ _ _ _ W)]).
  pose proof (wf_ids _ _ _ _ _ W x y id).
  apply add_N in Hx as [[-> ->]|[[-> ->]|(? & ? & ?)]], Hy as [[-> ?]|[[-> ?]|(? & ? & ?)]]; subst; naive_solver.
Qed.

Lemma add_node n id : N' !! n = Some id -> exists nd, g_node_arr m' !! n = Some nd /\ node_ok E' n nd.
Proof.
  destruct Hci as (HE & _), Hs0 as (Hl0 & _), Hs1 as (Hl1 & _).
  intros Hi. change (g_node_arr m') with (<[n1 := node_add_channel b ci]> (<[n0 := node_add_channel a ci]> (g_node_arr m))).
  destruct (slot_lists _ _ _ _ _ _ _ _ W Hs0) as (a' & Ha' & Hla), (slot_lists _ _ _ _ _ _ _ _ W Hs1) as (b' & Hb' & Hlb). assert (a' = a) as -> by congruence. assert (b' = b) as -> by congruence.
  apply add_N in Hi as [[-> ->]|[[-> ->]|(H0 & H1 & HN)]].
  - rewrite list_lookup_insert_eq by (rewrite length_insert; done). eexists. split; [done|]. by apply (node_ok_add _ _ _ _ _ true).
  - rewrite list_lookup_insert_ne, list_lookup_insert_eq by done. eexists. split; [done|]. by apply (node_ok_add _ _ _ _ _ false).
  - rewrite !list_lookup_insert_ne by done. destruct (wf_node _ _ _ _ _ W n id HN) as (nd & Hnd & Hok). exists nd. split; [done|]. apply node_ok_other; [done| |done]. by intros [].
Qed.

Lemma add_wf : wf m' E' N' fn fc.
Proof.
  pose proof (add_sub N n0 n1 id0 id1 (slot_N _ _ _ _ _ _ Hs0) (slot_N _ _ _ _ _ _ Hs1)) as Hsub. destruct Hci as (HE & Hfc & Hcl), Hs0 as (Hl0 & Hf0 & _), Hs1 as (Hl1 & Hf1 & _).
  destruct Hc as (Hp & Hsc & Hi0 & Hi1 & Hx0 & Hx1).
  assert (Hfile : same_file m m') by by split.
  split.
  - destruct (wf_channels _ _ _ _ _ W) as [Hdup Hch]. change (g_channels m') with (g_channels m ++ [ci]). split.
    + apply NoDup_app. split; [done|]. split; [|apply NoDup_singleton]. intros x Hx ->%list_elem_of_singleton. apply Hch in Hx. rewrite HE in Hx. by destruct Hx.
    + intros x. rewrite elem_of_app, list_elem_of_singleton, Hch. unfold E'. destruct (decide (ci = x)) as [->|]; [rewrite lookup_insert_eq; split; eauto|].
      rewrite lookup_insert_ne by done. naive_solver.
  - apply add_nodes_table.
  - intros x e. unfold E'. change (g_chan_arr m') with (<[ci := c]> (g_chan_arr m)). destruct (decide (ci = x)) as [->|Hx].
    + rewrite lookup_insert_eq, list_lookup_insert_eq by done. intros [= <-]. exists c. split; [done|].
      split; [done|]. split; [by rewrite <- (scid_file m m')|]. split; [done|].
      intros [|]; cbn; (split; [done|]); eexists; (split; [|rewrite <- (side_file m m') by done; eassumption]); unfold N'; [by rewrite lookup_insert_eq|by rewrite lookup_insert_ne, lookup_insert_eq by done].
    + rewrite lookup_insert_ne, list_lookup_insert_ne by done. intros He. destruct (wf_chan _ _ _ _ _ W x e He) as (c' & Hc' & Hok). exists c'. split; [done|]. by eapply chan_ok_mono.
  - apply add_node.
  - intros x c'. change (g_chan_arr m') with (<[ci := c]> (g_chan_arr m)). unfold E'. intros Hx HEx. assert (ci <> x) by (intros Heq; rewrite Heq, lookup_insert_eq in HEx; done).
    rewrite lookup_insert_ne in HEx by done. rewrite list_lookup_insert_ne in Hx by done. by eapply (wf_chan_free _ _ _ _ _ W).
  - intros n nd. change (g_node_arr m') with (<[n1 := node_add_channel b ci]> (<[n0 := node_add_channel a ci]> (g_node_arr m))). intros Hx HNx.
    assert (n1 <> n) by (intros ->; unfold N' in HNx; by rewrite lookup_insert_eq in HNx).
    assert (n0 <> n) by (intros ->; unfold N' in HNx; by rewrite lookup_insert_ne, lookup_insert_eq in HNx).
    rewrite !list_lookup_insert_ne in Hx by done. unfold N' in HNx. rewrite !lookup_insert_ne in HNx by done. by eapply (wf_node_free _ _ _ _ _ W).
  - intros x y e e'. unfold E'. rewrite !lookup_insert_Some. intros [[<- <-]|[_ He]] [[<- <-]|[_ He']]; [done| | |by apply (wf_scids _ _ _ _ _ W)].
    + intros Hs. by destruct (Hfresh y e').
    + intros Hs. by destruct (Hfresh x e).
  - apply add_ids.
  - destruct (wf_fn _ _ _ _ _ W) as (Hdup & Hfn & Hch). split; [done|]. change (g_node_arr m') with (<[n1 := node_add_channel b ci]> (<[n0 := node_add_channel a ci]> (g_node_arr m))). rewrite !length_insert. split.
    + intros n Hin. destruct (Hfn n Hin). split; [|done]. unfold N'. rewrite !lookup_insert_ne by congruence. done.
    + eapply chain_ext; [|exact Hch]. intros i Hi. unfold next_node. rewrite !list_lookup_insert_ne by congruence. done.
  - destruct (wf_fc _ _ _ _ _ W) as (Hdup & Hfcc & Hch). split; [done|]. change (g_chan_arr m') with (<[ci := c]> (g_chan_arr m)). rewrite !length_insert. split.
    + intros x Hin. destruct (Hfcc x Hin). split; [|done]. unfold E'. rewrite lookup_insert_ne by congruence. done.
    + eapply chain_ext; [|exact Hch]. intros i Hi. unfold next_chan. rewrite !list_lookup_insert_ne by congruence. done.
  - destruct (wf_len _ _ _ _ _ W). cbn. rewrite !length_insert. done.
Qed.

End Add.

#[export] Instance node_id_eq_dec : EqDecision node_id.
Proof. solve_decision. Defined.
#[export] Instance scid_eq_dec : EqDecision short_channel_id.
Proof. solve_decision. Defined.

Lemma find_or_new_spec m E N fn fc id : wf m E N fn fc -> (Z.of_nat (2 * length (g_node_arr m)) < UINT_MAX)%Z ->
  exists m' n new fn', find_or_new m id = Ret (m', n, new) /\ wf m' E N fn' fc /\ same_chans m m' /\ length (g_node_arr m') <= 2 * length (g_node_arr m) /\
    fill (length (g_node_arr m)) (length fn) (length (g_node_arr m')) (length fn') 1 /\ slot m' N fn' id n new /\ (new = true -> forall id' n' new', slot m N fn id' n' new' -> n' <> n) /\
    (forall id' n' new', slot m N fn id' n' new' -> slot m' N fn' id' n' new').
Proof.
  intros W Hlen. destruct (decide (map_Exists (fun _ i => i = id) N)) as [Hex|Hno].
  - destruct Hex as (n & i & Hn & ->). destruct (wf_node _ _ _ _ _ W n id Hn) as (nd & Hnd & _). apply lookup_lt_Some in Hnd as Hlt.
    exists m, n, false, fn. unfold find_or_new. rewrite (find_node_some W n id Hn). cbn [obind]. unfold gossmap_node_idx.
    apply Nat.ltb_lt in Hlt as Hltb. rewrite Hltb. cbn [assert_ obind]. split; [done|]. split; [done|]. split; [done|]. split; [lia|]. split; [unfold fill; lia|]. split; [|by split].
    split; [done|]. split; [|done]. destruct (wf_fn _ _ _ _ _ W) as (_ & Hfn & _). intros Hin. apply Hfn in Hin as [HN _]. congruence.
  - assert (Hn : forall n, N !! n <> Some id) by (intros n Hn; apply Hno; by exists n, id).
    destruct (new_node_spec m E N fn fc W Hlen) as (m' & f & fn' & Heq & W' & Hsame & Hl & Hfill & HNf & Hfn' & Hf & Hold).
    exists m', f, true, fn'. unfold find_or_new. rewrite (find_node_none W id Hn). cbn [obind]. rewrite Heq. cbn [obind].
    split; [done|]. split; [done|]. split; [done|]. split; [done|]. split; [done|]. split; [|split].
    + split; [by eapply lookup_lt_Some|]. split; [done|]. done.
    + intros _ id' n' new' (Hlt & Hnin & _). by apply (Hold n' Hlt Hnin).
    + intros id' n' new' (Hlt & Hnin & Hs). destruct (Hold n' Hlt Hnin) as (Harr & Hnin' & _).
      assert (Hlt' : n' < length (g_node_arr m')) by (apply lookup_lt_is_Some; rewrite Harr; by apply lookup_lt_is_Some).
      split; [done|]. split; [done|]. by rewrite Harr.
Qed.

(** What the bytes of a channel announcement say. *)
Definition announces (m : gossmap) (off : Z) (s : short_channel_id) (id0 id1 : node_id) : Prop :=
  exists fl, map_be16 m (off + CANN_FEATURE_LEN_OFF) = Ret fl /\ (0 <= fl < 65536)%Z /\
    let scid := (off + (CANN_FEATURE_LEN_OFF + 2 + fl + 32))%Z in
    (0 <= off /\ scid + 8 + 33 + 33 < u32_mod)%Z /\
    map_be64 m scid = Ret (scid_u64 s) /\ map_nodeid m (scid + 8) = Ret id0 /\ map_nodeid m (scid + 8 + PUBKEY_CMPR_LEN) = Ret id1.

Lemma announces_file m m' off s id0 id1 : same_file m m' -> announces m off s id0 id1 -> announces m' off s id0 id1.
Proof.
  intros Hf (fl & H). exists fl. revert H. unfold map_be16, map_be64, map_be, map_nodeid. by rewrite !(map_copy_file m m').
Qed.

Lemma slot_chans m m' N fn id n new : g_node_arr m = g_node_arr m' -> slot m N fn id n new -> slot m' N fn id n new.
Proof. intros Heq. unfold slot. by rewrite Heq. Qed.

(** What [new_channel] writes. *)
Definition fresh_chan (off plus : Z) (private : bool) (n0 n1 : nat) : gossmap_chan :=
  GChan (wrap32 off) private (plus mod 2147483648) (Two 0 0)%Z (Two (Half false n0 0 0 0 0 0) (Half false n1 0 0 0 0 0)).

Lemma fresh_chan_reads m off fl private n0 n1 s id0 id1 : (0 <= fl < 65536)%Z ->
  let plus := (CANN_FEATURE_LEN_OFF + 2 + fl + 32)%Z in
  (0 <= off /\ off + plus + 8 + 33 + 33 < u32_mod)%Z ->
  map_be64 m (off + plus) = Ret (scid_u64 s) -> map_nodeid m (off + plus + 8) = Ret id0 -> map_nodeid m (off + plus + 8 + PUBKEY_CMPR_LEN) = Ret id1 ->
  let c := fresh_chan off plus private n0 n1 in
  plus_scid_off c <> 0%Z /\ gossmap_chan_scid m c = Ret s /\ side_id m c false = Ret id0 /\ side_id m c true = Ret id1 /\
  hc_nodeidx (at0 (half c)) = n0 /\ hc_nodeidx (at1 (half c)) = n1.
Proof.
  intros Hfl plus Hb Hs H0 H1 c. unfold CANN_FEATURE_LEN_OFF, u32_mod in *.
  assert (Hw : wrap32 off = off) by (unfold wrap32, u32_mod; apply Z.mod_small; lia).
  assert (Hp : plus_scid_off c = plus) by (apply Z.mod_small; lia).
  split; [rewrite Hp; lia|]. unfold gossmap_chan_scid, side_id. change (cann_off c) with (wrap32 off). rewrite Hp, Hw.
  unfold wrap32, u32_mod, PUBKEY_CMPR_LEN in *. rewrite !Z.mod_small by lia.
  rewrite Hs, Z.mul_0_r, Z.add_0_r, H0, Z.mul_1_r, H1. by destruct s.
Qed.

Lemma new_channel_run m0 m ci off plus private n0 n1 a b s : next_free_chan m0 = Ret (m, ci) -> ci < length (g_chan_arr m) ->
  g_node_arr m !! n0 = Some a -> g_node_arr m !! n1 = Some b -> n0 <> n1 -> gossmap_chan_scid m (fresh_chan off plus private n0 n1) = Ret s ->
  new_channel m0 off plus private n0 n1 = Ret (set_nodes (g_nodes m) (with_channel m ci (fresh_chan off plus private n0 n1) n0 n1 a b false false), ci).
Proof.
  intros Heq Hci Ha Hb Hn Hs. unfold new_channel. rewrite Heq. cbn [obind]. unfold node_at at 1. cbn [g_node_arr set_chan_arr]. rewrite Ha. cbn [obind].
  unfold node_at. cbn [g_node_arr set_chan_arr set_node_arr]. rewrite list_lookup_insert_ne, Hb by done. cbn [obind].
  unfold chanidx_id, chan_at. cbn [g_chan_arr set_chan_arr set_node_arr]. rewrite list_lookup_insert_eq by done. cbn [obind].
  change (gossmap_chan_scid _ _) with (gossmap_chan_scid m (fresh_chan off plus private n0 n1)). rewrite Hs. done.
Qed.

Lemma add_channel_spec m E N fn fc off private s id0 id1 : wf m E N fn fc ->
  (Z.of_nat (4 * length (g_node_arr m)) < UINT_MAX)%Z -> (Z.of_nat (2 * length (g_chan_arr m)) < UINT_MAX)%Z ->
  announces m off s id0 id1 -> id0 <> id1 -> (forall ci e, E !! ci = Some e -> e_scid e <> s) ->
  exists m' ci n0 n1 fn' fc', add_channel m off private = Ret (m', ci) /\ E !! ci = None /\ same_file m m' /\ g_map_end m = g_map_end m' /\
    fill (length (g_node_arr m)) (length fn) (length (g_node_arr m')) (length fn') 2 /\ fill (length (g_chan_arr m)) (length fc) (length (g_chan_arr m')) (length fc') 1 /\ N ⊆ <[n1 := id1]> (<[n0 := id0]> N) /\ n0 <> n1 /\
    wf m' (<[ci := (s, n0, n1)]> E) (<[n1 := id1]> (<[n0 := id0]> N)) fn' fc'.
Proof.
  intros W Hl4 Hl2 Hann Hid Hfresh.
  destruct (find_or_new_spec m E N fn fc id0 W) as (m1 & n0 & new0 & fn1 & Heq1 & W1 & Hsame1 & Hl1 & Hfill1 & S0 & _ & _); [lia|].
  destruct (find_or_new_spec m1 E N fn1 fc id1 W1) as (m2 & n1 & new1 & fn2 & Heq2 & W2 & Hsame2 & Hlen2 & Hfill2 & S1 & Hdiff & Hkeep); [lia|].
  apply Hkeep in S0 as S0'.
  assert (Hn : n0 <> n1).
  { destruct new1; [by eapply Hdiff|]. destruct S1 as (_ & _ & S1), S0 as (_ & _ & S0). destruct new0; [destruct S0; congruence|congruence]. }
  destruct Hsame1 as (Hf1 & He1 & _ & _ & Hca1 & _), Hsame2 as (Hf2 & He2 & _ & _ & Hca2 & _).
  destruct (next_free_chan_spec m2 E N fn2 fc W2) as (m3 & h & ci & fc3 & Heq3 & Hset3 & W3 & Hfill3 & HE & Hfc3 & Hcl); [rewrite <- Hca2, <- Hca1; done|].
  assert (Hna : g_node_arr m2 = g_node_arr m3) by by rewrite Hset3. assert (Hf3 : same_file m2 m3) by by rewrite Hset3.
  apply (slot_chans _ _ _ _ _ _ _ Hna) in S0', S1.
  destruct (slot_lists _ _ _ _ _ _ _ _ W3 S0') as (a & Ha & _), (slot_lists _ _ _ _ _ _ _ _ W3 S1) as (b & Hb & _).
  assert (Hfile : same_file m m3) by (destruct Hf1, Hf2, Hf3; split; congruence).
  destruct Hann as (fl & Hfl & Hflb & Hbnd & Hsc & Hi0 & Hi1). cbv zeta in Hbnd, Hsc, Hi0, Hi1.
  set (plus := (CANN_FEATURE_LEN_OFF + 2 + fl + 32)%Z) in *.
  pose proof (fresh_chan_reads m off fl private n0 n1 s id0 id1 Hflb Hbnd Hsc Hi0 Hi1) as Hc. fold plus in Hc. cbv zeta in Hc.
  rewrite !(side_file m m3), (scid_file m m3) in Hc by done.
  pose proof (add_wf W3 ci (fresh_chan off plus private n0 n1) n0 n1 a b new0 new1 s id0 id1 (conj HE (conj Hfc3 Hcl)) S0' S1 Hn Hid Ha Hb Hfresh Hc) as W4.
  exists (with_channel m3 ci (fresh_chan off plus private n0 n1) n0 n1 a b new0 new1), ci, n0, n1, fn2, fc3. split; [|split; [done|split; [|split; [rewrite He1, He2, Hset3; done|split; [cbn; rewrite !length_insert, <- Hna; exact (fill_trans _ _ _ _ _ _ 1 1 Hfill1 Hfill2)|split; [cbn; rewrite length_insert, Hca1, Hca2; exact Hfill3|split; [exact (add_sub N n0 n1 id0 id1 (slot_N _ _ _ _ _ _ S0') (slot_N _ _ _ _ _ _ S1))|split; [done|exact W4]]]]]]]]; [|done].
  unfold add_channel. rewrite Hfl. cbn [obind]. fold plus. rewrite Hi0. cbn [obind]. rewrite Hi1. cbn [obind]. rewrite Heq1. cbn [obind]. rewrite Heq2. cbn [obind].
  rewrite (new_channel_run m2 m3 ci off plus private n0 n1 a b s) by (done || apply Hc). cbn [obind].
  pose proof (node_key W4 n0 id0) as K0. rewrite lookup_insert_ne, lookup_insert_eq in K0 by done. specialize (K0 eq_refl).
  pose proof (node_key W4 n1 id1) as K1. rewrite lookup_insert_eq in K1. specialize (K1 eq_refl).
  set (m4 := set_nodes (g_nodes m3) (with_channel m3 ci (fresh_chan off plus private n0 n1) n0 n1 a b false false)).
  assert (A0 : forall v, nodeidx_htable_add (set_nodes v m4) n0 = Ret (set_nodes (v ++ [n0]) m4)).
  { intros v. unfold nodeidx_htable_add. change (nodeidx_id (set_nodes v m4) n0) with (nodeidx_id (with_channel m3 ci (fresh_chan off plus private n0 n1) n0 n1 a b new0 new1) n0). by rewrite K0. }
  assert (A1 : forall v, nodeidx_htable_add (set_nodes v m4) n1 = Ret (set_nodes (v ++ [n1]) m4)).
  { intros v. unfold nodeidx_htable_add. change (nodeidx_id (set_nodes v m4) n1) with (nodeidx_id (with_channel m3 ci (fresh_chan off plus private n0 n1) n0 n1 a b new0 new1) n1). by rewrite K1. }
  change m4 with (set_nodes (g_nodes m3) m4). unfold with_channel. destruct new0, new1; rewrite ?A0; cbn [obind]; rewrite ?A1; cbn [obind app]; rewrite <- ?(assoc_L (++)), ?app_nil_r; done.
Qed.

(** * Removing a channel *)

(** The tables of the nodes, when node [n] lists the channels [I n]. *)
Definition nodes_ok (m : gossmap) (I : nat -> nat -> Prop) (N : gmap nat node_id) (fn : list nat) : Prop :=
  (NoDup (g_nodes m) /\ forall n, n ∈ g_nodes m <-> is_Some (N !! n)) /\
  (forall n id, N !! n = Some id -> exists nd l, g_node_arr m !! n = Some nd /\ chan_idxs nd = Some l /\ l <> [] /\ NoDup l /\ forall ci, ci ∈ l <-> I n ci) /\
  (forall n nd, g_node_arr m !! n = Some nd -> N !! n = None -> chan_idxs nd = None) /\
  fn_ok N (g_node_arr m) (g_freed_nodes m) fn.

(** The parts of the map that [remove_chan_from_node] leaves alone. *)
Definition same_but_nodes (m m' : gossmap) : Prop :=
  same_file m m' /\ g_map_end m = g_map_end m' /\ g_channels m = g_channels m' /\ g_chan_arr m = g_chan_arr m' /\ g_freed_chans m = g_freed_chans m' /\
  length (g_node_arr m) = length (g_node_arr m').

Lemma remove_idx_spec ci l : ci ∈ l -> NoDup l -> exists l', remove_idx ci l = Some l' /\ NoDup l' /\ S (length l') = length l /\ forall x, x ∈ l' <-> x ∈ l /\ x <> ci.
Proof.
  intros Hin Hdup. unfold remove_idx. destruct (list_find (eq ci) l) as [[i y]|] eqn:Hf.
  - apply list_find_Some in Hf as (Hi & <- & _). assert (Hp : l ≡ₚ ci :: (take i l ++ drop (S i) l)) by (rewrite <- (take_drop_middle l i ci Hi) at 1; solve_Permutation).
    exists (take i l ++ drop (S i) l). split; [done|]. revert Hp. generalize (take i l ++ drop (S i) l). intros l' Hp.
    rewrite Hp in Hdup. apply NoDup_cons in Hdup as [Hnin Hdup]. split; [done|]. split; [by rewrite Hp|].
    intros x. rewrite Hp, elem_of_cons. split; [intros Hx; split; [by right|congruence]|naive_solver].
  - apply list_find_None in Hf. rewrite Forall_forall in Hf. by destruct (Hf ci Hin).
Qed.

(** The channels of the other nodes stay. *)
Definition but (I : nat -> nat -> Prop) (n ci : nat) : nat -> nat -> Prop := fun n' ci' => I n' ci' /\ (n', ci') <> (n, ci).

Lemma but_other I n ci n' (l : list nat) : n' <> n -> (forall c, c ∈ l <-> I n' c) -> forall c, c ∈ l <-> but I n ci n' c.
Proof. intros Hn Hl c. rewrite Hl. unfold but. naive_solver congruence. Qed.

Lemma remove_node_spec m I N fn n id id' ci : nodes_ok m I N fn -> N !! n = Some id -> nodeidx_id m n = Ret id' ->
  exists m', remove_node m n = Ret m' /\ nodes_ok m' (but I n ci) (delete n N) (n :: fn) /\ same_but_nodes m m' /\
    forall n', n' <> n -> g_node_arr m' !! n' = g_node_arr m !! n'.
Proof.
  intros (Hns & Hno & Hfree & Hfn) Hn Hkey. destruct (Hno n id Hn) as (nd & _ & Hnd & _). apply lookup_lt_Some in Hnd as Hlt.
  destruct Hns as [Hnd' Hns], Hfn as (Hfd & Hfn & Hch). assert (Hnn : n ∈ g_nodes m) by (apply Hns; eauto).
  eexists. split; [|split; [|split]].
  - unfold remove_node. rewrite Hkey. cbn [obind]. rewrite bool_decide_eq_true_2 by done. reflexivity.
  - assert (Hnfn : n ∉ fn) by (intros Hx; apply Hfn in Hx as [Hx _]; congruence). cbn. split; [split|split; [|split; [|split; [|split]]]]; cbn.
    + by apply NoDup_ListNoDup, List.NoDup_filter, NoDup_ListNoDup.
    + intros x. rewrite list_elem_of_In, filter_In, <- list_elem_of_In, Hns, negb_true_iff, Nat.eqb_neq. destruct (decide (n = x)) as [->|]; [rewrite lookup_delete_eq; split; [naive_solver|by intros []]|].
      rewrite lookup_delete_ne by done. naive_solver.
    + intros x i. rewrite lookup_delete_Some. intros [Hx Hi]. destruct (Hno x i Hi) as (nd2 & l2 & Hnd2 & Hl2 & Hne2 & Hdup2 & Hll2).
      exists nd2, l2. rewrite list_lookup_insert_ne by done. split; [done|]. split; [done|]. split; [done|]. split; [done|]. by apply but_other.
    + intros x nd2. destruct (decide (n = x)) as [->|]; [rewrite list_lookup_insert_eq by done; by intros [= <-]|]. rewrite list_lookup_insert_ne, lookup_delete_ne by done. apply Hfree.
    + by apply NoDup_cons.
    + intros x. rewrite elem_of_cons, length_insert. intros [->|Hx]; [by rewrite lookup_delete_eq|]. destruct (Hfn x Hx). split; [|done]. apply lookup_delete_None. by right.
    + split; [done|]. exists (g_freed_nodes m). unfold next_node at 1. rewrite list_lookup_insert_eq by done. split; [done|].
      eapply chain_ext; [|exact Hch]. intros x Hx. unfold next_node. rewrite list_lookup_insert_ne by congruence. done.
  - repeat split; cbn; by rewrite ?length_insert.
  - intros n' Hn'. cbn. by rewrite list_lookup_insert_ne by done.
Qed.

Lemma remove_chan_from_node_spec m I N fn n id id' ci : nodes_ok m I N fn -> N !! n = Some id -> I n ci -> nodeidx_id m n = Ret id' ->
  exists m' N' fn', remove_chan_from_node m n ci = Ret m' /\ nodes_ok m' (but I n ci) N' fn' /\ length fn <= length fn' /\ same_but_nodes m m' /\
    (forall n', n' <> n -> g_node_arr m' !! n' = g_node_arr m !! n') /\ (N' = N \/ (N' = delete n N /\ forall ci', I n ci' -> ci' = ci)).
Proof.
  intros Hok Hn HI Hkey. destruct Hok as (Hns & Hno & Hfree & Hfn) eqn:Heq. clear Heq. destruct (Hno n id Hn) as (nd & l & Hnd & Hl & Hne & Hdup & Hll).
  assert (Hin : ci ∈ l) by by apply Hll. assert (Hlt : n < length (g_node_arr m)) by by eapply lookup_lt_Some.
  unfold remove_chan_from_node, node_at. rewrite Hnd. cbn [obind]. unfold num_chans. rewrite Hl. change (default [] (Some l)) with l.
  destruct (Nat.eqb_spec (length l) 1) as [H1|H1].
  - assert (l = [ci]) as -> by (destruct l as [|x [|]]; [done| |done]; apply list_elem_of_singleton in Hin; congruence).
    destruct (remove_node_spec m I N fn n id id' ci Hok Hn Hkey) as (m' & Hm' & Hok' & Hsame & Hoth). exists m', (delete n N), (n :: fn).
    split; [done|]. split; [done|]. split; [cbn; lia|]. split; [done|]. split; [done|]. right. split; [done|]. intros ci' Hci'. apply Hll, list_elem_of_singleton in Hci'. done.
  - destruct (remove_idx_spec ci l Hin Hdup) as (l' & Hrm & Hdup' & Hlen & Hl'). rewrite Hrm.
    eexists _, N, fn. split; [reflexivity|]. split; [|split; [done|split; [|split; [|by left]]]].
    + split; [done|]. split; [|split]; cbn.
      * intros x i Hi. destruct (decide (n = x)) as [->|Hx].
        -- rewrite list_lookup_insert_eq by done. eexists _, l'. split; [done|]. split; [done|]. split; [intros ->; cbn in Hlen; lia|]. split; [done|].
           intros c. rewrite Hl', Hll. unfold but. naive_solver congruence.
        -- rewrite list_lookup_insert_ne by done. destruct (Hno x i Hi) as (nd2 & l2 & Hnd2 & Hl2 & Hne2 & Hdup2 & Hll2). exists nd2, l2.
           split; [done|]. split; [done|]. split; [done|]. split; [done|]. by apply but_other.
      * intros x nd2. destruct (decide (n = x)) as [->|]; [intros _; congruence|]. rewrite list_lookup_insert_ne by done. apply Hfree.
      * destruct Hfn as (Hfd & Hfn & Hch). split; [done|]. rewrite length_insert. split; [done|].
        eapply chain_ext; [|exact Hch]. intros x Hx. unfold next_node. rewrite list_lookup_insert_ne; [done|]. intros ->. apply Hfn in Hx as [Hx _]. congruence.
    + repeat split; cbn; by rewrite ?length_insert.
    + intros n' Hn'. cbn. by rewrite list_lookup_insert_ne by done.
Qed.

(** The channels at a node. *)
Definition incident (E : gmap nat edge) : nat -> nat -> Prop := fun n ci => exists e d, E !! ci = Some e /\ e_node d e = n.

Lemma wf_nodes_ok m E N fn fc : wf m E N fn fc -> nodes_ok m (incident E) N fn.
Proof.
  intros W. split; [apply W|]. split; [|split; [apply (wf_node_free _ _ _ _ _ W)|apply W]].
  intros n id Hn. destruct (wf_node _ _ _ _ _ W n id Hn) as (nd & Hnd & l & H). by exists nd, l.
Qed.

Lemma nodeidx_id_arr m m' n : same_file m m' -> g_chan_arr m = g_chan_arr m' -> g_node_arr m !! n = g_node_arr m' !! n -> nodeidx_id m n = nodeidx_id m' n.
Proof.
  intros Hf Hc Hn. unfold nodeidx_id, gossmap_node_get_id, gossmap_nth_chan, node_at, chan_at, map_nodeid. rewrite Hn, Hc.
  destruct (g_node_arr m' !! n) as [nd|]; [|done]. cbn [obind]. destruct (assert_ (0 <? num_chans nd) _); [|done]. cbn [obind].
  destruct (default [] (chan_idxs nd) !! 0) as [ci|]; [|done]. destruct (assert_ _ _); [|done]. cbn [obind]. destruct (g_chan_arr m' !! ci) as [c|] eqn:Hci; [|done]. cbn [obind].
  destruct (_ =? n); cbn [obind]; [rewrite Hci; cbn [obind]; by rewrite (map_copy_file m m')|]. destruct (assert_ _ _); [|done]. cbn [obind]. rewrite Hci. cbn [obind]. by rewrite (map_copy_file m m').
Qed.

Lemma nodes_ok_ext m I I' N fn : (forall n ci, I n ci <-> I' n ci) -> nodes_ok m I N fn -> nodes_ok m I' N fn.
Proof.
  intros HI (Hns & Hno & Hrest). split; [done|]. split; [|done]. intros n id Hn. destruct (Hno n id Hn) as (nd & l & Hnd & Hl & Hne & Hdup & Hll).
  exists nd, l. split; [done|]. split; [done|]. split; [done|]. split; [done|]. intros ci. by rewrite Hll.
Qed.

Lemma but_incident (E : gmap nat edge) ci s n0 n1 n c : E !! ci = Some ((s, n0, n1) : edge) -> but (but (incident E) n0 ci) n1 ci n c <-> incident (delete ci E) n c.
Proof.
  intros He. unfold but, incident. split.
  - intros [[(e & d & Hc & Hd) H0] H1]. exists e, d. split; [|done]. rewrite lookup_delete_ne; [done|]. intros Heq. rewrite <- Heq, He in Hc. injection Hc as <-. destruct d; cbn in Hd; subst; done.
  - intros (e & d & Hc & Hd). apply lookup_delete_Some in Hc as [Hn Hc]. split; [split|]; [by exists e, d|by intros [= -> ->]|by intros [= -> ->]].
Qed.

(** What is left when a node that has lost its last channel is gone. *)
Definition left_of (I : nat -> nat -> Prop) (N N' : gmap nat node_id) : Prop :=
  N' ⊆ N /\ forall n id ci, N !! n = Some id -> I n ci -> N' !! n = Some id.

Lemma left_step I n ci (N N' : gmap nat node_id) : (N' = N \/ (N' = delete n N /\ forall ci', I n ci' -> ci' = ci)) -> left_of (but I n ci) N N'.
Proof.
  intros [->|[-> Hl]]; [by split|]. split; [apply delete_subseteq|]. intros x id c Hx [HI Hb]. rewrite lookup_delete_ne; [done|]. intros <-. apply Hb. f_equal. by apply Hl.
Qed.

Lemma left_trans I n ci N N1 N2 : left_of I N N1 -> left_of (but I n ci) N1 N2 -> left_of (but I n ci) N N2.
Proof. intros [S1 H1] [S2 H2]. split; [by etrans|]. intros x id c Hx Hb. eapply H2; [|done]. eapply H1; [done|apply Hb]. Qed.

(** The channel tables without a channel, and the nodes that are left. *)
Lemma wf_without m E N fn fc m' N' fn' ci c c' : wf m E N fn fc -> is_Some (E !! ci) -> g_chan_arr m !! ci = Some c ->
  same_file m m' -> g_channels m' = List.filter (fun i => negb (i =? ci)) (g_channels m) -> g_chan_arr m' = <[ci := c']> (g_chan_arr m) ->
  plus_scid_off c' = 0%Z -> cann_off c' = g_freed_chans m -> g_freed_chans m' = Z.of_nat ci -> 0 < length (g_node_arr m') ->
  nodes_ok m' (incident (delete ci E)) N' fn' -> left_of (incident (delete ci E)) N N' -> wf m' (delete ci E) N' fn' (ci :: fc).
Proof.
  intros W HE Hc Hf Hch Hca Hp Hlink Hfree Hlen (Hns & Hno & Hnf & Hfn) [Hsub Hleft]. apply lookup_lt_Some in Hc as Hlt.
  destruct (wf_fc _ _ _ _ _ W) as (Hfd & Hfc & Hchain). assert (Hnin : ci ∉ fc) by (intros Hx; apply Hfc in Hx as [Hx _]; rewrite Hx in HE; by destruct HE).
  split; rewrite ?Hch, ?Hca, ?length_insert; try done.
  - destruct (wf_channels _ _ _ _ _ W) as [Hcd Hcs]. split; [by apply NoDup_ListNoDup, List.NoDup_filter, NoDup_ListNoDup|].
    intros x. rewrite list_elem_of_In, filter_In, <- list_elem_of_In, Hcs, negb_true_iff, Nat.eqb_neq. destruct (decide (ci = x)) as [->|]; [rewrite lookup_delete_eq; split; [naive_solver|by intros []]|].
    rewrite lookup_delete_ne by done. naive_solver.
  - intros x e Hx. pose proof Hx as [Hn He]%lookup_delete_Some. destruct (wf_chan _ _ _ _ _ W x e He) as (cx & Hcx & Hp' & Hs & Hd & Hside).
    exists cx. rewrite list_lookup_insert_ne by done. split; [done|]. split; [done|]. split; [by rewrite <- (scid_file m m')|]. split; [done|].
    intros d. destruct (Hside d) as (Hi & id & Hid & Hsi). split; [done|]. exists id. split; [|by rewrite <- (side_file m m')]. eapply Hleft; [done|]. by exists e, d.
  - intros n id Hn. destruct (Hno n id Hn) as (nd & l & Hnd & Hrest). exists nd. split; [done|]. by exists l.
  - intros x cx. destruct (decide (ci = x)) as [->|]; [rewrite list_lookup_insert_eq by done; by intros [= <-]|]. rewrite list_lookup_insert_ne, lookup_delete_ne by done. apply (wf_chan_free _ _ _ _ _ W).
  - intros x y e e' [_ Hx]%lookup_delete_Some [_ Hy]%lookup_delete_Some. by apply (wf_scids _ _ _ _ _ W).
  - intros x y id Hx Hy. apply (wf_ids _ _ _ _ _ W x y id); by eapply lookup_weaken.
  - split; [by apply NoDup_cons|]. split.
    + intros x. rewrite elem_of_cons. intros [->|Hx]; [by rewrite lookup_delete_eq|]. destruct (Hfc x Hx). split; [|done]. apply lookup_delete_None. by right.
    + split; [done|]. exists (g_freed_chans m). unfold next_chan at 1. rewrite list_lookup_insert_eq by done. split; [by rewrite <- Hlink|].
      eapply chain_ext; [|exact Hchain]. intros x Hx. unfold next_chan. rewrite list_lookup_insert_ne by congruence. done.
  - split; [done|]. apply (wf_len _ _ _ _ _ W).
Qed.

Lemma remove_chan_spec m E N fn fc ci e : wf m E N fn fc -> E !! ci = Some e ->
  exists m' N' fn', gossmap_remove_chan m ci = Ret m' /\ wf m' (delete ci E) N' fn' (ci :: fc) /\ same_file m m' /\ g_map_end m = g_map_end m' /\ N' ⊆ N /\ length fn <= length fn' /\
    length (g_node_arr m) = length (g_node_arr m') /\ length (g_chan_arr m) = length (g_chan_arr m') /\
    (forall n, is_Some (N' !! n) <-> exists ci', incident (delete ci E) n ci').
Proof.
  intros W He. destruct e as [[s n0] n1]. destruct (wf_chan _ _ _ _ _ W ci _ He) as (c & Hc & Hp & Hs & Hne & Hside).
  destruct (Hside false) as (Hx0 & id0 & Hi0 & _), (Hside true) as (Hx1 & id1 & Hi1 & _). cbn in Hx0, Hx1, Hi0, Hi1, Hne.
  unfold gossmap_remove_chan, chan_at. rewrite Hc. cbn [obind]. rewrite (chan_key W ci _ He). cbn [obind].
  destruct (wf_channels _ _ _ _ _ W) as [Hcd Hch]. rewrite bool_decide_eq_true_2 by (apply Hch; eauto). cbn [negb].
  set (m1 := set_channels _ m). unfold gossmap_nth_node. cbn [sel]. rewrite Hx0, Hx1.
  destruct (remove_chan_from_node_spec m1 (incident E) N fn n0 id0 id0 ci) as (m2 & N2 & fn2 & Hr0 & Hok2 & Hk2 & Hsame2 & Hoth2 & HN2); [apply (wf_nodes_ok _ _ _ _ _ W)|done|by exists (s, n0, n1), false|by apply (node_key W)|].
  rewrite Hr0. cbn [obind]. destruct Hsame2 as (Hf2 & Hme2 & Hch2 & Hca2 & Hfc2 & Hl2).
  destruct (remove_chan_from_node_spec m2 (but (incident E) n0 ci) N2 fn2 n1 id1 id1 ci) as (m3 & N3 & fn3 & Hr1 & Hok3 & Hk3 & Hsame3 & Hoth3 & HN3); [done| | | |].
  { destruct HN2 as [->|[-> _]]; [done|]. by rewrite lookup_delete_ne by done. }
  { split; [by exists (s, n0, n1), true|congruence]. }
  { rewrite (nodeidx_id_arr m2 m1); [by apply (node_key W)|destruct Hf2; split; congruence|done|by apply Hoth2]. }
  rewrite Hr1. cbn [obind]. destruct Hsame3 as (Hf3 & Hme3 & Hch3 & Hca3 & Hfc3 & Hl3).
  assert (Hl : left_of (incident (delete ci E)) N N3).
  { apply left_step in HN2, HN3. destruct (left_trans _ _ _ _ _ _ HN2 HN3) as [Hsub Hl]. split; [done|]. intros x id c' Hx HI. eapply Hl; [done|]. by eapply but_incident. }
  apply (nodes_ok_ext _ _ (incident (delete ci E))) in Hok3; [|intros; by apply (but_incident _ _ s)].
  eexists _, N3, fn3. split; [reflexivity|]. split; [|split; [|split; [cbn; by rewrite <- Hme3, <- Hme2|split; [apply Hl|split; [lia|split; [cbn; by rewrite <- Hl3, <- Hl2|split; [cbn; by rewrite length_insert, <- Hca3, <- Hca2|]]]]]]].
  - apply (wf_without m E N fn fc _ N3 fn3 ci c (GChan (g_freed_chans m3) (private_ c) 0 (cupdate_off c) (half c))); try done.
    + destruct Hf2, Hf3. split; cbn in *; congruence.
    + cbn. by rewrite <- Hch3, <- Hch2.
    + cbn. by rewrite <- Hca3, <- Hca2.
    + cbn. by rewrite <- Hfc3, <- Hfc2.
    + cbn. rewrite <- Hl3, <- Hl2. apply (wf_len _ _ _ _ _ W).
  - destruct Hf2, Hf3. split; cbn in *; congruence.
  - intros n. split.
    + intros [id Hn]. destruct Hok3 as (_ & Hno & _). destruct (Hno n id Hn) as (nd & l & _ & _ & Hnil & _ & Hll). destruct l as [|x r]; [done|]. exists x. apply Hll. left.
    + intros (x & ex & d & Hx & Hd). pose proof Hx as [_ Hx']%lookup_delete_Some. destruct (wf_chan _ _ _ _ _ W x ex Hx') as (cx & _ & _ & _ & _ & Hsx).
      destruct (Hsx d) as (_ & id & Hid & _). exists id. rewrite Hd in Hid. eapply (proj2 Hl); [done|]. by exists ex, d.
Qed.
