(* ===== verification/GossmapTheorems.v ===== *)
(** The map of the network and the graph it stands for. *)
From S2P Require Import Prelude Utf8 Jsmn JsonTree Json JsonOut Wire Tlv Amount JsonHelpers Features GossipStore Gossmap GossmapProofs.

(** * Steps that keep the tables *)

(** Everything that can be read from one map can be read from the other. *)
Definition reads (m m' : gossmap) : Prop := forall off n b, 0 < n -> (0 <= off)%Z -> map_copy m off n = Ret b -> map_copy m' off n = Ret b.

Lemma wrap32_nonneg z : (0 <= wrap32 z)%Z.
Proof. apply Z.mod_pos_bound. done. Qed.

Lemma reads_scid m m' c s : reads m m' -> gossmap_chan_scid m c = Ret s -> gossmap_chan_scid m' c = Ret s.
Proof. intros Hr. unfold gossmap_chan_scid, map_be64, map_be. destruct (map_copy m _ _) as [b|] eqn:Hb; [|done]. by rewrite (Hr _ _ _ (Nat.lt_0_succ _) (wrap32_nonneg _) Hb). Qed.

Lemma reads_side m m' c d id : reads m m' -> side_id m c d = Ret id -> side_id m' c d = Ret id.
Proof. intros Hr. unfold side_id, map_nodeid. destruct (map_copy m _ _) as [b|] eqn:Hb; [|done]. by rewrite (Hr _ _ _ (Nat.lt_0_succ _) (wrap32_nonneg _) Hb). Qed.

Definition same_tables (m m' : gossmap) : Prop :=
  g_channels m = g_channels m' /\ g_nodes m = g_nodes m' /\ g_chan_arr m = g_chan_arr m' /\ g_node_arr m = g_node_arr m' /\
  g_freed_chans m = g_freed_chans m' /\ g_freed_nodes m = g_freed_nodes m'.

Lemma wf_reads m m' E N fn fc : reads m m' -> same_tables m m' -> wf m E N fn fc -> wf m' E N fn fc.
Proof.
  intros Hr (H1 & H2 & H3 & H4 & H5 & H6) W. destruct W. split; rewrite <- ?H1, <- ?H2, <- ?H3, <- ?H4, <- ?H5, <- ?H6; try done.
  intros ci e He. destruct (wf_chan ci e He) as (c & Hc & Hp & Hs & Hne & Hside). exists c. split; [done|]. split; [done|]. split; [by eapply reads_scid|]. split; [done|].
  intros d. destruct (Hside d) as (Hi & id & Hid & Hsi). split; [done|]. exists id. split; [done|]. by eapply reads_side.
Qed.

(** Local bytes are read where there was nothing. *)
Lemma reads_local m l : g_local m = None -> reads m (set_local l m).
Proof.
  intros Hl off n b Hn Hoff. unfold map_copy. change (g_map_size (set_local l m)) with (g_map_size m). rewrite Hl.
  destruct (Z.leb_spec (g_map_size m) off) as [Ho|Ho]; [|done].
  change (default [] None) with ([] : bytes). unfold len at 1. cbn [length].
  destruct (Z.leb_spec (off - g_map_size m + Z.of_nat n) (Z.of_nat 0)) as [Hx|Hx]; [lia|]. done.
Qed.

(** A half that keeps its node. *)
Lemma wf_set_half m E N fn fc ci c d hc off : wf m E N fn fc -> is_Some (E !! ci) -> g_chan_arr m !! ci = Some c -> hc_nodeidx hc = hc_nodeidx (sel d (half c)) ->
  wf (set_chan m ci (set_half d hc off c)) E N fn fc.
Proof.
  intros W HE Hc Hn. apply lookup_lt_Some in Hc as Hlt. pose proof W as W0. destruct W0.
  split; rewrite ?length_insert; try done; cbn.
  - intros x e He. destruct (decide (ci = x)) as [->|Hx].
    + rewrite list_lookup_insert_eq by done. eexists. split; [done|]. destruct (wf_chan x e He) as (c0 & Hc0 & Hp & Hs & Hne & Hside). assert (c0 = c) as -> by congruence.
      split; [done|]. split; [done|]. split; [done|]. intros h. destruct (Hside h) as (Hi & Hid). split; [|done]. rewrite <- Hi. destruct d, h; cbn in Hn |- *; done.
    + rewrite list_lookup_insert_ne by done. by apply wf_chan.
  - intros x c0. destruct (decide (ci = x)) as [->|Hx]; [intros _ Hno; rewrite Hno in HE; by destruct HE|]. rewrite list_lookup_insert_ne by done. apply wf_chan_free.
  - destruct wf_fc as (Hfd & Hfc & Hch). split; [done|]. rewrite length_insert. split; [done|]. eapply chain_ext; [|exact Hch].
    intros x Hx. unfold next_chan. rewrite list_lookup_insert_ne; [done|]. intros ->. apply Hfc in Hx as [Hx _]. rewrite Hx in HE. by destruct HE.
  - rewrite length_insert. done.
Qed.

Lemma wf_node_announced m E N fn fc n id nd off : wf m E N fn fc -> N !! n = Some id -> g_node_arr m !! n = Some nd ->
  wf (set_node_arr (<[n := GNode off (chan_idxs nd)]> (g_node_arr m)) m) E N fn fc.
Proof.
  intros W Hn Hnd. apply lookup_lt_Some in Hnd as Hlt.
  assert (wf (set_freed_nodes (g_freed_nodes m) (set_node_arr (<[n := GNode off (chan_idxs nd)]> (g_node_arr m)) m)) E N fn fc) as HW; [|done].
  apply (wf_node_arr m E N fn fc); [done| | | |rewrite length_insert; apply (wf_len _ _ _ _ _ W)].
  - intros x i Hx. destruct (decide (n = x)) as [->|]; [rewrite list_lookup_insert_eq, Hnd by done; done|]. by rewrite list_lookup_insert_ne.
  - intros x nd0. destruct (decide (n = x)) as [->|]; [congruence|]. rewrite list_lookup_insert_ne by done. apply (wf_node_free _ _ _ _ _ W).
  - destruct (wf_fn _ _ _ _ _ W) as (Hfd & Hfn & Hch). split; [done|]. rewrite length_insert. split; [done|]. eapply chain_ext; [|exact Hch].
    intros x Hx. unfold next_node. rewrite list_lookup_insert_ne; [done|]. intros ->. apply Hfn in Hx as [Hx _]. congruence.
Qed.

(** * The graph *)

(** Short channel ids with the identifiers of their two nodes. *)
Notation graph := (gmap Z (node_id * node_id)).
Definition endpoint (G : graph) (id : node_id) : Prop := exists s ids, G !! s = Some ids /\ (ids.1 = id \/ ids.2 = id).

Definition stands_for (E : gmap nat edge) (N : gmap nat node_id) (G : graph) : Prop :=
  forall s ids, G !! scid_u64 s = Some ids <-> exists ci n0 n1, E !! ci = Some ((s, n0, n1) : edge) /\ N !! n0 = Some ids.1 /\ N !! n1 = Some ids.2.
Definition represents (m : gossmap) (G : graph) : Prop := exists E N fn fc, wf m E N fn fc /\ stands_for E N G.

Section Graph.
  Context {m : gossmap} {E : gmap nat edge} {N : gmap nat node_id} {fn fc : list nat} {G : graph}.
  Hypothesis W : wf m E N fn fc.
  Hypothesis HG : stands_for E N G.

Lemma edge_in_graph ci s n0 n1 : E !! ci = Some ((s, n0, n1) : edge) -> exists id0 id1, N !! n0 = Some id0 /\ N !! n1 = Some id1 /\ G !! scid_u64 s = Some (id0, id1).
Proof.
  intros He. destruct (wf_chan _ _ _ _ _ W ci _ He) as (c & _ & _ & _ & _ & Hside). destruct (Hside false) as (_ & id0 & Hi0 & _), (Hside true) as (_ & id1 & Hi1 & _).
  exists id0, id1. split; [done|]. split; [done|]. apply HG. by exists ci, n0, n1.
Qed.

Lemma graph_lookup s : match G !! scid_u64 s with
  | Some ids => exists ci n0 n1, E !! ci = Some ((s, n0, n1) : edge) /\ N !! n0 = Some ids.1 /\ N !! n1 = Some ids.2
  | None => forall ci e, E !! ci = Some e -> e_scid e <> s
  end.
Proof.
  destruct (G !! scid_u64 s) as [ids|] eqn:Hs; [by apply HG|]. intros ci [[s' n0] n1] He <-. cbn in Hs.
  destruct (edge_in_graph ci s' n0 n1 He) as (id0 & id1 & _ & _ & Hg). congruence.
Qed.

Lemma graph_node id : (exists n, N !! n = Some id) <-> endpoint G id.
Proof.
  split.
  - intros [n Hn]. destruct (wf_node _ _ _ _ _ W n id Hn) as (nd & _ & l & _ & Hne & _ & Hll). destruct l as [|ci l]; [done|].
    destruct (proj1 (Hll ci)) as ([[s n0] n1] & d & He & Hd); [left|]. destruct (edge_in_graph ci s n0 n1 He) as (id0 & id1 & H0 & H1 & Hg).
    exists (scid_u64 s), (id0, id1). split; [done|]. destruct d; cbn in Hd; subst; [right|left]; cbn; congruence.
  - intros (s & ids & Hg & Hid). apply (HG (Scid s) ids) in Hg as (ci & n0 & n1 & _ & H0 & H1). destruct Hid as [<-|<-]; eauto.
Qed.

End Graph.

Lemma scid_u64_inj s s' : scid_u64 s = scid_u64 s' -> s = s'.
Proof. destruct s, s'. cbn. congruence. Qed.

Lemma graph_add E N G ci s n0 n1 id0 id1 : stands_for E N G -> E !! ci = None -> G !! scid_u64 s = None ->
  N ⊆ <[n1 := id1]> (<[n0 := id0]> N) -> n0 <> n1 -> (forall ci e, E !! ci = Some e -> is_Some (N !! e_node false e) /\ is_Some (N !! e_node true e)) ->
  stands_for (<[ci := (s, n0, n1)]> E) (<[n1 := id1]> (<[n0 := id0]> N)) (<[scid_u64 s := (id0, id1)]> G).
Proof.
  intros HG HE Hno Hsub Hn Hends s' ids. destruct (decide (s = s')) as [<-|Hs].
  - rewrite lookup_insert_eq. split.
    + intros [= <-]. exists ci, n0, n1. rewrite lookup_insert_eq. split; [done|]. rewrite lookup_insert_eq, lookup_insert_ne, lookup_insert_eq by done. done.
    + intros (x & a & b & Hx & Ha & Hb). destruct (decide (ci = x)) as [<-|Hx'].
      * rewrite lookup_insert_eq in Hx. injection Hx as <- <-. rewrite lookup_insert_ne, lookup_insert_eq in Ha by done. rewrite lookup_insert_eq in Hb. destruct ids. cbn in *. congruence.
      * rewrite lookup_insert_ne in Hx by done. destruct (Hends _ _ Hx) as [[i0 H0] [i1 H1]]. cbn in H0, H1.
        assert (Hg : G !! scid_u64 s = Some (i0, i1)) by (apply HG; by exists x, a, b). congruence.
  - rewrite lookup_insert_ne by (intros Heq; by apply Hs, scid_u64_inj). rewrite (HG s' ids). split.
    + intros (x & a & b & Hx & Ha & Hb). exists x, a, b. rewrite lookup_insert_ne by congruence. split; [done|]. split; by eapply lookup_weaken.
    + intros (x & a & b & Hx & Ha & Hb). destruct (decide (ci = x)) as [<-|Hx']; [rewrite lookup_insert_eq in Hx; congruence|]. rewrite lookup_insert_ne in Hx by done.
      exists x, a, b. split; [done|]. destruct (Hends _ _ Hx) as [[i0 H0] [i1 H1]]. cbn in H0, H1. rewrite (lookup_weaken _ _ _ _ H0 Hsub) in Ha. rewrite (lookup_weaken _ _ _ _ H1 Hsub) in Hb. split; congruence.
Qed.

Lemma graph_remove m m' E N N' fn fn' fc fc' G ci s n0 n1 : wf m E N fn fc -> stands_for E N G -> E !! ci = Some ((s, n0, n1) : edge) ->
  N' ⊆ N -> wf m' (delete ci E) N' fn' fc' -> stands_for (delete ci E) N' (delete (scid_u64 s) G).
Proof.
  intros W HG He Hsub W' s' ids. destruct (decide (s = s')) as [<-|Hs].
  - rewrite lookup_delete_eq. split; [done|]. intros (x & a & b & [Hne Hx]%lookup_delete_Some & _). destruct Hne. by eapply (wf_scids _ _ _ _ _ W).
  - rewrite lookup_delete_ne by (intros Heq; by apply Hs, scid_u64_inj). rewrite (HG s' ids). split.
    + intros (x & a & b & Hx & Ha & Hb). assert (Hne : ci <> x) by (intros ->; congruence). exists x, a, b. rewrite lookup_delete_ne by done. split; [done|].
      destruct (wf_chan _ _ _ _ _ W' x (s', a, b)) as (c & _ & _ & _ & _ & Hside); [by rewrite lookup_delete_ne|].
      destruct (Hside false) as (_ & i0 & H0 & _), (Hside true) as (_ & i1 & H1 & _). cbn in H0, H1.
      pose proof (lookup_weaken _ _ _ _ H0 Hsub). pose proof (lookup_weaken _ _ _ _ H1 Hsub). split; congruence.
    + intros (x & a & b & [Hne Hx]%lookup_delete_Some & Ha & Hb). exists x, a, b. split; [done|]. split; by eapply lookup_weaken.
Qed.

(** * Updates *)

Lemma map_copy_sub m off k b o n : (0 <= off)%Z -> map_copy m off k = Ret b -> (off <= o)%Z -> (o + Z.of_nat n <= off + Z.of_nat k)%Z -> 0 < n ->
  exists b', map_copy m o n = Ret b' /\ length b' = n.
Proof.
  unfold map_copy. intros H0 Hk Ho Hn Hpos. destruct (Z.leb_spec (g_map_size m) off) as [Hs|Hs], (Z.leb_spec (g_map_size m) o) as [Hs'|Hs']; try lia.
  - destruct (Z.leb_spec (off - g_map_size m + Z.of_nat k) (len (default [] (g_local m)))) as [Hl|Hl]; [|done].
    rewrite (proj2 (Z.leb_le _ _)) by lia. eexists. split; [reflexivity|]. rewrite length_take, length_drop. unfold len in Hl. lia.
  - destruct (Z.leb_spec (off + Z.of_nat k) (g_map_size m)) as [Hl|Hl]; [lia|done].
  - destruct (Z.leb_spec (off + Z.of_nat k) (g_map_size m)) as [Hl|Hl]; [|done].
    rewrite (proj2 (Z.leb_le _ _)) by lia. eexists. split; [reflexivity|]. rewrite length_take, length_drop. unfold g_map_size, len in Hl. lia.
Qed.

Lemma map_be_sub m off k b o n : (0 <= off)%Z -> map_copy m off k = Ret b -> (off <= o)%Z -> (o + Z.of_nat n <= off + Z.of_nat k)%Z -> 0 < n ->
  exists v, map_be n m o = Ret v /\ (0 <= v < 256 ^ Z.of_nat n)%Z.
Proof.
  intros H0 Hk Ho Hn Hpos. destruct (map_copy_sub m off k b o n H0 Hk Ho Hn Hpos) as (b' & Hb & Hl). exists (from_be b'). unfold map_be. rewrite Hb.
  split; [done|]. pose proof (from_be_range b'). unfold len in *. by rewrite Hl in *.
Qed.

(** The fields of a channel update. *)
Record update_msg : Type := UpdateMsg {
  um_message_flags : Z; um_channel_flags : Z; um_delay : Z; um_htlc_min : Z; um_base_fee : Z; um_proportional_fee : Z; um_htlc_max : Z }.

(** Where they are. *)
Definition update_reads (m : gossmap) (off : Z) (s : short_channel_id) (u : update_msg) : Prop :=
  map_be64 m (off + 98) = Ret (scid_u64 s) /\ map_u8 m (off + 110) = Ret (um_message_flags u) /\ map_u8 m (off + 111) = Ret (um_channel_flags u) /\
  map_be16 m (off + 112) = Ret (um_delay u) /\ map_be64 m (off + 114) = Ret (um_htlc_min u) /\ map_be32 m (off + 122) = Ret (um_base_fee u) /\
  map_be32 m (off + 126) = Ret (um_proportional_fee u) /\ (Z.testbit (um_message_flags u) 0 = true -> map_be64 m (off + 130) = Ret (um_htlc_max u)) /\
  (0 <= um_htlc_min u < u64_mod)%Z /\ (0 <= um_htlc_max u < u64_mod)%Z.

(** What [update_channel] stores, from the fields. *)
Definition update_half (u : update_msg) (n : nat) (min max : Z) : half_chan :=
  let ok := half_fits (um_base_fee u) (um_proportional_fee u) (um_delay u) in
  Half (negb (negb ok) && negb (Z.testbit (um_channel_flags u) 1)) n min (if negb ok then 0 else max)%Z
    (um_base_fee u mod BASE_FEE) (um_proportional_fee u mod PROPORTIONAL_FEE) (um_delay u mod DELAY).

Lemma update_channel_run m off s u ci c : update_reads m off s u -> gossmap_find_chan m s = Ret (Some ci) -> g_chan_arr m !! ci = Some c ->
  exists min max, let d := Z.testbit (um_channel_flags u) 0 in
    update_channel m off = Ret (set_chan m ci (set_half d (update_half u (hc_nodeidx (sel d (half c))) min max) (wrap32 off) c), half_fits (um_base_fee u) (um_proportional_fee u) (um_delay u)) /\
    u64_to_fp16 (um_htlc_min u) false = Ret min /\ (if Z.testbit (um_message_flags u) 0 then u64_to_fp16 (um_htlc_max u) true else Ret 65535%Z) = Ret max.
Proof.
  intros (Hs & Hmf & Hcf & Hd & Hmin & Hbf & Hpf & Hmax & Bmin & Bmax) Hfind Hc.
  destruct (fp16_bounds (um_htlc_min u) false Bmin) as (min & Emin & _). destruct (fp16_bounds (um_htlc_max u) true Bmax) as (max & Emax & _).
  exists min, (if Z.testbit (um_message_flags u) 0 then max else 65535%Z). cbv zeta. split; [|split; [done|by destruct (Z.testbit _ _)]].
  unfold update_channel. cbv zeta. replace (off + 2 + (64 + 32))%Z with (off + 98)%Z by lia. replace (off + 98 + 8 + 4)%Z with (off + 110)%Z by lia.
  replace (off + 110 + 1)%Z with (off + 111)%Z by lia. replace (off + 111 + 1)%Z with (off + 112)%Z by lia. replace (off + 112 + 2)%Z with (off + 114)%Z by lia.
  replace (off + 114 + 8)%Z with (off + 122)%Z by lia. replace (off + 122 + 4)%Z with (off + 126)%Z by lia. replace (off + 126 + 4)%Z with (off + 130)%Z by lia.
  rewrite Hs. cbn [obind]. replace (Scid (scid_u64 s)) with s by by destruct s. rewrite Hfind. cbn [obind]. rewrite Hmin. cbn [obind]. rewrite Emin. cbn [obind]. rewrite Hmf. cbn [obind].
  assert (Hm : (if Z.testbit (um_message_flags u) 0 then let! max := map_be64 m (off + 130) in u64_to_fp16 max true else Ret 65535%Z) = Ret (if Z.testbit (um_message_flags u) 0 then max else 65535%Z)).
  { destruct (Z.testbit (um_message_flags u) 0); [|done]. rewrite Hmax by done. done. }
  rewrite Hm. cbn [obind]. rewrite Hcf. cbn [obind]. rewrite Hbf. cbn [obind]. rewrite Hpf. cbn [obind]. rewrite Hd. cbn [obind]. unfold chan_at. rewrite Hc. cbn [obind].
  unfold update_half. by rewrite negb_involutive.
Qed.

(** * Messages *)

Inductive message : Type :=
| Announce (private : bool) (s : short_channel_id) (id0 id1 : node_id)
| Update (private : bool) (s : short_channel_id)
| Delete (s : short_channel_id)
| AnnounceNode (id : node_id).

Definition node_reads (m : gossmap) (off : Z) (id : node_id) : Prop :=
  exists fl, map_be16 m (off + NANN_FEATURE_LEN_OFF) = Ret fl /\ map_nodeid m (off + NANN_FEATURE_LEN_OFF + 2 + fl + 4) = Ret id.

(** The bytes at an offset are the message. *)
Definition says (m : gossmap) (off : Z) (msg : message) : Prop :=
  match msg with
  | Announce false s id0 id1 => map_be16 m off = Ret WIRE_CHANNEL_ANNOUNCEMENT /\ announces m off s id0 id1
  | Announce true s id0 id1 => map_be16 m off = Ret (wire_number WIRE_GOSSIP_STORE_PRIVATE_CHANNEL) /\ announces m (off + 2 + 8 + 2) s id0 id1
  | Update false s => map_be16 m off = Ret WIRE_CHANNEL_UPDATE /\ exists u, update_reads m off s u
  | Update true s => map_be16 m off = Ret (wire_number WIRE_GOSSIP_STORE_PRIVATE_UPDATE) /\ exists u, update_reads m (off + 2 + 2) s u
  | Delete s => map_be16 m off = Ret (wire_number WIRE_GOSSIP_STORE_DELETE_CHAN) /\ map_be64 m (off + 2) = Ret (scid_u64 s)
  | AnnounceNode id => map_be16 m off = Ret WIRE_NODE_ANNOUNCEMENT /\ node_reads m off id
  end.

(** What the writer of the store takes care of. *)
Definition in_order (G : graph) (msg : message) : Prop :=
  match msg with
  | Announce _ s id0 id1 => id0 <> id1 /\ G !! scid_u64 s = None
  | Update _ s => is_Some (G !! scid_u64 s)
  | Delete _ => True
  | AnnounceNode id => endpoint G id
  end.

Definition after (G : graph) (msg : message) : graph :=
  match msg with
  | Announce _ s id0 id1 => <[scid_u64 s := (id0, id1)]> G
  | Delete s => delete (scid_u64 s) G
  | Update _ _ | AnnounceNode _ => G
  end.

(** The arrays can grow: their indices stay below the end mark of a free list. *)
Definition room (m : gossmap) : Prop := (Z.of_nat (4 * length (g_node_arr m)) < UINT_MAX /\ Z.of_nat (2 * length (g_chan_arr m)) < UINT_MAX)%Z.

(** What stays when a message is taken in. *)
Definition keeps (m m' : gossmap) : Prop := same_file m m' /\ g_map_end m = g_map_end m'.

(** A map that represents a graph after [a] announcements were taken in, when its
    arrays had [Ln] and [Lc] entries at first, all of them free. *)
Definition loaded (Ln Lc : nat) (m : gossmap) (G : graph) (a : nat) : Prop :=
  exists E N fn fc, wf m E N fn fc /\ stands_for E N G /\
    fill Ln Ln (length (g_node_arr m)) (length fn) (2 * a) /\ fill Lc Lc (length (g_chan_arr m)) (length fc) a.

Lemma loaded_represents Ln Lc m G a : loaded Ln Lc m G a -> represents m G.
Proof. intros (E & N & fn & fc & W & HG & _). by exists E, N, fn, fc. Qed.

Lemma represents_loaded m G : represents m G -> exists Ln Lc a, loaded Ln Lc m G a.
Proof.
  intros (E & N & fn & fc & W & HG). exists (length (g_node_arr m)), (length (g_chan_arr m)), (length (g_node_arr m) + length (g_chan_arr m)).
  exists E, N, fn, fc. split; [done|]. split; [done|]. unfold fill. lia.
Qed.

Lemma loaded_room Ln Lc m G a : loaded Ln Lc m G a -> (Z.of_nat (4 * Ln) < UINT_MAX)%Z -> (Z.of_nat (4 * Lc) < UINT_MAX)%Z -> (Z.of_nat (16 * a) < UINT_MAX)%Z -> room m.
Proof. intros (E & N & fn & fc & _ & _ & H1 & H2) Hn Hc Ha. unfold fill in *. unfold room. lia. Qed.

Section Sim.
  Context (Ln Lc : nat).

Lemma announce_sim m G a off private s id0 id1 : loaded Ln Lc m G a -> announces m off s id0 id1 -> room m -> id0 <> id1 -> G !! scid_u64 s = None ->
  exists m' ci, add_channel m off private = Ret (m', ci) /\ loaded Ln Lc m' (<[scid_u64 s := (id0, id1)]> G) (S a) /\ keeps m m'.
Proof.
  intros (E & N & fn & fc & W & HG & Hf1 & Hf2) Hann [Hr1 Hr2] Hid Hno.
  assert (Hfresh : forall ci e, E !! ci = Some e -> e_scid e <> s) by (pose proof (graph_lookup W HG s) as H; by rewrite Hno in H).
  destruct (add_channel_spec m E N fn fc off private s id0 id1 W Hr1 Hr2 Hann Hid Hfresh) as (m' & ci & n0 & n1 & fn' & fc' & Hadd & HE & Hfile & Hend & Hn' & Hc' & Hsub & Hn & W').
  exists m', ci. split; [done|]. split; [|done]. eexists _, _, fn', fc'. split; [exact W'|]. split.
  - apply graph_add; try done.
    intros x e He. destruct (wf_chan _ _ _ _ _ W x e He) as (c & _ & _ & _ & _ & Hside). destruct (Hside false) as (_ & i0 & H0 & _), (Hside true) as (_ & i1 & H1 & _). split; eauto.
  - pose proof (fill_trans _ _ _ _ _ _ _ _ Hf1 Hn'). pose proof (fill_trans _ _ _ _ _ _ _ _ Hf2 Hc'). replace (2 * S a) with (2 * a + 2) by lia. replace (S a) with (a + 1) by lia. done.
Qed.

Lemma update_sim m G a off s u : loaded Ln Lc m G a -> update_reads m off s u -> is_Some (G !! scid_u64 s) ->
  exists m', update_channel m off = Ret (m', half_fits (um_base_fee u) (um_proportional_fee u) (um_delay u)) /\ loaded Ln Lc m' G a /\ keeps m m'.
Proof.
  intros (E & N & fn & fc & W & HG & Hf1 & Hf2) Hu [ids Hs]. pose proof (graph_lookup W HG s) as H. rewrite Hs in H. destruct H as (ci & n0 & n1 & He & _).
  destruct (wf_chan _ _ _ _ _ W ci _ He) as (c & Hc & _).
  destruct (update_channel_run m off s u ci c Hu) as (min & max & Hrun & _); [exact (find_chan_some W ci _ He)|done|].
  eexists. split; [exact Hrun|]. split; [|done]. exists E, N, fn, fc. split; [eapply wf_set_half; [done|eauto|done|done]|]. split; [done|]. split; [done|]. cbn. by rewrite length_insert.
Qed.

Lemma delete_sim m G a off s : loaded Ln Lc m G a -> map_be64 m (off + 2) = Ret (scid_u64 s) ->
  exists m', remove_channel_by_deletemsg m off = Ret m' /\ loaded Ln Lc m' (delete (scid_u64 s) G) a /\ keeps m m'.
Proof.
  intros (E & N & fn & fc & W & HG & Hf1 & Hf2) Hs. unfold remove_channel_by_deletemsg. rewrite Hs. cbn [obind]. replace (Scid (scid_u64 s)) with s by by destruct s.
  pose proof (graph_lookup W HG s) as H. destruct (G !! scid_u64 s) as [ids|] eqn:Hg.
  - destruct H as (ci & n0 & n1 & He & _). pose proof (find_chan_some W ci _ He) as Hf. cbn in Hf. rewrite Hf. cbn [obind].
    destruct (remove_chan_spec m E N fn fc ci _ W He) as (m' & N' & fn' & Hrm & W' & Hfile & Hend & Hsub & Hk & Ln' & Lc' & _). exists m'. split; [done|]. split; [|done].
    eexists _, N', fn', _. split; [exact W'|]. split; [by eapply graph_remove|]. rewrite <- Ln', <- Lc'. cbn [length]. unfold fill in *. lia.
  - rewrite (find_chan_none W s H). cbn [obind]. exists m. split; [done|]. rewrite delete_id by done. split; [|done]. by exists E, N, fn, fc.
Qed.

Lemma node_sim m G a off id : loaded Ln Lc m G a -> node_reads m off id -> endpoint G id -> exists m', node_announcement m off = Ret m' /\ loaded Ln Lc m' G a /\ keeps m m'.
Proof.
  intros (E & N & fn & fc & W & HG & Hf1 & Hf2) (fl & Hfl & Hid) Hend. apply (graph_node W HG) in Hend as [n Hn]. destruct (wf_node _ _ _ _ _ W n id Hn) as (nd & Hnd & _).
  unfold node_announcement. rewrite Hfl. cbn [obind]. rewrite Hid. cbn [obind]. rewrite (find_node_some W n id Hn). cbn [obind]. unfold node_at. rewrite Hnd. cbn [obind].
  eexists. split; [done|]. split; [|done]. exists E, N, fn, fc. split; [by eapply wf_node_announced|]. split; [done|]. cbn. by rewrite length_insert.
Qed.

Lemma message_sim catchup m fs G a off msg : loaded Ln Lc m G a -> says m off msg -> room m -> in_order G msg ->
  exists m' bad, catchup_message catchup m fs off = Ret (Some (m', fs, bad)) /\ loaded Ln Lc m' (after G msg) (S a) /\ keeps m m'.
Proof.
  intros HR Hs Hroom Hin. assert (Hmore : forall m' G', loaded Ln Lc m' G' a -> loaded Ln Lc m' G' (S a)).
  { intros m' G' (E & N & fn & fc & W & HG & H1 & H2). exists E, N, fn, fc. unfold fill in *. split; [done|]. split; [done|]. lia. }
  unfold catchup_message. destruct msg as [[] s id0 id1|[] s|s|id]; destruct Hs as [Ht Hs]; rewrite Ht; cbn [obind].
  - destruct Hin as [Hid Hno]. destruct (announce_sim m G a _ true s id0 id1 HR Hs Hroom Hid Hno) as (m' & ci & Hadd & HR'). cbn -[add_channel Z.add]. rewrite Hadd. cbn [obind]. eauto.
  - destruct Hin as [Hid Hno]. destruct (announce_sim m G a _ false s id0 id1 HR Hs Hroom Hid Hno) as (m' & ci & Hadd & HR'). cbn -[add_channel Z.add]. rewrite Hadd. cbn [obind]. eauto.
  - destruct Hs as [u Hu]. destruct (update_sim m G a _ s u HR Hu Hin) as (m' & Hup & HR' & Hk). cbn -[update_channel Z.add]. rewrite Hup. cbn [obind]. eexists m', _. split; [done|]. split; [by apply Hmore|done].
  - destruct Hs as [u Hu]. destruct (update_sim m G a _ s u HR Hu Hin) as (m' & Hup & HR' & Hk). cbn -[update_channel Z.add]. rewrite Hup. cbn [obind]. eexists m', _. split; [done|]. split; [by apply Hmore|done].
  - destruct (delete_sim m G a off s HR Hs) as (m' & Hd & HR' & Hk). cbn -[remove_channel_by_deletemsg Z.add]. rewrite Hd. cbn [obind]. eexists m', _. split; [done|]. split; [by apply Hmore|done].
  - destruct (node_sim m G a off id HR Hs Hin) as (m' & Hd & HR' & Hk). cbn -[node_announcement Z.add]. rewrite Hd. cbn [obind]. eexists m', _. split; [done|]. split; [by apply Hmore|done].
Qed.

End Sim.

(** The map that [load_gossip_store] starts with. *)
Definition empty_map (f : bytes) : gossmap :=
  let size := length f in
  Gossmap f 1 [] [] (init_node_arr [] 0 (size / 2500 / 2 + 1)).1 (init_chan_arr [] 0 (size / 750 / 2 + 1)).1 0 0 None.

Lemma empty_loaded f : loaded (length f / 2500 / 2 + 1) (length f / 750 / 2 + 1) (empty_map f) ∅ 0.
Proof.
  assert (Hf : forall {A : Type} (g : nat -> A) n i, map g (seq 0 (n - 0)) !! i = if decide (i < n) then Some (g i) else None).
  { intros A g n i. rewrite list_lookup_fmap. destruct (decide (i < n)); [by rewrite lookup_seq_lt by lia|by rewrite lookup_seq_ge by lia]. }
  exists ∅, ∅, (seq 0 (length f / 2500 / 2 + 1)), (seq 0 (length f / 750 / 2 + 1)). split; [|split].
  - unfold empty_map. set (a := length f / 2500 / 2 + 1). set (b := length f / 750 / 2 + 1).
    assert (La : length (init_node_arr [] 0 a).1 = a) by (unfold init_node_arr, free_nodes; cbn; rewrite length_map, length_seq; lia).
    assert (Lb : length (init_chan_arr [] 0 b).1 = b) by (unfold init_chan_arr, free_chans; cbn; rewrite length_map, length_seq; lia).
    split; cbn [g_channels g_nodes g_chan_arr g_node_arr g_freed_nodes g_freed_chans].
    + split; [constructor|]. intros ci. rewrite lookup_empty. split; [by intros ?%elem_of_nil|by intros []].
    + split; [constructor|]. intros ci. rewrite lookup_empty. split; [by intros ?%elem_of_nil|by intros []].
    + intros ci e. by rewrite lookup_empty.
    + intros ci e. by rewrite lookup_empty.
    + intros ci c Hc _. cbn in Hc. unfold free_chans in Hc. pose proof (Hf _ (fun i => chan_free (if S i =? b then UINT_MAX else Z.of_nat (S i))) b ci) as H. cbn in H, Hc. rewrite H in Hc. destruct (decide _); naive_solver.
    + intros n nd Hc _. cbn in Hc. unfold free_nodes in Hc. pose proof (Hf _ (fun i => GNode (if S i =? a then UINT_MAX else Z.of_nat (S i)) None) a n) as H. cbn in H, Hc. rewrite H in Hc. destruct (decide _); naive_solver.
    + intros x y e e'. by rewrite lookup_empty.
    + intros x y id. by rewrite lookup_empty.
    + split; [apply NoDup_seq|]. rewrite La. split; [intros n Hn; apply elem_of_seq in Hn; rewrite lookup_empty; split; [done|lia]|].
      apply (chain_link _ a 0 a); [done|unfold a; lia|]. intros i Hi. unfold next_node. change (init_node_arr [] 0 a).1 with (map (fun i => GNode (link a i) None) (seq 0 (a - 0))). rewrite Hf. destruct (decide (i < a)) as [|Hno]; [done|]. destruct Hno. apply Hi.
    + split; [apply NoDup_seq|]. rewrite Lb. split; [intros n Hn; apply elem_of_seq in Hn; rewrite lookup_empty; split; [done|lia]|].
      apply (chain_link _ b 0 b); [done|unfold b; lia|]. intros i Hi. unfold next_chan. change (init_chan_arr [] 0 b).1 with (map (fun i => chan_free (link b i)) (seq 0 (b - 0))). rewrite Hf. destruct (decide (i < b)) as [|Hno]; [done|]. destruct Hno. apply Hi.
    + rewrite La, Lb. unfold a, b. lia.
  - intros s ids. rewrite lookup_empty. split; [done|]. intros (ci & n0 & n1 & H & _). by rewrite lookup_empty in H.
  - unfold empty_map, init_node_arr, init_chan_arr, free_nodes, free_chans. cbn -[Nat.div]. rewrite !length_map, !length_seq. unfold fill. lia.
Qed.

Lemma load_from_empty f fs : load_gossip_store (f :: fs) =
  let! version := map_u8 (empty_map f) 0 in
  if negb (version =? GOSSIP_STORE_VERSION)%Z then Ret None
  else let! (m, fs, _, num_rejected) := map_catchup (empty_map f) (f :: fs) in Ret (Some (m, fs, num_rejected)).
Proof. reflexivity. Qed.

(** C16. The map of the network refines a graph of short channel ids with the
    identifiers of their nodes.  A load starts with the empty graph; in a map that
    represents a graph, a channel is found exactly when the graph has it and its
    two nodes have the identifiers the graph says, a node is found exactly when it
    is an end of a channel; and each announcement, update, deletion and node
    announcement of the store is taken in without a crash and leads to a map that
    represents the changed graph. *)
Theorem gossmap_refines m G : represents m G ->
  (forall f, represents (empty_map f) ∅) /\
  (forall s, match G !! scid_u64 s with
    | Some ids => exists ci c, gossmap_find_chan m s = Ret (Some ci) /\ chan_at m ci = Ret c /\
        gossmap_node_get_id m (gossmap_nth_node c false) = Ret ids.1 /\ gossmap_node_get_id m (gossmap_nth_node c true) = Ret ids.2
    | None => gossmap_find_chan m s = Ret None
    end) /\
  (forall id, (endpoint G id /\ exists n, gossmap_find_node m id = Ret (Some n) /\ gossmap_node_get_id m n = Ret id) \/
    (~ endpoint G id /\ gossmap_find_node m id = Ret None)) /\
  (forall catchup fs off msg, says m off msg -> room m -> in_order G msg ->
    exists m' bad, catchup_message catchup m fs off = Ret (Some (m', fs, bad)) /\ represents m' (after G msg)).
Proof.
  intros HR. split; [intros f; eapply loaded_represents, empty_loaded|]. split; [|split].
  3: { intros catchup fs off msg Hs Hroom Hin. destruct (represents_loaded m G HR) as (Ln & Lc & a & HL).
       destruct (message_sim Ln Lc catchup m fs G a off msg HL Hs Hroom Hin) as (m' & bad & Hm & HL' & _). exists m', bad. split; [done|]. by eapply loaded_represents. }
  all: destruct HR as (E & N & fn & fc & W & HG).
  - intros s. pose proof (graph_lookup W HG s) as H. destruct (G !! scid_u64 s) as [ids|]; [|by apply (find_chan_none W)].
    destruct H as (ci & n0 & n1 & He & H0 & H1). destruct (wf_chan _ _ _ _ _ W ci _ He) as (c & Hc & _ & _ & _ & Hside).
    destruct (Hside false) as [Hx0 _], (Hside true) as [Hx1 _]. exists ci, c. split; [exact (find_chan_some W ci _ He)|].
    unfold chan_at, gossmap_nth_node. rewrite Hc, Hx0, Hx1. split; [done|]. split; by apply (node_key W).
  - intros id. destruct (decide (map_Exists (fun _ i => i = id) N)) as [Hex|Hno].
    + destruct Hex as (n & i & Hn & ->). left. split; [apply (graph_node W HG); eauto|]. exists n. split; [by apply (find_node_some W)|by apply (node_key W)].
    + assert (Hn : forall n, N !! n <> Some id) by (intros n Hn; apply Hno; by exists n, id).
      right. split; [|by apply (find_node_none W)]. intros [n H]%(graph_node W HG). by apply (Hn n).
Qed.

(** * A store *)

Definition ex_id (n : nat) : node_id := NodeId (ascii_of_nat 2 :: replicate 31 NUL ++ [ascii_of_nat n]).
Definition ex_record (msg : bytes) : bytes := to_be 4 (len msg) ++ replicate 8 NUL ++ msg.
Definition ex_announce (s : Z) (a b : nat) : bytes :=
  to_be 2 WIRE_CHANNEL_ANNOUNCEMENT ++ replicate 256 NUL ++ to_be 2 0 ++ replicate 32 NUL ++ to_be 8 s ++ node_k (ex_id a) ++ node_k (ex_id b).
Definition ex_update (s : Z) (dir : Z) (base_fee : Z) : bytes :=
  to_be 2 WIRE_CHANNEL_UPDATE ++ replicate 96 NUL ++ to_be 8 s ++ replicate 4 NUL ++ to_be 1 1 ++ to_be 1 dir ++ to_be 2 6 ++ to_be 8 1000 ++
  to_be 4 base_fee ++ to_be 4 10 ++ to_be 8 100000.
Definition ex_delete (s : Z) : bytes := towire_gossip_store_delete_chan (Scid s).
Definition ex_store : bytes :=
  to_be 1 GOSSIP_STORE_VERSION ++ ex_record (ex_announce 7 1 2) ++ ex_record (ex_announce 8 2 3) ++ ex_record (ex_update 8 1 1000) ++ ex_record (ex_update 7 0 20000000) ++ ex_record (ex_delete 7).

(** The store read to its end: channel 8 is left, with its update. *)
Example ex_store_loads :
  match gossmap_load [ex_store] with
  | Ret (Some (m, _, rejected)) =>
      rejected = 1%Z /\ g_map_end m = len ex_store /\ gossmap_num_chans m = 1 /\ gossmap_num_nodes m = 2 /\
      gossmap_find_chan m (Scid 7) = Ret None /\ gossmap_find_chan m (Scid 8) = Ret (Some 1) /\ gossmap_find_node m (ex_id 1) = Ret None /\
      option_map (fun c => (hc_base_fee (at1 (half c)), gossmap_chan_capacity c true (Msat 1000), gossmap_chan_capacity c true (Msat 999), gossmap_chan_set c false)) (g_chan_arr m !! 1) = Some (1000%Z, true, false, false)
  | _ => False
  end.
Proof. by vm_compute. Qed.

Lemma gossmap_refines_witness :
  let f := to_be 1 GOSSIP_STORE_VERSION ++ ex_record (ex_announce 7 1 2) in
  says (empty_map f) 13 (Announce false (Scid 7) (ex_id 1) (ex_id 2)) /\ room (empty_map f) /\
  exists m' bad, catchup_message map_catchup (empty_map f) [f] 13 = Ret (Some (m', [f], bad)) /\ represents m' (after ∅ (Announce false (Scid 7) (ex_id 1) (ex_id 2))).
Proof.
  intros f. assert (Hs : says (empty_map f) 13 (Announce false (Scid 7) (ex_id 1) (ex_id 2))).
  { split; [by vm_compute|]. exists 0%Z. split; [by vm_compute|]. split; [lia|]. cbv zeta. split; [by vm_compute|]. split; [by vm_compute|]. by split; vm_compute. }
  assert (Hr : room (empty_map f)) by by split; vm_compute.
  split; [done|]. split; [done|].
  destruct (gossmap_refines (empty_map f) ∅ (loaded_represents _ _ _ _ _ (empty_loaded f))) as (_ & _ & _ & H).
  assert (Hi : in_order ∅ (Announce false (Scid 7) (ex_id 1) (ex_id 2))) by (split; [by vm_compute|done]). exact (H map_catchup [f] 13%Z _ Hs Hr Hi).
Defined.

Lemma fits_exact a b d : half_fits a b d = true -> (a mod BASE_FEE = a /\ b mod PROPORTIONAL_FEE = b /\ d mod DELAY = d)%Z.
Proof. unfold half_fits. intros [[H1 H2]%andb_true_iff H3]%andb_true_iff. by repeat split; apply Z.eqb_eq. Qed.

Lemma min_below min v : (0 <= v < u64_mod)%Z -> u64_to_fp16 v false = Ret min -> (fp16_to_u64 min <= v)%Z.
Proof.
  intros Hv Hm. destruct (fp16_bounds v false Hv) as (fp & Hfp & _ & Hn). assert (fp = min) as -> by congruence.
  destruct (Z.ltb_spec FP16_MAX v); [lia|]. apply Hn.
Qed.

Lemma max_above max v amt : (0 <= v < u64_mod)%Z -> u64_to_fp16 v true = Ret max -> (amt <= v)%Z -> (amt <= FP16_MAX)%Z -> (amt <= fp16_to_u64 max)%Z.
Proof.
  intros Hv Hm Ha Hf. destruct (fp16_bounds v true Hv) as (fp & Hfp & _ & Hn). assert (fp = max) as -> by congruence.
  destruct (Z.ltb_spec FP16_MAX v); [lia|]. destruct Hn. lia.
Qed.

Lemma sel_upd {A : Type} d (x : A) t : sel d (upd d x t) = x /\ sel (negb d) (upd d x t) = sel (negb d) t.
Proof. by destruct d. Qed.

(** C27. A channel update changes one direction of one channel: the other direction,
    the nodes and the place of the announcement stay.  When its fees and delay fit
    they are kept exactly, and every amount the update allows, up to the largest
    16-bit amount, may pass; when they do not fit, the direction is disabled and no
    amount may pass. *)
Theorem update_conservative m off s u ci c m' ok : update_reads m off s u -> gossmap_find_chan m s = Ret (Some ci) -> g_chan_arr m !! ci = Some c ->
  update_channel m off = Ret (m', ok) ->
  let d := Z.testbit (um_channel_flags u) 0 in
  exists c', g_chan_arr m' = <[ci := c']> (g_chan_arr m) /\ cann_off c' = cann_off c /\ plus_scid_off c' = plus_scid_off c /\
    sel (negb d) (half c') = sel (negb d) (half c) /\ gossmap_nth_node c' d = gossmap_nth_node c d /\ sel d (cupdate_off c') = wrap32 off /\
    let hc := sel d (half c') in
    if ok then
      hc_base_fee hc = um_base_fee u /\ hc_proportional_fee hc = um_proportional_fee u /\ hc_delay hc = um_delay u /\ hc_enabled hc = negb (Z.testbit (um_channel_flags u) 1) /\
      forall amt, (um_htlc_min u <= amt <= FP16_MAX)%Z -> (Z.testbit (um_message_flags u) 0 = true -> amt <= um_htlc_max u)%Z -> gossmap_chan_capacity c' d (Msat amt) = true
    else hc_enabled hc = false /\ forall amt, (0 < amt)%Z -> gossmap_chan_capacity c' d (Msat amt) = false.
Proof.
  intros Hu Hf Hc Hrun d. destruct (update_channel_run m off s u ci c Hu Hf Hc) as (min & max & Hrun' & Hmin & Hmax). fold d in Hrun'. cbv zeta in Hrun'.
  rewrite Hrun' in Hrun. injection Hrun as <- <-. set (hc := update_half _ _ _ _). exists (set_half d hc (wrap32 off) c).
  pose proof (sel_upd d hc (half c)) as [Hs1 Hs2]. pose proof (sel_upd d (wrap32 off) (cupdate_off c)) as [Ho _].
  split; [done|]. split; [done|]. split; [done|]. split; [done|]. unfold gossmap_nth_node, gossmap_chan_capacity. cbn [half set_half cupdate_off]. rewrite Hs1. split; [done|]. split; [done|].
  destruct Hu as (_ & _ & _ & _ & _ & _ & _ & _ & Bmin & Bmax). unfold hc, update_half. cbn [hc_base_fee hc_proportional_fee hc_delay hc_enabled hc_htlc_min hc_htlc_max].
  unfold amount_msat_less_fp16, amount_msat_greater_fp16. cbn [millisatoshis].
  destruct (half_fits _ _ _) eqn:Hfit; cbn [negb andb].
  - apply fits_exact in Hfit as (H1 & H2 & H3). split; [done|]. split; [done|]. split; [done|]. split; [done|]. intros amt [Ha Hb] Hm.
    pose proof (min_below min _ Bmin Hmin). rewrite (proj2 (Z.ltb_ge _ _)) by lia.
    destruct (Z.testbit (um_message_flags u) 0).
    + pose proof (max_above max _ amt Bmax Hmax (Hm eq_refl) Hb). by rewrite (proj2 (Z.ltb_ge _ _)) by lia.
    + injection Hmax as <-. change (fp16_to_u64 65535) with FP16_MAX. by rewrite (proj2 (Z.ltb_ge _ _)) by lia.
  - split; [done|]. intros amt Ha. change (fp16_to_u64 0) with 0%Z. rewrite (proj2 (Z.ltb_lt 0 amt)) by lia. by destruct (_ <? _)%Z.
Qed.

(** A map of two channels, before the updates of the store. *)
Definition ex_store2 : bytes := to_be 1 GOSSIP_STORE_VERSION ++ ex_record (ex_announce 7 1 2) ++ ex_record (ex_announce 8 2 3).
Definition ex_map (f : bytes) : gossmap := match gossmap_load [f] with Ret (Some (m, _, _)) => m | _ => empty_map f end.
Definition ex_map2 : gossmap := Eval vm_compute in set_mmap ex_store (ex_map ex_store2).
Definition ex_chan : gossmap_chan := Eval vm_compute in default (chan_free 0) (g_chan_arr ex_map2 !! 1).
Definition ex_updated : gossmap := Eval vm_compute in match update_channel ex_map2 (len ex_store2 + 12) with Ret (m, _) => m | _ => ex_map2 end.

Lemma update_conservative_witness : let u := UpdateMsg 1 1 6 1000 1000 10 100000 in
  update_reads ex_map2 (len ex_store2 + 12) (Scid 8) u /\ gossmap_find_chan ex_map2 (Scid 8) = Ret (Some 1) /\ g_chan_arr ex_map2 !! 1 = Some ex_chan /\
  update_channel ex_map2 (len ex_store2 + 12) = Ret (ex_updated, true) /\
  exists c', g_chan_arr ex_updated = <[1 := c']> (g_chan_arr ex_map2) /\ gossmap_chan_capacity c' true (Msat 1000) = true.
Proof.
  intros u. assert (Hu : update_reads ex_map2 (len ex_store2 + 12) (Scid 8) u) by (unfold update_reads; repeat split; by vm_compute).
  assert (Hf : gossmap_find_chan ex_map2 (Scid 8) = Ret (Some 1)) by by vm_compute. assert (Hc : g_chan_arr ex_map2 !! 1 = Some ex_chan) by by vm_compute.
  assert (Hr : update_channel ex_map2 (len ex_store2 + 12) = Ret (ex_updated, true)) by by vm_compute.
  split; [done|]. split; [done|]. split; [done|]. split; [done|].
  destruct (update_conservative _ _ _ _ _ _ _ _ Hu Hf Hc Hr) as (c' & Hc' & _ & _ & _ & _ & _ & _ & _ & _ & _ & Hcap). exists c'. split; [done|].
  apply Hcap; [vm_compute; split; discriminate|]. intros _. vm_compute. discriminate.
Defined.
