(* ===== verification/GossmapLoad.v ===== *)
(** Reading the whole store: the loop of map_catchup, a load, and the refreshes
    that follow as the file grows. *)
From S2P Require Import Prelude Utf8 Jsmn JsonTree Json JsonOut Wire Tlv Amount JsonHelpers Features GossipStore Gossmap GossmapProofs GossmapTheorems.

(** * The records of a store *)

(** The length in the header of a record, without its flags. *)
Definition body_len (l : Z) : Z := Z.land l GOSSIP_STORE_LEN_MASK.
Definition deleted (l : Z) : Prop := Z.land l GOSSIP_STORE_LEN_DELETED_BIT <> 0%Z.

(** The types that [map_catchup] knows. *)
Definition known_types : list Z :=
  [WIRE_CHANNEL_ANNOUNCEMENT; wire_number WIRE_GOSSIP_STORE_PRIVATE_CHANNEL; WIRE_CHANNEL_UPDATE; wire_number WIRE_GOSSIP_STORE_PRIVATE_UPDATE;
   wire_number WIRE_GOSSIP_STORE_DELETE_CHAN; WIRE_NODE_ANNOUNCEMENT; wire_number WIRE_GOSSIP_STORE_ENDED].

(** [records f off G e G']: from offset [off] on, the file has records that turn
    the graph [G] into [G'], up to the offset [e], where it ends or a record is cut;
    records that are deleted and those of other types count for nothing. *)
Inductive records (f : bytes) : Z -> graph -> Z -> graph -> Prop :=
| records_end off G : (len f <= off + HDR)%Z -> records f off G off G
| records_cut off G l : (off + HDR < len f)%Z -> map_be32 (empty_map f) off = Ret l -> ~ deleted l -> (len f < off + (body_len l + HDR))%Z -> records f off G off G
| records_deleted off G l e G' : (off + HDR < len f)%Z -> map_be32 (empty_map f) off = Ret l -> deleted l ->
    records f (off + (body_len l + HDR)) G e G' -> records f off G e G'
| records_message off G l msg e G' : (off + HDR < len f)%Z -> map_be32 (empty_map f) off = Ret l -> ~ deleted l -> (off + (body_len l + HDR) <= len f)%Z ->
    says (empty_map f) (off + HDR) msg -> in_order G msg -> records f (off + (body_len l + HDR)) (after G msg) e G' -> records f off G e G'
| records_other off G l type e G' : (off + HDR < len f)%Z -> map_be32 (empty_map f) off = Ret l -> ~ deleted l -> (off + (body_len l + HDR) <= len f)%Z ->
    map_be16 (empty_map f) (off + HDR) = Ret type -> type ∉ known_types -> records f (off + (body_len l + HDR)) G e G' -> records f off G e G'.

(** ** What can be read stays *)

Lemma reads_be m m' n o v : reads m m' -> 0 < n -> (0 <= o)%Z -> map_be n m o = Ret v -> map_be n m' o = Ret v.
Proof. intros Hr Hn Ho. unfold map_be. destruct (map_copy m o n) as [b|] eqn:Hb; [|done]. by rewrite (Hr _ _ _ Hn Ho Hb). Qed.

Lemma reads_nodeid m m' o id : reads m m' -> (0 <= o)%Z -> map_nodeid m o = Ret id -> map_nodeid m' o = Ret id.
Proof. intros Hr Ho. unfold map_nodeid. destruct (map_copy m o _) as [b|] eqn:Hb; [|done]. by rewrite (Hr _ _ _ (Nat.lt_0_succ _) Ho Hb). Qed.

Lemma map_be_nonneg m n o v : map_be n m o = Ret v -> (0 <= v)%Z.
Proof. unfold map_be. destruct (map_copy m o n) as [b|]; [|done]. cbn [obind]. intros [= <-]. apply from_be_range. Qed.

(** A read that [reads] carries over. *)
Ltac carried Hr := solve [done | eapply (reads_be _ _ _ _ _ Hr); [lia|unfold CANN_FEATURE_LEN_OFF, NANN_FEATURE_LEN_OFF, PUBKEY_CMPR_LEN; lia|eassumption] |
  eapply (reads_nodeid _ _ _ _ Hr); [unfold CANN_FEATURE_LEN_OFF, NANN_FEATURE_LEN_OFF, PUBKEY_CMPR_LEN; lia|eassumption]].

Lemma reads_announces m m' off s id0 id1 : reads m m' -> announces m off s id0 id1 -> announces m' off s id0 id1.
Proof.
  intros Hr (fl & H1 & H2 & H3 & H4 & H5 & H6). exists fl. unfold map_be16, map_be64 in *. cbv zeta in *. split_and!; try apply H3; try apply H2; carried Hr.
Qed.

Lemma reads_update m m' off s u : reads m m' -> (0 <= off)%Z -> update_reads m off s u -> update_reads m' off s u.
Proof.
  intros Hr Ho (H1 & H2 & H3 & H4 & H5 & H6 & H7 & H8 & H9 & H10). unfold update_reads, map_u8, map_be16, map_be32, map_be64 in *.
  split_and!; try apply H9; try apply H10; try carried Hr. intros Hb. specialize (H8 Hb). carried Hr.
Qed.

Lemma reads_says m m' off msg : reads m m' -> (0 <= off)%Z -> says m off msg -> says m' off msg.
Proof.
  intros Hr Ho. destruct msg as [[] s id0 id1|[] s|s|id]; intros [Ht Hs]; unfold says, map_be16, map_be64 in *; (split; [carried Hr|]).
  - by eapply reads_announces.
  - by eapply reads_announces.
  - destruct Hs as [u Hu]. exists u. eapply reads_update; [done|lia|done].
  - destruct Hs as [u Hu]. exists u. by eapply reads_update.
  - carried Hr.
  - destruct Hs as (fl & H1 & H2). exists fl. unfold map_be16 in *. pose proof (map_be_nonneg _ _ _ _ H1). split; carried Hr.
Qed.

Lemma reads_file m m' : same_file m m' -> reads m m'.
Proof. intros H off n b _ _. by rewrite (map_copy_file m m'). Qed.

Lemma reads_longer m m' : g_local m = None -> g_local m' = None -> g_mmap m `prefix_of` g_mmap m' -> reads m m'.
Proof.
  intros Hl Hl' [k Hk] off n b Hn Hoff. unfold map_copy, g_map_size. rewrite Hl, Hl', Hk, len_app. change (default [] None) with ([] : bytes).
  pose proof (len_nonneg k). set (f := g_mmap m). destruct (Z.leb_spec (len f) off) as [Ho|Ho].
  - rewrite (proj2 (Z.leb_gt _ (len []))); [done|]. change (len ([] : bytes)) with 0%Z. lia.
  - rewrite (proj2 (Z.leb_gt _ off)) by lia. destruct (Z.leb_spec (off + Z.of_nat n) (len f)) as [Hb|Hb]; [|done].
    rewrite (proj2 (Z.leb_le _ _)) by lia. cbn [assert_ obind]. unfold len in Hb. rewrite drop_app_le, take_app_le; [done| |lia]. rewrite length_drop. lia.
Qed.

(** * The loop *)

Definition STORE_LIMIT : Z := 2147483648.

(** A map that has taken in the file [f] up to offset [e].  Each announcement took
    twelve bytes at least. *)
Definition reading (m : gossmap) (f : bytes) (e : Z) (G : graph) : Prop :=
  exists Ln Lc a, loaded Ln Lc m G a /\ (Z.of_nat (4 * Ln) < UINT_MAX)%Z /\ (Z.of_nat (4 * Lc) < UINT_MAX)%Z /\
    g_mmap m = f /\ g_local m = None /\ g_map_end m = e /\ (12 * Z.of_nat a <= e < u32_mod)%Z.

Lemma reading_reads m f e G : reading m f e G -> reads (empty_map f) m.
Proof. intros (Ln & Lc & a & _ & _ & _ & Hf & Hl & _). apply reads_file. by split. Qed.

Lemma reading_room m f e G : reading m f e G -> (e < STORE_LIMIT)%Z -> room m.
Proof. intros (Ln & Lc & a & HL & Hn & Hc & _ & _ & _ & Ha) He. eapply (loaded_room Ln Lc m G a); [done|done|done|]. unfold STORE_LIMIT, UINT_MAX, u32_mod in *. lia. Qed.

Lemma loaded_tables Ln Lc m m' G a : reads m m' -> same_tables m m' -> loaded Ln Lc m G a -> loaded Ln Lc m' G a.
Proof.
  intros Hr Ht (E & N & fn & fc & W & HG & H1 & H2). exists E, N, fn, fc. split; [by eapply wf_reads|]. split; [done|]. destruct Ht as (_ & _ & <- & <- & _). done.
Qed.

(** The end mark moves on. *)
Lemma reading_skip m f e G d : reading m f e G -> (0 <= d)%Z -> (e + d < u32_mod)%Z -> reading (set_map_end (wrap64 (g_map_end m + d)) m) f (e + d) G.
Proof.
  intros (Ln & Lc & a & HL & Hn & Hc & Hf & Hl & He & Ha) Hd Hlim. exists Ln, Lc, a. split; [|split_and!; try done; cbn; rewrite ?He; try lia].
  - eapply (loaded_tables _ _ m); [|done|exact HL]. by apply reads_file.
  - unfold wrap64. apply Z.mod_small. unfold u32_mod, u64_mod in *. lia.
Qed.

(** A message is taken in, and the end mark moves behind it. *)
Lemma reading_message catchup m fs f e G msg d : reading m f e G -> (e < STORE_LIMIT)%Z -> says (empty_map f) (e + HDR) msg -> in_order G msg ->
  (12 <= d)%Z -> (e + d < u32_mod)%Z ->
  exists m' bad, catchup_message catchup m fs (g_map_end m + HDR) = Ret (Some (m', fs, bad)) /\
    reading (set_map_end (wrap64 (g_map_end m' + d)) m') f (e + d) (after G msg).
Proof.
  intros HR Hlim Hs Hin Hd He32. pose proof (reading_room _ _ _ _ HR Hlim) as Hroom. pose proof (reading_reads _ _ _ _ HR) as Hrd.
  destruct HR as (Ln & Lc & a & HL & Hn & Hc & Hf & Hl & He & Ha). rewrite He.
  assert (Hs' : says m (e + HDR) msg) by (eapply reads_says; [done|unfold HDR; lia|done]).
  destruct (message_sim Ln Lc catchup m fs G a _ msg HL Hs' Hroom Hin) as (m' & bad & Hm & HL' & [Hf1 Hf2] & Hend).
  exists m', bad. split; [done|]. exists Ln, Lc, (S a). split; [|split_and!; try done; cbn; try congruence; try lia].
  - eapply (loaded_tables _ _ m'); [|done|exact HL']. by apply reads_file.
  - rewrite <- Hend, He. unfold wrap64. apply Z.mod_small. unfold u32_mod, u64_mod in *. lia.
Qed.

Lemma body_len_range l : (0 <= body_len l < 1073741824)%Z.
Proof. unfold body_len. change GOSSIP_STORE_LEN_MASK with (Z.ones 30). rewrite Z.land_ones by lia. apply Z.mod_pos_bound. done. Qed.

Lemma not_deleted l : ~ deleted l -> (Z.land l GOSSIP_STORE_LEN_DELETED_BIT =? 0)%Z = true.
Proof. unfold deleted. intros Hd. apply Z.eqb_eq. destruct (Z.eq_dec (Z.land l GOSSIP_STORE_LEN_DELETED_BIT) 0%Z); [done|by destruct Hd]. Qed.

(** A type the loop passes over. *)
Lemma message_other catchup m fs off type : map_be16 m off = Ret type -> type ∉ known_types -> catchup_message catchup m fs off = Ret None.
Proof.
  intros Ht Hno. unfold catchup_message. rewrite Ht. cbn [obind]. unfold known_types in Hno. rewrite !not_elem_of_cons in Hno. destruct Hno as (H1 & H2 & H3 & H4 & H5 & H6 & H7 & _).
  by rewrite !(proj2 (Z.eqb_neq _ _)) by assumption.
Qed.

Lemma header_read m f e G l : reading m f e G -> (e + HDR < len f)%Z -> map_be32 (empty_map f) e = Ret l ->
  map_be32 m (g_map_end m) = Ret l /\ exists b, map_copy m (g_map_end m) 12 = Ret b.
Proof.
  intros HR Hlt Hl. pose proof (reading_reads _ _ _ _ HR) as Hrd. destruct HR as (Ln & Lc & a & _ & _ & _ & Hf & _ & He & Ha). rewrite He. unfold HDR in Hlt. split; [by eapply reads_be; [|lia|lia|]|].
  unfold map_copy, g_map_size. rewrite Hf, (proj2 (Z.leb_gt _ _)), (proj2 (Z.leb_le _ _)) by lia. by eexists.
Qed.

(** The loop reads the records to their end, with a round for each byte at most. *)
Lemma catchup_spec f off G e G' : records f off G e G' -> (len f < STORE_LIMIT)%Z -> forall fuel m fs changed bad, reading m f off G -> (len f - off < Z.of_nat fuel)%Z -> 0 < fuel ->
  exists m' changed' bad', catchup_loop fuel m fs changed bad = Ret (m', fs, changed', bad') /\ reading m' f e G'.
Proof.
  intros HR Hlim. induction HR as [off G Hend|off G l Hlt Hl Hd Hcut|off G l e G' Hlt Hl Hd _ IH|off G l msg e G' Hlt Hl Hd Hfit Hs Hin _ IH|off G l type e G' Hlt Hl Hd Hfit Ht Hno _ IH];
    intros fuel m fs changed bad HRd Hfuel Hpos; (destruct fuel as [|fuel]; [lia|]); cbn [catchup_loop];
    assert (Hoff : g_map_end m = off /\ g_map_size m = len f /\ (0 <= off < u32_mod)%Z) by (destruct HRd as (Ln & Lc & a & _ & _ & _ & Hf & _ & He & Ha); unfold g_map_size; rewrite Hf; split; [done|]; split; [done|lia]);
    destruct Hoff as (He & Hsz & Hr);
    assert (Hw : wrap64 (g_map_end m + HDR) = (off + HDR)%Z) by (rewrite He; apply Z.mod_small; unfold HDR, u32_mod, u64_mod in *; lia); rewrite Hw, Hsz.
  1: { rewrite (proj2 (Z.ltb_ge _ _)) by lia. cbn [negb]. eauto. }
  all: rewrite (proj2 (Z.ltb_lt _ _)) by lia; cbn [negb]; destruct (header_read m f off G l HRd Hlt Hl) as [Hbe [b Hcp]]; rewrite Hbe; cbn [obind]; rewrite Hcp; cbn [obind]; cbv zeta;
    fold (body_len l); pose proof (body_len_range l) as Hbl; unfold STORE_LIMIT, HDR, u32_mod in *.
  - rewrite (not_deleted l Hd). cbn [negb]. rewrite He, (proj2 (Z.ltb_lt _ _)) by lia. eauto.
  - rewrite (proj2 (Z.eqb_neq _ _)) by done. cbn [negb]. apply IH; [|lia|lia]. apply reading_skip; [done|lia|unfold u32_mod; lia].
  - rewrite (not_deleted l Hd). cbn [negb]. rewrite He, (proj2 (Z.ltb_ge _ _)) by lia. rewrite <- He.
    destruct (reading_message (fun m fs => catchup_loop fuel m fs false 0) m fs f off G msg (body_len l + 12) HRd) as (m' & bad' & Hm & HRd'); [unfold STORE_LIMIT; lia|done|done|lia|unfold u32_mod; lia|].
    unfold HDR in Hm. rewrite Hm. cbn [obind]. apply IH; [done|lia|lia].
  - rewrite (not_deleted l Hd). cbn [negb]. rewrite He, (proj2 (Z.ltb_ge _ _)) by lia. rewrite <- He.
    rewrite (message_other _ m fs (g_map_end m + 12) type); [|rewrite He; eapply reads_be; [by eapply reading_reads|lia|lia|done]|done]. cbn [obind]. apply IH; [|lia|lia]. apply reading_skip; [done|lia|unfold u32_mod; lia].
Qed.

(** * Load and refresh *)

Lemma load_spec f e G : map_u8 (empty_map f) 0 = Ret GOSSIP_STORE_VERSION -> (len f < STORE_LIMIT)%Z -> records f 1 ∅ e G ->
  exists m rejected, gossmap_load [f] = Ret (Some (m, [f], rejected)) /\ reading m f e G.
Proof.
  intros Hv Hlim HR. unfold gossmap_load. rewrite load_from_empty, Hv. cbn [obind]. change (negb (GOSSIP_STORE_VERSION =? GOSSIP_STORE_VERSION)%Z) with false.
  destruct (catchup_spec f 1 ∅ e G HR Hlim (catchup_fuel (empty_map f) [f]) (empty_map f) [f] false 0) as (m & changed & bad & Hrun & Hrd).
  - exists (length f / 2500 / 2 + 1), (length f / 750 / 2 + 1), 0. split; [apply empty_loaded|].
    assert (H : forall k, 100 <= k -> (Z.of_nat (4 * (length f / k / 2 + 1)) < UINT_MAX)%Z); [|split_and!; try done; apply H; lia].
    intros k Hk. assert (length f / k / 2 <= length f / 100); [rewrite Nat.Div0.div_div; apply Nat.div_le_compat_l; lia|].
    pose proof (Nat.Div0.mul_div_le (length f) 100). unfold len, STORE_LIMIT, UINT_MAX, u32_mod in *. lia.
  - unfold catchup_fuel. cbn [g_mmap empty_map]. unfold len. lia.
  - unfold catchup_fuel. lia.
  - unfold map_catchup. cbn [map list_sum]. rewrite Hrun. cbn [obind]. eauto.
Qed.

Lemma refresh_spec m f e G f2 e2 G2 : reading m f e G -> f `prefix_of` f2 -> (len f < len f2 < STORE_LIMIT)%Z -> records f2 e G e2 G2 ->
  exists m2 changed bad, gossmap_refresh m [f2] = Ret (m2, [f2], changed, bad) /\ reading m2 f2 e2 G2.
Proof.
  intros HRd Hpre Hlen HR. pose proof HRd as (Ln & Lc & a & HL & Hn & Hc & Hf & Hl & He & Ha).
  assert (HR2 : reading (set_mmap f2 m) f2 e G).
  { exists Ln, Lc, a. split; [|split_and!; done || lia]. eapply (loaded_tables _ _ m); [|done|exact HL]. apply reads_longer; [done|done|]. cbn. by rewrite Hf. }
  destruct (catchup_spec f2 e G e2 G2 HR (proj2 Hlen) (catchup_fuel (set_mmap f2 m) [f2]) (set_mmap f2 m) [f2] false 0 HR2) as (m2 & changed & bad & Hrun & Hrd).
  - unfold catchup_fuel. cbn [g_mmap set_mmap]. unfold len. lia.
  - unfold catchup_fuel. lia.
  - unfold gossmap_refresh, refresh_with. rewrite Hl. cbn [assert_ obind]. unfold g_map_size. rewrite Hf, (proj2 (Z.eqb_neq _ _)) by lia. unfold map_catchup. eauto.
Qed.

(** Records of a file are those of a longer one. *)
Lemma records_longer f f2 off G e G' e2 G2 : f `prefix_of` f2 -> (0 <= off)%Z -> records f off G e G' -> records f2 e G' e2 G2 -> records f2 off G e2 G2.
Proof.
  intros Hpre Hoff HR H2. assert (Hr : reads (empty_map f) (empty_map f2)) by by apply reads_longer.
  assert (Hlen : (len f <= len f2)%Z) by (destruct Hpre as [k ->]; rewrite len_app; pose proof (len_nonneg k); lia).
  induction HR as [off G Hend|off G l Hlt Hl Hd Hcut|off G l e G' Hlt Hl Hd _ IH|off G l msg e G' Hlt Hl Hd Hfit Hs Hin _ IH|off G l type e G' Hlt Hl Hd Hfit Ht Hno _ IH]; [done|done|..];
    pose proof (body_len_range l); unfold HDR in *; eapply reads_be in Hl; try exact Hr; try lia.
  - eapply records_deleted; [unfold HDR; lia|done|done|]. apply IH; [lia|done].
  - eapply records_message; [unfold HDR; lia|done|done|unfold HDR; lia| |done|]; [eapply reads_says; [done|unfold HDR; lia|done]|]. apply IH; [lia|done].
  - eapply records_other; [unfold HDR; lia|done|done|unfold HDR; lia| |done|]; [eapply reads_be; [done|lia|unfold HDR; lia|done]|]. apply IH; [lia|done].
Qed.

(** The contents the store had when it was loaded and at each refresh, the last one
    first: each is longer than the one before and starts with it. *)
Inductive history : list bytes -> Z -> graph -> Prop :=
| history_load f e G : map_u8 (empty_map f) 0 = Ret GOSSIP_STORE_VERSION -> records f 1 ∅ e G -> history [f] e G
| history_refresh f2 f l e G e2 G2 : history (f :: l) e G -> f `prefix_of` f2 -> (len f < len f2)%Z -> records f2 e G e2 G2 -> history (f2 :: f :: l) e2 G2.

(** [gossmap_load], then [gossmap_refresh] for each of the later contents. *)
Fixpoint follow (l : list bytes) : outcome (option gossmap) :=
  match l with
  | [] => Ret None
  | f :: l' =>
      match l' with
      | [] => let! r := gossmap_load [f] in Ret (option_map (fun x => x.1.1) r)
      | _ =>
          let! r := follow l' in
          match r with
          | None => Ret None
          | Some m => let! (m, _, _, _) := gossmap_refresh m [f] in Ret (Some m)
          end
      end
  end.

Lemma follow_spec l e G : history l e G -> Forall (fun f => len f < STORE_LIMIT)%Z l ->
  match l with [] => False | f :: _ => (0 <= e)%Z /\ records f 1 ∅ e G /\ exists m, follow l = Ret (Some m) /\ reading m f e G end.
Proof.
  intros HH. induction HH as [f e G Hv HR|f2 f l e G e2 G2 HH IH Hpre Hlen HR]; intros Hlim.
  - apply Forall_cons in Hlim as [Hlim _]. destruct (load_spec f e G Hv Hlim HR) as (m & rej & Hrun & Hrd). split; [destruct Hrd as (? & ? & a & H); lia|]. split; [done|].
    exists m. cbn [follow]. by rewrite Hrun.
  - apply Forall_cons in Hlim as [Hlim Hlims]. destruct (IH Hlims) as (He & HR1 & m & Hrun & Hrd).
    destruct (refresh_spec m f e G f2 e2 G2 Hrd Hpre (conj Hlen Hlim) HR) as (m2 & changed & bad & Hrf & Hrd2). split; [destruct Hrd2 as (? & ? & a & H); lia|].
    split; [by eapply records_longer; [|lia|..]|]. exists m2. split; [|done]. change (follow (f2 :: f :: l)) with (let! r := follow (f :: l) in match r with None => Ret None | Some m => let! (m, _, _, _) := gossmap_refresh m [f2] in Ret (Some m) end).
    rewrite Hrun. cbn [obind]. by rewrite Hrf.
Qed.

(** C17. A store below two gigabytes that is loaded, and followed by refreshes as
    records are added to it, is read to its end or to the record that is not yet
    complete, whenever the refreshes come, without a crash; the map then represents
    the graph that all the records of the store, read once from the start, make of
    the empty one. *)
Theorem store_followed f l e G : history (f :: l) e G -> Forall (fun f => len f < STORE_LIMIT)%Z (f :: l) ->
  records f 1 ∅ e G /\ exists m, follow (f :: l) = Ret (Some m) /\ represents m G /\ g_map_end m = e /\ g_mmap m = f.
Proof.
  intros HH Hlim. destruct (follow_spec _ _ _ HH Hlim) as (_ & HR & m & Hrun & Hrd). split; [done|]. exists m. split; [done|].
  destruct Hrd as (Ln & Lc & a & HL & _ & _ & Hf & _ & He & _). split; [by eapply loaded_represents|done].
Qed.

(** A store that is loaded while its second record is being written. *)
Definition ex_cut : bytes := take (1 + 12 + 366 + 20) ex_store.

(** One record of a concrete store. *)
Ltac record l msg next :=
  eapply (records_message _ _ _ l msg); [by vm_compute|by vm_compute|by intros H; apply H|by vm_compute|
    | |match goal with |- records _ ?o _ _ _ => change o with next end].
Ltac announcement := split; [by vm_compute|]; exists 0%Z; split; [by vm_compute|]; split; [lia|]; cbv zeta; split; [by vm_compute|]; split; [by vm_compute|]; split; by vm_compute.

Definition G1 : graph := after ∅ (Announce false (Scid 7) (ex_id 1) (ex_id 2)).
Definition G2 : graph := after G1 (Announce false (Scid 8) (ex_id 2) (ex_id 3)).

Lemma ex_cut_records : records ex_cut 1 ∅ 379 G1.
Proof.
  record 366%Z (Announce false (Scid 7) (ex_id 1) (ex_id 2)) 379%Z; [announcement|by split|].
  eapply (records_cut _ _ _ 366); [by vm_compute|by vm_compute|by intros H; apply H|by vm_compute].
Qed.

Lemma ex_store_records : records ex_store 379 G1 1079 (delete 7%Z G2).
Proof.
  record 366%Z (Announce false (Scid 8) (ex_id 2) (ex_id 3)) 757%Z; [announcement|by split|]. fold G2.
  record 138%Z (Update false (Scid 8)) 907%Z; [split; [by vm_compute|]; exists (UpdateMsg 1 1 6 1000 1000 10 100000); unfold update_reads; repeat split; by vm_compute|by eexists|].
  record 138%Z (Update false (Scid 7)) 1057%Z; [split; [by vm_compute|]; exists (UpdateMsg 1 0 6 1000 20000000 10 100000); unfold update_reads; repeat split; by vm_compute|by eexists|].
  record 10%Z (Delete (Scid 7)) 1079%Z; [split; by vm_compute|done|]. cbn [after]. apply records_end. by vm_compute.
Qed.

Lemma store_followed_witness : exists m, follow [ex_store; ex_cut] = Ret (Some m) /\ represents m (delete 7%Z G2) /\ g_map_end m = 1079%Z.
Proof.
  destruct (store_followed ex_store [ex_cut] 1079 (delete 7%Z G2)) as (_ & m & H1 & H2 & H3 & _).
  - eapply history_refresh; [apply (history_load _ 379 G1); [by vm_compute|exact ex_cut_records]| |by vm_compute|exact ex_store_records].
    exists (drop (1 + 12 + 366 + 20) ex_store). symmetry. apply take_drop.
  - repeat constructor; by vm_compute.
  - exists m. split; [exact H1|]. split; [exact H2|exact H3].
Defined.
