(* ===== verification/Localmods.v ===== *)
(** Local modifications of the map: applied and taken back.  A modification of a
    channel that the store has is undone exactly; one of a channel that nobody has
    is passed over when applied and crashes when removed. *)
From S2P Require Import Prelude Utf8 Jsmn JsonTree Json JsonOut Wire Tlv Amount JsonHelpers Features GossipStore Gossmap GossmapProofs GossmapTheorems.

(** * Channels that keep their key *)

Definition same_key (c c' : gossmap_chan) : Prop := cann_off c' = cann_off c /\ plus_scid_off c' = plus_scid_off c.

Lemma find_key_ext {K : Type} (key key' : nat -> outcome K) eqb k l : (forall i, key i = key' i) -> htable_find key eqb k l = htable_find key' eqb k l.
Proof. intros H. induction l as [|i r IH]; cbn [htable_find]; [done|]. rewrite H. destruct (key' i); [|done]. cbn [obind]. by rewrite IH. Qed.

Lemma find_chan_set m ci c c' s : g_chan_arr m !! ci = Some c -> same_key c c' -> gossmap_find_chan (set_chan m ci c') s = gossmap_find_chan m s.
Proof.
  intros Hc [Hk1 Hk2]. apply find_key_ext. intros i. unfold chanidx_id, chan_at. cbn [g_chan_arr set_chan set_chan_arr].
  destruct (decide (ci = i)) as [->|Hi]; [|by rewrite list_lookup_insert_ne by done].
  rewrite list_lookup_insert_eq by (by eapply lookup_lt_Some). rewrite Hc. cbn [obind]. unfold gossmap_chan_scid. by rewrite Hk1, Hk2.
Qed.

Lemma set_chan_comm m i j c c' : i <> j -> set_chan (set_chan m i c) j c' = set_chan (set_chan m j c') i c.
Proof. intros Hij. unfold set_chan, set_chan_arr. cbn. f_equal. by rewrite list_insert_insert_ne by done. Qed.

Lemma set_chan_back m i c c' : g_chan_arr m !! i = Some c -> set_chan (set_chan m i c') i c = m.
Proof. intros Hc. unfold set_chan, set_chan_arr. cbn. rewrite list_insert_insert_eq, list_insert_id by done. by destruct m. Qed.

(** * One modification *)

Definition apply_both (p : gossmap_chan * localmod) : gossmap_chan * localmod := apply_half true (apply_half false p).
Definition restore_both (md : localmod) (c : gossmap_chan) : gossmap_chan := restore_half md true (restore_half md false c).

Lemma apply_both_key c md : same_key c (apply_both (c, md)).1 /\ lm_scid (apply_both (c, md)).2 = lm_scid md.
Proof. unfold apply_both, apply_half, same_key. destruct md as [s o [u0 u1] h g f]. destruct u0, u1; done. Qed.

Lemma wf_apply m E N fn fc ci c md : wf m E N fn fc -> is_Some (E !! ci) -> g_chan_arr m !! ci = Some c -> wf (set_chan m ci (apply_both (c, md)).1) E N fn fc.
Proof.
  intros W HE Hc. assert (Hsame : wf (set_chan m ci c) E N fn fc) by (unfold set_chan, set_chan_arr; rewrite list_insert_id by done; by destruct m).
  assert (Hone : forall h c0 md0, wf (set_chan m ci c0) E N fn fc -> wf (set_chan m ci (apply_half h (c0, md0)).1) E N fn fc).
  { intros h c0 md0 W0. unfold apply_half. destruct (sel h (updates_set md0)); [|done]. cbn [negb fst].
    assert (Hl : g_chan_arr (set_chan m ci c0) !! ci = Some c0) by (cbn; apply list_lookup_insert_eq; by eapply lookup_lt_Some).
    match goal with |- context [set_half h ?hc NOT_LOCAL c0] => apply (wf_set_half _ _ _ _ _ ci c0 h hc NOT_LOCAL) in W0; [|done|done|done] end.
    unfold set_chan, set_chan_arr in W0 |- *. cbn in W0. by rewrite list_insert_insert_eq in W0. }
  unfold apply_both. pose proof (Hone false c md Hsame) as H1. destruct (apply_half false (c, md)) as [c1 md1]. by apply Hone.
Qed.

Lemma restore_apply c md : restore_both (apply_both (c, md)).2 (apply_both (c, md)).1 = c.
Proof. destruct c as [? ? ? [] [[] []]], md as [? ? [u0 u1] [] [] []]. by destruct u0, u1. Qed.

(** The modification of a channel of the store. *)
Definition known (m : gossmap) (md : localmod) (ci : nat) (c : gossmap_chan) : Prop :=
  gossmap_find_chan m (lm_scid md) = Ret (Some ci) /\ g_chan_arr m !! ci = Some c /\ (cann_off c < g_map_size m)%Z /\ ci ∈ g_channels m.

Lemma apply_mod_known m md ci c : known m md ci c -> apply_mod m md = Ret (set_chan m ci (apply_both (c, md)).1, (apply_both (c, md)).2).
Proof.
  intros (Hf & Hc & _). unfold apply_mod. rewrite Hf. cbn [obind]. unfold chan_at. rewrite Hc. cbn [obind]. fold (apply_both (c, md)). by destruct (apply_both (c, md)).
Qed.

Lemma known_set m md ci c i ci0 c0 : known m md ci c -> g_chan_arr m !! i = Some ci0 -> same_key ci0 c0 -> i <> ci -> known (set_chan m i c0) md ci c.
Proof. intros (Hf & Hc & Hs) Hi Hk Hne. split; [by erewrite find_chan_set|]. split; [|done]. cbn. by rewrite list_lookup_insert_ne. Qed.

(** A channel that no modification of the list is about is out of the way. *)
Lemma apply_mods_frame l : forall m m1 l1 ci c c', Forall (fun md => exists cj c, known m md cj c /\ cj <> ci) l -> g_chan_arr m !! ci = Some c -> same_key c c' ->
  apply_mods m l = Ret (m1, l1) -> apply_mods (set_chan m ci c') l = Ret (set_chan m1 ci c', l1) /\ g_chan_arr m1 !! ci = Some c.
Proof.
  induction l as [|md r IH]; intros m m1 l1 ci c c' Hall Hc Hk Hrun; cbn [apply_mods] in *; [by injection Hrun as <- <-|].
  apply Forall_cons in Hall as [(cj & cc & Hkn & Hne) Hall]. rewrite (apply_mod_known m md cj cc Hkn) in Hrun. cbn [obind] in Hrun.
  rewrite (apply_mod_known (set_chan m ci c') md cj cc) by (eapply known_set; [exact Hkn|exact Hc|exact Hk|congruence]). cbn [obind]. rewrite set_chan_comm by done.
  destruct (apply_mods (set_chan m cj (apply_both (cc, md)).1) r) as [[m2 r2]|] eqn:Hr; [|done]. cbn [obind] in Hrun. injection Hrun as <- <-.
  destruct (apply_both_key cc md) as [Hkey _]. destruct Hkn as (Hf & Hcc & Hsz & _).
  destruct (IH (set_chan m cj (apply_both (cc, md)).1) m2 r2 ci c c') as [IH1 IH2]; [| |done|done|].
  - eapply Forall_impl; [exact Hall|]. intros md' (ck & ck' & Hkn' & Hne'). destruct (decide (ck = cj)) as [->|Hd].
    + exists cj, (apply_both (cc, md)).1. split; [|done]. destruct Hkn' as (Hf' & Hc' & Hs' & Hel). split; [by rewrite (find_chan_set m cj cc)|]. split; [cbn; apply list_lookup_insert_eq; by eapply lookup_lt_Some|].
      destruct Hkey as [-> _]. done.
    + exists ck, ck'. split; [|done]. eapply known_set; [exact Hkn'|exact Hcc|exact Hkey|congruence].
  - cbn. by rewrite list_lookup_insert_ne.
  - rewrite IH1. done.
Qed.

(** Applied one after the other and taken back in the same order. *)
Lemma mods_restore m l : NoDup (lm_scid <$> l) -> Forall (fun md => exists ci c, known m md ci c) l ->
  (forall md md' ci, md ∈ l -> md' ∈ l -> gossmap_find_chan m (lm_scid md) = Ret (Some ci) -> gossmap_find_chan m (lm_scid md') = Ret (Some ci) -> lm_scid md = lm_scid md') ->
  exists m1 l1, apply_mods m l = Ret (m1, l1) /\ ofold remove_mod m1 l1 = Ret m /\ g_map_size m1 = g_map_size m /\ g_local m1 = g_local m /\ g_channels m1 = g_channels m /\
    (forall E N fn fc, wf m E N fn fc -> wf m1 E N fn fc) /\ (forall s, gossmap_find_chan m1 s = gossmap_find_chan m s).
Proof.
  induction l as [|md r IH]; intros Hdup Hall Hinj; [by exists m, []|]. cbn [fmap list_fmap] in Hdup. apply NoDup_cons in Hdup as [Hnin Hdup].
  apply Forall_cons in Hall as [(ci & c & Hkn) Hall]. cbn [apply_mods]. rewrite (apply_mod_known m md ci c Hkn). cbn [obind].
  destruct IH as (mr & r1 & Hr & Hback & Hsz & Hlo & Hchs & Hwf & Hfind); [done|done|intros; eapply Hinj; eauto; by right|].
  destruct (apply_both_key c md) as [Hkey Hsc]. destruct Hkn as (Hf & Hc & Hin & Hel).
  destruct (apply_mods_frame r m mr r1 ci c (apply_both (c, md)).1) as [Hfr Hci]; [|done|done|done|].
  { rewrite Forall_forall in Hall |- *. intros md' Hmd'. destruct (Hall md' Hmd') as (cj & cc & Hkn'). exists cj, cc. split; [done|]. intros ->.
    destruct Hkn' as [Hf' _]. apply Hnin. rewrite (Hinj md md' ci); [|left|by right|done|done]. apply list_elem_of_fmap. eauto. }
  rewrite Hfr. cbn [obind]. eexists _, _. split; [reflexivity|]. cbn [ofold]. unfold remove_mod at 1. rewrite Hsc.
  rewrite (find_chan_set mr ci c) by done. rewrite Hfind, Hf. cbn [obind]. set (c' := (apply_both (c, md)).1) in *.
  assert (Hl : g_chan_arr (set_chan mr ci c') !! ci = Some c') by (cbn; apply list_lookup_insert_eq; by eapply lookup_lt_Some).
  unfold chan_at. rewrite Hl. cbn [obind]. change (g_map_size (set_chan mr ci c')) with (g_map_size mr). destruct Hkey as [Hk1 Hk2].
  rewrite Hk1, Hsz. rewrite (proj2 (Z.leb_gt _ _)) by lia. fold (restore_both (apply_both (c, md)).2 c'). unfold c' at 2. rewrite restore_apply.
  cbn [obind]. rewrite (set_chan_back mr ci c c' Hci). split; [done|]. split; [done|]. split; [done|]. split; [done|]. split.
  { intros E N fn fc W. apply Hwf in W as W'. apply wf_apply; [done| |done]. apply (wf_channels _ _ _ _ _ W'). by rewrite Hchs. }
  intros s. rewrite <- Hfind. by apply (find_chan_set mr ci c).
Qed.

Lemma known_in_graph m G l md : represents m G -> g_local m = None -> is_Some (G !! scid_u64 (lm_scid md)) ->
  (forall ci c, ci ∈ g_channels m -> g_chan_arr m !! ci = Some c -> cann_off c < g_map_size m)%Z ->
  exists ci c, known (set_local l m) md ci c.
Proof.
  intros (E & N & fn & fc & W & HG) Hl [ids Hs] Hfile. pose proof (graph_lookup W HG (lm_scid md)) as H. rewrite Hs in H. destruct H as (ci & n0 & n1 & He & _).
  assert (W' : wf (set_local l m) E N fn fc) by (eapply wf_reads; [by apply reads_local|done|done]).
  destruct (wf_chan _ _ _ _ _ W ci _ He) as (c & Hc & _). assert (Hin : ci ∈ g_channels m) by (apply (wf_channels _ _ _ _ _ W); eauto).
  exists ci, c. split; [exact (find_chan_some W' ci _ He)|]. split; [done|]. split; [by eapply Hfile|done].
Qed.

(** C29. Local modifications of channels that the store has, each about another
    channel, are applied without a crash; the map still represents the same graph,
    and removing them gives back the very same map. *)
Theorem localmods_restore m G l : represents m G -> g_local m = None -> NoDup (lm_scid <$> mods l) ->
  (forall md, md ∈ mods l -> is_Some (G !! scid_u64 (lm_scid md))) ->
  (forall ci c, ci ∈ g_channels m -> g_chan_arr m !! ci = Some c -> cann_off c < g_map_size m)%Z ->
  exists m1 l1, gossmap_apply_localmods m l = Ret (m1, l1) /\ represents m1 G /\ gossmap_remove_localmods m1 l1 = Ret m.
Proof.
  intros HR Hl Hdup Hin Hfile. pose proof HR as (E & N & fn & fc & W & HG). set (m0 := set_local (Some (lm_local l)) m).
  assert (W0 : wf m0 E N fn fc) by (eapply wf_reads; [by apply reads_local|done|done]).
  destruct (mods_restore m0 (mods l)) as (m1 & l1 & Hap & Hback & Hsz & Hlo & Hch & Hwf & Hfind); [done| | |].
  - apply Forall_forall. intros md Hmd. by apply (known_in_graph m G); auto.
  - intros md md' ci Hmd Hmd' Hf Hf'. destruct (Hin md Hmd) as [ids Hs], (Hin md' Hmd') as [ids' Hs'].
    pose proof (graph_lookup W0 HG (lm_scid md)) as H. rewrite Hs in H. destruct H as (x & n0 & n1 & He & _).
    pose proof (graph_lookup W0 HG (lm_scid md')) as H'. rewrite Hs' in H'. destruct H' as (y & a & b & He' & _).
    assert (Fx : gossmap_find_chan m0 (lm_scid md) = Ret (Some x)) by exact (find_chan_some W0 x _ He).
    assert (Fy : gossmap_find_chan m0 (lm_scid md') = Ret (Some y)) by exact (find_chan_some W0 y _ He').
    assert (x = ci) as -> by congruence. assert (y = ci) as -> by congruence. rewrite He in He'. by injection He'.
  - exists m1, (LocalMods l1 (lm_local l)). unfold gossmap_apply_localmods. rewrite Hl. cbn [assert_ obind]. fold m0. rewrite Hap. cbn [obind].
    split; [done|]. split; [exists E, N, fn, fc; split; [by apply Hwf|done]|].
    unfold gossmap_remove_localmods. cbn [lm_local mods]. rewrite Hlo, bool_decide_eq_true_2 by done. cbn [assert_ obind]. rewrite Hback. cbn [obind]. unfold m0. destruct m; cbn in Hl |- *. by rewrite Hl.
Qed.

(** * Concrete modifications *)

Definition ex_f : bytes := Eval vm_compute in to_be 1 GOSSIP_STORE_VERSION ++ ex_record (ex_announce 7 1 2).
Definition ex_m : gossmap := Eval vm_compute in match add_channel (empty_map ex_f) 13 false with Ret (m, _) => m | Abort _ => empty_map ex_f end.
Definition ex_G : graph := <[7%Z := (ex_id 1, ex_id 2)]> ∅.

Lemma ex_m_represents : represents ex_m ex_G.
Proof.
  destruct (announce_sim _ _ (empty_map ex_f) ∅ 0 13 false (Scid 7) (ex_id 1) (ex_id 2) (empty_loaded ex_f)) as (m' & ci & Hadd & HR & _).
  - exists 0%Z. split; [by vm_compute|]. split; [lia|]. cbv zeta. split; [by vm_compute|]. split; [by vm_compute|]. by split; vm_compute.
  - by split; vm_compute.
  - by vm_compute.
  - done.
  - assert (Hc : add_channel (empty_map ex_f) 13 false = Ret (ex_m, 0)) by by vm_compute. assert (m' = ex_m) as -> by congruence. by eapply loaded_represents.
Qed.

(** A local update of that channel, and one of a channel that nobody has. *)
Definition ex_mods (s : Z) : gossmap_localmods :=
  match gossmap_local_updatechan gossmap_localmods_new (Scid s) (Msat 5) (Msat 500) 1 2 3 true false with Ret (l, _) => l | Abort _ => gossmap_localmods_new end.

Lemma localmods_restore_witness : represents ex_m ex_G /\
  exists m1 l1, gossmap_apply_localmods ex_m (ex_mods 7) = Ret (m1, l1) /\ represents m1 ex_G /\ gossmap_remove_localmods m1 l1 = Ret ex_m.
Proof.
  split; [exact ex_m_represents|]. apply (localmods_restore ex_m ex_G (ex_mods 7)).
  - exact ex_m_represents.
  - reflexivity.
  - vm_compute. constructor; [|constructor]. intros H. by apply elem_of_nil in H.
  - intros md Hmd. assert (mods (ex_mods 7) = [hd (mod_new (Scid 0) 0) (mods (ex_mods 7))]) as Hm by by vm_compute. rewrite Hm in Hmd. apply list_elem_of_singleton in Hmd as ->. exists (ex_id 1, ex_id 2). by vm_compute.
  - intros ci c Hci Hc. assert (ci = 0) as -> by (change (ci ∈ [0]) in Hci; by apply list_elem_of_singleton in Hci). vm_compute in Hc. injection Hc as <-. by vm_compute.
Defined.

(** The modification of a channel that nobody has is passed over, and its removal
    follows a null pointer. *)
Example unknown_localmod : match gossmap_apply_localmods ex_m (ex_mods 9) with Ret (m1, l1) => gossmap_remove_localmods m1 l1 | Abort w => Abort w end = Abort "gossmap_remove_localmods: NULL".
Proof. by vm_compute. Qed.

(** A local channel is made when applied and gone when removed; the entries it used
    are the first free ones again. *)
Definition ex_local : gossmap_localmods :=
  match gossmap_local_addchan gossmap_localmods_new (ex_id 2) (ex_id 4) (Scid 11) [] with Ret (l, _) => l | Abort _ => gossmap_localmods_new end.
Example local_channel :
  match gossmap_apply_localmods ex_m ex_local with
  | Ret (m1, l1) => gossmap_num_chans m1 = 2 /\ (if gossmap_find_node m1 (ex_id 4) is Ret (Some _) then True else False) /\
      match gossmap_remove_localmods m1 l1 with Ret m2 => gossmap_num_chans m2 = 1 /\ gossmap_find_node m2 (ex_id 4) = Ret None /\ g_channels m2 = g_channels ex_m /\ g_nodes m2 = g_nodes ex_m | Abort _ => False end
  | Abort _ => False
  end.
Proof. by vm_compute. Qed.

(** A fee that does not fit is cut to its lower bits and the channel stays enabled:
    a fee of 16777217 millisatoshi becomes one. *)
Example local_fee_cut :
  match gossmap_local_updatechan gossmap_localmods_new (Scid 7) (Msat 0) (Msat 1000) 16777217 0 6 true false with
  | Ret (l, ok) => ok = false /\ match gossmap_apply_localmods ex_m l with
      | Ret (m1, _) => option_map (fun c => (hc_enabled (at0 (half c)), hc_base_fee (at0 (half c)))) (g_chan_arr m1 !! 0) = Some (true, 1%Z)
      | Abort _ => False end
  | Abort _ => False
  end.
Proof. by vm_compute. Qed.
