(* ===== verification/Clist.v ===== *)
(** ccan/list: doubly-linked lists that go through the elements.

    The memory gives each address its two pointers.  An element is known by the
    address of its node, so that the macros that go from a node to what contains
    it, and back, are the identity; [off] is gone from the functions.  The checks of
    CCAN_LIST_DEBUG are compiled out. *)
From S2P Require Import Prelude.

(** * The operations *)

Record list_node : Type := ListNode { next : nat; prev : nat }.
Abbreviation mem := (gmap nat list_node).

Definition deref (m : mem) (a : nat) : outcome list_node := match m !! a with Some n => Ret n | None => Abort "list: bad pointer" end.
Definition set_next (m : mem) (a v : nat) : outcome mem := let! n := deref m a in Ret (<[a := ListNode v (prev n)]> m).
Definition set_prev (m : mem) (a v : nat) : outcome mem := let! n := deref m a in Ret (<[a := ListNode (next n) v]> m).

Definition list_head_init (m : mem) (h : nat) : outcome mem := let! m := set_prev m h h in set_next m h h.
Definition list_node_init (m : mem) (n : nat) : outcome mem := let! m := set_prev m n n in set_next m n n.

Definition list_add_after_ (m : mem) (p n : nat) : outcome mem :=
  let! pn := deref m p in
  let! m := set_next m n (next pn) in
  let! m := set_prev m n p in
  let! pn := deref m p in
  let! m := set_prev m (next pn) n in
  set_next m p n.
Definition list_add_ (m : mem) (h n : nat) : outcome mem := list_add_after_ m h n.

Definition list_add_before_ (m : mem) (p n : nat) : outcome mem :=
  let! m := set_next m n p in
  let! pn := deref m p in
  let! m := set_prev m n (prev pn) in
  let! pn := deref m p in
  let! m := set_next m (prev pn) n in
  set_prev m p n.
Definition list_add_tail_ (m : mem) (h n : nat) : outcome mem := list_add_before_ m h n.

Definition list_empty_ (m : mem) (h : nat) : outcome bool := let! n := deref m h in Ret (next n =? h).

Definition list_del_ (m : mem) (n : nat) : outcome mem :=
  let! nn := deref m n in
  let! m := set_prev m (next nn) (prev nn) in
  let! nn := deref m n in
  set_next m (prev nn) (next nn).
Definition list_del_init_ (m : mem) (n : nat) : outcome mem := let! m := list_del_ m n in list_node_init m n.
Definition list_del_from (m : mem) (h n : nat) : outcome mem :=
  let! e := list_empty_ m h in
  let! _ := assert_ (negb e) "list_del_from: empty" in
  list_del_ m n.

Definition list_swap_ (m : mem) (o n : nat) : outcome mem :=
  let! on := deref m o in
  let! m := set_next m n (next on) in
  let! m := set_prev m n (prev on) in
  let! nn := deref m n in
  let! m := set_prev m (next nn) n in
  let! nn := deref m n in
  set_next m (prev nn) n.

Definition list_top_ (m : mem) (h : nat) : outcome (option nat) :=
  let! e := list_empty_ m h in
  if e : bool then Ret None else let! n := deref m h in Ret (Some (next n)).
Definition list_tail_ (m : mem) (h : nat) : outcome (option nat) :=
  let! e := list_empty_ m h in
  if e : bool then Ret None else let! n := deref m h in Ret (Some (prev n)).
Definition list_pop_ (m : mem) (h : nat) : outcome (mem * option nat) :=
  let! e := list_empty_ m h in
  if e : bool then Ret (m, None)
  else
    let! n := deref m h in
    let! m := list_del_ m (next n) in
    Ret (m, Some (next n)).

(** [list_next] and [list_prev] *)
Definition list_entry_or_null (h n : nat) : option nat := if n =? h then None else Some n.
Definition list_next (m : mem) (h i : nat) : outcome (option nat) := let! n := deref m i in Ret (list_entry_or_null h (next n)).
Definition list_prev (m : mem) (h i : nat) : outcome (option nat) := let! n := deref m i in Ret (list_entry_or_null h (prev n)).

Definition list_append_list_ (m : mem) (to from : nat) : outcome mem :=
  let! f := deref m from in
  let! t := deref m to in
  let from_tail := prev f in
  let to_tail := prev t in
  let! m := set_prev m to from_tail in
  let! m := set_next m from_tail to in
  let! m := set_next m to_tail from in
  let! m := set_prev m from to_tail in
  let! m := list_del_ m from in
  list_head_init m from.

Definition list_prepend_list_ (m : mem) (to from : nat) : outcome mem :=
  let! f := deref m from in
  let! t := deref m to in
  let from_tail := prev f in
  let to_head := next t in
  let! m := set_next m to from in
  let! m := set_prev m from to in
  let! m := set_prev m to_head from_tail in
  let! m := set_next m from_tail to_head in
  let! m := list_del_ m from in
  list_head_init m from.

(** The loops, over a body that may change the memory; [fuel] bounds the rounds. *)
Section Loops.
  Context {St : Type} (dir : list_node -> nat) (body : mem -> St -> nat -> outcome (mem * St)) (h : nat).

Fixpoint for_each_loop (fuel : nat) (m : mem) (s : St) (i : nat) : outcome (mem * St) :=
  match fuel with
  | O => Abort "list_for_each: fuel"
  | S f =>
      if i =? h then Ret (m, s)
      else
        let! (m, s) := body m s i in
        let! n := deref m i in
        for_each_loop f m s (dir n)
  end.
Definition list_for_each (m : mem) (s : St) : outcome (mem * St) :=
  let! n := deref m h in for_each_loop (S (size m)) m s (dir n).

Fixpoint for_each_safe_loop (fuel : nat) (m : mem) (s : St) (i nxt : nat) : outcome (mem * St) :=
  match fuel with
  | O => Abort "list_for_each_safe: fuel"
  | S f =>
      if i =? h then Ret (m, s)
      else
        let! (m, s) := body m s i in
        let! n := deref m nxt in
        for_each_safe_loop f m s nxt (dir n)
  end.
Definition list_for_each_safe (m : mem) (s : St) : outcome (mem * St) :=
  let! n := deref m h in
  let! i := deref m (dir n) in
  for_each_safe_loop (S (size m)) m s (dir n) (dir i).

End Loops.

(** [timers_far_get] of ccan/timer, on nodes: those that are due go from one list to
    the end of another, while the loop goes over the first. *)
Definition far_get (due : nat -> bool) (far list : nat) (m : mem) : outcome mem :=
  let! (m, _) :=
    list_for_each_safe next (fun m s i =>
      if due i then
        let! m := list_del_from m far i in
        let! m := list_add_tail_ m list i in
        Ret (m, s)
      else Ret (m, s)) far m tt in
  Ret m.

(** [list_check_node]: NULL is [None], for a list that is corrupt, unless it is to
    abort then. *)
Definition corrupt (abortstr : bool) : outcome (option nat) := if abortstr then Abort "corrupt" else Ret None.

Fixpoint check_loop (fuel : nat) (m : mem) (abortstr : bool) (node p n : nat) : outcome (option nat) :=
  match fuel with
  | O => Abort "list_check_node: fuel"
  | S f =>
      if n =? node then let! nd := deref m node in if negb (prev nd =? p) then corrupt abortstr else Ret (Some node)
      else
        let! nd := deref m n in
        if negb (prev nd =? p) then corrupt abortstr else check_loop f m abortstr node n (next nd)
  end.
Definition list_check_node (m : mem) (node : nat) (abortstr : bool) : outcome (option nat) :=
  let! nd := deref m node in check_loop (S (size m)) m abortstr node node (next nd).
Definition list_check (m : mem) (h : nat) (abortstr : bool) : outcome (option nat) := list_check_node m h abortstr.

(** * Reading and writing *)

Definition nx (m : mem) (x : nat) : option nat := next <$> m !! x.
Definition pv (m : mem) (x : nat) : option nat := prev <$> m !! x.

(** The last of the writes to an address, or what was there. *)
Fixpoint look (w : list (nat * nat)) (x : nat) (was : option nat) : option nat :=
  match w with [] => was | (a, v) :: w => if decide (x = a) then Some v else look w x was end.

(** [m'] is [m] after writes of [next] and [prev] pointers. *)
Definition writes (m m' : mem) (N P : list (nat * nat)) : Prop := forall x, nx m' x = look N x (nx m x) /\ pv m' x = look P x (pv m x).

Lemma writes_refl m : writes m m [] [].
Proof. done. Qed.

Lemma look_some w x was : is_Some was -> is_Some (look w x was).
Proof. intros H. induction w as [|[a v] w IH]; [done|]. cbn. by destruct (decide _). Qed.

Lemma nx_pv m x : is_Some (nx m x) <-> is_Some (pv m x).
Proof. unfold nx, pv. by rewrite !fmap_is_Some. Qed.

Lemma writes_deref m m' N P a n p : writes m m' N P -> look N a (nx m a) = Some n -> look P a (pv m a) = Some p -> deref m' a = Ret (ListNode n p).
Proof.
  intros Hw Hn Hp. destruct (Hw a) as [Hn' Hp']. unfold deref, nx, pv in *. rewrite Hn in Hn'. rewrite Hp in Hp'.
  destruct (m' !! a) as [[n' p']|]; [|done]. cbn in *. congruence.
Qed.

Lemma deref_fields m a n : deref m a = Ret n -> nx m a = Some (next n) /\ pv m a = Some (prev n).
Proof. unfold deref, nx, pv. destruct (m !! a) as [n'|]; [|done]. by intros [= ->]. Qed.

Lemma writes_next m m' N P a v : writes m m' N P -> is_Some (nx m a) -> exists m2, set_next m' a v = Ret m2 /\ writes m m2 ((a, v) :: N) P.
Proof.
  intros Hw Ha. destruct (Hw a) as [Hn Hp]. destruct (look_some N a _ Ha) as [n Hl], (look_some P a _ (proj1 (nx_pv m a) Ha)) as [p Hl'].
  unfold set_next. rewrite (writes_deref _ _ _ _ _ _ _ Hw Hl Hl'). cbn [obind prev]. eexists. split; [done|]. intros x. destruct (Hw x) as [Hx Hx'].
  unfold nx, pv in *. cbn [look]. destruct (decide (x = a)) as [->|Hne]; [rewrite lookup_insert_eq; cbn; by rewrite Hl'|]. by rewrite lookup_insert_ne.
Qed.

Lemma writes_prev m m' N P a v : writes m m' N P -> is_Some (nx m a) -> exists m2, set_prev m' a v = Ret m2 /\ writes m m2 N ((a, v) :: P).
Proof.
  intros Hw Ha. destruct (Hw a) as [Hn Hp]. destruct (look_some N a _ Ha) as [n Hl], (look_some P a _ (proj1 (nx_pv m a) Ha)) as [p Hl'].
  unfold set_prev. rewrite (writes_deref _ _ _ _ _ _ _ Hw Hl Hl'). cbn [obind next]. eexists. split; [done|]. intros x. destruct (Hw x) as [Hx Hx'].
  unfold nx, pv in *. cbn [look]. destruct (decide (x = a)) as [->|Hne]; [rewrite lookup_insert_eq; cbn; by rewrite Hl|]. by rewrite lookup_insert_ne.
Qed.

(** One write, or one read, of an operation. *)
Ltac looks := cbn [look]; repeat first [rewrite decide_True by congruence | rewrite decide_False by congruence]; eauto.
Ltac write_next W := lazymatch goal with |- context [set_next ?x ?a ?v] => let m := fresh "m" in let E := fresh "E" in let W' := fresh "W" in
  edestruct (writes_next _ x _ _ a v W) as (m & E & W'); [|rewrite E; cbn [obind next prev]; clear E W; rename W' into W] end.
Ltac write_prev W := lazymatch goal with |- context [set_prev ?x ?a ?v] => let m := fresh "m" in let E := fresh "E" in let W' := fresh "W" in
  edestruct (writes_prev _ x _ _ a v W) as (m & E & W'); [|rewrite E; cbn [obind next prev]; clear E W; rename W' into W] end.
Ltac read W := lazymatch goal with |- context [deref ?x ?a] => let E := fresh "E" in
  eassert (E : deref x a = Ret (ListNode _ _)); [eapply (writes_deref _ _ _ _ _ _ _ W); [solve [looks]|solve [looks]]|rewrite E; cbn [obind next prev]; clear E] end.

(** The writes of an insertion of [n] between [p] and [q], and of a removal. *)
Definition linked (m m' : mem) (p n q : nat) : Prop := writes m m' [(p, n); (n, q)] [(q, n); (n, p)].
Definition bridged (m m' : mem) (p q : nat) : Prop := writes m m' [(p, q)] [(q, p)].

Lemma writes_perm m m' N P N' P' : writes m m' N P -> (forall x, look N x (nx m x) = look N' x (nx m x)) -> (forall x, look P x (pv m x) = look P' x (pv m x)) -> writes m m' N' P'.
Proof. intros Hw HN HP x. destruct (Hw x) as [-> ->]. by rewrite HN, HP. Qed.

Lemma add_after_run m p n q : nx m p = Some q -> is_Some (nx m q) -> is_Some (nx m n) -> n <> p -> n <> q -> exists m', list_add_after_ m p n = Ret m' /\ linked m m' p n q.
Proof.
  intros Hp Hq Hn Hnp Hnq. unfold list_add_after_. pose proof (writes_refl m) as W. destruct (proj1 (nx_pv m p) ltac:(eauto)) as [pp Hpp].
  read W. write_next W; [done|]. write_prev W; [done|]. read W. write_prev W; [done|]. write_next W; [eauto|]. eauto.
Qed.

Lemma add_before_run m p n q : pv m q = Some p -> is_Some (nx m p) -> is_Some (nx m n) -> n <> p -> n <> q -> exists m', list_add_before_ m q n = Ret m' /\ linked m m' p n q.
Proof.
  intros Hq Hp Hn Hnp Hnq. unfold list_add_before_. pose proof (writes_refl m) as W. destruct (proj2 (nx_pv m q) ltac:(eauto)) as [qq Hqq].
  write_next W; [done|]. read W. write_prev W; [done|]. read W. write_next W; [done|]. write_prev W; [eauto|]. eauto.
Qed.

Lemma del_run m p n q : nx m n = Some q -> pv m n = Some p -> is_Some (nx m p) -> is_Some (nx m q) -> n <> p -> n <> q -> exists m', list_del_ m n = Ret m' /\ bridged m m' p q.
Proof.
  intros Hq Hp Ap Aq Hnp Hnq. unfold list_del_. pose proof (writes_refl m) as W. read W. write_prev W; [done|]. read W. write_next W; [done|]. eauto.
Qed.

Lemma swap_run m p o n q : nx m o = Some q -> pv m o = Some p -> is_Some (nx m p) -> is_Some (nx m q) -> is_Some (nx m n) -> n <> p -> n <> q -> exists m', list_swap_ m o n = Ret m' /\ linked m m' p n q.
Proof.
  intros Hq Hp Ap Aq An Hnp Hnq. unfold list_swap_. pose proof (writes_refl m) as W. read W. write_next W; [done|]. write_prev W; [done|]. read W. write_prev W; [done|]. read W. write_next W; [done|]. eauto.
Qed.

Lemma init_run m h : is_Some (nx m h) -> exists m', list_head_init m h = Ret m' /\ writes m m' [(h, h)] [(h, h)].
Proof. intros Hh. unfold list_head_init. pose proof (writes_refl m) as W. write_prev W; [done|]. write_next W; [done|]. eauto. Qed.

(** * Rings *)

(** The pointers along a path from [a], in both directions. *)
Fixpoint path (m : mem) (a : nat) (l : list nat) : Prop :=
  match l with [] => True | x :: l => nx m a = Some x /\ pv m x = Some a /\ path m x l end.

(** The list at a head: a path from the head back to it. *)
Definition ring (m : mem) (h : nat) (l : list nat) : Prop := NoDup (h :: l) /\ path m h (l ++ [h]).

Lemma last_head (x a : nat) l : List.last (x :: l) a = List.last l x.
Proof.
  assert (H : forall (y a b : nat) l, List.last (y :: l) a = List.last (y :: l) b) by (intros y b c k; revert y; induction k as [|z k IH]; intros y; [done|apply (IH z)]).
  destruct l as [|y l]; [done|]. exact (H y a x l).
Qed.

Lemma path_app m a l1 l2 : path m a (l1 ++ l2) <-> path m a l1 /\ path m (List.last l1 a) l2.
Proof.
  revert a. induction l1 as [|x l1 IH]; intros a; [cbn; naive_solver|]. cbn [app path]. rewrite IH.
  rewrite last_head. naive_solver.
Qed.

(** The nodes whose [next] a path has. *)
Fixpoint srcs (a : nat) (l : list nat) : list nat := match l with [] => [] | x :: l => a :: srcs x l end.

Lemma srcs_snoc a l b : srcs a (l ++ [b]) = a :: l.
Proof. revert a. induction l as [|x l IH]; intros a; [done|]. cbn. by rewrite IH. Qed.

Lemma path_frame m m' a l : (forall x, x ∈ srcs a l -> nx m' x = nx m x) -> (forall x, x ∈ l -> pv m' x = pv m x) -> path m a l -> path m' a l.
Proof.
  revert a. induction l as [|x l IH]; intros a Hn Hp Hpath; [done|]. destruct Hpath as (H1 & H2 & H3). split; [rewrite Hn by (by left); done|]. split; [rewrite Hp by (by left); done|].
  apply IH; [intros y Hy; apply Hn; by right|intros y Hy; apply Hp; by right|done].
Qed.

(** A part of a list is replaced by another: outside of it only the pointers at its
    two ends may change. *)
Lemma ring_splice m m' h l1 mid mid' l2 : let p := List.last l1 h in let q := List.hd h l2 in
  ring m h (l1 ++ mid ++ l2) -> NoDup (h :: l1 ++ mid' ++ l2) ->
  (forall x, x ∈ h :: l1 ++ l2 -> x <> p -> nx m' x = nx m x) -> (forall x, x ∈ h :: l1 ++ l2 -> x <> q -> pv m' x = pv m x) ->
  path m' p (mid' ++ [q]) -> ring m' h (l1 ++ mid' ++ l2).
Proof.
  intros p q [_ Hpath] Hdup HN HP Hmid. split; [done|]. rewrite <- !(assoc_L (++)) in *. rewrite path_app, (path_app _ _ mid) in Hpath. destruct Hpath as (H1 & _ & H2).
  assert (Hl : exists r, l2 ++ [h] = q :: r /\ srcs q r = l2 /\ q ∉ r /\ (forall x, x ∈ r -> x ∈ h :: l2)).
  { subst q. destruct l2 as [|y l2]; [exists []; split_and!; [done|done|by apply not_elem_of_nil|by intros x ?%elem_of_nil]|]. exists (l2 ++ [h]). cbn [List.hd]. rewrite srcs_snoc. split_and!; [done|done| |set_solver].
    apply NoDup_cons in Hdup as [Hh Hdup]. apply NoDup_app in Hdup as (_ & _ & Hdup). apply NoDup_app in Hdup as (_ & _ & Hdup). apply NoDup_cons in Hdup as [Hy _]. set_solver. }
  destruct Hl as (r & Hr & Hsrc & Hqr & Hsub). rewrite Hr in *. rewrite (cons_middle q mid' r) at 1. rewrite (assoc_L (++) mid' [q] r), path_app, (path_app _ _ (mid' ++ [q])), List.last_last.
  destruct H2 as (_ & _ & H2). assert (Hd : NoDup (h :: l1) /\ (forall x, x ∈ h :: l1 -> x ∉ l2)).
  { split; [eapply sublist_NoDup; [exact Hdup|apply sublist_skip, sublist_inserts_r; done]|]. apply NoDup_cons in Hdup as [Hh Hdup]. apply NoDup_app in Hdup as (_ & Hx & _). set_solver. }
  destruct Hd as [Hd1 Hd2]. assert (Hpin : p ∈ h :: l1) by (subst p; destruct l1 as [|y l1 _] using rev_ind; [by left|rewrite List.last_last; set_solver]).
  split; [|split; [done|]].
  - apply (path_frame m); [| |done].
    + intros x Hx. subst p. destruct l1 as [|y l1 _] using rev_ind; [by apply elem_of_nil in Hx|]. rewrite srcs_snoc in Hx. rewrite List.last_last in *. apply HN; [set_solver|].
      intros ->. apply NoDup_cons in Hd1 as [Hh Hd1]. apply NoDup_app in Hd1 as (_ & Hd1 & _). apply elem_of_cons in Hx as [->|Hx]; [apply Hh; set_solver|]. by apply (Hd1 y Hx), list_elem_of_singleton.
    + intros x Hx. apply HP; [set_solver|]. intros ->. assert (Hq : q ∈ h :: l2) by (subst q; destruct l2; set_solver). apply elem_of_cons in Hq as [Hq|Hq]; [rewrite Hq in Hx; by apply NoDup_cons in Hd1 as [? _]|]. by apply (Hd2 q); [right|].
  - apply (path_frame m); [| |done].
    + rewrite Hsrc. intros x Hx. apply HN; [set_solver|]. intros ->. by apply (Hd2 p).
    + intros x Hx. apply HP; [apply Hsub in Hx; set_solver|]. by intros ->.
Qed.

Lemma ring_junction m h l1 l2 : ring m h (l1 ++ l2) -> nx m (List.last l1 h) = Some (List.hd h l2) /\ pv m (List.hd h l2) = Some (List.last l1 h).
Proof. intros [_ Hp]. rewrite <- (assoc_L (++)), path_app in Hp. destruct Hp as [_ Hp]. destruct l2 as [|y l2]; cbn in Hp; naive_solver. Qed.

Lemma ring_in m h l x : ring m h l -> x ∈ h :: l -> is_Some (nx m x).
Proof.
  intros Hr Hx. assert (exists l1 l2, l = l1 ++ l2 /\ List.last l1 h = x) as (l1 & l2 & -> & <-).
  { apply elem_of_cons in Hx as [->|Hx]; [by exists [], l|]. apply list_elem_of_split in Hx as (a & b & ->). exists (a ++ [x]), b. by rewrite <- (assoc_L (++)), List.last_last. }
  rewrite (proj1 (ring_junction m h l1 l2 Hr)). eauto.
Qed.

Lemma ring_frame m m' h l : (forall x, x ∈ h :: l -> nx m' x = nx m x /\ pv m' x = pv m x) -> ring m h l -> ring m' h l.
Proof.
  intros Hf [Hd Hp]. split; [done|]. apply (path_frame m); [| |done].
  - rewrite srcs_snoc. intros x Hx. by apply Hf.
  - intros x Hx. apply Hf. set_solver.
Qed.

Lemma ring_dup m h l : ring m h l -> NoDup (h :: l).
Proof. by intros [H _]. Qed.

(** Outside of the addresses of some writes nothing changes. *)
Lemma look_other w x was : x ∉ w.*1 -> look w x was = was.
Proof. induction w as [|[a v] w IH]; [done|]. cbn. rewrite not_elem_of_cons. intros [H1 H2]. rewrite decide_False by done. by apply IH. Qed.

Lemma writes_other m m' N P x : writes m m' N P -> x ∉ N.*1 -> x ∉ P.*1 -> nx m' x = nx m x /\ pv m' x = pv m x.
Proof. intros Hw H1 H2. destruct (Hw x) as [-> ->]. by rewrite !look_other. Qed.

(** The first and the last of a part are in the list, or its head. *)
Lemma last_in (h : nat) l : List.last l h ∈ h :: l.
Proof. destruct l as [|y l _] using rev_ind; [by left|]. rewrite List.last_last. set_solver. Qed.
Lemma hd_in (h : nat) l : List.hd h l ∈ h :: l.
Proof. destruct l; set_solver. Qed.

Lemma linked_ring m m' h l1 mid n l2 : ring m h (l1 ++ mid ++ l2) -> n ∉ h :: l1 ++ l2 -> linked m m' (List.last l1 h) n (List.hd h l2) -> ring m' h (l1 ++ [n] ++ l2).
Proof.
  intros Hr Hn Hw. pose proof (ring_dup _ _ _ Hr) as Hd. set (p := List.last l1 h) in *. set (q := List.hd h l2) in *.
  assert (Hp : p ∈ h :: l1) by apply last_in. assert (Hq : q ∈ h :: l2) by apply hd_in. assert (n <> p) by set_solver. assert (n <> q) by set_solver.
  apply (ring_splice m m' h l1 mid [n] l2); [done| | | |].
  - apply NoDup_cons in Hd as [Hh Hd]. apply NoDup_app in Hd as (D1 & D2 & D3). apply NoDup_app in D3 as (_ & _ & D3).
    apply NoDup_cons. split; [set_solver|]. apply NoDup_app. split; [done|]. split; [set_solver|]. apply NoDup_cons. split; [set_solver|done].
  - intros x Hx Hxp. destruct (Hw x) as [-> _]. cbn [look]. rewrite !decide_False by set_solver. done.
  - intros x Hx Hxq. destruct (Hw x) as [_ ->]. cbn [look]. rewrite !decide_False by set_solver. done.
  - fold p q. cbn [path app]. split_and!; try done.
    + rewrite (proj1 (Hw p)). cbn [look]. by rewrite decide_True.
    + rewrite (proj2 (Hw n)). looks.
    + rewrite (proj1 (Hw n)). looks.
    + rewrite (proj2 (Hw q)). looks.
Qed.

Lemma bridged_ring m m' h l1 n l2 : ring m h (l1 ++ [n] ++ l2) -> bridged m m' (List.last l1 h) (List.hd h l2) -> ring m' h (l1 ++ l2).
Proof.
  intros Hr Hw. pose proof (ring_dup _ _ _ Hr) as Hd. set (p := List.last l1 h) in *. set (q := List.hd h l2) in *.
  apply (ring_splice m m' h l1 [n] [] l2); [done| | | |].
  - apply NoDup_cons in Hd as [Hh Hd]. apply NoDup_app in Hd as (D1 & D2 & D3). apply NoDup_app in D3 as (_ & _ & D3).
    apply NoDup_cons. split; [set_solver|]. apply NoDup_app. split; [done|]. split; [set_solver|done].
  - intros x Hx Hxp. destruct (Hw x) as [-> _]. cbn [look]. by rewrite decide_False.
  - intros x Hx Hxq. destruct (Hw x) as [_ ->]. cbn [look]. by rewrite decide_False.
  - fold p q. cbn [path app]. split_and!; try done; [rewrite (proj1 (Hw p))|rewrite (proj2 (Hw q))]; looks.
Qed.

(** * A memory of lists *)

(** [L] gives the heads their lists; no node is in two of them. *)
Definition store (m : mem) (L : gmap nat (list nat)) : Prop :=
  (forall h l, L !! h = Some l -> ring m h l) /\
  forall h l h' l' x, L !! h = Some l -> L !! h' = Some l' -> x ∈ h :: l -> x ∈ h' :: l' -> h = h'.

(** A node that is in no list, and no head. *)
Definition loose (m : mem) (L : gmap nat (list nat)) (n : nat) : Prop := is_Some (nx m n) /\ forall h l, L !! h = Some l -> n ∉ h :: l.

Lemma store_update m m' L h l l' : store m L -> L !! h = Some l -> ring m' h l' -> (forall x, x ∈ l' -> x ∈ l \/ forall h l, L !! h = Some l -> x ∉ h :: l) ->
  (forall x, x ∉ h :: l -> x ∉ l' -> nx m' x = nx m x /\ pv m' x = pv m x) -> store m' (<[h := l']> L).
Proof.
  intros [Hr Hd] Hh Hr' Hnew Hf. assert (Hout : forall h2 l2 x, L !! h2 = Some l2 -> h2 <> h -> x ∈ h2 :: l2 -> x ∉ h :: l /\ x ∉ l').
  { intros h2 l2 x H2 Hne Hx. assert (x ∉ h :: l) by (intros Hx'; apply Hne; by eapply (Hd h2 l2 h l x)). split; [done|]. intros Hx'. destruct (Hnew x Hx') as [Hx2|Hx2]; [set_solver|]. by apply (Hx2 h2 l2). }
  split.
  - intros h2 l2. destruct (decide (h = h2)) as [<-|Hne]; [rewrite lookup_insert_eq; by intros [= <-]|]. rewrite lookup_insert_ne by done. intros H2. apply (ring_frame m); [|by apply Hr].
    intros x Hx. destruct (Hout h2 l2 x H2 (not_eq_sym Hne) Hx). by apply Hf.
  - intros h1 l1 h2 l2 x. destruct (decide (h = h1)) as [<-|Hn1], (decide (h = h2)) as [<-|Hn2]; rewrite ?lookup_insert_eq, ?lookup_insert_ne by done; [done| | |by apply Hd].
    + intros [= <-] H2 Hx1 Hx2. destruct (Hout h2 l2 x H2 (not_eq_sym Hn2) Hx2). set_solver.
    + intros H1 [= <-] Hx1 Hx2. destruct (Hout h1 l1 x H1 (not_eq_sym Hn1) Hx1). set_solver.
Qed.

Section Store.
  Context {m : mem} {L : gmap nat (list nat)}.
  Hypothesis HS : store m L.

Lemma store_ring h l : L !! h = Some l -> ring m h l.
Proof. apply HS. Qed.

(** [n] goes between two parts of a list. *)
Lemma link_store m' h l1 l2 n : L !! h = Some (l1 ++ l2) -> loose m L n -> linked m m' (List.last l1 h) n (List.hd h l2) -> store m' (<[h := l1 ++ n :: l2]> L).
Proof.
  intros Hh [_ Hn] Hw. pose proof (store_ring h _ Hh) as Hr. specialize (Hn h _ Hh) as Hnh.
  pose proof (last_in h l1). pose proof (hd_in h l2). eapply (store_update m); [done|exact Hh| | |].
  - exact (linked_ring m m' h l1 [] n l2 Hr Hnh Hw).
  - intros x Hx. apply elem_of_app in Hx as [Hx|[->|Hx]%elem_of_cons]; [left; set_solver|by right|left; set_solver].
  - intros x Hx Hx'. eapply writes_other; [exact Hw|set_solver|set_solver].
Qed.

(** The neighbours of a gap are there, and are not a loose node. *)
Lemma gap h l1 l2 n : L !! h = Some (l1 ++ l2) -> loose m L n ->
  let p := List.last l1 h in let q := List.hd h l2 in
  nx m p = Some q /\ pv m q = Some p /\ is_Some (nx m p) /\ is_Some (nx m q) /\ n <> p /\ n <> q.
Proof.
  intros Hh [_ Hn] p q. pose proof (store_ring h _ Hh) as Hr. destruct (ring_junction _ _ _ _ Hr) as [H1 H2]. specialize (Hn h _ Hh).
  assert (Hp : p ∈ h :: l1 ++ l2) by (pose proof (last_in h l1); set_solver). assert (Hq : q ∈ h :: l1 ++ l2) by (pose proof (hd_in h l2); set_solver).
  split_and!; [done|done|by eapply ring_in|by eapply ring_in|set_solver|set_solver].
Qed.

Lemma add_after_store h l1 l2 n : L !! h = Some (l1 ++ l2) -> loose m L n -> exists m', list_add_after_ m (List.last l1 h) n = Ret m' /\ store m' (<[h := l1 ++ n :: l2]> L).
Proof.
  intros Hh Hn. destruct (gap h l1 l2 n Hh Hn) as (H1 & H2 & H3 & H4 & H5 & H6). destruct (add_after_run m _ n _ H1 H4 (proj1 Hn) H5 H6) as (m' & Hrun & Hw).
  exists m'. split; [done|]. by apply link_store.
Qed.

Lemma add_before_store h l1 l2 n : L !! h = Some (l1 ++ l2) -> loose m L n -> exists m', list_add_before_ m (List.hd h l2) n = Ret m' /\ store m' (<[h := l1 ++ n :: l2]> L).
Proof.
  intros Hh Hn. destruct (gap h l1 l2 n Hh Hn) as (H1 & H2 & H3 & H4 & H5 & H6). destruct (add_before_run m _ n _ H2 H3 (proj1 Hn) H5 H6) as (m' & Hrun & Hw).
  exists m'. split; [done|]. by apply link_store.
Qed.

(** A node of a list, and its neighbours. *)
Lemma around h l1 n l2 : L !! h = Some (l1 ++ n :: l2) -> let p := List.last l1 h in let q := List.hd h l2 in
  nx m n = Some q /\ pv m n = Some p /\ is_Some (nx m p) /\ is_Some (nx m q) /\ n <> p /\ n <> q.
Proof.
  intros Hh p q. pose proof (store_ring h _ Hh) as Hr. pose proof (ring_dup _ _ _ Hr) as Hd. apply NoDup_cons in Hd as [Hhd Hd]. apply NoDup_app in Hd as (_ & D2 & D3). apply NoDup_cons in D3 as [D3 _].
  destruct (ring_junction m h l1 (n :: l2) Hr) as [_ H2]. rewrite (cons_middle n) in Hr. rewrite (assoc_L (++)) in Hr. destruct (ring_junction _ _ _ _ Hr) as [H1 _]. rewrite List.last_last in H1.
  pose proof (last_in h l1) as Hp. pose proof (hd_in h l2) as Hq. fold p in Hp. fold q in Hq.
  split_and!; [done|done|eapply ring_in; [exact Hr|set_solver]|eapply ring_in; [exact Hr|set_solver]| |].
  - intros ->. apply elem_of_cons in Hp as [Hp|Hp]; [rewrite <- Hp in Hhd; set_solver|]. by apply (D2 p Hp); left.
  - intros ->. apply elem_of_cons in Hq as [Hq|Hq]; [rewrite <- Hq in Hhd; set_solver|done].
Qed.

Lemma bridge_store m' h l1 n l2 : L !! h = Some (l1 ++ n :: l2) -> bridged m m' (List.last l1 h) (List.hd h l2) -> store m' (<[h := l1 ++ l2]> L) /\ loose m' (<[h := l1 ++ l2]> L) n.
Proof.
  intros Hh Hw. pose proof (store_ring h _ Hh) as Hr. pose proof (last_in h l1). pose proof (hd_in h l2). pose proof (bridged_ring m m' h l1 n l2 Hr Hw) as Hr'. pose proof (ring_dup _ _ _ Hr) as Hd.
  destruct (around h l1 n l2 Hh) as (H1 & _ & _ & _ & H5 & H6). split.
  - eapply (store_update m); [done|exact Hh|done|intros x Hx; left; set_solver|]. intros x Hx Hx'. eapply writes_other; [exact Hw|set_solver|set_solver].
  - split; [rewrite (proj1 (writes_other _ _ _ _ n Hw ltac:(set_solver) ltac:(set_solver))), H1; eauto|]. intros h2 l' Hl'. destruct (decide (h = h2)) as [<-|Hne].
    + rewrite lookup_insert_eq in Hl'. injection Hl' as <-. apply NoDup_cons in Hd as [Hhd Hd]. apply NoDup_app in Hd as (_ & D2 & D3). apply NoDup_cons in D3 as [D3 _]. set_solver.
    + rewrite lookup_insert_ne in Hl' by done. intros Hx. apply Hne. eapply (proj2 HS h _ h2 l' n); [done|done|set_solver|done].
Qed.

Lemma del_store h l1 n l2 : L !! h = Some (l1 ++ n :: l2) -> exists m', list_del_ m n = Ret m' /\ store m' (<[h := l1 ++ l2]> L) /\ loose m' (<[h := l1 ++ l2]> L) n.
Proof.
  intros Hh. destruct (around h l1 n l2 Hh) as (H1 & H2 & H3 & H4 & H5 & H6). destruct (del_run m _ n _ H1 H2 H3 H4 H5 H6) as (m' & Hrun & Hw). exists m'. split; [done|]. by apply bridge_store.
Qed.

Lemma swap_store h l1 o n l2 : L !! h = Some (l1 ++ o :: l2) -> loose m L n -> exists m', list_swap_ m o n = Ret m' /\ store m' (<[h := l1 ++ n :: l2]> L).
Proof.
  intros Hh [An Hn]. destruct (around h l1 o l2 Hh) as (H1 & H2 & H3 & H4 & _ & _). specialize (Hn h _ Hh) as Hnh. pose proof (last_in h l1). pose proof (hd_in h l2).
  destruct (swap_run m _ o n _ H1 H2 H3 H4 An) as (m' & Hrun & Hw); [set_solver|set_solver|]. exists m'. split; [done|]. pose proof (store_ring h _ Hh) as Hr.
  eapply (store_update m); [done|exact Hh| | |].
  - apply (linked_ring m m' h l1 [o] n l2); [done|set_solver|done].
  - intros x Hx. apply elem_of_app in Hx as [Hx|[->|Hx]%elem_of_cons]; [left; set_solver|by right|left; set_solver].
  - intros x Hx Hx'. eapply writes_other; [exact Hw|set_solver|set_solver].
Qed.

(** The head's own pointers. *)
Lemma head_store h l : L !! h = Some l -> deref m h = Ret (ListNode (List.hd h l) (List.last l h)).
Proof.
  intros Hh. pose proof (store_ring h l Hh) as Hr. destruct (ring_junction m h [] l Hr) as [H1 _]. rewrite <- (app_nil_r l) in Hr. destruct (ring_junction m h l [] Hr) as [_ H2].
  eapply (writes_deref m); [apply writes_refl|done|done].
Qed.

Lemma empty_store h l : L !! h = Some l -> list_empty_ m h = Ret (bool_decide (l = [])).
Proof.
  intros Hh. unfold list_empty_. rewrite (head_store h l Hh). cbn [obind next]. destruct l as [|y l]; cbn [List.hd]; [by rewrite Nat.eqb_refl|].
  pose proof (ring_dup _ _ _ (store_ring h _ Hh)) as [Hd _]%NoDup_cons. rewrite (proj2 (Nat.eqb_neq _ _)); [done|]. intros ->. set_solver.
Qed.

(** The list of [f] goes between two parts of the list of [t]. *)
Definition moved (m' : mem) (f p q : nat) (lf : list nat) : Prop :=
  writes m m' [(f, f); (p, List.hd q lf); (List.last lf p, q)] [(f, f); (List.hd q lf, p); (q, List.last lf p)].

Lemma moved_path m' f p q lf : moved m' f p q lf -> L !! f = Some lf -> f <> p -> f <> q -> p ∉ lf -> q ∉ lf -> path m' p (lf ++ [q]).
Proof.
  intros Hw Hf Hfp Hfq Hp Hq. pose proof (store_ring f lf Hf) as [Hd Hpath]. unfold moved in Hw. destruct lf as [|y r].
  - cbn in Hw |- *. split_and!; [rewrite (proj1 (Hw p)); looks|rewrite (proj2 (Hw q)); looks|done].
  - rewrite last_head in Hw. cbn [List.hd] in Hw. apply NoDup_cons in Hd as [Hfy Hd]. pose proof (last_in y r) as Hl. cbn [app path] in Hpath |- *. destruct Hpath as (_ & _ & Hpath).
    split; [rewrite (proj1 (Hw p)); looks|]. split; [rewrite (proj2 (Hw y)); cbn [look]; rewrite decide_False by set_solver; looks|].
    rewrite path_app in Hpath |- *. destruct Hpath as [Hpath _]. split.
    + apply (path_frame m); [| |done].
      * intros x Hx. rewrite (proj1 (Hw x)). destruct r as [|z r _] using rev_ind; [by apply elem_of_nil in Hx|]. rewrite srcs_snoc in Hx. rewrite List.last_last. cbn [look].
        rewrite !decide_False; [done| |set_solver|set_solver]. intros ->. rewrite app_comm_cons in Hd. apply NoDup_app in Hd as (_ & Hd & _). by apply (Hd z Hx), list_elem_of_singleton.
      * intros x Hx. rewrite (proj2 (Hw x)). cbn [look]. apply NoDup_cons in Hd as [Hy _]. by rewrite !decide_False by set_solver.
    + cbn [path]. split_and!; [rewrite (proj1 (Hw _)); cbn [look]; rewrite decide_False by set_solver; rewrite decide_False by set_solver; looks|rewrite (proj2 (Hw q)); cbn [look]; rewrite decide_False by done; rewrite decide_False by set_solver; looks|done].
Qed.

Lemma moved_store m' t f l1 l2 lf : L !! t = Some (l1 ++ l2) -> L !! f = Some lf -> t <> f -> moved m' f (List.last l1 t) (List.hd t l2) lf ->
  store m' (<[t := l1 ++ lf ++ l2]> (<[f := []]> L)).
Proof.
  intros Ht Hf Htf Hw. pose proof (store_ring t _ Ht) as Hrt. pose proof (store_ring f _ Hf) as Hrf. pose proof (ring_dup _ _ _ Hrt) as Hdt. pose proof (ring_dup _ _ _ Hrf) as Hdf.
  set (p := List.last l1 t) in *. set (q := List.hd t l2) in *. assert (Hp : p ∈ t :: l1) by apply last_in. assert (Hq : q ∈ t :: l2) by apply hd_in.
  assert (Hdis : forall x, x ∈ t :: l1 ++ l2 -> x ∉ f :: lf) by (intros x H1 H2; apply Htf; by eapply (proj2 HS t _ f _ x)).
  assert (Hin : forall x, x = List.hd q lf \/ x = List.last lf p -> x ∈ lf \/ x = p \/ x = q).
  { intros x [->| ->]; [destruct lf; cbn; [auto|left; by left]|destruct lf as [|y r]; [auto|]]. rewrite last_head. left. apply last_in. }
  assert (Hpath : path m' p (lf ++ [q])) by (apply (moved_path m' f); try done; set_solver).
  assert (Hsame : forall x, x ∉ f :: lf -> (x <> p -> nx m' x = nx m x) /\ (x <> q -> pv m' x = pv m x)).
  { intros x Hx. destruct (Hw x) as [-> ->]. cbn [look]. split; intros Hne.
    - rewrite !decide_False; [done| |done|set_solver]. intros ->. destruct lf as [|y r]; [done|]. rewrite last_head in Hx. pose proof (last_in y r). set_solver.
    - rewrite !decide_False; [done|done| |set_solver]. intros ->. destruct lf as [|y r]; [done|]. cbn in Hx. set_solver. }
  split.
  - intros h l. destruct (decide (t = h)) as [<-|Hth]; [|rewrite lookup_insert_ne by done; destruct (decide (f = h)) as [<-|Hfh]].
    + rewrite lookup_insert_eq. intros [= <-]. apply (ring_splice m m' t l1 [] lf l2); [done| |intros x Hx Hxp; apply Hsame; [by apply Hdis|done]|intros x Hx Hxq; apply Hsame; [by apply Hdis|done]|done].
      apply NoDup_cons in Hdt as [T1 T2], Hdf as [F1 F2]. apply NoDup_app in T2 as (T2 & T3 & T4). apply NoDup_cons. split; [set_solver|]. apply NoDup_app. split; [done|]. split; [set_solver|]. apply NoDup_app. split; [done|]. split; [set_solver|done].
    + rewrite lookup_insert_eq. intros [= <-]. split; [apply NoDup_singleton|]. cbn. split_and!; [rewrite (proj1 (Hw f))|rewrite (proj2 (Hw f))|done]; looks.
    + rewrite lookup_insert_ne by done. intros Hl. apply (ring_frame m); [|by apply HS]. intros x Hx.
      assert (x ∉ t :: l1 ++ l2) by (intros H1; apply Hth; by eapply (proj2 HS t _ h _ x)). assert (x ∉ f :: lf) by (intros H1; apply Hfh; by eapply (proj2 HS f _ h _ x)).
      destruct (Hsame x) as [H1 H2]; [done|]. split; [apply H1|apply H2]; set_solver.
  - assert (Hold : forall h l x, <[t := l1 ++ lf ++ l2]> (<[f := []]> L) !! h = Some l -> x ∈ h :: l -> (exists k, L !! h = Some k /\ x ∈ h :: k) \/ (h = t /\ x ∈ lf)).
    { intros h l x. destruct (decide (t = h)) as [<-|Hth]; [|rewrite lookup_insert_ne by done; destruct (decide (f = h)) as [<-|Hfh]].
      - rewrite lookup_insert_eq. intros [= <-] Hx. apply elem_of_cons in Hx as [->|Hx]; [left; eexists; split; [done|set_solver]|]. rewrite !elem_of_app in Hx. destruct Hx as [Hx|[Hx|Hx]]; [left|by right|left]; (eexists; split; [done|set_solver]).
      - rewrite lookup_insert_eq. intros [= <-] Hx. left. exists lf. split; [done|set_solver].
      - rewrite lookup_insert_ne by done. intros Hl Hx. left. by exists l. }
    assert (Hnf : forall h l x, <[t := l1 ++ lf ++ l2]> (<[f := []]> L) !! h = Some l -> x ∈ h :: l -> x ∈ lf -> h = t).
    { intros h l x Hl Hx Hxf. destruct (decide (t = h)) as [<-|Hth]; [done|]. destruct (decide (f = h)) as [<-|Hfh].
      - rewrite lookup_insert_ne, lookup_insert_eq in Hl by done. injection Hl as <-. apply list_elem_of_singleton in Hx as ->. by apply NoDup_cons in Hdf as [? _].
      - destruct (Hold h l x Hl Hx) as [(k & Hk & Hxk)|[? _]]; [|done]. exfalso. apply Hfh. eapply (proj2 HS f lf h k x); [done|done|set_solver|done]. }
    intros h l h' l' x Hl Hl' Hx Hx'. destruct (Hold h l x Hl Hx) as [(k & Hk & Hxk)|[-> Hxf]]; [|symmetry; by eapply Hnf].
    destruct (Hold h' l' x Hl' Hx') as [(k' & Hk' & Hxk')|[-> Hxf]]; [by eapply (proj2 HS h k h' k' x)|by eapply Hnf].
Qed.

(** Which of two lists of writes it was does not matter. *)
Ltac same_writes := intros ?; cbn [look]; repeat case_decide; congruence.

Lemma append_store t f lt lf : L !! t = Some lt -> L !! f = Some lf -> t <> f -> exists m', list_append_list_ m t f = Ret m' /\ store m' (<[t := lt ++ lf]> (<[f := []]> L)).
Proof.
  intros Ht Hf Htf. pose proof (store_ring t _ Ht) as Hrt. pose proof (store_ring f _ Hf) as Hrf. pose proof (ring_dup _ _ _ Hrf) as Hdf.
  assert (Hdis : forall x, x ∈ t :: lt -> x ∉ f :: lf) by (intros x H1 H2; apply Htf; by eapply (proj2 HS t _ f _ x)). pose proof (last_in t lt) as Hl.
  assert (Ap : is_Some (nx m (List.last lt t))) by exact (ring_in _ _ _ _ Hrt Hl). assert (At : is_Some (nx m t)) by (eapply ring_in; [exact Hrt|by left]). assert (Af : is_Some (nx m f)) by (eapply ring_in; [exact Hrf|by left]).
  assert (Hgo : exists m', list_append_list_ m t f = Ret m' /\ moved m' f (List.last lt t) t lf).
  { unfold list_append_list_. rewrite (head_store f lf Hf), (head_store t lt Ht). cbn [obind next prev]. set (p := List.last lt t) in *. assert (p <> f) by (intros ->; apply (Hdis f Hl); by left).
    pose proof (head_store f lf Hf) as Hhd. destruct (deref_fields _ _ _ Hhd) as [Hn Hpf]. cbn [next prev] in Hn, Hpf.
    pose proof (writes_refl m) as W. unfold list_del_, moved. destruct lf as [|y r].
    - cbn [List.hd List.last] in *. write_prev W; [done|]. write_next W; [done|]. write_next W; [done|]. write_prev W; [done|]. read W. write_prev W; [done|]. read W. write_next W; [done|].
      unfold list_head_init. write_prev W; [done|]. write_next W; [done|]. eexists. split; [done|]. eapply writes_perm; [exact W|same_writes|same_writes].
    - rewrite !last_head in *. cbn [List.hd] in *. pose proof (last_in y r) as Hly. set (z := List.last r y) in *. apply NoDup_cons in Hdf as [Hfy _].
      assert (Hne : forall x, x ∈ y :: r -> x <> f /\ x <> p /\ x <> t) by (intros x Hx; split_and!; intros ->; [done|by apply (Hdis p Hl); right|by apply (Hdis t ltac:(by left)); right]).
      assert (Hyy : y ∈ y :: r) by by left. destruct (Hne z Hly) as (Z1 & Z2 & Z3), (Hne y Hyy) as (Y1 & Y2 & Y3).
      assert (Az : is_Some (nx m z)) by (eapply ring_in; [exact Hrf|by right]). assert (Ay : is_Some (nx m y)) by (eapply ring_in; [exact Hrf|by right]).
      write_prev W; [done|]. write_next W; [done|]. write_next W; [done|]. write_prev W; [done|]. read W. write_prev W; [done|]. read W. write_next W; [done|].
      unfold list_head_init. write_prev W; [done|]. write_next W; [done|]. eexists. split; [done|]. eapply writes_perm; [exact W|same_writes|same_writes]. }
  destruct Hgo as (m' & Hrun & Hw). exists m'. split; [done|]. rewrite <- (app_nil_r lf). by apply moved_store; rewrite ?app_nil_r.
Qed.

Lemma prepend_store t f lt lf : L !! t = Some lt -> L !! f = Some lf -> t <> f -> exists m', list_prepend_list_ m t f = Ret m' /\ store m' (<[t := lf ++ lt]> (<[f := []]> L)).
Proof.
  intros Ht Hf Htf. pose proof (store_ring t _ Ht) as Hrt. pose proof (store_ring f _ Hf) as Hrf. pose proof (ring_dup _ _ _ Hrf) as Hdf.
  assert (Hdis : forall x, x ∈ t :: lt -> x ∉ f :: lf) by (intros x H1 H2; apply Htf; by eapply (proj2 HS t _ f _ x)). pose proof (hd_in t lt) as Hl.
  assert (Aq : is_Some (nx m (List.hd t lt))) by exact (ring_in _ _ _ _ Hrt Hl). assert (At : is_Some (nx m t)) by (eapply ring_in; [exact Hrt|by left]). assert (Af : is_Some (nx m f)) by (eapply ring_in; [exact Hrf|by left]).
  assert (Hgo : exists m', list_prepend_list_ m t f = Ret m' /\ moved m' f t (List.hd t lt) lf).
  { unfold list_prepend_list_. rewrite (head_store f lf Hf), (head_store t lt Ht). cbn [obind next prev]. set (q := List.hd t lt) in *. assert (q <> f) by (intros ->; apply (Hdis f Hl); by left).
    pose proof (head_store f lf Hf) as Hhd. destruct (deref_fields _ _ _ Hhd) as [Hn Hpf]. cbn [next prev] in Hn, Hpf.
    pose proof (writes_refl m) as W. unfold list_del_, moved. destruct lf as [|y r].
    - cbn [List.hd List.last] in *. write_next W; [done|]. write_prev W; [done|]. write_prev W; [done|]. write_next W; [done|]. read W. write_prev W; [done|]. read W. write_next W; [done|].
      unfold list_head_init. write_prev W; [done|]. write_next W; [done|]. eexists. split; [done|]. eapply writes_perm; [exact W|same_writes|same_writes].
    - rewrite !last_head in *. cbn [List.hd] in *. pose proof (last_in y r) as Hly. set (z := List.last r y) in *. apply NoDup_cons in Hdf as [Hfy _].
      assert (Hne : forall x, x ∈ y :: r -> x <> f /\ x <> q /\ x <> t) by (intros x Hx; split_and!; intros ->; [done|by apply (Hdis q Hl); right|by apply (Hdis t ltac:(by left)); right]).
      assert (Hyy : y ∈ y :: r) by by left. destruct (Hne z Hly) as (Z1 & Z2 & Z3), (Hne y Hyy) as (Y1 & Y2 & Y3).
      assert (Az : is_Some (nx m z)) by (eapply ring_in; [exact Hrf|by right]). assert (Ay : is_Some (nx m y)) by (eapply ring_in; [exact Hrf|by right]).
      write_next W; [done|]. write_prev W; [done|]. write_prev W; [done|]. write_next W; [done|]. read W. write_prev W; [done|]. read W. write_next W; [done|].
      unfold list_head_init. write_prev W; [done|]. write_next W; [done|]. eexists. split; [done|]. eapply writes_perm; [exact W|same_writes|same_writes]. }
  destruct Hgo as (m' & Hrun & Hw). exists m'. split; [done|]. by apply (moved_store m' t f [] lt lf).
Qed.

(** ** Loops *)

Lemma store_fuel h l : L !! h = Some l -> length l < size m.
Proof.
  intros Hh. pose proof (store_ring h l Hh) as Hr. pose proof (ring_dup _ _ _ Hr) as Hd.
  assert (list_to_set (h :: l) ⊆ (dom m : gset nat)) as Hsub.
  { intros x Hx. apply elem_of_list_to_set in Hx. apply elem_of_dom. destruct (ring_in _ _ _ _ Hr Hx) as [v Hv]. unfold nx in Hv. apply fmap_Some in Hv as (n & Hn & _). eauto. }
  apply subseteq_size in Hsub. rewrite size_list_to_set, size_dom in Hsub by done. cbn [length] in *. lia.
Qed.

Section Pure.
  Context {St : Type} (f : St -> nat -> St) (h : nat).

Lemma loop_next a l : forall fuel s, path m a (l ++ [h]) -> h ∉ l -> length l < fuel ->
  for_each_loop next (fun m s i => Ret (m, f s i)) h fuel m s (List.hd h l) = Ret (m, foldl f s l).
Proof.
  revert a. induction l as [|x l IH]; intros a fuel s Hp Hh Hfuel; (destruct fuel as [|fuel]; [lia|]); cbn [for_each_loop List.hd foldl].
  - by rewrite Nat.eqb_refl.
  - apply not_elem_of_cons in Hh as [Hx Hh]. rewrite (proj2 (Nat.eqb_neq x h)) by done. cbn [obind]. destruct Hp as (_ & Hpx & Hp).
    assert (Hnx : nx m x = Some (List.hd h l)) by (destruct l; apply Hp). rewrite (writes_deref m m [] [] x _ _ (writes_refl m) Hnx Hpx). cbn [obind next]. apply (IH x); [done|done|cbn in Hfuel; lia].
Qed.

Lemma loop_prev l : forall fuel s, path m h l -> (forall x, x ∈ l -> is_Some (nx m x)) -> h ∉ l -> length l < fuel ->
  for_each_loop prev (fun m s i => Ret (m, f s i)) h fuel m s (List.last l h) = Ret (m, foldl f s (reverse l)).
Proof.
  induction l as [|x l IH] using rev_ind; intros fuel s Hp Hal Hh Hfuel; (destruct fuel as [|fuel]; [lia|]); cbn [for_each_loop].
  - cbn. by rewrite Nat.eqb_refl.
  - rewrite List.last_last, reverse_snoc. cbn [foldl]. rewrite (proj2 (Nat.eqb_neq x h)) by set_solver. cbn [obind]. apply path_app in Hp as [Hp (_ & Hpx & _)]. destruct (Hal x) as [n Hn]; [set_solver|].
    rewrite (writes_deref m m [] [] x _ _ (writes_refl m) Hn Hpx). cbn [obind prev]. apply IH; [done|set_solver|set_solver|rewrite length_app in Hfuel; cbn in Hfuel; lia].
Qed.

End Pure.

Lemma each_store {St : Type} (f : St -> nat -> St) s h l : L !! h = Some l ->
  list_for_each next (fun m s i => Ret (m, f s i)) h m s = Ret (m, foldl f s l) /\ list_for_each prev (fun m s i => Ret (m, f s i)) h m s = Ret (m, foldl f s (reverse l)).
Proof.
  intros Hh. pose proof (store_ring h l Hh) as Hr. pose proof (store_fuel h l Hh). pose proof Hr as [[Hd _]%NoDup_cons Hp]. unfold list_for_each. rewrite (head_store h l Hh). cbn [obind next prev]. split.
  - apply (loop_next f h h); [done|done|lia].
  - apply loop_prev; [by apply path_app in Hp as [Hp _]|intros x Hx; eapply ring_in; [exact Hr|by right]|done|lia].
Qed.

Lemma check_path p l h : forall fuel abortstr, path m p (l ++ [h]) -> h ∉ l -> length l < fuel -> is_Some (nx m h) -> (forall x, x ∈ l -> is_Some (nx m x)) ->
  check_loop fuel m abortstr h p (List.hd h l) = Ret (Some h).
Proof.
  revert p. induction l as [|x l IH]; intros p fuel abortstr Hp Hh Hfuel [n Hn] Hal; (destruct fuel as [|fuel]; [lia|]); cbn [check_loop List.hd].
  - rewrite Nat.eqb_refl. destruct Hp as (_ & Hpp & _). rewrite (writes_deref m m [] [] h _ _ (writes_refl m) Hn Hpp). cbn [obind prev]. by rewrite Nat.eqb_refl.
  - apply not_elem_of_cons in Hh as [Hx Hh]. rewrite (proj2 (Nat.eqb_neq x h)) by done. destruct Hp as (_ & Hpx & Hp).
    assert (Hnx : nx m x = Some (List.hd h l)) by (destruct l; apply Hp). rewrite (writes_deref m m [] [] x _ _ (writes_refl m) Hnx Hpx). cbn [obind prev next]. rewrite Nat.eqb_refl. cbn [negb].
    apply IH; [done|done|cbn in Hfuel; lia|eauto|]. intros y Hy. apply Hal. by right.
Qed.

Lemma check_store h l abortstr : L !! h = Some l -> list_check m h abortstr = Ret (Some h).
Proof.
  intros Hh. pose proof (store_ring h l Hh) as Hr. pose proof (store_fuel h l Hh). pose proof Hr as [[Hd _]%NoDup_cons Hp]. unfold list_check, list_check_node. rewrite (head_store h l Hh). cbn [obind next].
  apply check_path; [done|done|lia|eapply ring_in; [exact Hr|by left]|]. intros x Hx. eapply ring_in; [exact Hr|by right].
Qed.

End Store.

(** ** Moving nodes while the loop runs *)

Lemma later_inserts {A : Type} (M : gmap nat A) i j a a' b b' : i <> j -> <[i := a']> (<[j := b']> (<[i := a]> (<[j := b]> M))) = <[i := a']> (<[j := b']> M).
Proof. intros Hij. apply map_eq. intros k. destruct (decide (i = k)) as [<-|]; [by rewrite !lookup_insert_eq|]. rewrite !(lookup_insert_ne _ i) by done. destruct (decide (j = k)) as [<-|]; [by rewrite !lookup_insert_eq|]. by rewrite !lookup_insert_ne by done. Qed.

Section Far.
  Context (due : nat -> bool) (far g : nat) (Hne : far <> g).

Lemma far_loop rest : forall kept m L lg fuel nxt, store m L -> L !! far = Some (kept ++ rest) -> L !! g = Some lg -> length rest < fuel ->
  (rest <> [] -> nxt = List.hd far (List.tl rest)) -> exists m',
  for_each_safe_loop next (fun m s i => if due i then let! m := list_del_from m far i in let! m := list_add_tail_ m g i in Ret (m, s) else Ret (m, s)) far fuel m tt (List.hd far rest) nxt = Ret (m', tt) /\
  store m' (<[g := lg ++ List.filter due rest]> (<[far := kept ++ List.filter (fun i => negb (due i)) rest]> L)).
Proof.
  induction rest as [|x r IH]; intros kept m L lg fuel nxt HS Hf Hg Hfuel Hnx; (destruct fuel as [|fuel]; [lia|]); cbn [for_each_safe_loop List.hd List.filter].
  - rewrite Nat.eqb_refl. exists m. split; [done|]. rewrite !app_nil_r. rewrite app_nil_r in Hf. by rewrite (insert_id L far), insert_id.
  - specialize (Hnx ltac:(done)). cbn [List.tl] in Hnx. pose proof (ring_dup _ _ _ (store_ring HS far _ Hf)) as Hd. apply NoDup_cons in Hd as [Hfr Hd]. rewrite (proj2 (Nat.eqb_neq x far)) by (intros ->; apply Hfr, elem_of_app; right; by left).
    assert (Hstep : forall m2 L2 kept2 lg2, store m2 L2 -> L2 !! far = Some (kept2 ++ r) -> L2 !! g = Some lg2 -> exists m', (let! n := deref m2 nxt in for_each_safe_loop next (fun m s i => if due i then let! m := list_del_from m far i in let! m := list_add_tail_ m g i in Ret (m, s) else Ret (m, s)) far fuel m2 tt nxt (next n)) = Ret (m', tt) /\
      store m' (<[g := lg2 ++ List.filter due r]> (<[far := kept2 ++ List.filter (fun i => negb (due i)) r]> L2))).
    { intros m2 L2 kept2 lg2 HS2 Hf2 Hg2. destruct r as [|y r'].
      - cbn [List.hd] in Hnx. subst nxt. rewrite (head_store HS2 far _ Hf2). cbn [obind]. apply (IH kept2 m2 L2 lg2); [done|done|done|cbn in *; lia|done].
      - cbn [List.hd] in Hnx. subst nxt. destruct (around HS2 far kept2 y r' Hf2) as (H1 & H2 & _). rewrite (writes_deref m2 m2 [] [] y _ _ (writes_refl m2) H1 H2). cbn [obind next].
        apply (IH kept2 m2 L2 lg2); [done|done|done|cbn in *; lia|done]. }
    destruct (due x) eqn:Hdue; cbn [negb obind].
    + unfold list_del_from. rewrite (empty_store HS far _ Hf), bool_decide_eq_false_2 by (by destruct kept). cbn [negb assert_ obind].
      destruct (del_store HS far kept x r Hf) as (m1 & Hdel & HS1 & Hloose). rewrite Hdel. cbn [obind]. assert (Hg1 : <[far := kept ++ r]> L !! g = Some (lg ++ [])) by (rewrite lookup_insert_ne, app_nil_r by done; done).
      destruct (add_before_store HS1 g lg [] x Hg1 Hloose) as (m2 & Hadd & HS2). unfold list_add_tail_. cbn [List.hd] in Hadd. rewrite Hadd. cbn [obind].
      destruct (Hstep m2 _ kept (lg ++ [x]) HS2) as (m' & Hrun & HS'); [by rewrite lookup_insert_ne, lookup_insert_eq by done|by rewrite lookup_insert_eq|].
      exists m'. split; [done|]. rewrite later_inserts in HS' by done. by rewrite <- (assoc_L (++)) in HS'.
    + destruct (Hstep m L (kept ++ [x]) lg HS) as (m' & Hrun & HS'); [by rewrite <- (assoc_L (++))|done|]. exists m'. split; [done|]. by rewrite <- (assoc_L (++)) in HS'.
Qed.

Lemma far_get_store m L l lg : store m L -> L !! far = Some l -> L !! g = Some lg ->
  exists m', far_get due far g m = Ret m' /\ store m' (<[g := lg ++ List.filter due l]> (<[far := List.filter (fun i => negb (due i)) l]> L)).
Proof.
  intros HS Hf Hg. pose proof (store_fuel HS far l Hf) as Hfuel. unfold far_get, list_for_each_safe. rewrite (head_store HS far l Hf). cbn [obind next].
  assert (exists n, deref m (List.hd far l) = Ret n /\ (l <> [] -> next n = List.hd far (List.tl l))) as (n & -> & Hn).
  { destruct l as [|x r]; [eexists; split; [exact (head_store HS far _ Hf)|done]|]. destruct (around HS far [] x r Hf) as (H1 & H2 & _). eexists. split; [exact (writes_deref m m [] [] x _ _ (writes_refl m) H1 H2)|done]. }
  cbn [obind]. destruct (far_loop l [] m L lg (S (size m)) (next n) HS Hf Hg ltac:(lia) Hn) as (m' & Hrun & HS'). rewrite Hrun. cbn [obind]. eauto.
Qed.

End Far.

(** C20. Lists through their nodes implement lists of nodes, any number of them in one
    memory: adding at either end or next to a node, removing, swapping, taking the
    first, joining two lists, and moving nodes to another list while going over the
    first one, change the lists as said and leave the others alone; loops in both
    directions visit the nodes in order and end; the check passes. *)
Theorem lists_refine m L : store m L ->
  (forall h l n, L !! h = Some l -> loose m L n ->
     (exists m', list_add_ m h n = Ret m' /\ store m' (<[h := n :: l]> L)) /\ (exists m', list_add_tail_ m h n = Ret m' /\ store m' (<[h := l ++ [n]]> L))) /\
  (forall h l1 p l2 n, L !! h = Some (l1 ++ p :: l2) -> loose m L n ->
     (exists m', list_add_after_ m p n = Ret m' /\ store m' (<[h := l1 ++ p :: n :: l2]> L)) /\
     (exists m', list_add_before_ m p n = Ret m' /\ store m' (<[h := l1 ++ n :: p :: l2]> L)) /\
     (exists m', list_swap_ m p n = Ret m' /\ store m' (<[h := l1 ++ n :: l2]> L))) /\
  (forall h l1 n l2, L !! h = Some (l1 ++ n :: l2) ->
     (exists m', list_del_from m h n = Ret m' /\ store m' (<[h := l1 ++ l2]> L) /\ loose m' (<[h := l1 ++ l2]> L) n) /\
     list_next m h n = Ret (head l2) /\ list_prev m h n = Ret (last l1)) /\
  (forall h l, L !! h = Some l ->
     list_top_ m h = Ret (head l) /\ list_tail_ m h = Ret (last l) /\
     (exists m', list_pop_ m h = Ret (m', head l) /\ store m' (<[h := tail l]> L)) /\ list_check m h true = Ret (Some h) /\
     forall (St : Type) (f : St -> nat -> St) s, list_for_each next (fun m s i => Ret (m, f s i)) h m s = Ret (m, foldl f s l) /\
       list_for_each prev (fun m s i => Ret (m, f s i)) h m s = Ret (m, foldl f s (reverse l))) /\
  (forall t f lt lf, L !! t = Some lt -> L !! f = Some lf -> t <> f ->
     (exists m', list_append_list_ m t f = Ret m' /\ store m' (<[t := lt ++ lf]> (<[f := []]> L))) /\
     (exists m', list_prepend_list_ m t f = Ret m' /\ store m' (<[t := lf ++ lt]> (<[f := []]> L))) /\
     forall due, exists m', far_get due f t m = Ret m' /\ store m' (<[t := lt ++ List.filter due lf]> (<[f := List.filter (fun i => negb (due i)) lf]> L))).
Proof.
  intros HS. split_and!.
  - intros h l n Hh Hn. split; [exact (add_after_store HS h [] l n Hh Hn)|]. assert (Hh' : L !! h = Some (l ++ [])) by by rewrite app_nil_r. exact (add_before_store HS h l [] n Hh' Hn).
  - intros h l1 p l2 n Hh Hn. split_and!; [|exact (add_before_store HS h l1 (p :: l2) n Hh Hn)|by apply swap_store].
    assert (Hh' : L !! h = Some ((l1 ++ [p]) ++ l2)) by by rewrite <- (assoc_L (++)). destruct (add_after_store HS h _ l2 n Hh' Hn) as (m' & Hrun & HS'). rewrite List.last_last in Hrun. rewrite <- (assoc_L (++)) in HS'. eauto.
  - intros h l1 n l2 Hh. split.
    + destruct (del_store HS h l1 n l2 Hh) as (m' & Hrun & HS'). exists m'. unfold list_del_from. rewrite (empty_store HS h _ Hh), bool_decide_eq_false_2 by (by destruct l1). done.
    + destruct (around HS h l1 n l2 Hh) as (H1 & H2 & _). pose proof (ring_dup _ _ _ (store_ring HS h _ Hh)) as [Hd _]%NoDup_cons.
      unfold list_next, list_prev, list_entry_or_null. rewrite (writes_deref m m [] [] n _ _ (writes_refl m) H1 H2). cbn [obind next prev]. split.
      * destruct l2 as [|y l2]; cbn; [by rewrite Nat.eqb_refl|]. rewrite (proj2 (Nat.eqb_neq _ _)); [done|]. intros ->. set_solver.
      * destruct l1 as [|y l1 _] using rev_ind; [cbn; by rewrite Nat.eqb_refl|]. rewrite List.last_last, last_snoc, (proj2 (Nat.eqb_neq _ _)); [done|]. intros ->. set_solver.
  - intros h l Hh. unfold list_top_, list_tail_, list_pop_. rewrite (empty_store HS h l Hh), (head_store HS h l Hh). cbn [obind next prev].
    split_and!; [by destruct l| | |by eapply check_store|intros St f s; exact (each_store HS f s h l Hh)].
    + destruct l as [|y l _] using rev_ind; [done|]. rewrite bool_decide_eq_false_2 by (by destruct l). by rewrite List.last_last, last_snoc.
    + destruct l as [|y l]; [exists m; split; [done|]; by rewrite insert_id|]. cbn [bool_decide]. destruct (del_store HS h [] y l Hh) as (m' & Hrun & HS' & _). exists m'. cbn [List.hd]. by rewrite Hrun.
  - intros t f lt lf Ht Hf Htf. split_and!; [by apply append_store|by apply prepend_store|]. intros due. by apply far_get_store.
Qed.

(** Two lists, of two nodes and of none, and a loose node. *)
Definition ex_mem : mem := {[ 0 := ListNode 2 3; 1 := ListNode 1 1; 2 := ListNode 3 0; 3 := ListNode 0 2; 4 := ListNode 7 7 ]}.
Definition ex_lists : gmap nat (list nat) := {[ 0 := [2; 3]; 1 := [] ]}.

Lemma ex_lists_in h l : ex_lists !! h = Some l -> (h = 0 /\ l = [2; 3]) \/ (h = 1 /\ l = []).
Proof. unfold ex_lists. rewrite lookup_insert_Some, lookup_singleton_Some. naive_solver. Qed.

Lemma ex_mem_store : store ex_mem ex_lists.
Proof.
  split.
  - intros h l [[-> ->]|[-> ->]]%ex_lists_in; (split; [apply (bool_decide_unpack _); by vm_compute|by repeat split]).
  - intros h l h' l' x [[-> ->]|[-> ->]]%ex_lists_in [[-> ->]|[-> ->]]%ex_lists_in; set_solver.
Qed.

Lemma lists_refine_witness : exists m', far_get (fun n => n =? 2) 0 1 ex_mem = Ret m' /\ store m' (<[1 := [2]]> (<[0 := [3]]> ex_lists)).
Proof. destruct (lists_refine ex_mem ex_lists ex_mem_store) as (_ & _ & _ & _ & H). destruct (H 1 0 [] [2; 3] eq_refl eq_refl ltac:(done)) as (_ & _ & Hf). exact (Hf (fun n => n =? 2)). Defined.
