(* ===== verification/Htable.v ===== *)
(** ccan/htable: hash tables of pointers, and common/gossip_rcvd_filter.c, which keeps
    the gossip messages that came from a peer in two of them.

    A slot holds the bits of its pointer that not all pointers share; the bits that they
    do share are kept once, and their place in the slot holds bits of the hash.  One of
    them, the perfect bit, says that the pointer is in the slot its hash gives. *)
From S2P Require Import Prelude.
Open Scope Z_scope.

(** * The operations *)

(** [struct htable]; a [table] of [None] is the pointer to [common_bits] that stands for
    a table with one empty slot. *)
Record htable : Type := Htable {
  bits : nat;
  perfect_bitnum : Z;
  elems : Z;
  deleted : Z;
  common_mask : Z;
  common_bits : Z;
  table : option (list Z) }.

Definition with_table (ht : htable) (t : option (list Z)) : htable :=
  Htable (bits ht) (perfect_bitnum ht) (elems ht) (deleted ht) (common_mask ht) (common_bits ht) t.
Definition with_bits (ht : htable) (n : nat) : htable :=
  Htable n (perfect_bitnum ht) (elems ht) (deleted ht) (common_mask ht) (common_bits ht) (table ht).
Definition with_counts (ht : htable) (e d : Z) : htable :=
  Htable (bits ht) (perfect_bitnum ht) e d (common_mask ht) (common_bits ht) (table ht).
Definition with_common (ht : htable) (bitnum mask common : Z) : htable :=
  Htable (bits ht) bitnum (elems ht) (deleted ht) mask common (table ht).

Definition UINTPTR_MAX : Z := 18446744073709551615.
Definition HTABLE_DELETED : Z := 1.
Definition NO_PERFECT_BIT : Z := 63.

(** [table[i]], read and written. *)
Definition slot (ht : htable) (i : nat) : outcome Z :=
  match table ht with
  | Some t => match t !! i with Some e => Ret e | None => Abort "htable: slot out of bounds" end
  | None => if (i =? 0)%nat then Ret (common_bits ht) else Abort "htable: slot out of bounds"
  end.
Definition put_slot (ht : htable) (i : nat) (e : Z) : outcome htable :=
  match table ht with
  | Some t => if (i <? length t)%nat then Ret (with_table ht (Some (<[i := e]> t))) else Abort "htable: slot out of bounds"
  | None => if (i =? 0)%nat then Ret (with_common ht (perfect_bitnum ht) (common_mask ht) e) else Abort "htable: slot out of bounds"
  end.
Definition slots_num (ht : htable) : nat := (2 ^ bits ht)%nat.

Definition get_extra_ptr_bits (ht : htable) (e : Z) : Z := Z.land e (common_mask ht).
Definition get_raw_ptr (ht : htable) (e : Z) : Z := Z.lor (Z.ldiff e (common_mask ht)) (common_bits ht).
Definition make_hval (ht : htable) (p b : Z) : Z := Z.lor (Z.ldiff p (common_mask ht)) b.
Definition entry_is_valid (e : Z) : bool := HTABLE_DELETED <? e.
Definition ht_perfect_mask (ht : htable) : Z := wrap64 (Z.shiftl 2 (perfect_bitnum ht)).
Definition get_hash_ptr_bits (ht : htable) (hash : Z) : Z :=
  Z.ldiff (Z.land (Z.lxor hash (Z.shiftr hash (Z.of_nat (bits ht)))) (common_mask ht)) (ht_perfect_mask ht).

Definition htable_init : htable := Htable 0 0 0 0 UINTPTR_MAX 0 None.
Definition ht_max (ht : htable) : Z := Z.shiftl 3 (Z.of_nat (bits ht)) / 4.
Definition ht_max_with_deleted (ht : htable) : Z := Z.shiftl 9 (Z.of_nat (bits ht)) / 10.

Definition htable_count (ht : htable) : Z := elems ht.

Definition hash_bucket (ht : htable) (h : Z) : nat := Z.to_nat (Z.land h (Z.shiftl 1 (Z.of_nat (bits ht)) - 1)).
(** [(off + 1) & ((1 << ht->bits) - 1)] *)
Definition next_off (ht : htable) (off : nat) : nat := Z.to_nat (Z.land (Z.of_nat off + 1) (Z.shiftl 1 (Z.of_nat (bits ht)) - 1)).

(** The loop of [htable_val], with the pointer it returns ([None] for NULL) and the
    offset it leaves in the iterator. *)
Fixpoint val_loop (fuel : nat) (ht : htable) (off : nat) (h2 perfect : Z) : outcome (option Z * nat) :=
  match fuel with
  | O => Abort "htable_val: does not end"
  | S fuel =>
      let! e := slot ht off in
      if e =? 0 then Ret (None, off)
      else if negb (e =? HTABLE_DELETED) && (get_extra_ptr_bits ht e =? h2) then Ret (Some (get_raw_ptr ht e), off)
      else val_loop fuel ht (next_off ht off) (Z.ldiff h2 perfect) perfect
  end.
Definition htable_val (ht : htable) (off : nat) (hash perfect : Z) : outcome (option Z * nat) :=
  val_loop (slots_num ht) ht off (Z.lor (get_hash_ptr_bits ht hash) perfect) perfect.
Definition htable_firstval_ (ht : htable) (hash : Z) : outcome (option Z * nat) :=
  htable_val ht (hash_bucket ht hash) hash (ht_perfect_mask ht).
Definition htable_nextval_ (ht : htable) (off : nat) (hash : Z) : outcome (option Z * nat) :=
  htable_val ht (next_off ht off) hash 0.

(** The loop of [htable_get], of the typed [get] and of [htable_del_]: the first
    candidate that [cmp] accepts, and where. *)
Fixpoint get_loop (fuel : nat) (ht : htable) (h : Z) (cmp : Z -> bool) (c : option Z) (off : nat) : outcome (option Z * nat) :=
  match c with
  | None => Ret (None, off)
  | Some c =>
      if cmp c then Ret (Some c, off)
      else match fuel with
           | O => Abort "htable_get: does not end"
           | S fuel => let! (c, off) := htable_nextval_ ht off h in get_loop fuel ht h cmp c off
           end
  end.
Definition htable_search (ht : htable) (h : Z) (cmp : Z -> bool) : outcome (option Z * nat) :=
  let! (c, off) := htable_firstval_ ht h in get_loop (slots_num ht) ht h cmp c off.
Definition htable_get (ht : htable) (h : Z) (cmp : Z -> bool) : outcome (option Z) :=
  let! (c, _) := htable_search ht h cmp in Ret c.

(** The loop of [htable_first_] and [htable_next_]. *)
Fixpoint valid_loop (ht : htable) (n off : nat) : outcome (option Z * nat) :=
  match n with
  | O => Ret (None, off)
  | S n => let! e := slot ht off in if entry_is_valid e then Ret (Some (get_raw_ptr ht e), off) else valid_loop ht n (S off)
  end.
Definition htable_first_ (ht : htable) : outcome (option Z * nat) := valid_loop ht (slots_num ht) 0.
Definition htable_next_ (ht : htable) (off : nat) : outcome (option Z * nat) := valid_loop ht (slots_num ht - S off) (S off).
Fixpoint htable_prev_ (ht : htable) (off : nat) : outcome (option Z * nat) :=
  match off with
  | O => Ret (None, O)
  | S off => let! e := slot ht off in if entry_is_valid e then Ret (Some (get_raw_ptr ht e), off) else htable_prev_ ht off
  end.

(** [ht_add]: the free slot it takes, and whether it is the perfect one. *)
Fixpoint add_loop (fuel : nat) (ht : htable) (i : nat) (perfect : Z) : outcome (nat * Z) :=
  match fuel with
  | O => Abort "ht_add: does not end"
  | S fuel => let! e := slot ht i in if entry_is_valid e then add_loop fuel ht (next_off ht i) 0 else Ret (i, perfect)
  end.
Definition ht_add (ht : htable) (new h : Z) : outcome htable :=
  let! (i, perfect) := add_loop (slots_num ht) ht (hash_bucket ht h) (ht_perfect_mask ht) in
  put_slot ht i (make_hval ht new (Z.lor (get_hash_ptr_bits ht h) perfect)).

Fixpoint first_empty (fuel : nat) (ht : htable) (start : nat) : outcome nat :=
  match fuel with
  | O => Abort "rehash_table: no empty slot"
  | S fuel => let! e := slot ht start in if e =? 0 then Ret start else first_empty fuel ht (S start)
  end.

(** The bit [update_common] leaves out of the mask. *)
Fixpoint top_bit (i : nat) (p : Z) : nat :=
  match i with
  | O => O
  | S j => if negb (Z.land p (Z.shiftl 1 (Z.of_nat i)) =? 0) then i else top_bit j p
  end.
Definition reveal (maskdiff bitsdiff : Z) (ht : htable) (i : nat) : outcome htable :=
  let! e := slot ht i in
  if entry_is_valid e then put_slot ht i (Z.lor (Z.ldiff e maskdiff) bitsdiff) else Ret ht.
Definition update_common (ht : htable) (p : Z) : outcome htable :=
  if elems ht =? 0 then
    let mask := Z.lxor UINTPTR_MAX (Z.shiftl 1 (Z.of_nat (top_bit 63 p))) in
    Ret (with_common ht 0 mask (Z.land p mask))
  else
    let maskdiff := Z.lxor (common_bits ht) (Z.land p (common_mask ht)) in
    let bitsdiff := Z.land (common_bits ht) maskdiff in
    let! ht := ofold (reveal maskdiff bitsdiff) ht (seq 0 (slots_num ht)) in
    Ret (with_common ht (if negb (Z.land (ht_perfect_mask ht) maskdiff =? 0) then NO_PERFECT_BIT else perfect_bitnum ht)
                    (Z.ldiff (common_mask ht) maskdiff) (Z.ldiff (common_bits ht) maskdiff)).

Definition htable_delval_ (ht : htable) (off : nat) : outcome htable :=
  let! _ := assert_ (off <? slots_num ht)%nat "htable_delval: offset" in
  let! e := slot ht off in
  let! _ := assert_ (entry_is_valid e) "htable_delval: not valid" in
  let! ht := put_slot (with_counts ht (elems ht - 1) (deleted ht)) off HTABLE_DELETED in
  Ret (with_counts ht (elems ht) (deleted ht + 1)).
Definition htable_del_ (ht : htable) (h p : Z) : outcome (bool * htable) :=
  let! (c, off) := htable_search ht h (Z.eqb p) in
  match c with
  | Some _ => let! ht := htable_delval_ ht off in Ret (true, ht)
  | None => Ret (false, ht)
  end.

Definition htable_pick_ (ht : htable) (seed : Z) : outcome (option Z * nat) :=
  let! (e, off) := htable_next_ ht (Z.to_nat (seed mod 2 ^ Z.of_nat (bits ht))) in
  match e with Some p => Ret (Some p, off) | None => htable_first_ ht end.

Section tables.

(** The function of the table that gives the hash of an element, and whether an
    allocation of so many bytes succeeds. *)
Context (rehash : Z -> Z) (alloc : Z -> bool).

(** [htable_init_sized] *)
Fixpoint sized_loop (fuel n : nat) (expect : Z) : nat :=
  match fuel with
  | O => n
  | S fuel => if Z.shiftl 3 (Z.of_nat n) / 4 <? expect then if (n =? 30)%nat then n else sized_loop fuel (S n) expect else n
  end.
Definition htable_init_sized (expect : Z) : bool * htable :=
  let ht := with_bits htable_init (sized_loop 30 1 expect) in
  if alloc (Z.shiftl 8 (Z.of_nat (bits ht))) then (true, with_table ht (Some (replicate (slots_num ht) 0))) else (false, ht).

Fixpoint read_slots (ht : htable) (l : list nat) : outcome (list Z) :=
  match l with
  | [] => Ret []
  | i :: l => let! e := slot ht i in let! r := read_slots ht l in Ret (e :: r)
  end.
Definition htable_copy_ (dst src : htable) : outcome (bool * htable) :=
  if alloc (Z.shiftl 8 (Z.of_nat (bits src))) then
    let! t := read_slots src (seq 0 (slots_num src)) in Ret (true, with_table src (Some t))
  else Ret (false, dst).

(** The bit [double_table] takes for the perfect one. *)
Fixpoint find_perfect (mask : Z) (old : Z) (l : list nat) : Z :=
  match l with
  | [] => old
  | i :: l => if negb (Z.land mask (wrap64 (Z.shiftl 2 (Z.of_nat i))) =? 0) then Z.of_nat i else find_perfect mask old l
  end.
Definition regain_perfect (ht : htable) : htable :=
  if (perfect_bitnum ht =? NO_PERFECT_BIT) && negb (common_mask ht =? 0)
  then with_common ht (find_perfect (common_mask ht) (perfect_bitnum ht) (seq 0 64)) (common_mask ht) (common_bits ht) else ht.
Definition readd (ht : htable) (e : Z) : outcome htable :=
  if entry_is_valid e then let p := get_raw_ptr ht e in ht_add ht p (rehash p) else Ret ht.
Definition double_table (ht : htable) : outcome (bool * htable) :=
  if alloc (Z.shiftl 8 (Z.of_nat (bits ht + 1))) then
    let oldtable := table ht in
    let ht := regain_perfect (with_bits (with_table ht (Some (replicate (2 ^ (bits ht + 1)) 0))) (bits ht + 1)) in
    let! ht := match oldtable with Some t => ofold readd ht t | None => Ret ht end in
    Ret (true, with_counts ht (elems ht) 0)
  else Ret (false, ht).

(** One round of the loop of [rehash_table]. *)
Definition rehash_slot (perfect : Z) (start : nat) (ht : htable) (i : nat) : outcome htable :=
  let h := Z.to_nat (Z.land (Z.of_nat i + Z.of_nat start) (Z.shiftl 1 (Z.of_nat (bits ht)) - 1)) in
  let! e := slot ht h in
  if e =? 0 then Ret ht
  else if e =? HTABLE_DELETED then put_slot ht h 0
  else if Z.land e perfect =? 0 then
    let p := get_raw_ptr ht e in
    let! ht := put_slot ht h 0 in ht_add ht p (rehash p)
  else Ret ht.
Definition rehash_table (ht : htable) : outcome htable :=
  let perfect := ht_perfect_mask ht in
  let! start := first_empty (slots_num ht) ht 0 in
  let! ht := ofold (rehash_slot perfect start) ht (seq 0 (slots_num ht)) in
  Ret (with_counts ht (elems ht) 0).

Definition htable_add_ (ht : htable) (hash p : Z) : outcome (bool * htable) :=
  let! (ok, ht) := if ht_max ht <? elems ht + 1 then double_table ht else Ret (true, ht) in
  if negb ok then Ret (false, ht)
  else
    let! ht := if ht_max_with_deleted ht <? elems ht + 1 + deleted ht then rehash_table ht else Ret ht in
    let! _ := assert_ (negb (p =? 0)) "htable_add: NULL" in
    let! ht := if negb (Z.land p (common_mask ht) =? common_bits ht) then update_common ht p else Ret ht in
    let! ht := ht_add ht p hash in
    Ret (true, with_counts ht (elems ht + 1) (deleted ht)).

Definition htable_clear (ht : htable) : htable := htable_init.

(** [htable_check]; [false] is the message on stderr and [abort], or NULL. *)
Fixpoint ht_check_loop (fuel : nat) (ht : htable) (p : option Z) (off : nat) (n : Z) : outcome (option Z) :=
  match p with
  | None => Ret (Some n)
  | Some p =>
      match fuel with
      | O => Abort "htable_check: does not end"
      | S fuel =>
          let! (c, _) := htable_search ht (rehash p) (Z.eqb p) in
          match c with
          | None => Ret None
          | Some _ => let! (p, off) := htable_next_ ht off in ht_check_loop fuel ht p off (n + 1)
          end
      end
  end.
Definition htable_check (ht : htable) : outcome bool :=
  let! (p, off) := htable_first_ ht in
  let! r := ht_check_loop (S (slots_num ht)) ht p off 0 in
  Ret (match r with Some n => n =? elems ht | None => false end).

End tables.

