(* ===== verification/HtableProofs.v ===== *)
(** ccan/htable: the table is an open-addressing hash table of cells, and its operations
    are those of a multiset of pointers. *)
From S2P Require Import Prelude Htable.
From stdpp Require Import gmultiset.
Open Scope Z_scope.

(** * Words by their bits *)

Ltac by_bits n :=
  apply Z.bits_inj'; intros n ?;
  repeat first [rewrite Z.lor_spec | rewrite Z.land_spec | rewrite Z.ldiff_spec | rewrite Z.lxor_spec | rewrite Z.bits_0].

(** Equalities of words as facts on their bit [n]. *)
Ltac bit_of H n :=
  apply (f_equal (fun z => Z.testbit z n)) in H; repeat first [rewrite Z.lor_spec in H | rewrite Z.land_spec in H | rewrite Z.ldiff_spec in H | rewrite Z.lxor_spec in H | rewrite Z.bits_0 in H].
Ltac cases_bits :=
  repeat match goal with
  | H : context [Z.testbit ?a ?n] |- _ => let b := fresh "b" in set (b := Z.testbit a n) in *; clearbody b
  | |- context [Z.testbit ?a ?n] => let b := fresh "b" in set (b := Z.testbit a n) in *; clearbody b
  end;
  repeat match goal with b : bool |- _ => destruct b end; simpl in *; congruence.

Lemma land_zero_bit a b n : Z.land a b = 0 -> Z.testbit a n = true -> Z.testbit b n = true -> False.
Proof. intros H Ha Hb. bit_of H n. by rewrite Ha, Hb in H. Qed.

(** At most one bit. *)
Definition one_bit (P : Z) : Prop := forall m n, Z.testbit P m = true -> Z.testbit P n = true -> m = n.

Lemma perfect_one ht : 0 <= perfect_bitnum ht -> one_bit (ht_perfect_mask ht) /\ 0 <= ht_perfect_mask ht.
Proof.
  intros Hp. unfold ht_perfect_mask, wrap64. split; [|by apply Z.mod_pos_bound].
  change u64_mod with (2 ^ 64). intros m n Hm Hn.
  rewrite !Z.testbit_mod_pow2, Z.shiftl_spec_alt in Hm || rewrite !Z.testbit_mod_pow2 in Hm by lia.
  rewrite Z.testbit_mod_pow2 in Hn by lia. apply andb_true_iff in Hm as [_ Hm], Hn as [_ Hn].
  assert (G : forall x, Z.testbit (Z.shiftl 2 (perfect_bitnum ht)) x = true -> x = perfect_bitnum ht + 1).
  { intros x Hx. destruct (decide (x < 0)); [by rewrite Z.testbit_neg_r in Hx by lia|]. rewrite Z.shiftl_spec in Hx by lia.
    destruct (decide (x - perfect_bitnum ht < 0)); [by rewrite Z.testbit_neg_r in Hx by lia|].
    change 2 with (2 ^ 1) in Hx. destruct (decide (x - perfect_bitnum ht = 1)); [lia|]. by rewrite Z.pow2_bits_false in Hx by lia. }
  rewrite (G m Hm), (G n Hn). done.
Qed.

(** Two words that share a bit, one of which has no other. *)
Lemma one_bit_inside P D : one_bit P -> 0 <= P -> Z.land P D <> 0 -> forall n, Z.testbit P n = true -> Z.testbit D n = true.
Proof.
  intros H1 HP Hne n Hn. destruct (Z.testbit D n) eqn:E; [done|]. exfalso. apply Hne. by_bits m. destruct (Z.testbit P m) eqn:Em; [|done].
  by rewrite (H1 m n Em Hn), E.
Qed.

Lemma bit_large z k : 0 <= z -> 0 <= k -> Z.testbit z k = true -> 2 ^ k <= z.
Proof.
  intros Hz Hk Hb. destruct (decide (2 ^ k <= z)); [done|]. exfalso. rewrite Z.testbit_true in Hb by done. rewrite Z.div_small in Hb by lia. done.
Qed.

(** * Cells *)

(** What a slot means. *)
Inductive cell : Type := Emp | Del | El (p : Z).
#[export] Instance cell_eq_dec : EqDecision cell.
Proof. solve_decision. Defined.

(** Their places from a bucket on, in a table of [N] slots. *)
Definition at_ (N b j : nat) : nat := ((b + j) mod N)%nat.

Lemma at_lt N b j : (0 < N)%nat -> (at_ N b j < N)%nat.
Proof. intros. apply Nat.mod_upper_bound. lia. Qed.

Lemma at_0 N b : (b < N)%nat -> at_ N b 0 = b.
Proof. intros. unfold at_. rewrite Nat.add_0_r. by apply Nat.mod_small. Qed.

Lemma at_S N b j : (0 < N)%nat -> at_ N b (S j) = ((at_ N b j + 1) mod N)%nat.
Proof. intros. unfold at_. rewrite Nat.Div0.add_mod_idemp_l. f_equal. lia. Qed.

Lemma at_add N b i j : (0 < N)%nat -> at_ N (at_ N b i) j = at_ N b (i + j).
Proof. intros. unfold at_. rewrite Nat.Div0.add_mod_idemp_l. f_equal. lia. Qed.

Lemma at_inj N b i j : (i < N)%nat -> (j < N)%nat -> at_ N b i = at_ N b j -> i = j.
Proof.
  unfold at_. intros Hi Hj H.
  pose proof (Nat.div_mod_eq (b + i) N). pose proof (Nat.div_mod_eq (b + j) N). rewrite H in *.
  assert ((b + i) / N = (b + j) / N \/ (b + i) / N < (b + j) / N \/ (b + j) / N < (b + i) / N)%nat as [E|[E|E]] by lia; [nia| |]; nia.
Qed.

Lemma at_first N b j : (b < N)%nat -> (j < N)%nat -> (at_ N b j =? b)%nat = (j =? 0)%nat.
Proof.
  intros Hb Hj. destruct (Nat.eqb_spec j 0) as [->|Hj0]; [by rewrite at_0, Nat.eqb_refl by done|].
  apply Nat.eqb_neq. intros E. apply Hj0. apply (at_inj N b); [done|lia|]. by rewrite at_0.
Qed.

(** Every slot is met on the way. *)
Lemma at_onto N b i : (b < N)%nat -> (i < N)%nat -> exists j, (j < N)%nat /\ at_ N b j = i.
Proof.
  intros Hb Hi. destruct (decide (b <= i)%nat).
  - exists (i - b)%nat. split; [lia|]. unfold at_. replace (b + (i - b))%nat with i by lia. by apply Nat.mod_small.
  - exists (N + i - b)%nat. split; [lia|]. unfold at_. replace (b + (N + i - b))%nat with (i + 1 * N)%nat by lia. rewrite Nat.Div0.mod_add. by apply Nat.mod_small.
Qed.

(** The pointers of a table, in the order of their slots. *)
Definition el (c : cell) : option Z := match c with El p => Some p | _ => None end.
Definition els (s : list cell) : list Z := omap el s.
Definition dels (s : list cell) : nat := length (filter (.= Del) s).

Lemma els_app s t : els (s ++ t) = els s ++ els t.
Proof. apply omap_app. Qed.

Lemma insert_split (s : list cell) i c d : s !! i = Some c -> exists s1 s2, s = s1 ++ c :: s2 /\ <[i := d]> s = s1 ++ d :: s2.
Proof.
  intros H. exists (take i s), (drop (S i) s). split; [symmetry; by apply take_drop_middle|]. rewrite insert_take_drop by (by eapply lookup_lt_Some). done.
Qed.

Lemma els_add s i c p : s !! i = Some c -> el c = None -> els (<[i := El p]> s) ≡ₚ p :: els s.
Proof.
  intros H Hc. destruct (insert_split s i c (El p) H) as (s1 & s2 & -> & ->). rewrite !els_app. unfold els. simpl. rewrite Hc. by rewrite Permutation_middle.
Qed.

Lemma els_remove s i p d : s !! i = Some (El p) -> el d = None -> els s ≡ₚ p :: els (<[i := d]> s).
Proof.
  intros H Hc. destruct (insert_split s i _ d H) as (s1 & s2 & -> & ->). rewrite !els_app. unfold els. simpl. rewrite Hc. by rewrite Permutation_middle.
Qed.

Lemma els_same s i c d : s !! i = Some c -> el c = None -> el d = None -> els (<[i := d]> s) = els s.
Proof. intros H Hc Hd. destruct (insert_split s i c d H) as (s1 & s2 & -> & ->). rewrite !els_app. unfold els. simpl. by rewrite Hc, Hd. Qed.

Lemma elem_of_els s p : p ∈ els s <-> exists i, s !! i = Some (El p).
Proof.
  unfold els. rewrite list_elem_of_omap. split.
  - intros (c & Hc & Hp). destruct c; simplify_eq/=. by apply list_elem_of_lookup in Hc.
  - intros [i Hi]. exists (El p). split; [by eapply list_elem_of_lookup_2|done].
Qed.

Lemma dels_insert s i c d : s !! i = Some c -> (dels (<[i := d]> s) + (if decide (c = Del) then 1 else 0) = dels s + (if decide (d = Del) then 1 else 0))%nat.
Proof.
  intros H. destruct (insert_split s i c d H) as (s1 & s2 & -> & ->). unfold dels. rewrite !list.filter_app, !list.filter_cons, !length_app.
  repeat case_decide; simpl; lia.
Qed.

(** A table that is not full has a slot without a pointer, and an empty one unless
    deletions took them all. *)
Lemma count_cells s : (length (els s) + dels s + length (filter (.= Emp) s) = length s)%nat.
Proof.
  induction s as [|c s IH]; [done|]. unfold dels, els in *. rewrite !list.filter_cons. destruct c; repeat case_decide; simplify_eq/=; lia.
Qed.

Lemma exists_empty s : (length (els s) + dels s < length s)%nat -> exists i, s !! i = Some Emp.
Proof.
  intros H. pose proof (count_cells s). destruct (filter (.= Emp) s) as [|c r] eqn:E; [simpl in *; lia|].
  assert (Hc : c ∈ filter (.= Emp) s) by (rewrite E; left). apply list_elem_of_filter in Hc as [-> Hc]. by apply list_elem_of_lookup in Hc.
Qed.

Lemma exists_free s : (length (els s) < length s)%nat -> exists i c, s !! i = Some c /\ el c = None.
Proof.
  induction s as [|c s IH]; cbn [length]; [lia|]. intros H. destruct c as [| |p]; [by exists 0%nat, Emp|by exists 0%nat, Del|].
  destruct IH as (i & d & Hi & Hd); [change (els (El p :: s)) with (p :: els s) in H; cbn [length] in H; lia|]. by exists (S i), d.
Qed.

Lemma size_of_list (l : list Z) : size (list_to_set_disj l : gmultiset Z) = length l.
Proof. induction l as [|x l IH]; [done|]. rewrite list_to_set_disj_cons, gmultiset_size_disj_union, gmultiset_size_singleton. simpl. by rewrite IH. Qed.

(** The first place where a test holds. *)
Lemma first_place (Q : nat -> Prop) `{forall j, Decision (Q j)} n : Q n -> exists d, (d <= n)%nat /\ Q d /\ forall j, (j < d)%nat -> ~ Q j.
Proof.
  induction n as [n IH] using lt_wf_ind. intros Hn.
  destruct (decide (Exists Q (seq 0 n))) as [He|He].
  - apply Exists_exists in He as (m & Hm & HQ). apply in_seq in Hm. destruct (IH m ltac:(lia) HQ) as (d & ? & ? & ?). exists d. split; [lia|done].
  - exists n. split; [lia|]. split; [done|]. intros j Hj HQ. apply He, Exists_exists. exists j. split; [apply in_seq; lia|done].
Qed.

(** * Slots *)

Section cells.

(** All pointers of the table have bit [k] as their highest. *)
Context (rehash : Z -> Z) (k : Z) (Hk : 2 <= k < 64).

Definition entry (ht : htable) (p : Z) (here : bool) : Z :=
  make_hval ht p (Z.lor (get_hash_ptr_bits ht (rehash p)) (if here then ht_perfect_mask ht else 0)).
Definition enc (ht : htable) (i : nat) (c : cell) : Z :=
  match c with Emp => 0 | Del => HTABLE_DELETED | El p => entry ht p (i =? hash_bucket ht (rehash p))%nat end.

Record masks_ok (ht : htable) : Prop := {
  mask_nonneg : 0 <= common_mask ht;
  common_nonneg : 0 <= common_bits ht;
  common_inside : Z.land (common_bits ht) (common_mask ht) = common_bits ht;
  perfect_inside : Z.land (ht_perfect_mask ht) (common_mask ht) = ht_perfect_mask ht;
  common_low : Z.testbit (common_bits ht) k = false;
  bitnum_nonneg : 0 <= perfect_bitnum ht }.

Definition pointer (p : Z) : Prop := 2 ^ k <= p < 2 ^ (k + 1).
Definition fits (ht : htable) (p : Z) : Prop := pointer p /\ Z.land p (common_mask ht) = common_bits ht /\ Z.testbit (common_mask ht) k = false.

Lemma pow_k : 4 <= 2 ^ k.
Proof. change 4 with (2 ^ 2). apply Z.pow_le_mono_r; lia. Qed.

Lemma pointer_bit p : pointer p -> Z.testbit p k = true.
Proof.
  unfold pointer. intros Hp. rewrite Z.testbit_true by lia. rewrite Z.pow_add_r, Z.pow_1_r in Hp by lia. pose proof pow_k.
  replace (p / 2 ^ k) with 1; [done|]. apply (Z.div_unique _ _ _ (p - 2 ^ k)); lia.
Qed.

Lemma here_bit (b : bool) P n : Z.testbit (if b then P else 0) n = b && Z.testbit P n.
Proof. destruct b; [done|apply Z.bits_0]. Qed.

Ltac inside ht Hm n :=
  pose proof (common_inside ht Hm) as HCM; pose proof (perfect_inside ht Hm) as HPM; bit_of HCM n; bit_of HPM n.

Lemma raw_entry ht p b : masks_ok ht -> Z.land p (common_mask ht) = common_bits ht -> get_raw_ptr ht (entry ht p b) = p.
Proof.
  intros Hm Hp. unfold get_raw_ptr, entry, make_hval, get_hash_ptr_bits. by_bits n. inside ht Hm n. bit_of Hp n. rewrite here_bit. cases_bits.
Qed.

Lemma extra_entry ht p b : masks_ok ht ->
  get_extra_ptr_bits ht (entry ht p b) = Z.lor (get_hash_ptr_bits ht (rehash p)) (if b then ht_perfect_mask ht else 0).
Proof.
  intros Hm. unfold get_extra_ptr_bits, entry, make_hval, get_hash_ptr_bits. by_bits n. inside ht Hm n. rewrite here_bit. cases_bits.
Qed.

Lemma entry_nonneg ht p b : masks_ok ht -> pointer p -> 0 <= entry ht p b.
Proof.
  intros Hm Hp. unfold pointer in Hp. pose proof pow_k. unfold entry, make_hval, get_hash_ptr_bits. destruct (perfect_one ht (bitnum_nonneg ht Hm)).
  pose proof (mask_nonneg ht Hm). repeat (apply Z.lor_nonneg; split); [apply Z.ldiff_nonneg; lia|apply Z.ldiff_nonneg; left; apply Z.land_nonneg; lia|by destruct b].
Qed.

Lemma entry_large ht p b : masks_ok ht -> fits ht p -> 2 ^ k <= entry ht p b.
Proof.
  intros Hm (Hp & _ & HM). apply bit_large; [by apply entry_nonneg|lia|]. unfold entry, make_hval. rewrite Z.lor_spec, Z.ldiff_spec, (pointer_bit p Hp), HM. done.
Qed.

(** Which slot a value says it is in. *)
Lemma entry_perfect ht p b : masks_ok ht -> Z.land (entry ht p b) (ht_perfect_mask ht) <> 0 -> b = true.
Proof.
  intros Hm Hne. destruct b; [done|]. exfalso. apply Hne. unfold entry, make_hval, get_hash_ptr_bits. by_bits n. inside ht Hm n. cases_bits.
Qed.

(** The table, as cells. *)
Definition cells (ht : htable) (s : list cell) : Prop :=
  table ht = Some (imap (enc ht) s) /\ length s = slots_num ht /\ masks_ok ht /\ forall i p, s !! i = Some (El p) -> fits ht p.

Lemma enc_zero ht c i : masks_ok ht -> (forall p, c = El p -> fits ht p) -> (enc ht i c =? 0) = bool_decide (c = Emp).
Proof.
  intros Hm Hf. destruct c as [| |p]; [done..|]. rewrite (bool_decide_eq_false_2 (El p = Emp)) by done. pose proof pow_k.
  apply Z.eqb_neq. pose proof (entry_large ht p (i =? hash_bucket ht (rehash p))%nat Hm (Hf p eq_refl)). simpl. lia.
Qed.

Lemma enc_deleted ht c i : masks_ok ht -> (forall p, c = El p -> fits ht p) -> (enc ht i c =? HTABLE_DELETED) = bool_decide (c = Del).
Proof.
  intros Hm Hf. destruct c as [| |p]; [done..|]. rewrite (bool_decide_eq_false_2 (El p = Del)) by done. pose proof pow_k.
  apply Z.eqb_neq. pose proof (entry_large ht p (i =? hash_bucket ht (rehash p))%nat Hm (Hf p eq_refl)). simpl. unfold HTABLE_DELETED. lia.
Qed.

Lemma enc_valid ht c i : masks_ok ht -> (forall p, c = El p -> fits ht p) -> entry_is_valid (enc ht i c) = bool_decide (is_Some (el c)).
Proof.
  intros Hm Hf. unfold entry_is_valid, HTABLE_DELETED. destruct c as [| |p]; [done..|]. rewrite (bool_decide_eq_true_2 (is_Some _)) by done. pose proof pow_k.
  apply Z.ltb_lt. pose proof (entry_large ht p (i =? hash_bucket ht (rehash p))%nat Hm (Hf p eq_refl)). simpl. lia.
Qed.

Lemma slot_cell ht s i c : cells ht s -> s !! i = Some c -> slot ht i = Ret (enc ht i c) /\ masks_ok ht /\ forall p, c = El p -> fits ht p.
Proof.
  intros (Ht & _ & Hm & Hf) Hc. unfold slot. rewrite Ht, list_lookup_imap, Hc. split; [done|]. split; [done|]. intros p ->. by eapply Hf.
Qed.

Lemma imap_insert_at {A B} (f : nat -> A -> B) l i x : imap f (<[i := x]> l) = <[i := f i x]> (imap f l).
Proof.
  revert f i. induction l as [|y l IH]; intros f [|i]; [done..|]. simpl. f_equal. apply (IH (f ∘ S) i).
Qed.

Lemma enc_table ht t : enc (with_table ht t) = enc ht.
Proof. done. Qed.

(** A slot is written. *)
Lemma put_cell ht s i c : cells ht s -> (i < slots_num ht)%nat -> (forall p, c = El p -> fits ht p) ->
  let ht' := with_table ht (Some (imap (enc ht) (<[i := c]> s))) in put_slot ht i (enc ht i c) = Ret ht' /\ cells ht' (<[i := c]> s).
Proof.
  intros (Ht & Hl & Hm & Hf) Hi Hc. unfold put_slot. rewrite Ht, length_imap, (proj2 (Nat.ltb_lt _ _)) by (by rewrite Hl). rewrite imap_insert_at. split; [done|].
  split; [simpl; by rewrite imap_insert_at|]. split; [by rewrite length_insert|]. split; [by destruct Hm|].
  intros j p Hj. apply list_lookup_insert_Some in Hj as [(_ & E & _)|[_ Hj]]; [by apply Hc|by eapply Hf].
Qed.

Lemma mask_bits ht z : Z.land z (Z.shiftl 1 (Z.of_nat (bits ht)) - 1) = z mod Z.of_nat (slots_num ht).
Proof.
  replace (Z.shiftl 1 (Z.of_nat (bits ht)) - 1) with (Z.ones (Z.of_nat (bits ht))) by (unfold Z.ones; lia).
  rewrite Z.land_ones by lia. unfold slots_num. by rewrite Nat2Z.inj_pow.
Qed.

Lemma slots_pos ht : (0 < slots_num ht)%nat.
Proof. unfold slots_num. pose proof (Nat.pow_nonzero 2 (bits ht)). lia. Qed.

Lemma next_off_at ht off : next_off ht off = ((off + 1) mod slots_num ht)%nat.
Proof. unfold next_off. rewrite mask_bits. pose proof (slots_pos ht). replace (Z.of_nat off + 1) with (Z.of_nat (off + 1)) by lia. by rewrite <- Nat2Z.inj_mod, Nat2Z.id. Qed.

Lemma bucket_lt ht h : (hash_bucket ht h < slots_num ht)%nat.
Proof. unfold hash_bucket. rewrite mask_bits. pose proof (slots_pos ht). pose proof (Z.mod_pos_bound h (Z.of_nat (slots_num ht)) ltac:(lia)). lia. Qed.

Lemma next_at ht b j : next_off ht (at_ (slots_num ht) b j) = at_ (slots_num ht) b (S j).
Proof. by rewrite next_off_at, at_S by apply slots_pos. Qed.

(** ** Searching *)

(** Every pointer is met from its bucket on before an empty slot. *)
Definition path (ht : htable) (s : list cell) : Prop :=
  forall i p, s !! i = Some (El p) -> exists j, (j < slots_num ht)%nat /\ at_ (slots_num ht) (hash_bucket ht (rehash p)) j = i /\
    forall j', (j' < j)%nat -> s !! at_ (slots_num ht) (hash_bucket ht (rehash p)) j' <> Some Emp.

(** The search for a hash stops at place [j] from its bucket on, at the pointer [p]. *)
Definition hit (ht : htable) (s : list cell) (h : Z) (j : nat) (p : Z) : Prop :=
  let i := at_ (slots_num ht) (hash_bucket ht h) j in
  s !! i = Some (El p) /\
  get_extra_ptr_bits ht (enc ht i (El p)) = Z.lor (get_hash_ptr_bits ht h) (if (j =? 0)%nat then ht_perfect_mask ht else 0).

(** What a search in the places from [j] up to [m] gives. *)
Definition searched (ht : htable) (s : list cell) (h : Z) (Q : Z -> bool) (j m : nat) (r : option Z * nat) : Prop :=
  (exists j' p, (j <= j' < m)%nat /\ r = (Some p, at_ (slots_num ht) (hash_bucket ht h) j') /\ hit ht s h j' p /\ Q p = true /\
     forall i q, (j <= i < j')%nat -> hit ht s h i q -> Q q = false) \/
  (fst r = None /\ forall i q, (j <= i < m)%nat -> hit ht s h i q -> Q q = false).

Lemma searched_step ht s h Q j m r : (forall q, hit ht s h j q -> Q q = false) -> searched ht s h Q (S j) m r -> searched ht s h Q j m r.
Proof.
  intros Hj [(j' & p & Hjm & -> & Hh & Hp & Hn)|[Hr Hn]].
  - left. exists j', p. split; [lia|]. split; [done|]. split; [done|]. split; [done|]. intros i q Hi Hq. destruct (decide (i = j)) as [->|]; [by apply Hj|]. apply (Hn i q); [lia|done].
  - right. split; [done|]. intros i q Hi Hq. destruct (decide (i = j)) as [->|]; [by apply Hj|]. apply (Hn i q); [lia|done].
Qed.

Lemma ldiff_hash ht h (b : bool) perfect : 0 <= perfect_bitnum ht -> perfect = 0 \/ perfect = ht_perfect_mask ht -> (b = true -> perfect = ht_perfect_mask ht) ->
  Z.ldiff (Z.lor (get_hash_ptr_bits ht h) (if b then ht_perfect_mask ht else 0)) perfect = Z.lor (get_hash_ptr_bits ht h) 0.
Proof.
  intros Hn Hp Hb. unfold get_hash_ptr_bits. by_bits n. rewrite here_bit. destruct b; [rewrite Hb by done|destruct Hp as [->| ->]; rewrite ?Z.bits_0]; cases_bits.
Qed.

Lemma val_loop_spec ht s h : cells ht s -> let at' := at_ (slots_num ht) (hash_bucket ht h) in
  forall n j fuel perfect, (n < fuel)%nat -> (forall i, (j <= i < j + n)%nat -> s !! at' i <> Some Emp) -> s !! at' (j + n)%nat = Some Emp ->
  perfect = 0 \/ perfect = ht_perfect_mask ht -> (j = O -> perfect = ht_perfect_mask ht) ->
  exists r, val_loop fuel ht (at' j) (Z.lor (get_hash_ptr_bits ht h) (if (j =? 0)%nat then ht_perfect_mask ht else 0)) perfect = Ret r /\
    searched ht s h (fun _ => true) j (j + n) r.
Proof.
  intros Hs at'. induction n as [|n IH]; intros j fuel perfect Hfuel Hfull Hemp Hp Hj0; (destruct fuel as [|fuel]; [lia|]); cbn [val_loop].
  { rewrite Nat.add_0_r in Hemp. destruct (slot_cell ht s _ _ Hs Hemp) as (-> & _). cbn. eexists. split; [done|]. right. split; [done|]. intros i q Hi. lia. }
  assert (Hlt : (at' j < length s)%nat) by (rewrite (proj1 (proj2 Hs)); apply at_lt, slots_pos).
  destruct (lookup_lt_is_Some_2 s (at' j) Hlt) as [c Hc]. destruct (slot_cell ht s _ _ Hs Hc) as (-> & Hm & Hf). cbn [obind].
  rewrite (enc_zero ht c) by done. rewrite (bool_decide_eq_false_2 (c = Emp)) by (intros ->; apply (Hfull j); [lia|done]).
  rewrite (enc_deleted ht c) by done.
  destruct (negb (bool_decide (c = Del)) && _) eqn:Ehit.
  - apply andb_true_iff in Ehit as [Hnd He]. apply negb_true_iff, bool_decide_eq_false in Hnd. apply Z.eqb_eq in He.
    destruct c as [| |p]; [by destruct (Hfull j ltac:(lia))|done|]. destruct (Hf p eq_refl) as (_ & Hp2 & _). cbn [enc]. rewrite raw_entry by done.
    eexists. split; [done|]. left. exists j, p. split; [lia|]. split; [done|]. split; [by split|]. split; [done|]. intros i q Hi. lia.
  - assert (Hno : forall q, ~ hit ht s h j q).
    { intros q [Hq He]. change (s !! at' j = Some (El q)) in Hq. rewrite Hc in Hq. injection Hq as ->. rewrite (bool_decide_eq_false_2 (El q = Del)) in Ehit by done. cbn [negb andb] in Ehit. by apply Z.eqb_neq in Ehit. }
    unfold at'. rewrite next_at. rewrite ldiff_hash by (by apply bitnum_nonneg || done || (intros Hj; apply Hj0; by apply Nat.eqb_eq)).
    destruct (IH (S j) fuel perfect) as (r & Hr & Hsr); [lia| | |done|done|].
    + intros i Hi. apply Hfull. lia.
    + by rewrite Nat.add_succ_comm.
    + exists r. split; [exact Hr|]. rewrite <- Nat.add_succ_comm. apply searched_step; [|done]. intros q Hq. by destruct (Hno q).
Qed.

(** The search from its place [j] on. *)
Definition search_at (ht : htable) (h : Z) (j : nat) : outcome (option Z * nat) :=
  htable_val ht (at_ (slots_num ht) (hash_bucket ht h) j) h (if (j =? 0)%nat then ht_perfect_mask ht else 0).

Lemma search_at_spec ht s h j d : cells ht s -> (d < slots_num ht)%nat -> (j <= d)%nat ->
  (forall i, (i < d)%nat -> s !! at_ (slots_num ht) (hash_bucket ht h) i <> Some Emp) -> s !! at_ (slots_num ht) (hash_bucket ht h) d = Some Emp ->
  exists r, search_at ht h j = Ret r /\ searched ht s h (fun _ => true) j d r.
Proof.
  intros Hs Hd Hj Hfull Hemp. unfold search_at, htable_val.
  destruct (val_loop_spec ht s h Hs (d - j) j (slots_num ht) (if (j =? 0)%nat then ht_perfect_mask ht else 0)) as (r & Hr & Hsr).
  - lia.
  - intros i Hi. apply Hfull. lia.
  - by replace (j + (d - j))%nat with d by lia.
  - destruct (j =? 0)%nat; auto.
  - by intros ->.
  - exists r. split; [done|]. by replace (j + (d - j))%nat with d in Hsr by lia.
Qed.

Lemma get_loop_spec ht s h Q d : cells ht s -> (d < slots_num ht)%nat ->
  (forall i, (i < d)%nat -> s !! at_ (slots_num ht) (hash_bucket ht h) i <> Some Emp) -> s !! at_ (slots_num ht) (hash_bucket ht h) d = Some Emp ->
  forall n j fuel, (j + n = d)%nat -> (n <= fuel)%nat ->
  exists r, (let! (c, off) := search_at ht h j in get_loop fuel ht h Q c off) = Ret r /\ searched ht s h Q j d r.
Proof.
  intros Hs Hd Hfull Hemp n. induction n as [n IH] using lt_wf_ind. intros j fuel Hj Hfuel.
  destruct (search_at_spec ht s h j d Hs Hd ltac:(lia) Hfull Hemp) as (r & -> & Hr). cbn [obind].
  destruct Hr as [(j' & p & Hj' & -> & Hh & _ & Hn)|[Hr Hn]].
  - assert (Hbefore : forall i q, (j <= i < j')%nat -> hit ht s h i q -> Q q = false) by (intros i q Hi Hq; discriminate (Hn i q Hi Hq)).
    destruct fuel as [|fuel]; [lia|]. cbn [get_loop]. destruct (Q p) eqn:EQ.
    + eexists. split; [done|]. left. exists j', p. split; [lia|done].
    + unfold htable_nextval_. rewrite next_at. change (htable_val ht _ h 0) with (search_at ht h (S j')).
      destruct (IH (d - S j')%nat ltac:(lia) (S j') fuel ltac:(lia) ltac:(lia)) as (r & -> & Hr). exists r. split; [done|].
      assert (Hp : forall q, hit ht s h j' q -> Q q = false) by (intros q Hq; destruct Hh as [Hh _], Hq as [Hq _]; congruence).
      clear -Hr Hp Hbefore Hj'. destruct Hr as [(j2 & p2 & Hj2 & -> & Hh2 & Hp2 & Hn)|[Hr Hn]].
      * left. exists j2, p2. split; [lia|]. repeat (split; [done|]). intros i q Hi Hq. destruct (lt_eq_lt_dec i j') as [[?|E]|?]; [apply (Hbefore i); [lia|done]|rewrite E in Hq; by apply Hp|apply (Hn i); [lia|done]].
      * right. split; [done|]. intros i q Hi Hq. destruct (lt_eq_lt_dec i j') as [[?|E]|?]; [apply (Hbefore i); [lia|done]|rewrite E in Hq; by apply Hp|apply (Hn i); [lia|done]].
  - destruct r as [c off]. cbn in Hr. subst c. destruct fuel; (eexists; split; [done|]; right; split; [done|]; intros i q Hi Hq; discriminate (Hn i q Hi Hq)).
Qed.

(** The first empty slot from a bucket on. *)
Lemma empty_place ht s b : cells ht s -> (b < slots_num ht)%nat -> (length (els s) + dels s < slots_num ht)%nat ->
  exists d, (d < slots_num ht)%nat /\ s !! at_ (slots_num ht) b d = Some Emp /\ forall j, (j < d)%nat -> s !! at_ (slots_num ht) b j <> Some Emp.
Proof.
  intros Hs Hb Hroom. destruct (exists_empty s) as [i Hi]; [by rewrite (proj1 (proj2 Hs))|].
  assert (Hlt : (i < slots_num ht)%nat) by (rewrite <- (proj1 (proj2 Hs)); by eapply lookup_lt_Some).
  destruct (at_onto (slots_num ht) b i Hb Hlt) as (n & Hn & En).
  destruct (first_place (fun j => s !! at_ (slots_num ht) b j = Some Emp) n) as (d & Hd & HQ & Hmin); [by rewrite En|]. exists d. split; [lia|done].
Qed.

(** [htable_get] and the search of [htable_del_]: one that the test accepts, and when
    there is none, no pointer with that hash passes the test. *)
Lemma probe_spec ht s h Q : cells ht s -> path ht s -> (length (els s) + dels s < slots_num ht)%nat ->
  exists c off, htable_search ht h Q = Ret (c, off) /\
    match c with
    | Some p => s !! off = Some (El p) /\ Q p = true
    | None => forall p, p ∈ els s -> rehash p = h -> Q p = false
    end.
Proof.
  intros Hs Hpath Hroom. destruct (empty_place ht s (hash_bucket ht h) Hs (bucket_lt ht h) Hroom) as (d & Hd & Hemp & Hfull).
  destruct (get_loop_spec ht s h Q d Hs Hd Hfull Hemp d 0 (slots_num ht) ltac:(lia) ltac:(lia)) as ([c off] & Hr & Hsr). exists c, off. split.
  { revert Hr. unfold htable_search, htable_firstval_, search_at. rewrite at_0 by apply bucket_lt. done. }
  destruct Hsr as [(j & p & Hj & [= -> ->] & [Hp _] & HQ & _)|[Hc Hn]]; [done|]. cbn in Hc. subst c.
  intros p Hp <-. apply elem_of_els in Hp as [i Hi]. destruct (Hpath i p Hi) as (j & Hj & Ej & Hne).
  apply (Hn j p).
  - split; [lia|]. destruct (decide (j < d)%nat) as [|Hjd]; [lia|]. exfalso. destruct (decide (j = d)) as [->|]; [rewrite Ej in Hemp; congruence|]. apply (Hne d); [lia|done].
  - split; [by rewrite Ej|]. cbn [enc]. destruct Hs as (_ & _ & Hm & Hf). rewrite extra_entry by done. do 2 f_equal.
    by rewrite at_first by (done || apply bucket_lt).
Qed.

(** ** Adding *)

(** The table with other cells. *)
Definition holds (ht : htable) (s : list cell) : htable := with_table ht (Some (imap (enc ht) s)).

Lemma add_loop_spec ht s b : cells ht s -> forall n j fuel perfect, (n < fuel)%nat ->
  (forall i, (j <= i < j + n)%nat -> exists p, s !! at_ (slots_num ht) b i = Some (El p)) ->
  (exists c, s !! at_ (slots_num ht) b (j + n) = Some c /\ el c = None) ->
  add_loop fuel ht (at_ (slots_num ht) b j) perfect = Ret (at_ (slots_num ht) b (j + n), if (n =? 0)%nat then perfect else 0).
Proof.
  intros Hs. induction n as [|n IH]; intros j fuel perfect Hfuel Hfull (c & Hc & Hel); (destruct fuel as [|fuel]; [lia|]); cbn [add_loop].
  - rewrite Nat.add_0_r in Hc |- *. destruct (slot_cell ht s _ _ Hs Hc) as (-> & Hm & Hf). cbn [obind]. rewrite (enc_valid ht c) by done. by rewrite Hel.
  - destruct (Hfull j ltac:(lia)) as [p Hp]. destruct (slot_cell ht s _ _ Hs Hp) as (-> & Hm & Hf). cbn [obind]. rewrite (enc_valid ht (El p)) by done. cbn [el].
    rewrite (bool_decide_eq_true_2 (is_Some _)) by done. rewrite next_at, IH.
    + rewrite Nat.add_succ_comm. by destruct n.
    + lia.
    + intros i Hi. apply Hfull. lia.
    + exists c. by rewrite Nat.add_succ_comm.
Qed.

Lemma ht_add_spec ht s p : cells ht s -> fits ht p -> (length (els s) < slots_num ht)%nat ->
  let at' := at_ (slots_num ht) (hash_bucket ht (rehash p)) in
  exists d c, (d < slots_num ht)%nat /\ (forall j, (j < d)%nat -> exists q, s !! at' j = Some (El q)) /\ s !! at' d = Some c /\ el c = None /\
    ht_add ht p (rehash p) = Ret (holds ht (<[at' d := El p]> s)) /\ cells (holds ht (<[at' d := El p]> s)) (<[at' d := El p]> s).
Proof.
  intros Hs Hp Hroom at'. pose proof (bucket_lt ht (rehash p)) as Hb. destruct (exists_free s) as (i & c0 & Hi & Hc0); [by rewrite (proj1 (proj2 Hs))|].
  assert (Hlt : (i < slots_num ht)%nat) by (rewrite <- (proj1 (proj2 Hs)); by eapply lookup_lt_Some).
  destruct (at_onto (slots_num ht) _ i Hb Hlt) as (n & Hn & En).
  destruct (first_place (fun j => (s !! at' j) ≫= el = None) n) as (d & Hd & HQ & Hmin); [unfold at'; by rewrite En, Hi|].
  assert (Hfull : forall j, (j < d)%nat -> exists q, s !! at' j = Some (El q)).
  { intros j Hj. specialize (Hmin j Hj). destruct (s !! at' j) as [[| |q]|]; [by destruct Hmin..|by exists q|by destruct Hmin]. }
  assert (Hat : (at' d < slots_num ht)%nat) by (apply at_lt; lia).
  destruct (lookup_lt_is_Some_2 s (at' d)) as [c Hc]; [by rewrite (proj1 (proj2 Hs))|]. rewrite Hc in HQ. exists d, c. split; [lia|]. split; [done|]. split; [done|]. split; [done|].
  destruct (put_cell ht s (at' d) (El p) Hs Hat) as [Hput Hcells]; [by intros q [= <-]|].
  unfold ht_add. assert (Hloop : add_loop (slots_num ht) ht (hash_bucket ht (rehash p)) (ht_perfect_mask ht) = Ret (at' d, if (d =? 0)%nat then ht_perfect_mask ht else 0)).
  { rewrite <- (at_0 (slots_num ht) (hash_bucket ht (rehash p)) Hb) at 1. apply (add_loop_spec ht s _ Hs d 0); [lia| |by exists c]. intros j Hj. apply Hfull. lia. }
  rewrite Hloop. cbn [obind]. cbn [enc] in Hput. unfold entry in Hput. unfold at' in Hput at 2. rewrite at_first in Hput by lia. by rewrite Hput.
Qed.

(** The paths to the others stay, and there is one to the new pointer. *)
Lemma add_path ht s p d : path ht s -> (d < slots_num ht)%nat -> length s = slots_num ht ->
  let at' := at_ (slots_num ht) (hash_bucket ht (rehash p)) in
  (forall j, (j < d)%nat -> exists q, s !! at' j = Some (El q)) -> path ht (<[at' d := El p]> s).
Proof.
  intros Hpath Hd Hl at' Hfull i q Hi.
  assert (Hkeep : forall x, s !! x <> Some Emp -> <[at' d := El p]> s !! x <> Some Emp).
  { intros x Hx Hins. apply list_lookup_insert_Some in Hins as [(_ & ? & _)|[_ ?]]; done. }
  apply list_lookup_insert_Some in Hi as [(<- & [= <-] & _)|[_ Hi]].
  - exists d. split; [done|]. split; [done|]. intros j Hj. apply Hkeep. destruct (Hfull j Hj) as [q Hq]. unfold at' in Hq. by rewrite Hq.
  - destruct (Hpath i q Hi) as (j & Hj & Ej & Hne). exists j. split; [done|]. split; [done|]. intros j' Hj'. by apply Hkeep, Hne.
Qed.

Lemma ht_add_ok ht s p : cells ht s -> path ht s -> fits ht p -> (length (els s) < slots_num ht)%nat ->
  exists s', ht_add ht p (rehash p) = Ret (holds ht s') /\ cells (holds ht s') s' /\ path ht s' /\ els s' ≡ₚ p :: els s /\ (dels s' <= dels s)%nat.
Proof.
  intros Hs Hpath Hp Hroom. destruct (ht_add_spec ht s p Hs Hp Hroom) as (d & c & Hd & Hfull & Hc & Hel & Hadd & Hcells). eexists. split; [exact Hadd|]. split; [done|].
  split; [apply add_path; [done|done|by destruct Hs as (_ & -> & _)|done]|]. split; [by eapply els_add|].
  pose proof (dels_insert s _ c (El p) Hc). rewrite (decide_False (P := El p = Del)) in H by done. lia.
Qed.

Definition slot_of (ht : htable) (e : Z) (c : cell) : Prop :=
  match c with El p => entry_is_valid e = true /\ get_raw_ptr ht e = p /\ fits ht p | _ => entry_is_valid e = false end.

Lemma readd_all ht es t s : Forall2 (slot_of ht) es t -> cells ht s -> path ht s -> (length (els s) + length (els t) <= slots_num ht)%nat ->
  exists s', ofold (readd rehash) ht es = Ret (holds ht s') /\ cells (holds ht s') s' /\ path ht s' /\ els s' ≡ₚ els t ++ els s /\ (dels s' <= dels s)%nat.
Proof.
  intros Hes. revert t ht s Hes. induction es as [|e es IH]; intros t ht s Hes Hs Hpath Hroom.
  - apply Forall2_nil_inv_l in Hes as ->. exists s. split; [|split; [by destruct Hs as (? & ? & [] & ?)|by repeat split]].
    simpl. f_equal. unfold holds. rewrite <- (proj1 Hs). by destruct ht.
  - apply Forall2_cons_inv_l in Hes as (c & t' & Hc & Ht & ->). cbn [ofold]. unfold readd at 1.
    destruct c as [| |p]; simpl in Hc.
    1,2: rewrite Hc; cbn [obind]; apply (IH t' ht s Ht Hs Hpath Hroom).
    destruct Hc as (-> & -> & Hp). change (els (El p :: t')) with (p :: els t') in Hroom |- *. cbn [length] in Hroom.
    destruct (ht_add_ok ht s p Hs Hpath Hp) as (s1 & Hadd & Hs1 & Hpath1 & Hels1 & Hdels1); [lia|].
    rewrite Hadd. cbn [obind]. destruct (IH t' (holds ht s1) s1 Ht Hs1 Hpath1) as (s2 & Hfold & Hs2 & Hpath2 & Hels2 & Hdels2).
    { rewrite Hels1. cbn [length]. change (slots_num (holds ht s1)) with (slots_num ht). lia. }
    exists s2. split; [exact Hfold|]. split; [exact Hs2|]. split; [exact Hpath2|]. split; [|lia].
    rewrite Hels2, Hels1. simpl. by rewrite Permutation_middle.
Qed.

(** ** Doubling *)

Lemma cells_counts ht s e d : cells ht s -> cells (with_counts ht e d) s.
Proof. intros (Ht & Hl & Hm & Hf). split; [done|]. split; [done|]. split; [by destruct Hm|done]. Qed.

Lemma find_perfect_spec M old l : find_perfect M old l = old \/ exists i : nat, find_perfect M old l = Z.of_nat i /\ Z.land M (wrap64 (Z.shiftl 2 (Z.of_nat i))) <> 0.
Proof.
  induction l as [|i l IH]; simpl; [by left|]. destruct (Z.eqb_spec (Z.land M (wrap64 (Z.shiftl 2 (Z.of_nat i)))) 0); simpl; [done|]. right. by exists i.
Qed.

Lemma regain_masks ht : masks_ok ht -> masks_ok (regain_perfect ht).
Proof.
  intros Hm. unfold regain_perfect. destruct (_ && _); [|done].
  destruct (find_perfect_spec (common_mask ht) (perfect_bitnum ht) (seq 0 64)) as [->|(i & -> & Hi)]; [by destruct Hm|].
  destruct Hm as [HM HC HCM HPM HCk Hb]. split; try done; [|simpl; lia]. change (common_mask (with_common _ _ ?m _)) with m.
  set (ht' := with_common ht (Z.of_nat i) _ _). destruct (perfect_one ht' ltac:(simpl; lia)) as [H1 HP]. change (wrap64 _) with (ht_perfect_mask ht') in Hi.
  pose proof (one_bit_inside _ (common_mask ht) H1 HP ltac:(by rewrite Z.land_comm)) as Hin. by_bits n. specialize (Hin n). destruct (Z.testbit (ht_perfect_mask ht') n); [by rewrite Hin|done].
Qed.

Definition grown (ht : htable) : htable :=
  regain_perfect (with_bits (with_table ht (Some (replicate (2 ^ (bits ht + 1)) 0))) (bits ht + 1)).

Lemma grown_same ht : bits (grown ht) = (bits ht + 1)%nat /\ elems (grown ht) = elems ht /\ common_mask (grown ht) = common_mask ht /\ common_bits (grown ht) = common_bits ht /\
  table (grown ht) = Some (replicate (2 ^ (bits ht + 1)) 0) /\ (masks_ok ht -> masks_ok (grown ht)).
Proof.
  unfold grown. set (ht' := with_bits _ _). assert (Hm : masks_ok ht -> masks_ok ht') by (by intros []). split_and!; try (intros H; by apply regain_masks, Hm); unfold regain_perfect; by destruct (_ && _).
Qed.

Lemma grown_cells ht : masks_ok ht -> cells (grown ht) (replicate (slots_num (grown ht)) Emp) /\ path (grown ht) (replicate (slots_num (grown ht)) Emp).
Proof.
  intros Hm. destruct (grown_same ht) as (Hb & _ & _ & _ & Ht & Hg). unfold slots_num. rewrite Hb. split.
  - split; [|split; [rewrite length_replicate; unfold slots_num; by rewrite Hb|split; [by apply Hg|]]].
    + rewrite Ht. f_equal. generalize (enc (grown ht)), (fun i => eq_refl : enc (grown ht) i Emp = 0). intros f Hf. revert f Hf. generalize (2 ^ (bits ht + 1))%nat.
      intros n. induction n as [|n IH]; intros f Hf; [done|]. simpl. rewrite Hf. f_equal. apply (IH (f ∘ S)). intros i. apply Hf.
    + intros i p Hi. by apply lookup_replicate in Hi as [? _].
  - intros i p Hi. by apply lookup_replicate in Hi as [? _].
Qed.

Lemma els_replicate n : els (replicate n Emp) = [].
Proof. by induction n. Qed.
Lemma dels_replicate n : dels (replicate n Emp) = 0%nat.
Proof. by induction n. Qed.

Lemma double_ok alloc ht s : cells ht s -> alloc (Z.shiftl 8 (Z.of_nat (bits ht + 1))) = true ->
  exists ht' s', double_table rehash alloc ht = Ret (true, ht') /\ cells ht' s' /\ path ht' s' /\ els s' ≡ₚ els s /\ dels s' = 0%nat /\
    bits ht' = (bits ht + 1)%nat /\ elems ht' = elems ht /\ deleted ht' = 0 /\ common_mask ht' = common_mask ht /\ common_bits ht' = common_bits ht.
Proof.
  intros Hs Ha. unfold double_table. rewrite Ha, (proj1 Hs). fold (grown ht). destruct (grown_same ht) as (Hb & He & HM & HC & Ht & Hg).
  destruct (grown_cells ht (proj1 (proj2 (proj2 Hs)))) as [Hc Hp].
  destruct (readd_all (grown ht) (imap (enc ht) s) s (replicate (slots_num (grown ht)) Emp)) as (s' & -> & Hs' & Hp' & Hels & Hdels); [| exact Hc | exact Hp | |].
  - apply Forall2_same_length_lookup. split; [by rewrite length_imap|]. intros i e c He' Hc'. rewrite list_lookup_imap, Hc' in He'. injection He' as <-.
    destruct (slot_cell ht s i c Hs Hc') as (_ & Hm & Hf). pose proof (enc_valid ht c i Hm Hf) as Hv. destruct c as [| |p]; [done..|]. destruct (Hf p eq_refl) as (Hp1 & Hp2 & Hp3).
    split; [done|]. split; [|unfold fits; by rewrite HM, HC]. unfold get_raw_ptr. rewrite HM, HC. by apply raw_entry.
  - rewrite els_replicate. cbn [length Nat.add]. assert (Hlen : (length (els s) <= length s)%nat) by (pose proof (count_cells s); lia).
    unfold slots_num. rewrite Hb. rewrite (proj1 (proj2 Hs)) in Hlen. unfold slots_num in Hlen. rewrite Nat.pow_add_r, Nat.pow_1_r. lia.
  - cbn [obind]. exists (with_counts (holds (grown ht) s') (elems (holds (grown ht) s')) 0), s'. split; [done|]. split; [by apply cells_counts|]. split; [exact Hp'|].
    split; [by rewrite Hels, els_replicate, app_nil_r|]. rewrite dels_replicate in Hdels. split; [lia|]. done.
Qed.

(** ** Rehashing *)

Lemma at_insert N b i j (s : list cell) c : length s = N -> (i < N)%nat -> (j < N)%nat ->
  <[at_ N b i := c]> s !! at_ N b j = if decide (i = j) then Some c else s !! at_ N b j.
Proof.
  intros Hl Hi Hj. case_decide as E; [subst j; apply list_lookup_insert_eq; rewrite Hl; apply at_lt; lia|].
  apply list_lookup_insert_ne. intros E'. by apply at_inj in E'.
Qed.

(** After the slots before place [i] from the empty one on: no deleted ones there, and all
    slots from the bucket of a pointer to it hold pointers; after it, the bucket comes first. *)
Definition rehashed (ht : htable) (start i : nat) (s : list cell) : Prop :=
  let at' := at_ (slots_num ht) start in
  cells ht s /\
  (forall j, (j < i)%nat -> s !! at' j <> Some Del /\ forall p, s !! at' j = Some (El p) ->
     exists a, (a <= j)%nat /\ at' a = hash_bucket ht (rehash p) /\ forall x, (a <= x < j)%nat -> exists q, s !! at' x = Some (El q)) /\
  (forall j p, (i <= j < slots_num ht)%nat -> s !! at' j = Some (El p) -> exists a, (a <= j)%nat /\ at' a = hash_bucket ht (rehash p)).

Lemma rehashed_start ht s start : cells ht s -> path ht s -> (start < slots_num ht)%nat -> s !! start = Some Emp -> rehashed ht start 0 s.
Proof.
  intros Hs Hp Hst He. split; [done|]. split; [lia|]. intros j p Hj Hjp.
  destruct (at_onto (slots_num ht) start (hash_bucket ht (rehash p)) Hst (bucket_lt ht _)) as (a & Ha & Ea). exists a. split; [|done].
  destruct (decide (a <= j)%nat) as [|Hlt]; [done|]. exfalso. destruct (Hp _ _ Hjp) as (j0 & Hj0 & E0 & Hne). rewrite <- Ea, at_add in E0 by lia.
  assert (Hwrap : (slots_num ht <= a + j0)%nat).
  { destruct (decide (a + j0 < slots_num ht)%nat); [|lia]. apply at_inj in E0; lia. }
  assert (Hz : at_ (slots_num ht) (hash_bucket ht (rehash p)) (slots_num ht - a) = start).
  { rewrite <- Ea, at_add by lia. unfold at_. replace (start + (a + (slots_num ht - a)))%nat with (start + 1 * slots_num ht)%nat by lia. rewrite Nat.Div0.mod_add. by apply Nat.mod_small. }
  destruct (decide (slots_num ht - a = j0)%nat) as [<-|].
  - rewrite <- Ea, at_add, E0 in Hz by lia. rewrite Hz in Hjp. congruence.
  - apply (Hne (slots_num ht - a)%nat); [lia|]. by rewrite Hz.
Qed.

Lemma holds_holds ht s s' : holds (holds ht s) s' = holds ht s'.
Proof. done. Qed.

Lemma holds_id ht s : cells ht s -> holds ht s = ht.
Proof. intros Hs. unfold holds. rewrite <- (proj1 Hs). by destruct ht. Qed.

(** A pointer that is moved to the first free slot from its bucket on. *)
Lemma rehash_moved ht start i s p : rehashed ht start i s -> (i < slots_num ht)%nat -> (start < slots_num ht)%nat ->
  s !! at_ (slots_num ht) start i = Some (El p) -> let s1 := <[at_ (slots_num ht) start i := Emp]> s in
  exists s', ht_add (holds ht s1) p (rehash p) = Ret (holds ht s') /\ rehashed (holds ht s') start (S i) s' /\ els s' ≡ₚ els s.
Proof.
  intros (Hs & Hdone & Htodo) Hi Hst Hp s1. set (at' := at_ (slots_num ht) start) in *.
  assert (Hl : length s = slots_num ht) by apply Hs. assert (Hl1 : length s1 = slots_num ht) by (unfold s1; by rewrite length_insert).
  destruct (Htodo i p ltac:(lia) Hp) as (a & Ha & Ea).
  destruct (put_cell ht s (at' i) Emp Hs ltac:(apply at_lt; lia) ltac:(done)) as [_ Hs1]. fold (holds ht s1) in Hs1. change (<[at' i := Emp]> s) with s1 in Hs1.
  assert (Hels1 : els s ≡ₚ p :: els s1) by (by apply els_remove).
  destruct (ht_add_spec (holds ht s1) s1 p Hs1) as (d & c & Hd & Hfull & Hc & Hel & Hadd & Hs2); [by eapply (proj2 (proj2 (proj2 Hs)))| |].
  { assert (length (els s) <= length s)%nat by (pose proof (count_cells s); lia). rewrite Hels1 in H. simpl in H. change (slots_num (holds ht s1)) with (slots_num ht). lia. }
  change (slots_num (holds ht s1)) with (slots_num ht) in *. change (hash_bucket (holds ht s1) (rehash p)) with (hash_bucket ht (rehash p)) in *. rewrite <- Ea in *.
  assert (Hplace : forall j, at_ (slots_num ht) (at' a) j = at' (a + j)%nat) by (intros j; apply at_add; lia).
  assert (Hs1at : forall j, (j < slots_num ht)%nat -> s1 !! at' j = if decide (i = j) then Some Emp else s !! at' j) by (intros j Hj; by apply at_insert).
  assert (Had : (a + d <= i)%nat).
  { destruct (decide (a + d <= i)%nat); [done|]. exfalso. destruct (Hfull (i - a)%nat ltac:(lia)) as [q Hq]. rewrite Hplace in Hq. replace (a + (i - a))%nat with i in Hq by lia.
    rewrite Hs1at in Hq by done. rewrite decide_True in Hq by done. congruence. }
  rewrite Hplace in *. set (s2 := <[at' (a + d)%nat := El p]> s1) in *.
  assert (Hs2at : forall j, (j < slots_num ht)%nat -> s2 !! at' j = if decide (a + d = j)%nat then Some (El p) else s1 !! at' j) by (intros j Hj; apply at_insert; lia).
  exists s2. split; [exact Hadd|]. split; [|by rewrite Hels1; eapply els_add]. split; [exact Hs2|]. split.
  - intros j Hj. change (slots_num (holds ht s2)) with (slots_num ht). fold at'. rewrite Hs2at, Hs1at by lia. repeat case_decide; [split; [done|]..|].
    + intros q [= <-]. exists a. split; [lia|]. split; [exact Ea|]. intros x Hx. rewrite Hs2at by lia. case_decide; [by eexists|]. destruct (Hfull (x - a)%nat ltac:(lia)) as [q Hq].
      rewrite Hplace in Hq. replace (a + (x - a))%nat with x in Hq by lia. by exists q.
    + done.
    + destruct (Hdone j ltac:(lia)) as [Hnd Hpath]. split; [done|]. intros q Hq. destruct (Hpath q Hq) as (a' & Ha' & Ea' & Hx'). exists a'. split; [done|]. split; [done|].
      intros x Hx. rewrite Hs2at, Hs1at by lia. case_decide; [by eexists|]. case_decide; [lia|by apply Hx'].
  - intros j q Hj. change (slots_num (holds ht s2)) with (slots_num ht) in *. fold at'. rewrite Hs2at, Hs1at by lia. repeat case_decide; [lia..|]. intros Hq. apply (Htodo j q); [lia|done].
Qed.

Lemma rehash_step ht start i s : rehashed ht start i s -> (i < slots_num ht)%nat -> (start < slots_num ht)%nat ->
  exists s', rehash_slot rehash (ht_perfect_mask ht) start ht i = Ret (holds ht s') /\ rehashed (holds ht s') start (S i) s' /\ els s' ≡ₚ els s.
Proof.
  intros Hr Hi Hst. pose proof Hr as (Hs & Hdone & Htodo). assert (Hl : length s = slots_num ht) by apply Hs.
  assert (Hat : (at_ (slots_num ht) start i < slots_num ht)%nat) by (apply at_lt; lia).
  unfold rehash_slot. assert (Hh : Z.to_nat (Z.land (Z.of_nat i + Z.of_nat start) (Z.shiftl 1 (Z.of_nat (bits ht)) - 1)) = at_ (slots_num ht) start i).
  { rewrite mask_bits, <- Nat2Z.inj_add, <- Nat2Z.inj_mod, Nat2Z.id. unfold at_. f_equal. lia. }
  cbv zeta. rewrite Hh. destruct (lookup_lt_is_Some_2 s (at_ (slots_num ht) start i)) as [c Hc]; [by rewrite Hl|].
  destruct (slot_cell ht s _ _ Hs Hc) as (-> & Hm & Hf). cbn [obind]. rewrite enc_zero, enc_deleted by done.
  assert (Hsame : c <> Del -> (forall p, c = El p -> at_ (slots_num ht) start i = hash_bucket ht (rehash p)) -> rehashed (holds ht s) start (S i) s).
  { intros Hnd Hb. rewrite holds_id by done. split; [done|]. split; [|intros j p Hj; apply Htodo; lia]. intros j Hj. destruct (decide (j = i)) as [->|]; [|apply Hdone; lia].
    split; [congruence|]. intros p Hp. exists i. split; [done|]. split; [apply Hb; congruence|]. lia. }
  destruct (bool_decide_reflect (c = Emp)) as [->|Hne]; [exists s; split; [by rewrite holds_id|split; [by apply Hsame|done]]|].
  destruct (bool_decide_reflect (c = Del)) as [->|Hnd].
  { destruct (put_cell ht s _ Emp Hs Hat ltac:(done)) as [Hput Hs']. eexists. split; [exact Hput|]. split; [|by rewrite (els_same s _ Del)].
    split; [exact Hs'|]. split; intros j; change (slots_num (holds ht _)) with (slots_num ht).
    - intros Hj. rewrite at_insert by lia. case_decide; [done|]. destruct (Hdone j ltac:(lia)) as [Hnd Hpath]. split; [done|]. intros p Hp. destruct (Hpath p Hp) as (a & Ha & Ea & Hx).
      exists a. split; [done|]. split; [done|]. intros x Hx'. rewrite at_insert by lia. case_decide; [lia|by apply Hx].
    - intros p Hj. rewrite at_insert by lia. case_decide; [lia|]. intros Hp. apply (Htodo j p); [lia|done]. }
  destruct c as [| |p]; [done..|]. destruct (Hf p eq_refl) as (_ & Hpm & _). destruct (Z.eqb_spec (Z.land (enc ht (at_ (slots_num ht) start i) (El p)) (ht_perfect_mask ht)) 0) as [_|Hperf].
  - cbn [enc] in *. rewrite raw_entry by done. destruct (put_cell ht s _ Emp Hs Hat ltac:(done)) as [Hput _]. cbn [enc] in Hput. rewrite Hput. cbn [obind]. by apply rehash_moved.
  - apply entry_perfect in Hperf; [|done]. apply Nat.eqb_eq in Hperf. exists s. split; [by rewrite holds_id|]. split; [|done]. apply Hsame; [done|]. by intros q [= <-].
Qed.

Lemma rehash_loop ht start n : (start < slots_num ht)%nat -> forall i s, rehashed ht start i s -> (i + n = slots_num ht)%nat ->
  exists s', ofold (rehash_slot rehash (ht_perfect_mask ht) start) ht (seq i n) = Ret (holds ht s') /\ rehashed (holds ht s') start (slots_num ht) s' /\ els s' ≡ₚ els s.
Proof.
  revert ht. induction n as [|n IH]; intros ht Hst i s Hr Hn; cbn [seq ofold].
  - exists s. replace i with (slots_num ht) in Hr by lia. rewrite holds_id by apply Hr. done.
  - destruct (rehash_step ht start i s Hr ltac:(lia) Hst) as (s1 & -> & Hr1 & E1). cbn [obind].
    destruct (IH (holds ht s1) Hst (S i) s1 Hr1) as (s2 & Hf & Hr2 & E2); [change (slots_num (holds ht s1)) with (slots_num ht); lia|].
    exists s2. split; [exact Hf|]. split; [exact Hr2|]. by rewrite E2.
Qed.

Lemma first_empty_spec ht s : cells ht s -> forall n i fuel, (n < fuel)%nat -> (i + n < slots_num ht)%nat -> (forall j, (i <= j < i + n)%nat -> s !! j <> Some Emp) -> s !! (i + n)%nat = Some Emp ->
  first_empty fuel ht i = Ret (i + n)%nat.
Proof.
  intros Hs. induction n as [|n IH]; intros i fuel Hfuel Hn Hfull He; (destruct fuel as [|fuel]; [lia|]); cbn [first_empty].
  - rewrite Nat.add_0_r in He |- *. destruct (slot_cell ht s _ _ Hs He) as (-> & _). done.
  - destruct (lookup_lt_is_Some_2 s i) as [c Hc]; [rewrite (proj1 (proj2 Hs)); lia|]. destruct (slot_cell ht s _ _ Hs Hc) as (-> & Hm & Hf). cbn [obind]. rewrite enc_zero by done.
    rewrite bool_decide_eq_false_2 by (intros ->; apply (Hfull i); [lia|done]). rewrite IH; [f_equal; lia|lia|lia| |by rewrite Nat.add_succ_comm].
    intros j Hj. apply Hfull. lia.
Qed.

Lemma dels_none s : (forall i, s !! i <> Some Del) -> dels s = 0%nat.
Proof.
  intros H. unfold dels. apply length_zero_iff_nil. destruct (filter _ s) as [|c r] eqn:E; [done|]. exfalso.
  assert (Hc : c ∈ filter (.= Del) s) by (rewrite E; left). apply list_elem_of_filter in Hc as [-> Hc]. apply list_elem_of_lookup in Hc as [i Hi]. by apply (H i).
Qed.

Lemma rehashed_end ht start s : (start < slots_num ht)%nat -> rehashed ht start (slots_num ht) s -> path ht s /\ dels s = 0%nat.
Proof.
  intros Hst (Hs & Hdone & _).
  assert (Hplace : forall i c, s !! i = Some c -> exists j, (j < slots_num ht)%nat /\ at_ (slots_num ht) start j = i).
  { intros i c Hi. apply at_onto; [done|]. rewrite <- (proj1 (proj2 Hs)). by eapply lookup_lt_Some. }
  split.
  - intros i p Hi. destruct (Hplace i _ Hi) as (j & Hj & <-). destruct (proj2 (Hdone j Hj) p Hi) as (a & Ha & Ea & Hx). rewrite <- Ea.
    exists (j - a)%nat. split; [lia|]. rewrite at_add by lia. split; [f_equal; lia|]. intros x Hxj. rewrite at_add by lia. destruct (Hx (a + x)%nat ltac:(lia)) as [q Hq]. by rewrite Hq.
  - apply dels_none. intros i Hi. destruct (Hplace i _ Hi) as (j & Hj & <-). by apply (Hdone j Hj).
Qed.

Lemma rehash_ok ht s : cells ht s -> path ht s -> (length (els s) + dels s < slots_num ht)%nat ->
  exists s', let ht' := with_counts (holds ht s') (elems ht) 0 in rehash_table rehash ht = Ret ht' /\ cells ht' s' /\ path ht' s' /\ els s' ≡ₚ els s /\ dels s' = 0%nat.
Proof.
  intros Hs Hp Hroom. destruct (empty_place ht s 0 Hs (slots_pos ht) Hroom) as (d & Hd & He & Hmin).
  assert (Hid : forall j, (j < slots_num ht)%nat -> at_ (slots_num ht) 0 j = j) by (intros j Hj; by apply Nat.mod_small). rewrite Hid in He by done.
  unfold rehash_table. rewrite (first_empty_spec ht s Hs d 0); [|lia|done| |done]; [|intros j Hj; rewrite <- (Hid j) by lia; apply Hmin; lia]. cbn [obind Nat.add].
  destruct (rehash_loop ht d (slots_num ht) Hd 0 s) as (s' & -> & Hr & E); [by apply rehashed_start|done|]. cbn [obind]. exists s'. split; [done|].
  destruct (rehashed_end (holds ht s') d s' Hd Hr) as [Hp' Hd']. split; [by apply cells_counts, Hr|done].
Qed.

(** ** The shared bits *)

Lemma land_bit p i : 0 <= i -> (Z.land p (Z.shiftl 1 i) =? 0) = negb (Z.testbit p i).
Proof.
  intros Hi. rewrite Z.shiftl_1_l. destruct (Z.testbit p i) eqn:E; simpl.
  - apply Z.eqb_neq. intros H. apply (land_zero_bit _ _ i H E). by apply Z.pow2_bits_true.
  - apply Z.eqb_eq. by_bits n. destruct (decide (n = i)) as [->|]; [by rewrite E|]. rewrite Z.pow2_bits_false by lia. apply andb_false_r.
Qed.

Lemma top_bit_spec p i : pointer p -> k <= Z.of_nat i -> Z.of_nat (top_bit i p) = k.
Proof.
  intros Hp. induction i as [|i IH]; intros Hi; [lia|]. cbn [top_bit]. rewrite land_bit, negb_involutive by lia.
  destruct (decide (k = Z.of_nat (S i))) as [E|]; [by rewrite <- E, pointer_bit|]. assert (Hb : Z.testbit p (Z.of_nat (S i)) = false).
  { destruct Hp as [Hp1 Hp2]. pose proof pow_k. rewrite Z.testbit_false by lia. rewrite Z.div_small; [done|]. split; [lia|]. eapply Z.lt_le_trans; [exact Hp2|]. apply Z.pow_le_mono_r; lia. }
  rewrite Hb. apply IH. lia.
Qed.

Lemma update_first ht s p : cells ht s -> path ht s -> pointer p -> els s = [] -> elems ht = 0 ->
  exists M C, let ht' := with_common ht 0 M C in update_common ht p = Ret ht' /\ cells ht' s /\ path ht' s /\ fits ht' p.
Proof.
  intros (Ht & Hl & Hm & Hf) Hpath Hp He E0. unfold update_common. rewrite E0. cbn [Z.eqb]. rewrite (top_bit_spec p 63 Hp) by lia. eexists _, _. split; [done|].
  set (M := Z.lxor UINTPTR_MAX (Z.shiftl 1 k)). pose proof pow_k. unfold pointer in Hp.
  assert (HMn : forall n, 0 <= n < 64 -> Z.testbit M n = negb (n =? k)).
  { intros n Hn. unfold M. rewrite Z.lxor_spec, Z.shiftl_1_l, Z.pow2_bits_eqb by lia. change UINTPTR_MAX with (Z.ones 64). rewrite Z.ones_spec_low by lia. rewrite (Z.eqb_sym k n). done. }
  assert (HMk : Z.testbit M k = false) by (rewrite HMn by lia; by rewrite Z.eqb_refl).
  assert (HM0 : 0 <= M) by (unfold M; rewrite Z.shiftl_1_l; apply Z.lxor_nonneg; unfold UINTPTR_MAX; lia).
  assert (Hno : forall i q, s !! i <> Some (El q)).
  { intros i q Hq. assert (Hin : q ∈ els s) by (apply elem_of_els; by exists i). rewrite He in Hin. by apply not_elem_of_nil in Hin. }
  split; [|split; [exact Hpath|]].
  - split; [|split; [done|split]].
    + simpl. rewrite Ht. f_equal. apply imap_ext. intros i c Hc. destruct c as [| |q]; [done..|]. by destruct (Hno i q).
    + split; simpl; try done.
      * apply Z.land_nonneg. lia.
      * by_bits n. cases_bits.
      * change (ht_perfect_mask _) with 2. by_bits n. change 2 with (2 ^ 1). rewrite Z.pow2_bits_eqb by lia. destruct (Z.eqb_spec 1 n) as [<-|]; [|done]. rewrite HMn by lia. by rewrite (proj2 (Z.eqb_neq 1 k)) by lia.
      * by rewrite Z.land_spec, HMk, andb_false_r.
    + intros i q Hq. by destruct (Hno i q).
  - split; [done|]. split; [done|exact HMk].
Qed.

Lemma reveal_loop D B ht : forall suf pre, table ht = Some (pre ++ suf) ->
  ofold (reveal D B) ht (seq (length pre) (length suf)) =
  Ret (with_table ht (Some (pre ++ ((fun e => if entry_is_valid e then Z.lor (Z.ldiff e D) B else e) <$> suf)))).
Proof.
  intros suf. revert ht. induction suf as [|e suf IH]; intros ht pre Ht; cbn [length seq ofold].
  - f_equal. simpl. rewrite <- Ht. by destruct ht.
  - unfold reveal at 1. unfold slot. rewrite Ht, lookup_app_r, Nat.sub_diag by lia. cbn. set (f := fun e => if entry_is_valid e then _ else e).
    assert (Hnext : forall ht', table ht' = Some (pre ++ f e :: suf) -> ofold (reveal D B) ht' (seq (S (length pre)) (length suf)) = Ret (with_table ht' (Some (pre ++ f e :: (f <$> suf))))).
    { intros ht' Ht'. specialize (IH ht' (pre ++ [f e])). rewrite length_app, Nat.add_comm in IH. cbn in IH. rewrite IH; [by rewrite <- app_assoc|]. by rewrite <- app_assoc. }
    destruct (entry_is_valid e) eqn:Ev.
    + unfold put_slot. rewrite Ht, (proj2 (Nat.ltb_lt _ _)) by (rewrite length_app; simpl; lia). cbn [obind]. rewrite Hnext; [unfold f; by rewrite Ev|]. simpl. unfold f. rewrite Ev. f_equal.
      rewrite insert_app_r_alt, Nat.sub_diag by lia. done.
    + cbn [obind]. rewrite Hnext; unfold f; by rewrite Ev.
Qed.

Lemma update_more ht s p : cells ht s -> path ht s -> pointer p -> els s <> [] -> elems ht <> 0 ->
  exists t b M C, let ht' := with_common (with_table ht t) b M C in update_common ht p = Ret ht' /\ cells ht' s /\ path ht' s /\ fits ht' p.
Proof.
  intros Hs Hpath Hp He E0. pose proof Hs as (Ht & Hl & Hm & Hf). unfold update_common. rewrite (proj2 (Z.eqb_neq _ _)) by done.
  set (D := Z.lxor (common_bits ht) (Z.land p (common_mask ht))). set (B := Z.land (common_bits ht) D).
  assert (Hlen : slots_num ht = length (imap (enc ht) s)) by (by rewrite length_imap). rewrite Hlen.
  rewrite (reveal_loop D B ht _ [] Ht : ofold _ ht (seq 0 _) = _). cbn [obind]. eexists _, _, _, _. split; [done|].
  change (common_mask (with_table ht _)) with (common_mask ht). change (common_bits (with_table ht _)) with (common_bits ht). change (ht_perfect_mask (with_table ht _)) with (ht_perfect_mask ht).
  change (perfect_bitnum (with_table ht _)) with (perfect_bitnum ht).
  set (ht' := with_common _ _ _ _). destruct (perfect_one ht (bitnum_nonneg ht Hm)) as [H1 HP].
  assert (HPin : Z.land (ht_perfect_mask ht) D <> 0 -> forall n, Z.testbit (ht_perfect_mask ht) n = true -> Z.testbit D n = true) by (intros; by apply (one_bit_inside (ht_perfect_mask ht) D)).
  assert (HP' : (Z.land (ht_perfect_mask ht) D = 0 /\ ht_perfect_mask ht' = ht_perfect_mask ht) \/ (Z.land (ht_perfect_mask ht) D <> 0 /\ ht_perfect_mask ht' = 0)).
  { unfold ht_perfect_mask at 2 5. simpl. destruct (Z.eqb_spec (Z.land (ht_perfect_mask ht) D) 0); simpl; [by left|by right]. }
  assert (HP'n : forall n, Z.testbit (ht_perfect_mask ht') n = Z.testbit (ht_perfect_mask ht) n && negb (Z.testbit D n)).
  { intros n. destruct HP' as [[HD ->]|[HD ->]].
    - destruct (Z.testbit (ht_perfect_mask ht) n) eqn:EP; [|done]. destruct (Z.testbit D n) eqn:ED; [|done]. by destruct (land_zero_bit _ _ n HD EP ED).
    - rewrite Z.bits_0. destruct (Z.testbit (ht_perfect_mask ht) n) eqn:EP; [by rewrite (HPin HD n EP)|done]. }
  assert (HDn : forall n, Z.testbit D n = xorb (Z.testbit (common_bits ht) n) (Z.testbit p n && Z.testbit (common_mask ht) n)) by (intros n; unfold D; by rewrite Z.lxor_spec, Z.land_spec).
  assert (HMk : Z.testbit (common_mask ht) k = false).
  { destruct (els s) as [|q r] eqn:Eq; [done|]. assert (Hq : q ∈ els s) by (rewrite Eq; left). apply elem_of_els in Hq as [i Hi]. apply (Hf i q Hi). }
  assert (Hfit : forall q, Z.land q (common_mask ht) = common_bits ht -> Z.land q (common_mask ht') = common_bits ht').
  { intros q Hq. simpl. by_bits n. bit_of Hq n. rewrite HDn. cases_bits. }
  assert (HM'k : Z.testbit (common_mask ht') k = false) by (simpl; by rewrite Z.ldiff_spec, HMk).
  split; [|split; [exact Hpath|]].
  - split; [|split; [exact Hl|split]].
    + change (table ht') with (Some ((fun e => if entry_is_valid e then Z.lor (Z.ldiff e D) B else e) <$> imap (enc ht) s)). f_equal. rewrite fmap_imap. apply imap_ext. intros i c Hc. simpl.
      destruct (slot_cell ht s i c Hs Hc) as (_ & _ & Hfc). rewrite enc_valid by done. destruct c as [| |q]; [done..|]. rewrite bool_decide_eq_true_2 by done. destruct (Hfc q eq_refl) as (_ & Hq & _).
      cbn [enc]. change (hash_bucket ht' (rehash q)) with (hash_bucket ht (rehash q)). generalize (i =? hash_bucket ht (rehash q))%nat. intros b. unfold entry, make_hval, get_hash_ptr_bits, B.
      by_bits n. rewrite !here_bit, HP'n. simpl. rewrite !Z.ldiff_spec, HDn. inside ht Hm n. bit_of Hq n. cases_bits.
    + destruct Hm as [HM HC HCM HPM HCk Hb]. split.
      * apply Z.ldiff_nonneg. by left.
      * apply Z.ldiff_nonneg. by left.
      * simpl. by_bits n. bit_of HCM n. cases_bits.
      * by_bits n. rewrite HP'n. simpl. rewrite Z.ldiff_spec. bit_of HPM n. cases_bits.
      * simpl. by rewrite Z.ldiff_spec, HCk.
      * simpl. destruct (negb _); [done|exact Hb].
    + intros i q Hq. destruct (Hf i q Hq) as (Hq1 & Hq2 & _). split; [done|]. split; [by apply Hfit|done].
  - split; [done|]. split; [|done]. simpl. by_bits n. inside ht Hm n. rewrite HDn. cases_bits.
Qed.

(** ** The counts *)

Record inv (ht : htable) (s : list cell) : Prop := {
  inv_cells : cells ht s;
  inv_path : path ht s;
  inv_elems : elems ht = Z.of_nat (length (els s));
  inv_deleted : Z.of_nat (dels s) <= deleted ht;
  inv_room : elems ht + deleted ht <= ht_max_with_deleted ht;
  inv_max : elems ht <= ht_max ht;
  inv_bits : (bits ht <= 30)%nat }.

(** The multiset of pointers a table stands for. *)
Definition rep (ht : htable) (X : gmultiset Z) : Prop :=
  (ht = htable_init /\ X = ∅) \/ exists s, inv ht s /\ list_to_set_disj (els s) = X.

Lemma maxima ht : exists x, 1 <= x /\ Z.of_nat (slots_num ht) = x /\ 4 * ht_max ht <= 3 * x < 4 * ht_max ht + 4 /\ 10 * ht_max_with_deleted ht <= 9 * x < 10 * ht_max_with_deleted ht + 10.
Proof.
  exists (2 ^ Z.of_nat (bits ht)). assert (0 < 2 ^ Z.of_nat (bits ht)) by (apply Z.pow_pos_nonneg; lia). split; [lia|]. unfold slots_num, ht_max, ht_max_with_deleted.
  rewrite Nat2Z.inj_pow, !Z.shiftl_mul_pow2 by lia. change (Z.of_nat 2) with 2. set (x := 2 ^ Z.of_nat (bits ht)) in *.
  pose proof (Z.div_mod (3 * x) 4). pose proof (Z.mod_pos_bound (3 * x) 4). pose proof (Z.div_mod (9 * x) 10). pose proof (Z.mod_pos_bound (9 * x) 10). lia.
Qed.

Lemma inv_free ht s : inv ht s -> (length (els s) + dels s < slots_num ht)%nat.
Proof. intros [_ _ He Hd Hr _ _]. destruct (maxima ht) as (x & Hx & Hn & _ & Hmd). lia. Qed.

Lemma maxima_grown ht ht' : bits ht' = (bits ht + 1)%nat -> ht_max ht + 1 <= ht_max ht'.
Proof.
  intros Hb. destruct (maxima ht) as (x & Hx & Hn & Hm & _). destruct (maxima ht') as (y & Hy & Hn' & Hm' & _).
  assert (y = 2 * x) by (rewrite <- Hn, <- Hn'; unfold slots_num; rewrite Hb, Nat.pow_add_r, Nat.pow_1_r; lia). subst y. lia.
Qed.

Lemma init_masks : masks_ok htable_init.
Proof. split; simpl; try done. by rewrite Z.bits_0. Qed.

Section allocating.
(** A table of [2 ^ 31] slots is not allocated: [1 << ht->bits] is an int. *)
Context (alloc : Z -> bool) (Halloc : forall n, alloc n = true -> n < 2 ^ 34).

Lemma alloc_bits b : alloc (Z.shiftl 8 (Z.of_nat (b + 1))) = true -> (b + 1 <= 30)%nat.
Proof.
  intros H. apply Halloc in H. rewrite Z.shiftl_mul_pow2 in H by lia. destruct (decide (b + 1 <= 30)%nat); [done|]. exfalso.
  assert (2 ^ 31 <= 2 ^ Z.of_nat (b + 1)) by (apply Z.pow_le_mono_r; lia). lia.
Qed.

(** What an addition needs. *)
Definition ready (ht : htable) (s : list cell) : Prop := inv ht s /\ elems ht + 1 <= ht_max ht.

Lemma grow_ok ht X : rep ht X -> exists ok ht', (if ht_max ht <? elems ht + 1 then double_table rehash alloc ht else Ret (true, ht)) = Ret (ok, ht') /\
  if ok : bool then exists s, ready ht' s /\ list_to_set_disj (els s) = X else ht' = ht /\ ht_max ht < elems ht + 1 /\ alloc (Z.shiftl 8 (Z.of_nat (bits ht + 1))) = false.
Proof.
  intros Hrep. destruct (alloc (Z.shiftl 8 (Z.of_nat (bits ht + 1)))) eqn:Ha.
  2: { destruct (Z.ltb_spec (ht_max ht) (elems ht + 1)) as [|Hle].
       - exists false, ht. unfold double_table. by rewrite Ha.
       - exists true, ht. split; [done|]. destruct Hrep as [[-> ->]|(s & Hs & HX)]; [by vm_compute in Hle|]. exists s. split; [by split|done]. }
  pose proof (alloc_bits _ Ha) as Hb30. destruct Hrep as [[-> ->]|(s & Hs & HX)].
  - destruct (grown_cells htable_init init_masks) as [Hc Hp]. destruct (grown_same htable_init) as (Hb & He & _).
    exists true, (with_counts (grown htable_init) (elems (grown htable_init)) 0). unfold double_table. rewrite Ha. split; [done|].
    exists (replicate (slots_num (grown htable_init)) Emp). split; [|by rewrite els_replicate]. split; [|done]. split; [by apply cells_counts|done|by rewrite els_replicate|by rewrite dels_replicate|done|done|simpl; lia].
  - destruct (Z.ltb_spec (ht_max ht) (elems ht + 1)) as [Hlt|Hle]; [|exists true, ht; split; [done|]; exists s; split; [by split|done]].
    destruct (double_ok alloc ht s (inv_cells _ _ Hs) Ha) as (ht' & s' & -> & Hc & Hp & Hels & Hdels & Hb & He & Hd & _). exists true, ht'. split; [done|]. exists s'.
    pose proof (maxima_grown ht ht' Hb). pose proof (inv_max _ _ Hs). split; [|by rewrite Hels].
    split; [|lia]. split; [done|done|by rewrite He, Hels, (inv_elems _ _ Hs)|lia| |lia|lia].
    destruct (maxima ht') as (x & Hx & Hn & Hm & Hmd). lia.
Qed.

Lemma clean_ok ht s : ready ht s -> exists ht' s', (if ht_max_with_deleted ht <? elems ht + 1 + deleted ht then rehash_table rehash ht else Ret ht) = Ret ht' /\
  ready ht' s' /\ elems ht' + 1 + deleted ht' <= ht_max_with_deleted ht' /\ els s' ≡ₚ els s.
Proof.
  intros [Hs Hmax]. destruct (Z.ltb_spec (ht_max_with_deleted ht) (elems ht + 1 + deleted ht)) as [Hlt|Hle]; [|by exists ht, s].
  destruct (rehash_ok ht s (inv_cells _ _ Hs) (inv_path _ _ Hs) (inv_free _ _ Hs)) as (s' & -> & Hc & Hp & Hels & Hdels).
  destruct (maxima ht) as (x & Hx & Hn & Hm & Hmd). pose proof (inv_elems _ _ Hs). set (ht' := with_counts _ _ _) in *.
  assert (Hcounts : elems ht' = elems ht /\ deleted ht' = 0 /\ ht_max ht' = ht_max ht /\ ht_max_with_deleted ht' = ht_max_with_deleted ht /\ bits ht' = bits ht) by done.
  destruct Hcounts as (He & Hd & Hm' & Hmd' & Hb). exists ht', s'. split; [done|]. split; [split; [|lia]|split; [lia|done]].
  split; [done|done|by rewrite He, Hels|lia|lia|lia|rewrite Hb; apply Hs].
Qed.

Lemma share_ok ht s p : inv ht s -> pointer p ->
  exists ht', (if negb (Z.land p (common_mask ht) =? common_bits ht) then update_common ht p else Ret ht) = Ret ht' /\
    cells ht' s /\ path ht' s /\ fits ht' p /\ bits ht' = bits ht /\ elems ht' = elems ht /\ deleted ht' = deleted ht.
Proof.
  intros Hs Hp. pose proof (inv_cells _ _ Hs) as Hc. destruct (Z.eqb_spec (Z.land p (common_mask ht)) (common_bits ht)) as [E|_]; simpl.
  - exists ht. split; [done|]. split; [done|]. split; [apply Hs|]. split; [|done]. split; [done|]. split; [done|]. pose proof (pointer_bit p Hp) as Hb. bit_of E k.
    rewrite Hb, (common_low ht) in E by apply Hc. done.
  - pose proof (inv_elems _ _ Hs) as He. destruct (els s) as [|q r] eqn:Eq.
    + destruct (update_first ht s p Hc (inv_path _ _ Hs) Hp Eq He) as (M & C & -> & H1 & H2 & H3). by eexists.
    + destruct (update_more ht s p Hc (inv_path _ _ Hs) Hp ltac:(by rewrite Eq)) as (t & b & M & C & -> & H1 & H2 & H3); [rewrite He; simpl; lia|]. by eexists.
Qed.

Lemma maxima_bits ht ht' : bits ht' = bits ht -> ht_max ht' = ht_max ht /\ ht_max_with_deleted ht' = ht_max_with_deleted ht /\ slots_num ht' = slots_num ht.
Proof. intros E. unfold ht_max, ht_max_with_deleted, slots_num. by rewrite E. Qed.

Lemma add_ok ht X p : rep ht X -> pointer p -> exists ok ht', htable_add_ rehash alloc ht (rehash p) p = Ret (ok, ht') /\
  if ok : bool then rep ht' ({[+ p +]} ⊎ X) else ht' = ht /\ ht_max ht < elems ht + 1 /\ alloc (Z.shiftl 8 (Z.of_nat (bits ht + 1))) = false.
Proof.
  intros Hrep Hp. unfold htable_add_. destruct (grow_ok ht X Hrep) as (ok & ht1 & -> & H1). cbn [obind]. destruct ok; cbn [negb]; [|by exists false, ht1].
  destruct H1 as (s1 & Hr1 & HX1). destruct (clean_ok ht1 s1 Hr1) as (ht2 & s2 & -> & [Hs2 Hmax2] & Hroom2 & Hels2). cbn [obind].
  assert (Hp0 : (p =? 0) = false) by (apply Z.eqb_neq; pose proof pow_k; unfold pointer in Hp; lia). rewrite Hp0. cbn [negb assert_ obind].
  destruct (share_ok ht2 s2 p Hs2 Hp) as (ht3 & -> & Hc3 & Hp3 & Hf3 & Hb3 & He3 & Hd3). cbn [obind]. destruct (maxima_bits ht2 ht3 Hb3) as (Hm & Hmd & Hn).
  destruct (ht_add_ok ht3 s2 p Hc3 Hp3 Hf3) as (s4 & -> & Hc4 & Hp4 & Hels4 & Hdels4); [rewrite Hn; pose proof (inv_free _ _ Hs2); lia|]. cbn [obind].
  pose proof (inv_elems _ _ Hs2). pose proof (inv_deleted _ _ Hs2). set (ht5 := with_counts _ _ _).
  assert (Hf : elems ht5 = elems ht3 + 1 /\ deleted ht5 = deleted ht3 /\ ht_max ht5 = ht_max ht3 /\ ht_max_with_deleted ht5 = ht_max_with_deleted ht3 /\ bits ht5 = bits ht3) by done.
  destruct Hf as (He5 & Hd5 & Hm5 & Hmd5 & Hb5). exists true, ht5. split; [done|]. right. exists s4. split.
  - split; [by apply cells_counts|exact Hp4|rewrite He5, Hels4; simpl; lia|lia|lia|lia|rewrite Hb5, Hb3; apply Hs2].
  - rewrite Hels4, list_to_set_disj_cons. by rewrite Hels2, HX1.
Qed.

End allocating.

(** ** The other operations *)

Lemma search_empty h Q : htable_search htable_init h Q = Ret (None, 0%nat).
Proof.
  unfold htable_search, htable_firstval_. assert (Hb : hash_bucket htable_init h = 0%nat) by (unfold hash_bucket; simpl; by rewrite Z.land_0_r). by rewrite Hb.
Qed.

Lemma get_ok ht X h Q : rep ht X -> exists c, htable_get ht h Q = Ret c /\
  match c with Some p => p ∈ X /\ Q p = true | None => forall p, p ∈ X -> rehash p = h -> Q p = false end.
Proof.
  unfold htable_get. intros [[-> ->]|(s & Hs & <-)].
  - rewrite search_empty. exists None. split; [done|]. multiset_solver.
  - destruct (probe_spec ht s h Q (inv_cells _ _ Hs) (inv_path _ _ Hs) (inv_free _ _ Hs)) as (c & off & -> & Hc). exists c. split; [done|]. destruct c as [p|].
    + split; [|apply Hc]. apply elem_of_list_to_set_disj, elem_of_els. exists off. apply Hc.
    + intros p Hp. apply elem_of_list_to_set_disj in Hp. by apply Hc.
Qed.

Lemma del_ok ht X p : rep ht X -> exists ht', htable_del_ ht (rehash p) p = Ret (bool_decide (p ∈ X), ht') /\ rep ht' (X ∖ {[+ p +]}).
Proof.
  unfold htable_del_. intros [[-> ->]|(s & Hs & <-)].
  { rewrite search_empty. exists htable_init. rewrite bool_decide_eq_false_2 by multiset_solver. split; [done|]. left. split; [done|multiset_solver]. }
  destruct (probe_spec ht s (rehash p) (Z.eqb p) (inv_cells _ _ Hs) (inv_path _ _ Hs) (inv_free _ _ Hs)) as (c & off & -> & Hc). cbn [obind]. destruct c as [q|].
  - destruct Hc as [Hq Heq]. apply Z.eqb_eq in Heq as <-. assert (Hin : p ∈ els s) by (apply elem_of_els; by exists off).
    assert (Hoff : (off < slots_num ht)%nat) by (rewrite <- (proj1 (proj2 (inv_cells _ _ Hs))); by eapply lookup_lt_Some).
    unfold htable_delval_. rewrite (proj2 (Nat.ltb_lt _ _)) by done. cbn [assert_ obind]. destruct (slot_cell ht s off _ (inv_cells _ _ Hs) Hq) as (-> & Hm & Hf). cbn [obind].
    rewrite enc_valid by done. cbn [el]. rewrite bool_decide_eq_true_2 by done. cbn [assert_ obind].
    destruct (put_cell (with_counts ht (elems ht - 1) (deleted ht)) s off Del) as [Hput Hc']; [by apply cells_counts, Hs|done|done|]. cbn [enc] in Hput. rewrite Hput. cbn [obind].
    eexists. rewrite bool_decide_eq_true_2 by (by apply elem_of_list_to_set_disj). split; [done|]. right. exists (<[off := Del]> s).
    pose proof (els_remove s off p Del Hq eq_refl) as Hels. pose proof (dels_insert s off _ Del Hq) as Hd. rewrite (decide_False (P := El p = Del)), (decide_True (P := Del = Del)) in Hd by done.
    pose proof (Permutation_length Hels) as Hlen. cbn [length] in Hlen. destruct Hs as [Hc He1 He Hdel Hroom Hmax Hb]. split.
    + split; [by apply cells_counts| |simpl; lia|simpl; lia|simpl|simpl|done].
      * intros i r Hi. apply list_lookup_insert_Some in Hi as [(_ & [=] & _)|[Hne Hi]]. destruct (He1 i r Hi) as (j & Hj & Ej & Hpath). exists j. split; [done|]. split; [done|].
        intros j' Hj' Hins. apply list_lookup_insert_Some in Hins as [(_ & [=] & _)|[_ Hins]]. by apply (Hpath j').
      * change (ht_max_with_deleted _) with (ht_max_with_deleted ht). lia.
      * change (ht_max _) with (ht_max ht). lia.
    + rewrite Hels, list_to_set_disj_cons. multiset_solver.
  - assert (Hnot : ~ p ∈ els s) by (intros Hin; specialize (Hc p Hin eq_refl); by rewrite Z.eqb_refl in Hc).
    exists ht. rewrite bool_decide_eq_false_2 by (by rewrite elem_of_list_to_set_disj). split; [done|]. right. exists s. split; [done|].
    assert (Hn : p ∉ (list_to_set_disj (els s) : gmultiset Z)) by (by rewrite elem_of_list_to_set_disj). multiset_solver.
Qed.

(** Going through the slots. *)
Lemma valid_next ht s : cells ht s -> forall n off, (off + n = slots_num ht)%nat ->
  exists c i, valid_loop ht n off = Ret (c, i) /\
    match c with Some p => els (drop off s) = p :: els (drop (S i) s) /\ s !! i = Some (El p) | None => els (drop off s) = [] end.
Proof.
  intros Hs. assert (Hl : length s = slots_num ht) by apply Hs. induction n as [|n IH]; intros off Hn; cbn [valid_loop].
  - exists None, off. split; [done|]. by rewrite drop_ge by lia.
  - destruct (lookup_lt_is_Some_2 s off) as [c Hc]; [lia|]. destruct (slot_cell ht s off c Hs Hc) as (-> & Hm & Hf). cbn [obind]. rewrite enc_valid by done.
    rewrite (drop_S s c off Hc). destruct (bool_decide_reflect (is_Some (el c))) as [[p Hp]|Hno].
    + destruct c as [| |q]; simplify_eq/=. rewrite raw_entry by (done || by apply Hf). exists (Some p), off. done.
    + destruct (IH (S off) ltac:(lia)) as (c' & i & -> & Hr). exists c', i. split; [done|]. destruct c as [| |q]; [exact Hr..|]. by destruct Hno.
Qed.

Lemma check_loop_spec ht s : inv ht s -> forall fuel c off n, 
  match c with Some p => s !! off = Some (El p) /\ (length (els (drop (S off) s)) < fuel)%nat /\ n + 1 + Z.of_nat (length (els (drop (S off) s))) = elems ht | None => n = elems ht end ->
  ht_check_loop rehash fuel ht c off n = Ret (Some (elems ht)).
Proof.
  intros Hs. induction fuel as [|fuel IH]; intros c off n Hc; (destruct c as [p|]; [|subst n; done]); destruct Hc as (Hp & Hfuel & Hn); [lia|]. cbn [ht_check_loop].
  destruct (probe_spec ht s (rehash p) (Z.eqb p) (inv_cells _ _ Hs) (inv_path _ _ Hs) (inv_free _ _ Hs)) as (c & o & -> & Hc). cbn [obind].
  destruct c as [q|]; [|specialize (Hc p ltac:(apply elem_of_els; by exists off) eq_refl); by rewrite Z.eqb_refl in Hc].
  assert (Hoff : (off < slots_num ht)%nat) by (rewrite <- (proj1 (proj2 (inv_cells _ _ Hs))); by eapply lookup_lt_Some).
  unfold htable_next_. destruct (valid_next ht s (inv_cells _ _ Hs) (slots_num ht - S off) (S off) ltac:(lia)) as (c & i & -> & Hi). cbn [obind]. apply IH.
  destruct c as [r|]; [|rewrite Hi in Hn; simpl in Hn; lia]. destruct Hi as [Hi Hr]. rewrite Hi in Hn, Hfuel. cbn [length] in Hn, Hfuel. split; [done|]. lia.
Qed.

Lemma table_check_ok ht X : rep ht X -> htable_check rehash ht = Ret true.
Proof.
  intros [[-> ->]|(s & Hs & _)]; [done|]. unfold htable_check, htable_first_. destruct (valid_next ht s (inv_cells _ _ Hs) (slots_num ht) 0 ltac:(lia)) as (c & i & -> & Hi). cbn [obind].
  pose proof (inv_elems _ _ Hs) as He. pose proof (inv_free _ _ Hs). rewrite drop_0 in Hi. rewrite (check_loop_spec ht s Hs); [simpl; by rewrite Z.eqb_refl|].
  destruct c as [p|]; [|by rewrite He, Hi]. destruct Hi as [Hi Hp]. rewrite Hi in He, H. cbn [length] in He, H. split; [done|]. lia.
Qed.

(** The loop over all elements that the functions [first] and [next] are for. *)
Fixpoint iterate (fuel : nat) (ht : htable) (r : outcome (option Z * nat)) : outcome (list Z) :=
  match fuel with
  | O => Abort "does not end"
  | S fuel => let! (c, off) := r in
      match c with None => Ret [] | Some p => let! l := iterate fuel ht (htable_next_ ht off) in Ret (p :: l) end
  end.

Lemma iterate_spec ht s : cells ht s -> forall fuel off, (off <= slots_num ht)%nat -> (length (els (drop off s)) < fuel)%nat ->
  iterate fuel ht (valid_loop ht (slots_num ht - off) off) = Ret (els (drop off s)).
Proof.
  intros Hs. assert (Hl : length s = slots_num ht) by apply Hs. induction fuel as [|fuel IH]; intros off Hoff Hfuel; [lia|]. cbn [iterate].
  destruct (valid_next ht s Hs (slots_num ht - off) off ltac:(lia)) as (c & i & -> & Hi). cbn [obind]. destruct c as [p|]; [|by rewrite Hi]. destruct Hi as [Hi Hp].
  assert (i < slots_num ht)%nat by (rewrite <- Hl; by eapply lookup_lt_Some). unfold htable_next_. rewrite Hi in Hfuel |- *. cbn [length] in Hfuel. by rewrite IH by lia.
Qed.

Lemma iterate_ok ht X : rep ht X -> exists l, iterate (S (slots_num ht)) ht (htable_first_ ht) = Ret l /\ list_to_set_disj l = X.
Proof.
  intros [[-> ->]|(s & Hs & <-)]; [by exists []|]. exists (els s). split; [|done]. pose proof (inv_free _ _ Hs). pose proof (iterate_spec ht s (inv_cells _ _ Hs) (S (slots_num ht)) 0) as Hit.
  rewrite Nat.sub_0_r, drop_0 in Hit. apply Hit; lia.
Qed.

Lemma pick_ok ht X seed : rep ht X -> exists c off, htable_pick_ ht seed = Ret (c, off) /\ match c with Some p => p ∈ X | None => X = ∅ end.
Proof.
  intros [[-> ->]|(s & Hs & <-)].
  - exists None, 1%nat. split; [|done]. unfold htable_pick_. simpl bits. by rewrite Z.mod_1_r.
  - unfold htable_pick_, htable_next_. set (off := Z.to_nat _). assert (Hoff : (off < slots_num ht)%nat).
    { unfold off, slots_num. assert (0 < 2 ^ Z.of_nat (bits ht)) by (apply Z.pow_pos_nonneg; lia). pose proof (Z.mod_pos_bound seed (2 ^ Z.of_nat (bits ht)) ltac:(lia)).
      apply Nat2Z.inj_lt. rewrite Z2Nat.id, Nat2Z.inj_pow by lia. change (Z.of_nat 2) with 2. lia. }
    assert (Hin : forall i p, s !! i = Some (El p) -> p ∈ (list_to_set_disj (els s) : gmultiset Z)) by (intros i p Hi; apply elem_of_list_to_set_disj, elem_of_els; by exists i).
    destruct (valid_next ht s (inv_cells _ _ Hs) (slots_num ht - S off) (S off) ltac:(lia)) as (c & i & -> & Hi). cbn [obind]. destruct c as [p|]; [exists (Some p), i; split; [done|]; by eapply Hin, Hi|].
    unfold htable_first_. destruct (valid_next ht s (inv_cells _ _ Hs) (slots_num ht) 0 ltac:(lia)) as (c & i2 & -> & Hi2). exists c, i2. split; [done|]. destruct c as [p|]; [by eapply Hin, Hi2|].
    rewrite drop_0 in Hi2. by rewrite Hi2.
Qed.

Lemma count_ok ht X : rep ht X -> htable_count ht = Z.of_nat (size X).
Proof.
  intros [[-> ->]|(s & Hs & <-)]; [done|]. unfold htable_count. rewrite (inv_elems _ _ Hs). by rewrite size_of_list.
Qed.

Lemma read_slots_spec ht t : table ht = Some t -> forall l, Forall (fun i => i < length t)%nat l -> read_slots ht l = Ret (omap (fun i => t !! i) l).
Proof.
  intros Ht l. induction 1 as [|i l Hi Hl IH]; [done|]. cbn [read_slots]. unfold slot. rewrite Ht. destruct (lookup_lt_is_Some_2 t i Hi) as [e He]. rewrite He. cbn [obind]. rewrite IH. simpl. by rewrite He.
Qed.

Lemma omap_seq {A} (t : list A) : omap (fun i => t !! i) (seq 0 (length t)) = t.
Proof.
  assert (G : forall pre, omap (fun i => (pre ++ t) !! i) (seq (length pre) (length t)) = t).
  { induction t as [|x t IH]; intros pre; [done|]. cbn [length seq omap list_omap]. rewrite lookup_app_r, Nat.sub_diag by lia. simpl. f_equal.
    specialize (IH (pre ++ [x])). rewrite length_app, Nat.add_comm in IH. simpl in IH. by rewrite <- app_assoc in IH. }
  apply (G []).
Qed.

Lemma copy_ok (alloc : Z -> bool) dst src X : rep src X -> exists ok ht, htable_copy_ alloc dst src = Ret (ok, ht) /\
  ok = alloc (Z.shiftl 8 (Z.of_nat (bits src))) /\ if ok : bool then rep ht X else ht = dst.
Proof.
  intros Hrep. unfold htable_copy_. destruct (alloc _); [|by exists false, dst]. exists true. destruct Hrep as [[-> ->]|(s & Hs & <-)].
  - eexists. split; [done|]. split; [done|]. right. exists [Emp]. split; [|done]. split; [|by intros [|i] p Hi|done..|simpl; lia].
    split; [done|]. split; [done|]. split; [by destruct init_masks|]. by intros [|i] p Hi.
  - pose proof (inv_cells _ _ Hs) as (Ht & Hl & _). assert (Hlen : length (imap (enc src) s) = slots_num src) by (by rewrite length_imap).
    rewrite (read_slots_spec src _ Ht) by (apply Forall_seq; intros j Hj; lia). rewrite <- Hlen. rewrite omap_seq. cbn [obind]. eexists. split; [done|]. split; [done|].
    rewrite <- Ht. right. exists s. by destruct src.
Qed.

Lemma sized_bits expect : forall fuel n, (n + fuel <= 31)%nat -> (n <= 30)%nat -> (sized_loop fuel n expect <= 30)%nat.
Proof.
  induction fuel as [|fuel IH]; intros n Hn Hn30; [done|]. cbn [sized_loop]. destruct (_ <? _); [|done]. destruct (Nat.eqb_spec n 30); [done|]. apply IH; lia.
Qed.

Lemma init_sized_ok (alloc : Z -> bool) expect ht : htable_init_sized alloc expect = (true, ht) -> rep ht ∅.
Proof.
  unfold htable_init_sized. destruct (alloc _); [|done]. intros [= <-]. pose proof (sized_bits expect 30 1 ltac:(lia) ltac:(lia)) as Hb. set (n := sized_loop 30 1 expect) in *.
  set (ht := with_table _ _). right. exists (replicate (slots_num ht) Emp). split; [|by rewrite els_replicate]. destruct (maxima ht) as (x & Hx & Hn & Hm & Hmd). split.
  - split; [|split; [by rewrite length_replicate|split; [by destruct init_masks|]]].
    + simpl. f_equal. apply list_eq. intros i. rewrite list_lookup_imap. change (slots_num _) with (slots_num ht). destruct (decide (i < slots_num ht)%nat).
      * by rewrite !lookup_replicate_2 by done.
      * by rewrite !lookup_ge_None_2 by (rewrite length_replicate; lia).
    + intros i p Hi. by apply lookup_replicate in Hi as [? _].
  - intros i p Hi. by apply lookup_replicate in Hi as [? _].
  - by rewrite els_replicate.
  - by rewrite dels_replicate.
  - change (elems ht + deleted ht) with 0. lia.
  - change (elems ht) with 0. lia.
  - exact Hb.
Qed.

End cells.

(** The table reads the hashes of its pointers only. *)
Lemma rep_ext (rehash rehash' : Z -> Z) k ht X : (forall p, p ∈ X -> rehash p = rehash' p) -> rep rehash k ht X -> rep rehash' k ht X.
Proof.
  intros E [[-> ->]|(s & Hs & <-)]; [by left|]. right. exists s. split; [|done].
  assert (E' : forall i p, s !! i = Some (El p) -> rehash p = rehash' p) by (intros i p Hi; apply E, elem_of_list_to_set_disj, elem_of_els; by exists i).
  destruct Hs as [(Ht & Hl & Hm & Hf) Hpath He Hd Hr Hmax Hb]. split; [|intros i p Hi; rewrite <- (E' i p Hi); by apply Hpath|done..].
  split; [|done]. rewrite Ht. f_equal. apply imap_ext. intros i c Hc. destruct c as [| |p]; [done..|]. simpl. unfold entry. by rewrite (E' i p Hc).
Qed.

(** C19. A hash table of pointers with the same highest bit is a multiset of pointers, starting
    with the empty one: adding inserts, unless the table cannot grow, and then it stays as it
    is; deleting takes one out when there is one and says so; a search gives an element that
    passes the test, and when it gives none, no element with the hash passes it; going through
    the slots gives every element; the check of the library passes; and copying copies. *)
Theorem htable_refines (rehash : Z -> Z) (k : Z) (alloc : Z -> bool) :
  2 <= k < 64 -> (forall n, alloc n = true -> n < 2 ^ 34) ->
  rep rehash k htable_init ∅ /\ (forall expect ht, htable_init_sized alloc expect = (true, ht) -> rep rehash k ht ∅) /\
  forall ht X, rep rehash k ht X ->
    (forall p, 2 ^ k <= p < 2 ^ (k + 1) -> exists ok ht', htable_add_ rehash alloc ht (rehash p) p = Ret (ok, ht') /\
       if ok : bool then rep rehash k ht' ({[+ p +]} ⊎ X) else ht' = ht /\ alloc (Z.shiftl 8 (Z.of_nat (bits ht + 1))) = false) /\
    (forall p, exists ht', htable_del_ ht (rehash p) p = Ret (bool_decide (p ∈ X), ht') /\ rep rehash k ht' (X ∖ {[+ p +]})) /\
    (forall h Q, exists c, htable_get ht h Q = Ret c /\
       match c with Some p => p ∈ X /\ Q p = true | None => forall p, p ∈ X -> rehash p = h -> Q p = false end) /\
    (exists l, iterate (S (slots_num ht)) ht (htable_first_ ht) = Ret l /\ list_to_set_disj l = X) /\
    (forall seed, exists c off, htable_pick_ ht seed = Ret (c, off) /\ match c with Some p => p ∈ X | None => X = ∅ end) /\
    htable_check rehash ht = Ret true /\ htable_count ht = Z.of_nat (size X) /\ rep rehash k (htable_clear ht) ∅ /\
    (forall dst, exists ok ht', htable_copy_ alloc dst ht = Ret (ok, ht') /\ ok = alloc (Z.shiftl 8 (Z.of_nat (bits ht))) /\ if ok : bool then rep rehash k ht' X else ht' = dst).
Proof.
  intros Hk Ha. split; [by left|]. split; [intros expect ht; by apply init_sized_ok|]. intros ht X Hrep. split_and!.
  - intros p Hp. destruct (add_ok rehash k Hk alloc Ha ht X p Hrep Hp) as (ok & ht' & H & Hok). exists ok, ht'. split; [done|]. destruct ok; [done|naive_solver].
  - intros p. eapply del_ok; eauto.
  - intros h Q. eapply get_ok; eauto.
  - eapply iterate_ok; eauto.
  - intros seed. eapply pick_ok; eauto.
  - eapply table_check_ok; eauto.
  - eapply count_ok; eauto.
  - by left.
  - intros dst. eapply copy_ok; eauto.
Qed.

Definition some_hash (p : Z) : Z := p * 7919.
Definition below_limit (n : Z) : bool := n <? 2 ^ 34.

Lemma htable_refines_witness : exists ht, 
  ofold (fun ht p => let! (_, ht) := htable_add_ some_hash below_limit ht (some_hash p) p in Ret ht) htable_init [4096; 4104] = Ret ht /\
  htable_check some_hash ht = Ret true /\ htable_count ht = 2.
Proof.
  destruct (htable_refines some_hash 12 below_limit) as (H0 & _ & H); [lia|intros n; apply Z.ltb_lt|].
  destruct (H _ _ H0) as (Hadd & _). destruct (Hadd 4096 ltac:(lia)) as (ok & ht & E & Hr). vm_compute in E. injection E as <- <-.
  destruct (H _ _ Hr) as (Hadd2 & _). destruct (Hadd2 4104 ltac:(lia)) as (ok & ht & E & Hr2). vm_compute in E. injection E as <- <-.
  eexists. split; [vm_compute; reflexivity|]. destruct (H _ _ Hr2) as (_ & _ & _ & _ & _ & Hc & Hn & _). split; [exact Hc|]. exact Hn.
Defined.

(** The comment of [update_common] excludes the pointer 1; the pointers 2 and 3 are lost too,
    when they come first: their highest bit is the perfect one. *)
Lemma small_pointer_lost (p : Z) : p = 2 \/ p = 3 ->
  (let! (ok, ht) := htable_add_ some_hash below_limit htable_init (some_hash p) p in
   let! c := htable_get ht (some_hash p) (Z.eqb p) in let! b := htable_check some_hash ht in Ret (ok, htable_count ht, c, b)) = Ret (true, 1, None, false).
Proof. intros [->| ->]; vm_compute; reflexivity. Qed.
