(* ===== verification/GossipFilter.v ===== *)
(** common/gossip_rcvd_filter.c: the gossip messages that came from a peer, by their hash,
    in two hash tables of pointers, so that they are not sent back; a client of Htable.

    A table is the parent of the keys its pointers point to: they are freed with it. *)
From S2P Require Import Prelude Wire Gossmap Htable HtableProofs.
From stdpp Require Import gmultiset.
Open Scope Z_scope.

(** A table and the keys allocated off it, by address. *)
Record msg_map : Type := MsgMap { ht : htable; keys : gmap Z Z }.
Definition with_ht (m : msg_map) (t : htable) : msg_map := MsgMap t (keys m).

Record gossip_rcvd_filter : Type := Filter { cur : msg_map; old : msg_map }.

(** What a pointer to one of the keys points to. *)
Definition rehash (m : msg_map) (key : Z) : Z := default 0 (keys m !! key).

Definition new_msg_map : msg_map := MsgMap htable_init ∅.
Definition new_gossip_rcvd_filter : gossip_rcvd_filter := Filter new_msg_map new_msg_map.

Section filters.

(** The hash of messages with the seed of the process, the allocator of the tables, and the
    address the next key gets. *)
Context (siphash24 : bytes -> Z) (alloc : Z -> bool) (fresh : gossip_rcvd_filter -> Z).

Definition msg_key (msg : bytes) : Z := siphash24 msg.

Definition extract_msg_key (msg : bytes) : option Z :=
  let type := default (-1) (fromwire_peektype msg) in
  if negb (type =? WIRE_CHANNEL_ANNOUNCEMENT) && negb (type =? WIRE_NODE_ANNOUNCEMENT) && negb (type =? WIRE_CHANNEL_UPDATE) then None
  else Some (msg_key msg).

(** [gossip_rcvd_filter_age]: the old table and its keys are freed. *)
Definition gossip_rcvd_filter_age (f : gossip_rcvd_filter) : gossip_rcvd_filter := Filter new_msg_map (cur f).

Definition gossip_rcvd_filter_add (f : gossip_rcvd_filter) (msg : bytes) : outcome gossip_rcvd_filter :=
  match extract_msg_key msg with
  | None => Ret f
  | Some key =>
      let p := fresh f in
      let m := MsgMap (ht (cur f)) (<[p := key]> (keys (cur f))) in
      let! (_, t) := htable_add_ (rehash m) alloc (ht m) key p in
      let f := Filter (with_ht m t) (old f) in
      Ret (if 10000 <? htable_count t then gossip_rcvd_filter_age f else f)
  end.

Definition msg_map_remove (m : msg_map) (key : Z) : outcome (bool * msg_map) :=
  let! (c, _) := htable_search (ht m) key (fun c => rehash m c =? key) in
  match c with
  | Some c => let! (_, t) := htable_del_ (ht m) key c in Ret (true, MsgMap t (delete c (keys m)))
  | None => Ret (false, m)
  end.

Definition gossip_rcvd_filter_del (f : gossip_rcvd_filter) (msg : bytes) : outcome (bool * gossip_rcvd_filter) :=
  match extract_msg_key msg with
  | None => Ret (false, f)
  | Some key =>
      let! (b, m) := msg_map_remove (cur f) key in
      if b : bool then Ret (true, Filter m (old f))
      else let! (b, m') := msg_map_remove (old f) key in Ret (b, Filter m m')
  end.

(** * The filter keeps two generations of keys *)

Context (k : Z) (Hk : 2 <= k < 64).
(** There is memory for 10001 keys, at addresses with the same highest bit. *)
Hypothesis Hfresh : forall f, Z.of_nat (size (keys (cur f))) <= 10000 -> pointer k (fresh f) /\ keys (cur f) !! fresh f = None.
(** Tables of less than [2 ^ 34] bytes are allocated, and no others. *)
Hypothesis Halloc : forall n, alloc n = true <-> n < 2 ^ 34.

(** The keys that a table holds: [X] are their addresses. *)
Definition msgs (m : msg_map) (K : gmultiset Z) : Prop :=
  exists X, rep (rehash m) k (ht m) X /\ (forall p, p ∈ X -> is_Some (keys m !! p) /\ multiplicity p X = 1%nat) /\ size (keys m) = size X /\ gmultiset_map (rehash m) X = K.

Definition filter_msgs (f : gossip_rcvd_filter) (K O : gmultiset Z) : Prop := msgs (cur f) K /\ msgs (old f) O /\ Z.of_nat (size K) <= 10000.

Lemma new_msgs : msgs new_msg_map ∅.
Proof using Type. clear Halloc Hfresh Hk. exists ∅. split; [by left|]. split; [multiset_solver|]. done. Qed.

Lemma map_ext (g h : Z -> Z) (X : gmultiset Z) : (forall p, p ∈ X -> g p = h p) -> gmultiset_map g X = gmultiset_map h X.
Proof.
  intros E. rewrite !gmultiset_map_alt. f_equal. apply list_fmap_ext. intros i p Hp. apply E. apply gmultiset_elem_of_elements. by eapply list_elem_of_lookup_2.
Qed.

Lemma elem_of_map (g : Z -> Z) (X : gmultiset Z) q : q ∈ gmultiset_map g X <-> exists p, q = g p /\ p ∈ X.
Proof. rewrite gmultiset_map_alt, elem_of_list_to_set_disj, list_elem_of_fmap. by setoid_rewrite gmultiset_elem_of_elements. Qed.

Lemma take_none (K : gmultiset Z) key : key ∉ K -> K ∖ {[+ key +]} = K.
Proof. multiset_solver. Qed.

Lemma map_size (g : Z -> Z) (X : gmultiset Z) : size (gmultiset_map g X) = size X.
Proof. by rewrite gmultiset_map_alt, size_of_list, length_fmap. Qed.

Lemma msgs_size m K : msgs m K -> size (keys m) = size K.
Proof. intros (X & _ & _ & -> & <-). by rewrite map_size. Qed.

(** A new key in a table. *)
Lemma add_msg m K p key : msgs m K -> Z.of_nat (size K) <= 10000 -> pointer k p -> keys m !! p = None ->
  let m' := MsgMap (ht m) (<[p := key]> (keys m)) in
  exists t, htable_add_ (rehash m') alloc (ht m) key p = Ret (true, t) /\ msgs (with_ht m' t) ({[+ key +]} ⊎ K) /\ htable_count t = Z.of_nat (S (size K)).
Proof.
  intros (X & Hrep & HX & Hnum & <-) Hsize Hp Hnew m'.
  assert (Hnot : p ∉ X) by (intros Hin; destruct (HX p Hin) as [[v Hv] _]; congruence).
  assert (Hsame : forall q, q ∈ X -> rehash m q = rehash m' q) by (intros q Hq; unfold rehash, m'; simpl; rewrite lookup_insert_ne; [done|]; by intros ->).
  apply (rep_ext _ (rehash m')) in Hrep; [|done]. assert (Hkey : rehash m' p = key) by (unfold rehash, m'; simpl; by rewrite lookup_insert_eq).
  rewrite map_size in *. destruct (add_ok (rehash m') k Hk alloc (fun n => proj1 (Halloc n)) (ht m) X p Hrep Hp) as (ok & t & Hadd & Hok). rewrite Hkey in Hadd.
  destruct ok.
  - exists t. split; [done|]. split.
    + exists ({[+ p +]} ⊎ X). split; [exact Hok|]. split.
      * intros q Hq. change (keys (with_ht m' t)) with (<[p := key]> (keys m)). destruct (decide (q = p)) as [->|Hne].
        -- rewrite lookup_insert_eq. split; [done|]. rewrite multiplicity_disj_union, multiplicity_singleton. assert (Hz : multiplicity p X = 0%nat) by multiset_solver. by rewrite Hz, decide_True.
        -- rewrite lookup_insert_ne by done. assert (Hq' : q ∈ X) by multiset_solver. destruct (HX q Hq') as [? Hm]. split; [done|]. rewrite multiplicity_disj_union, multiplicity_singleton, decide_False, Hm by done. done.
      * split; [change (keys (with_ht m' t)) with (<[p := key]> (keys m)); by rewrite map_size_insert_None, gmultiset_size_disj_union, gmultiset_size_singleton, Hnum|].
        rewrite gmultiset_map_disj_union, gmultiset_map_singleton. change (rehash (with_ht m' t)) with (rehash m'). rewrite Hkey. f_equal. symmetry. by apply map_ext.
    + rewrite (count_ok _ _ t _ Hok), gmultiset_size_disj_union, gmultiset_size_singleton. done.
  - exfalso. destruct Hok as (-> & Hmax & Hno). rewrite <- not_true_iff_false, Halloc in Hno. pose proof (count_ok _ _ _ _ Hrep) as Hc. unfold htable_count in Hc.
    destruct (maxima (ht m)) as (x & Hx & Hn & Hm & _). assert (Hbig : 2 ^ 30 <= x).
    { rewrite <- Hn. unfold slots_num. rewrite Nat2Z.inj_pow. rewrite Z.shiftl_mul_pow2 in Hno by lia. rewrite Nat2Z.inj_add, Z.pow_add_r in Hno by lia. change (Z.of_nat 2) with 2. change (2 ^ Z.of_nat 1) with 2 in Hno. lia. }
    lia.
Qed.

Lemma remove_msg m K key : msgs m K -> exists m', msg_map_remove m key = Ret (bool_decide (key ∈ K), m') /\ msgs m' (K ∖ {[+ key +]}).
Proof.
  intros (X & Hrep & HX & Hnum & <-). unfold msg_map_remove.
  destruct (get_ok (rehash m) k Hk (ht m) X key (fun c => rehash m c =? key) Hrep) as (c & Hget & Hc). unfold htable_get in Hget. apply obind_ret in Hget as ([c' off] & -> & [= ->]). cbn [obind].
  destruct c as [c|].
  - destruct Hc as [Hin Hkey]. apply Z.eqb_eq in Hkey. destruct (del_ok (rehash m) k Hk (ht m) X c Hrep) as (t & Hdel & Hrep'). rewrite Hkey in Hdel. rewrite Hdel. cbn [obind].
    eexists. rewrite bool_decide_eq_true_2 by (apply elem_of_map; by exists c). split; [done|]. destruct (HX c Hin) as [_ Hone].
    assert (Hgone : c ∉ X ∖ {[+ c +]}) by (intros Hin'; assert (0 < multiplicity c (X ∖ {[+ c +]}))%nat by multiset_solver; rewrite multiplicity_difference, multiplicity_singleton, decide_True in H by done; lia).
    assert (Hsame : forall q, q ∈ X ∖ {[+ c +]} -> rehash m q = rehash (MsgMap t (delete c (keys m))) q) by (intros q Hq; unfold rehash; simpl; rewrite lookup_delete_ne; [done|]; by intros ->).
    exists (X ∖ {[+ c +]}). split; [by apply (rep_ext (rehash m))|]. split.
    + intros q Hq. assert (Hne : c <> q) by (by intros ->). assert (Hq' : q ∈ X) by multiset_solver. destruct (HX q Hq') as [? Hm]. simpl. rewrite lookup_delete_ne by done. split; [done|].
      rewrite multiplicity_difference, multiplicity_singleton, decide_False, Hm by done. done.
    + split.
      { destruct (HX c Hin) as [[v Hv] _]. simpl. rewrite map_size_delete, Hv. rewrite Hnum. rewrite (gmultiset_disj_union_difference' c X Hin) at 1. rewrite gmultiset_size_disj_union, gmultiset_size_singleton. lia. }
      rewrite <- (map_ext (rehash m)) by done. rewrite (gmultiset_disj_union_difference' c X Hin) at 2. rewrite gmultiset_map_disj_union, gmultiset_map_singleton, Hkey. multiset_solver.
  - assert (Hnot : key ∉ gmultiset_map (rehash m) X).
    { intros Hin. apply elem_of_map in Hin as (p & -> & Hp). specialize (Hc p Hp eq_refl). by rewrite Z.eqb_refl in Hc. }
    exists m. rewrite bool_decide_eq_false_2 by done. split; [done|]. exists X. do 3 (split; [done|]). by rewrite take_none.
Qed.

(** C21. The filter keeps the keys of the messages of gossip that came in two generations: an
    addition goes into the current one, which becomes the old one when it has more than 10000
    keys, or when the caller says so; a deletion takes one from the current generation or
    else from the old one, and says whether there was one; other messages change nothing. *)
Theorem filter_refines f K O : filter_msgs f K O ->
  filter_msgs new_gossip_rcvd_filter ∅ ∅ /\ filter_msgs (gossip_rcvd_filter_age f) ∅ K /\
  (forall msg, exists f', gossip_rcvd_filter_add f msg = Ret f' /\
     match extract_msg_key msg with
     | None => f' = f
     | Some key => let K' := {[+ key +]} ⊎ K in if decide (10000 < Z.of_nat (size K')) then filter_msgs f' ∅ K' else filter_msgs f' K' O
     end) /\
  (forall msg, exists b f', gossip_rcvd_filter_del f msg = Ret (b, f') /\
     match extract_msg_key msg with
     | None => b = false /\ f' = f
     | Some key => b = bool_decide (key ∈ K ⊎ O) /\ (if decide (key ∈ K) then filter_msgs f' (K ∖ {[+ key +]}) O else filter_msgs f' K (O ∖ {[+ key +]}))
     end).
Proof.
  intros (HK & HO & Hsize). split; [by repeat split; [apply new_msgs..|]|]. split; [by split; [apply new_msgs|]|]. split.
  - intros msg. unfold gossip_rcvd_filter_add. destruct (extract_msg_key msg) as [key|]; [|by exists f]. destruct (Hfresh f) as [Hp Hnew]; [by rewrite (msgs_size _ _ HK)|].
    destruct (add_msg (cur f) K (fresh f) key HK Hsize Hp Hnew) as (t & Hadd & Hm & Hcount). cbv zeta in *. cbn [ht] in *. rewrite Hadd. cbn [obind]. eexists. split; [done|].
    assert (Hs : size ({[+ key +]} ⊎ K) = S (size K)) by (by rewrite gmultiset_size_disj_union, gmultiset_size_singleton). rewrite Hcount, Hs. case_decide.
    + rewrite (proj2 (Z.ltb_lt _ _)) by lia. split; [apply new_msgs|]. split; [exact Hm|]. rewrite gmultiset_size_empty. lia.
    + rewrite (proj2 (Z.ltb_ge _ _)) by lia. split; [exact Hm|]. split; [done|]. rewrite Hs. lia.
  - intros msg. unfold gossip_rcvd_filter_del. destruct (extract_msg_key msg) as [key|]; [|by exists false, f].
    destruct (remove_msg (cur f) K key HK) as (m & -> & Hm). cbn [obind]. case_bool_decide as HinK.
    + exists true, (Filter m (old f)). split; [done|]. split; [symmetry; apply bool_decide_eq_true_2; multiset_solver|]. rewrite decide_True by done. split; [done|]. split; [done|].
      simpl. assert (size (K ∖ {[+ key +]}) <= size K)%nat by (apply gmultiset_subseteq_size; multiset_solver). lia.
    + destruct (remove_msg (old f) O key HO) as (m' & -> & Hm'). cbn [obind]. eexists _, _. split; [done|]. split; [apply bool_decide_ext; clear -HinK; multiset_solver|]. rewrite decide_False by done.
      split; [|by split]. simpl. by rewrite take_none in Hm.
Qed.

End filters.

(** * An allocator *)

(** The first free one of 10001 addresses. *)
Definition candidates : list Z := seqZ (2 ^ 40) 10001.
Definition first_free (f : gossip_rcvd_filter) : Z := default 0 (head (filter (fun p => keys (cur f) !! p = None) candidates)).

Lemma first_free_ok f : Z.of_nat (size (keys (cur f))) <= 10000 -> pointer 40 (first_free f) /\ keys (cur f) !! first_free f = None.
Proof.
  intros Hsize. unfold first_free. destruct (filter _ candidates) as [|p r] eqn:E.
  - exfalso. assert (Hsub : list_to_set candidates ⊆ (dom (keys (cur f)) : gset Z)).
    { intros p Hp. apply elem_of_list_to_set in Hp. apply elem_of_dom. destruct (keys (cur f) !! p) as [v|] eqn:Ev; [done|].
      assert (Hin : p ∈ filter (fun p => keys (cur f) !! p = None) candidates) by (by apply list_elem_of_filter). rewrite E in Hin. by apply not_elem_of_nil in Hin. }
    apply subseteq_size in Hsub. rewrite size_list_to_set, size_dom in Hsub.
    + unfold candidates in Hsub. rewrite length_seqZ in Hsub. lia.
    + apply NoDup_seqZ.
  - simpl. assert (Hin : p ∈ filter (fun p => keys (cur f) !! p = None) candidates) by (rewrite E; left). apply list_elem_of_filter in Hin as [Hn Hp]. split; [|done].
    apply elem_of_seqZ in Hp. unfold pointer. lia.
Qed.

(** An announcement that came is found once. *)
Lemma filter_refines_witness : let msg := [chr 1; chr 0] in
  exists f f' f'', gossip_rcvd_filter_add (fun _ => 7) below_limit first_free new_gossip_rcvd_filter msg = Ret f /\
    gossip_rcvd_filter_del (fun _ => 7) f msg = Ret (true, f') /\ gossip_rcvd_filter_del (fun _ => 7) f' msg = Ret (false, f'').
Proof.
  intros msg. pose proof (filter_refines (fun _ => 7) below_limit first_free 40 ltac:(lia) first_free_ok (fun n => Z.ltb_lt n _)) as H.
  assert (Ek : extract_msg_key (fun _ => 7) msg = Some 7) by reflexivity.
  destruct (H new_gossip_rcvd_filter ∅ ∅) as (_ & _ & Hadd & _); [split; [apply (new_msgs 40)|]; split; [apply (new_msgs 40)|]; done|].
  destruct (Hadd msg) as (f & Ef & Hf). rewrite Ek in Hf. cbv zeta in Hf. 
  assert (Hs : ~ 10000 < Z.of_nat (size ({[+ 7 +]} ⊎ ∅ : gmultiset Z))) by (intros Hlt; vm_compute in Hlt; discriminate Hlt).
  destruct (decide _) as [|_] in Hf; [contradiction|].
  destruct (H f _ _ Hf) as (_ & _ & _ & Hdel). destruct (Hdel msg) as (b & f' & Ed & Hb). rewrite Ek in Hb. destruct Hb as [-> Hf']. rewrite decide_True in Hf' by multiset_solver.
  destruct (H f' _ _ Hf') as (_ & _ & _ & Hdel'). destruct (Hdel' msg) as (b & f'' & Ed' & Hb). rewrite Ek in Hb. destruct Hb as [-> _].
  exists f, f', f''. split; [exact Ef|]. split; [rewrite Ed; f_equal; f_equal; apply bool_decide_eq_true_2; multiset_solver|]. rewrite Ed'. reflexivity.
Defined.
