(* ===== verification/Tal.v ===== *)
(** ccan/tal: the tree of allocations, where what is freed takes its children with it, and
    the pointers that are given away (ccan/take).

    The memory gives each object its header.  The children of an object hang from a
    property of it, which they point to; NULL stands for the object all others hang from,
    here the address 0.  A list of children is the list of its elements (Clist has the
    pointers).  Callbacks see the object and their own world, and not the tree: they do not
    call tal.  The error function is the default one, so that errors stop the process. *)
From S2P Require Import Prelude.

(** * The operations *)

Definition NOTIFY_IS_DESTRUCTOR : Z := 512.
Definition NOTIFY_EXTRA_ARG : Z := 1024.
Definition TAL_NOTIFY_FREE : Z := 1.
Definition TAL_NOTIFY_STEAL : Z := 2.
Definition TAL_NOTIFY_MOVE : Z := 4.
Definition TAL_NOTIFY_RESIZE : Z := 8.
Definition TAL_NOTIFY_RENAME : Z := 16.
Definition TAL_NOTIFY_ADD_CHILD : Z := 32.
Definition TAL_NOTIFY_DEL_CHILD : Z := 64.
Definition TAL_NOTIFY_ADD_NOTIFIER : Z := 128.
Definition TAL_NOTIFY_DEL_NOTIFIER : Z := 256.

(** [struct prop_hdr], with [struct children] by its address, [struct name], and [struct
    notifier] with its function ([None] once it was called) and its extra argument. *)
Inductive prop_hdr : Type :=
| CHILDREN (c : nat)
| NAME (name : bytes)
| NOTIFIER (types : Z) (fn : option nat) (arg : nat).

(** [struct tal_hdr]: its properties, the literal name that may end them, the children
    property it hangs from, whether it is being destroyed, and what follows the header
    ([None] is a byte that was not set). *)
Record tal_hdr : Type := TalHdr {
  prop : list prop_hdr;
  literal : option bytes;
  parent_child : nat;
  destroying : bool;
  data : list (option ascii) }.

(** [struct children] *)
Record children : Type := Children { parent : nat; siblings : list nat }.

Section tal.

Context {W : Type}.

(** The objects, their children properties, the count of notifiers other than destructors,
    the pointers that were given away, and what callbacks work on. *)
Record tal : Type := Tal {
  hdrs : gmap nat tal_hdr;
  kids : gmap nat children;
  notifiers : Z;
  takenarr : list nat;
  world : W }.

Definition set_hdr (st : tal) (a : nat) (h : tal_hdr) : tal := Tal (<[a := h]> (hdrs st)) (kids st) (notifiers st) (takenarr st) (world st).
Definition set_kids (st : tal) (c : nat) (k : children) : tal := Tal (hdrs st) (<[c := k]> (kids st)) (notifiers st) (takenarr st) (world st).
Definition set_notifiers (st : tal) (n : Z) : tal := Tal (hdrs st) (kids st) n (takenarr st) (world st).
Definition set_taken (st : tal) (l : list nat) : tal := Tal (hdrs st) (kids st) (notifiers st) l (world st).
Definition set_world (st : tal) (w : W) : tal := Tal (hdrs st) (kids st) (notifiers st) (takenarr st) w.
Definition with_prop (h : tal_hdr) (l : list prop_hdr) : tal_hdr := TalHdr l (literal h) (parent_child h) (destroying h) (data h).
Definition with_parent (h : tal_hdr) (c : nat) : tal_hdr := TalHdr (prop h) (literal h) c false (data h).
Definition with_destroying (h : tal_hdr) : tal_hdr := TalHdr (prop h) (literal h) (parent_child h) true (data h).
Definition with_data (h : tal_hdr) (d : list (option ascii)) : tal_hdr := TalHdr (prop h) (literal h) (parent_child h) (destroying h) d.
Definition with_literal (h : tal_hdr) (l : option bytes) : tal_hdr := TalHdr (prop h) l (parent_child h) (destroying h) (data h).

(** [null_parent], at the start. *)
Definition null_parent : tal_hdr := TalHdr [CHILDREN 0] None 0 false [].
Definition tal_start (w : W) : tal := Tal {[0%nat := null_parent]} {[0%nat := Children 0 []]} 0 [] w.

(** [to_tal_hdr_or_null]; a pointer to nothing is an error or worse. *)
Definition to_tal_hdr_or_null (st : tal) (a : nat) : outcome tal_hdr :=
  match hdrs st !! a with Some h => Ret h | None => Abort "Not a valid header" end.
Definition to_tal_hdr (st : tal) (a : nat) : outcome tal_hdr :=
  if (a =? 0)%nat then Abort "Not a valid header" else to_tal_hdr_or_null st a.
Definition children_at (st : tal) (c : nat) : outcome children :=
  match kids st !! c with Some k => Ret k | None => Abort "children: bad pointer" end.

(** What a callback does, given its function, the object, the type of the notification and
    its information; where an allocation is put, and a reallocation. *)
Context (call : nat -> nat -> Z -> nat -> W -> W) (allocfn : tal -> nat) (resizefn : tal -> nat -> Z -> nat).

(** [take] and [taken] of ccan/take *)
Definition take_ (st : tal) (p : nat) : tal := set_taken st (takenarr st ++ [p]).
Fixpoint remove_first (p : nat) (l : list nat) : option (list nat) :=
  match l with
  | [] => None
  | q :: r => if (q =? p)%nat then Some r else match remove_first p r with Some r' => Some (q :: r') | None => None end
  end.
Definition taken (st : tal) (p : nat) : bool * tal :=
  match remove_first p (takenarr st) with Some l => (true, set_taken st l) | None => (false, st) end.
Definition is_taken (st : tal) (p : nat) : bool := existsb (Nat.eqb p) (takenarr st).

Definition notify_type_in (types type : Z) : bool := negb (Z.land types type =? 0)%Z.

(** The loop of [notify]: the properties, with destructors that were called blotted out. *)
Fixpoint notify_loop (ctx : nat) (type : Z) (info : nat) (l : list prop_hdr) (w : W) : outcome (list prop_hdr * W) :=
  match l with
  | [] => Ret ([], w)
  | NOTIFIER types fn arg :: r =>
      if notify_type_in types type then
        match fn with
        | None => Abort "notify: NULL callback"
        | Some f =>
            if notify_type_in types NOTIFY_IS_DESTRUCTOR then
              let w := call f ctx TAL_NOTIFY_FREE (if notify_type_in types NOTIFY_EXTRA_ARG then arg else 0%nat) w in
              let! (r, w) := notify_loop ctx type info r w in Ret (NOTIFIER types None arg :: r, w)
            else
              let w := call f ctx type info w in
              let! (r, w) := notify_loop ctx type info r w in Ret (NOTIFIER types fn arg :: r, w)
        end
      else let! (r, w) := notify_loop ctx type info r w in Ret (NOTIFIER types fn arg :: r, w)
  | p :: r => let! (r, w) := notify_loop ctx type info r w in Ret (p :: r, w)
  end.
Definition notify (st : tal) (ctx : nat) (type : Z) (info : nat) : outcome tal :=
  let! h := to_tal_hdr_or_null st ctx in
  let! (l, w) := notify_loop ctx type info (prop h) (world st) in
  Ret (set_world (set_hdr st ctx (with_prop h l)) w).

(** [find_property] for the children. *)
Fixpoint find_children (l : list prop_hdr) : option nat :=
  match l with [] => None | CHILDREN c :: _ => Some c | _ :: r => find_children r end.

Definition add_child (st : tal) (p child : nat) : outcome tal :=
  let! h := to_tal_hdr_or_null st p in
  let! (c, st) :=
    match find_children (prop h) with
    | Some c => Ret (c, st)
    | None => let c := allocfn st in Ret (c, set_kids (set_hdr st p (with_prop h (CHILDREN c :: prop h))) c (Children p []))
    end in
  let! k := children_at st c in
  let! hc := to_tal_hdr_or_null st child in
  Ret (set_hdr (set_kids st c (Children (parent k) (child :: siblings k))) child (with_parent hc c)).

(** [list_del], of an object from its siblings. *)
Definition list_unlink (st : tal) (a : nat) : outcome tal :=
  let! h := to_tal_hdr st a in
  let! k := children_at st (parent_child h) in
  Ret (set_kids st (parent_child h) (Children (parent k) (filter (.≠ a) (siblings k)))).

(** The end of [del_tree]: the properties and the object. *)
Definition free_props (st : tal) (a : nat) (l : list prop_hdr) : tal :=
  Tal (delete a (hdrs st)) (match find_children l with Some c => delete c (kids st) | None => kids st end) (notifiers st) (takenarr st) (world st).

(** [del_tree], when its children loop is given. *)
Definition del_one (loop : nat -> tal -> outcome tal) (orig a : nat) (st : tal) : outcome tal :=
  let '(b, st) := taken st a in
  let! _ := assert_ (negb b) "del_tree: taken" in
  let! h := to_tal_hdr st a in
  if destroying h then Ret st
  else
    let st := set_hdr st a (with_destroying h) in
    let! st := notify st a TAL_NOTIFY_FREE orig in
    let! h := to_tal_hdr st a in
    let! st := match find_children (prop h) with Some c => loop c st | None => Ret st end in
    let! h := to_tal_hdr st a in
    Ret (free_props st a (prop h)).
(** Its loop, which takes the first child out until there is none. *)
Fixpoint del_children (fuel : nat) (orig c : nat) (st : tal) : outcome tal :=
  match fuel with
  | O => Abort "del_tree: does not end"
  | S fuel =>
      let! k := children_at st c in
      match siblings k with
      | [] => Ret st
      | i :: _ =>
          let! st := list_unlink st i in
          let! st := del_one (del_children fuel orig) orig i st in
          del_children fuel orig c st
      end
  end.
Definition del_tree (st : tal) (a orig : nat) : outcome tal := del_one (del_children (S (size (hdrs st))) orig) orig a st.

Definition notify_if (st : tal) (ctx : nat) (type : Z) (info : nat) : outcome tal :=
  if (notifiers st =? 0)%Z then Ret st else notify st ctx type info.

(** [tal_alloc_] *)
Definition tal_alloc_ (st : tal) (ctx : nat) (sz : Z) (clear : bool) (label : option bytes) : outcome (nat * tal) :=
  let! _ := to_tal_hdr_or_null st ctx in
  let child := allocfn st in
  let st := set_hdr st child (TalHdr [] label 0 false (replicate (Z.to_nat sz) (if clear then Some NUL else None))) in
  let! st := add_child st ctx child in
  let! st := notify_if st ctx TAL_NOTIFY_ADD_CHILD child in
  Ret (child, st).

(** [sizeof(struct tal_hdr)] *)
Definition HDR_SIZE : Z := 40.
Definition adjust_size (sz count : Z) : outcome Z :=
  let! wraps := if (count =? 0)%Z then Ret false else if (sz =? 0)%Z then Abort "division by zero" else Ret (negb (wrap64 (sz * count) / sz =? count)%Z) in
  if wraps : bool then Abort "allocation size overflow"
  else let sz := wrap64 (sz * count) in
       if (wrap64 (sz + HDR_SIZE) <? HDR_SIZE)%Z then Abort "allocation size overflow" else Ret sz.
Definition tal_alloc_arr_ (st : tal) (ctx : nat) (sz count : Z) (clear : bool) (label : option bytes) : outcome (nat * tal) :=
  let! sz := adjust_size sz count in tal_alloc_ st ctx sz clear label.

Definition tal_free (st : tal) (ctx : nat) : outcome tal :=
  if (ctx =? 0)%nat then Ret st
  else
    let! h := to_tal_hdr st ctx in
    if destroying h then Ret st
    else
      let! st := if (notifiers st =? 0)%Z then Ret st else let! k := children_at st (parent_child h) in notify st (parent k) TAL_NOTIFY_DEL_CHILD ctx in
      let! st := list_unlink st ctx in
      del_tree st ctx ctx.

Definition tal_steal_ (st : tal) (new_parent ctx : nat) : outcome tal :=
  if (ctx =? 0)%nat then Ret st
  else
    let! _ := to_tal_hdr_or_null st new_parent in
    let! st := list_unlink st ctx in
    let! st := add_child st new_parent ctx in
    notify_if st ctx TAL_NOTIFY_STEAL new_parent.

(** Notifiers. *)
Definition add_notifier_property (st : tal) (a : nat) (types : Z) (fn arg : nat) : outcome tal :=
  let! h := to_tal_hdr_or_null st a in
  Ret (set_hdr st a (with_prop h (NOTIFIER types (Some fn) arg :: prop h))).
Fixpoint del_notifier_loop (fn : nat) (match_extra_arg : bool) (extra_arg : nat) (l : list prop_hdr) : option (Z * list prop_hdr) :=
  match l with
  | [] => None
  | p :: r =>
      let skip := match del_notifier_loop fn match_extra_arg extra_arg r with Some (t, r) => Some (t, p :: r) | None => None end in
      match p with
      | NOTIFIER types (Some f) arg =>
          if negb (f =? fn)%nat then skip
          else if notify_type_in types NOTIFY_EXTRA_ARG && match_extra_arg && negb (extra_arg =? arg)%nat then skip
          else Some (Z.ldiff types (Z.lor NOTIFY_IS_DESTRUCTOR NOTIFY_EXTRA_ARG), r)
      | _ => skip
      end
  end.
Definition tal_add_destructor_ (st : tal) (ctx destroy : nat) : outcome tal :=
  let! _ := to_tal_hdr st ctx in add_notifier_property st ctx (Z.lor TAL_NOTIFY_FREE NOTIFY_IS_DESTRUCTOR) destroy 0.
Definition tal_add_destructor2_ (st : tal) (ctx destroy arg : nat) : outcome tal :=
  let! _ := to_tal_hdr st ctx in add_notifier_property st ctx (Z.lor (Z.lor TAL_NOTIFY_FREE NOTIFY_IS_DESTRUCTOR) NOTIFY_EXTRA_ARG) destroy arg.
Definition all_types : Z := 511.
Definition tal_add_notifier_ (st : tal) (ctx : nat) (types : Z) (callback : nat) : outcome tal :=
  let! _ := assert_ (negb (types =? 0)%Z) "tal_add_notifier: no types" in
  let! _ := assert_ (Z.ldiff types all_types =? 0)%Z "tal_add_notifier: unknown types" in
  let! st := add_notifier_property st ctx 0 callback 0 in
  let! st := notify_if st ctx TAL_NOTIFY_ADD_NOTIFIER callback in
  let! h := to_tal_hdr_or_null st ctx in
  match prop h with
  | NOTIFIER _ fn arg :: r =>
      let st := set_hdr st ctx (with_prop h (NOTIFIER types fn arg :: r)) in
      Ret (if negb (types =? TAL_NOTIFY_FREE)%Z then set_notifiers st (notifiers st + 1) else st)
  | _ => Abort "tal_add_notifier: no property"
  end.
Definition tal_del_notifier_ (st : tal) (ctx callback : nat) (match_extra_arg : bool) (extra_arg : nat) : outcome (bool * tal) :=
  let! h := to_tal_hdr_or_null st ctx in
  match del_notifier_loop callback match_extra_arg extra_arg (prop h) with
  | Some (types, l) =>
      let st := set_hdr st ctx (with_prop h l) in
      if (types =? 0)%Z then Ret (false, st)
      else
        let! st := notify st ctx TAL_NOTIFY_DEL_NOTIFIER callback in
        Ret (true, if negb (types =? TAL_NOTIFY_FREE)%Z then set_notifiers st (notifiers st - 1) else st)
  | None => Ret (false, st)
  end.
Definition tal_del_destructor_ (st : tal) (ctx destroy : nat) : outcome (bool * tal) := tal_del_notifier_ st ctx destroy false 0.
Definition tal_del_destructor2_ (st : tal) (ctx destroy arg : nat) : outcome (bool * tal) := tal_del_notifier_ st ctx destroy true arg.

(** Names. *)
Fixpoint find_name_prop (l : list prop_hdr) : option bytes :=
  match l with [] => None | NAME s :: _ => Some s | _ :: r => find_name_prop r end.
Fixpoint drop_name (l : list prop_hdr) : list prop_hdr :=
  match l with [] => [] | NAME s :: r => r | p :: r => p :: drop_name r end.
Definition tal_set_name_ (st : tal) (ctx : nat) (name : bytes) (is_lit : bool) : outcome tal :=
  let! h := to_tal_hdr st ctx in
  let h := match find_name_prop (prop h) with Some _ => with_prop h (drop_name (prop h)) | None => with_literal h None end in
  let h := if is_lit && negb (bool_decide (name = [])) then with_literal h (Some name) else with_prop h (NAME name :: prop h) in
  notify_if (set_hdr st ctx h) ctx TAL_NOTIFY_RENAME 0.
Definition tal_name (st : tal) (ctx : nat) : outcome (option bytes) :=
  let! h := to_tal_hdr st ctx in
  Ret (match find_name_prop (prop h) with Some s => Some s | None => literal h end).

Definition tal_bytelen (st : tal) (ptr : nat) : outcome Z := let! h := to_tal_hdr_or_null st ptr in Ret (Z.of_nat (length (data h))).

(** The tree. *)
Definition tal_first (st : tal) (root : nat) : outcome (option nat) :=
  let! h := to_tal_hdr_or_null st root in
  match find_children (prop h) with
  | Some c => let! k := children_at st c in Ret (head (siblings k))
  | None => Ret None
  end.
Fixpoint next_sibling (a : nat) (l : list nat) : option nat :=
  match l with [] => None | b :: r => if (b =? a)%nat then head r else next_sibling a r end.
Definition tal_next (st : tal) (prev : nat) : outcome (option nat) :=
  let! h := to_tal_hdr st prev in
  let! k := children_at st (parent_child h) in
  Ret (next_sibling prev (siblings k)).
Definition tal_parent (st : tal) (ctx : nat) : outcome nat :=
  if (ctx =? 0)%nat then Ret 0%nat
  else let! h := to_tal_hdr st ctx in let! k := children_at st (parent_child h) in Ret (parent k).

(** What follows a header that is resized. *)
Definition resize_data (d : list (option ascii)) (sz : nat) (clear : bool) : list (option ascii) :=
  take sz d ++ replicate (sz - length d) (if clear then Some NUL else None).

(** The header moves: the pointers of its siblings, the pointer of its children to it, and
    whether it was given away. *)
Definition header_moved (st : tal) (old t : nat) (h : tal_hdr) : outcome tal :=
  let st := Tal (<[t := h]> (delete old (hdrs st))) (kids st) (notifiers st) (takenarr st) (world st) in
  let! k := children_at st (parent_child h) in
  let st := set_kids st (parent_child h) (Children (parent k) ((fun a => if (a =? old)%nat then t else a) <$> siblings k)) in
  let '(b, st) := taken st old in
  let st := if b : bool then take_ st t else st in
  match find_children (prop h) with
  | Some c =>
      let! k := children_at st c in
      let! _ := assert_ (parent k =? old)%nat "tal_resize: parent" in
      Ret (set_kids st c (Children t (siblings k)))
  | None => Ret st
  end.

(** [tal_resize_], with the new pointer. *)
Definition tal_resize_ (st : tal) (ctx : nat) (sz count : Z) (clear : bool) : outcome (nat * tal) :=
  let! h := to_tal_hdr st ctx in
  let! sz := adjust_size sz count in
  let t := resizefn st ctx sz in
  let h := with_data h (resize_data (data h) (Z.to_nat sz) clear) in
  let! st :=
    if (t =? ctx)%nat then Ret (set_hdr st ctx h)
    else let! st := header_moved st ctx t h in notify_if st t TAL_NOTIFY_MOVE ctx in
  let! st := notify_if st t TAL_NOTIFY_RESIZE (Z.to_nat sz) in
  Ret (t, st).

(** [memcpy] to an offset in an object. *)
Definition copy_to (st : tal) (a off : nat) (src : list (option ascii)) : outcome tal :=
  let! h := to_tal_hdr st a in
  if (off + length src <=? length (data h))%nat then Ret (set_hdr st a (with_data h (take off (data h) ++ src ++ drop (off + length src) (data h))))
  else Abort "memcpy: out of bounds".

(** A source of bytes: an object, which may be given away, or memory that is not tal's. *)
Definition source (st : tal) (src : nat + list (option ascii)) (n : nat) : outcome (list (option ascii)) :=
  match src with
  | inl a => let! h := to_tal_hdr st a in if (n <=? length (data h))%nat then Ret (take n (data h)) else Abort "memcpy: out of bounds"
  | inr d => if (n <=? length d)%nat then Ret (take n d) else Abort "memcpy: out of bounds"
  end.
Definition take_source (st : tal) (src : nat + list (option ascii)) : bool * tal := match src with inl a => taken st a | inr _ => (false, st) end.

Definition tal_expand_ (st : tal) (ctx : nat) (src : nat + list (option ascii)) (sz count : Z) : outcome (nat * tal) :=
  let! h := to_tal_hdr st ctx in
  let old_len := Z.of_nat (length (data h)) in
  if (wrap64 (old_len + wrap64 (count * sz)) <? old_len)%Z then Abort "dup size overflow"
  else
    let! _ := assert_ (match src with inl a => negb (a =? ctx)%nat | inr _ => true end) "tal_expand: source inside" in
    let! (t, st) := tal_resize_ st ctx sz (old_len / sz + count) false in
    let! d := source st src (Z.to_nat (count * sz)) in
    let! st := copy_to st t (Z.to_nat old_len) d in
    let '(b, st) := take_source st src in
    let! st := match src with inl a => if b : bool then tal_free st a else Ret st | inr _ => Ret st end in
    Ret (t, st).

Definition tal_dup_ (st : tal) (ctx : nat) (p : nat + list (option ascii)) (sz n extra : Z) (label : option bytes) : outcome (nat * tal) :=
  let! nbytes := adjust_size sz n in
  if (wrap64 (n + extra) <? n)%Z then Abort "dup size overflow"
  else
    let '(b, st) := take_source st p in
    match b, p with
    | true, inl a =>
        if (a =? 0)%nat then Ret (0%nat, st)
        else
          let! (t, st) := tal_resize_ st a sz (n + extra) false in
          let! st := tal_steal_ st ctx t in
          Ret (t, st)
    | _, _ =>
        let! (ret, st) := tal_alloc_arr_ st ctx sz (n + extra) false label in
        let! d := source st p (Z.to_nat nbytes) in
        let! st := copy_to st ret 0 d in
        Ret (ret, st)
    end.

(** [check_node]: at most one of each kind, a parent that is the right one, and so for the
    children.  *)
Fixpoint check_props (l : list prop_hdr) (lit : option bytes) (name : bool) (kids : bool) : bool :=
  match l with
  | [] => match lit with Some _ => negb name | None => true end
  | CHILDREN _ :: r => negb kids && check_props r lit name true
  | NOTIFIER _ _ _ :: r => check_props r lit name kids
  | NAME _ :: r => negb name && check_props r lit true kids
  end.
Fixpoint check_node (fuel : nat) (st : tal) (c a : nat) : outcome bool :=
  match fuel with
  | O => Abort "check_node: does not end"
  | S fuel =>
      let! h := to_tal_hdr_or_null st a in
      if negb (parent_child h =? c)%nat then Ret false
      else if negb (check_props (prop h) (literal h) false false) then Ret false
      else match find_children (prop h) with
           | None => Ret true
           | Some c => let! k := children_at st c in oall (check_node fuel st c) (siblings k)
           end
  end.
Definition tal_check (st : tal) (ctx : nat) : outcome bool :=
  let! h := to_tal_hdr_or_null st ctx in check_node (S (size (hdrs st))) st (parent_child h) ctx.

End tal.

Arguments tal : clear implicits.
