(* ===== verification/TalProofs.v ===== *)
(** ccan/tal: the memory of the allocations is a tree, each operation changes it as it
    should, and what is freed is told so once, parents first. *)
From S2P Require Import Prelude Tal.

(** * Trees *)

(** An object, the address of its children property, and its children, youngest first. *)
Inductive tree : Type := Node (a : nat) (c : option nat) (ts : list tree).

Definition root (t : tree) : nat := match t with Node a _ _ => a end.
Fixpoint addrs (t : tree) : list nat := match t with Node a _ ts => a :: concat (addrs <$> ts) end.
Fixpoint props (t : tree) : list nat := match t with Node _ c ts => option_list c ++ concat (props <$> ts) end.
Definition all_addrs (ts : list tree) : list nat := concat (addrs <$> ts).
Definition all_props (ts : list tree) : list nat := concat (props <$> ts).

Lemma tree_induction (P : tree -> Prop) : (forall a c ts, Forall P ts -> P (Node a c ts)) -> forall t, P t.
Proof.
  intros H. fix IH 1. intros [a c ts]. apply H. induction ts as [|t ts IHts]; constructor; [apply IH|exact IHts].
Qed.

Lemma root_in t : root t ∈ addrs t.
Proof. destruct t. left. Qed.

Lemma elem_of_concat_map {A B} (f : A -> list B) l x : x ∈ concat (f <$> l) <-> exists y, y ∈ l /\ x ∈ f y.
Proof.
  induction l as [|y l IH]; cbn; [split; [by intros ?%not_elem_of_nil|by intros (? & ?%not_elem_of_nil & _)]|]. rewrite elem_of_app, IH. split.
  - intros [?|(z & ? & ?)]; [exists y; split; [left|done]|exists z; split; [by right|done]].
  - intros (z & [->|?]%elem_of_cons & ?); [by left|right; by exists z].
Qed.

Lemma all_addrs_in ts t a : t ∈ ts -> a ∈ addrs t -> a ∈ all_addrs ts.
Proof. intros. apply elem_of_concat_map. by exists t. Qed.
Lemma all_props_in ts t a : t ∈ ts -> a ∈ props t -> a ∈ all_props ts.
Proof. intros. apply elem_of_concat_map. by exists t. Qed.
Lemma in_all_addrs ts a : a ∈ all_addrs ts -> exists t, t ∈ ts /\ a ∈ addrs t.
Proof. apply elem_of_concat_map. Qed.
Lemma in_all_props ts a : a ∈ all_props ts -> exists t, t ∈ ts /\ a ∈ props t.
Proof. apply elem_of_concat_map. Qed.

(** A tree without one of its subtrees, and that subtree; and with a new child of one of its
    objects, where [c] is the children property of that object. *)
Fixpoint remove_tree (a : nat) (t : tree) : tree :=
  match t with Node b c ts => Node b c (concat ((fun t => if (root t =? a)%nat then [] else [remove_tree a t]) <$> ts)) end.
Definition remove_list (a : nat) (ts : list tree) : list tree := concat ((fun t => if (root t =? a)%nat then [] else [remove_tree a t]) <$> ts).
Fixpoint subtree (a : nat) (t : tree) : option tree :=
  match t with Node b c ts => if (b =? a)%nat then Some t else foldr (fun t r => match subtree a t with Some s => Some s | None => r end) None ts end.
Definition subtree_list (a : nat) (ts : list tree) : option tree := foldr (fun t r => match subtree a t with Some s => Some s | None => r end) None ts.
Fixpoint insert_tree (p c : nat) (x t : tree) : tree :=
  match t with Node a ca ts => if (a =? p)%nat then Node a (Some c) (x :: ts) else Node a ca (insert_tree p c x <$> ts) end.

Lemma remove_id a t : a ∉ addrs t -> remove_tree a t = t.
Proof.
  induction t as [b c ts IH] using tree_induction. intros Ha. cbn [remove_tree]. f_equal. rewrite Forall_forall in IH.
  assert (Hts : forall t, t ∈ ts -> a ∉ addrs t) by (intros t Ht Hin; apply Ha; right; by eapply all_addrs_in). clear Ha.
  induction ts as [|t ts IHts]; [done|]. cbn. assert (Ht : a ∉ addrs t) by (apply Hts; left). rewrite (proj2 (Nat.eqb_neq (root t) a)) by (intros <-; apply Ht, root_in).
  cbn. rewrite (IH t ltac:(left) Ht). f_equal. apply IHts; intros t' Ht'; [apply IH|apply Hts]; by right.
Qed.

Lemma remove_list_id a ts : a ∉ all_addrs ts -> remove_list a ts = ts.
Proof.
  intros Ha. induction ts as [|t ts IH]; [done|]. cbn. assert (Ht : a ∉ addrs t) by (intros Hin; apply Ha; eapply all_addrs_in; [left|done]).
  rewrite (proj2 (Nat.eqb_neq (root t) a)) by (intros <-; apply Ht, root_in). cbn. rewrite remove_id by done. f_equal. apply IH. intros Hin. apply Ha. apply elem_of_app. by right.
Qed.

Lemma subtree_none a t : a ∉ addrs t -> subtree a t = None.
Proof.
  induction t as [b c ts IH] using tree_induction. intros Ha. cbn [subtree]. rewrite (proj2 (Nat.eqb_neq b a)) by (intros <-; apply Ha; left). rewrite Forall_forall in IH.
  assert (Hts : forall t, t ∈ ts -> a ∉ addrs t) by (intros t Ht Hin; apply Ha; right; by eapply all_addrs_in). clear Ha.
  induction ts as [|t ts IHts]; [done|]. cbn. rewrite (IH t) by (left || apply Hts; left). apply IHts; intros t' Ht'; [apply IH|apply Hts]; by right.
Qed.

Lemma subtree_list_none a ts : a ∉ all_addrs ts -> subtree_list a ts = None.
Proof.
  intros Ha. induction ts as [|t ts IH]; [done|]. cbn. rewrite subtree_none by (intros Hin; apply Ha; eapply all_addrs_in; [left|done]). apply IH. intros Hin. apply Ha. apply elem_of_app. by right.
Qed.

Lemma insert_tree_id p c x t : p ∉ addrs t -> insert_tree p c x t = t.
Proof.
  induction t as [b cb ts IH] using tree_induction. intros Ha. cbn [insert_tree]. rewrite (proj2 (Nat.eqb_neq b p)) by (intros <-; apply Ha; left). f_equal. rewrite Forall_forall in IH.
  assert (Hts : forall t, t ∈ ts -> p ∉ addrs t) by (intros t Ht Hin; apply Ha; right; by eapply all_addrs_in). clear Ha.
  induction ts as [|t ts IHts]; [done|]. cbn. rewrite (IH t) by (left || apply Hts; left). f_equal. apply IHts; intros t' Ht'; [apply IH|apply Hts]; by right.
Qed.

Lemma insert_list_id p c x ts : p ∉ all_addrs ts -> insert_tree p c x <$> ts = ts.
Proof.
  intros Ha. induction ts as [|t ts IH]; [done|]. cbn. rewrite insert_tree_id by (intros Hin; apply Ha; eapply all_addrs_in; [left|done]). f_equal. apply IH. intros Hin. apply Ha. apply elem_of_app. by right.
Qed.

Lemma insert_root p c x t : root (insert_tree p c x t) = root t.
Proof. destruct t as [b cb ts]. cbn. by destruct (b =? p)%nat. Qed.
Lemma remove_root a t : root (remove_tree a t) = root t.
Proof. by destruct t. Qed.

Lemma all_addrs_app ts us : all_addrs (ts ++ us) = all_addrs ts ++ all_addrs us.
Proof. unfold all_addrs. by rewrite fmap_app, concat_app. Qed.
Lemma all_props_app ts us : all_props (ts ++ us) = all_props ts ++ all_props us.
Proof. unfold all_props. by rewrite fmap_app, concat_app. Qed.

(** The child that an object of a forest is in. *)
Lemma find_child ts a : a ∈ all_addrs ts -> NoDup (all_addrs ts) -> exists ts1 t ts2, ts = ts1 ++ t :: ts2 /\ a ∈ addrs t /\ a ∉ all_addrs ts1 /\ a ∉ all_addrs ts2.
Proof.
  intros Ha Hnd. apply in_all_addrs in Ha as (t & Ht & Ha). apply list_elem_of_split in Ht as (ts1 & ts2 & ->). exists ts1, t, ts2. split; [done|]. split; [done|].
  rewrite all_addrs_app in Hnd. apply NoDup_app in Hnd as (_ & Hd1 & Hnd). change (all_addrs (t :: ts2)) with (addrs t ++ all_addrs ts2) in *. apply NoDup_app in Hnd as (_ & Hd2 & _). split.
  - intros Hin. apply (Hd1 a Hin). apply elem_of_app. by left.
  - by apply Hd2.
Qed.

Lemma remove_list_app a ts us : remove_list a (ts ++ us) = remove_list a ts ++ remove_list a us.
Proof. unfold remove_list. by rewrite fmap_app, concat_app. Qed.

Lemma remove_list_at a ts1 t ts2 : a ∉ all_addrs ts1 -> a ∉ all_addrs ts2 ->
  remove_list a (ts1 ++ t :: ts2) = ts1 ++ (if (root t =? a)%nat then [] else [remove_tree a t]) ++ ts2.
Proof.
  intros H1 H2. rewrite remove_list_app. change (remove_list a (t :: ts2)) with ((if (root t =? a)%nat then [] else [remove_tree a t]) ++ remove_list a ts2). by rewrite !remove_list_id.
Qed.

(** * Memories *)

(** A notifier that can be called: a destructor, or one of the types of the interface. *)
Definition good_prop (p : prop_hdr) : Prop :=
  match p with
  | NOTIFIER types fn _ => is_Some fn /\ (types = 513 \/ types = 1537 \/ Z.ldiff types all_types = 0)%Z
  | _ => True
  end.

Section proofs.

Context {W : Type} (call : nat -> nat -> Z -> nat -> W -> W).

Definition good_hdr (h : tal_hdr) : Prop := destroying h = false /\ Forall good_prop (prop h) /\ check_props (prop h) (literal h) false false = true.

Inductive grows (st : tal W) : tree -> Prop :=
| Grows a c ts h :
    hdrs st !! a = Some h -> good_hdr h -> find_children (prop h) = c ->
    match c with Some c => kids st !! c = Some (Children a (root <$> ts)) | None => ts = [] end ->
    Forall (fun t => exists ht, hdrs st !! root t = Some ht /\ Some (parent_child ht) = c) ts ->
    Forall (grows st) ts -> grows st (Node a c ts).

(** Only the memory of the tree matters. *)
Lemma grows_ext st st' t : (forall a, a ∈ addrs t -> hdrs st' !! a = hdrs st !! a) -> (forall c, c ∈ props t -> kids st' !! c = kids st !! c) -> grows st t -> grows st' t.
Proof.
  revert t. induction t as [a c ts IH] using tree_induction. intros Ha Hc Hg. inversion Hg as [? ? ? h Hh Hgood Hf Hk Hp Hts]; subst.
  apply Grows with (h := h); [rewrite Ha; [done|left]|done|done| | |].
  - destruct (find_children (prop h)) as [c|] eqn:E; [|done]. rewrite Hc; [done|]. simpl. left.
  - rewrite Forall_forall in Hp |- *. intros t Ht. destruct (Hp t Ht) as (ht & Hht & Hpc). exists ht. split; [|done]. rewrite Ha; [done|]. right. eapply all_addrs_in; [exact Ht|apply root_in].
  - rewrite Forall_forall in IH, Hts |- *. intros t Ht. apply (IH t Ht); [| |by apply Hts].
    + intros x Hx. apply Ha. right. eapply all_addrs_in; [exact Ht|done].
    + intros x Hx. apply Hc. simpl. apply elem_of_app. right. eapply all_props_in; [exact Ht|done].
Qed.

(** ** Notifications *)

(** What the callbacks of a list of properties do. *)
Definition fire1 (ctx : nat) (type : Z) (info : nat) (w : W) (p : prop_hdr) : W :=
  match p with
  | NOTIFIER types (Some f) arg =>
      if notify_type_in types type then
        if notify_type_in types NOTIFY_IS_DESTRUCTOR then call f ctx TAL_NOTIFY_FREE (if notify_type_in types NOTIFY_EXTRA_ARG then arg else 0%nat) w
        else call f ctx type info w
      else w
  | _ => w
  end.
Definition fire (ctx : nat) (type : Z) (info : nat) (l : list prop_hdr) (w : W) : W := foldl (fire1 ctx type info) w l.

(** The properties afterwards. *)
Definition blot (type : Z) (p : prop_hdr) : prop_hdr :=
  match p with
  | NOTIFIER types fn arg => if notify_type_in types type && notify_type_in types NOTIFY_IS_DESTRUCTOR then NOTIFIER types None arg else p
  | _ => p
  end.

Lemma notify_loop_spec ctx type info l w : Forall good_prop l -> notify_loop call ctx type info l w = Ret (blot type <$> l, fire ctx type info l w).
Proof.
  intros Hl. revert w. induction Hl as [|p l Hp Hl IH]; intros w; [done|]. destruct p as [c|s|types fn arg]; cbn [notify_loop].
  1,2: by rewrite IH.
  destruct Hp as [[f ->] _]. unfold fire. cbn [fmap list_fmap foldl fire1 blot]. fold (fire ctx type info l).
  destruct (notify_type_in types type); [destruct (notify_type_in types NOTIFY_IS_DESTRUCTOR)|]; rewrite IH; done.
Qed.

Lemma blot_children type l : find_children (blot type <$> l) = find_children l.
Proof. induction l as [|[c|s|types fn arg] l IH]; [done|done|exact IH|]. cbn. destruct (_ && _); exact IH. Qed.

(** Notifications other than of the end leave the properties alone. *)
Definition quiet_type (type : Z) : Prop := In type [TAL_NOTIFY_STEAL; TAL_NOTIFY_MOVE; TAL_NOTIFY_RESIZE; TAL_NOTIFY_RENAME; TAL_NOTIFY_ADD_CHILD; TAL_NOTIFY_DEL_CHILD; TAL_NOTIFY_ADD_NOTIFIER; TAL_NOTIFY_DEL_NOTIFIER].

Lemma quiet_blot type l : quiet_type type -> Forall good_prop l -> blot type <$> l = l.
Proof.
  intros Ht Hl. induction Hl as [|p l Hp Hl IH]; [done|]. cbn. rewrite IH. f_equal. destruct p as [c|s|types fn arg]; [done..|]. simpl.
  destruct Hp as [_ [->|[->|Hz]]].
  1,2: repeat (destruct Ht as [<-|Ht]; [reflexivity|]); destruct Ht.
  assert (Hd : notify_type_in types NOTIFY_IS_DESTRUCTOR = false); [|by rewrite Hd, andb_false_r].
  unfold notify_type_in. apply negb_false_iff, Z.eqb_eq. apply Z.bits_inj'. intros n Hn. rewrite Z.bits_0, Z.land_spec. apply (f_equal (fun z => Z.testbit z n)) in Hz. rewrite Z.ldiff_spec, Z.bits_0 in Hz.
  change NOTIFY_IS_DESTRUCTOR with (2 ^ 9)%Z. rewrite Z.pow2_bits_eqb by lia. destruct (Z.eqb_spec 9 n) as [<-|]; [|apply andb_false_r]. change (Z.testbit all_types 9) with false in Hz. simpl in Hz. by rewrite andb_true_r in Hz |- *.
Qed.

Lemma notify_quiet st ctx type info h : quiet_type type -> hdrs st !! ctx = Some h -> Forall good_prop (prop h) ->
  exists w, notify call st ctx type info = Ret (set_world st w).
Proof.
  intros Ht Hh Hg. unfold notify, to_tal_hdr_or_null. rewrite Hh. cbn [obind]. rewrite notify_loop_spec by done. cbn [obind]. rewrite quiet_blot by done. eexists. f_equal.
  unfold set_hdr. assert (E : with_prop h (prop h) = h) by (by destruct h). rewrite E, insert_id by done. by destruct st.
Qed.

Lemma notify_if_quiet st ctx type info h : quiet_type type -> hdrs st !! ctx = Some h -> Forall good_prop (prop h) ->
  exists w, notify_if call st ctx type info = Ret (set_world st w).
Proof.
  intros Ht Hh Hg. unfold notify_if. destruct (_ =? _)%Z; [|by eapply notify_quiet]. exists (world st). by destruct st.
Qed.

(** ** Freeing *)

(** What the callbacks of a tree that is freed do: those of the root first, then those of
    its children, youngest first. *)
Fixpoint farewell (H : gmap nat tal_hdr) (orig : nat) (t : tree) (w : W) : W :=
  match t with
  | Node a _ ts => foldl (fun w t => farewell H orig t w) (fire a TAL_NOTIFY_FREE orig (match H !! a with Some h => prop h | None => [] end) w) ts
  end.

Lemma foldl_same {A B} (f g : A -> B -> A) l a : (forall a x, x ∈ l -> f a x = g a x) -> foldl f a l = foldl g a l.
Proof.
  revert a. induction l as [|x l IH]; intros a H; [done|]. cbn. rewrite H by left. apply IH. intros b y Hy. apply H. by right.
Qed.

Lemma farewell_ext H H' orig t w : (forall a, a ∈ addrs t -> H' !! a = H !! a) -> farewell H' orig t w = farewell H orig t w.
Proof.
  revert w. induction t as [a c ts IH] using tree_induction. intros w E. cbn [farewell]. rewrite E by left. apply foldl_same. intros w' t Ht. rewrite Forall_forall in IH.
  apply (IH t Ht). intros x Hx. apply E. right. by eapply all_addrs_in.
Qed.

Definition freed (st st' : tal W) (As Cs : list nat) (w : W) : Prop :=
  (forall x, hdrs st' !! x = if decide (x ∈ As) then None else hdrs st !! x) /\
  (forall x, kids st' !! x = if decide (x ∈ Cs) then None else kids st !! x) /\
  notifiers st' = notifiers st /\ takenarr st' = takenarr st /\ world st' = w.

Definition loose (st : tal W) (As : list nat) : Prop := forall a, a ∈ As -> a ∉ takenarr st /\ a <> 0%nat.

Lemma not_taken (st : tal W) a : a ∉ takenarr st -> taken st a = (false, st).
Proof.
  intros H. unfold taken. assert (E : remove_first a (takenarr st) = None); [|by rewrite E]. induction (takenarr st) as [|b l IH]; [done|]. cbn.
  destruct (Nat.eqb_spec b a) as [->|]; [by destruct H; left|]. rewrite IH; [done|]. intros Hin. apply H. by right.
Qed.

Lemma filter_ne (a : nat) (l : list nat) : a ∉ l -> filter (.≠ a) l = l.
Proof.
  induction l as [|b l IH]; [done|]. intros H. rewrite list.filter_cons_True by (intros ->; apply H; left). f_equal. apply IH. intros Hin. apply H. by right.
Qed.

Definition frees (t : tree) : Prop := forall st fuel orig,
  grows st t -> NoDup (addrs t) -> NoDup (props t) -> loose st (addrs t) -> (length (addrs t) <= fuel)%nat ->
  exists st', del_one call (del_children call fuel orig) orig (root t) st = Ret st' /\ freed st st' (addrs t) (props t) (farewell (hdrs st) orig t (world st)).

Lemma to_hdr (st : tal W) a h : hdrs st !! a = Some h -> a <> 0%nat -> to_tal_hdr st a = Ret h.
Proof. intros Hh Ha. unfold to_tal_hdr, to_tal_hdr_or_null. rewrite (proj2 (Nat.eqb_neq _ _)) by done. by rewrite Hh. Qed.

Lemma unlink_first (st : tal W) t ts c a ht : kids st !! c = Some (Children a (root <$> t :: ts)) -> hdrs st !! root t = Some ht -> parent_child ht = c -> root t <> 0%nat ->
  NoDup (all_addrs (t :: ts)) -> list_unlink st (root t) = Ret (set_kids st c (Children a (root <$> ts))).
Proof.
  intros Hk Hh Hp H0 Hnd. unfold list_unlink. rewrite (to_hdr st _ ht) by done. cbn [obind]. unfold children_at. rewrite Hp, Hk. cbn [obind parent siblings fmap list_fmap]. do 3 f_equal.
  rewrite list.filter_cons_False by (intros H; by apply H). apply filter_ne. intros Hin. apply list_elem_of_fmap in Hin as (t' & E & Ht'). apply NoDup_app in Hnd as (_ & Hd & _).
  apply (Hd (root t)); [apply root_in|]. eapply all_addrs_in; [exact Ht'|]. rewrite E. apply root_in.
Qed.

Lemma del_children_spec orig ts : Forall frees ts -> forall st fuel c a,
  kids st !! c = Some (Children a (root <$> ts)) -> Forall (fun t => exists ht, hdrs st !! root t = Some ht /\ parent_child ht = c) ts -> Forall (grows st) ts ->
  NoDup (all_addrs ts) -> NoDup (all_props ts) -> c ∉ all_props ts -> loose st (all_addrs ts) -> (length (all_addrs ts) < fuel)%nat ->
  exists st', del_children call fuel orig c st = Ret st' /\
    freed (set_kids st c (Children a [])) st' (all_addrs ts) (all_props ts) (foldl (fun w t => farewell (hdrs st) orig t w) (world st) ts).
Proof.
  induction 1 as [|t ts Ht Hts IH]; intros st fuel c a Hk Hp Hg Hna Hnp Hc Hl Hfuel; (destruct fuel as [|fuel]; [lia|]); cbn [del_children]; unfold children_at; rewrite Hk; cbn [obind siblings fmap list_fmap].
  { exists st. split; [done|]. split; [done|]. split; [|done]. intros x. cbn. destruct (decide (x = c)) as [->|]; [by rewrite lookup_insert_eq|by rewrite lookup_insert_ne]. }
  apply Forall_cons in Hp as [(ht & Hht & Hpc) Hp]. apply Forall_cons in Hg as [Hgt Hg]. pose proof (NoDup_app (addrs t) (all_addrs ts)) as HA. pose proof (NoDup_app (props t) (all_props ts)) as HC.
  destruct (proj1 HA Hna) as (Hna1 & Hda & Hna2). destruct (proj1 HC Hnp) as (Hnp1 & Hdc & Hnp2). change (all_addrs (t :: ts)) with (addrs t ++ all_addrs ts) in *. change (all_props (t :: ts)) with (props t ++ all_props ts) in *.
  rewrite elem_of_app in Hc. rewrite length_app in Hfuel.
  assert (Hl1 : loose st (addrs t)) by (intros x Hx; apply Hl, elem_of_app; by left). assert (Hl2 : loose st (all_addrs ts)) by (intros x Hx; apply Hl, elem_of_app; by right).
  assert (Hlen : (0 < length (addrs t))%nat) by (destruct t; simpl; lia).
  rewrite (unlink_first st t ts c a ht Hk Hht Hpc) by (apply (Hl1 _ (root_in t)) || done). cbn [obind]. set (st1 := set_kids st c _).
  assert (Hg1 : grows st1 t) by (eapply grows_ext; [| |exact Hgt]; [done|]; intros x Hx; simpl; rewrite lookup_insert_ne; [done|]; intros ->; naive_solver).
  destruct (Ht st1 fuel orig Hg1 Hna1 Hnp1 Hl1 ltac:(lia)) as (st2 & -> & (Hh2 & Hk2 & Hn2 & Ht2 & Hw2)). cbn [obind].
  destruct (IH st2 fuel c a) as (st3 & -> & (Hh3 & Hk3 & Hn3 & Ht3 & Hw3)); [| | |done|done|naive_solver| |lia|].
  - rewrite Hk2, decide_False by naive_solver. simpl. by rewrite lookup_insert_eq.
  - rewrite Forall_forall in Hp |- *. intros t' Ht'. destruct (Hp t' Ht') as (ht' & Hh' & Hp'). exists ht'. split; [|done]. rewrite Hh2, decide_False; [done|]. intros Hin. apply (Hda _ Hin). eapply all_addrs_in; [exact Ht'|apply root_in].
  - rewrite Forall_forall in Hg |- *. intros t' Ht'. apply (grows_ext st); [| |by apply Hg].
    + intros x Hx. rewrite Hh2, decide_False; [done|]. intros Hin. apply (Hda _ Hin). by eapply all_addrs_in.
    + intros x Hx. rewrite Hk2, decide_False; [|intros Hin; apply (Hdc _ Hin); by eapply all_props_in]. simpl. rewrite lookup_insert_ne; [done|]. intros ->. apply Hc. right. by eapply all_props_in.
  - intros x Hx. rewrite Ht2. by apply Hl2.
  - exists st3. split; [done|]. split_and!.
    + intros x. rewrite Hh3. cbn. destruct (decide (x ∈ all_addrs ts)); [by rewrite decide_True by (apply elem_of_app; by right)|]. rewrite Hh2. cbn.
      destruct (decide (x ∈ addrs t)); [by rewrite decide_True by (apply elem_of_app; by left)|]. rewrite decide_False; [done|]. rewrite elem_of_app. naive_solver.
    + intros x. rewrite Hk3. cbn. destruct (decide (x ∈ all_props ts)) as [Hin|Hin]; [by rewrite decide_True by (apply elem_of_app; by right)|].
      destruct (decide (x = c)) as [->|Hne].
      * rewrite !lookup_insert_eq. rewrite decide_False; [done|]. by rewrite elem_of_app.
      * rewrite !lookup_insert_ne by done. rewrite Hk2. cbn. rewrite lookup_insert_ne by done. destruct (decide (x ∈ props t)); [by rewrite decide_True by (apply elem_of_app; by left)|].
        rewrite decide_False; [done|]. rewrite elem_of_app. naive_solver.
    + by rewrite Hn3.
    + by rewrite Ht3.
    + rewrite Hw3, Hw2. cbn [foldl]. apply foldl_same. intros w t' Ht'. apply farewell_ext. intros x Hx. rewrite Hh2, decide_False; [done|]. intros Hin. apply (Hda _ Hin). by eapply all_addrs_in.
Qed.

Lemma del_one_spec t : frees t.
Proof.
  induction t as [a c ts IH] using tree_induction. intros st fuel orig Hg Hna Hnp Hl Hfuel. inversion Hg as [? ? ? h Hh [Hd [Hgood Hcp]] Hf Hk Hp Hts]; subst.
  destruct (Hl a ltac:(left)) as [Htk H0]. unfold del_one. cbn [root]. rewrite not_taken by done. cbn [assert_ negb obind]. rewrite (to_hdr st a h) by done. cbn [obind]. rewrite Hd.
  set (st1 := set_hdr st a (with_destroying h)). unfold notify, to_tal_hdr_or_null. assert (Hh1 : hdrs st1 !! a = Some (with_destroying h)) by (simpl; by rewrite lookup_insert_eq). rewrite Hh1. cbn [obind].
  rewrite notify_loop_spec by done. cbn [obind]. change (prop (with_destroying h)) with (prop h). change (world st1) with (world st). set (w1 := fire _ _ _ _ _).
  set (h2 := with_prop _ _). set (st2 := set_world _ _).
  assert (Hh2 : forall x, hdrs st2 !! x = if decide (x = a) then Some h2 else hdrs st !! x).
  { intros x. simpl. case_decide as E; [subst; by rewrite lookup_insert_eq|]. by rewrite !lookup_insert_ne. }
  rewrite (to_hdr st2 a h2) by (done || by rewrite Hh2, decide_True). cbn [obind]. change (prop h2) with (blot TAL_NOTIFY_FREE <$> prop h). rewrite blot_children.
  apply NoDup_cons in Hna as [Ha Hna]. assert (Hl2 : loose st2 (all_addrs ts)) by (intros x Hx; apply Hl; by right).
  assert (Hg2 : Forall (grows st2) ts).
  { rewrite Forall_forall in Hts |- *. intros t Ht. apply (grows_ext st); [|done|by apply Hts]. intros x Hx. rewrite Hh2, decide_False; [done|]. intros ->. apply Ha. by eapply all_addrs_in. }
  assert (Hw : forall w, foldl (fun w t => farewell (hdrs st2) orig t w) w ts = foldl (fun w t => farewell (hdrs st) orig t w) w ts).
  { intros w. apply foldl_same. intros w' t Ht. apply farewell_ext. intros x Hx. rewrite Hh2, decide_False; [done|]. intros ->. apply Ha. by eapply all_addrs_in. }
  destruct (find_children (prop h)) as [c|] eqn:Ec.
  - simpl in Hnp. apply NoDup_cons in Hnp as [Hc Hnp].
    destruct (del_children_spec orig ts IH st2 fuel c a) as (st3 & -> & (Hh3 & Hk3 & Hn3 & Ht3 & Hw3)); [done| |done|done|done|done|done|simpl in Hfuel; unfold all_addrs; lia|].
    { rewrite Forall_forall in Hp |- *. intros t Ht. destruct (Hp t Ht) as (ht & Hht & [= Hpc]). exists ht. split; [|done]. rewrite Hh2, decide_False; [done|]. intros <-. apply Ha. eapply all_addrs_in; [exact Ht|apply root_in]. }
    cbn [obind]. assert (Hh3a : hdrs st3 !! a = Some h2) by (rewrite Hh3, decide_False by done; simpl; by rewrite Hh2, decide_True). rewrite (to_hdr st3 a h2) by done. cbn [obind].
    eexists. split; [done|]. unfold free_props. change (prop h2) with (blot TAL_NOTIFY_FREE <$> prop h). rewrite blot_children, Ec. split_and!; cbn.
    + intros x. destruct (decide (x = a)) as [->|Hne]; [rewrite lookup_delete_eq, decide_True by left; done|]. rewrite lookup_delete_ne, Hh3 by done. cbn. change (concat (addrs <$> ts)) with (all_addrs ts).
      destruct (decide (x ∈ all_addrs ts)); [by rewrite decide_True by (by right)|]. rewrite decide_False by (rewrite elem_of_cons; naive_solver). by rewrite !lookup_insert_ne.
    + intros x. change (concat (props <$> ts)) with (all_props ts). destruct (decide (x = c)) as [->|Hne]; [rewrite lookup_delete_eq, decide_True by left; done|]. rewrite lookup_delete_ne, Hk3 by done. cbn. rewrite lookup_insert_ne by done.
      destruct (decide (x ∈ all_props ts)); [by rewrite decide_True by (by right)|]. by rewrite decide_False by (rewrite elem_of_cons; naive_solver).
    + exact Hn3.
    + exact Ht3.
    + rewrite Hw3. cbn [farewell]. rewrite Hh, Hw. done.
  - subst ts. cbn [obind]. rewrite (to_hdr st2 a h2) by (done || by rewrite Hh2, decide_True). cbn [obind]. eexists. split; [done|]. unfold free_props. change (prop h2) with (blot TAL_NOTIFY_FREE <$> prop h). rewrite blot_children, Ec. split_and!; cbn.
    + intros x. destruct (decide (x = a)) as [->|Hne]; [rewrite lookup_delete_eq, decide_True by left; done|]. rewrite lookup_delete_ne, !lookup_insert_ne by done. rewrite decide_False; [done|]. rewrite elem_of_cons, elem_of_nil. naive_solver.
    + intros x. by rewrite decide_False by apply not_elem_of_nil.
    + done.
    + done.
    + by rewrite Hh.
Qed.

(** ** Taking a subtree out *)

(** The parts of a list of properties that are without repetition. *)
Lemma props_split ts1 t ts2 : NoDup (all_props (ts1 ++ t :: ts2)) -> NoDup (props t) /\ forall c, c ∈ props t -> c ∉ all_props ts1 /\ c ∉ all_props ts2.
Proof.
  rewrite all_props_app. change (all_props (t :: ts2)) with (props t ++ all_props ts2). intros (_ & Hd1 & (Hnd & Hd2 & _)%NoDup_app)%NoDup_app. split; [done|]. intros c Hc. split; [|by apply Hd2].
  intros Hin. apply (Hd1 c Hin). apply elem_of_app. by left.
Qed.
Lemma addrs_split ts1 t ts2 : NoDup (all_addrs (ts1 ++ t :: ts2)) -> NoDup (addrs t) /\ forall c, c ∈ addrs t -> c ∉ all_addrs ts1 /\ c ∉ all_addrs ts2.
Proof.
  rewrite all_addrs_app. change (all_addrs (t :: ts2)) with (addrs t ++ all_addrs ts2). intros (_ & Hd1 & (Hnd & Hd2 & _)%NoDup_app)%NoDup_app. split; [done|]. intros c Hc. split; [|by apply Hd2].
  intros Hin. apply (Hd1 c Hin). apply elem_of_app. by left.
Qed.

Lemma grows_list_ext st st' ts : (forall a, a ∈ all_addrs ts -> hdrs st' !! a = hdrs st !! a) -> (forall c, c ∈ all_props ts -> kids st' !! c = kids st !! c) -> Forall (grows st) ts -> Forall (grows st') ts.
Proof.
  rewrite !Forall_forall. intros Ha Hc Hg t Ht. apply (grows_ext st); [| |by apply Hg]; intros x Hx; [apply Ha|apply Hc]; [by eapply all_addrs_in|by eapply all_props_in].
Qed.

Definition cut (st : tal W) (a : nat) (t s : tree) (c p : nat) (l : list nat) : Prop :=
  subtree a t = Some s /\ root s = a /\ (exists h, hdrs st !! a = Some h /\ parent_child h = c) /\ c ∈ props t /\ c ∉ props s /\ kids st !! c = Some (Children p l) /\
  addrs t ≡ₚ addrs (remove_tree a t) ++ addrs s /\ props t ≡ₚ props (remove_tree a t) ++ props s /\
  grows (set_kids st c (Children p (filter (.≠ a) l))) (remove_tree a t) /\ grows st s.

Lemma filter_roots a ts1 t ts2 : root t = a -> a ∉ all_addrs ts1 -> a ∉ all_addrs ts2 -> filter (.≠ a) (root <$> ts1 ++ t :: ts2) = root <$> ts1 ++ ts2.
Proof.
  intros Hr H1 H2. assert (G : forall ts, a ∉ all_addrs ts -> a ∉ root <$> ts).
  { intros ts H Hin. apply list_elem_of_fmap in Hin as (t' & -> & Ht'). apply H. eapply all_addrs_in; [exact Ht'|apply root_in]. }
  rewrite !fmap_app, list.filter_app, (filter_ne _ (root <$> ts1)) by (by apply G). f_equal. cbn [fmap list_fmap]. rewrite list.filter_cons_False by (rewrite Hr; intros H; by apply H). by apply filter_ne, G.
Qed.

Lemma cut_spec st a t : grows st t -> NoDup (addrs t) -> NoDup (props t) -> a ∈ addrs t -> a <> root t -> exists s c p l, cut st a t s c p l.
Proof.
  revert a. induction t as [b cb ts IH] using tree_induction. intros a Hg Hna Hnp Ha Hroot. inversion Hg as [? ? ? h Hh Hgood Hf Hk Hp Hts]; subst. cbn [root] in Hroot.
  apply elem_of_cons in Ha as [->|Ha]; [done|]. apply NoDup_cons in Hna as [Hb Hna]. change (concat (addrs <$> ts)) with (all_addrs ts) in *.
  destruct (find_children (prop h)) as [cb|] eqn:Ec; [|subst ts; by apply not_elem_of_nil in Ha]. simpl in Hnp. apply NoDup_cons in Hnp as [Hcb Hnp]. change (concat (props <$> ts)) with (all_props ts) in *.
  destruct (find_child ts a Ha Hna) as (ts1 & t & ts2 & -> & Hat & Ha1 & Ha2). destruct (addrs_split _ _ _ Hna) as [Hnat Hdat]. destruct (props_split _ _ _ Hnp) as [Hnpt Hdpt].
  rewrite !Forall_app, !Forall_cons in *. destruct Hp as (Hp1 & (ht & Hht & [= Hpt]) & Hp2). destruct Hts as (Hg1 & Hgt & Hg2). destruct IH as (_ & IH & _).
  assert (Hcbt : cb ∉ props t /\ cb ∉ all_props ts1 /\ cb ∉ all_props ts2) by (rewrite all_props_app in Hcb; change (all_props (t :: ts2)) with (props t ++ all_props ts2) in Hcb; rewrite !elem_of_app in Hcb; naive_solver).
  assert (Hsub : subtree a (Node b (Some cb) (ts1 ++ t :: ts2)) = subtree a t \/ root t = a).
  { destruct (decide (root t = a)) as [|Hne]; [by right|]. left. cbn [subtree]. rewrite (proj2 (Nat.eqb_neq b a)) by done. rewrite foldr_app. cbn [foldr]. fold (subtree_list a ts2). rewrite (subtree_list_none a ts2) by done.
    assert (E : forall r, foldr (fun t r => match subtree a t with Some s => Some s | None => r end) r ts1 = r).
    { intros r. assert (Hn : forall t', t' ∈ ts1 -> subtree a t' = None) by (intros t' Ht'; apply subtree_none; intros Hin; apply Ha1; by eapply all_addrs_in).
      clear -Hn. induction ts1 as [|t' ts1 IH]; [done|]. cbn. rewrite (Hn t') by left. apply IH. intros t'' Ht''. apply Hn. by right. }
    rewrite E. by destruct (subtree a t). }
  destruct (decide (a = root t)) as [->|Hne].
  - exists t, cb, b, (root <$> ts1 ++ t :: ts2). split_and!.
    + cbn [subtree]. rewrite (proj2 (Nat.eqb_neq b (root t))) by done. rewrite foldr_app. cbn [foldr]. assert (E : subtree (root t) t = Some t) by (destruct t; cbn; by rewrite Nat.eqb_refl). rewrite E.
      assert (Hn : forall t', t' ∈ ts1 -> subtree (root t) t' = None) by (intros t' Ht'; apply subtree_none; intros Hin; apply Ha1; by eapply all_addrs_in).
      clear -Hn. induction ts1 as [|t' ts1 IH]; [done|]. cbn. rewrite (Hn t') by left. apply IH. intros t'' Ht''. apply Hn. by right.
    + done.
    + by exists ht.
    + simpl. left.
    + apply Hcbt.
    + done.
    + cbn [remove_tree addrs]. fold (remove_list (root t) (ts1 ++ t :: ts2)). rewrite remove_list_at, Nat.eqb_refl by done. cbn [app].
      fold (all_addrs (ts1 ++ ts2)). fold (all_addrs (ts1 ++ t :: ts2)). rewrite !all_addrs_app. change (all_addrs (t :: ts2)) with (addrs t ++ all_addrs ts2). solve_Permutation.
    + cbn [remove_tree props]. fold (remove_list (root t) (ts1 ++ t :: ts2)). rewrite remove_list_at, Nat.eqb_refl by done. cbn [app].
      fold (all_props (ts1 ++ ts2)). fold (all_props (ts1 ++ t :: ts2)). rewrite !all_props_app. change (all_props (t :: ts2)) with (props t ++ all_props ts2). solve_Permutation.
    + cbn [remove_tree]. fold (remove_list (root t) (ts1 ++ t :: ts2)). rewrite remove_list_at, Nat.eqb_refl by done. cbn [app].
      apply Grows with (h := h); [done|done|done|simpl; rewrite lookup_insert_eq; by rewrite filter_roots| |].
      * by rewrite Forall_app.
      * rewrite Forall_app. split; (apply (grows_list_ext st); [done| |done]); intros x Hx; simpl; rewrite lookup_insert_ne; [done| |done|]; intros ->; naive_solver.
    + done.
  - destruct (IH a Hgt Hnat Hnpt Hat Hne) as (s & c & p & l & Hs & Hrs & (hs & Hhs & Hps) & Hc & Hcs & Hkc & HA & HC & Hgr & Hgs). destruct Hsub as [Hsub|?]; [|done].
    assert (Hcc : c <> cb) by (intros ->; naive_solver). destruct (Hdpt c Hc) as [Hc1 Hc2].
    assert (Erem : remove_tree a (Node b (Some cb) (ts1 ++ t :: ts2)) = Node b (Some cb) (ts1 ++ remove_tree a t :: ts2)).
    { cbn [remove_tree]. fold (remove_list a (ts1 ++ t :: ts2)). rewrite remove_list_at by done. by rewrite (proj2 (Nat.eqb_neq (root t) a)) by done. }
    exists s, c, p, l. unfold cut. rewrite Hsub, Erem. split_and!; [done|done|by exists hs| |done|done| | | |done].
    + simpl. right. change (concat (props <$> ts1 ++ t :: ts2)) with (all_props (ts1 ++ t :: ts2)). rewrite all_props_app. change (all_props (t :: ts2)) with (props t ++ all_props ts2). rewrite !elem_of_app. by right; left.
    + cbn [addrs]. fold (all_addrs (ts1 ++ t :: ts2)). fold (all_addrs (ts1 ++ remove_tree a t :: ts2)). rewrite !all_addrs_app. change (all_addrs (t :: ts2)) with (addrs t ++ all_addrs ts2).
      change (all_addrs (remove_tree a t :: ts2)) with (addrs (remove_tree a t) ++ all_addrs ts2). rewrite HA. solve_Permutation.
    + cbn [props]. fold (all_props (ts1 ++ t :: ts2)). fold (all_props (ts1 ++ remove_tree a t :: ts2)). rewrite !all_props_app. change (all_props (t :: ts2)) with (props t ++ all_props ts2).
      change (all_props (remove_tree a t :: ts2)) with (props (remove_tree a t) ++ all_props ts2). rewrite HC. solve_Permutation.
    + apply Grows with (h := h); [done|done|done|simpl; rewrite lookup_insert_ne by done; rewrite Hk; do 2 f_equal; rewrite !fmap_app; cbn; by rewrite remove_root| |].
      * rewrite Forall_app, Forall_cons. split; [done|]. split; [|done]. exists ht. rewrite remove_root. split; [done|by rewrite Hpt].
      * rewrite Forall_app, Forall_cons. split; [|split; [exact Hgr|]]; (apply (grows_list_ext st); [done| |done]); intros x Hx; simpl; rewrite lookup_insert_ne; [done| |done|]; intros ->; naive_solver.
Qed.

(** ** Putting a tree in *)

(** The children property of an object is one of its tree. *)
Lemma grows_prop_in st t p h c : grows st t -> p ∈ addrs t -> hdrs st !! p = Some h -> find_children (prop h) = Some c -> c ∈ props t.
Proof.
  induction t as [a ca ts IH] using tree_induction. intros Hg Hp Hh Hc. inversion Hg as [? ? ? h' Hh' _ Hf _ _ Hts]; subst. apply elem_of_cons in Hp as [->|Hp].
  - rewrite Hh in Hh'. injection Hh' as <-. rewrite Hc. simpl. left.
  - apply in_all_addrs in Hp as (t & Ht & Hp). rewrite Forall_forall in IH, Hts. simpl. apply elem_of_app. right. eapply all_props_in; [exact Ht|]. apply (IH t Ht (Hts t Ht) Hp Hh Hc).
Qed.

Lemma grows_own_kids st t p h c : grows st t -> p ∈ addrs t -> hdrs st !! p = Some h -> find_children (prop h) = Some c -> exists l, kids st !! c = Some (Children p l).
Proof.
  intros Hgt Hp Hhp Ec. induction t as [a ca ts IH] using tree_induction. inversion Hgt as [? ? ? h' Hh _ Hf Hk _ Hts]; subst. apply elem_of_cons in Hp as [->|Hp].
  - rewrite Hhp in Hh. injection Hh as <-. rewrite Ec in Hk. by eexists.
  - apply in_all_addrs in Hp as (t & Ht & Hp). rewrite Forall_forall in IH, Hts. by apply (IH t Ht (Hts t Ht)).
Qed.

Lemma insert_spec st st' p c x hp hp' t :
  hdrs st !! p = Some hp -> hdrs st' !! p = Some hp' -> good_hdr hp' -> find_children (prop hp') = Some c -> parent_child hp' = parent_child hp ->
  match find_children (prop hp) with
  | Some c' => c' = c /\ exists l, kids st !! c = Some (Children p l) /\ kids st' !! c = Some (Children p (root x :: l))
  | None => kids st' !! c = Some (Children p [root x])
  end ->
  grows st' x -> (exists hx, hdrs st' !! root x = Some hx /\ parent_child hx = c) ->
  grows st t -> NoDup (addrs t) -> NoDup (props t) -> p ∈ addrs t ->
  (forall a, a ∈ addrs t -> a <> p -> hdrs st' !! a = hdrs st !! a) -> (forall c', c' ∈ props t -> c' <> c -> kids st' !! c' = kids st !! c') ->
  (find_children (prop hp) = None -> c ∉ props t) ->
  grows st' (insert_tree p c x t) /\ addrs (insert_tree p c x t) ≡ₚ addrs t ++ addrs x /\
  props (insert_tree p c x t) ≡ₚ match find_children (prop hp) with Some _ => [] | None => [c] end ++ props t ++ props x.
Proof.
  intros Hhp Hhp' Hgood Hfc Hpc Hkids Hgx Hx. induction t as [a ca ts IH] using tree_induction. intros Hg Hna Hnp Hp Hh Hk Hnew.
  inversion Hg as [? ? ? h Hha Hgh Hf Hka Hpa Hts]; subst. apply NoDup_cons in Hna as [Ha Hna]. change (concat (addrs <$> ts)) with (all_addrs ts) in *. cbn [insert_tree].
  destruct Hx as (hx & Hhx & Hpx).
  destruct (Nat.eqb_spec a p) as [->|Hne].
  - rewrite Hhp in Hha. injection Hha as <-. split_and!.
    + apply Grows with (h := hp'); [done|done|done| | |].
      * destruct (find_children (prop hp)) as [c'|]; [|subst ts; exact Hkids]. destruct Hkids as [-> (l & Hl & Hl')]. rewrite Hka in Hl. injection Hl as <-. exact Hl'.
      * apply Forall_cons. split; [exists hx; by rewrite Hpx|]. rewrite Forall_forall in Hpa |- *. intros t Ht. destruct (Hpa t Ht) as (ht & Hht & Hpt). exists ht.
        rewrite Hh; [|right; eapply all_addrs_in; [exact Ht|apply root_in]|intros E; apply Ha; rewrite <- E; eapply all_addrs_in; [exact Ht|apply root_in]].
        split; [done|]. destruct (find_children (prop hp)) as [c'|]; [by destruct Hkids as [-> _]|subst ts; by apply not_elem_of_nil in Ht].
      * apply Forall_cons. split; [done|]. apply (grows_list_ext st); [| |done].
        -- intros y Hy. apply Hh; [by right|]. by intros ->.
        -- intros y Hy. apply Hk; [simpl; apply elem_of_app; by right|]. intros ->. destruct (find_children (prop hp)) as [c'|]; [|subst ts; by apply not_elem_of_nil in Hy].
           destruct Hkids as [-> _]. simpl in Hnp. apply NoDup_cons in Hnp as [Hn _]. by apply Hn.
    + cbn. change (concat (addrs <$> ts)) with (all_addrs ts). solve_Permutation.
    + cbn. change (concat (props <$> ts)) with (all_props ts). destruct (find_children (prop hp)) as [c'|]; cbn; [destruct Hkids as [-> _]|]; solve_Permutation.
  - apply elem_of_cons in Hp as [->|Hp]; [done|]. destruct (find_child ts p Hp Hna) as (ts1 & t & ts2 & -> & Hpt & Hp1 & Hp2).
    set (ca := find_children (prop h)) in *. change (props (Node a ca (ts1 ++ t :: ts2))) with (option_list ca ++ all_props (ts1 ++ t :: ts2)) in *.
    apply NoDup_app in Hnp as (_ & Hdca & Hnp). destruct (addrs_split _ _ _ Hna) as [Hnat _]. destruct (props_split _ _ _ Hnp) as [Hnpt Hdpt].
    rewrite !Forall_app, !Forall_cons in *. destruct Hpa as (Hpa1 & (ht & Hht & Hpt') & Hpa2). destruct Hts as (Hg1 & Hgt & Hg2). destruct IH as (_ & IH & _).
    assert (Hin : forall c', c' ∈ props t \/ c' ∈ all_props ts1 \/ c' ∈ all_props ts2 -> c' ∈ all_props (ts1 ++ t :: ts2)) by (intros c'; rewrite all_props_app; change (all_props (t :: ts2)) with (props t ++ all_props ts2); rewrite !elem_of_app; naive_solver).
    assert (Hain : forall y, y ∈ addrs t \/ y ∈ all_addrs ts1 \/ y ∈ all_addrs ts2 -> y ∈ addrs (Node a ca (ts1 ++ t :: ts2))) by (intros y Hy; change (addrs (Node a ca (ts1 ++ t :: ts2))) with (a :: all_addrs (ts1 ++ t :: ts2)); right; rewrite all_addrs_app; change (all_addrs (t :: ts2)) with (addrs t ++ all_addrs ts2); rewrite !elem_of_app; naive_solver).
    assert (Hc : c ∉ option_list ca /\ c ∉ all_props ts1 /\ c ∉ all_props ts2).
    { destruct (find_children (prop hp)) as [c'|] eqn:Ehp.
      - destruct Hkids as [-> _]. pose proof (grows_prop_in st t p hp c Hgt Hpt Hhp Ehp) as Hct. destruct (Hdpt c Hct). split; [|done]. intros Hin'. apply (Hdca c Hin'). apply Hin. by left.
      - specialize (Hnew eq_refl). rewrite elem_of_app in Hnew. naive_solver. }
    destruct Hc as (Hcca & Hc1 & Hc2). destruct (IH Hgt Hnat Hnpt Hpt) as (Hgi & Hai & Hci).
    { intros y Hy. apply Hh, Hain. by left. }
    { intros y Hy. apply Hk. apply elem_of_app. right. apply Hin. by left. }
    { intros E Hct. apply (Hnew E). apply elem_of_app. right. apply Hin. by left. }
    rewrite fmap_app. cbn [fmap list_fmap]. rewrite !insert_list_id by done. split_and!.
    + apply Grows with (h := h); [rewrite Hh by (done || left); done|done|done| | |].
      * destruct ca as [ca|]; [|by destruct ts1]. rewrite Hk; [|simpl; left|intros ->; apply Hcca; left]. rewrite Hka. do 2 f_equal. rewrite !fmap_app. cbn. by rewrite insert_root.
      * rewrite Forall_app, Forall_cons, insert_root. assert (G : forall us, (forall y, y ∈ all_addrs us -> y ∈ all_addrs ts1 \/ y ∈ all_addrs ts2) -> p ∉ all_addrs us -> Forall (fun t => exists ht, hdrs st !! root t = Some ht /\ Some (parent_child ht) = ca) us -> Forall (fun t => exists ht, hdrs st' !! root t = Some ht /\ Some (parent_child ht) = ca) us).
        { intros us Hus Hpus. rewrite !Forall_forall. intros Hall t' Ht'. destruct (Hall t' Ht') as (ht' & Hht' & Hp'). exists ht'. split; [|done]. assert (Hr : root t' ∈ all_addrs us) by (eapply all_addrs_in; [exact Ht'|apply root_in]).
          rewrite Hh; [done|apply Hain; right; by apply Hus|]. intros E. apply Hpus. by rewrite <- E. }
        split; [apply G; [auto|done|done]|]. split; [|apply G; [auto|done|done]]. destruct (decide (root t = p)) as [E|E].
        -- exists hp'. rewrite E. split; [done|]. rewrite Hpc. rewrite E, Hhp in Hht. by injection Hht as ->.
        -- exists ht. split; [|done]. rewrite Hh; [done|apply Hain; left; apply root_in|done].
      * rewrite Forall_app, Forall_cons. split; [|split; [exact Hgi|]]; (apply (grows_list_ext st); [| |done]).
        -- intros y Hy. apply Hh; [apply Hain; auto|]. by intros ->.
        -- intros y Hy. apply Hk; [apply elem_of_app; right; apply Hin; auto|]. by intros ->.
        -- intros y Hy. apply Hh; [apply Hain; auto|]. by intros ->.
        -- intros y Hy. apply Hk; [apply elem_of_app; right; apply Hin; auto|]. by intros ->.
    + cbn [addrs]. fold (all_addrs (ts1 ++ insert_tree p c x t :: ts2)). fold (all_addrs (ts1 ++ t :: ts2)). rewrite !all_addrs_app. change (all_addrs (t :: ts2)) with (addrs t ++ all_addrs ts2).
      change (all_addrs (insert_tree p c x t :: ts2)) with (addrs (insert_tree p c x t) ++ all_addrs ts2). rewrite Hai. solve_Permutation.
    + cbn [props]. fold (all_props (ts1 ++ insert_tree p c x t :: ts2)). rewrite !all_props_app. change (all_props (t :: ts2)) with (props t ++ all_props ts2).
      change (all_props (insert_tree p c x t :: ts2)) with (props (insert_tree p c x t) ++ all_props ts2). rewrite Hci. solve_Permutation.
Qed.

(** * The tree of all allocations *)

Record rep (st : tal W) (t : tree) : Prop := {
  rep_root : root t = 0%nat;
  rep_grows : grows st t;
  rep_addrs : NoDup (addrs t);
  rep_props : NoDup (props t);
  rep_hdrs : forall a, is_Some (hdrs st !! a) <-> a ∈ addrs t;
  rep_kids : forall c, is_Some (kids st !! c) <-> c ∈ props t }.

Lemma perm_split {A} (l l1 l2 : list A) : l ≡ₚ l1 ++ l2 -> NoDup l -> NoDup l1 /\ NoDup l2 /\ (forall x, x ∈ l1 <-> x ∈ l /\ x ∉ l2).
Proof.
  intros E Hnd. rewrite E in Hnd. apply NoDup_app in Hnd as (H1 & Hd & H2). split; [done|]. split; [done|]. intros x. rewrite E, elem_of_app. split; [|naive_solver]. intros Hx. split; [by left|by apply Hd].
Qed.

Lemma grows_hdr st t a : grows st t -> a ∈ addrs t -> exists h, hdrs st !! a = Some h /\ good_hdr h.
Proof.
  induction t as [b c ts IH] using tree_induction. intros Hg Ha. inversion Hg as [? ? ? h Hh Hgood _ _ _ Hts]; subst. apply elem_of_cons in Ha as [->|Ha]; [by exists h|].
  apply in_all_addrs in Ha as (t & Ht & Ha). rewrite Forall_forall in IH, Hts. by apply (IH t Ht (Hts t Ht)).
Qed.

Lemma grows_kids st t c : grows st t -> c ∈ props t -> is_Some (kids st !! c).
Proof.
  induction t as [b cb ts IH] using tree_induction. intros Hg Hc. inversion Hg as [? ? ? h Hh Hgood Hf Hk _ Hts]; subst. simpl in Hc. apply elem_of_app in Hc as [Hc|Hc].
  - destruct (find_children (prop h)) as [c'|]; [|by apply not_elem_of_nil in Hc]. apply list_elem_of_singleton in Hc as ->. by rewrite Hk.
  - apply in_all_props in Hc as (t & Ht & Hc). rewrite Forall_forall in IH, Hts. by apply (IH t Ht (Hts t Ht)).
Qed.

Lemma check_children l lit n : find_children l = None -> check_props l lit n true = check_props l lit n false.
Proof. revert n. induction l as [|[c|s|types fn arg] l IH]; intros n H; simpl in *; [done|done|by rewrite IH|by apply IH]. Qed.

Lemma grows_reparent st st' x c hc : grows st x -> NoDup (addrs x) -> hdrs st !! root x = Some hc -> hdrs st' !! root x = Some (with_parent hc c) ->
  (forall a, a ∈ addrs x -> a <> root x -> hdrs st' !! a = hdrs st !! a) -> (forall c, c ∈ props x -> kids st' !! c = kids st !! c) -> grows st' x.
Proof.
  intros Hg Hnd Hh Hh' Ha Hc. inversion Hg as [a ca ts h Hha [Hd Hgood] Hf Hk Hp Hts]; subst. cbn [root] in *. rewrite Hh in Hha. injection Hha as ->. apply NoDup_cons in Hnd as [Hna Hnd].
  change (concat (addrs <$> ts)) with (all_addrs ts) in *. apply Grows with (h := with_parent h c); [done|by split|done| | |].
  - destruct (find_children (prop h)) as [c'|]; [|done]. rewrite Hc; [done|]. simpl. left.
  - rewrite Forall_forall in Hp |- *. intros t Ht. destruct (Hp t Ht) as (ht & Hht & Hpt). exists ht. split; [|done]. assert (Hr : root t ∈ all_addrs ts) by (eapply all_addrs_in; [exact Ht|apply root_in]).
    rewrite Ha; [done|by right|]. intros E. apply Hna. by rewrite <- E.
  - apply (grows_list_ext st); [| |done].
    + intros y Hy. apply Ha; [by right|]. by intros ->.
    + intros y Hy. apply Hc. simpl. apply elem_of_app. by right.
Qed.

Section allocating.
Context (allocfn : tal W -> nat).
Hypothesis Halloc : forall st, hdrs st !! allocfn st = None /\ kids st !! allocfn st = None.

(** What is left of a tree and a tree beside it, linked. *)
Lemma add_child_spec st t x p : grows st t -> grows st x -> NoDup (addrs t ++ addrs x) -> NoDup (props t ++ props x) -> p ∈ addrs t ->
  exists c st', add_child allocfn st p (root x) = Ret st' /\ grows st' (insert_tree p c x t) /\ addrs (insert_tree p c x t) ≡ₚ addrs t ++ addrs x /\
    NoDup (props (insert_tree p c x t)) /\ (forall y, y ∈ props (insert_tree p c x t) <-> y = c \/ y ∈ props t \/ y ∈ props x) /\
    (forall a, is_Some (hdrs st' !! a) <-> is_Some (hdrs st !! a)) /\ (forall y, is_Some (kids st' !! y) <-> y = c \/ is_Some (kids st !! y)) /\
    notifiers st' = notifiers st /\ takenarr st' = takenarr st /\ world st' = world st.
Proof.
  intros Hgt Hgx Hna Hnp Hp. apply NoDup_app in Hna as (Hnt & Hda & Hnx). apply NoDup_app in Hnp as (Hpt & Hdp & Hpx).
  destruct (grows_hdr st t p Hgt Hp) as (hp & Hhp & Hgood). destruct (grows_hdr st x (root x) Hgx (root_in x)) as (hx & Hhx & Hgoodx).
  assert (Hrx : root x <> p) by (intros E; apply (Hda p Hp); rewrite <- E; apply root_in).
  unfold add_child, to_tal_hdr_or_null. rewrite Hhp. cbn [obind]. destruct (find_children (prop hp)) as [c|] eqn:Ec.
  - pose proof (grows_prop_in st t p hp c Hgt Hp Hhp Ec) as Hc. pose proof (grows_own_kids st t p hp c Hgt Hp Hhp Ec) as Hkc.
    destruct Hkc as [l Hl]. cbn [obind]. unfold children_at. rewrite Hl. cbn [obind parent siblings]. rewrite Hhx. cbn [obind]. eexists c, _. split; [done|]. set (st' := set_hdr _ _ _).
    assert (Hh' : forall a, hdrs st' !! a = if decide (a = root x) then Some (with_parent hx c) else hdrs st !! a) by (intros a; simpl; case_decide as E; [subst; by rewrite lookup_insert_eq|by rewrite lookup_insert_ne]).
    assert (Hk' : forall y, kids st' !! y = if decide (y = c) then Some (Children p (root x :: l)) else kids st !! y) by (intros y; simpl; case_decide as E; [subst; by rewrite lookup_insert_eq|by rewrite lookup_insert_ne]).
    assert (Hgx' : grows st' x).
    { eapply (grows_reparent st); [done|done|exact Hhx|by rewrite Hh', decide_True| |]; intros y Hy; [intros Hne; by rewrite Hh', decide_False|]. rewrite Hk', decide_False; [done|]. intros ->. by apply (Hdp c Hc). }
    assert (Hup : forall a, a ∈ addrs t -> hdrs st' !! a = hdrs st !! a) by (intros a Ha; rewrite Hh', decide_False; [done|]; intros ->; apply (Hda _ Ha); apply root_in).
    destruct (insert_spec st st' p c x hp hp t Hhp) as (H1 & H2 & H3); try done.
    + by rewrite Hup.
    + rewrite Ec. split; [done|]. exists l. split; [done|]. by rewrite Hk', decide_True.
    + exists (with_parent hx c). split; [by rewrite Hh', decide_True|done].
    + intros a Ha _. by apply Hup.
    + intros c' _ Hne. by rewrite Hk', decide_False.
    + by rewrite Ec.
    + rewrite Ec in H3. cbn [app] in H3. split; [done|]. split; [done|]. split; [rewrite H3; apply NoDup_app; split_and!; [done|done|done]|]. split.
      { intros y. rewrite H3, elem_of_app. split; [naive_solver|]. intros [->|?]; [by left|done]. }
      split; [intros a; rewrite Hh'; case_decide as E; [subst; by rewrite Hhx|done]|]. split; [intros y; rewrite Hk'; case_decide as E; [subst; naive_solver|naive_solver]|done].
  - set (c := allocfn st). destruct (Halloc st) as [_ Hc0]. fold c in Hc0. assert (Hct : c ∉ props t /\ c ∉ props x).
    { split; intros Hin; [apply (grows_kids st t) in Hin|apply (grows_kids st x) in Hin]; try done; by destruct Hin as [k Hk]; rewrite Hk in Hc0. }
    cbn [obind]. set (st1 := set_kids _ _ _). unfold children_at. assert (Hk1 : kids st1 !! c = Some (Children p [])) by (simpl; by rewrite lookup_insert_eq). rewrite Hk1. cbn [obind parent siblings].
    assert (Hh1 : hdrs st1 !! root x = Some hx) by (simpl; by rewrite lookup_insert_ne). rewrite Hh1. cbn [obind]. eexists c, _. split; [done|]. set (st' := set_hdr _ _ _). set (hp' := with_prop hp (CHILDREN c :: prop hp)).
    assert (Hh' : forall a, hdrs st' !! a = if decide (a = root x) then Some (with_parent hx c) else if decide (a = p) then Some hp' else hdrs st !! a).
    { intros a. simpl. case_decide as E; [subst; by rewrite lookup_insert_eq|]. rewrite lookup_insert_ne by done. case_decide as E'; [subst; by rewrite lookup_insert_eq|by rewrite lookup_insert_ne]. }
    assert (Hk' : forall y, kids st' !! y = if decide (y = c) then Some (Children p [root x]) else kids st !! y).
    { intros y. simpl. case_decide as E; [subst; by rewrite lookup_insert_eq|by rewrite !lookup_insert_ne]. }
    assert (Hgx' : grows st' x).
    { eapply (grows_reparent st); [done|done|exact Hhx|by rewrite Hh', decide_True| |]; intros y Hy; [intros Hne; rewrite Hh', !decide_False; [done| |done]; intros ->; by apply (Hda p Hp)|]. rewrite Hk', decide_False; [done|]. intros ->. naive_solver. }
    destruct Hgood as (Hd & Hgp & Hcp). destruct (insert_spec st st' p c x hp hp' t Hhp) as (H1 & H2 & H3); try done.
    + rewrite Hh', decide_False, decide_True by done. done.
    + split; [done|]. split; [by apply Forall_cons|]. simpl. by rewrite check_children.
    + rewrite Ec. by rewrite Hk', decide_True.
    + exists (with_parent hx c). split; [by rewrite Hh', decide_True|done].
    + intros a Ha Hne. rewrite Hh', !decide_False; [done|done|]. intros ->. apply (Hda _ Ha); apply root_in.
    + intros c' _ Hne. by rewrite Hk', decide_False.
    + naive_solver.
    + rewrite Ec in H3. cbn [app] in H3. split; [done|]. split; [done|]. split.
      { rewrite H3. apply NoDup_cons. split; [rewrite elem_of_app; naive_solver|]. apply NoDup_app. by split_and!. }
      split; [intros y; rewrite H3, elem_of_cons, elem_of_app; done|].
      split; [intros a; rewrite Hh'; repeat case_decide; subst; [by rewrite Hhx|by rewrite Hhp|done]|]. split; [intros y; rewrite Hk'; case_decide as E; [subst; naive_solver|naive_solver]|done].
Qed.

Lemma rep_world st t w : rep st t -> rep (set_world st w) t.
Proof. intros [H1 H2 H3 H4 H5 H6]. split; try done. eapply grows_ext; [..|exact H2]; done. Qed.

(** Two trees that are all there is, linked. *)
Lemma rep_link st t x p : root t = 0%nat -> grows st t -> grows st x -> NoDup (addrs t ++ addrs x) -> NoDup (props t ++ props x) -> p ∈ addrs t ->
  (forall a, is_Some (hdrs st !! a) <-> a ∈ addrs t ++ addrs x) -> (forall c, is_Some (kids st !! c) <-> c ∈ props t ++ props x) ->
  exists c st', add_child allocfn st p (root x) = Ret st' /\ rep st' (insert_tree p c x t) /\ notifiers st' = notifiers st /\ takenarr st' = takenarr st /\ world st' = world st.
Proof.
  intros Hr Hgt Hgx Hna Hnp Hp Hh Hk. destruct (add_child_spec st t x p Hgt Hgx Hna Hnp Hp) as (c & st' & Hadd & Hg & HA & HN & HC & Hh' & Hk' & Hrest). exists c, st'. split; [done|]. split; [|done].
  split; [by rewrite insert_root|done|by rewrite HA|done| |].
  - intros a. by rewrite Hh', Hh, HA.
  - intros y. rewrite Hk', HC, Hk, elem_of_app. done.
Qed.

Lemma alloc_ok st t ctx sz clear label : rep st t -> ctx ∈ addrs t ->
  exists p c st', tal_alloc_ call allocfn st ctx sz clear label = Ret (p, st') /\ p ∉ addrs t /\ rep st' (insert_tree ctx c (Node p None []) t) /\ takenarr st' = takenarr st /\ notifiers st' = notifiers st.
Proof.
  intros Hrep Hctx. pose proof Hrep as [Hr Hg Hna Hnp Hh Hk]. destruct (grows_hdr st t ctx Hg Hctx) as (h & Hhc & Hgood). unfold tal_alloc_, to_tal_hdr_or_null. rewrite Hhc. cbn [obind].
  set (p := allocfn st). destruct (Halloc st) as [Hp0 _]. fold p in Hp0. assert (Hpt : p ∉ addrs t) by (rewrite <- Hh, Hp0; by intros [? [=]]).
  set (h0 := TalHdr [] label 0 false _). set (st0 := set_hdr st p h0).
  assert (Hg0 : grows st0 t) by (eapply grows_ext; [| |exact Hg]; [|done]; intros a Ha; simpl; rewrite lookup_insert_ne; [done|]; by intros ->).
  assert (Hx : grows st0 (Node p None [])).
  { apply Grows with (h := h0); [simpl; by rewrite lookup_insert_eq| |done|done|constructor|constructor]. split; [done|]. split; [constructor|]. simpl. by destruct label. }
  destruct (rep_link st0 t (Node p None []) ctx) as (c & st1 & Hadd & Hrep1 & Hn1 & Ht1 & Hw1); [done|done|done| | |done| | |].
  { apply NoDup_app. split; [done|]. split; [|apply NoDup_singleton]. intros a Ha Hin. apply list_elem_of_singleton in Hin as ->. done. }
  { simpl. by rewrite app_nil_r. }
  { intros a. rewrite elem_of_app. simpl. destruct (decide (a = p)) as [->|Hne]; [rewrite lookup_insert_eq; split; [right; left|done]|]. rewrite lookup_insert_ne, Hh by done. split; [by left|].
    intros [?|Hin]; [done|]. by apply list_elem_of_singleton in Hin. }
  { intros y. simpl. by rewrite app_nil_r. }
  cbn [root] in Hadd. rewrite Hadd. cbn [obind]. assert (Hctx1 : ctx ∈ addrs (insert_tree ctx c (Node p None []) t)).
  { rewrite <- (rep_hdrs _ _ Hrep1). assert (Hs : is_Some (hdrs st0 !! ctx)) by (simpl; destruct (decide (ctx = p)) as [->|]; [by rewrite lookup_insert_eq|by rewrite lookup_insert_ne, Hhc]).
    destruct (add_child_spec st0 t (Node p None []) ctx) as (c' & st1' & Hadd' & _ & _ & _ & _ & Hh' & _); [done|done| | |done|].
    { apply NoDup_app. split; [done|]. split; [|apply NoDup_singleton]. intros a Ha Hin. apply list_elem_of_singleton in Hin as ->. done. }
    { simpl. by rewrite app_nil_r. }
    cbn [root] in Hadd'. rewrite Hadd in Hadd'. injection Hadd' as <-. by rewrite Hh'. }
  destruct (grows_hdr st1 _ ctx (rep_grows _ _ Hrep1) Hctx1) as (h1 & Hh1 & _ & Hg1 & _).
  destruct (notify_if_quiet st1 ctx TAL_NOTIFY_ADD_CHILD p h1) as [w Hw]; [by do 4 right; left|done|done|]. rewrite Hw. cbn [obind]. exists p, c, (set_world st1 w). split; [done|]. split; [done|]. split; [by apply rep_world|done].
Qed.

End allocating.

Lemma rep_size st t : rep st t -> size (hdrs st) = length (addrs t).
Proof.
  intros [_ _ Hna _ Hh _]. rewrite <- (size_dom (D := gset nat)). rewrite <- (size_list_to_set (C := gset nat) (addrs t)) by done. f_equal. apply set_eq. intros a. rewrite elem_of_dom, elem_of_list_to_set. apply Hh.
Qed.

(** An object that is taken out of the tree, with what hangs from it. *)
Lemma unlink_ok st t a : rep st t -> a ∈ addrs t -> a <> 0%nat ->
  exists s st', subtree a t = Some s /\ root s = a /\ list_unlink st a = Ret st' /\ grows st' (remove_tree a t) /\ grows st' s /\
    addrs t ≡ₚ addrs (remove_tree a t) ++ addrs s /\ props t ≡ₚ props (remove_tree a t) ++ props s /\
    hdrs st' = hdrs st /\ (forall c, is_Some (kids st' !! c) <-> is_Some (kids st !! c)) /\ notifiers st' = notifiers st /\ takenarr st' = takenarr st /\ world st' = world st.
Proof.
  intros [Hr Hg Hna Hnp Hh Hk] Ha H0. destruct (cut_spec st a t Hg Hna Hnp Ha ltac:(by rewrite Hr)) as (s & c & p & l & Hs & Hrs & (h & Hha & Hpc) & Hc & Hcs & Hkc & HA & HC & Hgr & Hgs).
  exists s, (set_kids st c (Children p (filter (.≠ a) l))). split; [done|]. split; [done|]. split.
  { unfold list_unlink. rewrite (to_hdr st a h) by done. cbn [obind]. unfold children_at. rewrite Hpc, Hkc. done. }
  split; [done|]. split; [eapply grows_ext; [| |exact Hgs]; [done|]; intros y Hy; simpl; rewrite lookup_insert_ne; [done|]; by intros ->|]. split; [done|]. split; [done|]. split; [done|]. split; [|done].
  intros y. simpl. destruct (decide (y = c)) as [->|]; [by rewrite lookup_insert_eq, Hkc|by rewrite lookup_insert_ne].
Qed.

Lemma free_ok st t a : rep st t -> a ∈ addrs t -> a <> 0%nat -> (forall s, subtree a t = Some s -> loose st (addrs s)) ->
  exists s st' w, subtree a t = Some s /\ tal_free call st a = Ret st' /\ rep st' (remove_tree a t) /\
    (notifiers st = 0%Z -> w = world st) /\ world st' = farewell (hdrs st) a s w /\ (forall b, is_Some (hdrs st' !! b) <-> b ∈ addrs t /\ b ∉ addrs s).
Proof.
  intros Hrep Ha H0 Hloose. pose proof Hrep as [Hr Hg Hna Hnp Hh Hk]. destruct (grows_hdr st t a Hg Ha) as (h & Hha & Hd & Hgood & _). unfold tal_free. rewrite (proj2 (Nat.eqb_neq a 0)) by done. rewrite (to_hdr st a h) by done. cbn [obind]. rewrite Hd.
  assert (Hn : exists w, (if (notifiers st =? 0)%Z then Ret st else let! k := children_at st (parent_child h) in notify call st (parent k) TAL_NOTIFY_DEL_CHILD a) = Ret (set_world st w) /\ (notifiers st = 0%Z -> w = world st)).
  { destruct (Z.eqb_spec (notifiers st) 0) as [E|E]; [exists (world st); by destruct st|]. destruct (cut_spec st a t Hg Hna Hnp Ha ltac:(by rewrite Hr)) as (s & c & p & l & _ & _ & (h' & Hh' & Hpc) & Hc & _ & Hkc & _).
    rewrite Hha in Hh'. injection Hh' as <-. unfold children_at. rewrite Hpc, Hkc. cbn [obind parent]. assert (Hp : exists hp, hdrs st !! p = Some hp /\ Forall good_prop (prop hp)).
    { clear -Hg Hc Hkc. induction t as [b cb ts IH] using tree_induction. inversion Hg as [? ? ? hb Hhb (_ & Hgb & _) Hf Hkb _ Hts]; subst. simpl in Hc. apply elem_of_app in Hc as [Hc|Hc].
      - destruct (find_children (prop hb)) as [c'|]; [|by apply not_elem_of_nil in Hc]. apply list_elem_of_singleton in Hc as ->. rewrite Hkc in Hkb. injection Hkb as -> _. by exists hb.
      - apply in_all_props in Hc as (t & Ht & Hc). rewrite Forall_forall in IH, Hts. by apply (IH t Ht (Hts t Ht)). }
    destruct Hp as (hp & Hhp & Hgp). destruct (notify_quiet st p TAL_NOTIFY_DEL_CHILD a hp) as [w Hw]; [by do 5 right; left|done|done|]. exists w. by split. }
  destruct Hn as (w & -> & Hw). cbn [obind].
  destruct (unlink_ok (set_world st w) t a (rep_world st t w Hrep) Ha H0) as (s & st1 & Hs & Hrs & -> & Hgr & Hgs & HA & HC & Hh1 & Hk1 & Hn1 & Ht1 & Hw1). cbn [obind].
  destruct (perm_split _ _ _ HA Hna) as (Hnr & Hns & Hina). destruct (perm_split _ _ _ HC Hnp) as (Hcr & Hcs & Hinc). unfold del_tree.
  destruct (del_one_spec s st1 (S (size (hdrs st1))) a Hgs Hns Hcs) as (st2 & Hdel & (Hh2 & Hk2 & Hn2 & Ht2 & Hw2)).
  { intros b Hb. rewrite Ht1. by apply (Hloose s). }
  { rewrite Hh1. change (hdrs (set_world st w)) with (hdrs st). rewrite (rep_size st t Hrep), HA, length_app. lia. }
  rewrite Hrs in Hdel. rewrite Hdel. exists s, st2, w. split; [done|]. split; [done|]. split.
  - split; [by rewrite remove_root| |done|done| |].
    + eapply grows_ext; [| |exact Hgr]; intros y Hy; [rewrite Hh2, decide_False; [done|]|rewrite Hk2, decide_False; [done|]]; [by apply Hina|by apply Hinc].
    + intros y. rewrite Hh2, Hina, <- Hh. rewrite Hh1. change (hdrs (set_world st w)) with (hdrs st). case_decide; [|naive_solver]. split; [by intros [? [=]]|naive_solver].
    + intros y. rewrite Hk2, Hinc, <- Hk. case_decide; [|rewrite Hk1; naive_solver]. split; [by intros [? [=]]|naive_solver].
  - split; [done|]. split; [by rewrite Hw2, Hh1, Hw1|]. intros b. rewrite Hh2, <- Hh, Hh1. change (hdrs (set_world st w)) with (hdrs st). case_decide; [|naive_solver]. split; [by intros [? [=]]|naive_solver].
Qed.

Lemma steal_ok allocfn st t new a s : (forall st : tal W, hdrs st !! allocfn st = None /\ kids st !! allocfn st = None) ->
  rep st t -> a ∈ addrs t -> a <> 0%nat -> subtree a t = Some s -> new ∈ addrs t -> new ∉ addrs s ->
  exists c st', tal_steal_ call allocfn st new a = Ret st' /\ rep st' (insert_tree new c s (remove_tree a t)) /\ takenarr st' = takenarr st /\ notifiers st' = notifiers st.
Proof.
  intros Halloc Hrep Ha H0 Hs Hnew Hns. pose proof Hrep as [Hr Hg Hna Hnp Hh Hk]. unfold tal_steal_. rewrite (proj2 (Nat.eqb_neq a 0)) by done. destruct (grows_hdr st t new Hg Hnew) as (hn & Hhn & _). unfold to_tal_hdr_or_null. rewrite Hhn. cbn [obind].
  destruct (unlink_ok st t a Hrep Ha H0) as (s' & st1 & Hs' & Hrs & -> & Hgr & Hgs & HA & HC & Hh1 & Hk1 & Hn1 & Ht1 & Hw1). rewrite Hs in Hs'. injection Hs' as <-. cbn [obind].
  destruct (perm_split _ _ _ HA Hna) as (_ & _ & Hina).
  destruct (rep_link allocfn Halloc st1 (remove_tree a t) s new) as (c & st2 & Hadd & Hrep2 & Hn2 & Ht2 & Hw2); [by rewrite remove_root|done|done|by rewrite <- HA|by rewrite <- HC|by apply Hina| | |].
  { intros b. by rewrite Hh1, Hh, HA. }
  { intros b. by rewrite Hk1, Hk, HC. }
  rewrite Hrs in Hadd. rewrite Hadd. cbn [obind]. assert (Ha2 : a ∈ addrs (insert_tree new c s (remove_tree a t))).
  { rewrite <- (rep_hdrs _ _ Hrep2). destruct (add_child_spec allocfn Halloc st1 (remove_tree a t) s new) as (c' & st2' & Hadd' & _ & _ & _ & _ & Hh' & _); [done|done|by rewrite <- HA|by rewrite <- HC|by apply Hina|].
    rewrite Hrs, Hadd in Hadd'. injection Hadd' as <-. by rewrite Hh', Hh1, Hh. }
  destruct (grows_hdr st2 _ a (rep_grows _ _ Hrep2) Ha2) as (h2 & Hh2 & _ & Hg2 & _). destruct (notify_if_quiet st2 a TAL_NOTIFY_STEAL new h2) as [w Hw]; [by left|done|done|].
  exists c, (set_world st2 w). split; [exact Hw|]. split; [by apply rep_world|]. simpl. by rewrite Ht2, Hn2.
Qed.

(** ** Looking at the tree *)

Lemma subtree_grows st p t s : grows st t -> subtree p t = Some s -> grows st s /\ root s = p /\ (forall a, a ∈ addrs s -> a ∈ addrs t) /\ (NoDup (addrs t) -> NoDup (addrs s)).
Proof.
  induction t as [a c ts IH] using tree_induction. intros Hg. cbn [subtree]. destruct (Nat.eqb_spec a p) as [->|Hne]; [by intros [= <-]|]. fold (subtree_list p ts). intros Hs.
  inversion Hg as [? ? ? h _ _ _ _ _ Hts]; subst. assert (Hin : exists t, t ∈ ts /\ subtree p t = Some s).
  { clear -Hs. induction ts as [|t ts IH]; [done|]. cbn in Hs. destruct (subtree p t) eqn:E; [injection Hs as <-; exists t; split; [left|done]|]. destruct (IH Hs) as (t' & Ht' & E'). exists t'. split; [by right|done]. }
  destruct Hin as (t & Ht & E). rewrite Forall_forall in IH, Hts. destruct (IH t Ht (Hts t Ht) E) as (H1 & H2 & H3 & H4). split; [done|]. split; [done|]. split.
  - intros x Hx. right. eapply all_addrs_in; [exact Ht|]. by apply H3.
  - intros Hnd. apply NoDup_cons in Hnd as [_ Hnd]. apply H4. apply list_elem_of_split in Ht as (ts1 & ts2 & ->). by apply addrs_split in Hnd as [? _].
Qed.

Lemma next_sibling_spec a l1 l2 : a ∉ l1 -> next_sibling a (l1 ++ a :: l2) = head l2.
Proof.
  induction l1 as [|b l1 IH]; intros H; cbn; [by rewrite Nat.eqb_refl|]. rewrite (proj2 (Nat.eqb_neq b a)) by (intros ->; apply H; left). apply IH. intros Hin. apply H. by right.
Qed.

Lemma look_ok st t p c ts : rep st t -> subtree p t = Some (Node p c ts) ->
  tal_first st p = Ret (head (root <$> ts)) /\
  forall l1 a l2, root <$> ts = l1 ++ a :: l2 -> tal_next st a = Ret (head l2) /\ tal_parent st a = Ret p.
Proof.
  intros [Hr Hg Hna _ _ _] Hs. destruct (subtree_grows st p t _ Hg Hs) as (Hgs & _ & Hin & Hnd). specialize (Hnd Hna). inversion Hgs as [? ? ? h Hh _ Hf Hk Hp Hts]; subst.
  apply NoDup_cons in Hnd as [Hpts Hnd]. change (concat (addrs <$> ts)) with (all_addrs ts) in *.
  split.
  - unfold tal_first, to_tal_hdr_or_null. rewrite Hh. cbn [obind]. destruct (find_children (prop h)) as [c|]; [|by subst ts]. unfold children_at. by rewrite Hk.
  - intros l1 a l2 E. assert (Ha : a ∈ root <$> ts) by (rewrite E; apply elem_of_app; right; left). apply list_elem_of_fmap in Ha as (ta & -> & Hta). rewrite Forall_forall in Hp. destruct (Hp ta Hta) as (ha & Hha & Hpa).
    assert (Hin2 : root ta ∈ all_addrs ts) by (eapply all_addrs_in; [exact Hta|apply root_in]). assert (H0 : root ta <> 0%nat).
    { intros E0. destruct t as [r cr tr]. cbn in Hr. subst r. cbn [subtree] in Hs. destruct (Nat.eqb_spec 0 p) as [<-|Hne].
      - injection Hs as -> ->. apply Hpts. by rewrite <- E0.
      - apply NoDup_cons in Hna as [H0 _]. apply H0. fold (subtree_list p tr) in Hs.
        assert (Hex : exists t', t' ∈ tr /\ subtree p t' = Some (Node p (find_children (prop h)) ts)).
        { clear -Hs. induction tr as [|t' tr IH]; [done|]. cbn in Hs. destruct (subtree p t') eqn:Et; [injection Hs as ->; exists t'; split; [left|done]|]. destruct (IH Hs) as (t'' & Ht' & E'). exists t''. split; [by right|done]. }
        destruct Hex as (t' & Ht' & Es). inversion Hg as [? ? ? ? _ _ _ _ _ Htr]; subst. rewrite Forall_forall in Htr. destruct (subtree_grows st p t' _ (Htr t' Ht') Es) as (_ & _ & Hsub & _).
        eapply all_addrs_in; [exact Ht'|]. apply Hsub. right. by rewrite <- E0. }
    destruct (find_children (prop h)) as [c|]; [|by subst ts; apply not_elem_of_nil in Hta]. injection Hpa as Hpa.
    assert (Hl1 : root ta ∉ l1).
    { intros Hl. assert (HN : NoDup (root <$> ts)).
      { clear -Hnd. induction ts as [|t ts IH]; [constructor|]. change (all_addrs (t :: ts)) with (addrs t ++ all_addrs ts) in Hnd. apply NoDup_app in Hnd as (_ & Hd & Hnd). cbn. apply NoDup_cons. split; [|by apply IH].
        intros Hin. apply list_elem_of_fmap in Hin as (t' & E & Ht'). apply (Hd (root t)); [apply root_in|]. eapply all_addrs_in; [exact Ht'|]. rewrite E. apply root_in. }
      rewrite E in HN. apply NoDup_app in HN as (_ & Hd & _). apply (Hd _ Hl). left. }
    unfold tal_next, tal_parent. rewrite (proj2 (Nat.eqb_neq (root ta) 0)) by done. rewrite (to_hdr st _ ha) by done. cbn [obind]. unfold children_at. rewrite Hpa, Hk. cbn [obind siblings parent]. rewrite E. by rewrite next_sibling_spec.
Qed.

Lemma oall_true {A} (f : A -> outcome bool) l : (forall x, x ∈ l -> f x = Ret true) -> oall f l = Ret true.
Proof. induction l as [|x l IH]; intros H; [done|]. cbn. rewrite H by left. cbn. apply IH. intros y Hy. apply H. by right. Qed.

Lemma check_node_spec st t : forall fuel h, grows st t -> hdrs st !! root t = Some h -> (length (addrs t) <= fuel)%nat -> check_node fuel st (parent_child h) (root t) = Ret true.
Proof.
  induction t as [a c ts IH] using tree_induction. intros fuel h Hg Hh Hfuel. inversion Hg as [? ? ? h' Hh' (_ & _ & Hcp) Hf Hk Hp Hts]; subst. cbn [root] in *. rewrite Hh in Hh'. injection Hh' as <-.
  destruct fuel as [|fuel]; [simpl in Hfuel; lia|]. cbn [check_node]. unfold to_tal_hdr_or_null. rewrite Hh. cbn [obind]. rewrite Nat.eqb_refl, Hcp. cbn [negb].
  destruct (find_children (prop h)) as [c|]; [|done]. unfold children_at. rewrite Hk. cbn [obind siblings]. apply oall_true. intros b Hb. apply list_elem_of_fmap in Hb as (t & -> & Ht).
  rewrite Forall_forall in IH, Hp, Hts. destruct (Hp t Ht) as (ht & Hht & [= <-]). apply (IH t Ht); [by apply Hts|done|]. simpl in Hfuel. change (concat (addrs <$> ts)) with (all_addrs ts) in Hfuel.
  apply list_elem_of_split in Ht as (ts1 & ts2 & ->). rewrite all_addrs_app in Hfuel. change (all_addrs (t :: ts2)) with (addrs t ++ all_addrs ts2) in Hfuel. rewrite !length_app in Hfuel. lia.
Qed.

Lemma tree_check_ok st t : rep st t -> tal_check st 0 = Ret true.
Proof.
  intros Hrep. pose proof Hrep as [Hr Hg _ _ _ _]. unfold tal_check, to_tal_hdr_or_null. destruct (grows_hdr st t (root t) Hg (root_in t)) as (h & Hh & _). rewrite Hr in Hh. rewrite Hh. cbn [obind]. rewrite <- Hr at 1.
  apply check_node_spec; [done|by rewrite Hr|]. rewrite (rep_size st t Hrep). lia.
Qed.

(** ** Properties of an object *)

Lemma grows_set_hdr st t a h h' : grows st t -> hdrs st !! a = Some h -> good_hdr h' -> find_children (prop h') = find_children (prop h) -> parent_child h' = parent_child h -> grows (set_hdr st a h') t.
Proof.
  intros Hg Hh Hgood Hf Hp. induction t as [b c ts IH] using tree_induction. inversion Hg as [? ? ? hb Hhb Hgb Hfb Hkb Hpb Hts]; subst.
  assert (Hl : forall x hx, hdrs st !! x = Some hx -> exists hx', hdrs (set_hdr st a h') !! x = Some hx' /\ (good_hdr hx -> good_hdr hx') /\ find_children (prop hx') = find_children (prop hx) /\ parent_child hx' = parent_child hx).
  { intros x hx Hx. simpl. destruct (decide (x = a)) as [->|]; [|rewrite lookup_insert_ne by done; by exists hx]. rewrite Hh in Hx. injection Hx as <-. exists h'. by rewrite lookup_insert_eq. }
  destruct (Hl b hb Hhb) as (hb' & Hhb' & Hgb' & Hfb' & _). rewrite Forall_forall in IH, Hpb, Hts. apply Grows with (h := hb'); [done|by apply Hgb'|done|exact Hkb| |].
  - apply Forall_forall. intros t Ht. destruct (Hpb t Ht) as (ht & Hht & Hpt). destruct (Hl _ ht Hht) as (ht' & Hht' & _ & _ & Hpt'). exists ht'. by rewrite Hpt'.
  - apply Forall_forall. intros t Ht. apply (IH t Ht). by apply Hts.
Qed.

Lemma rep_set_hdr st t a h h' : rep st t -> hdrs st !! a = Some h -> good_hdr h' -> find_children (prop h') = find_children (prop h) -> parent_child h' = parent_child h -> rep (set_hdr st a h') t.
Proof.
  intros [Hr Hg Hna Hnp Hh Hk] Ha Hgood Hf Hp. split; try done; [by eapply grows_set_hdr|]. intros x. simpl. rewrite <- Hh. destruct (decide (x = a)) as [->|]; [by rewrite lookup_insert_eq, Ha|by rewrite lookup_insert_ne].
Qed.

Lemma add_notifier_ok st t a types fn arg : rep st t -> a ∈ addrs t -> (types = 513 \/ types = 1537 \/ Z.ldiff types all_types = 0)%Z ->
  exists h, hdrs st !! a = Some h /\ good_hdr h /\ add_notifier_property st a types fn arg = Ret (set_hdr st a (with_prop h (NOTIFIER types (Some fn) arg :: prop h))) /\
    rep (set_hdr st a (with_prop h (NOTIFIER types (Some fn) arg :: prop h))) t.
Proof.
  intros Hrep Ha Ht. destruct (grows_hdr st t a (rep_grows _ _ Hrep) Ha) as (h & Hh & Hgood). exists h. split; [done|]. split; [done|]. unfold add_notifier_property, to_tal_hdr_or_null. rewrite Hh. split; [done|].
  eapply rep_set_hdr; [done|done| |done|done]. destruct Hgood as (Hd & Hg & Hc). split; [done|]. split; [|done]. apply Forall_cons. split; [by split|done].
Qed.

Lemma destructor_ok st t a fn : rep st t -> a ∈ addrs t -> a <> 0%nat ->
  exists h, hdrs st !! a = Some h /\ let st' := set_hdr st a (with_prop h (NOTIFIER 513 (Some fn) 0 :: prop h)) in tal_add_destructor_ st a fn = Ret st' /\ rep st' t.
Proof.
  intros Hrep Ha H0. destruct (add_notifier_ok st t a 513 fn 0 Hrep Ha ltac:(by left)) as (h & Hh & _ & Hadd & Hrep'). exists h. split; [done|]. split; [|done]. unfold tal_add_destructor_. rewrite (to_hdr st a h) by done. exact Hadd.
Qed.

(** ** Moving *)

Definition ren (old new a : nat) : nat := if (a =? old)%nat then new else a.
Fixpoint rename (old new : nat) (t : tree) : tree := match t with Node a c ts => Node (ren old new a) c (rename old new <$> ts) end.

Lemma rename_root old new t : root (rename old new t) = ren old new (root t).
Proof. by destruct t. Qed.
Lemma rename_addrs old new t : addrs (rename old new t) = ren old new <$> addrs t.
Proof.
  induction t as [a c ts IH] using tree_induction. cbn. f_equal. rewrite Forall_forall in IH. induction ts as [|t ts IHts]; [done|]. cbn. rewrite fmap_app, (IH t) by left. f_equal. apply IHts. intros t' Ht'. apply IH. by right.
Qed.
Lemma rename_props old new t : props (rename old new t) = props t.
Proof.
  induction t as [a c ts IH] using tree_induction. cbn. f_equal. rewrite Forall_forall in IH. induction ts as [|t ts IHts]; [done|]. cbn. rewrite (IH t) by left. f_equal. apply IHts. intros t' Ht'. apply IH. by right.
Qed.

(** The pointers that a children property is made of. *)
Lemma kids_facts st t c p l : grows st t -> c ∈ props t -> kids st !! c = Some (Children p l) ->
  (forall a, a ∈ l -> exists h, hdrs st !! a = Some h /\ parent_child h = c) /\ exists h, hdrs st !! p = Some h /\ find_children (prop h) = Some c.
Proof.
  intros Hg Hc Hk. induction t as [b cb ts IH] using tree_induction. inversion Hg as [? ? ? h Hh _ Hf Hkb Hp Hts]; subst. simpl in Hc. rewrite Forall_forall in IH, Hp, Hts. apply elem_of_app in Hc as [Hc|Hc].
  - destruct (find_children (prop h)) as [c'|] eqn:E; [|by apply not_elem_of_nil in Hc]. apply list_elem_of_singleton in Hc as ->. rewrite Hk in Hkb. injection Hkb as -> ->. split; [|by exists h].
    intros a Ha. apply list_elem_of_fmap in Ha as (t & -> & Ht). destruct (Hp t Ht) as (ht & Hht & [= Hpt]). by exists ht.
  - apply in_all_props in Hc as (t & Ht & Hc). by apply (IH t Ht (Hts t Ht)).
Qed.

Lemma rename_grows st st' t old new h' : (forall h, hdrs st !! old = Some h -> find_children (prop h') = find_children (prop h) /\ parent_child h' = parent_child h) -> good_hdr h' ->
  hdrs st' !! new = Some h' -> (forall a, a ∈ addrs t -> a <> old -> hdrs st' !! a = hdrs st !! a) ->
  (forall c p l, c ∈ props t -> kids st !! c = Some (Children p l) -> kids st' !! c = Some (Children (ren old new p) (ren old new <$> l))) ->
  grows st t -> grows st' (rename old new t).
Proof.
  intros Hsame Hgood Hnew Ha Hk. induction t as [b cb ts IH] using tree_induction. intros Hg. inversion Hg as [? ? ? h Hh Hgh Hf Hkb Hp Hts]; subst.
  assert (Hl : forall x hx, x ∈ addrs (Node b (find_children (prop h)) ts) -> hdrs st !! x = Some hx -> exists hx', hdrs st' !! ren old new x = Some hx' /\ (good_hdr hx -> good_hdr hx') /\ find_children (prop hx') = find_children (prop hx) /\ parent_child hx' = parent_child hx).
  { intros x hx Hx Hhx. unfold ren. destruct (Nat.eqb_spec x old) as [->|Hne]; [exists h'; destruct (Hsame hx Hhx); by split_and!|]. exists hx. by rewrite Ha. }
  destruct (Hl b h ltac:(left) Hh) as (hb & Hhb & Hgb & Hfb & _). rewrite Forall_forall in IH, Hp, Hts. cbn [rename]. apply Grows with (h := hb); [done|by apply Hgb|done| | |].
  - destruct (find_children (prop h)) as [c|]; [|by subst ts]. rewrite (Hk c b (root <$> ts)) by (done || simpl; left). do 2 f_equal. rewrite <- !list_fmap_compose. apply list_fmap_ext. intros i t _. simpl. by rewrite rename_root.
  - apply Forall_fmap, Forall_forall. intros t Ht. cbn. destruct (Hp t Ht) as (ht & Hht & Hpt). assert (Hr : root t ∈ addrs (Node b (find_children (prop h)) ts)) by (right; eapply all_addrs_in; [exact Ht|apply root_in]).
    destruct (Hl _ ht Hr Hht) as (ht' & Hht' & _ & _ & Hpt'). exists ht'. rewrite rename_root. split; [done|]. by rewrite Hpt'.
  - apply Forall_fmap, Forall_forall. intros t Ht. cbn. apply (IH t Ht); [| |by apply Hts].
    + intros x Hx. apply Ha. right. by eapply all_addrs_in.
    + intros c p l Hc. apply Hk. simpl. apply elem_of_app. right. by eapply all_props_in.
Qed.

Lemma taken_same (st st' : tal W) a b : taken st a = (b, st') -> hdrs st' = hdrs st /\ kids st' = kids st /\ notifiers st' = notifiers st /\ world st' = world st.
Proof. unfold taken. destruct (remove_first a (takenarr st)); intros [= <- <-]; done. Qed.

Lemma ren_fresh old new (l : list nat) : old ∉ l -> ren old new <$> l = l.
Proof.
  intros H. induction l as [|a l IH]; [done|]. cbn. rewrite IH by (intros Hin; apply H; by right). f_equal. unfold ren. rewrite (proj2 (Nat.eqb_neq a old)); [done|]. intros ->. apply H. left.
Qed.

(** The tree after a move, from the memory after it. *)
Lemma rename_rep st st' t old new h h' : rep st t -> hdrs st !! old = Some h -> old <> 0%nat -> hdrs st !! new = None ->
  find_children (prop h') = find_children (prop h) -> parent_child h' = parent_child h -> good_hdr h' ->
  hdrs st' = <[new := h']> (delete old (hdrs st)) ->
  (forall c p l, c ∈ props t -> kids st !! c = Some (Children p l) -> kids st' !! c = Some (Children (ren old new p) (ren old new <$> l))) ->
  (forall c, is_Some (kids st' !! c) <-> is_Some (kids st !! c)) -> rep st' (rename old new t).
Proof.
  intros [Hr Hg Hna Hnp Hh Hk] Hold H0 Hnew Hf Hp Hgood Eh Ek Ed.
  assert (Hnt : new ∉ addrs t) by (rewrite <- Hh, Hnew; by intros [? [=]]). assert (Hot : old ∈ addrs t) by (by rewrite <- Hh, Hold).
  assert (Hinj : forall x y, x ∈ addrs t -> y ∈ addrs t -> ren old new x = ren old new y -> x = y).
  { intros x y Hx Hy. unfold ren. destruct (Nat.eqb_spec x old), (Nat.eqb_spec y old); intros E; subst; done. }
  split.
  - rewrite rename_root, Hr. unfold ren. by rewrite (proj2 (Nat.eqb_neq 0 old)).
  - apply (rename_grows st st' t old new h'); [|done|by rewrite Eh, lookup_insert_eq| |done|done].
    + intros h1 Hh1. rewrite Hold in Hh1. by injection Hh1 as <-.
    + intros a Ha Hne. rewrite Eh, lookup_insert_ne by (by intros ->). by rewrite lookup_delete_ne.
  - rewrite rename_addrs. by apply NoDup_fmap_2_strong.
  - by rewrite rename_props.
  - intros a. rewrite rename_addrs, list_elem_of_fmap, Eh. destruct (decide (a = new)) as [->|Hne].
    + rewrite lookup_insert_eq. split; [|done]. intros _. exists old. unfold ren. by rewrite Nat.eqb_refl.
    + rewrite lookup_insert_ne by done. destruct (decide (a = old)) as [->|Hne'].
      * rewrite lookup_delete_eq. split; [by intros [? [=]]|]. intros (x & Hx & Hin). exfalso. unfold ren in Hx. destruct (Nat.eqb_spec x old); subst; done.
      * rewrite lookup_delete_ne, Hh by done. split; [intros Hin; exists a; unfold ren; by rewrite (proj2 (Nat.eqb_neq a old))|]. intros (x & Hx & Hin). unfold ren in Hx. destruct (Nat.eqb_spec x old); by subst.
  - intros c. by rewrite rename_props, Ed.
Qed.

Lemma moved_ok st t old new h d : rep st t -> hdrs st !! old = Some h -> old <> 0%nat -> hdrs st !! new = None ->
  exists st', header_moved st old new (with_data h d) = Ret st' /\ rep st' (rename old new t) /\ hdrs st' !! new = Some (with_data h d) /\ notifiers st' = notifiers st /\ world st' = world st.
Proof.
  intros Hrep Hold H0 Hnew. pose proof Hrep as [Hr Hg Hna Hnp Hh Hk]. assert (Hot : old ∈ addrs t) by (by rewrite <- Hh, Hold). destruct (grows_hdr st t old Hg Hot) as (h1 & Hh1 & Hgood). rewrite Hold in Hh1. injection Hh1 as <-.
  destruct (cut_spec st old t Hg Hna Hnp Hot ltac:(by rewrite Hr)) as (s & pc & p & l & Hs & Hrs & (h2 & Hh2 & Hpc) & Hpct & Hpcs & Hkpc & _ & _ & _ & Hgs). rewrite Hold in Hh2. injection Hh2 as <-.
  assert (Hown : find_children (prop h) <> Some pc) by (intros E; apply Hpcs; eapply (grows_prop_in st s old h); [done|rewrite <- Hrs; apply root_in|done|done]).
  destruct (kids_facts st t pc p l Hg Hpct Hkpc) as (_ & hp & Hhp & Hfp). assert (Hpo : p <> old) by (intros ->; rewrite Hold in Hhp; injection Hhp as <-; done).
  unfold header_moved, children_at. cbn [parent_child with_data kids]. rewrite Hpc, Hkpc. cbn [obind parent siblings]. change (fun a => if (a =? old)%nat then new else a) with (ren old new).
  set (st1 := set_kids _ pc _). destruct (taken st1 old) as [b st2] eqn:Et. destruct (taken_same _ _ _ _ Et) as (E1 & E2 & E3 & E4). set (st3 := if b then take_ st2 new else st2).
  assert (Hst3 : hdrs st3 = <[new := with_data h d]> (delete old (hdrs st)) /\ kids st3 = <[pc := Children p (ren old new <$> l)]> (kids st) /\ notifiers st3 = notifiers st /\ world st3 = world st).
  { unfold st3. destruct b; simpl; by rewrite E1, E2, E3, E4. }
  destruct Hst3 as (F1 & F2 & F3 & F4). change (prop (with_data h d)) with (prop h).
  assert (Hren : forall st', hdrs st' = hdrs st3 -> (forall c, kids st' !! c = match find_children (prop h) with Some c0 => if decide (c = c0) then Some (Children new (match kids st !! c0 with Some k => siblings k | None => [] end)) else kids st3 !! c | None => kids st3 !! c end) -> rep st' (rename old new t)).
  { intros st' G1 G2. assert (Hown' : forall c0, find_children (prop h) = Some c0 -> exists l0, kids st !! c0 = Some (Children old l0)) by (intros c0; by apply (grows_own_kids st t old h c0)).
    apply (rename_rep st st' t old new h (with_data h d)); try done; [by rewrite G1, F1| |].
    - intros c p' l' Hc Hkc. rewrite G2, F2. destruct (kids_facts st t c p' l' Hg Hc Hkc) as (Hl' & hp' & Hhp' & Hfp').
      assert (Hin : old ∈ l' -> c = pc) by (intros Hin; destruct (Hl' old Hin) as (h3 & Hh3 & <-); rewrite Hold in Hh3; by injection Hh3 as <-).
      assert (Hpar : p' = old -> find_children (prop h) = Some c) by (intros ->; rewrite Hold in Hhp'; by injection Hhp' as <-).
      assert (Hp' : p' <> old -> ren old new p' = p') by (intros Hne; unfold ren; by rewrite (proj2 (Nat.eqb_neq p' old))).
      assert (Hother : forall x, x = <[pc := Children p (ren old new <$> l)]> (kids st) !! c -> p' <> old -> x = Some (Children (ren old new p') (ren old new <$> l'))).
      { intros x -> Hne. rewrite Hp' by done. destruct (decide (c = pc)) as [->|Hcc]; [rewrite lookup_insert_eq; rewrite Hkpc in Hkc; by injection Hkc as -> ->|]. rewrite lookup_insert_ne, Hkc by done. rewrite ren_fresh; [done|]. by intros ?%Hin. }
      destruct (find_children (prop h)) as [c0|] eqn:E0; [|apply Hother; [done|by intros ?%Hpar]]. destruct (Hown' c0 eq_refl) as [l0 Hl0]. case_decide as Ecc.
      + subst c. rewrite Hl0 in Hkc. injection Hkc as <- <-. rewrite Hl0. simpl. unfold ren at 1. rewrite Nat.eqb_refl. rewrite ren_fresh; [done|]. intros ?%Hin. congruence.
      + apply Hother; [done|]. intros Ep. apply Hpar in Ep. congruence.
    - intros c. rewrite G2, F2. assert (Hpc' : is_Some (<[pc := Children p (ren old new <$> l)]> (kids st) !! c) <-> is_Some (kids st !! c)) by (destruct (decide (c = pc)) as [->|]; [by rewrite lookup_insert_eq, Hkpc|by rewrite lookup_insert_ne]).
      destruct (find_children (prop h)) as [c0|] eqn:E0; [|done]. case_decide as Ecc; [|done]. subst c. destruct (Hown' c0 eq_refl) as [l0 Hl0]. by rewrite Hl0. }
  destruct (find_children (prop h)) as [c0|] eqn:E0.
  - destruct (grows_own_kids st t old h c0 Hg Hot Hold E0) as [l0 Hl0]. rewrite F2, lookup_insert_ne, Hl0 by congruence. cbn [obind parent siblings]. rewrite Nat.eqb_refl. cbn [assert_ obind]. eexists. split; [done|].
    split; [|simpl; by rewrite F1, lookup_insert_eq]. apply Hren; [done|]. intros c. simpl. rewrite Hl0. simpl. case_decide as E; [subst; by rewrite lookup_insert_eq|by rewrite lookup_insert_ne].
  - exists st3. split; [done|]. split; [|by rewrite F1, lookup_insert_eq]. by apply Hren.
Qed.

Lemma rename_same a t : rename a a t = t.
Proof.
  induction t as [b c ts IH] using tree_induction. cbn. f_equal; [unfold ren; destruct (Nat.eqb_spec b a); by subst|]. rewrite Forall_forall in IH. induction ts as [|t ts IHts]; [done|]. cbn. rewrite (IH t) by left. f_equal. apply IHts. intros t' Ht'. apply IH. by right.
Qed.

Lemma resize_ok resizefn st t a h sz count n clear : rep st t -> hdrs st !! a = Some h -> a <> 0%nat -> adjust_size sz count = Ret n ->
  resizefn st a n = a \/ hdrs st !! resizefn st a n = None ->
  let b := resizefn st a n in
  exists st', tal_resize_ call resizefn st a sz count clear = Ret (b, st') /\ rep st' (rename a b t) /\ hdrs st' !! b = Some (with_data h (resize_data (data h) (Z.to_nat n) clear)).
Proof.
  intros Hrep Hh H0 Hn Hb b. unfold tal_resize_. rewrite (to_hdr st a h) by done. cbn [obind]. rewrite Hn. cbn [obind]. fold b. set (d := resize_data _ _ _).
  assert (Hgood : good_hdr h) by (destruct (grows_hdr st t a (rep_grows _ _ Hrep)) as (h1 & Hh1 & Hg); [by rewrite <- (rep_hdrs _ _ Hrep), Hh|]; rewrite Hh in Hh1; by injection Hh1 as <-).
  assert (Hlast : forall st1, rep st1 (rename a b t) -> hdrs st1 !! b = Some (with_data h d) -> exists st', (let! st := notify_if call st1 b TAL_NOTIFY_RESIZE (Z.to_nat n) in Ret (b, st)) = Ret (b, st') /\ rep st' (rename a b t) /\ hdrs st' !! b = Some (with_data h d)).
  { intros st1 Hrep1 Hh1. destruct (notify_if_quiet st1 b TAL_NOTIFY_RESIZE (Z.to_nat n) (with_data h d)) as [w ->]; [by do 2 right; left|done|apply Hgood|]. cbn [obind]. eexists. split; [done|]. split; [by apply rep_world|done]. }
  destruct (Nat.eqb_spec b a) as [E|Hne].
  - cbn [obind]. apply Hlast; [|rewrite E; simpl; by rewrite lookup_insert_eq]. rewrite E, rename_same. by eapply rep_set_hdr.
  - destruct Hb as [Hb|Hb]; [done|]. destruct (moved_ok st t a b h d Hrep Hh H0 Hb) as (st1 & -> & Hrep1 & Hh1 & _). cbn [obind].
    destruct (notify_if_quiet st1 b TAL_NOTIFY_MOVE a (with_data h d)) as [w ->]; [by do 1 right; left|done|apply Hgood|]. cbn [obind]. apply Hlast; [by apply rep_world|done].
Qed.

End proofs.

Lemma start_rep {W : Type} (w : W) : rep (tal_start w) (Node 0 (Some 0%nat) []).
Proof.
  split; [done| |apply NoDup_singleton|apply NoDup_singleton| |].
  - apply Grows with (h := null_parent); [done| |done|done|constructor|constructor]. split; [done|]. split; [|done]. apply Forall_cons. by split.
  - intros a. simpl. rewrite list_elem_of_singleton. destruct (decide (a = 0%nat)) as [->|]; [by rewrite lookup_singleton_eq|]. rewrite lookup_singleton_ne by done. split; [by intros [? [=]]|done].
  - intros a. simpl. rewrite list_elem_of_singleton. destruct (decide (a = 0%nat)) as [->|]; [by rewrite lookup_singleton_eq|]. rewrite lookup_singleton_ne by done. split; [by intros [? [=]]|done].
Qed.

(** C18. The allocations form a tree.  At the start it is the object that NULL stands for.  An
    allocation is a new youngest child of its context; freeing an object takes out exactly
    the object and what hangs from it, after the destructors of the object and then those of
    its children were called, each once; stealing moves an object with all that hangs from it
    under another one, not its own descendant; resizing keeps its place, and moves it to another
    address if it has to, with the data that fits; adding a destructor changes nothing else; the
    functions that look at the tree give the children, youngest first, and the parent; and the
    check of the library passes. *)
Theorem tal_refines {W : Type} (call : nat -> nat -> Z -> nat -> W -> W) (allocfn : tal W -> nat) (resizefn : tal W -> nat -> Z -> nat) (st : tal W) (t : tree) :
  (forall st, hdrs st !! allocfn st = None /\ kids st !! allocfn st = None) -> rep st t ->
  (forall w : W, rep (tal_start w) (Node 0 (Some 0%nat) [])) /\
  (forall ctx sz clear label, ctx ∈ addrs t ->
     exists p c st', tal_alloc_ call allocfn st ctx sz clear label = Ret (p, st') /\ p ∉ addrs t /\ rep st' (insert_tree ctx c (Node p None []) t) /\ takenarr st' = takenarr st) /\
  (forall a, a ∈ addrs t -> a <> 0%nat -> (forall s, subtree a t = Some s -> loose st (addrs s)) ->
     exists s st' w, subtree a t = Some s /\ tal_free call st a = Ret st' /\ rep st' (remove_tree a t) /\
       (notifiers st = 0%Z -> w = world st) /\ world st' = farewell call (hdrs st) a s w /\ (forall b, is_Some (hdrs st' !! b) <-> b ∈ addrs t /\ b ∉ addrs s)) /\
  (forall new a s, a ∈ addrs t -> a <> 0%nat -> subtree a t = Some s -> new ∈ addrs t -> new ∉ addrs s ->
     exists c st', tal_steal_ call allocfn st new a = Ret st' /\ rep st' (insert_tree new c s (remove_tree a t))) /\
  (forall a h sz count n clear, hdrs st !! a = Some h -> a <> 0%nat -> adjust_size sz count = Ret n ->
     resizefn st a n = a \/ hdrs st !! resizefn st a n = None -> let b := resizefn st a n in
     exists st', tal_resize_ call resizefn st a sz count clear = Ret (b, st') /\ rep st' (rename a b t) /\ hdrs st' !! b = Some (with_data h (resize_data (data h) (Z.to_nat n) clear))) /\
  (forall a fn, a ∈ addrs t -> a <> 0%nat ->
     exists h, hdrs st !! a = Some h /\ let st' := set_hdr st a (with_prop h (NOTIFIER 513 (Some fn) 0 :: prop h)) in tal_add_destructor_ st a fn = Ret st' /\ rep st' t) /\
  (forall p c ts, subtree p t = Some (Node p c ts) -> tal_first st p = Ret (head (root <$> ts)) /\
     forall l1 a l2, root <$> ts = l1 ++ a :: l2 -> tal_next st a = Ret (head l2) /\ tal_parent st a = Ret p) /\
  tal_check st 0 = Ret true.
Proof.
  intros Halloc Hrep. split_and!.
  - apply start_rep.
  - intros ctx sz clear label Hctx. destruct (alloc_ok call allocfn Halloc st t ctx sz clear label Hrep Hctx) as (p & c & st' & H). exists p, c, st'. naive_solver.
  - intros a Ha H0 Hl. by apply free_ok.
  - intros new a s Ha H0 Hs Hnew Hns. destruct (steal_ok call allocfn st t new a s) as (c & st' & H1 & H2 & _); try done. by exists c, st'.
  - intros a h sz count n clear Hh H0 Hn Hb. by apply resize_ok.
  - intros a fn Ha H0. by apply destructor_ok.
  - intros p c ts Hs. by eapply look_ok.
  - by eapply tree_check_ok.
Qed.

(** An allocator, and callbacks that note the object they are called for. *)
Definition first_address {W} (st : tal W) : nat := fresh (dom (hdrs st) ∪ dom (kids st) : gset nat).
Definition noted (fn ctx : nat) (type : Z) (info : nat) (w : list nat) : list nat := w ++ [ctx].

Lemma first_address_ok {W} (st : tal W) : hdrs st !! first_address st = None /\ kids st !! first_address st = None.
Proof. pose proof (is_fresh (dom (hdrs st) ∪ dom (kids st) : gset nat)) as H. rewrite not_elem_of_union, !not_elem_of_dom in H. exact H. Qed.

Lemma tal_refines_witness : exists p st1 st2,
  tal_alloc_ noted first_address (tal_start []) 0 8 true None = Ret (p, st1) /\ tal_free noted st1 p = Ret st2 /\ tal_check st2 0 = Ret true.
Proof.
  pose proof (fun st t => tal_refines noted first_address (fun _ a _ => a) st t first_address_ok) as H.
  destruct (H _ _ (start_rep [])) as (_ & Halloc & _). destruct (Halloc 0%nat 8%Z true None ltac:(left)) as (p & c & st1 & E1 & Hp & Hrep1 & Ht1). cbn in Hrep1. assert (Hp0 : p <> 0%nat) by (intros ->; apply Hp; left).
  destruct (H _ _ Hrep1) as (_ & _ & Hfree & _). destruct (Hfree p) as (s & st2 & w & _ & E2 & Hrep2 & _); [right; left|done| |].
  { intros s Hs a Ha. rewrite Ht1. cbn in Hs. destruct p; [done|]. cbn in Hs. rewrite Nat.eqb_refl in Hs. injection Hs as <-. apply list_elem_of_singleton in Ha as ->. split; [apply not_elem_of_nil|done]. }
  exists p, st1, st2. split; [exact E1|]. split; [exact E2|]. by destruct (H _ _ Hrep2) as (_ & _ & _ & _ & _ & _ & _ & Hc).
Defined.

(** A parent with two children: the destructors of the parent, then of the younger and of the
    older child, are called once each. *)
Example destructors_in_order :
  (let! (a, st) := tal_alloc_ noted first_address (tal_start []) 0 8 true None in
   let! (b, st) := tal_alloc_ noted first_address st a 8 true None in
   let! (c, st) := tal_alloc_ noted first_address st a 8 true None in
   let! st := tal_add_destructor_ st b 7 in let! st := tal_add_destructor_ st c 7 in let! st := tal_add_destructor_ st a 7 in
   let! st := tal_free noted st a in Ret (bool_decide (world st = [a; c; b]), size (hdrs st), size (kids st))) = Ret (true, 1%nat, 1%nat).
Proof. vm_compute. reflexivity. Qed.
