(* ===== verification/Wireaddr.v ===== *)
(** common/wireaddr.c, common/base32.c with ccan/str/base32, and what they use of ccan/str,
    ccan/tal/str and ccan/mem: network addresses on the wire and as text, and the functions of
    common/json_helpers.c that output them.

    Arguments stand for what the system does: [inet_ntop4], [inet_ntop6], [inet_pton4] and
    [inet_pton6] (the two functions for AF_INET and AF_INET6, [None] their failure), and
    [getaddrinfo] (the list of addresses, or the text of its error). *)
From S2P Require Import Prelude Utf8 Jsmn JsonTree Json JsonOut Wire Tlv Amount JsonHelpers.

(** * ccan/mem *)

(** [memcmp(a, b, n) == 0] on arrays of the same length. *)
Definition memcmp_eq (a b : bytes) : bool := bool_decide (a = b).
Definition memeq (a b : bytes) : bool := (length a =? length b) && memcmp_eq a b.

(** The first [len] bytes one by one: [inl] is a return, [inr] the bytes that are left. *)
Fixpoint memeqzero_first (len : nat) (p : bytes) : bool + bytes :=
  match len with
  | O => inr p
  | S k =>
      match p with
      | [] => inl true
      | c :: r => if negb (ch_eqb c NUL) then inl false else memeqzero_first k r
      end
  end.

(** The rest is compared with the data itself, which is as long from its start. *)
Definition memeqzero (data : bytes) : bool :=
  match memeqzero_first 16 data with
  | inl b => b
  | inr p => memcmp_eq (take (length p) data) p
  end.

(** [memcchr]: the offset of the first other byte. *)
Fixpoint memcchr (data : bytes) (c : ascii) : option nat :=
  match data with
  | [] => None
  | x :: r => if negb (ch_eqb x c) then Some 0 else S <$> memcchr r c
  end.

Fixpoint mempbrkm (data accept : bytes) : option nat :=
  match data with
  | [] => None
  | x :: r => if ch_in x accept then Some 0 else S <$> mempbrkm r accept
  end.

(** * ccan/str and ccan/tal/str *)

Definition strstarts (str prefix : bytes) : bool := streq (take (length prefix) str) prefix.
Definition strends (str postfix : bytes) : bool :=
  if length str <? length postfix then false else streq (drop (length str - length postfix) str) postfix.

Definition tal_strdup (p : bytes) : bytes := until_nul p.
Definition tal_strndup (p : bytes) (n : nat) : bytes := until_nul (take n p).
Definition tal_strcat (s1 : option bytes) (s2 : bytes) : bytes := default [] s1 ++ s2.

Inductive strsplit : Type := STR_EMPTY_OK | STR_NO_EMPTY.
Inductive strjoin : Type := STR_TRAIL | STR_NO_TRAIL.

Fixpoint strspn (s set : bytes) : nat :=
  match s with c :: r => if ch_in c set then S (strspn r set) else 0 | [] => 0 end.
Fixpoint strcspn (s set : bytes) : nat :=
  match s with c :: r => if ch_in c set then 0 else S (strcspn r set) | [] => 0 end.

(** The loop of [tal_strsplit_]: a round for each part, which takes at least one byte. *)
Fixpoint strsplit_loop (fuel : nat) (str delims : bytes) (flags : strsplit) : list bytes :=
  match fuel, str with
  | S f, _ :: _ =>
      let len := strcspn str delims in
      let dlen := strspn (drop len str) delims in
      let dlen := match flags with STR_EMPTY_OK => if dlen =? 0 then 0 else 1 | STR_NO_EMPTY => dlen end in
      take len str :: strsplit_loop f (drop (len + dlen) str) delims flags
  | _, _ => []
  end.

(** The parts without the NULL behind them: [tal_count] is one more. *)
Definition tal_strsplit (string delims : bytes) (flags : strsplit) : list bytes :=
  let str := match flags with STR_NO_EMPTY => drop (strspn string delims) string | STR_EMPTY_OK => string end in
  strsplit_loop (length str) str delims flags.

Fixpoint tal_strjoin (strings : list bytes) (delim : bytes) (flags : strjoin) : bytes :=
  match strings with
  | [] => []
  | s :: r =>
      let d := match flags, r with STR_NO_TRAIL, [] => [] | _, _ => delim end in
      s ++ d ++ tal_strjoin r delim flags
  end.

(** [tal_strreg] with a regular expression of letters only: it is found anywhere. *)
Fixpoint tal_strreg (string regex : bytes) : bool :=
  strstarts string regex || match string with [] => false | _ :: r => tal_strreg r regex end.

(** [strrchr]: the offset of the last one. *)
Fixpoint strrchr (s : bytes) (c : ascii) : option nat :=
  match s with
  | [] => None
  | x :: r => match strrchr r c with Some n => Some (S n) | None => if ch_eqb x c then Some 0 else None end
  end.

(** [strtol] in base 10, and what is left at [endp]. *)
Definition strtol (s : bytes) : Z * bytes :=
  let '(_, s1) := skip_space s in
  let '(_, neg, s2) := take_sign s1 in
  let '(n, v) := digits 10 0 s2 in
  match n with
  | O => (0%Z, s)
  | _ => (Z.max LLONG_MIN (Z.min LLONG_MAX (if neg : bool then - v else v)), drop n s2)
  end.

(** [strncpy]: the [n] bytes it writes. *)
Definition strncpy (src : bytes) (n : nat) : bytes := take n src ++ repeat NUL (n - length src).

(** * ccan/str/base32 *)

Section Base32.
(** The global [base32_chars]: 32 characters and the one for padding. *)
Variable base32_chars : bytes.

Definition b32_char (d : nat) : ascii := nth d base32_chars NUL.

Definition padlen (remainder : nat) : outcome nat :=
  match remainder with
  | 0 => Ret 0
  | 1 => Ret 6
  | 2 => Ret 4
  | 3 => Ret 3
  | 4 => Ret 1
  | _ => Abort "padlen"
  end.

Definition base32_str_size (bytes : nat) : nat := (bytes + 4) / 5 * 8 + 1.

(** The padding at the end, six at most; the text is given from its end. *)
Fixpoint count_padding (rstr : bytes) (left : nat) : nat :=
  match left, rstr with
  | S k, c :: r => if ch_eqb c (b32_char 32) then S (count_padding r k) else 0
  | _, _ => 0
  end.

Definition base32_data_size (str : bytes) : nat :=
  let max := (length str + 7) / 8 * 5 in
  let padding := count_padding (rev str) 6 in
  max - (padding * 5 + 7) / 8.

(** The loop over the eight characters; [None] is a return of false. *)
Fixpoint decode_chars (c : bytes) (acc : Z) (num_pad : nat) : option (Z * nat) :=
  match c with
  | [] => Some (acc, num_pad)
  | x :: r =>
      let acc := wrap64 (Z.shiftl acc 5) in
      match memchr x (take 32 base32_chars) with
      | None => if ch_eqb x (b32_char 32) then decode_chars r acc (S num_pad) else None
      | Some p => if negb (num_pad =? 0) then None else decode_chars r (Z.lor acc (Z.of_nat p)) num_pad
      end
  end.

(** The number in big-endian order, and how many bytes of it count. *)
Definition decode_8_chars (c : bytes) : option (bytes * nat) :=
  match decode_chars c 0 0 with
  | None => None
  | Some (acc, num_pad) =>
      if (num_pad =? 5) || (num_pad =? 2) then None
      else Some (to_be 8 acc, (40 - num_pad * 5) / 8)
  end.

(** What is written into the buffer; a round takes eight characters. *)
Fixpoint base32_decode_loop (fuel : nat) (str : bytes) (bufsize : nat) : option bytes :=
  match fuel with
  | O => None
  | S f =>
      if length str <? 8 then (if (length str =? 0) && (bufsize =? 0) then Some [] else None)
      else
        match decode_8_chars (take 8 str) with
        | None => None
        | Some (val, bytes) =>
            if bufsize <? bytes then None
            else app (take bytes (drop 3 val)) <$> base32_decode_loop f (drop 8 str) (bufsize - bytes)
        end
  end.
Definition base32_decode (str : bytes) (bufsize : nat) : option bytes := base32_decode_loop (S (length str)) str bufsize.

(** [while (bits > 0)]: a round for each five bits. *)
Fixpoint encode_bits (fuel : nat) (bits : Z) (res : Z) : bytes :=
  match fuel with
  | O => []
  | S f =>
      if (0 <? bits)%Z
      then b32_char (Z.to_nat (Z.land (Z.shiftr res 35) 31)) :: encode_bits f (bits - 5) (wrap64 (Z.shiftl res 5))
      else []
  end.

Definition encode_8_chars (buf : bytes) : outcome bytes :=
  let bytes := length buf in
  let! _ := assert_ ((0 <? bytes) && (bytes <=? 5)) "encode_8_chars" in
  let res := from_be (repeat NUL 3 ++ buf ++ repeat NUL (5 - bytes)) in
  let dest := encode_bits 8 (Z.of_nat bytes * 8) res in
  if negb (bytes =? 5) then let! n := padlen bytes in Ret (dest ++ repeat (b32_char 32) n) else Ret dest.

(** What is written into [dest] before the NUL; [None] is false. *)
Fixpoint base32_encode_loop (fuel : nat) (buf : bytes) (destsize : nat) : outcome (option bytes) :=
  match fuel, buf with
  | S f, _ :: _ =>
      let bytes := if length buf <? 5 then length buf else 5 in
      if destsize <? 8 then Ret None
      else
        let! t := encode_8_chars (take bytes buf) in
        let! r := base32_encode_loop f (drop bytes buf) (destsize - 8) in
        Ret (app t <$> r)
  | _, _ => Ret (if negb (destsize =? 1) then None else Some [])
  end.
Definition base32_encode (buf : bytes) (destsize : nat) : outcome (option bytes) := base32_encode_loop (length buf) buf destsize.
End Base32.

(** common/base32.c *)
Definition base32_lower : bytes := bs "abcdefghijklmnopqrstuvwxyz234567=".

(** The text; the array is sized for it, and is not looked at when it does not fit. *)
Definition b32_encode (data : bytes) : outcome bytes :=
  let! r := base32_encode base32_lower data (base32_str_size (length data)) in
  match r with Some s => Ret s | None => Abort "b32_encode" end.

(** The size is counted before [base32_chars] is assigned, and looks at its last character only,
    which is the same in the default. *)
Definition b32_decode (str : bytes) : option bytes :=
  base32_decode base32_lower str (base32_data_size base32_lower str).

(** * Addresses *)

Definition TOR_V2_ADDRLEN : nat := 10.
Definition TOR_V3_ADDRLEN : nat := 35.
Definition TOR_V3_BLOBLEN : nat := 64.
Definition DEFAULT_PORT : Z := 9735.
Definition STATIC_TOR_MAGIC_STRING : bytes := bs "gen-default-toraddress".

(** [enum wire_addr_type]; the field may have any value that came over the wire. *)
Definition ADDR_TYPE_IPV4 : Z := 1.
Definition ADDR_TYPE_IPV6 : Z := 2.
Definition ADDR_TYPE_TOR_V2 : Z := 3.
Definition ADDR_TYPE_TOR_V3 : Z := 4.

(** [waddr] is the first [addrlen] bytes of the array; nothing reads the others. *)
Record wireaddr : Type := WireAddr { wtype : Z; waddr : bytes; wport : Z }.

(** [char sockname[108]] and [char name[256]] with all their bytes.  The blob of an automatic
    Tor service is never set or read. *)
Inductive wireaddr_internal : Type :=
| ADDR_INTERNAL_SOCKNAME (sockname : bytes)
| ADDR_INTERNAL_ALLPROTO (port : Z)
| ADDR_INTERNAL_AUTOTOR (address : wireaddr) (port : Z)
| ADDR_INTERNAL_FORPROXY (name : bytes) (port : Z)
| ADDR_INTERNAL_WIREADDR (a : wireaddr)
| ADDR_INTERNAL_STATICTOR (address : wireaddr) (port : Z) (blob : bytes).

Definition SOCKNAME_SIZE : nat := 108.
Definition NAME_SIZE : nat := 256.
Definition BLOB_SIZE : nat := S TOR_V3_BLOBLEN.

Definition wireaddr_eq (a b : wireaddr) : bool :=
  if negb (wtype a =? wtype b)%Z then false
  else if negb (wport a =? wport b)%Z then false
  else memeq (waddr a) (waddr b).

(** ** The wire *)

(** The length that goes with a type. *)
Definition type_addrlen (type : Z) : option nat :=
  if (type =? ADDR_TYPE_IPV4)%Z then Some 4
  else if (type =? ADDR_TYPE_IPV6)%Z then Some 16
  else if (type =? ADDR_TYPE_TOR_V2)%Z then Some TOR_V2_ADDRLEN
  else if (type =? ADDR_TYPE_TOR_V3)%Z then Some TOR_V3_ADDRLEN
  else None.

(** [old] is what the memory of [addr] held: an unknown type leaves the rest of it. *)
Definition fromwire_wireaddr (c : cursor) (old : wireaddr) : bool * wireaddr * cursor :=
  let '(type, c) := fromwire_u8 c in
  match type_addrlen type with
  | None => (false, WireAddr type (waddr old) (wport old), c)
  | Some addrlen =>
      let '(addr, c) := fromwire c addrlen in
      let '(port, c) := fromwire_u16 c in
      (match c with Some _ => true | None => false end, WireAddr type addr port, c)
  end.

Definition towire_wireaddr (a : wireaddr) : bytes :=
  towire_u8 (wtype a) ++ towire (waddr a) ++ towire_u16 (wport a).

(** [enum addr_listen_announce] as its number. *)
Definition fromwire_addr_listen_announce (c : cursor) : Z * cursor := fromwire_u8 c.
Definition towire_addr_listen_announce (ala : Z) : bytes := towire_u8 ala.

Definition towire_wireaddr_internal (a : wireaddr_internal) : bytes :=
  match a with
  | ADDR_INTERNAL_SOCKNAME sockname => towire_u8 0 ++ towire_u8_array sockname
  | ADDR_INTERNAL_ALLPROTO port => towire_u8 1 ++ towire_u16 port
  | ADDR_INTERNAL_AUTOTOR address port => towire_u8 2 ++ towire_wireaddr address ++ towire_u16 port
  | ADDR_INTERNAL_FORPROXY name port => towire_u8 3 ++ towire_u8_array name ++ towire_u16 port
  | ADDR_INTERNAL_WIREADDR a => towire_u8 4 ++ towire_wireaddr a
  | ADDR_INTERNAL_STATICTOR address port blob =>
      towire_u8 5 ++ towire_wireaddr address ++ towire_u8_array blob ++ towire_u16 port
  end.

(** [return *cursor != NULL]. *)
Definition if_not_failed (c : cursor) (a : wireaddr_internal) : option wireaddr_internal * cursor :=
  (match c with Some _ => Some a | None => None end, c).

(** [memchr] of a NUL in a whole array, or else [fromwire_fail]. *)
Definition must_terminate (arr : bytes) (c : cursor) : cursor :=
  match memchr NUL arr with Some _ => c | None => None end.

(** [old] is what the memory of the address in the union held; [None] is a return of false. *)
Definition fromwire_wireaddr_internal (c : cursor) (old : wireaddr) : option wireaddr_internal * cursor :=
  let '(itype, c) := fromwire_u8 c in
  if (itype =? 0)%Z then
    let '(sockname, c) := fromwire_u8_array c SOCKNAME_SIZE in
    if_not_failed (must_terminate sockname c) (ADDR_INTERNAL_SOCKNAME sockname)
  else if (itype =? 1)%Z then
    let '(port, c) := fromwire_u16 c in if_not_failed c (ADDR_INTERNAL_ALLPROTO port)
  else if (itype =? 2)%Z then
    let '(_, address, c) := fromwire_wireaddr c old in
    let '(port, c) := fromwire_u16 c in if_not_failed c (ADDR_INTERNAL_AUTOTOR address port)
  else if (itype =? 5)%Z then
    let '(_, address, c) := fromwire_wireaddr c old in
    let '(blob, c) := fromwire_u8_array c BLOB_SIZE in
    let '(port, c) := fromwire_u16 c in if_not_failed c (ADDR_INTERNAL_STATICTOR address port blob)
  else if (itype =? 4)%Z then
    let '(ok, a, c) := fromwire_wireaddr c old in
    (if ok : bool then Some (ADDR_INTERNAL_WIREADDR a) else None, c)
  else if (itype =? 3)%Z then
    let '(name, c) := fromwire_u8_array c NAME_SIZE in
    let c := must_terminate name c in
    let '(port, c) := fromwire_u16 c in if_not_failed c (ADDR_INTERNAL_FORPROXY name port)
  else (None, None).

(** The loop of [fromwire_wireaddr_array]: a round takes at least the byte of the type.  [None]
    is NULL.  The variable of the loop is not initialised, and its content is not used. *)
Fixpoint wireaddr_array_loop (fuel : nat) (c : bytes) : option (list wireaddr) :=
  match fuel, c with
  | S f, _ :: _ =>
      match fromwire_wireaddr (Some c) (WireAddr 0 [] 0) with
      | (false, _, None) => None
      | (false, _, Some _) => Some []
      | (true, a, Some r) => cons a <$> wireaddr_array_loop f r
      | (true, a, None) => Some [a]
      end
  | _, _ => Some []
  end.
Definition fromwire_wireaddr_array (ser : bytes) : option (list wireaddr) := wireaddr_array_loop (length ser) ser.

(** ** Socket addresses

    The structures of the system as bytes: the family in the order of the machine, the port in
    that of the network. *)
Definition AF_LOCAL : Z := 1.
Definition AF_INET : Z := 2.
Definition AF_INET6 : Z := 10.
Definition family_bytes (f : Z) : bytes := rev (to_be 2 f).

Definition sockaddr_in (port : Z) (addr : bytes) : bytes := family_bytes AF_INET ++ to_be 2 port ++ addr ++ repeat NUL 8.
Definition sockaddr_in6 (port : Z) (addr : bytes) : bytes :=
  family_bytes AF_INET6 ++ to_be 2 port ++ repeat NUL 4 ++ addr ++ repeat NUL 4.
Definition sin_addr (sa : bytes) : bytes := take 4 (drop 4 sa).
Definition sin6_addr (sa : bytes) : bytes := take 16 (drop 8 sa).

Definition wireaddr_from_ipv4 (ip4 : bytes) (port : Z) : wireaddr := WireAddr ADDR_TYPE_IPV4 (take 4 ip4) port.
Definition wireaddr_from_ipv6 (ip6 : bytes) (port : Z) : wireaddr := WireAddr ADDR_TYPE_IPV6 (take 16 ip6) port.

Definition wireaddr_to_ipv4 (a : wireaddr) : outcome (option bytes) :=
  if negb (wtype a =? ADDR_TYPE_IPV4)%Z then Ret None
  else
    let! _ := assert_ (length (waddr a) =? 4) "wireaddr_to_ipv4" in
    Ret (Some (sockaddr_in (wport a) (waddr a))).
Definition wireaddr_to_ipv6 (a : wireaddr) : outcome (option bytes) :=
  if negb (wtype a =? ADDR_TYPE_IPV6)%Z then Ret None
  else
    let! _ := assert_ (length (waddr a) =? 16) "wireaddr_to_ipv6" in
    Ret (Some (sockaddr_in6 (wport a) (waddr a))).

Definition wireaddr_is_wildcard (a : wireaddr) : outcome bool :=
  if (wtype a =? ADDR_TYPE_IPV6)%Z || (wtype a =? ADDR_TYPE_IPV4)%Z then Ret (memeqzero (waddr a))
  else if (wtype a =? ADDR_TYPE_TOR_V2)%Z || (wtype a =? ADDR_TYPE_TOR_V3)%Z then Ret false
  else Abort "wireaddr_is_wildcard".

Definition wireaddr_from_unresolved (name : bytes) (port : Z) : option wireaddr_internal :=
  if NAME_SIZE <=? length name then None
  else Some (ADDR_INTERNAL_FORPROXY (strncpy name NAME_SIZE) port).

Definition wireaddr_from_sockname (sockname : bytes) : wireaddr_internal :=
  ADDR_INTERNAL_SOCKNAME (strncpy sockname (SOCKNAME_SIZE - 1) ++ [NUL]).

Definition wireaddr_to_sockname (a : wireaddr_internal) : option bytes :=
  match a with
  | ADDR_INTERNAL_SOCKNAME sockname => Some (family_bytes AF_LOCAL ++ sockname)
  | _ => None
  end.

(** The family and the socket address; the type of the socket is always a stream. *)
Record addrinfo : Type := AddrInfo { ai_family : Z; ai_addr : bytes }.

Definition wireaddr_to_addrinfo (a : wireaddr) : outcome addrinfo :=
  if (wtype a =? ADDR_TYPE_IPV4)%Z then
    let! sin := wireaddr_to_ipv4 a in Ret (AddrInfo AF_INET (default [] sin))
  else if (wtype a =? ADDR_TYPE_IPV6)%Z then
    let! sin6 := wireaddr_to_ipv6 a in Ret (AddrInfo AF_INET6 (default [] sin6))
  else Abort "wireaddr_to_addrinfo".

Definition wireaddr_internal_to_addrinfo (a : wireaddr_internal) : outcome addrinfo :=
  match a with
  | ADDR_INTERNAL_SOCKNAME _ => Ret (AddrInfo AF_LOCAL (default [] (wireaddr_to_sockname a)))
  | ADDR_INTERNAL_WIREADDR w => wireaddr_to_addrinfo w
  | _ => Abort "wireaddr_internal_to_addrinfo"
  end.

Fixpoint all_tor_addresses (l : list wireaddr_internal) : outcome bool :=
  match l with
  | [] => Ret true
  | a :: r =>
      match a with
      | ADDR_INTERNAL_SOCKNAME _ | ADDR_INTERNAL_ALLPROTO _ => Ret false
      | ADDR_INTERNAL_FORPROXY _ _ => Abort "all_tor_addresses"
      | ADDR_INTERNAL_AUTOTOR _ _ | ADDR_INTERNAL_STATICTOR _ _ _ => all_tor_addresses r
      | ADDR_INTERNAL_WIREADDR w =>
          if (wtype w =? ADDR_TYPE_IPV4)%Z || (wtype w =? ADDR_TYPE_IPV6)%Z then Ret false
          else if (wtype w =? ADDR_TYPE_TOR_V2)%Z || (wtype w =? ADDR_TYPE_TOR_V3)%Z then all_tor_addresses r
          else Abort "all_tor_addresses"
      end
  end.

(** ** Texts *)

(** [strtol] of what follows a colon, into a [u16]: whether it is a port, and the port. *)
Definition read_port (s : bytes) : bool * Z :=
  let '(l, endp) := strtol s in
  let port := (l mod 65536)%Z in
  (negb (port =? 0)%Z && match endp with [] => true | _ => false end, port).

(** What is returned, the address when it is set, and the port. *)
Definition separate_address_and_port (arg : bytes) (port : Z) : bool * option bytes * Z :=
  let read addr portcolon :=
    match portcolon with
    | Some text => let '(ok, p) := read_port text in (ok, Some addr, p)
    | None => (true, Some addr, port)
    end in
  if strstarts arg (bs "[") then
    match memchr "]"%char arg with
    | None => (false, None, port)
    | Some end_ =>
        let rest := drop (S end_) arg in
        read (tal_strndup (drop 1 arg) (end_ - 1)) ((fun colon => drop (S colon) rest) <$> memchr ":"%char rest)
    end
  else
    match memchr ":"%char arg with
    | Some colon =>
        if negb (bool_decide (Some colon = strrchr arg ":"%char)) || (S colon =? length arg) then read (tal_strdup arg) None
        else read (tal_strndup arg colon) (Some (drop (S colon) arg))
    | None => read (tal_strdup arg) None
    end.

Section System.
Variables inet_ntop4 inet_ntop6 inet_pton4 inet_pton6 : bytes -> option bytes.
Variable getaddrinfo : bytes -> bytes -> bytes + list addrinfo.

(** The text, and whether it was allocated: the two constants are not. *)
Definition fmt_wireaddr_without_port (a : wireaddr) : outcome (bytes * bool) :=
  if (wtype a =? ADDR_TYPE_IPV4)%Z then
    match inet_ntop4 (waddr a) with
    | None => Ret (bs "Unprintable-ipv4-address", false)
    | Some addrstr => Ret (addrstr, true)
    end
  else if (wtype a =? ADDR_TYPE_IPV6)%Z then
    match inet_ntop6 (waddr a) with
    | None => Ret (bs "Unprintable-ipv6-address", false)
    | Some addrstr => Ret (bs "[" ++ addrstr ++ bs "]", true)
    end
  else if (wtype a =? ADDR_TYPE_TOR_V2)%Z || (wtype a =? ADDR_TYPE_TOR_V3)%Z then
    let! s := b32_encode (waddr a) in Ret (s ++ bs ".onion", true)
  else Ret (bs "Unknown type " ++ fmt_u (wtype a) ++ bs " " ++ hex_encode (waddr a), true).

(** [tal_append_fmt] resizes the text, which must have been allocated. *)
Definition fmt_wireaddr (a : wireaddr) : outcome bytes :=
  let! (ret, allocated) := fmt_wireaddr_without_port a in
  let! _ := assert_ allocated "tal_resize" in
  Ret (ret ++ bs ":" ++ fmt_u (wport a)).

Definition fmt_wireaddr_internal (a : wireaddr_internal) : outcome bytes :=
  match a with
  | ADDR_INTERNAL_SOCKNAME sockname => Ret (until_nul sockname)
  | ADDR_INTERNAL_ALLPROTO port => Ret (bs ":" ++ fmt_u port)
  | ADDR_INTERNAL_WIREADDR w => fmt_wireaddr w
  | ADDR_INTERNAL_FORPROXY name port => Ret (until_nul name ++ bs ":" ++ fmt_u port)
  | ADDR_INTERNAL_AUTOTOR address _ => let! s := fmt_wireaddr address in Ret (bs "autotor:" ++ s)
  | ADDR_INTERNAL_STATICTOR address _ _ => let! s := fmt_wireaddr address in Ret (bs "statictor:" ++ s)
  end.

(** The addresses of a reply of the types that are known. *)
Definition addresses_of (infos : list addrinfo) (port : Z) : list wireaddr :=
  flat_map (fun ai =>
    if (ai_family ai =? AF_INET)%Z then [wireaddr_from_ipv4 (sin_addr (ai_addr ai)) port]
    else if (ai_family ai =? AF_INET6)%Z then [wireaddr_from_ipv6 (sin6_addr (ai_addr ai)) port]
    else []) infos.

(** [no_dns] says whether the pointer is given.  The result: the array (NULL is [None]), what is
    stored in [*no_dns], and what is stored in [*err_msg], if anything.  A reply has at least
    one address. *)
Definition wireaddr_from_hostname (hostname : bytes) (port : Z) (no_dns : bool) (broken_reply : option bytes) :
    option (list wireaddr) * bool * option bytes :=
  if strends hostname (bs ".onion") then
    let dec := default [] (b32_decode (take (length hostname - length (bs ".onion")) hostname)) in
    if length dec =? TOR_V2_ADDRLEN then (Some [WireAddr ADDR_TYPE_TOR_V2 dec port], false, None)
    else if length dec =? TOR_V3_ADDRLEN then (Some [WireAddr ADDR_TYPE_TOR_V3 dec port], false, None)
    else (None, false, Some (bs "Invalid Tor address"))
  else if no_dns then (None, true, Some (bs "Needed DNS, but lookups suppressed"))
  else
    match getaddrinfo hostname (fmt_u port) with
    | inl gai_err => (None, false, Some gai_err)
    | inr addrinfos =>
        let broken := match broken_reply, addrinfos with Some b, ai :: _ => memeq (ai_addr ai) b | _, _ => false end in
        let addrs := if broken then [] else addresses_of addrinfos port in
        (match addrs with [] => None | _ => Some addrs end, false, None)
    end.

(** The address or the message, and what is stored in [*no_dns]. *)
Definition parse_wireaddr (arg : bytes) (defport : Z) (no_dns : bool) : (bytes + wireaddr) * bool :=
  match separate_address_and_port arg defport with
  | (true, Some ip, port) =>
      let ip := if streq ip (bs "localhost") then bs "127.0.0.1"
                else if streq ip (bs "ip6-localhost") then bs "::1" else ip in
      match inet_pton4 ip with
      | Some v4 => (inr (wireaddr_from_ipv4 v4 port), false)
      | None =>
          match inet_pton6 ip with
          | Some v6 => (inr (wireaddr_from_ipv6 v6 port), false)
          | None =>
              match wireaddr_from_hostname ip port no_dns None with
              | (Some (a :: _), needed, _) => (inr a, needed)
              | (_, needed, err_msg) => (inl (default (bs "Error parsing hostname") err_msg), needed)
              end
          end
      end
  | _ => (inl (bs "Error parsing hostname"), false)
  end.

(** A part [torport=<number>] of the address of a Tor service. *)
Definition read_torport (part : bytes) : bytes + Z :=
  match tal_strsplit part (bs "=") STR_EMPTY_OK with
  | [_; number] => let '(ok, port) := read_port number in if ok : bool then inr port else inl (bs "Bad :torport: number")
  | _ => inl (bs "Bad :torport: format")
  end.

(** The loop over the parts after the first one, of [autotor:]. *)
Fixpoint autotor_parts (parts : list bytes) (port : Z) : bytes + Z :=
  match parts with
  | [] => inr port
  | p :: r =>
      if tal_strreg p (bs "torport") then
        match read_torport p with inl e => inl e | inr port' => autotor_parts r port' end
      else autotor_parts r port
  end.

(** A part [torblob=<text>]: the bytes copied, when there are any. *)
Definition read_torblob (part : bytes) : bytes + option bytes :=
  match tal_strsplit part (bs "=") STR_EMPTY_OK with
  | [_; text] => if length text =? 0 then inl (bs "Blob too short") else inr (Some (strncpy text TOR_V3_BLOBLEN))
  | _ => inr None
  end.

(** The same of [statictor:], with the blob and [use_magic_blob]. *)
Fixpoint statictor_parts (parts : list bytes) (port : Z) (blob : bytes) (magic : bool) : bytes + (Z * bytes * bool) :=
  match parts with
  | [] => inr (port, blob, magic)
  | p :: r =>
      match (if tal_strreg p (bs "torport") then read_torport p else inr port) with
      | inl e => inl e
      | inr port' =>
          match (if tal_strreg p (bs "torblob") then read_torblob p else inr None) with
          | inl e => inl e
          | inr None => statictor_parts r port' blob magic
          | inr (Some b) => statictor_parts r port' (b ++ drop TOR_V3_BLOBLEN blob) false
          end
      end
  end.

(** The text behind a prefix in the first part. *)
Definition service_addr (parts : list bytes) (prefix : bytes) : bytes := drop (length prefix) (hd [] parts).

(** The address or the message.  [dns_ok] says that no pointer is given to [parse_wireaddr]. *)
Definition parse_wireaddr_internal (arg : bytes) (port : Z) (wildcard_ok dns_ok unresolved_ok allow_deprecated : bool) :
    bytes + wireaddr_internal :=
  if strstarts arg (bs "/") then
    if SOCKNAME_SIZE <=? length arg then inl (bs "Socket name too long")
    else inr (ADDR_INTERNAL_SOCKNAME (strncpy arg SOCKNAME_SIZE))
  else if strstarts arg (bs "autotor:") then
    let parts := tal_strsplit arg (bs "/") STR_EMPTY_OK in
    match autotor_parts (tl parts) DEFAULT_PORT with
    | inl e => inl e
    | inr torport =>
        match parse_wireaddr (service_addr parts (bs "autotor:")) 9051 (negb dns_ok) with
        | (inl e, _) => inl e
        | (inr address, _) => inr (ADDR_INTERNAL_AUTOTOR address torport)
        end
    end
  else if strstarts arg (bs "statictor:") then
    let parts := tal_strsplit arg (bs "/") STR_EMPTY_OK in
    match statictor_parts (tl parts) DEFAULT_PORT (repeat NUL BLOB_SIZE) true with
    | inl e => inl e
    | inr (torport, blob, use_magic_blob) =>
        let blob := if use_magic_blob : bool
                    then STATIC_TOR_MAGIC_STRING ++ drop (length STATIC_TOR_MAGIC_STRING) blob else blob in
        match parse_wireaddr (service_addr parts (bs "statictor:")) 9051 (negb dns_ok) with
        | (inl e, _) => inl e
        | (inr address, _) => inr (ADDR_INTERNAL_STATICTOR address torport blob)
        end
    end
  else
    match separate_address_and_port arg port with
    | (false, ip, _) => inl (bs "Error parsing hostname " ++ arg ++ bs "  " ++ default (bs "(null)") ip)
    | (true, ip, splitport) =>
        let ip := default [] ip in
        if wildcard_ok && streq ip [] then inr (ADDR_INTERNAL_ALLPROTO splitport)
        else
          match parse_wireaddr arg port (negb dns_ok) with
          | (inr a, _) =>
              if negb allow_deprecated && (wtype a =? ADDR_TYPE_TOR_V2)%Z
              then inl (bs "v2 Tor onion services are deprecated")
              else inr (ADDR_INTERNAL_WIREADDR a)
          | (inl e, needed_dns) =>
              if negb needed_dns || negb unresolved_ok then inl e
              else
                match wireaddr_from_unresolved ip splitport with
                | None => inl (bs "Name too long")
                | Some a => inr a
                end
          end
    end.

(** ** Output *)

(** The text of an address of the internet is taken as it is, and must have been made. *)
Definition ntop_text (o : option bytes) : outcome bytes :=
  match o with Some s => Ret s | None => Abort "inet_ntop" end.

Definition json_add_address (response : json_out) (fieldname : option bytes) (a : wireaddr) : outcome json_out :=
  let response := json_object_start response fieldname in
  let with_ response type address :=
    let response := json_add_string response (Some (bs "type")) type in
    let response := json_add_string response (Some (bs "address")) address in
    json_add_num response (Some (bs "port")) (wport a) in
  let! response :=
    (if (wtype a =? ADDR_TYPE_IPV4)%Z then
       let! s := ntop_text (inet_ntop4 (waddr a)) in Ret (with_ response (bs "ipv4") s)
     else if (wtype a =? ADDR_TYPE_IPV6)%Z then
       let! s := ntop_text (inet_ntop6 (waddr a)) in Ret (with_ response (bs "ipv6") s)
     else if (wtype a =? ADDR_TYPE_TOR_V2)%Z then
       let! (s, _) := fmt_wireaddr_without_port a in Ret (with_ response (bs "torv2") s)
     else if (wtype a =? ADDR_TYPE_TOR_V3)%Z then
       let! (s, _) := fmt_wireaddr_without_port a in Ret (with_ response (bs "torv3") s)
     else Ret response) in
  Ret (json_object_end response).

Definition json_add_address_internal (response : json_out) (fieldname : option bytes) (a : wireaddr_internal) :
    outcome json_out :=
  match a with
  | ADDR_INTERNAL_SOCKNAME sockname =>
      let r := json_object_start response fieldname in
      let r := json_add_string r (Some (bs "type")) (bs "local socket") in
      let r := json_add_string r (Some (bs "socket")) sockname in
      Ret (json_object_end r)
  | ADDR_INTERNAL_ALLPROTO port =>
      let r := json_object_start response fieldname in
      let r := json_add_string r (Some (bs "type")) (bs "any protocol") in
      let r := json_add_num r (Some (bs "port")) port in
      Ret (json_object_end r)
  | ADDR_INTERNAL_AUTOTOR address _ =>
      let r := json_object_start response fieldname in
      let r := json_add_string r (Some (bs "type")) (bs "Tor generated address") in
      let! r := json_add_address r (Some (bs "service")) address in
      Ret (json_object_end r)
  | ADDR_INTERNAL_STATICTOR address _ _ =>
      let r := json_object_start response fieldname in
      let r := json_add_string r (Some (bs "type")) (bs "Tor from blob generated static address") in
      let! r := json_add_address r (Some (bs "service")) address in
      Ret (json_object_end r)
  | ADDR_INTERNAL_FORPROXY name port =>
      let r := json_object_start response fieldname in
      let r := json_add_string r (Some (bs "type")) (bs "unresolved") in
      let r := json_add_string r (Some (bs "name")) name in
      let r := json_add_num r (Some (bs "port")) port in
      Ret (json_object_end r)
  | ADDR_INTERNAL_WIREADDR w => json_add_address response fieldname w
  end.
End System.
