(* ===== verification/Gheap.v ===== *)
(** external/gheap/gheap.h: the heap of [common/dijkstra.c].

    The items are the elements of an array.  [item_mover] writes an item to a place,
    in the array or on the stack, and may note the place: it changes a state of the
    caller, which [less_comparer] reads.  The assertions are compiled out by
    [NDEBUG]; an access outside the array is a crash. *)
From S2P Require Import Prelude.

Definition SIZE_MAX : Z := u64_mod - 1.

Record gheap_ctx : Type := GheapCtx { fanout : nat; page_chunks : nat }.

Definition page_size (ctx : gheap_ctx) : nat := fanout ctx * page_chunks ctx.
Definition page_leaves (ctx : gheap_ctx) : nat := (fanout ctx - 1) * page_chunks ctx + 1.

Definition gheap_get_parent_index (ctx : gheap_ctx) (u : nat) : nat :=
  let u := u - 1 in
  if page_chunks ctx =? 1 then u / fanout ctx
  else if u <? fanout ctx then 0
  else
    let v := u mod page_size ctx in
    if fanout ctx <=? v then u - v + v / fanout ctx
    else
      let v := u / page_size ctx - 1 in
      let u := v / page_leaves ctx + 1 in
      u * page_size ctx + v mod page_leaves ctx - page_leaves ctx + 1.

(** [None] is SIZE_MAX: the index does not fit. *)
Definition gheap_get_child_index (ctx : gheap_ctx) (u : nat) : option nat :=
  if page_chunks ctx =? 1 then
    if ((SIZE_MAX - 1) / Z.of_nat (fanout ctx) <? Z.of_nat u)%Z then None else Some (u * fanout ctx + 1)
  else if u =? 0 then Some 1
  else
    let u := u - 1 in
    let v := u mod page_size ctx + 1 in
    if v <? page_size ctx / fanout ctx then
      let v := v * (fanout ctx - 1) in
      if (SIZE_MAX - 2 - Z.of_nat v <? Z.of_nat u)%Z then None else Some (u + v + 2)
    else
      let v := v + (u / page_size ctx + 1) * page_leaves ctx - page_size ctx in
      if ((SIZE_MAX - 1) / Z.of_nat (page_size ctx) <? Z.of_nat v)%Z then None else Some (v * page_size ctx + 1).

(** Where an item is moved to. *)
Inductive place : Type := InHeap (i : nat) | Tmp.

Section Heap.
  Context {A St : Type} (less_comparer : St -> A -> A -> bool) (item_mover : St -> place -> A -> St).
  Context (ctx : gheap_ctx).

(** [base[index]] *)
Definition get_item (base : list A) (i : nat) : outcome A := match base !! i with Some x => Ret x | None => Abort "gheap: out of range" end.

(** [item_mover(base + i, ...)] *)
Definition move_to (b : list A * St) (i : nat) (x : A) : outcome (list A * St) :=
  let! _ := get_item b.1 i in Ret (<[i := x]> b.1, item_mover b.2 (InHeap i) x).

(** [hole_index] only goes down: it bounds the rounds. *)
Fixpoint sift_up_loop (fuel : nat) (b : list A * St) (root_index hole_index : nat) (item : A) : outcome (list A * St) :=
  match fuel with
  | O => Abort "_gheap_sift_up: fuel"
  | S f =>
      if negb (root_index <? hole_index) then move_to b hole_index item
      else
        let parent_index := gheap_get_parent_index ctx hole_index in
        let! parent := get_item b.1 parent_index in
        if negb (less_comparer b.2 parent item) then move_to b hole_index item
        else
          let! b := move_to b hole_index parent in
          sift_up_loop f b root_index parent_index item
  end.
Definition _gheap_sift_up (b : list A * St) (root_index hole_index : nat) (item : A) : outcome (list A * St) :=
  sift_up_loop (S hole_index) b root_index hole_index item.

(** The loop over the children: [n] are left, from [i] on. *)
Fixpoint max_child (st : St) (base : list A) (child_index i n : nat) (max_child_index : nat) : outcome nat :=
  match n with
  | O => Ret max_child_index
  | S n =>
      let! a := get_item base (child_index + i) in
      let! b := get_item base max_child_index in
      max_child st base child_index (S i) n (if negb (less_comparer st a b) then child_index + i else max_child_index)
  end.

Definition _gheap_move_up_max_child (b : list A * St) (children_count hole_index child_index : nat) : outcome (list A * St * nat) :=
  let! m := max_child b.2 b.1 child_index 1 (children_count - 1) child_index in
  let! x := get_item b.1 m in
  let! b := move_to b hole_index x in
  Ret (b, m).

(** The loop of [_gheap_sift_down]: the hole goes down to a leaf. *)
Fixpoint sift_down_loop (fuel : nat) (b : list A * St) (heap_size hole_index : nat) : outcome (list A * St * nat) :=
  match fuel with
  | O => Abort "_gheap_sift_down: fuel"
  | S f =>
      let last_full_index := heap_size - (heap_size - 1) mod fanout ctx in
      match gheap_get_child_index ctx hole_index with
      | None => Ret (b, hole_index)
      | Some child_index =>
          if last_full_index <=? child_index then
            if child_index <? heap_size then _gheap_move_up_max_child b (heap_size - child_index) hole_index child_index
            else Ret (b, hole_index)
          else
            let! (b, hole_index) := _gheap_move_up_max_child b (fanout ctx) hole_index child_index in
            sift_down_loop f b heap_size hole_index
      end
  end.
Definition _gheap_sift_down (b : list A * St) (heap_size hole_index : nat) (item : A) : outcome (list A * St) :=
  let root_index := hole_index in
  let! (b, hole_index) := sift_down_loop (S heap_size) b heap_size hole_index in
  _gheap_sift_up b root_index hole_index item.

Fixpoint is_heap_until (st : St) (base : list A) (u n heap_size : nat) : outcome nat :=
  match n with
  | O => Ret heap_size
  | S n =>
      let! a := get_item base (gheap_get_parent_index ctx u) in
      let! b := get_item base u in
      if less_comparer st a b then Ret u else is_heap_until st base (S u) n heap_size
  end.
Definition gheap_is_heap_until (st : St) (base : list A) (heap_size : nat) : outcome nat := is_heap_until st base 1 (heap_size - 1) heap_size.
Definition gheap_is_heap (st : St) (base : list A) (heap_size : nat) : outcome bool :=
  let! u := gheap_is_heap_until st base heap_size in Ret (u =? heap_size).

(** [item_mover(tmp, base + i)] and the item. *)
Definition to_tmp (b : list A * St) (i : nat) : outcome (list A * St * A) :=
  let! x := get_item b.1 i in Ret (b.1, item_mover b.2 Tmp x, x).

Fixpoint make_heap_loop (b : list A * St) (heap_size i : nat) : outcome (list A * St) :=
  let! (b, tmp) := to_tmp b i in
  let! b := _gheap_sift_down b heap_size i tmp in
  match i with O => Ret b | S i => make_heap_loop b heap_size i end.
Definition gheap_make_heap (b : list A * St) (heap_size : nat) : outcome (list A * St) :=
  if 1 <? heap_size then make_heap_loop b heap_size (if page_chunks ctx =? 1 then (heap_size - 2) / fanout ctx else heap_size - 2) else Ret b.

Definition gheap_push_heap (b : list A * St) (heap_size : nat) : outcome (list A * St) :=
  if 1 <? heap_size then
    let u := heap_size - 1 in
    let! (b, tmp) := to_tmp b u in
    _gheap_sift_up b 0 u tmp
  else Ret b.

(** [item] is [base[index]], behind the heap. *)
Definition gheap_swap_max_item (b : list A * St) (heap_size index : nat) : outcome (list A * St) :=
  let! (b, tmp) := to_tmp b index in
  let! top := get_item b.1 0 in
  let! b := move_to b index top in
  _gheap_sift_down b heap_size 0 tmp.

Definition _gheap_pop_max_item (b : list A * St) (heap_size : nat) : outcome (list A * St) := gheap_swap_max_item b heap_size heap_size.

Definition gheap_pop_heap (b : list A * St) (heap_size : nat) : outcome (list A * St) :=
  if 1 <? heap_size then _gheap_pop_max_item b (heap_size - 1) else Ret b.

Fixpoint gheap_sort_heap (b : list A * St) (heap_size : nat) : outcome (list A * St) :=
  match heap_size with
  | S (S n as i) => let! b := _gheap_pop_max_item b i in gheap_sort_heap b i
  | _ => Ret b
  end.

Definition gheap_restore_heap_after_item_increase (b : list A * St) (heap_size modified_item_index : nat) : outcome (list A * St) :=
  if 0 <? modified_item_index then
    let! (b, tmp) := to_tmp b modified_item_index in
    _gheap_sift_up b 0 modified_item_index tmp
  else Ret b.

Definition gheap_restore_heap_after_item_decrease (b : list A * St) (heap_size modified_item_index : nat) : outcome (list A * St) :=
  let! (b, tmp) := to_tmp b modified_item_index in
  _gheap_sift_down b heap_size modified_item_index tmp.

Definition gheap_remove_from_heap (b : list A * St) (heap_size item_index : nat) : outcome (list A * St) :=
  let new_heap_size := heap_size - 1 in
  if item_index <? new_heap_size then
    let! (b, tmp) := to_tmp b new_heap_size in
    let! x := get_item b.1 item_index in
    let! b := move_to b new_heap_size x in
    if less_comparer b.2 tmp x then _gheap_sift_down b new_heap_size item_index tmp
    else _gheap_sift_up b 0 item_index tmp
  else Ret b.

End Heap.

(** * Indices

    The indices of the heap: parents and children, with and without pages. *)

(** The first child without the limit of [size_t]. *)
Definition child (ctx : gheap_ctx) (u : nat) : nat :=
  if page_chunks ctx =? 1 then u * fanout ctx + 1
  else if u =? 0 then 1
  else
    let u := u - 1 in
    let v := u mod page_size ctx + 1 in
    if v <? page_chunks ctx then u + v * (fanout ctx - 1) + 2
    else (v + (u / page_size ctx + 1) * page_leaves ctx - page_size ctx) * page_size ctx + 1.

Lemma divmod_unique a d q r : a = q * d + r -> r < d -> a / d = q /\ a mod d = r.
Proof.
  intros -> Hr. split.
  - symmetry. apply (Nat.div_unique _ _ _ r); lia.
  - symmetry. apply (Nat.mod_unique _ _ q); lia.
Qed.

Section Index.
  Context (ctx : gheap_ctx).
  Hypothesis Hf : 0 < fanout ctx.
  Hypothesis Hp : 0 < page_chunks ctx.
Let f := fanout ctx.
Let p := page_chunks ctx.
Let ps := page_size ctx.
Let L := page_leaves ctx.

Lemma page_facts : ps = f * p /\ p + L = ps + 1 /\ 0 < ps /\ p <= ps /\ 0 < L /\ f <= ps.
Proof. unfold ps, L, page_size, page_leaves. fold f p. assert (0 < f) by done. assert (0 < p) by done. nia. Qed.

(** An item behind the root: its page and its place in it. *)
Lemma in_page u : 0 < u -> exists k r, u = k * ps + r + 1 /\ r < ps.
Proof.
  intros Hu. pose proof page_facts as (_ & _ & Hps & _). exists ((u - 1) / ps), ((u - 1) mod ps).
  pose proof (Nat.div_mod (u - 1) ps ltac:(lia)). pose proof (Nat.mod_upper_bound (u - 1) ps ltac:(lia)). lia.
Qed.

Lemma child_paged k r : page_chunks ctx <> 1 -> r < ps ->
  child ctx (k * ps + r + 1) = if r + 1 <? p then k * ps + (r + 1) * f + 1 else (k * L + (r + 1 + L - ps)) * ps + 1.
Proof.
  intros Hp1 Hr. pose proof page_facts as (E & E2 & Hps & _). unfold child. rewrite (proj2 (Nat.eqb_neq _ _)) by done.
  rewrite (proj2 (Nat.eqb_neq _ 0)) by lia. cbv zeta. fold ps L f p.
  destruct (divmod_unique (k * ps + r + 1 - 1) ps k r) as [-> ->]; [lia|done|].
  destruct (Nat.ltb_spec (r + 1) p).
  - assert (0 < f) by done. replace ((r + 1) * f) with ((r + 1) * (f - 1) + (r + 1)) by nia. lia.
  - f_equal. f_equal. lia.
Qed.

Lemma parent_paged k w : page_chunks ctx <> 1 -> w < ps -> f <= k * ps + w ->
  gheap_get_parent_index ctx (k * ps + w + 1) =
  if f <=? w then k * ps + w / f else ((k - 1) / L + 1) * ps + (k - 1) mod L - L + 1.
Proof.
  intros Hp1 Hw Hu. unfold gheap_get_parent_index. rewrite (proj2 (Nat.eqb_neq _ 1)) by done. cbv zeta. fold ps L f p. replace (k * ps + w + 1 - 1) with (k * ps + w) by lia.
  rewrite (proj2 (Nat.ltb_ge _ _)) by done. destruct (divmod_unique (k * ps + w) ps k w) as [-> ->]; [lia|done|].
  destruct (Nat.leb_spec f w); lia.
Qed.

Lemma parent_child u i : i < f -> gheap_get_parent_index ctx (child ctx u + i) = u.
Proof.
  intros Hi. pose proof page_facts as (E & E2 & Hps & Hle & HL & Hfps). assert (H0 : 0 < f) by done. destruct (Nat.eq_dec p 1) as [Hp1|Hp1].
  - unfold child, gheap_get_parent_index. fold f p. rewrite Hp1. cbn [Nat.eqb]. symmetry. apply (Nat.div_unique _ _ _ i); lia.
  - destruct (Nat.eq_dec u 0) as [->|Hu].
    + unfold child, gheap_get_parent_index. fold f p. rewrite (proj2 (Nat.eqb_neq _ 1)) by done. cbn [Nat.eqb]. rewrite (proj2 (Nat.ltb_lt _ _)) by lia. done.
    + destruct (in_page u) as (k & r & -> & Hr); [lia|]. rewrite child_paged by done. destruct (Nat.ltb_spec (r + 1) p) as [Hb|Hb].
      * replace (k * ps + (r + 1) * f + 1 + i) with (k * ps + ((r + 1) * f + i) + 1) by lia.
        rewrite parent_paged; [|done|nia|nia]. rewrite (proj2 (Nat.leb_le _ _)) by nia.
        replace (((r + 1) * f + i) / f) with (r + 1) by (apply (Nat.div_unique _ _ _ i); lia). lia.
      * set (j := r + 1 + L - ps). replace ((k * L + j) * ps + 1 + i) with ((k * L + j) * ps + i + 1) by lia.
        rewrite parent_paged; [|done|lia|nia]. rewrite (proj2 (Nat.leb_gt _ _)) by lia.
        destruct (divmod_unique (k * L + j - 1) L k (j - 1)) as [-> ->]; lia.
Qed.

Lemma child_aligned u : (child ctx u - 1) mod f = 0 /\ 1 <= child ctx u.
Proof.
  pose proof page_facts as (E & E2 & Hps & _). assert (H0 : 0 < f) by done. destruct (Nat.eq_dec p 1) as [Hp1|Hp1].
  - unfold child. fold f p. rewrite Hp1. cbn [Nat.eqb]. split; [|lia]. rewrite Nat.add_sub. apply Nat.Div0.mod_mul.
  - destruct (Nat.eq_dec u 0) as [->|Hu].
    + unfold child. fold f p. rewrite (proj2 (Nat.eqb_neq p 1)) by done. cbn [Nat.eqb]. split; [apply Nat.Div0.mod_0_l|lia].
    + destruct (in_page u) as (k & r & -> & Hr); [lia|]. rewrite child_paged by done. split; [|destruct (_ <? _); apply Nat.le_add_l].
      destruct (_ <? _); rewrite Nat.add_sub, E; [rewrite (Nat.mul_comm f p), Nat.mul_assoc, <- Nat.mul_add_distr_r|rewrite (Nat.mul_comm f p), Nat.mul_assoc]; apply Nat.Div0.mod_mul.
Qed.

(** Every item behind the root is a child of its parent. *)
Lemma child_parent u : 0 < u -> child ctx (gheap_get_parent_index ctx u) <= u < child ctx (gheap_get_parent_index ctx u) + f.
Proof.
  intros Hu. pose proof page_facts as (E & E2 & Hps & Hle & HL & Hfps). assert (H0 : 0 < f) by done. destruct (Nat.eq_dec p 1) as [Hp1|Hp1].
  - unfold child, gheap_get_parent_index. fold f p. rewrite Hp1. cbn [Nat.eqb]. pose proof (Nat.div_mod (u - 1) f ltac:(lia)). pose proof (Nat.mod_upper_bound (u - 1) f ltac:(lia)). nia.
  - destruct (in_page u Hu) as (k & w & -> & Hw). destruct (Nat.lt_ge_cases (k * ps + w) f) as [Hr|Hr].
    + unfold gheap_get_parent_index. fold f p. rewrite (proj2 (Nat.eqb_neq _ 1)) by done. cbv zeta. rewrite (proj2 (Nat.ltb_lt _ _)) by lia.
      unfold child. fold f p. rewrite (proj2 (Nat.eqb_neq _ 1)) by done. cbn [Nat.eqb]. lia.
    + rewrite parent_paged by done. destruct (Nat.leb_spec f w) as [Hw'|Hw'].
      * pose proof (Nat.div_mod w f ltac:(lia)). pose proof (Nat.mod_upper_bound w f ltac:(lia)). assert (0 < w / f) by (apply Nat.div_str_pos; lia).
        assert (w / f < p) by (apply Nat.Div0.div_lt_upper_bound; lia).
        replace (k * ps + w / f) with (k * ps + (w / f - 1) + 1) by lia. rewrite child_paged by (done || lia). rewrite (proj2 (Nat.ltb_lt _ _)) by lia. nia.
      * assert (Hk : 0 < k) by (destruct k; lia). pose proof (Nat.div_mod (k - 1) L ltac:(lia)). pose proof (Nat.mod_upper_bound (k - 1) L ltac:(lia)).
        set (q := (k - 1) / L) in *. set (j := (k - 1) mod L) in *. replace ((q + 1) * ps + j - L + 1) with (q * ps + (ps + j - L) + 1) by nia.
        rewrite child_paged by (done || lia). rewrite (proj2 (Nat.ltb_ge _ _)) by lia. replace (ps + j - L + 1 + L - ps) with (j + 1) by lia. nia.
Qed.

Lemma parent_below u : 0 < u -> gheap_get_parent_index ctx u < u.
Proof.
  intros Hu. pose proof page_facts as (E & E2 & Hps & Hle & HL & Hfps). assert (H0 : 0 < f) by done. destruct (Nat.eq_dec p 1) as [Hp1|Hp1].
  - unfold gheap_get_parent_index. fold f p. rewrite Hp1. cbn [Nat.eqb]. apply Nat.Div0.div_lt_upper_bound. nia.
  - destruct (in_page u Hu) as (k & w & -> & Hw). destruct (Nat.lt_ge_cases (k * ps + w) f) as [Hr|Hr].
    + unfold gheap_get_parent_index. fold f p. rewrite (proj2 (Nat.eqb_neq _ 1)) by done. cbv zeta. rewrite (proj2 (Nat.ltb_lt _ _)) by lia. lia.
    + rewrite parent_paged by done. destruct (Nat.leb_spec f w) as [Hw'|Hw']; [pose proof (Nat.Div0.div_le_upper_bound w f w); nia|].
      assert (Hk : 0 < k) by (destruct k; lia). pose proof (Nat.div_mod (k - 1) L ltac:(lia)). pose proof (Nat.mod_upper_bound (k - 1) L ltac:(lia)). nia.
Qed.

(** The code's index, unless it does not fit. *)
Lemma child_index u : gheap_get_child_index ctx u = if (Z.of_nat (child ctx u) <=? SIZE_MAX)%Z then Some (child ctx u) else None.
Proof.
  pose proof page_facts as (E & E2 & Hps & Hle & HL & Hfps). assert (H0 : 0 < f) by done. unfold gheap_get_child_index, child. fold f p ps L.
  assert (Hdiv : forall a d, 0 < d -> ((SIZE_MAX - 1) / Z.of_nat d <? Z.of_nat a)%Z = negb (Z.of_nat (a * d + 1) <=? SIZE_MAX)%Z).
  { intros a d Hd. apply eq_true_iff_eq. rewrite negb_true_iff, Z.ltb_lt, Z.leb_gt. split; intros H.
    - apply Z.lt_nge. intros Hle'. assert (Z.of_nat a <= (SIZE_MAX - 1) / Z.of_nat d)%Z by (apply Z.div_le_lower_bound; lia). lia.
    - apply Z.div_lt_upper_bound; lia. }
  destruct (Nat.eqb_spec p 1) as [Hp1|Hp1]; [rewrite Hdiv by done; by destruct (_ <=? _)%Z|]. destruct (Nat.eqb_spec u 0); [done|]. cbv zeta.
  replace (ps / f) with p by (rewrite E; apply (Nat.div_unique _ _ _ 0); lia).
  destruct (_ <? p).
  - set (v := ((u - 1) mod ps + 1) * (f - 1)). replace (SIZE_MAX - 2 - Z.of_nat v <? Z.of_nat (u - 1))%Z with (negb (Z.of_nat (u - 1 + v + 2) <=? SIZE_MAX)%Z); [by destruct (_ <=? _)%Z|].
    apply eq_true_iff_eq. rewrite negb_true_iff, Z.ltb_lt, Z.leb_gt. lia.
  - rewrite Hdiv by done. by destruct (_ <=? _)%Z.
Qed.

End Index.
