(* ===== verification/GheapTheorems.v ===== *)
(** The heap is in order, and holds what it held. *)
From S2P Require Import Prelude Gheap.

(** What the heap asks of its caller: an order, which moving does not change. *)
Class HeapOrder {A St : Type} (less_comparer : St -> A -> A -> bool) (item_mover : St -> place -> A -> St) (l : A -> A -> bool) (I : St -> Prop) : Prop := {
  order_is : forall st x y, I st -> less_comparer st x y = l x y;
  order_moves : forall st p x, I st -> I (item_mover st p x);
  order_irrefl : forall x, l x x = false;
  order_trans : forall x y z, l x y = true -> l y z = true -> l x z = true;
  order_weak : forall x y z, l x y = false -> l y z = false -> l x z = false }.

(** The shape of a heap that can be used. *)
Class HeapShape (ctx : gheap_ctx) : Prop := { shape_fanout : 0 < fanout ctx; shape_pages : 0 < page_chunks ctx }.

Section Order.
  Context {A St : Type} (less_comparer : St -> A -> A -> bool) (item_mover : St -> place -> A -> St) (ctx : gheap_ctx) (l : A -> A -> bool) (I : St -> Prop).
  Context `{!HeapOrder less_comparer item_mover l I, !HeapShape ctx}.
  Notation par := (gheap_get_parent_index ctx).
  Notation sift_up_loop := (sift_up_loop less_comparer item_mover ctx).
  Notation sift_down_loop := (sift_down_loop less_comparer item_mover ctx).
  Notation max_child := (max_child less_comparer).
  Notation move_to := (move_to item_mover).

Lemma order_asym x y : l x y = true -> l y x = false.
Proof. intros H. destruct (l y x) eqn:E; [|done]. pose proof (order_trans x y x H E) as Hc. by rewrite order_irrefl in Hc. Qed.

Lemma order_over x y z : l x y = true -> l x z = false -> l y z = false.
Proof. intros H1 H2. destruct (l y z) eqn:E; [|done]. pose proof (order_trans x y z H1 E). congruence. Qed.

(** The item at [v] is not below the item at [u]. *)
Definition ok (base : list A) (v u : nat) : Prop := forall a b, base !! v = Some a -> base !! u = Some b -> l a b = false.

(** In order from the items whose parent is [r] or behind it. *)
Definition heap_from (base : list A) (n r : nat) : Prop := forall u, 0 < u < n -> r <= par u -> ok base (par u) u.
Definition is_heap (base : list A) (n : nat) : Prop := heap_from base n 0.

(** In order but for the item at the hole. *)
Definition hole_ok (base : list A) (n r h : nat) : Prop :=
  (forall u, 0 < u < n -> r <= par u -> u <> h -> par u <> h -> ok base (par u) u) /\
  (r < h -> forall u, 0 < u < n -> par u = h -> ok base (par h) u).
Definition item_over (base : list A) (n h : nat) (item : A) : Prop := forall u b, 0 < u < n -> par u = h -> base !! u = Some b -> l item b = false.

(** [h] is in the part of the heap below [r]. *)
Inductive below (r : nat) : nat -> Prop :=
| below_root : below r r
| below_child h : r < h -> below r (par h) -> below r h.

Lemma below_le r h : below r h -> r <= h.
Proof. intros []; lia. Qed.

Lemma par_lt u : 0 < u -> par u < u.
Proof. apply parent_below; apply HeapShape0. Qed.

(** The item in the hole puts the heap in order. *)
Lemma hole_filled base n r h item : hole_ok base n r h -> item_over base n h item -> h < length base ->
  (r < h -> forall p, base !! par h = Some p -> l p item = false) -> heap_from (<[h := item]> base) n r.
Proof.
  intros [Ha _] Ho Hl Hp u Hu Hr a b. pose proof (par_lt u ltac:(lia)).
  destruct (decide (u = h)) as [->|Huh].
  - rewrite list_lookup_insert_ne, list_lookup_insert_eq by (done || lia). intros Hpa [= <-]. apply Hp; [lia|done].
  - destruct (decide (par u = h)) as [Hph|Hph].
    + rewrite Hph, list_lookup_insert_eq, list_lookup_insert_ne by done. intros [= <-] Hb. by eapply Ho.
    + rewrite !list_lookup_insert_ne by done. by apply Ha.
Qed.

(** The parent moved into the hole: the hole is where it was. *)
Lemma hole_up base n r h item p : hole_ok base n r h -> item_over base n h item -> h < length base -> r < h -> below r (par h) ->
  base !! par h = Some p -> l p item = true -> hole_ok (<[h := p]> base) n r (par h) /\ item_over (<[h := p]> base) n (par h) item.
Proof.
  intros [Ha Hb] Ho Hl Hrh Hbel Hp Hless. pose proof (par_lt h ltac:(lia)) as Hlt. pose proof (below_le _ _ Hbel) as Hrp. split; [split|].
  - intros u Hu Hr Hn1 Hn2 a b. pose proof (par_lt u ltac:(lia)). assert (u <> h) by (intros ->; done).
    rewrite (list_lookup_insert_ne _ _ u) by done. destruct (decide (par u = h)) as [Hph|Hph].
    + rewrite Hph, list_lookup_insert_eq by done. intros [= <-] Hub. by eapply Hb; eauto.
    + rewrite list_lookup_insert_ne by done. by apply Ha.
  - intros Hrp' u Hu Hph a b. pose proof (par_lt (par h) ltac:(lia)) as Hlt2. rewrite list_lookup_insert_ne by lia. intros Hpp.
    assert (Hr' : r <= par (par h)) by (destruct Hbel; [lia|by apply below_le]). pose proof (par_lt u ltac:(lia)).
    assert (Hap : l a p = false) by (apply (Ha (par h)); lia || done).
    destruct (decide (u = h)) as [->|Huh]; [rewrite list_lookup_insert_eq by done; by intros [= <-]|]. rewrite list_lookup_insert_ne by done. intros Hub.
    apply (order_weak a p b Hap). apply (Ha u); [lia|lia|done|lia|by rewrite Hph|done].
  - intros u b Hu Hph. destruct (decide (u = h)) as [->|Huh]; [rewrite list_lookup_insert_eq by done; intros [= <-]; by apply order_asym|].
    rewrite list_lookup_insert_ne by done. intros Hub. apply (order_over p item b Hless). apply (Ha u); [lia|lia|done|lia|by rewrite Hph|done].
Qed.

Lemma move_to_ok base st i x : i < length base -> move_to (base, st) i x = Ret (<[i := x]> base, item_mover st (InHeap i) x).
Proof. intros Hi. unfold Gheap.move_to, get_item. cbn. destruct (lookup_lt_is_Some_2 base i Hi) as [y ->]. done. Qed.

(** The hole moves to its parent; the items stay the same. *)
Lemma hole_move_perm (base : list A) h q x item : h <> q -> base !! q = Some x -> h < length base -> <[q := item]> (<[h := x]> base) ≡ₚ <[h := item]> base.
Proof.
  intros Hne Hq Hh. pose proof (Permutation_insert_swap (<[h := item]> base) h q item x) as H. rewrite list_insert_insert_eq in H. apply H.
  - by apply list_lookup_insert_eq.
  - by rewrite list_lookup_insert_ne.
Qed.

Lemma sift_up_spec fuel : forall base st n r h item, I st -> hole_ok base n r h -> item_over base n h item -> below r h -> h < length base -> h < fuel ->
  exists base' st', sift_up_loop fuel (base, st) r h item = Ret (base', st') /\ I st' /\ heap_from base' n r /\ base' ≡ₚ <[h := item]> base /\
    forall i, h < i -> base' !! i = base !! i.
Proof.
  induction fuel as [|f IH]; intros base st n r h item HI Hok Ho Hb Hl Hfuel; [lia|]. cbn [Gheap.sift_up_loop fst snd].
  assert (Hdone : (r < h -> forall p, base !! par h = Some p -> l p item = false) -> exists base' st', move_to (base, st) h item = Ret (base', st') /\ I st' /\ heap_from base' n r /\ base' ≡ₚ <[h := item]> base /\ forall i, h < i -> base' !! i = base !! i).
  { intros Hp. eexists _, _. split; [by apply move_to_ok|]. split; [by apply order_moves|]. split; [by apply hole_filled|]. split; [done|]. intros i Hi. by rewrite list_lookup_insert_ne by lia. }
  destruct (Nat.ltb_spec r h) as [Hr|Hr]; cbn [negb]; [|apply Hdone; lia].
  assert (Hb' : below r (par h)) by (destruct Hb; [lia|done]). pose proof (par_lt h ltac:(lia)) as Hlt.
  destruct (lookup_lt_is_Some_2 base (par h)) as [p Hp]; [lia|]. unfold get_item. rewrite Hp. cbn [obind]. rewrite (order_is st p item HI).
  destruct (l p item) eqn:Hless; cbn [negb]; [|apply Hdone; intros _ p' Hp'; congruence].
  rewrite move_to_ok by done. cbn [obind]. destruct (hole_up base n r h item p Hok Ho Hl Hr Hb' Hp Hless) as [Hok' Ho'].
  destruct (IH (<[h := p]> base) (item_mover st (InHeap h) p) n r (par h) item) as (base' & st' & Hrun & HI' & Hheap & Hperm & Hframe); [by apply order_moves|done|done|done|rewrite length_insert; lia|lia|].
  exists base', st'. split; [done|]. split; [done|]. split; [done|]. split.
  - rewrite Hperm. apply hole_move_perm; [lia|done|done].
  - intros i Hi. rewrite Hframe by lia. by rewrite list_lookup_insert_ne by lia.
Qed.

(** The child moved into the hole: the hole is where it was. *)
Lemma hole_down base n r h m x : hole_ok base n r h -> below r h -> h < length base -> 0 < m < n -> par m = h -> base !! m = Some x -> item_over base n h x ->
  hole_ok (<[h := x]> base) n r m /\ below r m.
Proof.
  intros [Ha Hb] Hbel Hl Hm Hpm Hx Ho. pose proof (below_le _ _ Hbel) as Hrh. pose proof (par_lt m ltac:(lia)) as Hlt. split; [split|].
  - intros u Hu Hr Hn1 Hn2 a b. pose proof (par_lt u ltac:(lia)). destruct (decide (par u = h)) as [Hph|Hph].
    + rewrite Hph, list_lookup_insert_eq, list_lookup_insert_ne by (done || lia). intros [= <-] Hub. by eapply Ho.
    + rewrite (list_lookup_insert_ne _ _ (par u)) by done. destruct (decide (u = h)) as [->|Huh].
      * rewrite list_lookup_insert_eq by done. intros Hpa [= <-]. eapply (Hb ltac:(lia) m); [lia|done|done|done].
      * rewrite list_lookup_insert_ne by done. by apply Ha.
  - intros _ u Hu Hpu a b. pose proof (par_lt u ltac:(lia)). rewrite Hpm, list_lookup_insert_eq, list_lookup_insert_ne by (done || lia). intros [= <-] Hub.
    apply (Ha u); [done|lia|lia|lia|by rewrite Hpu|done].
  - apply below_child; [lia|by rewrite Hpm].
Qed.

(** The largest of the children. *)
Lemma max_child_spec st base c n : forall i m, I st -> c + i + n <= length base -> c <= m < c + i ->
  (forall x, base !! m = Some x -> forall j b, j < i -> base !! (c + j) = Some b -> l x b = false) ->
  exists m' x, max_child st base c i n m = Ret m' /\ c <= m' < c + i + n /\ base !! m' = Some x /\ forall j b, j < i + n -> base !! (c + j) = Some b -> l x b = false.
Proof.
  induction n as [|n IH]; intros i m HI Hl Hm Hmax.
  - destruct (lookup_lt_is_Some_2 base m) as [x Hx]; [lia|]. exists m, x. split; [done|]. split; [lia|]. split; [done|]. rewrite Nat.add_0_r. by apply Hmax.
  - cbn [Gheap.max_child]. destruct (lookup_lt_is_Some_2 base (c + i)) as [a Ha]; [lia|]. destruct (lookup_lt_is_Some_2 base m) as [x Hx]; [lia|]. unfold get_item. rewrite Ha, Hx. cbn [obind].
    rewrite (order_is st a x HI). replace (i + S n) with (S i + n) by lia. replace (c + i + S n) with (c + S i + n) by lia. apply IH; [done|lia|destruct (l a x); cbn; lia|].
    intros y Hy j b Hj Hb. destruct (l a x) eqn:Hax; cbn [negb] in Hy.
    + assert (y = x) as -> by congruence. destruct (decide (j = i)) as [->|]; [assert (b = a) as -> by congruence; by apply order_asym|]. eapply Hmax; [done| |done]. lia.
    + assert (y = a) as -> by congruence. destruct (decide (j = i)) as [->|]; [assert (b = a) as -> by congruence; apply order_irrefl|]. apply (order_weak a x b Hax). eapply Hmax; [done| |done]. lia.
Qed.

(** The children are next to each other, in groups that fill the array. *)
Lemma children u h : 0 < u -> par u = h -> child ctx h <= u < child ctx h + fanout ctx.
Proof. intros Hu <-. apply child_parent; [apply HeapShape0|apply HeapShape0|done]. Qed.

Lemma move_up_spec base st n r h k : I st -> hole_ok base n r h -> below r h -> h < n -> n <= length base ->
  0 < k <= fanout ctx -> child ctx h + k <= n -> (k = fanout ctx \/ child ctx h + k = n) ->
  exists base' st' m, _gheap_move_up_max_child less_comparer item_mover (base, st) k h (child ctx h) = Ret ((base', st'), m) /\ I st' /\
    hole_ok base' n r m /\ below r m /\ child ctx h <= m < child ctx h + k /\ length base' = length base /\
    (forall item, <[m := item]> base' ≡ₚ <[h := item]> base) /\ forall i, n <= i -> base' !! i = base !! i.
Proof.
  intros HI Hok Hbel Hh Hn Hk Hck Hfull. destruct HeapShape0 as [Hf Hpg].
  destruct (max_child_spec st base (child ctx h) (k - 1) 1 (child ctx h) HI) as (m & x & Hm & Hmr & Hx & Hmax); [lia|lia| |].
  { intros y Hy j b Hj Hb. assert (j = 0) as -> by lia. rewrite Nat.add_0_r in Hb. assert (y = b) as -> by congruence. apply order_irrefl. }
  assert (Hpm : par m = h). { replace m with (child ctx h + (m - child ctx h)) by lia. apply parent_child; [done|done|lia]. }
  pose proof (child_aligned ctx Hf Hpg h) as [_ Hc1].
  unfold _gheap_move_up_max_child. cbn [fst snd]. rewrite Hm. cbn [obind]. unfold get_item. rewrite Hx. cbn [obind]. rewrite move_to_ok by lia. cbn [obind].
  destruct (hole_down base n r h m x) as [Hok' Hbel']; [done|done|lia|lia|done|done| |].
  { intros u b Hu Hpu Hub. pose proof (children u h ltac:(lia) Hpu). apply (Hmax (u - child ctx h)); [|by replace (child ctx h + (u - child ctx h)) with u by lia].
    destruct Hfull; lia. }
  eexists _, _, m. split; [reflexivity|]. split; [by apply order_moves|]. split; [done|]. split; [done|]. split; [lia|]. split; [apply length_insert|]. split.
  - intros item. apply hole_move_perm; [|done|lia]. intros ->. pose proof (par_lt m ltac:(lia)). lia.
  - intros i Hi. by rewrite list_lookup_insert_ne by lia.
Qed.

Lemma sift_down_spec fuel : forall base st n r h, I st -> hole_ok base n r h -> below r h -> h < n -> n <= length base -> (Z.of_nat n <= SIZE_MAX)%Z -> n - h <= fuel ->
  exists base' st' h', sift_down_loop fuel (base, st) n h = Ret ((base', st'), h') /\ I st' /\ hole_ok base' n r h' /\ below r h' /\ h' < n /\ length base' = length base /\
    (forall u, 0 < u < n -> par u <> h') /\ (forall item, <[h' := item]> base' ≡ₚ <[h := item]> base) /\ forall i, n <= i -> base' !! i = base !! i.
Proof.
  induction fuel as [|f IH]; intros base st n r h HI Hok Hbel Hh Hn Hsz Hfuel; [lia|]. cbn [Gheap.sift_down_loop].
  destruct HeapShape0 as [Hf Hpg]. rewrite child_index by done. set (c := child ctx h).
  pose proof (child_aligned ctx Hf Hpg h) as [Hal Hc1]. fold c in Hal, Hc1.
  assert (Hstop : n <= c -> exists base' st' h', Ret ((base, st), h) = Ret ((base', st'), h') /\ I st' /\ hole_ok base' n r h' /\ below r h' /\ h' < n /\ length base' = length base /\
    (forall u, 0 < u < n -> par u <> h') /\ (forall item, <[h' := item]> base' ≡ₚ <[h := item]> base) /\ forall i, n <= i -> base' !! i = base !! i).
  { intros Hc. exists base, st, h. repeat (split; [done|]). split; [|done]. intros u Hu Hpu. pose proof (children u h ltac:(lia) Hpu) as Hch. fold c in Hch. lia. }
  destruct (Z.leb_spec (Z.of_nat c) SIZE_MAX) as [Hz|Hz]; [|apply Hstop; lia].
  pose proof (Nat.div_mod (n - 1) (fanout ctx) ltac:(lia)) as Hdn. pose proof (Nat.mod_upper_bound (n - 1) (fanout ctx) ltac:(lia)) as Hmn.
  pose proof (Nat.div_mod (c - 1) (fanout ctx) ltac:(lia)) as Hdc. rewrite Hal in Hdc.
  set (q := (n - 1) / fanout ctx) in *. set (k := (c - 1) / fanout ctx) in *. set (r0 := (n - 1) mod fanout ctx) in *.
  destruct (Nat.leb_spec (n - r0) c) as [Hlf|Hlf].
  - destruct (Nat.ltb_spec c n) as [Hcn|Hcn]; [|by apply Hstop].
    assert (k = q) as Hkq by nia. destruct (move_up_spec base st n r h (n - c) HI Hok Hbel Hh Hn) as (base' & st' & m & Hrun & HI' & Hok' & Hbel' & Hm & Hlen & Hperm & Hfr); [nia|lia|lia|]. fold c in Hrun, Hm.
    exists base', st', m. split; [done|]. split; [done|]. split; [done|]. split; [done|]. split; [lia|]. split; [done|]. split; [|done].
    intros u Hu Hpu. pose proof (children u m ltac:(lia) Hpu) as Hch. pose proof (child_aligned ctx Hf Hpg m) as [Halm Hcm].
    pose proof (parent_child ctx Hf Hpg m 0 ltac:(done)) as Hpc. rewrite Nat.add_0_r in Hpc. pose proof (par_lt (child ctx m) ltac:(lia)) as Hgt. rewrite Hpc in Hgt.
    pose proof (Nat.div_mod (child ctx m - 1) (fanout ctx) ltac:(lia)) as Hdm. rewrite Halm in Hdm.
    set (k2 := (child ctx m - 1) / fanout ctx) in *. assert (Hk2 : k < k2) by (apply (Nat.mul_lt_mono_pos_l (fanout ctx)); lia).
    pose proof (Nat.mul_le_mono_l (S k) k2 (fanout ctx) ltac:(lia)) as Hge. rewrite Nat.mul_succ_r, Hkq in Hge. lia.
  - assert (k < q) as Hkq by nia. destruct (move_up_spec base st n r h (fanout ctx) HI Hok Hbel Hh Hn) as (base1 & st1 & m & Hrun & HI1 & Hok1 & Hbel1 & Hm & Hlen1 & Hperm1 & Hfr1); [lia|fold c; nia|by left|]. fold c in Hrun, Hm.
    rewrite Hrun. cbn [obind]. assert (Hhm : h < m). { pose proof (parent_child ctx Hf Hpg h 0 ltac:(done)) as Hpc. rewrite Nat.add_0_r in Hpc. fold c in Hpc. pose proof (par_lt c ltac:(lia)) as Hgt. rewrite Hpc in Hgt. lia. }
    destruct (IH base1 st1 n r m) as (base' & st' & h' & Hrun' & HI' & Hok' & Hbel' & Hh' & Hlen' & Hno & Hperm' & Hfr'); [done|done|done|nia|lia|done|lia|].
    exists base', st', h'. split; [done|]. split; [done|]. split; [done|]. split; [done|]. split; [done|]. split; [congruence|]. split; [done|]. split.
    + intros item. by rewrite Hperm', Hperm1.
    + intros i Hi. by rewrite Hfr', Hfr1.
Qed.

(** * Operations *)

(** What an operation leaves: a state, a heap and the same items. *)
Definition result (b : outcome (list A * St)) (base : list A) (post : list A -> Prop) : Prop :=
  exists base' st', b = Ret (base', st') /\ I st' /\ base' ≡ₚ base /\ post base'.


Lemma below_zero h : below 0 h.
Proof.
  induction h as [h IH] using lt_wf_ind. destruct (Nat.eq_dec h 0) as [->|Hh]; [constructor|]. apply below_child; [lia|]. apply IH. apply par_lt. lia.
Qed.

Lemma sift_up_result base st n r h item : I st -> hole_ok base n r h -> item_over base n h item -> below r h -> h < length base ->
  result (_gheap_sift_up less_comparer item_mover ctx (base, st) r h item) (<[h := item]> base) (fun base' => heap_from base' n r /\ forall i, h < i -> base' !! i = base !! i).
Proof.
  intros HI Hok Ho Hb Hl. destruct (sift_up_spec (S h) base st n r h item HI Hok Ho Hb Hl ltac:(lia)) as (base' & st' & Hrun & HI' & Hheap & Hp & Hfr). by exists base', st'.
Qed.

Lemma sift_down_result base st n h item : I st -> heap_from base n (S h) -> h < n -> n <= length base -> (Z.of_nat n <= SIZE_MAX)%Z ->
  result (_gheap_sift_down less_comparer item_mover ctx (base, st) n h item) (<[h := item]> base) (fun base' => heap_from base' n h /\ forall i, n <= i -> base' !! i = base !! i).
Proof.
  intros HI Hheap Hh Hn Hsz. unfold _gheap_sift_down.
  destruct (sift_down_spec (S n) base st n h h HI) as (base1 & st1 & h1 & -> & HI1 & Hok1 & Hbel1 & Hh1 & Hlen1 & Hno & Hp1 & Hfr1); [|constructor|done|done|done|lia|].
  { split; [|lia]. intros u Hu Hr _ Hne. apply Hheap; [done|lia]. }
  cbn [obind]. destruct (sift_up_result base1 st1 n h h1 item) as (base' & st' & Hrun & HI' & Hp & Hheap' & Hfr); [done|done| |done|lia|].
  { intros u b Hu Hpu. by destruct (Hno u Hu). }
  exists base', st'. split; [done|]. split; [done|]. split; [by rewrite Hp, Hp1|]. split; [done|]. intros i Hi. rewrite Hfr by lia. by apply Hfr1.
Qed.

Lemma to_tmp_ok base st i x : base !! i = Some x -> to_tmp item_mover (base, st) i = Ret (base, item_mover st Tmp x, x).
Proof. intros Hi. unfold to_tmp, get_item. cbn. by rewrite Hi. Qed.




(** The top of the heap goes behind it. *)
Lemma pop_max_spec base st n top : I st -> is_heap base (S n) -> 0 < n -> S n <= length base -> (Z.of_nat n <= SIZE_MAX)%Z -> base !! 0 = Some top ->
  result (_gheap_pop_max_item less_comparer item_mover ctx (base, st) n) base (fun base' => is_heap base' n /\ base' !! n = Some top /\ forall i, n < i -> base' !! i = base !! i).
Proof.
  intros HI Hh Hn Hl Hsz Htop. unfold _gheap_pop_max_item, gheap_swap_max_item. destruct (lookup_lt_is_Some_2 base n) as [x Hx]; [lia|].
  rewrite (to_tmp_ok base st n x Hx). cbn [obind fst]. unfold get_item. rewrite Htop. cbn [obind]. rewrite move_to_ok by lia. cbn [obind].
  destruct (sift_down_result (<[n := top]> base) (item_mover (item_mover st Tmp x) (InHeap n) top) n 0 x) as (base' & st' & Hrun & HI' & Hp & Hheap & Hfr).
  - by repeat apply order_moves.
  - intros u Hu Hr a b. pose proof (par_lt u ltac:(lia)). rewrite !list_lookup_insert_ne by lia. apply Hh; lia.
  - done.
  - rewrite length_insert. lia.
  - done.
  - exists base', st'. split; [done|]. split; [done|]. split; [|split; [done|split]].
    + rewrite Hp. by apply Permutation_insert_swap.
    + rewrite Hfr by lia. apply list_lookup_insert_eq. lia.
    + intros i Hi. rewrite Hfr by lia. by rewrite list_lookup_insert_ne by lia.
Qed.

Lemma pop_heap_spec base st n top : I st -> is_heap base n -> 0 < n <= length base -> (Z.of_nat n <= SIZE_MAX)%Z -> base !! 0 = Some top ->
  result (gheap_pop_heap less_comparer item_mover ctx (base, st) n) base (fun base' => is_heap base' (n - 1) /\ base' !! (n - 1) = Some top /\ forall i, n <= i -> base' !! i = base !! i).
Proof.
  intros HI Hh Hn Hsz Htop. unfold gheap_pop_heap. destruct (Nat.ltb_spec 1 n) as [H1|H1].
  - destruct n as [|n]; [lia|]. replace (S n - 1) with n by lia. destruct (pop_max_spec base st n top) as (base' & st' & H); try done; try lia. exists base', st'. naive_solver lia.
  - assert (n = 1) as -> by lia. exists base, st. split; [done|]. split; [done|]. split; [done|]. split; [intros u Hu; lia|]. done.
Qed.

Lemma push_heap_spec base st n : I st -> is_heap base (n - 1) -> 0 < n <= length base ->
  result (gheap_push_heap less_comparer item_mover ctx (base, st) n) base (fun base' => is_heap base' n /\ forall i, n <= i -> base' !! i = base !! i).
Proof.
  intros HI Hh Hn. unfold gheap_push_heap. destruct (Nat.ltb_spec 1 n) as [H1|H1].
  - destruct (lookup_lt_is_Some_2 base (n - 1)) as [x Hx]; [lia|]. rewrite (to_tmp_ok base st _ x Hx). cbn [obind].
    destruct (sift_up_result base (item_mover st Tmp x) n 0 (n - 1) x) as (base' & st' & Hrun & HI' & Hp & Hheap & Hfr); [by apply order_moves| | |apply below_zero|lia|].
    + split; [intros u Hu _ Hne _; apply Hh; lia|]. intros _ u Hu Hpu. pose proof (par_lt u ltac:(lia)). lia.
    + intros u b Hu Hpu. pose proof (par_lt u ltac:(lia)). lia.
    + rewrite list_insert_id in Hp by done. exists base', st'. split; [done|]. split; [done|]. split; [done|]. split; [done|]. intros i Hi. apply Hfr. lia.
  - assert (n = 1) as -> by lia. exists base, st. split; [done|]. split; [done|]. split; [done|]. split; [intros u Hu; lia|done].
Qed.

(** An item that has grown, or any item whose children are in order with it. *)
Lemma increase_spec base st n i item : I st -> i < n -> n <= length base -> base !! i = Some item -> hole_ok base n 0 i -> item_over base n i item ->
  result (gheap_restore_heap_after_item_increase less_comparer item_mover ctx (base, st) n i) base (fun base' => is_heap base' n /\ forall j, n <= j -> base' !! j = base !! j).
Proof.
  intros HI Hi Hn Hx Hok Ho. unfold gheap_restore_heap_after_item_increase. destruct (Nat.ltb_spec 0 i) as [H0|H0].
  - rewrite (to_tmp_ok base st _ item Hx). cbn [obind]. destruct (sift_up_result base (item_mover st Tmp item) n 0 i item) as (base' & st' & Hrun & HI' & Hp & Hheap & Hfr); [by apply order_moves|done|done|apply below_zero|lia|].
    rewrite list_insert_id in Hp by done. exists base', st'. split; [done|]. split; [done|]. split; [done|]. split; [done|]. intros j Hj. apply Hfr. lia.
  - assert (i = 0) as -> by lia. exists base, st. split; [done|]. split; [done|]. split; [done|]. split; [|done].
    rewrite <- (list_insert_id base 0 item Hx). apply hole_filled; [done|done|lia|lia].
Qed.






End Order.


(** Numbers, with nobody to tell where they are. *)
Definition nat_less (_ : unit) (a b : nat) : bool := a <? b.
Definition nat_mover (_ : unit) (_ : place) (_ : nat) : unit := tt.
#[export] Instance nat_order : HeapOrder nat_less nat_mover Nat.ltb (fun _ => True).
Proof.
  split; [done|done|apply Nat.ltb_irrefl| |]; intros x y z.
  - rewrite !Nat.ltb_lt. lia.
  - rewrite !Nat.ltb_ge. lia.
Qed.
#[export] Instance binary_shape : HeapShape (GheapCtx 2 1).
Proof. split; cbn; lia. Qed.


(** Pages of two chunks of three. *)
Example paged_sort : (let! b := gheap_make_heap nat_less nat_mover (GheapCtx 3 2) ([9; 3; 1; 7; 2; 8; 5; 4; 6; 0], tt) 10 in gheap_sort_heap nat_less nat_mover (GheapCtx 3 2) b 10) = Ret ([0; 1; 2; 3; 4; 5; 6; 7; 8; 9], tt).
Proof. by vm_compute. Qed.

(** The items that are removed end behind the heap. *)
Example removed : (let! b := gheap_remove_from_heap nat_less nat_mover (GheapCtx 2 1) ([9; 7; 8; 3; 6], tt) 5 1 in Ret b.1) = Ret [9; 6; 8; 3; 7].
Proof. by vm_compute. Qed.
