(* ===== verification/Dijkstra.v ===== *)
(** common/dijkstra.c and common/route.c: the search for routes to a node.

    The side-info of the nodes is an array by node index; the heap holds node
    indices.  [heapptr] is the place of the node in the heap, or on the stack while
    it is moved; NULL is [None].  [channel_ok] and [path_score] are the caller's, and
    [risk] stands for [risk_price] with the caller's riskfactor, which is computed
    in floating point. *)
From S2P Require Import Prelude Utf8 Jsmn JsonTree Json JsonOut Wire Tlv Amount JsonHelpers LibpluginParse.
From S2P Require Import Features GossipStore Gossmap Gheap.

Record dijkstra : Type := Dijkstra {
  d_distance : Z; d_total_delay : Z; d_cost : amount_msat; d_heapptr : option place; d_score : Z; d_best_chan : option nat }.

(** An entry of the new array that nobody has set. *)
Definition d_unset : dijkstra := Dijkstra 0 0 (Msat 0) None 0 None.

Definition set_heapptr (h : option place) (d : dijkstra) : dijkstra := Dijkstra (d_distance d) (d_total_delay d) (d_cost d) h (d_score d) (d_best_chan d).

(** [dij[node_idx]]; an index outside the array is a crash. *)
Definition get_dijkstra (dij : list dijkstra) (n : nat) : outcome dijkstra := match dij !! n with Some d => Ret d | None => Abort "get_dijkstra" end.

Definition dijkstra_distance (dij : list dijkstra) (n : nat) : outcome Z := let! d := get_dijkstra dij n in Ret (d_distance d).
Definition dijkstra_delay (dij : list dijkstra) (n : nat) : outcome Z := let! d := get_dijkstra dij n in Ret (d_total_delay d).
Definition dijkstra_best_chan (dij : list dijkstra) (n : nat) : outcome (option nat) := let! d := get_dijkstra dij n in Ret (d_best_chan d).

Definition score_of (dij : list dijkstra) (n : nat) : Z := d_score (default d_unset (dij !! n)).

(** We want a minheap, not a maxheap, so this is backwards! *)
Definition less_comparer (dij : list dijkstra) (a b : nat) : bool := (score_of dij b <? score_of dij a)%Z.

Definition item_mover (dij : list dijkstra) (dst : place) (n : nat) : list dijkstra := alter (set_heapptr (Some dst)) n dij.

Definition UNREACHED : amount_msat := Msat (u64_mod - 1).

Definition put_heap (heap : list nat) (i n : nat) : outcome (list nat) := if i <? length heap then Ret (<[i := n]> heap) else Abort "mkheap: heap".

(** The loop of [mkheap]: [n] is the node to enter, [i] the next free place. *)
Fixpoint mkheap_loop (fuel : nat) (m : gossmap) (start : nat) (sent : amount_msat) (n : option nat) (i : nat) (b : list nat * list dijkstra) : outcome (list nat * list dijkstra) :=
  match n, fuel with
  | None, _ => Ret b
  | _, O => Abort "mkheap: fuel"
  | Some n, S f =>
      let! d := get_dijkstra b.2 n in
      if n =? start then
        let! heap := put_heap b.1 0 start in
        mkheap_loop f m start sent (gossmap_next_node m n) i (heap, <[n := Dijkstra 0 0 sent (Some (InHeap 0)) 0 (d_best_chan d)]> b.2)
      else
        let! heap := put_heap b.1 i n in
        mkheap_loop f m start sent (gossmap_next_node m n) (i + 1) (heap, <[n := Dijkstra UINT_MAX 0 UNREACHED (Some (InHeap i)) (u64_mod - 1) (d_best_chan d)]> b.2)
  end.
Definition mkheap (dij : list dijkstra) (m : gossmap) (start : nat) (sent : amount_msat) : outcome (list nat * list dijkstra) :=
  mkheap_loop (S (gossmap_max_node_idx m)) m start sent (gossmap_first_node m) 1 (replicate (gossmap_num_nodes m) 0, dij).

(** There doesn't seem to be much difference with fanout 2-4. *)
Definition heap_ctx : gheap_ctx := GheapCtx 2 1.

Section Search.
  Context (risk : amount_msat -> Z -> amount_msat).
  Context (channel_ok : gossmap -> gossmap_chan -> bool -> amount_msat -> bool).
  Context (path_score : Z -> amount_msat -> amount_msat -> gossmap_chan -> Z).
  Context (m : gossmap).

(** The neighbor at the [i]th channel of the current node: the body of the inner
    loop. *)
Definition relax (b : list nat * list dijkstra) (heapsize cur i : nat) : outcome (list nat * list dijkstra) :=
  let! (ci, which_half) := gossmap_nth_chan m cur i in
  let! c := chan_at m ci in
  let dir := negb which_half in
  let neighbor := gossmap_nth_node c dir in
  let! cur_d := get_dijkstra b.2 cur in
  let! d := get_dijkstra b.2 neighbor in
  match d_heapptr d with
  | None => Ret b
  | Some h =>
      if negb (channel_ok m c dir (d_cost cur_d)) then Ret b
      else
        let hc := sel dir (half c) in
        match amount_msat_add_fee (d_cost cur_d) (hc_base_fee hc) (hc_proportional_fee hc) with
        | None => Ret b
        | Some cost =>
            let delay := wrap32 (d_total_delay cur_d + hc_delay hc) in
            let distance := wrap32 (d_distance cur_d + 1) in
            let score := path_score distance cost (risk cost delay) c in
            if (d_score d <=? score)%Z then Ret b
            else
              let dij := <[neighbor := Dijkstra distance delay cost (Some h) score (Some ci)]> b.2 in
              match h with
              | Tmp => Abort "dijkstra: heapptr"
              | InHeap k => gheap_restore_heap_after_item_increase less_comparer item_mover heap_ctx (b.1, dij) heapsize k
              end
        end
  end.

(** All the channels of the current node, from the [i]th on. *)
Fixpoint relax_all (b : list nat * list dijkstra) (heapsize cur i n : nat) : outcome (list nat * list dijkstra) :=
  match n with
  | O => Ret b
  | S n => let! b := relax b heapsize cur i in relax_all b heapsize cur (S i) n
  end.

(** [while (heapsize != 0)] *)
Fixpoint search_loop (b : list nat * list dijkstra) (heapsize : nat) : outcome (list dijkstra) :=
  match heapsize with
  | O => Ret b.2
  | S rest =>
      match b.1 !! 0 with
      | None => Abort "dijkstra: heap"
      | Some cur =>
          let! cur_d := get_dijkstra b.2 cur in
          if (d_distance cur_d =? UINT_MAX)%Z then Ret b.2
          else
            let! nd := node_at m cur in
            let! b := relax_all b heapsize cur 0 (num_chans nd) in
            let! b := gheap_pop_heap less_comparer item_mover heap_ctx b heapsize in
            search_loop (b.1, alter (set_heapptr None) cur b.2) rest
      end
  end.

(** Do Dijkstra: start in this case is the dst node. *)
Definition dijkstra_ (start : nat) (amount : amount_msat) : outcome (list dijkstra) :=
  let dij := replicate (gossmap_max_node_idx m) d_unset in
  let! b := mkheap dij m start amount in
  search_loop b (length b.1).

End Search.

(** * Routes

    common/route.c: what a route may use, what it costs, and the route itself. *)

Definition route_can_carry_even_disabled (m : gossmap) (c : gossmap_chan) (dir : bool) (amount : amount_msat) : bool :=
  if negb (gossmap_chan_set c dir) then false
  else if negb (gossmap_chan_capacity c dir amount) then false
  else true.

(** Generally only one side gets marked disabled, but it's disabled. *)
Definition route_can_carry (m : gossmap) (c : gossmap_chan) (dir : bool) (amount : amount_msat) : bool :=
  if negb (hc_enabled (sel dir (half c))) || negb (hc_enabled (sel (negb dir) (half c))) then false
  else route_can_carry_even_disabled m c dir amount.

(** Squeeze total costs into a u32 *)
Definition costs_to_score (cost risk : amount_msat) : Z :=
  let costs := wrap64 (millisatoshis cost + millisatoshis risk) in
  if (4294967295 <? costs)%Z then 4294967295 else costs.

(** Prioritize distance over costs *)
Definition route_score_shorter (distance : Z) (cost risk : amount_msat) (c : gossmap_chan) : Z :=
  wrap64 (costs_to_score cost risk + wrap64 (Z.shiftl distance 32)).

(** Prioritize costs over distance *)
Definition route_score_cheaper (distance : Z) (cost risk : amount_msat) (c : gossmap_chan) : Z :=
  wrap64 (wrap64 (Z.shiftl (costs_to_score cost risk) 32) + distance).

(** A hop with all its fields set. *)
Definition hop (scid : short_channel_id) (direction : bool) (id : node_id) (amount : amount_msat) (delay : Z) (style : route_hop_style) : route_hop :=
  Hop (Some scid) (Some (if direction then 1 else 0)%Z) (Some id) (Some amount) (Some delay) style.

(** Recursive version: return false if we can't get there; the hops from the current
    node on, the amount and the delay at its first channel.  [fuel] bounds the
    length of the route. *)
Fixpoint dijkstra_to_hops (fuel : nat) (m : gossmap) (dij : list dijkstra) (cur : nat) (amount : amount_msat) (cltv : Z)
    : outcome (option (list route_hop * amount_msat * Z)) :=
  let! curidx := gossmap_node_idx m cur in
  let! dist := dijkstra_distance dij curidx in
  if (dist =? 0)%Z then Ret (Some ([], amount, cltv))
  else if (dist =? UINT_MAX)%Z then Ret None
  else
    match fuel with
    | O => Abort "dijkstra_to_hops: fuel"
    | S f =>
        let! best := dijkstra_best_chan dij curidx in
        match best with
        | None => Abort "dijkstra_to_hops: best_chan"
        | Some ci =>
            let! c := chan_at m ci in
            let! direction :=
              if hc_nodeidx (at0 (half c)) =? curidx then Ret false
              else let! _ := assert_ (hc_nodeidx (at1 (half c)) =? curidx) "dijkstra_to_hops: nodeidx" in Ret true in
            let! scid := gossmap_chan_scid m c in
            let next := gossmap_nth_node c (negb direction) in
            let! id := gossmap_node_get_id m next in
            let! nd := node_at m next in
            let! feature := if (nann_off nd =? 0)%Z then Ret 0%Z else gossmap_node_get_feature m nd OPT_VAR_ONION in
            let style := if (nann_off nd =? 0)%Z || negb (feature =? -1)%Z then ROUTE_HOP_TLV else ROUTE_HOP_LEGACY in
            let! r := dijkstra_to_hops f m dij next amount cltv in
            match r with
            | None => Ret None
            | Some (hops, amount, cltv) =>
                let h := sel direction (half c) in
                match amount_msat_add_fee amount (hc_base_fee h) (hc_proportional_fee h) with
                | None => Abort "dijkstra_to_hops: amount_msat_add_fee"
                | Some amount' => Ret (Some (hop scid direction id amount cltv style :: hops, amount', wrap32 (cltv + hc_delay h)))
                end
            end
        end
    end.

(** A route passes each node of the array at most once. *)
Definition route_from_dijkstra (m : gossmap) (dij : list dijkstra) (src : nat) (final_amount : amount_msat) (final_cltv : Z) : outcome (option (list route_hop)) :=
  let! r := dijkstra_to_hops (length dij) m dij src final_amount final_cltv in
  Ret (match r with Some (hops, _, _) => Some hops | None => None end).
