(* ===== verification/DijkstraProofs.v ===== *)
(** The search for routes: the heap and the places of the nodes in it, and the tree
    of best channels. *)
From S2P Require Import Prelude Utf8 Jsmn JsonTree Json JsonOut Wire Tlv Amount JsonHelpers LibpluginParse.
From S2P Require Import Features GossipStore Gossmap GossmapProofs GossmapTheorems Gheap GheapTheorems Dijkstra.

(** * Moving nodes changes their places only *)

(** An entry but for its place. *)
Definition info (d : dijkstra) : Z * Z * amount_msat * Z * option nat := (d_distance d, d_total_delay d, d_cost d, d_score d, d_best_chan d).
Definition same_info (dij dij' : list dijkstra) : Prop := info <$> dij = info <$> dij'.

Lemma same_info_lookup dij dij' n : same_info dij dij' -> info <$> dij !! n = info <$> dij' !! n.
Proof. intros H. rewrite <- !list_lookup_fmap. by rewrite H. Qed.

Lemma same_info_score dij dij' n : same_info dij dij' -> score_of dij' n = score_of dij n.
Proof.
  intros H%(same_info_lookup _ _ n). unfold score_of. destruct (dij !! n), (dij' !! n); cbn in H; try done. unfold info in H. cbn. congruence.
Qed.

Lemma same_info_mover dij dij' p x : same_info dij dij' -> same_info dij (item_mover dij' p x).
Proof.
  unfold same_info. intros ->. apply list_eq. intros i. rewrite !list_lookup_fmap. unfold item_mover.
  destruct (decide (x = i)) as [->|Hi]; [rewrite list_lookup_alter_eq; by destruct (dij' !! i)|by rewrite list_lookup_alter_ne].
Qed.

Definition order (dij : list dijkstra) (a b : nat) : bool := (score_of dij b <? score_of dij a)%Z.

#[export] Instance dijkstra_order dij : HeapOrder less_comparer item_mover (order dij) (same_info dij).
Proof.
  split; unfold order.
  - intros st x y H. unfold less_comparer. by rewrite !(same_info_score dij st) by done.
  - intros st p x H. by apply same_info_mover.
  - intros x. apply Z.ltb_irrefl.
  - intros x y z. rewrite !Z.ltb_lt. lia.
  - intros x y z. rewrite !Z.ltb_ge. lia.
Qed.

(** * Places *)

Definition pos (dij : list dijkstra) (x : nat) : option place := d_heapptr (default d_unset (dij !! x)).

Lemma pos_mover dij p x y : x < length dij -> pos (item_mover dij p x) y = if decide (y = x) then Some p else pos dij y.
Proof.
  intros Hx. unfold pos, item_mover. destruct (decide (y = x)) as [->|Hne].
  - rewrite list_lookup_alter_eq. by destruct (lookup_lt_is_Some_2 dij x Hx) as [d ->].
  - by rewrite list_lookup_alter_ne.
Qed.

(** The places of all nodes but those at the hole [h] and at [e]: in the heap of
    size [n] where they are, and none behind it. *)
Definition placed (dij : list dijkstra) (base : list nat) (n h e : nat) : Prop :=
  forall i x, i <> h -> i <> e -> base !! i = Some x -> pos dij x = if i <? n then Some (InHeap i) else None.

Definition in_range (dij : list dijkstra) (base : list nat) : Prop := forall x, x ∈ base -> x < length dij.

Lemma length_mover dij p x : length (item_mover dij p x) = length dij.
Proof. apply length_alter. Qed.

(** The item at [q] moved into the hole. *)
Lemma placed_move dij base n h e q x item : placed dij base n h e -> NoDup (<[h := item]> base) -> in_range dij (<[h := item]> base) ->
  base !! q = Some x -> q <> h -> h < n -> h < length base -> placed (item_mover dij (InHeap h) x) (<[h := x]> base) n q e.
Proof.
  intros Hp Hd Hr Hq Hqh Hh Hl i y Hiq Hie Hy.
  assert (Hq' : <[h := item]> base !! q = Some x) by by rewrite list_lookup_insert_ne.
  rewrite pos_mover by (apply Hr; by eapply list_elem_of_lookup_2). destruct (decide (i = h)) as [->|Hih].
  - rewrite list_lookup_insert_eq in Hy by done. injection Hy as ->. rewrite decide_True by done. by rewrite (proj2 (Nat.ltb_lt _ _)).
  - rewrite list_lookup_insert_ne in Hy by done. rewrite decide_False; [by apply Hp|]. intros ->.
    assert (Hi' : <[h := item]> base !! i = Some x) by by rewrite list_lookup_insert_ne. by apply Hiq, (NoDup_lookup _ _ _ _ Hd Hi' Hq').
Qed.

Lemma placed_fill dij base n h e item : placed dij base n h e -> NoDup (<[h := item]> base) -> in_range dij (<[h := item]> base) -> h < n -> h < length base -> h <> e ->
  forall i x, i <> e -> <[h := item]> base !! i = Some x -> pos (item_mover dij (InHeap h) item) x = if i <? n then Some (InHeap i) else None.
Proof.
  intros Hp Hd Hr Hh Hl Hhe i x Hie Hx. assert (Hit : <[h := item]> base !! h = Some item) by by apply list_lookup_insert_eq.
  rewrite pos_mover by (apply Hr; by eapply list_elem_of_lookup_2). destruct (decide (i = h)) as [->|Hih].
  - assert (x = item) as -> by congruence. rewrite decide_True by done. by rewrite (proj2 (Nat.ltb_lt _ _)).
  - rewrite decide_False; [|intros ->; by apply Hih, (NoDup_lookup _ _ _ _ Hd Hx Hit)]. rewrite list_lookup_insert_ne in Hx by done. by apply Hp.
Qed.

Lemma in_range_perm dij dij' base base' : length dij' = length dij -> base' ≡ₚ base -> in_range dij base -> in_range dij' base'.
Proof. intros Hl Hp Hr x Hx. rewrite Hl. apply Hr. by rewrite <- Hp. Qed.

Lemma move_to_inv (base : list nat) dij i x base' dij' : move_to item_mover (base, dij) i x = Ret (base', dij') ->
  i < length base /\ base' = <[i := x]> base /\ dij' = item_mover dij (InHeap i) x.
Proof. unfold move_to, get_item. cbn. destruct (base !! i) as [y|] eqn:Hy; [|done]. cbn. intros [= <- <-]. split; [by eapply lookup_lt_Some|done]. Qed.

(** The places after [_gheap_sift_up]; the root stays when the item is not above
    it. *)
Lemma sift_up_placed fuel : forall base dij r h item n e base' dij', sift_up_loop less_comparer item_mover heap_ctx fuel (base, dij) r h item = Ret (base', dij') ->
  placed dij base n h e -> NoDup (<[h := item]> base) -> in_range dij (<[h := item]> base) -> h < n -> n <= e ->
  (forall i x, i <> e -> base' !! i = Some x -> pos dij' x = if i <? n then Some (InHeap i) else None) /\
  (forall root, 0 < h -> base !! 0 = Some root -> order dij root item = false -> base' !! 0 = Some root).
Proof.
  induction fuel as [|f IH]; intros base dij r h item n e base' dij' Hrun Hp Hd Hr Hh He; [done|]. cbn [sift_up_loop fst snd] in Hrun.
  assert (Hdone : move_to item_mover (base, dij) h item = Ret (base', dij') -> (forall i x, i <> e -> base' !! i = Some x -> pos dij' x = if i <? n then Some (InHeap i) else None) /\ (forall root, 0 < h -> base !! 0 = Some root -> order dij root item = false -> base' !! 0 = Some root)).
  { intros (Hl & -> & ->)%move_to_inv. split; [apply placed_fill; (done || lia)|]. intros root H0 Hroot _. by rewrite list_lookup_insert_ne by lia. }
  destruct (r <? h) eqn:Hrh; cbn [negb] in Hrun; [|by apply Hdone]. apply Nat.ltb_lt in Hrh. set (q := gheap_get_parent_index heap_ctx h) in *.
  assert (Hq : q < h) by (apply parent_below; cbn; lia).
  unfold get_item in Hrun. destruct (base !! q) as [p|] eqn:Hqp; [|done]. cbn [obind] in Hrun.
  destruct (less_comparer dij p item) eqn:Hless; cbn [negb] in Hrun; [|by apply Hdone].
  destruct (move_to item_mover (base, dij) h p) as [[base1 dij1]|] eqn:Hmv; [|done]. cbn [obind] in Hrun. apply move_to_inv in Hmv as (Hl & -> & ->).
  assert (Hperm : <[q := item]> (<[h := p]> base) ≡ₚ <[h := item]> base) by (apply hole_move_perm; (done || lia)).
  destruct (IH _ _ _ _ _ n e _ _ Hrun) as [IH1 IH2].
  - apply (placed_move dij base n h e q p item); (done || lia).
  - by rewrite Hperm.
  - eapply in_range_perm; [apply length_mover|exact Hperm|exact Hr].
  - lia.
  - lia.
  - split; [done|]. intros root H0 Hroot Hord. destruct (Nat.eq_dec q 0) as [Hq0|Hq0].
    + rewrite Hq0 in Hqp. assert (p = root) as -> by congruence. unfold less_comparer in Hless. unfold order in Hord. congruence.
    + apply IH2; [lia|by rewrite list_lookup_insert_ne by lia|]. unfold order in *. by rewrite !(same_info_score dij (item_mover dij (InHeap h) p)) by by apply same_info_mover.
Qed.

Lemma max_child_range dij base c n : forall i m m', max_child less_comparer dij base c i n m = Ret m' -> m' = m \/ c + i <= m' < c + i + n.
Proof.
  induction n as [|n IH]; intros i m m'; cbn [max_child]; [intros [= <-]; by left|]. unfold get_item. destruct (base !! (c + i)) as [a|]; [|done]. destruct (base !! m) as [b|]; [|done]. cbn [obind].
  intros [->|H]%IH; [|lia]. destruct (less_comparer dij a b); [by left|]. cbn. lia.
Qed.

Lemma move_up_placed base dij k h c n e item base' dij' m : _gheap_move_up_max_child less_comparer item_mover (base, dij) k h c = Ret ((base', dij'), m) ->
  placed dij base n h e -> NoDup (<[h := item]> base) -> in_range dij (<[h := item]> base) -> h < n -> h < c -> 0 < k -> c + k <= n ->
  placed dij' base' n m e /\ NoDup (<[m := item]> base') /\ in_range dij' (<[m := item]> base') /\ c <= m < n.
Proof.
  intros Hrun Hp Hd Hr Hh Hc Hk Hck. unfold _gheap_move_up_max_child in Hrun. cbn [fst snd] in Hrun.
  destruct (max_child _ _ _ _ _ _ _) as [m0|] eqn:Hm; [|done]. cbn [obind] in Hrun. apply max_child_range in Hm.
  unfold get_item in Hrun. destruct (base !! m0) as [x|] eqn:Hx; [|done]. cbn [obind] in Hrun.
  destruct (move_to item_mover (base, dij) h x) as [[base1 dij1]|] eqn:Hmv; [|done]. cbn [obind] in Hrun. apply move_to_inv in Hmv as (Hl & -> & ->). injection Hrun as <- <- <-.
  assert (Hperm : <[m0 := item]> (<[h := x]> base) ≡ₚ <[h := item]> base) by (apply hole_move_perm; (done || lia)).
  split; [apply (placed_move dij base n h e m0 x item); (done || lia)|]. split; [by rewrite Hperm|]. split; [|lia]. eapply in_range_perm; [apply length_mover|exact Hperm|exact Hr].
Qed.

Lemma sift_down_placed fuel : forall base dij h item n e base' dij' h', sift_down_loop less_comparer item_mover heap_ctx fuel (base, dij) n h = Ret ((base', dij'), h') ->
  placed dij base n h e -> NoDup (<[h := item]> base) -> in_range dij (<[h := item]> base) -> h < n ->
  placed dij' base' n h' e /\ NoDup (<[h' := item]> base') /\ in_range dij' (<[h' := item]> base') /\ h' < n.
Proof.
  induction fuel as [|f IH]; intros base dij h item n e base' dij' h' Hrun Hp Hd Hr Hh; [done|]. cbn [sift_down_loop] in Hrun.
  rewrite child_index in Hrun by (cbn; lia). destruct (_ <=? SIZE_MAX)%Z; [|by injection Hrun as <- <- <-].
  assert (Hc : child heap_ctx h = h * 2 + 1) by done. rewrite Hc in Hrun. change (fanout heap_ctx) with 2 in Hrun.
  destruct (Nat.leb_spec (n - (n - 1) mod 2) (h * 2 + 1)) as [Hlf|Hlf].
  - destruct (Nat.ltb_spec (h * 2 + 1) n); [|by injection Hrun as <- <- <-].
    destruct (move_up_placed _ _ _ _ _ n e item _ _ _ Hrun Hp Hd Hr Hh) as (H1 & H2 & H3 & H4); [lia|lia|lia|]. split; [done|]. split; [done|]. split; [done|lia].
  - destruct (_gheap_move_up_max_child _ _ _ _ _ _) as [[[base1 dij1] m]|] eqn:Hmv; [|done]. cbn [obind] in Hrun.
    pose proof (Nat.mod_upper_bound (n - 1) 2 ltac:(lia)). pose proof (Nat.div_mod (n - 1) 2 ltac:(lia)).
    destruct (move_up_placed _ _ _ _ _ n e item _ _ _ Hmv Hp Hd Hr Hh) as (H1 & H2 & H3 & H4); [lia|lia|lia|]. eapply IH; [exact Hrun|done|done|done|lia].
Qed.

(** * The two operations of the search *)

Definition placed_all (dij : list dijkstra) (base : list nat) (n : nat) : Prop := forall i x, base !! i = Some x -> pos dij x = if i <? n then Some (InHeap i) else None.

Lemma same_info_length dij dij' : same_info dij dij' -> length dij' = length dij.
Proof. intros H. rewrite <- (length_fmap info dij), H. by rewrite length_fmap. Qed.

Lemma increase_dijkstra dij base n k x root : 0 < k < n -> n <= length base -> base !! k = Some x -> hole_ok heap_ctx (order dij) base n 0 k -> item_over heap_ctx (order dij) base n k x ->
  placed_all dij base n -> NoDup base -> in_range dij base -> base !! 0 = Some root -> order dij root x = false ->
  exists base' dij', gheap_restore_heap_after_item_increase less_comparer item_mover heap_ctx (base, dij) n k = Ret (base', dij') /\ same_info dij dij' /\ base' ≡ₚ base /\
    is_heap heap_ctx (order dij) base' n /\ (forall j, n <= j -> base' !! j = base !! j) /\ placed_all dij' base' n /\ base' !! 0 = Some root.
Proof.
  intros Hk Hn Hx Hok Ho Hp Hd Hr Hroot Hord.
  destruct (increase_spec less_comparer item_mover heap_ctx (order dij) (same_info dij) base dij n k x) as (base' & dij' & Hrun & HI & Hperm & Hheap & Hfr); [done|lia|done|done|done|done|].
  exists base', dij'. split; [done|]. split; [done|]. split; [done|]. split; [done|]. split; [done|].
  unfold gheap_restore_heap_after_item_increase in Hrun. rewrite (proj2 (Nat.ltb_lt _ _)) in Hrun by lia. rewrite (to_tmp_ok item_mover base dij k x Hx) in Hrun. cbn [obind] in Hrun.
  assert (Hxl : x < length dij) by (apply Hr; by eapply list_elem_of_lookup_2). unfold _gheap_sift_up in Hrun.
  destruct (sift_up_placed _ _ _ _ _ _ n (length base) _ _ Hrun) as [H1 H2].
  - intros i y Hik _ Hy. rewrite pos_mover by done. rewrite decide_False; [by apply Hp|]. intros ->. by apply Hik, (NoDup_lookup _ _ _ _ Hd Hy Hx).
  - by rewrite list_insert_id.
  - rewrite list_insert_id by done. eapply in_range_perm; [apply length_mover|reflexivity|done].
  - lia.
  - lia.
  - split; [intros i y Hy; apply H1; [|done]; apply lookup_lt_Some in Hy; rewrite Hperm in Hy; lia|]. apply H2; [lia|done|].
    unfold order in *. by rewrite !(same_info_score dij (item_mover dij Tmp x)) by by apply same_info_mover.
Qed.

Lemma pop_dijkstra dij base n cur : is_heap heap_ctx (order dij) base n -> 0 < n <= length base -> (Z.of_nat n <= SIZE_MAX)%Z -> base !! 0 = Some cur ->
  placed_all dij base n -> NoDup base -> in_range dij base ->
  exists base' dij', gheap_pop_heap less_comparer item_mover heap_ctx (base, dij) n = Ret (base', dij') /\ same_info dij dij' /\ base' ≡ₚ base /\
    is_heap heap_ctx (order dij) base' (n - 1) /\ base' !! (n - 1) = Some cur /\ (forall j, n <= j -> base' !! j = base !! j) /\ placed_all (alter (set_heapptr None) cur dij') base' (n - 1).
Proof.
  intros Hh Hn Hsz Hcur Hp Hd Hr.
  destruct (pop_heap_spec less_comparer item_mover heap_ctx (order dij) (same_info dij) base dij n cur) as (base' & dij' & Hrun & HI & Hperm & Hheap & Htop & Hfr); [done|done|done|done|done|].
  exists base', dij'. split; [done|]. split; [done|]. split; [done|]. split; [done|]. split; [done|]. split; [done|].
  assert (Hd' : NoDup base') by by rewrite Hperm. assert (Hcl : cur < length dij') by (rewrite (same_info_length dij dij' HI); apply Hr; by eapply list_elem_of_lookup_2).
  assert (Hkey : forall i x, i <> n - 1 -> base' !! i = Some x -> pos dij' x = if i <? n - 1 then Some (InHeap i) else None).
  { unfold gheap_pop_heap in Hrun. destruct (Nat.ltb_spec 1 n) as [H1|H1].
    2:{ injection Hrun as <- <-. assert (n = 1) as -> by lia. intros i x Hi Hx. rewrite (Hp i x Hx). destruct i; [done|]. by cbn. }
    unfold _gheap_pop_max_item, gheap_swap_max_item in Hrun. destruct (lookup_lt_is_Some_2 base (n - 1)) as [x Hx]; [lia|].
    rewrite (to_tmp_ok item_mover base dij (n - 1) x Hx) in Hrun. cbn [obind fst] in Hrun. unfold get_item in Hrun. rewrite Hcur in Hrun. cbn [obind] in Hrun.
    rewrite move_to_ok in Hrun by lia. cbn [obind] in Hrun. unfold _gheap_sift_down in Hrun.
    set (base1 := <[n - 1 := cur]> base) in *. set (dij1 := item_mover (item_mover dij Tmp x) (InHeap (n - 1)) cur) in *.
    destruct (sift_down_loop _ _ _ _ _ _ _) as [[[base2 dij2] h2]|] eqn:Hdown; [|done]. cbn [obind] in Hrun.
    assert (Hperm1 : <[0 := x]> base1 ≡ₚ base) by (by apply Permutation_insert_swap).
    assert (Hxc : x <> cur) by (intros ->; pose proof (NoDup_lookup _ _ _ _ Hd Hx Hcur); lia).
    destruct (sift_down_placed _ _ _ _ x _ (n - 1) _ _ _ Hdown) as (P2 & D2 & R2 & L2).
    - intros i y Hi0 Hie Hy. unfold base1 in Hy. rewrite list_lookup_insert_ne in Hy by done.
      assert (Hyl : x < length dij) by (apply Hr; by eapply list_elem_of_lookup_2). assert (Hcl0 : cur < length dij) by (apply Hr; by eapply list_elem_of_lookup_2).
      unfold dij1. rewrite !pos_mover by (rewrite ?length_mover; done).
      rewrite decide_False by (intros ->; by apply Hi0, (NoDup_lookup _ _ _ _ Hd Hy Hcur)). rewrite decide_False by (intros ->; by apply Hie, (NoDup_lookup _ _ _ _ Hd Hy Hx)).
      rewrite (Hp i y Hy). destruct (Nat.ltb_spec i n), (Nat.ltb_spec i (n - 1)); (done || lia).
    - by rewrite Hperm1.
    - eapply in_range_perm; [|exact Hperm1|exact Hr]. unfold dij1. by rewrite !length_mover.
    - lia.
    - destruct (sift_up_placed _ _ _ _ _ _ (n - 1) (n - 1) _ _ Hrun P2 D2 R2 L2 ltac:(lia)) as [H2 _]. done. }
  intros i x Hx. unfold pos. destruct (decide (i = n - 1)) as [->|Hi].
  - assert (x = cur) as -> by congruence. rewrite list_lookup_alter_eq, Nat.ltb_irrefl. by destruct (lookup_lt_is_Some_2 dij' cur Hcl) as [d ->].
  - rewrite list_lookup_alter_ne; [by apply Hkey|]. intros ->. by apply Hi, (NoDup_lookup _ _ _ _ Hd' Hx Htop).
Qed.

(** * The search

    Every node that is reached has a best channel towards the start. *)

(** What the search asks of the caller's score: a number that does not fall from one
    hop to the next. *)
Class ScoreGrows (risk : amount_msat -> Z -> amount_msat) (path_score : Z -> amount_msat -> amount_msat -> gossmap_chan -> Z) : Prop := {
  score_nonneg : forall d cost r c, (0 <= path_score d cost r c)%Z;
  score_grows : forall d cost delay c cost' base_fee proportional_fee x c', (0 <= d < UINT_MAX - 1)%Z -> amount_msat_add_fee cost base_fee proportional_fee = Some cost' ->
    (path_score d cost (risk cost delay) c <= path_score (d + 1) cost' (risk cost' (wrap32 (delay + x))) c')%Z }.

(** A node that has become better may go up; everything else is in order. *)
Lemma better_hole dij dij1 base n j x sc : GheapTheorems.is_heap heap_ctx (order dij) base n -> NoDup base -> n <= length base -> 0 < j < n -> base !! j = Some x ->
  (sc <= score_of dij x)%Z -> (forall y, score_of dij1 y = if decide (y = x) then sc else score_of dij y) ->
  hole_ok heap_ctx (order dij1) base n 0 j /\ item_over heap_ctx (order dij1) base n j x.
Proof.
  intros Hh Hd Hn Hj Hx Hsc Hs. assert (Hother : forall i y, i <> j -> base !! i = Some y -> y <> x) by (intros i y Hi Hy ->; by apply Hi, (NoDup_lookup _ _ _ _ Hd Hy Hx)).
  assert (Hpl : forall u, 0 < u -> gheap_get_parent_index heap_ctx u < u) by (intros u Hu; apply parent_below; cbn; lia).
  split; [split|].
  - intros u Hu _ Huj Hpj a b Ha Hb. unfold order. rewrite !Hs, !decide_False by eauto. exact (Hh u Hu (Nat.le_0_l _) a b Ha Hb).
  - intros _ u Hu Hpu a b Ha Hb. pose proof (Hpl u ltac:(lia)). pose proof (Hpl j ltac:(lia)). unfold order. rewrite !Hs, !decide_False by (eapply Hother; [|eassumption]; lia).
    pose proof (Hh u Hu (Nat.le_0_l _) x b) as H1. rewrite Hpu in H1. specialize (H1 Hx Hb). pose proof (Hh j ltac:(lia) (Nat.le_0_l _) a x Ha Hx) as H2. unfold order in H1, H2. apply Z.ltb_ge in H1, H2. apply Z.ltb_ge. lia.
  - intros u b Hu Hpu Hb. pose proof (Hpl u ltac:(lia)). unfold order. rewrite !Hs, (decide_True (P := x = x)) by done. rewrite (decide_False (P := b = x)) by (eapply Hother; [|eassumption]; lia).
    pose proof (Hh u Hu (Nat.le_0_l _) x b) as H1. rewrite Hpu in H1. specialize (H1 Hx Hb). unfold order in H1. apply Z.ltb_ge in H1. apply Z.ltb_ge. lia.
Qed.

Section Search.
  Context (risk : amount_msat -> Z -> amount_msat) (channel_ok : gossmap -> gossmap_chan -> bool -> amount_msat -> bool).
  Context (path_score : Z -> amount_msat -> amount_msat -> gossmap_chan -> Z) `{!ScoreGrows risk path_score}.
  Context {m : gossmap} {E : gmap nat edge} {N : gmap nat node_id} {fn fc : list nat}.
  Hypothesis W : wf m E N fn fc.
  Context (start : nat) (amount : amount_msat).

(** The step from [x] over its best channel to a node of [Vis]. *)
Definition leads (dij : list dijkstra) (Vis : nat -> Prop) (x : nat) (d : dijkstra) : Prop :=
  exists ci c dir dp, let p := hc_nodeidx (sel (negb dir) (half c)) in let hc := sel dir (half c) in
    is_Some (E !! ci) /\ g_chan_arr m !! ci = Some c /\ hc_nodeidx hc = x /\ Vis p /\ dij !! p = Some dp /\ d_distance dp <> UINT_MAX /\
    d_best_chan d = Some ci /\ d_distance d = (d_distance dp + 1)%Z /\ channel_ok m c dir (d_cost dp) = true /\
    amount_msat_add_fee (d_cost dp) (hc_base_fee hc) (hc_proportional_fee hc) = Some (d_cost d) /\
    d_total_delay d = wrap32 (d_total_delay dp + hc_delay hc) /\
    d_score d = path_score (d_distance d) (d_cost d) (risk (d_cost d) (d_total_delay d)) c.

Definition is_start (x : nat) (d : dijkstra) : Prop := x = start /\ d_distance d = 0%Z /\ d_cost d = amount /\ d_total_delay d = 0%Z /\ d_score d = 0%Z.

(** What is known of the nodes: [k] bounds the distances so far. *)
Record known (base : list nat) (dij : list dijkstra) (n k : nat) (Vis : nat -> Prop) : Prop := Known {
  i_nodes : NoDup base /\ forall x, x ∈ base <-> is_Some (N !! x);
  i_len : length dij = length (g_node_arr m);
  i_size : n <= length base;
  i_reached : forall x d, x ∈ base -> dij !! x = Some d -> d_distance d = UINT_MAX \/ ((0 <= d_distance d <= Z.of_nat k)%Z /\ (is_start x d \/ (x <> start /\ leads dij Vis x d)));
  i_start : start ∈ base /\ exists d, dij !! start = Some d /\ is_start start d;
  i_vis : forall x, Vis x -> x ∈ base /\ exists d, dij !! x = Some d /\ d_distance d <> UINT_MAX }.

Definition dinv (base : list nat) (dij : list dijkstra) (n k : nat) (Vis : nat -> Prop) : Prop :=
  known base dij n k Vis /\ GheapTheorems.is_heap heap_ctx (order dij) base n /\ placed_all dij base n.

Lemma info_eq d d' : info d = info d' -> d_distance d = d_distance d' /\ d_total_delay d = d_total_delay d' /\ d_cost d = d_cost d' /\ d_score d = d_score d' /\ d_best_chan d = d_best_chan d'.
Proof. unfold info. by intros [= -> -> -> -> ->]. Qed.

Lemma same_info_some dij dij' x d : same_info dij dij' -> dij !! x = Some d -> exists d', dij' !! x = Some d' /\ info d' = info d.
Proof. intros H%(same_info_lookup _ _ x) Hx. rewrite Hx in H. cbn in H. destruct (dij' !! x) as [d'|]; [|done]. exists d'. split; [done|]. cbn in H. congruence. Qed.

Lemma leads_info dij dij' (Vis Vis' : nat -> Prop) x d d' : same_info dij dij' -> (forall y, Vis y -> Vis' y) -> info d' = info d -> leads dij Vis x d -> leads dij' Vis' x d'.
Proof.
  intros Hs HV (H1 & H2 & H3 & H4 & H5)%info_eq (ci & c & dir & dp & L). cbv zeta in L. destruct L as (HE & Hc & Hx & Hp & Hdp & Hfin & Hb & Hd & Hok & Hf & Hdl & Hsc).
  destruct (same_info_some dij dij' _ dp Hs Hdp) as (dp' & Hdp' & (G1 & G2 & G3 & G4 & G5)%info_eq).
  exists ci, c, dir, dp'. cbv zeta. rewrite H1, H2, H3, H4, H5, G1, G2, G3. split_and!; auto.
Qed.

(** Moving nodes in the heap keeps what is known of them. *)
Lemma dinv_moved base dij base' dij' n n' k (Vis Vis' : nat -> Prop) : known base dij n k Vis -> same_info dij dij' -> base' ≡ₚ base -> n' <= length base ->
  GheapTheorems.is_heap heap_ctx (order dij) base' n' -> placed_all dij' base' n' -> (forall y, Vis y <-> Vis' y) -> dinv base' dij' n' k Vis'.
Proof.
  intros Hi Hs Hp Hn Hh Hpl HV. split; [|split; [|done]].
  2:{ intros u Hu Hr a b Ha Hb. unfold order. rewrite !(same_info_score dij dij') by done. exact (Hh u Hu Hr a b Ha Hb). }
  destruct Hi. split; try done.
  - destruct i_nodes0 as [Hd Hx]. split; [by rewrite Hp|]. intros x. by rewrite Hp.
  - by rewrite (same_info_length dij dij' Hs).
  - by rewrite Hp.
  - intros x d' Hx Hd'. rewrite Hp in Hx. assert (Hs' : same_info dij' dij) by (unfold same_info in *; congruence). destruct (same_info_some dij' dij x d' Hs' Hd') as (d & Hd & Hinfo).
    pose proof (info_eq _ _ Hinfo) as (G1 & G2 & G3 & G4 & G5). destruct (i_reached0 x d Hx Hd) as [Hu|[Hb Hcase]]; [left; congruence|right]. split; [by rewrite <- G1|].
    destruct Hcase as [(-> & A1 & A2 & A3 & A4)|[Hne Hl]]; [left; unfold is_start; split_and!; congruence|right; split; [done|]]. eapply leads_info; [done|by apply HV|by symmetry|done].
  - destruct i_start0 as [Hin (d & Hd & _ & A1 & A2 & A3 & A4)]. split; [by rewrite Hp|]. destruct (same_info_some dij dij' start d Hs Hd) as (d' & Hd' & (G1 & G2 & G3 & G4 & G5)%info_eq).
    exists d'. split; [done|]. unfold is_start. split_and!; congruence.
  - intros x Hx%HV. destruct (i_vis0 x Hx) as [Hin (d & Hd & Hf)]. split; [by rewrite Hp|]. destruct (same_info_some dij dij' x d Hs Hd) as (d' & Hd' & (G1 & _)%info_eq). exists d'. split; [done|congruence].
Qed.

(** A better way to [x], over the current node. *)
Lemma dinv_better base dij n k Vis cur cd x d ci c dir cost j :
  dinv base dij n k Vis -> base !! 0 = Some cur -> dij !! cur = Some cd -> d_distance cd <> UINT_MAX -> (0 <= d_distance cd < Z.of_nat k)%Z -> (Z.of_nat k < UINT_MAX)%Z -> Vis cur -> (forall y, Vis y -> y <> x) ->
  base !! j = Some x -> 0 < j < n -> dij !! x = Some d -> d_heapptr d = Some (InHeap j) ->
  is_Some (E !! ci) -> g_chan_arr m !! ci = Some c -> hc_nodeidx (sel dir (half c)) = x -> hc_nodeidx (sel (negb dir) (half c)) = cur -> channel_ok m c dir (d_cost cd) = true ->
  amount_msat_add_fee (d_cost cd) (hc_base_fee (sel dir (half c))) (hc_proportional_fee (sel dir (half c))) = Some cost ->
  let delay := wrap32 (d_total_delay cd + hc_delay (sel dir (half c))) in let sc := path_score (d_distance cd + 1) cost (risk cost delay) c in
  (sc < d_score d)%Z ->
  let dij1 := <[x := Dijkstra (d_distance cd + 1) delay cost (Some (InHeap j)) sc (Some ci)]> dij in
  exists base' dij', gheap_restore_heap_after_item_increase less_comparer item_mover heap_ctx (base, dij1) n j = Ret (base', dij') /\
    dinv base' dij' n k Vis /\ base' !! 0 = Some cur /\ (forall i, n <= i -> base' !! i = base !! i) /\ exists cd', dij' !! cur = Some cd' /\ info cd' = info cd.
Proof.
  intros [Hi [Hheap Hplaced]] H0 Hcd Hfin Hk Hmax HVc HVx Hj Hjn Hd Hptr HE Hc Hx Hcur Hok Hfee delay sc Hsc dij1.
  pose proof (i_nodes _ _ _ _ _ Hi) as [Hdup Hnodes]. pose proof (i_len _ _ _ _ _ Hi) as Hlen.  pose proof (i_size _ _ _ _ _ Hi) as Hsz.
  assert (Hxl : x < length dij) by by eapply lookup_lt_Some. assert (Hcx : cur <> x) by (intros ->; by apply (HVx x)).
  assert (Hlk : dij1 !! x = Some (Dijkstra (d_distance cd + 1) delay cost (Some (InHeap j)) sc (Some ci))) by by apply list_lookup_insert_eq.
  assert (Hoth : forall y, y <> x -> dij1 !! y = dij !! y) by (intros y Hy; by apply list_lookup_insert_ne).
  assert (Hs1 : forall y, score_of dij1 y = if decide (y = x) then sc else score_of dij y) by (intros y; unfold score_of; destruct (decide (y = x)) as [->|Hy]; [by rewrite Hlk|by rewrite Hoth]).
  assert (Hsx : score_of dij x = d_score d) by (unfold score_of; by rewrite Hd).
  destruct (better_hole dij dij1 base n j x sc Hheap Hdup Hsz Hjn Hj) as [Hhole Hover]; [lia|done|].
  assert (Hgrow : (d_score cd <= sc)%Z).
  { destruct (i_reached _ _ _ _ _ Hi cur cd) as [Hu|[_ [(_ & _ & _ & _ & ->)|[_ L]]]]; [by eapply list_elem_of_lookup_2|done|done|apply score_nonneg|].
    destruct L as (? & c0 & ? & ? & L). cbv zeta in L. destruct L as (_ & _ & _ & _ & _ & _ & _ & _ & _ & _ & _ & ->). unfold sc, delay. eapply score_grows; [lia|exact Hfee]. }
  assert (Hpl1 : placed_all dij1 base n).
  { intros i y Hy. destruct (decide (y = x)) as [->|Hyx]; [|unfold pos; rewrite Hoth by done; by apply Hplaced].
    assert (i = j) as -> by by apply (NoDup_lookup _ _ _ _ Hdup Hy Hj). rewrite (proj2 (Nat.ltb_lt j n)) by lia. unfold pos. by rewrite Hlk. }
  destruct (increase_dijkstra dij1 base n j x cur Hjn Hsz Hj Hhole Hover Hpl1 Hdup) as (base' & dij' & Hrun & Hinfo & Hperm & Hheap' & Hfr & Hpl' & Hroot); [|done| |].
  { intros y Hy. unfold dij1. rewrite length_insert, Hlen. apply Hnodes in Hy as [id Hy]. destruct (wf_node _ _ _ _ _ W y id Hy) as (nd & Hnd & _). by eapply lookup_lt_Some. }
  { unfold order. rewrite !Hs1, (decide_True (P := x = x)), (decide_False (P := cur = x)) by done. apply Z.ltb_ge. unfold score_of. rewrite Hcd. done. }
  assert (Hlead : forall y dy, leads dij Vis y dy -> leads dij1 Vis y dy).
  { intros y dy (ci' & c' & dir' & dp & L). cbv zeta in L. destruct L as (L1 & L2 & L3 & L4 & L5 & L6). exists ci', c', dir', dp. cbv zeta. rewrite Hoth by by apply HVx. split_and!; try done; apply L6. }
  exists base', dij'. split; [done|]. split; [|split; [done|split; [done|]]].
  - eapply (dinv_moved base dij1); try done. destruct Hi. split; try done.
    + unfold dij1. by rewrite length_insert.
    + intros y dy Hy Hdy. destruct (decide (y = x)) as [->|Hyx].
      * rewrite Hlk in Hdy. injection Hdy as <-. right. cbn [d_distance]. split; [lia|]. right. destruct i_start0 as [_ (ds & Hds & S1 & S2 & S3 & S4 & S5)]. split.
        { intros ->. assert (d = ds) as -> by congruence. rewrite S5 in Hsc. pose proof (score_nonneg (d_distance cd + 1) cost (risk cost delay) c). unfold sc in Hsc. lia. }
        exists ci, c, dir, cd. cbv zeta. rewrite Hcur, Hoth by done. by split_and!.
      * rewrite Hoth in Hdy by done. destruct (i_reached0 y dy Hy Hdy) as [Hu|[Hb [Hs|[Hne L]]]]; [by left|right; split; [done|by left]|right; split; [done|right; split; [done|by apply Hlead]]].
    + destruct i_start0 as [Hin (ds & Hds & S1 & S2 & S3 & S4 & S5)]. split; [done|]. exists ds. split; [|done]. rewrite Hoth; [done|]. intros <-. assert (d = ds) as -> by congruence. rewrite S5 in Hsc. pose proof (score_nonneg (d_distance cd + 1) cost (risk cost delay) c). unfold sc in Hsc. lia.
    + intros y Hy. rewrite Hoth by by apply HVx. by apply i_vis0.
  - eapply same_info_some; [exact Hinfo|]. by rewrite Hoth.
Qed.

(** The state of the inner loop: the current node is at the top, those that were
    visited are behind the heap. *)
Definition inner (base : list nat) (dij : list dijkstra) (n k cur : nat) (Vis : nat -> Prop) : Prop :=
  dinv base dij n (S k) Vis /\ 0 < n /\ base !! 0 = Some cur /\ Vis cur /\ (forall y, Vis y -> y = cur \/ exists j, n <= j /\ base !! j = Some y) /\
  exists cd, dij !! cur = Some cd /\ d_distance cd <> UINT_MAX /\ (0 <= d_distance cd <= Z.of_nat k)%Z.

Lemma relax_spec base dij n k cur Vis i nd : inner base dij n k cur Vis -> (Z.of_nat (S k) < UINT_MAX)%Z -> g_node_arr m !! cur = Some nd -> i < num_chans nd ->
  exists base' dij', relax risk channel_ok path_score m (base, dij) n cur i = Ret (base', dij') /\ inner base' dij' n k cur Vis /\ forall j, n <= j -> base' !! j = base !! j.
Proof.
  intros Hin Hmax Hnd Hi. pose proof Hin as (Hdinv & Hn & H0 & HVc & HV & cd & Hcd & Hfin & Hk). pose proof Hdinv as [Hkn [Hheap Hplaced]].
  pose proof (i_nodes _ _ _ _ _ Hkn) as [Hdup Hnodes]. pose proof (i_len _ _ _ _ _ Hkn) as Hlen.
  destruct (proj1 (Hnodes cur)) as [id Hid]; [by eapply list_elem_of_lookup_2|].
  destruct (lookup_lt_is_Some_2 (default [] (chan_idxs nd)) i Hi) as [ci Hci].
  destruct (nth_chan W cur id nd i ci Hid Hnd Hci) as (e & wh & He & Hcur & Hnth).
  destruct (wf_chan _ _ _ _ _ W ci e He) as (c & Hc & _ & _ & Hne & Hside).
  destruct (Hside wh) as (Hwh & _), (Hside (negb wh)) as (Hx & idx & Hidx & _). set (x := e_node (negb wh) e) in *.
  assert (Hxc : x <> cur) by (unfold x; destruct wh; cbn in *; congruence).
  assert (Hxin : x ∈ base) by (apply Hnodes; eauto). apply list_elem_of_lookup in Hxin as [j Hj].
  destruct (wf_node _ _ _ _ _ W x idx Hidx) as (ndx & Hndx & _). destruct (lookup_lt_is_Some_2 dij x) as [d Hd]; [rewrite Hlen; by eapply lookup_lt_Some|].
  pose proof (Hplaced j x Hj) as Hpos. unfold pos in Hpos. rewrite Hd in Hpos. change (d_heapptr d = if j <? n then Some (InHeap j) else None) in Hpos.
  unfold relax. rewrite Hnth. cbn [obind]. unfold chan_at. rewrite Hc. cbn [obind fst snd]. unfold gossmap_nth_node. rewrite Hx. unfold get_dijkstra. rewrite Hcd. cbn [obind]. rewrite Hd. cbn [obind]. rewrite Hpos.
  assert (Hsame : exists base' dij', Ret (base, dij) = Ret (base', dij') /\ inner base' dij' n k cur Vis /\ forall j, n <= j -> base' !! j = base !! j) by by exists base, dij.
  destruct (Nat.ltb_spec j n) as [Hjn|Hjn]; [|done]. destruct (channel_ok m c (negb wh) (d_cost cd)) eqn:Hok; cbn [negb]; [|done].
  destruct (amount_msat_add_fee _ _ _) as [cost|] eqn:Hfee; [|done].
  assert (Hw : wrap32 (d_distance cd + 1) = (d_distance cd + 1)%Z) by (unfold wrap32, UINT_MAX in *; apply Z.mod_small; lia). rewrite Hw.
  destruct (Z.leb_spec (d_score d) (path_score (d_distance cd + 1) cost (risk cost (wrap32 (d_total_delay cd + hc_delay (sel (negb wh) (half c))))) c)) as [Hs|Hs]; [done|].
  assert (Hj0 : 0 < j) by (destruct j; [congruence|lia]).
  destruct (dinv_better base dij n (S k) Vis cur cd x d ci c (negb wh) cost j Hdinv H0 Hcd Hfin) as (base' & dij' & Hrun & Hd' & Hroot & Hfr & cd' & Hcd' & (G1 & _)%info_eq);
    [lia|done|done| |done|lia|done|done|eauto|done|done|rewrite negb_involutive; congruence|done|done|done|].
  { intros y [->|(j' & Hj' & Hy)]%HV; [done|]. intros ->. pose proof (NoDup_lookup _ _ _ _ Hdup Hj Hy). lia. }
  exists base', dij'. split; [done|]. split; [|done]. split; [done|]. split; [done|]. split; [done|]. split; [done|]. split.
  - intros y [->|(j' & Hj' & Hy)]%HV; [by left|]. right. exists j'. split; [done|]. by rewrite Hfr.
  - exists cd'. rewrite G1. done.
Qed.

Lemma relax_all_spec k n cur Vis nd c : forall base dij i, inner base dij n k cur Vis -> (Z.of_nat (S k) < UINT_MAX)%Z -> g_node_arr m !! cur = Some nd -> i + c = num_chans nd ->
  exists base' dij', relax_all risk channel_ok path_score m (base, dij) n cur i c = Ret (base', dij') /\ inner base' dij' n k cur Vis /\ forall j, n <= j -> base' !! j = base !! j.
Proof.
  induction c as [|c IH]; intros base dij i Hin Hmax Hnd Hi; cbn [relax_all]; [by exists base, dij|].
  destruct (relax_spec base dij n k cur Vis i nd Hin Hmax Hnd ltac:(lia)) as (base1 & dij1 & Hr & Hin1 & Hfr1). rewrite Hr. cbn [obind].
  destruct (IH base1 dij1 (S i) Hin1 Hmax Hnd ltac:(lia)) as (base' & dij' & Hr' & Hin' & Hfr'). exists base', dij'. split; [done|]. split; [done|]. intros j Hj. rewrite Hfr' by done. by apply Hfr1.
Qed.

(** The nodes behind the heap. *)
Definition behind (base : list nat) (n : nat) (x : nat) : Prop := exists j, n <= j /\ base !! j = Some x.

Lemma known_weaken base dij n n' k k' Vis : known base dij n k Vis -> n' <= length base -> k <= k' -> known base dij n' k' Vis.
Proof.
  intros [H1 H2 H3 H4 H5 H6] Hn Hk. split; try done. intros x d Hx Hd. destruct (H4 x d Hx Hd) as [Hu|[Hb Hc]]; [by left|]. right. split; [lia|done].
Qed.

(** One more node is looked at. *)
Lemma known_visit base dij n k (Vis Vis' : nat -> Prop) : known base dij n k Vis -> (forall y, Vis y -> Vis' y) ->
  (forall y, Vis' y -> y ∈ base /\ exists d, dij !! y = Some d /\ d_distance d <> UINT_MAX) -> known base dij n k Vis'.
Proof.
  intros [H1 H2 H3 H4 H5 H6] HV HV'. split; try done. intros x d Hx Hd. destruct (H4 x d Hx Hd) as [Hu|[Hb [Hs|[Hne L]]]]; [by left|right; split; [done|by left]|].
  right. split; [done|]. right. split; [done|]. by eapply leads_info.
Qed.

Lemma alter_info dij h x : same_info dij (alter (set_heapptr h) x dij).
Proof.
  apply list_eq. intros i. rewrite !list_lookup_fmap. destruct (decide (x = i)) as [->|Hi]; [rewrite list_lookup_alter_eq; by destruct (dij !! i)|by rewrite list_lookup_alter_ne].
Qed.

(** The search ends, and every node is unreached or leads to one that is visited. *)
Lemma dijkstra_search_spec n : forall base dij, dinv base dij n (length base - n) (behind base n) -> (Z.of_nat (length base) + 1 < UINT_MAX)%Z ->
  exists dij' base' n', search_loop risk channel_ok path_score m (base, dij) n = Ret dij' /\ known base' dij' n' (length base') (behind base' n') /\ base' ≡ₚ base.
Proof.
  induction n as [|n IH]; intros base dij Hi Hmax; cbn [search_loop].
  { exists dij, base, 0. split; [done|]. split; [|done]. destruct Hi as [Hkn _]. apply (known_weaken _ _ 0 0 (length base - 0)); [done|lia|lia]. }
  destruct Hi as (Hkn & Hheap & Hpl). pose proof (i_size _ _ _ _ _ Hkn) as Hsz. destruct (lookup_lt_is_Some_2 base 0) as [cur H0]; [lia|]. cbn [fst snd]. rewrite H0.
  pose proof (i_nodes _ _ _ _ _ Hkn) as [Hdup Hnodes]. pose proof (i_len _ _ _ _ _ Hkn) as Hlen. destruct (proj1 (Hnodes cur)) as [id Hid]; [by eapply list_elem_of_lookup_2|].
  destruct (wf_node _ _ _ _ _ W cur id Hid) as (nd & Hnd & _). destruct (lookup_lt_is_Some_2 dij cur) as [cd Hcd]; [rewrite Hlen; by eapply lookup_lt_Some|].
  unfold get_dijkstra. rewrite Hcd. cbn [obind]. destruct (Z.eqb_spec (d_distance cd) UINT_MAX) as [Hu|Hu].
  { exists dij, base, (S n). split; [done|]. split; [|done]. apply (known_weaken _ _ (S n) (S n) (length base - S n)); [done|done|lia]. }
  unfold node_at. rewrite Hnd. cbn [obind]. set (k := length base - S n). set (Vis := fun y => y = cur \/ behind base (S n) y).
  destruct (relax_all_spec k (S n) cur Vis nd (num_chans nd) base dij 0) as (base1 & dij1 & Hrel & Hin1 & Hfr1); [|lia|done|done|].
  { split; [|split; [lia|split; [done|split; [by left|split; [done|]]]]].
    - split; [|done]. eapply known_visit; [apply (known_weaken _ _ (S n) (S n) k); [done|done|lia]|by right|].
      intros y [->|Hy]; [split; [by eapply list_elem_of_lookup_2|by exists cd]|by apply (i_vis _ _ _ _ _ Hkn)].
    - exists cd. split; [done|]. split; [done|]. destruct (i_reached _ _ _ _ _ Hkn cur cd) as [?|[Hb _]]; [by eapply list_elem_of_lookup_2|done|done|done]. }
  rewrite Hrel. cbn [obind]. destruct Hin1 as (Hd1 & _ & H01 & _ & _ & cd1 & Hcd1 & Hf1 & Hk1). destruct Hd1 as (Hkn1 & Hheap1 & Hpl1). pose proof (i_nodes _ _ _ _ _ Hkn1) as [Hdup1 Hnodes1].
  assert (Hperm1 : base1 ≡ₚ base) by (apply NoDup_Permutation; [done|done|]; intros y; by rewrite Hnodes, Hnodes1).
  assert (Hl1 : length base1 = length base) by by rewrite Hperm1.
  destruct (pop_dijkstra dij1 base1 (S n) cur Hheap1) as (base2 & dij2 & Hpop & Hinfo2 & Hperm2 & Hheap2 & Htop2 & Hfr2 & Hpl2); [lia|unfold SIZE_MAX, u64_mod, UINT_MAX, u32_mod in *; lia|done|done|done| |].
  { intros y Hy. apply Hnodes1 in Hy as [idy Hy]. destruct (wf_node _ _ _ _ _ W y idy Hy) as (ndy & Hndy & _). rewrite (i_len _ _ _ _ _ Hkn1). by eapply lookup_lt_Some. }
  rewrite Hpop. cbn [obind fst snd]. replace (S n - 1) with n in * by lia.
  assert (Hl2 : length base2 = length base) by by rewrite Hperm2.
  destruct (IH base2 (alter (set_heapptr None) cur dij2)) as (dij' & base' & n' & Hrun & Hkn' & Hperm'); [|by rewrite Hl2|].
  - rewrite Hl2. replace (length base - n) with (S k) by (unfold k; lia). eapply (dinv_moved base1 dij1 base2 _ (S n) n); [done| |done|lia|done|done|].
    + pose proof (alter_info dij2 None cur) as Ha. unfold same_info in *. congruence.
    + intros y. unfold Vis, behind. split.
      * intros [->|(j & Hj & Hy)]; [by exists n|]. exists j. split; [lia|]. rewrite Hfr2 by lia. by rewrite Hfr1.
      * intros (j & Hj & Hy). destruct (Nat.eq_dec j n) as [->|Hjn]; [left; congruence|]. right. exists j. split; [lia|]. rewrite Hfr2, Hfr1 in Hy by lia. done.
  - exists dij', base', n'. split; [done|]. split; [done|]. by rewrite Hperm', Hperm2.
Qed.

End Search.
