(* ===== verification/RouteTheorems.v ===== *)
(** The routes that the search finds. *)
From S2P Require Import Prelude Utf8 Jsmn JsonTree Json JsonOut Wire Tlv Amount JsonHelpers LibpluginParse Features GossipStore Gossmap GossmapProofs GossmapTheorems Localmods Gheap GheapTheorems Dijkstra DijkstraProofs.

(** * The first heap *)

(** The nodes of an array whose first entry has index [s]. *)
Fixpoint nodes_of (arr : list gossmap_node) (s : nat) : list nat :=
  match arr with
  | [] => []
  | nd :: r => if chan_idxs nd is Some _ then s :: nodes_of r (S s) else nodes_of r (S s)
  end.

Lemma node_iter_head arr : forall s,
  match list_find (fun n => bool_decide (chan_idxs n <> None) = true) arr with Some (i, _) => Some (s + i) | None => None end = head (nodes_of arr s).
Proof.
  induction arr as [|nd r IH]; intros s; [done|]. cbn [list_find nodes_of]. destruct (chan_idxs nd) as [l|] eqn:Hc.
  - rewrite decide_True by by rewrite bool_decide_eq_true_2. by rewrite Nat.add_0_r.
  - rewrite decide_False by by rewrite bool_decide_eq_false_2 by auto. rewrite <- (IH (S s)). destruct (list_find _ r) as [[i x]|]; [|done]. cbn. f_equal. lia.
Qed.

Lemma iter_nodes m s : node_iter m s = head (nodes_of (drop s (g_node_arr m)) s).
Proof. apply node_iter_head. Qed.

Lemma nodes_of_tail arr : forall s n r, nodes_of (drop s arr) s = n :: r -> s <= n /\ nodes_of (drop (n + 1) arr) (n + 1) = r.
Proof.
  intros s. remember (length arr - s) as k eqn:Hk. revert s Hk. induction k as [|k IH]; intros s Hk n r Hn; [rewrite drop_ge in Hn by lia; done|].
  destruct (lookup_lt_is_Some_2 arr s) as [nd Hnd]; [lia|]. rewrite (drop_S _ _ _ Hnd) in Hn. cbn [nodes_of] in Hn. destruct (chan_idxs nd) as [l|].
  - injection Hn as <- <-. by rewrite Nat.add_1_r.
  - destruct (IH (S s) ltac:(lia) n r Hn). split; [lia|done].
Qed.

Lemma nodes_of_spec arr : forall s, NoDup (nodes_of arr s) /\ forall x, x ∈ nodes_of arr s <-> s <= x /\ exists nd, arr !! (x - s) = Some nd /\ is_Some (chan_idxs nd).
Proof.
  induction arr as [|nd r IH]; intros s; cbn [nodes_of].
  - split; [constructor|]. intros x. split; [by intros ?%elem_of_nil|]. intros [_ (nd & Hnd & _)]. done.
  - destruct (IH (S s)) as [Hd Hx].
    assert (Hr : forall x, x ∈ nodes_of r (S s) <-> s < x /\ exists nd0, (nd :: r) !! (x - s) = Some nd0 /\ is_Some (chan_idxs nd0)).
    { intros x. rewrite Hx. split; intros [Hs (nd0 & Hl & Hc)]; (split; [lia|]); exists nd0; (split; [|done]); replace (x - s) with (S (x - S s)) in * by lia; done. }
    destruct (chan_idxs nd) as [l|] eqn:Hc.
    + split; [apply NoDup_cons; split; [|done]; rewrite Hr; lia|]. intros x. rewrite elem_of_cons, Hr. split.
      * intros [->|[Hs He]]; [split; [lia|]; exists nd; rewrite Nat.sub_diag; split; [done|by rewrite Hc]|split; [lia|done]].
      * intros [Hs He]. destruct (Nat.eq_dec x s) as [->|]; [by left|right]. split; [lia|done].
    + split; [done|]. intros x. rewrite Hr. split; [intros [Hs He]; split; [lia|done]|]. intros [Hs He]. destruct (Nat.eq_dec x s) as [->|]; [|split; [lia|done]].
      exfalso. destruct He as (nd0 & Hl & Hs0). rewrite Nat.sub_diag in Hl. cbn in Hl. assert (nd0 = nd) as -> by congruence. rewrite Hc in Hs0. by destruct Hs0.
Qed.

Section Mkheap.
  Context (m : gossmap) (start : nat) (sent : amount_msat).

Definition others (l : list nat) : list nat := List.filter (fun x => negb (x =? start)) l.

(** A node that has been entered, when [i] places are used. *)
Definition entered (heap : list nat) (dij : list dijkstra) (i x : nat) : Prop :=
  exists j d, heap !! j = Some x /\ dij !! x = Some d /\ d_heapptr d = Some (InHeap j) /\
    if x =? start then j = 0 /\ d_distance d = 0%Z /\ d_total_delay d = 0%Z /\ d_cost d = sent /\ d_score d = 0%Z
    else 0 < j < i /\ d_distance d = UINT_MAX /\ d_score d = (u64_mod - 1)%Z.

Lemma others_app l k : others (l ++ k) = others l ++ others k.
Proof. apply List.filter_app. Qed.

(** Entering the next node, which is at place [j]. *)
Lemma entered_other heap dij i i' x j y d : entered heap dij i x -> x <> y -> (if y =? start then j = 0 else j = i) -> 0 < i <= i' -> entered (<[j := y]> heap) (<[y := d]> dij) i' x.
Proof.
  intros (k & dx & Hk & Hx & Hp & Hrest) Hne Hj Hi. exists k, dx. rewrite (list_lookup_insert_ne dij) by done. split; [|split; [done|split; [done|]]].
  - rewrite list_lookup_insert_ne; [done|]. destruct (Nat.eqb_spec x start), (Nat.eqb_spec y start); destruct Hrest; lia.
  - destruct (x =? start); [done|]. split; [lia|apply Hrest].
Qed.

Lemma mkheap_spec L : forall fuel s i Pd heap dij, nodes_of (drop s (g_node_arr m)) s = L -> length L < fuel -> NoDup (Pd ++ L) ->
  (forall x, x ∈ L -> x < length dij) -> length heap = i + length (others L) -> i = 1 + length (others Pd) ->
  (exists hd tl, heap = hd :: others Pd ++ tl /\ (start ∈ Pd -> hd = start)) -> (forall x, x ∈ Pd -> entered heap dij i x) ->
  exists heap' dij', mkheap_loop fuel m start sent (head L) i (heap, dij) = Ret (heap', dij') /\ length dij' = length dij /\
    (forall x, x ∈ Pd ++ L -> entered heap' dij' (length heap') x) /\ (start ∈ Pd ++ L -> heap' = start :: others (Pd ++ L)).
Proof.
  induction L as [|n L IH]; intros fuel s i Pd heap dij HL Hfuel Hdup Hr Hlen Hi (hd & tl & Hheap & Hhd) Hent.
  - exists heap, dij. rewrite app_nil_r. cbn [others List.filter length] in Hlen. destruct fuel; cbn [mkheap_loop head]; (split; [done|]); (split; [done|]).
    all: split; [by replace (length heap) with i by lia|]; intros Hs; rewrite Hheap in Hlen |- *; rewrite (Hhd Hs); cbn in Hlen; rewrite length_app in Hlen; destruct tl; [by rewrite app_nil_r|cbn in Hlen; lia].
  - destruct fuel as [|fuel]; [cbn in Hfuel; lia|]. destruct (nodes_of_tail _ _ _ _ HL) as [Hsn HL']. cbn [mkheap_loop head].
    destruct (lookup_lt_is_Some_2 dij n) as [d Hd]; [apply Hr; left|]. unfold get_dijkstra. cbn [fst snd]. rewrite Hd. cbn [obind].
    assert (Hnext : gossmap_next_node m n = head L) by (unfold gossmap_next_node; rewrite iter_nodes; by rewrite HL'). rewrite Hnext.
    assert (Happ : Pd ++ n :: L = (Pd ++ [n]) ++ L) by by rewrite <- app_assoc. rewrite Happ in Hdup |- *.
    assert (Hnin : n ∉ Pd). { rewrite <- app_assoc in Hdup. apply NoDup_app in Hdup as (_ & Hdis & _). intros Hin. apply (Hdis n Hin). left. }
    assert (Hnl : n < length dij) by by eapply lookup_lt_Some.
    assert (Hold : forall x, x ∈ Pd -> x <> n) by (intros x Hx ->; done).
    destruct (Nat.eqb_spec n start) as [Hns|Hns].
    + assert (Hos : others [n] = []) by (unfold others; cbn; by rewrite (proj2 (Nat.eqb_eq _ _) Hns)).
      assert (Hput : put_heap heap 0 start = Ret (start :: others Pd ++ tl)) by (unfold put_heap; rewrite Hheap; done). rewrite Hput. cbn [obind].
      rewrite <- (length_insert dij n (Dijkstra 0 0 sent (Some (InHeap 0)) 0 (d_best_chan d))).
      apply (IH fuel (n + 1) i (Pd ++ [n])); [done|cbn in Hfuel; lia|done|intros x Hx; rewrite length_insert; apply Hr; by right| | | |].
      * rewrite Hheap in Hlen. cbn [others List.filter] in Hlen. rewrite (proj2 (Nat.eqb_eq _ _) Hns) in Hlen. exact Hlen.
      * rewrite others_app, Hos, app_nil_r. done.
      * exists start, tl. rewrite others_app, Hos, app_nil_r. done.
      * intros x. rewrite elem_of_app, list_elem_of_singleton. intros [Hx| ->].
        -- change (start :: others Pd ++ tl) with (<[0 := start]> (hd :: others Pd ++ tl)). rewrite <- Hheap, <- Hns. apply (entered_other heap dij i i); [by apply Hent|by apply Hold|by rewrite (proj2 (Nat.eqb_eq _ _) Hns)|lia].
        -- eexists 0, _. rewrite Hns in *. split; [done|]. split; [by apply list_lookup_insert_eq|]. rewrite Nat.eqb_refl. done.
    + assert (Hos : others [n] = [n]) by (unfold others; cbn; by rewrite (proj2 (Nat.eqb_neq _ _) Hns)).
      cbn [others List.filter] in Hlen. rewrite (proj2 (Nat.eqb_neq _ _) Hns) in Hlen. cbn [negb length] in Hlen.
      assert (Hput : put_heap heap i n = Ret (<[i := n]> heap)) by (unfold put_heap; rewrite (proj2 (Nat.ltb_lt _ _)) by lia; done). rewrite Hput. cbn [obind].
      destruct tl as [|t tl]; [rewrite Hheap, app_nil_r in Hlen; cbn in Hlen; lia|].
      assert (Hins : <[i := n]> heap = hd :: others (Pd ++ [n]) ++ tl).
      { rewrite others_app, Hos, Hheap, Hi. change (hd :: <[length (others Pd) := n]> (others Pd ++ t :: tl) = hd :: (others Pd ++ [n]) ++ tl). f_equal. rewrite <- app_assoc. rewrite insert_app_r_alt by lia. by rewrite Nat.sub_diag. }
      rewrite <- (length_insert dij n (Dijkstra UINT_MAX 0 UNREACHED (Some (InHeap i)) (u64_mod - 1) (d_best_chan d))).
      apply (IH fuel (n + 1) (i + 1) (Pd ++ [n])); [done|cbn in Hfuel; lia|done|intros x Hx; rewrite length_insert; apply Hr; by right| | | |].
      * rewrite length_insert. unfold others. lia.
      * rewrite others_app, Hos, length_app. cbn. lia.
      * exists hd, tl. split; [done|]. rewrite elem_of_app, list_elem_of_singleton. intros [Hx| <-]; [by apply Hhd|done].
      * intros x. rewrite elem_of_app, list_elem_of_singleton. intros [Hx| ->].
        -- apply (entered_other heap dij i (i + 1)); [by apply Hent|by apply Hold|by rewrite (proj2 (Nat.eqb_neq _ _) Hns)|lia].
        -- eexists i, _. split; [apply list_lookup_insert_eq; lia|]. split; [by apply list_lookup_insert_eq|]. rewrite (proj2 (Nat.eqb_neq _ _) Hns). split; [done|]. split; [lia|done].
Qed.

End Mkheap.

Lemma nodes_of_length arr : forall s, length (nodes_of arr s) <= length arr.
Proof. induction arr as [|nd r IH]; intros s; cbn; [done|]. specialize (IH (S s)). destruct (chan_idxs nd); cbn; lia. Qed.

Lemma others_perm start l : NoDup l -> start ∈ l -> start :: others start l ≡ₚ l.
Proof.
  intros Hd Hin. apply NoDup_Permutation; [|done|].
  - apply NoDup_cons. split; [unfold others; rewrite list_elem_of_In, filter_In, negb_true_iff, Nat.eqb_neq; naive_solver|]. by apply NoDup_ListNoDup, List.NoDup_filter, NoDup_ListNoDup.
  - intros x. rewrite elem_of_cons. unfold others. rewrite (list_elem_of_In _ x), filter_In, <- list_elem_of_In, negb_true_iff, Nat.eqb_neq. destruct (Nat.eq_dec x start) as [->|]; naive_solver.
Qed.

Section Routes.
  Context (risk : amount_msat -> Z -> amount_msat) (channel_ok : gossmap -> gossmap_chan -> bool -> amount_msat -> bool).
  Context (path_score : Z -> amount_msat -> amount_msat -> gossmap_chan -> Z) `{!ScoreGrows risk path_score}.
  Context {m : gossmap} {E : gmap nat edge} {N : gmap nat node_id} {fn fc : list nat}.
  Hypothesis W : wf m E N fn fc.
  Context (start : nat) (amount : amount_msat).
  Hypothesis Hstart : is_Some (N !! start).

Lemma all_nodes : NoDup (nodes_of (g_node_arr m) 0) /\ forall x, x ∈ nodes_of (g_node_arr m) 0 <-> is_Some (N !! x).
Proof.
  destruct (nodes_of_spec (g_node_arr m) 0) as [Hd Hx]. split; [done|]. intros x. rewrite Hx, Nat.sub_0_r. split.
  - intros [_ (nd & Hnd & Hs)]. destruct (N !! x) eqn:HN; [done|]. rewrite (wf_node_free _ _ _ _ _ W x nd Hnd HN) in Hs. by destruct Hs.
  - intros [id HN]. split; [lia|]. destruct (wf_node _ _ _ _ _ W x id HN) as (nd & Hnd & l & Hl & _). exists nd. split; [done|]. by rewrite Hl.
Qed.

Lemma mkheap_dinv : exists heap dij, mkheap (replicate (gossmap_max_node_idx m) d_unset) m start amount = Ret (heap, dij) /\
  dinv risk channel_ok path_score (m := m) (E := E) (N := N) start amount heap dij (length heap) 0 (fun _ => False) /\ length heap = gossmap_num_nodes m.
Proof.
  destruct all_nodes as [Hd Hx]. set (L := nodes_of (g_node_arr m) 0) in *.
  assert (HLN : L ≡ₚ g_nodes m) by (destruct (wf_nodes _ _ _ _ _ W) as [Hnd Hns]; apply NoDup_Permutation; [done|done|]; intros x; by rewrite Hx, Hns).
  assert (Hsl : start ∈ L) by by apply Hx. pose proof (others_perm start L Hd Hsl) as Hop. assert (Hol : length L = S (length (others start L))) by (by apply Permutation_length in Hop).
  assert (Hnum : gossmap_num_nodes m = length L) by (unfold gossmap_num_nodes; by rewrite HLN).
  assert (Hfst : gossmap_first_node m = head L) by (unfold gossmap_first_node; by rewrite iter_nodes).
  destruct (mkheap_spec m start amount L (S (gossmap_max_node_idx m)) 0 1 [] (replicate (gossmap_num_nodes m) 0) (replicate (gossmap_max_node_idx m) d_unset)) as (heap & dij & Hrun & Hlen & Hent & Hheap).
  - done.
  - unfold gossmap_max_node_idx. pose proof (nodes_of_length (g_node_arr m) 0) as Hle. fold L in Hle. lia.
  - done.
  - intros x [id Hi]%Hx. rewrite length_replicate. destruct (wf_node _ _ _ _ _ W x id Hi) as (nd & Hnd & _). by eapply lookup_lt_Some.
  - rewrite length_replicate. lia.
  - done.
  - rewrite Hnum, Hol. exists 0, (replicate (length (others start L)) 0). split; [done|]. by intros ?%elem_of_nil.
  - by intros x ?%elem_of_nil.
  - rewrite app_nil_l in Hent, Hheap. specialize (Hheap Hsl). assert (Hperm : heap ≡ₚ L) by (by rewrite Hheap).
    exists heap, dij. split; [unfold mkheap; by rewrite Hfst|]. split; [|by rewrite Hperm].
    assert (Hdh : NoDup heap) by by rewrite Hperm.
    assert (Hmem : forall j x, heap !! j = Some x -> exists d, dij !! x = Some d /\ d_heapptr d = Some (InHeap j) /\
      if x =? start then j = 0 /\ d_distance d = 0%Z /\ d_total_delay d = 0%Z /\ d_cost d = amount /\ d_score d = 0%Z else 0 < j /\ d_distance d = UINT_MAX /\ d_score d = (u64_mod - 1)%Z).
    { intros j x Hj. destruct (Hent x) as (j' & d & Hj' & Hdx & Hp & Hr); [rewrite <- Hperm; by eapply list_elem_of_lookup_2|]. assert (j' = j) as -> by by apply (NoDup_lookup _ _ _ _ Hdh Hj' Hj).
      exists d. split; [done|]. split; [done|]. destruct (x =? start); [done|]. split; [lia|apply Hr]. }
    assert (Hscore : forall j x, heap !! j = Some x -> score_of dij x = if x =? start then 0%Z else (u64_mod - 1)%Z) by (intros j x Hj; destruct (Hmem j x Hj) as (d & Hdx & _ & Hr); unfold score_of; rewrite Hdx; destruct (x =? start); apply Hr).
    split; [|split].
    + split.
      * split; [done|]. intros x. by rewrite Hperm.
      * by rewrite Hlen, length_replicate.
      * done.
      * intros x d Hin Hdx. apply list_elem_of_lookup in Hin as [j Hj]. destruct (Hmem j x Hj) as (d' & Hd' & _ & Hr). assert (d' = d) as -> by congruence.
        destruct (Nat.eqb_spec x start) as [->|Hne]; [|left; apply Hr]. right. destruct Hr as (_ & H1 & H2 & H3 & H4). split; [lia|]. left. by unfold is_start.
      * split; [by rewrite Hperm|]. destruct (Hmem 0 start) as (d & Hdx & _ & Hr); [by rewrite Hheap|]. exists d. rewrite Nat.eqb_refl in Hr. destruct Hr as (_ & H1 & H2 & H3 & H4). by unfold is_start.
      * done.
    + intros u Hu _ a b Ha Hb. unfold order. rewrite (Hscore _ _ Ha), (Hscore _ _ Hb). destruct (Nat.eqb_spec b start) as [->|]; [|destruct (a =? start); apply Z.ltb_ge; unfold u64_mod; lia].
      destruct (Hmem u start Hb) as (d & _ & _ & Hr). rewrite Nat.eqb_refl in Hr. lia.
    + intros j x Hj. destruct (Hmem j x Hj) as (d & Hdx & Hp & _). unfold pos. rewrite Hdx. rewrite (proj2 (Nat.ltb_lt _ _)); [done|]. by eapply lookup_lt_Some.
Qed.

(** The search ends, and what is known at its end. *)
Lemma dijkstra_spec : (Z.of_nat (gossmap_num_nodes m) + 1 < UINT_MAX)%Z ->
  exists dij base n, dijkstra_ risk channel_ok path_score m start amount = Ret dij /\
    known risk channel_ok path_score (m := m) (E := E) (N := N) start amount base dij n (length base) (behind base n).
Proof.
  intros Hmax. destruct mkheap_dinv as (heap & dij0 & Hmk & Hinv & Hl).
  destruct (dijkstra_search_spec risk channel_ok path_score W start amount (length heap) heap dij0) as (dij & base & n & Hrun & Hkn & _).
  - rewrite Nat.sub_diag. eapply dinv_moved; [apply Hinv|done|done|done|apply Hinv|apply Hinv|]. intros y. split; [done|]. intros (j & Hj & Hy). apply lookup_lt_Some in Hy. lia.
  - by rewrite Hl.
  - exists dij, base, n. split; [|done]. unfold dijkstra_. rewrite Hmk. done.
Qed.

(** * Routes *)

(** The hops carry the amount from a node to the start of the search: each goes over
    a channel of the map between its node and the next, in its direction, which may
    carry what arrives behind it; the amount and the delay grow by the fee and the
    delay of that direction. *)
Inductive carries (cltv : Z) : nat -> list route_hop -> amount_msat -> Z -> Prop :=
| carries_end : carries cltv start [] amount cltv
| carries_hop ci c dir scid id style hops a t a' : ci ∈ g_channels m -> g_chan_arr m !! ci = Some c -> gossmap_chan_scid m c = Ret scid ->
    gossmap_node_get_id m (gossmap_nth_node c (negb dir)) = Ret id -> carries cltv (gossmap_nth_node c (negb dir)) hops a t -> channel_ok m c dir a = true ->
    amount_msat_add_fee a (hc_base_fee (sel dir (half c))) (hc_proportional_fee (sel dir (half c))) = Some a' ->
    carries cltv (gossmap_nth_node c dir) (hop scid dir id a t style :: hops) a' (wrap32 (t + hc_delay (sel dir (half c)))).

(** The announcements of nodes can be read again. *)
Definition announcements_readable : Prop := forall n nd, g_node_arr m !! n = Some nd -> nann_off nd <> 0%Z -> exists v, gossmap_node_get_feature m nd OPT_VAR_ONION = Ret v.

Lemma to_hops_spec base dij n cltv : known risk channel_ok path_score (m := m) (E := E) (N := N) start amount base dij n (length base) (behind base n) -> announcements_readable ->
  forall k fuel x d, x ∈ base -> dij !! x = Some d -> d_distance d = Z.of_nat k -> d_distance d <> UINT_MAX -> k <= fuel ->
  exists hops t, dijkstra_to_hops fuel m dij x amount cltv = Ret (Some (hops, d_cost d, t)) /\ carries cltv x hops (d_cost d) t /\ length hops = k.
Proof.
  intros Hkn Hann. destruct Hkn as [[Hdup Hnodes] Hlen Hsz Hreach Hst Hvis].
  induction k as [|k IH]; intros fuel x d Hx Hd Hdist Hfin Hfuel; pose proof (Hnodes x) as [Hnx _]; destruct (Hnx Hx) as [idx Hidx]; destruct (wf_node _ _ _ _ _ W x idx Hidx) as (ndx & Hndx & _);
    assert (Hidxm : gossmap_node_idx m x = Ret x) by (unfold gossmap_node_idx; rewrite (proj2 (Nat.ltb_lt _ _)); [done|by eapply lookup_lt_Some]).
  - destruct (Hreach x d Hx Hd) as [Hu|[_ [(-> & S1 & S2 & S3 & S4)|[_ L]]]]; [done| |].
    + exists [], cltv. destruct fuel; cbn [dijkstra_to_hops]; rewrite Hidxm; cbn [obind]; unfold dijkstra_distance, get_dijkstra; rewrite Hd; cbn [obind]; rewrite Hdist; cbn [Z.of_nat Z.eqb]; (split; [by rewrite S2|]); rewrite S2; (split; [constructor|done]).
    + destruct L as (ci & c & dir & dp & L). cbv zeta in L. destruct L as (_ & _ & _ & Hp & Hdp & Hfp & _ & Hdd & _). destruct (Hvis _ Hp) as [Hpin _]. destruct (Hreach _ dp Hpin Hdp) as [?|[Hb _]]; [done|lia].
  - destruct (Hreach x d Hx Hd) as [Hu|[_ [(_ & S1 & _)|[_ L]]]]; [done|lia|].
    destruct L as (ci & c & dir & dp & L). cbv zeta in L. destruct L as ([e He] & Hc & Hcx & Hp & Hdp & Hfp & Hbest & Hdd & Hok & Hfee & _).
    destruct (wf_chan _ _ _ _ _ W ci e He) as (c' & Hc' & _ & Hscid & Hne & Hside). assert (c' = c) as -> by congruence.
    destruct (Hvis _ Hp) as [Hpin _]. destruct (Hside (negb dir)) as (Hpx & idp & Hidp & _). pose proof (Hside dir) as (Hxx & _).
    destruct (IH (fuel - 1) _ dp Hpin Hdp ltac:(lia) Hfp ltac:(lia)) as (hops & t & Hrun & Hcar & Hlh).
    destruct (wf_node _ _ _ _ _ W _ idp Hidp) as (nd & Hnd & _). rewrite <- Hpx in Hidp, Hnd.
    destruct fuel as [|fuel]; [lia|]. replace (S fuel - 1) with fuel in Hrun by lia. cbn [dijkstra_to_hops]. rewrite Hidxm. cbn [obind]. unfold dijkstra_distance, dijkstra_best_chan, get_dijkstra. rewrite Hd. cbn [obind].
    rewrite (proj2 (Z.eqb_neq _ 0)) by lia. rewrite (proj2 (Z.eqb_neq _ UINT_MAX)) by done. rewrite Hbest. unfold chan_at. rewrite Hc. cbn [obind].
    assert (Hdir : (if hc_nodeidx (at0 (half c)) =? x then Ret false else let! _ := assert_ (hc_nodeidx (at1 (half c)) =? x) "dijkstra_to_hops: nodeidx" in Ret true) = Ret dir).
    { destruct dir; cbn in *; [rewrite (proj2 (Nat.eqb_neq _ _)) by congruence; by rewrite (proj2 (Nat.eqb_eq _ _)) by congruence|by rewrite (proj2 (Nat.eqb_eq _ _)) by congruence]. }
    rewrite Hdir. cbn [obind]. rewrite Hscid. cbn [obind]. unfold gossmap_nth_node. unfold gossmap_nth_node in Hrun. pose proof (node_key W _ idp Hidp) as Hkey. unfold nodeidx_id in Hkey. rewrite Hkey. cbn [obind].
    unfold node_at. rewrite Hnd. cbn [obind].
    assert (Hfeat : exists v, (if (nann_off nd =? 0)%Z then Ret 0%Z else gossmap_node_get_feature m nd OPT_VAR_ONION) = Ret v) by (destruct (Z.eqb_spec (nann_off nd) 0); [eauto|by eapply Hann]).
    destruct Hfeat as [v Hv]. rewrite Hv. cbn [obind]. rewrite Hrun. cbn [obind]. rewrite Hfee.
    eexists _, _. split; [reflexivity|]. split; [|cbn; by rewrite Hlh]. assert (Hxg : x = gossmap_nth_node c dir) by (unfold gossmap_nth_node; congruence). rewrite Hxg at 1.
    eapply carries_hop; eauto. apply (wf_channels _ _ _ _ _ W). eauto.
Qed.

End Routes.

(** * Scores *)

Lemma costs_range cost r : (0 <= costs_to_score cost r < 2 ^ 32)%Z.
Proof. unfold costs_to_score. pose proof (Z.mod_pos_bound (millisatoshis cost + millisatoshis r) u64_mod ltac:(done)). unfold wrap64. destruct (Z.ltb_spec 4294967295 ((millisatoshis cost + millisatoshis r) mod u64_mod)); lia. Qed.

(** The shorter route is found whatever the risk is priced at. *)
#[export] Instance shorter_grows risk : ScoreGrows risk route_score_shorter.
Proof.
  split.
  - intros d cost r c. unfold route_score_shorter, wrap64. apply Z.mod_pos_bound. done.
  - intros d cost delay c cost' bf pf x c' Hd _. unfold route_score_shorter. rewrite !Z.shiftl_mul_pow2 by lia.
    pose proof (costs_range cost (risk cost delay)) as H1. pose proof (costs_range cost' (risk cost' (wrap32 (delay + x)))) as H2.
    unfold wrap64, u64_mod, UINT_MAX, u32_mod in *. rewrite (Z.mod_small (d * _)) by lia. rewrite (Z.mod_small ((d + 1) * _)) by lia. rewrite !Z.mod_small by lia. lia.
Qed.

(** A risk that cannot be priced counts as one millisatoshi less than none. *)
Example unpriced_risk : costs_to_score (Msat 1000) UNREACHED = 999%Z /\ costs_to_score (Msat 1000) (Msat 0) = 1000%Z.
Proof. by vm_compute. Qed.

(** * The theorem *)

Lemma found_node m E N fn fc id n : wf m E N fn fc -> gossmap_find_node m id = Ret (Some n) -> N !! n = Some id.
Proof.
  intros W Hf. destruct (decide (map_Exists (fun _ i => i = id) N)) as [(n' & i & Hn & ->)|Hno].
  - rewrite (find_node_some W n' id Hn) in Hf. congruence.
  - rewrite (find_node_none W id) in Hf; [done|]. intros n' Hn'. apply Hno. by exists n', id.
Qed.

(** C22. The search for routes ends without a crash, and its result gives every node
    of the map either no route, when it was not reached, or one with as many hops
    as its distance: a chain of channels of the map from the node to the
    destination, each of which the caller allows for the amount that goes over it,
    with the amounts and delays that the fees and delays of the channels ask for.
    The score may be any that does not fall along a path. *)
Theorem routes_valid risk channel_ok path_score `{!ScoreGrows risk path_score} m G id start amount : represents m G -> gossmap_find_node m id = Ret (Some start) ->
  announcements_readable (m := m) -> (Z.of_nat (gossmap_num_nodes m) + 1 < UINT_MAX)%Z ->
  exists dij, dijkstra_ risk channel_ok path_score m start amount = Ret dij /\
    forall src_id src cltv, gossmap_find_node m src_id = Ret (Some src) ->
    exists dist, dijkstra_distance dij src = Ret dist /\
      if (dist =? UINT_MAX)%Z then route_from_dijkstra m dij src amount cltv = Ret None
      else exists hops a t, route_from_dijkstra m dij src amount cltv = Ret (Some hops) /\ Z.of_nat (length hops) = dist /\ carries channel_ok (m := m) start amount cltv src hops a t.
Proof.
  intros (E & N & fn & fc & W & HG) Hst Hann Hmax. pose proof (found_node _ _ _ _ _ _ _ W Hst) as Hs.
  destruct (dijkstra_spec risk channel_ok path_score W start amount ltac:(eauto) Hmax) as (dij & base & n & Hrun & Hkn). exists dij. split; [done|].
  intros src_id src cltv Hsrc. pose proof (found_node _ _ _ _ _ _ _ W Hsrc) as Hx. pose proof Hkn as [[Hdup Hnodes] Hlen Hsz Hreach _ _].
  destruct (wf_node _ _ _ _ _ W src src_id Hx) as (nd & Hnd & _). apply lookup_lt_Some in Hnd as Hlt. destruct (lookup_lt_is_Some_2 dij src) as [d Hd]; [by rewrite Hlen|].
  exists (d_distance d). unfold dijkstra_distance at 1, get_dijkstra. rewrite Hd. split; [done|]. assert (Hin : src ∈ base) by (apply Hnodes; eauto).
  destruct (Z.eqb_spec (d_distance d) UINT_MAX) as [Hu|Hu].
  - unfold route_from_dijkstra. assert (Hnone : dijkstra_to_hops (length dij) m dij src amount cltv = Ret None); [|by rewrite Hnone].
    destruct (length dij); cbn [dijkstra_to_hops]; unfold gossmap_node_idx; rewrite (proj2 (Nat.ltb_lt _ _) Hlt); cbn [assert_ obind]; unfold dijkstra_distance, get_dijkstra; rewrite Hd; cbn [obind]; by rewrite Hu.
  - destruct (Hreach src d Hin Hd) as [?|[Hb _]]; [done|].
    assert (Hlb : length base <= length dij). { rewrite Hlen. pose proof (all_nodes W) as [Hd0 Hx0]. assert (base ≡ₚ nodes_of (g_node_arr m) 0) as -> by (apply NoDup_Permutation; [done|done|]; intros y; by rewrite Hnodes, Hx0). apply nodes_of_length. }
    destruct (to_hops_spec risk channel_ok path_score W start amount base dij n cltv Hkn Hann (Z.to_nat (d_distance d)) (length dij) src d) as (hops & t & Hh & Hc & Hl); [done|done|lia|done|lia|].
    exists hops, (d_cost d), t. unfold route_from_dijkstra. rewrite Hh. cbn [obind]. split; [done|]. split; [lia|done].
Qed.

(** Any channel may carry anything, and no risk. *)
Definition any_channel (m : gossmap) (c : gossmap_chan) (dir : bool) (amount : amount_msat) : bool := true.
Definition no_risk (amount : amount_msat) (delay : Z) : amount_msat := Msat 0.

Lemma routes_valid_witness : exists start, gossmap_find_node ex_m (ex_id 2) = Ret (Some start) /\
  exists dij, dijkstra_ no_risk any_channel route_score_shorter ex_m start (Msat 1000) = Ret dij /\
    forall src_id src cltv, gossmap_find_node ex_m src_id = Ret (Some src) ->
    exists dist, dijkstra_distance dij src = Ret dist /\
      if (dist =? UINT_MAX)%Z then route_from_dijkstra ex_m dij src (Msat 1000) cltv = Ret None
      else exists hops a t, route_from_dijkstra ex_m dij src (Msat 1000) cltv = Ret (Some hops) /\ Z.of_nat (length hops) = dist /\ carries any_channel (m := ex_m) start (Msat 1000) cltv src hops a t.
Proof.
  assert (Hf : gossmap_find_node ex_m (ex_id 2) = Ret (Some 1)) by by vm_compute. exists 1. split; [done|].
  apply (routes_valid no_risk any_channel route_score_shorter ex_m ex_G (ex_id 2) 1 (Msat 1000)).
  - exact ex_m_represents.
  - exact Hf.
  - intros n nd Hn Ha. exfalso. apply Ha. destruct n as [|[|n]]; [vm_compute in Hn; by injection Hn as <-|vm_compute in Hn; by injection Hn as <-|]. apply lookup_lt_Some in Hn. cbn in Hn. lia.
  - vm_compute. done.
Defined.

(** Two channels in a row, with updates in both directions: the route from the first
    node to the last over both, which pays the second channel's fee to the node
    between them. *)
Definition ex_store3 : bytes :=
  ex_store2 ++ ex_record (ex_update 7 0 1000) ++ ex_record (ex_update 7 1 1000) ++ ex_record (ex_update 8 0 500) ++ ex_record (ex_update 8 1 500).
Example ex_route :
  (let m := ex_map ex_store3 in
   let! src := gossmap_find_node m (ex_id 1) in let! dst := gossmap_find_node m (ex_id 3) in
   match src, dst with
   | Some src, Some dst =>
       let! dij := dijkstra_ no_risk route_can_carry route_score_cheaper m dst (Msat 10000) in
       let! r := route_from_dijkstra m dij src (Msat 10000) 9 in
       Ret (option_map (map (fun h => (hop_scid h, hop_direction h, hop_node_id h, hop_amount h, hop_delay h))) r)
   | _, _ => Abort "no node"
   end) = Ret (Some [(Some (Scid 7), Some 0%Z, Some (ex_id 2), Some (Msat 10500), Some 15%Z); (Some (Scid 8), Some 0%Z, Some (ex_id 3), Some (Msat 10000), Some 9%Z)]).
Proof. by vm_compute. Qed.
