(* ===== verification/HelpersTheorems.v ===== *)
(** Texts of channel ids, and the parser of the reply to listpeers. *)
From S2P Require Import Prelude Utf8 Jsmn JsonTree JsmnProofs Json JsonProofs JsonEqual JsonOut JsonScan JsonScanProofs Libplugin Ec EcProofs Wire Tlv TlvProofs Amount PayecsProofs JsonHelpers LibpluginParse.

(** * Channel ids as text *)

(** A number printed and scanned, in a type of [m] values. *)
Lemma scan_uint_fmt m z post : (0 <= z <= ULLONG_MAX)%Z -> digits 10 z post = (0, z) ->
  scan_uint m (fmt_u z ++ post) = Some ((z mod m)%Z, post).
Proof.
  intros Hz Hp. unfold scan_uint, fmt_u.
  assert (Hz' : (0 <= z < 10 ^ Z.of_nat 20)%Z) by (change (10 ^ Z.of_nat 20)%Z with 100000000000000000000%Z; unfold ULLONG_MAX, u64_mod in Hz; lia).
  destruct (fmt_u_head 20 z Hz' ltac:(lia)) as (d & r & E & Hd & _).
  destruct (digit_facts d Hd) as (F1 & F2 & F3 & _).
  assert (ES : skip_space (fmt_u_go 20 z ++ post) = (0, fmt_u_go 20 z ++ post)) by (rewrite E; cbn [app skip_space]; by rewrite F1).
  assert (ET : take_sign (fmt_u_go 20 z ++ post) = (0, false, fmt_u_go 20 z ++ post)) by (rewrite E; cbn [app take_sign]; by rewrite F2, F3).
  rewrite ES, ET, (digits_fmt 20 z 0 post Hz' ltac:(lia)). rewrite Z.mul_0_l, Z.add_0_l, Hp, Nat.add_0_r.
  destruct (length (fmt_u_go 20 z)) eqn:EL; [by rewrite E in EL|].
  rewrite (proj2 (Z.ltb_ge _ _)) by lia. rewrite <- EL, drop_app_length. done.
Qed.

Definition scid_text (b t o : Z) : bytes := fmt_u b ++ bs "x" ++ fmt_u t ++ bs "x" ++ fmt_u o.

Lemma fmt_u_no_nul z : (0 <= z < u64_mod)%Z -> no_nul (fmt_u z).
Proof.
  intros Hz. destruct (fmt_u_ok z Hz) as [_ HD]. apply Forall_forall. intros c Hc ->.
  rewrite forallb_forall in HD. apply list_elem_of_In, HD in Hc. done.
Qed.

Lemma scan_x_app r : scan_x (bs "x" ++ r) = Some r.
Proof. done. Qed.

(** Three numbers with the letters between them: each is taken modulo the size of
    its variable before it is checked. *)
Lemma scid_scan b t o : (0 <= b <= ULLONG_MAX)%Z -> (0 <= t <= ULLONG_MAX)%Z -> (0 <= o <= ULLONG_MAX)%Z ->
  short_channel_id_from_str (scid_text b t o) = mk_short_channel_id (b mod u32_mod) (t mod u32_mod) (o mod 65536).
Proof.
  intros Hb Ht Ho. unfold short_channel_id_from_str, scid_text. assert (HM : ULLONG_MAX = (u64_mod - 1)%Z) by done.
  rewrite until_nul_id by (repeat apply Forall_app_2; try (apply fmt_u_no_nul; lia); by repeat constructor).
  rewrite scan_uint_fmt by done. rewrite scan_x_app. cbn [option_bind mbind].
  rewrite scan_uint_fmt by done. rewrite scan_x_app. cbn [option_bind mbind].
  rewrite <- (app_nil_r (fmt_u o)). by rewrite scan_uint_fmt.
Qed.

Lemma scid_of_parts s : (0 <= scid_u64 s < u64_mod)%Z ->
  (0 <= short_channel_id_blocknum s < 2 ^ 24)%Z /\ (0 <= short_channel_id_txnum s < 2 ^ 24)%Z /\ (0 <= short_channel_id_outnum s < 2 ^ 16)%Z /\
  mk_short_channel_id (short_channel_id_blocknum s) (short_channel_id_txnum s) (short_channel_id_outnum s) = Some s.
Proof.
  destruct s as [u]. cbn [scid_u64]. intros Hu. unfold u64_mod in Hu.
  unfold short_channel_id_blocknum, short_channel_id_txnum, short_channel_id_outnum. cbn [scid_u64].
  change 16777215%Z with (Z.ones 24). change 65535%Z with (Z.ones 16). rewrite !Z.land_ones, !Z.shiftr_div_pow2 by lia.
  assert (H1 : (0 <= u / 2 ^ 40 < 2 ^ 24)%Z) by (split; [apply Z.div_pos; lia|apply Z.div_lt_upper_bound; lia]).
  assert (H2 : (0 <= (u / 2 ^ 16) mod 2 ^ 24 < 2 ^ 24)%Z) by (apply Z.mod_pos_bound; lia).
  assert (H3 : (0 <= u mod 2 ^ 16 < 2 ^ 16)%Z) by (apply Z.mod_pos_bound; lia).
  split_and!; try lia. rewrite scid_value by done. do 2 f_equal.
  change (2 ^ 40)%Z with (2 ^ 16 * 2 ^ 24)%Z. rewrite <- Z.div_div by lia.
  pose proof (Z.div_mod u (2 ^ 16) ltac:(lia)). pose proof (Z.div_mod (u / 2 ^ 16) (2 ^ 24) ltac:(lia)). lia.
Qed.

(** The slash is found behind text without one. *)
Lemma memchr_app c s r : forallb (fun x => negb (ch_eqb x c)) s = true -> memchr c (s ++ c :: r) = Some (length s).
Proof.
  induction s as [|x s IH]; cbn [forallb app memchr length].
  - intros _. unfold ch_eqb. by rewrite Ascii.eqb_refl.
  - intros [->%negb_true_iff HS]%andb_true_iff. by rewrite IH.
Qed.

Lemma fmt_u_no_slash z : (0 <= z < u64_mod)%Z -> forallb (fun x => negb (ch_eqb x "/"%char)) (fmt_u z) = true.
Proof.
  intros Hz. destruct (fmt_u_ok z Hz) as [_ HD]. apply forallb_forall. intros c Hc. rewrite forallb_forall in HD. apply HD in Hc.
  unfold ch_eqb. by destruct (Ascii.eqb_spec c "/"%char) as [->|].
Qed.

(** Every channel id, with or without a direction, survives printing and
    parsing; of a text of three numbers the parser keeps each modulo the size of
    its variable, 32, 32 and 16 bits, so that a number too large is accepted as
    another. *)
Theorem scid_text_roundtrip s dir b t o :
  (0 <= scid_u64 s < u64_mod)%Z -> (0 <= b <= ULLONG_MAX)%Z -> (0 <= t <= ULLONG_MAX)%Z -> (0 <= o <= ULLONG_MAX)%Z ->
  short_channel_id_from_str (short_channel_id_to_str s) = Some s /\
  short_channel_id_dir_from_str (short_channel_id_dir_to_str (ScidDir s dir)) = Some (ScidDir s dir) /\
  short_channel_id_from_str (scid_text b t o) = mk_short_channel_id (b mod 2 ^ 32) (t mod 2 ^ 32) (o mod 2 ^ 16).
Proof.
  intros Hs Hb Ht Ho. destruct (scid_of_parts s Hs) as (H1 & H2 & H3 & HM).
  assert (HT : short_channel_id_from_str (short_channel_id_to_str s) = Some s).
  { change (short_channel_id_to_str s) with (scid_text (short_channel_id_blocknum s) (short_channel_id_txnum s) (short_channel_id_outnum s)).
    rewrite scid_scan by (unfold ULLONG_MAX, u64_mod; lia). rewrite !Z.mod_small by (unfold u32_mod; lia). done. }
  split; [done|]. split; [|by rewrite scid_scan].
  unfold short_channel_id_dir_from_str, short_channel_id_dir_to_str. cbn [scidd_scid scidd_dir].
  assert (HN : forallb (fun x => negb (ch_eqb x "/"%char)) (short_channel_id_to_str s) = true).
  { unfold short_channel_id_to_str. rewrite !forallb_app, !fmt_u_no_slash by (unfold u64_mod; lia). done. }
  change (bs "/" ++ ?x) with ("/"%char :: x). rewrite memchr_app by done.
  rewrite length_app, take_app_length, HT, lookup_app_r by lia. replace (S (length (short_channel_id_to_str s)) - length (short_channel_id_to_str s)) with 1 by lia.
  replace (length ("/"%char :: fmt_u (if dir then 1 else 0))) with 2 by (by destruct dir). rewrite Nat.eqb_refl. by destruct dir.
Qed.

Lemma scid_text_roundtrip_witness :
  short_channel_id_to_str (Scid 592931436542885889) = bs "539268x845x1" /\
  short_channel_id_from_str (bs "539268x845x1") = Some (Scid 592931436542885889) /\
  short_channel_id_from_str (bs "539268x845x65537") = Some (Scid 592931436542885889).
Proof.
  split; [by vm_compute|].
  pose proof (scid_text_roundtrip (Scid 592931436542885889) true 539268 845 65537
    ltac:(done) ltac:(done) ltac:(done) ltac:(done)) as (H1 & _ & H3).
  split; [exact H1|exact H3].
Defined.

(** * The reply to listpeers *)

(** In an array of two elements or more, of which the first is an object of two
    members or more, the macro for objects goes from the first element to its
    second key. *)
Lemma for_each_obj_array off w e1 e2 es rest w1 m1 m2 ms :
  e_val e1 = JObj w1 (m1 :: m2 :: ms) ->
  exists t1 t2 l, json_for_each_obj (toks off (JArr w (e1 :: e2 :: es)) ++ rest) = t1 :: t2 :: l /\ ttype (cur t2) = JSMN_STRING.
Proof.
  intros E. unfold json_for_each_obj. rewrite cur_toks, toks_arr. cbn [cur hd tsize tl app length].
  rewrite Nat2Z.id. cbn [obj_iter elems_toks]. rewrite E, toks_obj. cbn [app tl members_toks].
  rewrite <- !app_assoc, json_next_key by done. do 3 eexists. split; [reflexivity|]. done.
Qed.

(** Both macros start at the first element. *)
Lemma for_each_head t x k : json_for_each_arr t = x :: k -> exists r, json_for_each_obj t = x :: r.
Proof.
  unfold json_for_each_arr, json_for_each_obj. destruct (Z.to_nat (tsize (cur t))); [done|].
  cbn [arr_iter obj_iter]. intros E. injection E as -> _. eauto.
Qed.

Section Listpeers.
Context (pubkey_parse : bytes -> bool) (buf : bytes).

Lemma peer_is_object t v p : holds buf t v -> json_to_listpeers_peer pubkey_parse buf t = Ret (Some p) ->
  exists w m1 m2 ms, v = JObj w (m1 :: m2 :: ms).
Proof.
  intros H. unfold json_to_listpeers_peer.
  destruct (field_of v (bs "id")) as [u1|] eqn:F1; [|by rewrite (get_field_none _ _ _ _ H F1)].
  destruct (field_of v (bs "connected")) as [u2|] eqn:F2; [|rewrite (get_field_none _ _ _ _ H F2); by destruct (json_get_member _ _ _)].
  intros _. destruct v as [| | |w [|m1 [|m2 ms]]]; try done; [|eauto].
  exfalso. unfold field_of, member_of in F1, F2. cbn [List.find] in F1, F2.
  destruct (bool_decide_reflect (m_key m1 = bs "id")) as [E1|]; [|done]. destruct (bool_decide_reflect (m_key m1 = bs "connected")) as [E2|]; [|done].
  by rewrite E1 in E2.
Qed.

Lemma peer_not_object t : ttype (cur t) = JSMN_STRING -> json_to_listpeers_peer pubkey_parse buf t = Ret None.
Proof. intros H. unfold json_to_listpeers_peer. by rewrite json_get_member_not_obj by (by rewrite H). Qed.

(** The reply to listpeers is read as meant when it has at most one peer: the
    peer is converted as it is.  With two peers or more the result is never a
    list, whatever the peers are: the second round of the loop is at the second
    key of the first peer. *)
Theorem listpeers_one_peer tk v w es t :
  holds buf tk v -> field_of v (bs "peers") = Some (JArr w es) -> json_get_member buf tk (bs "peers") = Some t ->
  (length es <= 1 -> json_to_listpeers_result pubkey_parse buf tk = peers_loop pubkey_parse buf (json_for_each_arr t)) /\
  (2 <= length es -> forall l, json_to_listpeers_result pubkey_parse buf tk <> Ret (Some l)).
Proof.
  intros Hh HF Ht. destruct (get_field_some _ _ _ _ _ Hh HF) as (t' & Ht' & HA). rewrite Ht in Ht'. injection Ht' as <-.
  unfold json_to_listpeers_result. rewrite Ht. destruct (holds_cur _ _ _ HA) as (HT & _). rewrite HT. cbn [type_eqb negb].
  destruct HA as (pre & post & rest & Hb & -> & _ & Hok).
  pose proof (for_each_arr_holds pre w es post rest Hok) as HE. rewrite <- Hb in HE. split.
  - intros Hl. destruct es as [|e1 [|e2 es]]; [done|done|cbn in Hl; lia].
  - intros Hl l. destruct es as [|e1 [|e2 es]]; [cbn in Hl; lia|cbn in Hl; lia|].
    apply Forall2_cons_inv_r in HE as (x & k & Hx & _ & EA). destruct (for_each_head _ _ _ EA) as [r EO]. rewrite EO. cbn [peers_loop].
    destruct (json_to_listpeers_peer pubkey_parse buf x) as [[p|]|] eqn:EP; [|done|done].
    destruct (peer_is_object _ _ _ Hx EP) as (w1 & m1 & m2 & ms & EV).
    destruct (for_each_obj_array (len pre) w e1 e2 es rest w1 m1 m2 ms EV) as (t1 & t2 & r' & EO' & E2).
    rewrite EO in EO'. injection EO' as _ ->. cbn [peers_loop obind]. by rewrite (peer_not_object t2 E2).
Qed.
End Listpeers.

(** A peer as lightningd reports it, and replies with one and with two of them. *)
Definition peer_value : jv :=
  JObj [] [Member0 (bs "id") (JStr (bs "02")); Member0 (bs "connected") (JPrim (bs "true")); Member0 (bs "channels") (JArr [] [])].
Definition peers_reply (n : nat) : jv := JObj [] [Member0 (bs "peers") (JArr [] (replicate n (Elem0 peer_value)))].

Lemma listpeers_one_peer_witness :
  json_to_listpeers_result (fun _ => true) (text (peers_reply 1)) (toks 0 (peers_reply 1)) = Ret (Some [Peer None (Some true) [] []]) /\
  forall l, json_to_listpeers_result (fun _ => true) (text (peers_reply 2)) (toks 0 (peers_reply 2)) <> Ret (Some l).
Proof.
  split; [by vm_compute|].
  assert (HT : json_get_member (text (peers_reply 2)) (toks 0 (peers_reply 2)) (bs "peers") = Some (drop 2 (toks 0 (peers_reply 2)))) by (by vm_compute).
  destruct (listpeers_one_peer (fun _ => true) (text (peers_reply 2)) (toks 0 (peers_reply 2)) (peers_reply 2) []
    (replicate 2 (Elem0 peer_value)) _ (holds_self (peers_reply 2) eq_refl) eq_refl HT) as [_ H]. apply H. cbn. lia.
Defined.
