(* ===== verification/WireaddrProofs.v ===== *)
(** Network addresses: base32, the wire and the texts are read back, and what the readers do with
    other input. *)
From S2P Require Import Prelude Utf8 Jsmn JsonTree JsmnProofs Json JsonProofs JsonEqual JsonOut JsonOutProofs.
From S2P Require Import JsonScan JsonScanProofs Libplugin Ec EcProofs Wire Tlv TlvProofs Amount PayecsProofs JsonHelpers LibpluginParse HelpersTheorems Wireaddr.

(** * The comparison with zero *)

Lemma memeqzero_first_spec n : forall p,
  match memeqzero_first n p with
  | inl b => b = forallb (fun c => ch_eqb c NUL) p
  | inr r => p = repeat NUL n ++ r
  end.
Proof.
  induction n as [|n IH]; intros p; [done|]. destruct p as [|c r]; [done|]. cbn [memeqzero_first forallb]. unfold ch_eqb at 1.
  destruct (Ascii.eqb_spec c NUL) as [->|N]; cbn [negb].
  - specialize (IH r). destruct (memeqzero_first n r); [done|]. by rewrite IH.
  - unfold ch_eqb. by rewrite (proj2 (Ascii.eqb_neq _ _) N).
Qed.

Lemma repeat_replicate {A} (x : A) n : repeat x n = replicate n x.
Proof. induction n as [|n IH]; [done|]. cbn. by rewrite IH. Qed.

(** Data that starts with [n] zeros and equals itself from there on is zero. *)
Lemma shifted_zero n : 0 < n -> forall r, take (length r) (repeat NUL n ++ r) = r -> r = repeat NUL (length r).
Proof.
  intros Hn r H. apply list_eq. intros i. induction (lt_wf i) as [i _ IH].
  destruct (decide (i < length r)) as [Hi|Hi].
  - rewrite (repeat_replicate NUL (length r)), lookup_replicate_2 by done. rewrite <- H, lookup_take_lt by done.
    destruct (decide (i < n)) as [Hin|Hin].
    + rewrite lookup_app_l by (rewrite repeat_length; lia). rewrite repeat_replicate, lookup_replicate_2; done.
    + rewrite lookup_app_r, repeat_length by (rewrite repeat_length; lia). rewrite (IH (i - n)) by lia.
      rewrite repeat_replicate, lookup_replicate_2; [done|lia].
  - rewrite !lookup_ge_None_2; [done|rewrite ?repeat_length; lia..].
Qed.

(** [memeqzero] looks at sixteen bytes and compares the data with itself, and so decides whether
    all bytes are zero. *)
Theorem memeqzero_all data : memeqzero data = forallb (fun c => ch_eqb c NUL) data.
Proof.
  unfold memeqzero. pose proof (memeqzero_first_spec 16 data) as H. destruct (memeqzero_first 16 data) as [b|r]; [done|]. subst data.
  unfold memcmp_eq. rewrite forallb_app. rewrite (proj2 (forallb_forall _ (repeat NUL 16))) by (intros c Hc; by apply repeat_spec in Hc as ->).
  cbn [andb]. case_bool_decide as E.
  - apply shifted_zero in E; [|lia]. rewrite E. symmetry. apply forallb_forall. intros c Hc. by apply repeat_spec in Hc as ->.
  - symmetry. apply not_true_is_false. intros F. apply E. rewrite forallb_forall in F.
    assert (Er : r = repeat NUL (length r)).
    { apply List.Forall_eq_repeat, List.Forall_forall. intros c Hc. symmetry. by apply Ascii.eqb_eq, F. }
    rewrite Er. set (n := length r). rewrite repeat_length, <- repeat_app, !repeat_replicate, take_replicate. f_equal. lia.
Qed.

(** * base32 *)

Section Base32.
Context (chars : bytes) (Hlen : length chars = 33) (Hdup : NoDup chars).

Lemma b32_char_lookup d : d < 33 -> chars !! d = Some (b32_char chars d).
Proof. intros H. unfold b32_char. rewrite nth_lookup. destruct (chars !! d) eqn:E; [done|]. apply lookup_ge_None_1 in E. lia. Qed.

Lemma memchr_None c s : c ∉ s -> memchr c s = None.
Proof.
  induction s as [|x r IH]; intros H; [done|]. cbn. unfold ch_eqb. destruct (Ascii.eqb_spec x c) as [->|_]; [set_solver|].
  rewrite IH; [done|set_solver].
Qed.

Lemma memchr_lookup s : NoDup s -> forall i c, s !! i = Some c -> memchr c s = Some i.
Proof.
  induction 1 as [|x r Hx _ IH]; intros i c H; [done|]. destruct i as [|i]; cbn in H |- *.
  - simplify_eq. unfold ch_eqb. by rewrite Ascii.eqb_refl.
  - unfold ch_eqb. destruct (Ascii.eqb_spec x c) as [->|_]; [by apply list_elem_of_lookup_2 in H|]. by rewrite (IH i).
Qed.

Lemma b32_digit d : d < 32 -> memchr (b32_char chars d) (take 32 chars) = Some d.
Proof.
  intros H. apply memchr_lookup; [eapply sublist_NoDup; [exact Hdup|apply sublist_take]|].
  rewrite lookup_take_lt by done. apply b32_char_lookup. lia.
Qed.

Lemma b32_pad : memchr (b32_char chars 32) (take 32 chars) = None.
Proof.
  apply memchr_None. intros H. apply list_elem_of_lookup in H as [i Hi]. apply lookup_take_Some in Hi as [Hi Hl].
  pose proof (NoDup_lookup chars i 32 _ Hdup Hi (b32_char_lookup 32 ltac:(lia))). lia.
Qed.

Lemma b32_not_pad d : d < 32 -> ch_eqb (b32_char chars d) (b32_char chars 32) = false.
Proof.
  intros H. apply Ascii.eqb_neq. intros E. pose proof (b32_char_lookup d ltac:(lia)) as H1. rewrite E in H1.
  pose proof (NoDup_lookup chars d 32 _ Hdup H1 (b32_char_lookup 32 ltac:(lia))). lia.
Qed.

(** One digit: the upper five of 40 bits, and the others moved up. *)
Lemma digit_step res k : (0 <= res)%Z -> (0 <= k <= 35)%Z ->
  let d := Z.land (Z.shiftr res 35) 31 in
  (0 <= d < 32)%Z /\
  (res mod 2 ^ 40 / 2 ^ (35 - k) = d * 2 ^ k + wrap64 (Z.shiftl res 5) mod 2 ^ 40 / 2 ^ (40 - k))%Z.
Proof.
  intros Hr Hk d. assert (Ed : d = (res mod 2 ^ 40 / 2 ^ 35)%Z).
  { unfold d. change 31%Z with (Z.ones 5). rewrite Z.land_ones, Z.shiftr_div_pow2 by lia.
    change (2 ^ 40)%Z with (2 ^ 35 * 2 ^ 5)%Z. rewrite (Z.rem_mul_r res (2 ^ 35) (2 ^ 5)) by lia.
    rewrite Z.add_comm, Z.mul_comm, Z.div_add_l by lia. rewrite (Z.div_small (res mod 2 ^ 35)) by (apply Z.mod_pos_bound; lia). lia. }
  pose proof (Z.mod_pos_bound res (2 ^ 40) ltac:(lia)) as Hb.
  split. { rewrite Ed. split; [apply Z.div_pos; lia|apply Z.div_lt_upper_bound; lia]. }
  assert (Es : (wrap64 (Z.shiftl res 5) mod 2 ^ 40 = 32 * (res mod 2 ^ 35))%Z).
  { unfold wrap64. change u64_mod with (2 ^ 40 * 2 ^ 24)%Z. rewrite Z.rem_mul_r by lia. rewrite (Z.mul_comm (2 ^ 40)), Z.mod_add, Z.mod_mod by lia.
    rewrite Z.shiftl_mul_pow2, (Z.mul_comm res) by lia. change (2 ^ 40)%Z with (2 ^ 5 * 2 ^ 35)%Z. by rewrite Z.mul_mod_distr_l by lia. }
  rewrite Es. replace (40 - k)%Z with (5 + (35 - k))%Z by lia. rewrite Z.pow_add_r by lia. change (2 ^ 5)%Z with 32%Z.
  rewrite Z.div_mul_cancel_l by lia.
  assert (E : (res mod 2 ^ 40 = d * 2 ^ 35 + res mod 2 ^ 35)%Z).
  { rewrite Ed. rewrite (Z.div_mod (res mod 2 ^ 40) (2 ^ 35)) at 1 by lia. change (2 ^ 40)%Z with (2 ^ 35 * 2 ^ 5)%Z.
    rewrite (Z.rem_mul_r res (2 ^ 35) (2 ^ 5)) at 2 by lia. rewrite (Z.mul_comm (2 ^ 35) ((res / 2 ^ 35) mod 2 ^ 5)), Z.mod_add, Z.mod_mod by lia. lia. }
  rewrite E. replace (2 ^ 35)%Z with (2 ^ k * 2 ^ (35 - k))%Z at 1 by (rewrite <- Z.pow_add_r by lia; f_equal; lia).
  rewrite Z.mul_assoc, Z.div_add_l by lia. done.
Qed.

(** The digits of a number of 40 bits, five at a time from the top, come back as its upper part. *)
Lemma decode_encode_bits k : forall f bits res acc rest, k <= f -> k <= 8 -> (5 * (Z.of_nat k - 1) < bits <= 5 * Z.of_nat k)%Z ->
  (0 <= res)%Z -> (0 <= acc < 2 ^ (40 - 5 * Z.of_nat k))%Z ->
  decode_chars chars (encode_bits chars f bits res ++ rest) acc 0 =
  decode_chars chars rest (acc * 2 ^ (5 * Z.of_nat k) + res mod 2 ^ 40 / 2 ^ (40 - 5 * Z.of_nat k)) 0.
Proof.
  induction k as [|k IH]; intros f bits res acc rest Hf Hk Hbits Hres Hacc.
  - assert (En : encode_bits chars f bits res = []) by (destruct f; [done|]; cbn; by rewrite (proj2 (Z.ltb_ge _ _)) by lia).
    rewrite En. cbn [app]. f_equal. change (40 - 5 * Z.of_nat 0)%Z with 40%Z. change (5 * Z.of_nat 0)%Z with 0%Z.
    rewrite Z.div_small by (apply Z.mod_pos_bound; lia). lia.
  - destruct f as [|f]; [lia|]. cbn [encode_bits]. rewrite (proj2 (Z.ltb_lt _ _)) by lia.
    destruct (digit_step res (5 * Z.of_nat k) Hres ltac:(lia)) as [Hd E]. set (d := Z.land _ _) in *.
    cbn [app decode_chars]. rewrite b32_digit by lia. cbn [negb Nat.eqb].
    assert (Hp : (2 ^ (40 - 5 * Z.of_nat (S k)) * 32 = 2 ^ (40 - 5 * Z.of_nat k))%Z) by (change 32%Z with (2 ^ 5)%Z; rewrite <- Z.pow_add_r by lia; f_equal; lia).
    assert (Hle : (2 ^ (40 - 5 * Z.of_nat k) <= 2 ^ 40)%Z) by (apply Z.pow_le_mono_r; lia).
    assert (Ea : wrap64 (Z.shiftl acc 5) = (acc * 32)%Z).
    { unfold wrap64. rewrite Z.shiftl_mul_pow2 by lia. change (2 ^ 5)%Z with 32%Z. apply Z.mod_small. unfold u64_mod. lia. }
    rewrite Ea, Z2Nat.id by lia.
    assert (El : Z.lor (acc * 32) d = (acc * 32 + d)%Z) by (pose proof (pack_fields 5 acc d ltac:(lia) Hd) as P; by rewrite Z.shiftl_mul_pow2 in P by lia).
    rewrite El, IH; [|lia|lia|lia|unfold wrap64; apply Z.mod_pos_bound; done|lia]. f_equal.
    replace (5 * Z.of_nat (S k))%Z with (5 + 5 * Z.of_nat k)%Z by lia. rewrite Z.pow_add_r by lia. change (2 ^ 5)%Z with 32%Z.
    replace (40 - (5 + 5 * Z.of_nat k))%Z with (35 - 5 * Z.of_nat k)%Z by lia. rewrite E. lia.
Qed.

Lemma decode_padding n : forall acc m, (0 <= acc)%Z -> (acc * 2 ^ (5 * Z.of_nat n) < u64_mod)%Z ->
  decode_chars chars (repeat (b32_char chars 32) n) acc m = Some ((acc * 2 ^ (5 * Z.of_nat n))%Z, m + n).
Proof.
  induction n as [|n IH]; intros acc m Ha Hb; cbn [repeat decode_chars]; [f_equal; f_equal; [cbn; lia|lia]|].
  rewrite (b32_pad). unfold ch_eqb. rewrite Ascii.eqb_refl.
  replace (5 * Z.of_nat (S n))%Z with (5 + 5 * Z.of_nat n)%Z in * by lia. rewrite Z.pow_add_r in * by lia. change (2 ^ 5)%Z with 32%Z in *.
  assert (Hp : (0 < 2 ^ (5 * Z.of_nat n))%Z) by (apply Z.pow_pos_nonneg; lia).
  assert (Ea : wrap64 (Z.shiftl acc 5) = (acc * 32)%Z).
  { unfold wrap64. rewrite Z.shiftl_mul_pow2 by lia. change (2 ^ 5)%Z with 32%Z. apply Z.mod_small. nia. }
  rewrite Ea, IH by lia. f_equal. f_equal; lia.
Qed.

Definition is_digit (c : ascii) : Prop := exists d, d < 32 /\ c = b32_char chars d.

Lemma encode_bits_shape k : forall f bits res, k <= f -> (5 * (Z.of_nat k - 1) < bits <= 5 * Z.of_nat k)%Z ->
  length (encode_bits chars f bits res) = k /\ Forall is_digit (encode_bits chars f bits res).
Proof.
  induction k as [|k IH]; intros f bits res Hf Hb.
  - assert (E : encode_bits chars f bits res = []) by (destruct f; [done|]; cbn; by rewrite (proj2 (Z.ltb_ge _ _)) by lia).
    rewrite E. split; [done|constructor].
  - destruct f as [|f]; [lia|]. cbn [encode_bits]. rewrite (proj2 (Z.ltb_lt _ _)) by lia.
    destruct (IH f (bits - 5)%Z (wrap64 (Z.shiftl res 5)) ltac:(lia) ltac:(lia)) as [IH1 IH2]. cbn [length]. split; [by rewrite IH1|].
    constructor; [|done]. eexists. split; [|reflexivity]. change 31%Z with (Z.ones 5). rewrite Z.land_ones by lia.
    pose proof (Z.mod_pos_bound (Z.shiftr res 35) (2 ^ 5) ltac:(lia)). lia.
Qed.

Lemma from_be_app a b : from_be (a ++ b) = (from_be a * 256 ^ len b + from_be b)%Z.
Proof. unfold from_be at 1. rewrite foldl_app. apply from_be_go. Qed.

Lemma from_be_zeros n : from_be (repeat NUL n) = 0%Z.
Proof. induction n as [|n IH]; [done|]. cbn [repeat]. rewrite from_be_cons, IH. done. Qed.

(** Up to five bytes, with their padding. *)
Lemma chunk_spec buf : 0 < length buf <= 5 -> exists t n val,
  encode_8_chars chars buf = Ret (t ++ repeat (b32_char chars 32) n) /\ padlen (length buf mod 5) = Ret n /\ length t + n = 8 /\
  Forall is_digit t /\ decode_8_chars chars (t ++ repeat (b32_char chars 32) n) = Some (val, length buf) /\ take (length buf) (drop 3 val) = buf.
Proof.
  intros Hl. set (m := 5 - length buf). set (w := repeat NUL 3 ++ buf ++ repeat NUL m).
  assert (Hw : length w = 8) by (unfold w, m; rewrite !length_app, !repeat_length; lia).
  assert (Ev : from_be w = (from_be buf * 2 ^ (40 - 8 * Z.of_nat (length buf)))%Z).
  { unfold w. rewrite !from_be_app, !from_be_zeros. unfold len. rewrite repeat_length. change 256%Z with (2 ^ 8)%Z. rewrite <- !Z.pow_mul_r by lia.
    replace (40 - 8 * Z.of_nat (length buf))%Z with (8 * Z.of_nat m)%Z by lia. lia. }
  assert (Hv : (0 <= from_be w < 2 ^ 40)%Z).
  { unfold w. rewrite from_be_app, from_be_zeros, Z.mul_0_l, Z.add_0_l. pose proof (from_be_range (buf ++ repeat NUL m)) as H.
    unfold len in H. rewrite length_app, repeat_length in H. replace (length buf + m) with 5 in H by lia. exact H. }
  assert (Hk : exists k n, padlen (length buf mod 5) = Ret n /\ k + n = 8 /\ (5 * (Z.of_nat k - 1) < Z.of_nat (length buf) * 8 <= 5 * Z.of_nat k)%Z /\
    (40 - n * 5) / 8 = length buf /\ (n =? 5) || (n =? 2) = false /\ (if negb (length buf =? 5) then padlen (length buf) = Ret n else n = 0)).
  { destruct (length buf) as [|[|[|[|[|[|?]]]]]]; try lia; [exists 2, 6|exists 4, 4|exists 5, 3|exists 7, 1|exists 8, 0]; cbn; repeat split; lia. }
  destruct Hk as (k & n & Hpl & Hkn & Hbits & Hcount & Hno & Hpad).
  destruct (encode_bits_shape k 8 (Z.of_nat (length buf) * 8) (from_be w) ltac:(lia) Hbits) as [Hlen' Hdig].
  exists (encode_bits chars 8 (Z.of_nat (length buf) * 8) (from_be w)), n, w. split_and!; [|done|lia|done| |].
  - unfold encode_8_chars. fold m w. rewrite (proj2 (Nat.ltb_lt _ _)), (proj2 (Nat.leb_le _ _)) by lia. cbn [andb assert_ obind].
    destruct (negb (length buf =? 5)); [by rewrite Hpad|]. subst n. cbn [repeat]. by rewrite app_nil_r.
  - unfold decode_8_chars. rewrite (decode_encode_bits k) by (done || lia || (split; [lia|apply Z.pow_pos_nonneg; lia])).
    rewrite Z.mul_0_l, Z.add_0_l, (Z.mod_small (from_be w)) by done. replace (40 - 5 * Z.of_nat k)%Z with (5 * Z.of_nat n)%Z by lia.
    assert (Ed : (from_be w / 2 ^ (5 * Z.of_nat n) * 2 ^ (5 * Z.of_nat n) = from_be w)%Z).
    { rewrite Ev. replace (40 - 8 * Z.of_nat (length buf))%Z with ((40 - 8 * Z.of_nat (length buf) - 5 * Z.of_nat n) + 5 * Z.of_nat n)%Z by lia.
      rewrite (Z.pow_add_r 2 _ (5 * Z.of_nat n)) by lia. rewrite Z.mul_assoc, Z.div_mul by (apply Z.pow_nonzero; lia). done. }
    rewrite decode_padding; [|apply Z.div_pos; [lia|apply Z.pow_pos_nonneg; lia]|rewrite Ed; unfold u64_mod; lia].
    rewrite Nat.add_0_l, Hno, Ed, Hcount. by rewrite <- Hw, to_from_be.
  - change (take (length buf) (buf ++ repeat NUL m) = buf). apply take_app_length.
Qed.

(** The text of the chunks one after another: full ones, and a last one that may have padding. *)
Lemma encode_loop_spec f : forall buf, length buf <= f -> exists t n,
  base32_encode_loop chars f buf (base32_str_size (length buf)) = Ret (Some (t ++ repeat (b32_char chars 32) n)) /\
  padlen (length buf mod 5) = Ret n /\ length t + n = (length buf + 4) / 5 * 8 /\ Forall is_digit t /\
  (forall g, length t + n < g -> base32_decode_loop chars g (t ++ repeat (b32_char chars 32) n) (length buf) = Some buf).
Proof.
  induction f as [|f IH]; intros buf Hf.
  { destruct buf; [|cbn in Hf; lia]. exists [], 0. split_and!; [done..|constructor|]. intros [|g] Hg; [cbn in Hg; lia|done]. }
  destruct buf as [|x r] eqn:Eb. { exists [], 0. split_and!; [done..|constructor|]. intros [|g] Hg; [cbn in Hg; lia|done]. }
  rewrite <- Eb in *. assert (Hpos : 0 < length buf) by (rewrite Eb; cbn; lia).
  assert (Ef : base32_encode_loop chars (S f) buf (base32_str_size (length buf)) =
    (let bytes := if length buf <? 5 then length buf else 5 in
     if base32_str_size (length buf) <? 8 then Ret None
     else let! t := encode_8_chars chars (take bytes buf) in
          let! r := base32_encode_loop chars f (drop bytes buf) (base32_str_size (length buf) - 8) in Ret (app t <$> r))) by (rewrite Eb; reflexivity).
  rewrite Ef. clear Ef Eb x r. cbv zeta.
  assert (Hsz : 8 < base32_str_size (length buf)) by (unfold base32_str_size; pose proof (Nat.div_le_lower_bound (length buf + 4) 5 1 ltac:(lia) ltac:(lia)); lia).
  rewrite (proj2 (Nat.ltb_ge _ _)) by lia.
  destruct (Nat.ltb_spec (length buf) 5) as [Hs|Hs].
  - (* the last chunk, not full *)
    destruct (chunk_spec buf ltac:(lia)) as (t & n & val & E1 & E2 & E3 & E4 & E5 & E6).
    assert (E1' : (length buf + 4) / 5 = 1) by (symmetry; apply (Nat.div_unique _ 5 1 (length buf - 1)); lia).
    rewrite firstn_all, E1, drop_all. cbn [obind].
    assert (EL : base32_encode_loop chars f [] (base32_str_size (length buf) - 8) = Ret (Some [])) by (unfold base32_str_size; rewrite E1'; by destruct f).
    rewrite EL. cbn [obind fmap option_map option_fmap]. rewrite app_nil_r. exists t, n. split_and!; [done|done|lia|done|].
    intros [|g] Hg; [lia|]. cbn [base32_decode_loop]. rewrite length_app, repeat_length, (proj2 (Nat.ltb_ge _ _)) by lia.
    rewrite take_ge, drop_ge by (rewrite length_app, repeat_length; lia). rewrite E5, (proj2 (Nat.ltb_ge _ _)) by lia. rewrite Nat.sub_diag, E6.
    destruct g; [lia|]. cbn. by rewrite app_nil_r.
  - (* a full chunk *)
    assert (Ht : length (take 5 buf) = 5) by (rewrite length_take; lia).
    destruct (chunk_spec (take 5 buf) ltac:(lia)) as (t & n & val & E1 & E2 & E3 & E4 & E5 & E6). rewrite Ht in *. cbn in E2. simplify_eq.
    cbn [repeat] in *. rewrite app_nil_r in *.
    assert (Hd : length (drop 5 buf) = length buf - 5) by apply length_drop.
    assert (Hdiv : (length buf + 4) / 5 = S ((length buf - 5 + 4) / 5)).
    { replace (length buf + 4) with (length buf - 5 + 4 + 1 * 5) by lia. rewrite Nat.div_add by lia. lia. }
    assert (Hm : length buf mod 5 = (length buf - 5) mod 5).
    { replace (length buf) with (length buf - 5 + 1 * 5) at 1 by lia. by rewrite Nat.Div0.mod_add. }
    destruct (IH (drop 5 buf) ltac:(lia)) as (t' & n' & F1 & F2 & F3 & F4 & F5). rewrite Hd in *.
    replace (base32_str_size (length buf) - 8) with (base32_str_size (length buf - 5)) by (unfold base32_str_size; lia).
    rewrite E1. cbn [obind]. rewrite F1. cbn [obind fmap option_map option_fmap]. exists (t ++ t'), n'. rewrite <- app_assoc.
    split_and!; [done|by rewrite Hm|rewrite length_app; lia|by apply Forall_app|].
    intros [|g] Hg; [lia|]. rewrite length_app in Hg. cbn [base32_decode_loop]. rewrite !length_app, repeat_length, (proj2 (Nat.ltb_ge _ _)) by lia.
    rewrite take_app_length', drop_app_length' by lia. rewrite E5, (proj2 (Nat.ltb_ge _ _)) by lia. rewrite E6, F5 by lia. cbn. by rewrite take_drop.
Qed.

Lemma count_padding_repeat n : forall k s, n <= k -> match s with c :: _ => is_digit c | [] => True end ->
  count_padding chars (repeat (b32_char chars 32) n ++ s) k = n.
Proof.
  induction n as [|n IH]; intros k s Hk Hs.
  - destruct s as [|c r]; [by destruct k|]. destruct Hs as (d & Hd & ->). destruct k; [done|]. cbn. by rewrite b32_not_pad.
  - destruct k as [|k]; [lia|]. cbn [repeat app count_padding]. unfold ch_eqb. rewrite Ascii.eqb_refl. rewrite IH; [done|lia|done].
Qed.

Lemma data_size_spec t n len : padlen (len mod 5) = Ret n -> length t + n = (len + 4) / 5 * 8 -> Forall is_digit t ->
  base32_data_size chars (t ++ repeat (b32_char chars 32) n) = len.
Proof.
  intros Hp Hl Ht. unfold base32_data_size. rewrite length_app, repeat_length, Hl, rev_app_distr, rev_repeat.
  pose proof (Nat.mod_upper_bound len 5 ltac:(lia)) as Hb. pose proof (Nat.div_mod len 5 ltac:(lia)) as Hdm.
  rewrite count_padding_repeat.
  2: { destruct (len mod 5) as [|[|[|[|[|?]]]]]; cbn in Hp; simplify_eq; lia. }
  2: { destruct (rev t) as [|c r] eqn:E; [done|]. apply (f_equal (@rev _)) in E. rewrite rev_involutive in E. subst t.
       apply Forall_rev in Ht. rewrite rev_involutive in Ht. by inversion Ht. }
  set (q := len / 5) in *. rewrite (Nat.div_add_l _ 8 7), (Nat.div_small 7 8), Nat.add_0_r by lia.
  destruct (len mod 5) as [|[|[|[|[|?]]]]]; try lia; cbn in Hp; simplify_eq.
  1: replace ((len + 4) / 5) with q by (apply (Nat.div_unique _ 5 q 4); lia).
  2: replace ((len + 4) / 5) with (S q) by (apply (Nat.div_unique _ 5 (S q) 0); lia).
  3: replace ((len + 4) / 5) with (S q) by (apply (Nat.div_unique _ 5 (S q) 1); lia).
  4: replace ((len + 4) / 5) with (S q) by (apply (Nat.div_unique _ 5 (S q) 2); lia).
  5: replace ((len + 4) / 5) with (S q) by (apply (Nat.div_unique _ 5 (S q) 3); lia).
  all: match goal with |- context [?a / 8] => let v := eval vm_compute in (a / 8) in change (a / 8) with v end; lia.
Qed.
End Base32.

Lemma lower_length : length base32_lower = 33.
Proof. reflexivity. Qed.
Lemma lower_NoDup : NoDup base32_lower.
Proof. apply (bool_decide_unpack _). vm_compute. exact I. Qed.

(** A character of a text without padding. *)
Definition onion_char (c : ascii) : bool := ch_in c (take 32 base32_lower).

Lemma digit_onion c : is_digit base32_lower c -> onion_char c = true.
Proof.
  intros (d & Hd & ->). unfold onion_char, ch_in. apply existsb_exists. exists (b32_char base32_lower d). split; [|apply Ascii.eqb_refl].
  apply list_elem_of_In, (list_elem_of_lookup_2 _ d). rewrite lookup_take_lt by done. apply b32_char_lookup; [reflexivity|lia].
Qed.

(** Encoding succeeds and decoding gives the data back; whole groups of five bytes need no
    padding. *)
Theorem b32_roundtrip data : exists s, b32_encode data = Ret s /\ b32_decode s = Some data /\ length s = (length data + 4) / 5 * 8 /\
  (length data mod 5 = 0 -> forallb onion_char s = true).
Proof.
  destruct (encode_loop_spec base32_lower lower_length lower_NoDup (length data) data ltac:(lia)) as (t & n & E1 & E2 & E3 & E4 & E5).
  exists (t ++ repeat (b32_char base32_lower 32) n). unfold b32_encode, base32_encode. rewrite E1. cbn [obind]. split_and!.
  - done.
  - unfold b32_decode. rewrite (data_size_spec base32_lower lower_length lower_NoDup t n (length data)) by done.
    unfold base32_decode. apply E5. rewrite length_app, repeat_length. lia.
  - by rewrite length_app, repeat_length.
  - intros Hm. rewrite Hm in E2. cbn in E2. simplify_eq. cbn [repeat]. rewrite app_nil_r. apply forallb_forall. intros c Hc.
    apply digit_onion. rewrite List.Forall_forall in E4. by apply E4.
Qed.

(** * The wire *)

Definition port_ok (p : Z) : Prop := (0 <= p < 65536)%Z.

(** An address of a known type with its length. *)
Definition wireaddr_ok (a : wireaddr) : Prop := type_addrlen (wtype a) = Some (length (waddr a)) /\ port_ok (wport a).

Definition internal_ok (a : wireaddr_internal) : Prop :=
  match a with
  | ADDR_INTERNAL_SOCKNAME s => length s = SOCKNAME_SIZE /\ NUL ∈ s
  | ADDR_INTERNAL_ALLPROTO p => port_ok p
  | ADDR_INTERNAL_AUTOTOR w p => wireaddr_ok w /\ port_ok p
  | ADDR_INTERNAL_FORPROXY n p => length n = NAME_SIZE /\ NUL ∈ n /\ port_ok p
  | ADDR_INTERNAL_WIREADDR w => wireaddr_ok w
  | ADDR_INTERNAL_STATICTOR w p b => wireaddr_ok w /\ length b = BLOB_SIZE /\ port_ok p
  end.

Lemma read_u8 v r : (0 <= v < 256)%Z -> fromwire_u8 (Some (towire_u8 v ++ r)) = (v, Some r).
Proof. intros H. unfold fromwire_u8, towire_u8, towire. rewrite fromwire_be by (cbn; lia). by rewrite from_to_be_id by (cbn; lia). Qed.
Lemma read_u16 v r : port_ok v -> fromwire_u16 (Some (towire_u16 v ++ r)) = (v, Some r).
Proof. intros H. unfold port_ok in H. unfold fromwire_u16, towire_u16, towire. rewrite fromwire_be by (cbn; lia). by rewrite from_to_be_id by (cbn; lia). Qed.
Lemma read_array b n r : length b = n -> fromwire_u8_array (Some (towire_u8_array b ++ r)) n = (b, Some r).
Proof. intros <-. apply fromwire_app. Qed.

Lemma type_known t n : type_addrlen t = Some n -> (0 <= t < 256)%Z.
Proof. unfold type_addrlen, ADDR_TYPE_IPV4, ADDR_TYPE_IPV6, ADDR_TYPE_TOR_V2, ADDR_TYPE_TOR_V3. intros H. case_all; lia. Qed.

Lemma read_wireaddr a old rest : wireaddr_ok a -> fromwire_wireaddr (Some (towire_wireaddr a ++ rest)) old = (true, a, Some rest).
Proof.
  intros [Ht Hp]. unfold fromwire_wireaddr, towire_wireaddr. rewrite <- !app_assoc, read_u8 by (by eapply type_known).
  rewrite Ht. unfold towire. rewrite fromwire_app, read_u16 by done. by destruct a.
Qed.

Lemma memchr_found c s : c ∈ s -> exists i, memchr c s = Some i.
Proof.
  induction s as [|x r IH]; intros H; [by apply not_elem_of_nil in H|]. cbn. unfold ch_eqb. destruct (Ascii.eqb_spec x c) as [|N]; [by eexists|].
  apply elem_of_cons in H as [->|H]; [done|]. destruct (IH H) as [i ->]. by eexists.
Qed.

Lemma terminates s c : NUL ∈ s -> must_terminate s c = c.
Proof. intros H. unfold must_terminate. by destruct (memchr_found NUL s H) as [i ->]. Qed.

Lemma read_internal a old rest : internal_ok a -> fromwire_wireaddr_internal (Some (towire_wireaddr_internal a ++ rest)) old = (Some a, Some rest).
Proof.
  intros H. unfold fromwire_wireaddr_internal, towire_wireaddr_internal.
  destruct a as [s|p|w p|n p|w|w p b]; cbn [internal_ok] in H; rewrite <- ?app_assoc, read_u8 by lia; cbn [Z.eqb Pos.eqb].
  - destruct H as [H1 H2]. rewrite read_array, terminates by done. done.
  - by rewrite read_u16.
  - destruct H as [H1 H2]. by rewrite read_wireaddr, read_u16.
  - destruct H as (H1 & H2 & H3). by rewrite read_array, terminates, read_u16.
  - by rewrite read_wireaddr.
  - destruct H as (H1 & H2 & H3). by rewrite read_wireaddr, read_array, read_u16.
Qed.

(** What may follow the addresses of an array, and what becomes of them: nothing or a type that
    is not known ends the array, and an address that is cut short spoils it. *)
Inductive array_end : bytes -> option (list wireaddr) -> Prop :=
| End_here : array_end [] (Some [])
| End_unknown (t : Z) (r : bytes) : (0 <= t < 256)%Z -> type_addrlen t = None -> array_end (towire_u8 t ++ r) (Some [])
| End_cut (t : Z) (n : nat) (r : bytes) : type_addrlen t = Some n -> length r < n + 2 -> array_end (towire_u8 t ++ r) None.

Lemma read_cut t n r old : type_addrlen t = Some n -> length r < n + 2 -> exists a, fromwire_wireaddr (Some (towire_u8 t ++ r)) old = (false, a, None).
Proof.
  intros Ht Hr. unfold fromwire_wireaddr. rewrite read_u8 by (by eapply type_known). rewrite Ht. cbn [fromwire].
  destruct (Nat.ltb_spec (length r) n); [by eexists|]. unfold fromwire_u16. cbn [fromwire]. rewrite length_drop, (proj2 (Nat.ltb_lt _ _)) by lia.
  by eexists.
Qed.

Lemma read_array_loop l e res : Forall wireaddr_ok l -> array_end e res -> forall f, length (concat (map towire_wireaddr l) ++ e) <= f ->
  wireaddr_array_loop f (concat (map towire_wireaddr l) ++ e) = (app l <$> res).
Proof.
  intros Hl He. induction Hl as [|a l Ha Hl IH]; intros f Hf; cbn [map concat app] in *.
  - destruct He as [|t r Ht Hn|t n r Hn Hr]; [by destruct f|..]; destruct f as [|f]; try (cbn in Hf; lia).
    + assert (E : fromwire_wireaddr (Some (towire_u8 t ++ r)) (WireAddr 0 [] 0) = (false, WireAddr t [] 0, Some r)).
      { unfold fromwire_wireaddr. by rewrite read_u8, Hn. }
      change (match fromwire_wireaddr (Some (towire_u8 t ++ r)) (WireAddr 0 [] 0) with
        | (false, _, None) => None | (false, _, Some _) => Some [] | (true, a, Some r) => cons a <$> wireaddr_array_loop f r | (true, a, None) => Some [a] end = Some ([] ++ [])).
      by rewrite E.
    + destruct (read_cut t n r (WireAddr 0 [] 0) Hn Hr) as [a E].
      change (match fromwire_wireaddr (Some (towire_u8 t ++ r)) (WireAddr 0 [] 0) with
        | (false, _, None) => None | (false, _, Some _) => Some [] | (true, a, Some r) => cons a <$> wireaddr_array_loop f r | (true, a, None) => Some [a] end = None).
      by rewrite E.
  - rewrite <- app_assoc in *. set (rest := concat _ ++ e) in *. destruct f as [|f]; [cbn in Hf; lia|].
    change (match fromwire_wireaddr (Some (towire_wireaddr a ++ rest)) (WireAddr 0 [] 0) with
      | (false, _, None) => None | (false, _, Some _) => Some [] | (true, a, Some r) => cons a <$> wireaddr_array_loop f r | (true, a, None) => Some [a] end = (app (a :: l) <$> res)).
    rewrite read_wireaddr by done. rewrite IH by (rewrite length_app in Hf; cbn in Hf; lia). by destruct res.
Qed.

(** Addresses are read back from the wire: alone, with the internal ones, and in an array, which
    ends at the first address of a type that is not known, and is NULL when the last address is
    cut short. *)
Theorem wireaddr_wire_roundtrip :
  (forall a old rest, wireaddr_ok a -> fromwire_wireaddr (Some (towire_wireaddr a ++ rest)) old = (true, a, Some rest)) /\
  (forall a old rest, internal_ok a -> fromwire_wireaddr_internal (Some (towire_wireaddr_internal a ++ rest)) old = (Some a, Some rest)) /\
  (forall l e res, Forall wireaddr_ok l -> array_end e res -> fromwire_wireaddr_array (concat (map towire_wireaddr l) ++ e) = (app l <$> res)).
Proof.
  split_and!; [intros; by apply read_wireaddr|intros; by apply read_internal|].
  intros l e res Hl He. unfold fromwire_wireaddr_array. by apply read_array_loop.
Qed.

(** The internal forms do not check the type of the address of a Tor service: one that is not
    known is taken, with what the memory held before. *)
Theorem unknown_service_taken old :
  fromwire_wireaddr_internal (Some [chr 2; chr 99; chr 1; chr 2]) old = (Some (ADDR_INTERNAL_AUTOTOR (WireAddr 99 (waddr old) (wport old)) 258), Some []).
Proof. reflexivity. Qed.

(** * Texts *)

(** What the documentation of [inet_pton] and [inet_ntop] says of the texts of the two families:
    they consist of digits and dots, or of hexadecimal digits, colons and dots, and an address
    that is printed is read back. *)
Definition ipv4_char (c : ascii) : bool := isdigit c || ch_eqb c "."%char.
Definition ipv6_char (c : ascii) : bool := isxdigit c || ch_eqb c ":"%char || ch_eqb c "."%char.

Record Inet (inet_ntop4 inet_ntop6 inet_pton4 inet_pton6 : bytes -> option bytes) : Prop := {
  pton4_text s a : inet_pton4 s = Some a -> forallb ipv4_char s = true;
  pton6_text s a : inet_pton6 s = Some a -> forallb ipv6_char s = true;
  ntop4_read a : length a = 4 -> exists s, inet_ntop4 a = Some s /\ inet_pton4 s = Some a /\ "."%char ∈ s;
  ntop6_read a : length a = 16 -> exists s, inet_ntop6 a = Some s /\ inet_pton6 s = Some a /\ ":"%char ∈ s }.

(** ** Characters *)

(** A text of characters that pass a test has none that fails it. *)
Lemma class_not_in (p : ascii -> bool) s c : forallb p s = true -> p c = false -> c ∉ s.
Proof. intros H Hc Hin. rewrite forallb_forall in H. apply list_elem_of_In, H in Hin. congruence. Qed.

Lemma class_no_nul (p : ascii -> bool) s : forallb p s = true -> p NUL = false -> no_nul s.
Proof. intros H Hp. apply Forall_forall. intros c Hc ->. by apply (class_not_in p s NUL). Qed.

Lemma memchr_behind c s r : c ∉ s -> memchr c (s ++ c :: r) = Some (length s).
Proof.
  intros H. apply memchr_app, forallb_forall. intros x Hx. apply negb_true_iff, Ascii.eqb_neq. intros ->. by apply H, list_elem_of_In.
Qed.

Lemma strrchr_None c s : c ∉ s -> strrchr s c = None.
Proof.
  induction s as [|x r IH]; intros H; [done|]. cbn. rewrite IH by set_solver. unfold ch_eqb. destruct (Ascii.eqb_spec x c) as [->|]; [set_solver|done].
Qed.

Lemma strrchr_behind c s r : c ∉ r -> strrchr (s ++ c :: r) c = Some (length s).
Proof.
  intros H. induction s as [|x s IH]; cbn; [|by rewrite IH]. rewrite strrchr_None by done. unfold ch_eqb. by rewrite Ascii.eqb_refl.
Qed.

(** A printed number is what [strtol] reads. *)
Lemma strtol_fmt z : (0 <= z <= LLONG_MAX)%Z -> strtol (fmt_u z) = (z, []).
Proof.
  intros Hz. unfold strtol, fmt_u.
  assert (Hz' : (0 <= z < 10 ^ Z.of_nat 20)%Z) by (change (10 ^ Z.of_nat 20)%Z with 100000000000000000000%Z; unfold LLONG_MAX in Hz; lia).
  destruct (fmt_u_head 20 z Hz' ltac:(lia)) as (d & r & E & Hd & _). destruct (digit_facts d Hd) as (F1 & F2 & F3 & _).
  pose proof (digits_fmt 20 z 0 [] Hz' ltac:(lia)) as D. rewrite app_nil_r, Z.mul_0_l, Z.add_0_l in D. cbn [digits] in D. rewrite Nat.add_0_r in D.
  assert (ES : skip_space (fmt_u_go 20 z) = (0, fmt_u_go 20 z)) by (rewrite E; cbn [skip_space]; by rewrite F1).
  assert (ET : take_sign (fmt_u_go 20 z) = (0, false, fmt_u_go 20 z)) by (rewrite E; cbn [take_sign]; by rewrite F2, F3).
  rewrite ES, ET, D. destruct (length (fmt_u_go 20 z)) eqn:EL; [by rewrite E in EL|].
  rewrite <- EL, drop_all. f_equal. unfold LLONG_MIN, LLONG_MAX in *. lia.
Qed.

Lemma port_text p : port_ok p -> forallb isdigit (fmt_u p) = true /\ fmt_u p <> [] /\ (p <> 0%Z -> read_port (fmt_u p) = (true, p)).
Proof.
  intros Hp. unfold port_ok in Hp. destruct (fmt_u_ok p ltac:(unfold u64_mod; lia)) as [_ HD]. split_and!; [done| |].
  - destruct (fmt_u_head 20 p) as (d & r & E & _); [change (10 ^ Z.of_nat 20)%Z with 100000000000000000000%Z; lia|lia|]. unfold fmt_u. by rewrite E.
  - intros H0. unfold read_port. rewrite strtol_fmt by (unfold LLONG_MAX; lia). rewrite Z.mod_small by lia. by rewrite (proj2 (Z.eqb_neq _ _)).
Qed.

(** ** Address and port *)

Lemma strstarts_cons c s d r : strstarts (c :: s) (d :: r) = bool_decide (c = d) && strstarts s r.
Proof. unfold strstarts, streq. cbn [length]. change (take (S (length r)) (c :: s)) with (c :: take (length r) s).
  repeat case_bool_decide; simplify_eq; try done; by exfalso; firstorder congruence. Qed.

(** A name without colons and brackets, a colon and a port. *)
Lemma separate_plain s p port : no_nul s -> ":"%char ∉ s -> "["%char ∉ s -> port_ok p -> p <> 0%Z ->
  separate_address_and_port (s ++ bs ":" ++ fmt_u p) port = (true, Some s, p).
Proof.
  intros Hn Hc Hb Hp H0. destruct (port_text p Hp) as (HD & HN & HR). specialize (HR H0). unfold separate_address_and_port.
  change (bs ":" ++ fmt_u p) with (":"%char :: fmt_u p).
  assert (Es : strstarts (s ++ ":"%char :: fmt_u p) (bs "[") = false).
  { destruct s as [|x r]; [done|]. change (bs "[") with ["["%char]. cbn [app]. rewrite strstarts_cons. rewrite bool_decide_eq_false_2; [done|set_solver]. }
  rewrite Es, memchr_behind by done.
  assert (Ec : ":"%char ∉ fmt_u p) by (by eapply class_not_in).
  rewrite strrchr_behind, bool_decide_eq_true_2 by done. cbn [negb orb].
  rewrite length_app. cbn [length]. rewrite (proj2 (Nat.eqb_neq _ _)) by (destruct (fmt_u p); [done|cbn; lia]).
  replace (drop (S (length s)) (s ++ ":"%char :: fmt_u p)) with (fmt_u p).
  - rewrite HR. unfold tal_strndup. by rewrite take_app_length, until_nul_id.
  - change (":"%char :: fmt_u p) with ([":"%char] ++ fmt_u p). rewrite app_assoc, drop_app_length'; [done|]. rewrite length_app. cbn. lia.
Qed.

(** A text in brackets. *)
Lemma separate_bracketed s p port : no_nul s -> "]"%char ∉ s -> port_ok p -> p <> 0%Z ->
  separate_address_and_port ((bs "[" ++ s ++ bs "]") ++ bs ":" ++ fmt_u p) port = (true, Some s, p).
Proof.
  intros Hn Hc Hp H0. destruct (port_text p Hp) as (_ & _ & HR). specialize (HR H0).
  replace ((bs "[" ++ s ++ bs "]") ++ bs ":" ++ fmt_u p) with (("["%char :: s) ++ "]"%char :: ":"%char :: fmt_u p) by (cbn; by rewrite <- app_assoc).
  unfold separate_address_and_port. rewrite memchr_behind by set_solver.
  assert (Es : strstarts (("["%char :: s) ++ "]"%char :: ":"%char :: fmt_u p) (bs "[") = true) by (change (bs "[") with ["["%char]; cbn [app]; by rewrite strstarts_cons).
  rewrite Es. replace (drop (S (length ("["%char :: s))) (("["%char :: s) ++ "]"%char :: ":"%char :: fmt_u p)) with (":"%char :: fmt_u p).
  - cbn [memchr]. unfold ch_eqb. rewrite Ascii.eqb_refl. cbn [fmap option_fmap option_map]. change (drop 1 (":"%char :: fmt_u p)) with (fmt_u p). rewrite HR.
    assert (El : length ("["%char :: s) - 1 = length s) by (cbn; lia). rewrite El. unfold tal_strndup. cbn [app].
    change (drop 1 ("["%char :: ?x)) with x. by rewrite take_app_length, until_nul_id.
  - change ("]"%char :: ":"%char :: fmt_u p) with (["]"%char] ++ (":"%char :: fmt_u p)). rewrite app_assoc, drop_app_length'; [done|]. rewrite length_app. cbn. lia.
Qed.

Lemma strstarts_at s pre i c : strstarts s pre = true -> pre !! i = Some c -> s !! i = Some c.
Proof.
  unfold strstarts, streq. intros H Hi. apply bool_decide_eq_true_1 in H. rewrite <- H in Hi. by apply lookup_take_Some in Hi as [Hi _].
Qed.

(** A text does not start with a prefix that has another character somewhere. *)
Lemma strstarts_not s pre i c d : s !! i = Some c -> pre !! i = Some d -> c <> d -> strstarts s pre = false.
Proof. intros H1 H2 N. apply not_true_is_false. intros H. pose proof (strstarts_at s pre i d H H2). congruence. Qed.

(** A text that is none of the special forms of an internal address. *)
Definition plain (s : bytes) : Prop :=
  "/"%char ∉ s /\ strstarts s (bs "/") = false /\ strstarts s (bs "autotor:") = false /\ strstarts s (bs "statictor:") = false.

Lemma no_slash s p : "/"%char ∉ s -> port_ok p -> "/"%char ∉ s ++ bs ":" ++ fmt_u p.
Proof.
  intros Hs Hp. destruct (port_text p Hp) as (HD & _). rewrite !not_elem_of_app. split_and!; [done| |by apply (class_not_in isdigit)].
  by apply (class_not_in (fun c => ch_eqb c ":"%char)).
Qed.

Lemma strends_app s e : strends (s ++ e) e = true.
Proof.
  unfold strends, streq. rewrite length_app, (proj2 (Nat.ltb_ge _ _)) by lia. replace (length s + length e - length e) with (length s) by lia.
  rewrite drop_app_length. by apply bool_decide_eq_true_2.
Qed.

Lemma streq_class (p : ascii -> bool) s t : forallb p s = true -> forallb p t = false -> streq s t = false.
Proof. intros H1 H2. apply bool_decide_eq_false_2. intros ->. congruence. Qed.

Lemma strcspn_none c s : c ∉ s -> strcspn s [c] = length s.
Proof.
  induction s as [|x r IH]; intros H; [done|]. cbn. destruct (Ascii.eqb_spec x c) as [->|_]; [set_solver|]. cbn. rewrite IH; [done|set_solver].
Qed.

(** A text without the delimiter is one part. *)
Lemma strsplit_one c s : s <> [] -> c ∉ s -> tal_strsplit s [c] STR_EMPTY_OK = [s].
Proof.
  intros Hs Hc. unfold tal_strsplit. destruct s as [|x r] eqn:E; [done|]. rewrite <- E in *.
  assert (EL : strsplit_loop (length s) s [c] STR_EMPTY_OK = take (length s) s :: strsplit_loop (length r) (drop (length s + 0) s) [c] STR_EMPTY_OK).
  { rewrite E at 1 2. cbn [strsplit_loop length]. rewrite <- E, strcspn_none, drop_all by done. by subst s. }
  rewrite EL, Nat.add_0_r, drop_all, firstn_all. by destruct (length r).
Qed.

Lemma until_nul_app s r : no_nul s -> until_nul (s ++ NUL :: r) = s.
Proof.
  induction 1 as [|c l Hc _ IH]; [done|]. cbn [app until_nul]. unfold ch_eqb. by rewrite (proj2 (Ascii.eqb_neq _ _) Hc), IH.
Qed.

Lemma until_nul_strncpy s n : no_nul s -> length s < n -> until_nul (strncpy s n) = s.
Proof.
  intros Hs Hl. unfold strncpy. rewrite take_ge by lia. replace (n - length s) with (S (n - length s - 1)) by lia. by apply until_nul_app.
Qed.

Section Texts.
Context (inet_ntop4 inet_ntop6 inet_pton4 inet_pton6 : bytes -> option bytes) (getaddrinfo : bytes -> bytes -> bytes + list addrinfo)
  (HI : Inet inet_ntop4 inet_ntop6 inet_pton4 inet_pton6).

Local Notation parse := (parse_wireaddr inet_pton4 inet_pton6 getaddrinfo).

Lemma pton4_not s : forallb ipv4_char s = false -> inet_pton4 s = None.
Proof. intros H. destruct (inet_pton4 s) as [a|] eqn:E; [|done]. apply (pton4_text _ _ _ _ HI) in E. congruence. Qed.
Lemma pton6_not s : forallb ipv6_char s = false -> inet_pton6 s = None.
Proof. intros H. destruct (inet_pton6 s) as [a|] eqn:E; [|done]. apply (pton6_text _ _ _ _ HI) in E. congruence. Qed.

(** The text of an address, its two parts, and what parsing makes of it. *)
Definition reads_as (a : wireaddr) (s ip : bytes) : Prop :=
  fmt_wireaddr inet_ntop4 inet_ntop6 a = Ret s /\ (forall port, separate_address_and_port s port = (true, Some ip, wport a)) /\ ip <> [] /\
  (forall defport no_dns, parse s defport no_dns = (inr a, false)) /\ plain s.

Lemma ipv4_reads_as addr p : length addr = 4 -> port_ok p -> p <> 0%Z -> exists s ip, reads_as (WireAddr ADDR_TYPE_IPV4 addr p) s ip.
Proof.
  intros Hl Hp H0. destruct (ntop4_read _ _ _ _ HI addr Hl) as (s & E1 & E2 & Hdot). pose proof (pton4_text _ _ _ _ HI s addr E2) as Hc.
  destruct (port_text p Hp) as (HD & HN & _).
  assert (Hsep : forall port, separate_address_and_port (s ++ bs ":" ++ fmt_u p) port = (true, Some s, p)).
  { intros port. apply separate_plain; [by eapply class_no_nul|by eapply class_not_in|by eapply class_not_in|done|done]. }
  exists (s ++ bs ":" ++ fmt_u p), s. split_and!.
  - unfold fmt_wireaddr, fmt_wireaddr_without_port. cbn [wtype waddr wport]. by rewrite E1.
  - done.
  - intros ->. by apply not_elem_of_nil in Hdot.
  - intros defport no_dns. unfold parse_wireaddr. rewrite Hsep, !(streq_class ipv4_char s) by done. rewrite E2.
    unfold wireaddr_from_ipv4. by rewrite take_ge by lia.
  - destruct s as [|c r]; [by apply not_elem_of_nil in Hdot|]. assert (Hc' : ipv4_char c = true) by (cbn in Hc; by destruct (ipv4_char c)).
    split_and!.
    + apply no_slash; [|done]. by apply (class_not_in ipv4_char).
    + apply (strstarts_not _ _ 0 c "/"%char); [done..|]. by intros ->.
    + apply (strstarts_not _ _ 0 c "a"%char); [done..|]. by intros ->.
    + apply (strstarts_not _ _ 0 c "s"%char); [done..|]. by intros ->.
Qed.

Lemma ipv6_reads_as addr p : length addr = 16 -> port_ok p -> p <> 0%Z -> exists s ip, reads_as (WireAddr ADDR_TYPE_IPV6 addr p) s ip.
Proof.
  intros Hl Hp H0. destruct (ntop6_read _ _ _ _ HI addr Hl) as (s & E1 & E2 & Hcolon). pose proof (pton6_text _ _ _ _ HI s addr E2) as Hc.
  assert (Hsep : forall port, separate_address_and_port ((bs "[" ++ s ++ bs "]") ++ bs ":" ++ fmt_u p) port = (true, Some s, p)).
  { intros port. apply separate_bracketed; [by eapply class_no_nul|by eapply class_not_in|done|done]. }
  exists ((bs "[" ++ s ++ bs "]") ++ bs ":" ++ fmt_u p), s. split_and!.
  - unfold fmt_wireaddr, fmt_wireaddr_without_port. cbn [wtype waddr wport]. by rewrite E1.
  - done.
  - intros ->. by apply not_elem_of_nil in Hcolon.
  - intros defport no_dns. unfold parse_wireaddr. rewrite Hsep, !(streq_class ipv6_char s) by done.
    assert (E4 : inet_pton4 s = None).
    { apply pton4_not, not_true_is_false. intros H. by apply (class_not_in ipv4_char s ":"%char). }
    rewrite E4, E2. unfold wireaddr_from_ipv6. by rewrite take_ge by lia.
  - split_and!.
    + apply no_slash; [|done]. rewrite !not_elem_of_app. split_and!; [by apply (class_not_in (fun c => ch_eqb c "["%char))|by apply (class_not_in ipv6_char)|by apply (class_not_in (fun c => ch_eqb c "]"%char))].
    + by apply (strstarts_not _ _ 0 "["%char "/"%char).
    + by apply (strstarts_not _ _ 0 "["%char "a"%char).
    + by apply (strstarts_not _ _ 0 "["%char "s"%char).
Qed.

(** A name that ends in .onion is not the text of another address. *)
Lemma onion_no_text s : forallb ipv4_char (s ++ bs ".onion") = false /\ forallb ipv6_char (s ++ bs ".onion") = false.
Proof. rewrite !forallb_app. split; apply andb_false_r. Qed.

Lemma onion_hostname t addr no_dns p s : b32_encode addr = Ret s -> b32_decode s = Some addr ->
  (t = ADDR_TYPE_TOR_V2 /\ length addr = TOR_V2_ADDRLEN \/ t = ADDR_TYPE_TOR_V3 /\ length addr = TOR_V3_ADDRLEN) ->
  wireaddr_from_hostname getaddrinfo (s ++ bs ".onion") p no_dns None = (Some [WireAddr t addr p], false, None).
Proof.
  intros E1 E2 Ht. unfold wireaddr_from_hostname. rewrite strends_app, length_app.
  replace (length s + length (bs ".onion") - length (bs ".onion")) with (length s) by lia. rewrite take_app_length, E2. change (default [] (Some addr)) with addr.
  destruct Ht as [[-> Hl]|[-> Hl]]; by rewrite Hl.
Qed.

Lemma onion_reads_as t addr p : (t = ADDR_TYPE_TOR_V2 /\ length addr = TOR_V2_ADDRLEN \/ t = ADDR_TYPE_TOR_V3 /\ length addr = TOR_V3_ADDRLEN) ->
  port_ok p -> p <> 0%Z -> exists s ip, reads_as (WireAddr t addr p) s ip.
Proof.
  intros Ht Hp H0. destruct (b32_roundtrip addr) as (s & E1 & E2 & E3 & E4).
  assert (Hs : forallb onion_char s = true) by (apply E4; destruct Ht as [[_ ->]|[_ ->]]; done).
  assert (Hls : 10 <= length s) by (rewrite E3; destruct Ht as [[_ ->]|[_ ->]]; vm_compute; lia).
  assert (Hon : forall c, c ∉ bs ".onion" -> onion_char c = false -> c ∉ s ++ bs ".onion") by (intros c H1 H2; apply not_elem_of_app; split; [by eapply class_not_in|done]).
  assert (Hnon : forall c, ch_in c (bs ".onion") = false -> c ∉ bs ".onion").
  { intros c H Hin. apply list_elem_of_In in Hin. assert (ch_in c (bs ".onion") = true); [|congruence]. apply existsb_exists. exists c. by rewrite Ascii.eqb_refl. }
  assert (Hsep : forall port, separate_address_and_port ((s ++ bs ".onion") ++ bs ":" ++ fmt_u p) port = (true, Some (s ++ bs ".onion"), p)).
  { intros port. apply separate_plain; [|by apply Hon; [apply Hnon|]|by apply Hon; [apply Hnon|]|done|done].
    apply Forall_app. split; [by eapply class_no_nul|by apply no_nul_true]. }
  destruct (onion_no_text s) as [N4 N6].
  exists ((s ++ bs ".onion") ++ bs ":" ++ fmt_u p), (s ++ bs ".onion"). split_and!.
  - unfold fmt_wireaddr, fmt_wireaddr_without_port. cbn [wtype waddr wport]. destruct Ht as [[-> _]|[-> _]]; cbn [Z.eqb Pos.eqb orb]; by rewrite E1.
  - done.
  - by destruct s.
  - intros defport no_dns. unfold parse_wireaddr. rewrite Hsep.
    assert (Hdot : "."%char ∈ s ++ bs ".onion") by (apply elem_of_app; right; change (bs ".onion") with ("."%char :: bs "onion"); apply elem_of_cons; by left).
    assert (HL : forall l, ch_in "."%char l = false -> streq (s ++ bs ".onion") l = false).
    { intros l Hl. apply bool_decide_eq_false_2. intros E. rewrite E in Hdot. apply list_elem_of_In in Hdot.
      assert (ch_in "."%char l = true); [|congruence]. apply existsb_exists. by exists "."%char. }
    rewrite !HL by done. rewrite pton4_not, pton6_not by done. by rewrite (onion_hostname t addr no_dns p s).
  - assert (HA : forall i, i < 10 -> exists c, ((s ++ bs ".onion") ++ bs ":" ++ fmt_u p) !! i = Some c /\ onion_char c = true).
    { intros i Hi. destruct (lookup_lt_is_Some_2 s i ltac:(lia)) as [c Hc]. exists c. rewrite <- app_assoc, lookup_app_l by lia. split; [done|].
      rewrite forallb_forall in Hs. by apply Hs, list_elem_of_In, (list_elem_of_lookup_2 _ i). }
    split_and!.
    + apply no_slash; [|done]. by apply Hon; [apply Hnon|].
    + destruct (HA 0 ltac:(lia)) as (c & Hc & Ho). apply (strstarts_not _ _ 0 c "/"%char); [done..|]. by intros ->.
    + destruct (HA 7 ltac:(lia)) as (c & Hc & Ho). apply (strstarts_not _ _ 7 c ":"%char); [done..|]. by intros ->.
    + destruct (HA 9 ltac:(lia)) as (c & Hc & Ho). apply (strstarts_not _ _ 9 c ":"%char); [done..|]. by intros ->.
Qed.

Lemma address_reads_as a : wireaddr_ok a -> wport a <> 0%Z -> exists s ip, reads_as a s ip.
Proof.
  destruct a as [t addr p]. cbn [wport]. intros [Ht Hp] H0. cbn [wtype waddr wport] in *. unfold type_addrlen in Ht.
  destruct (Z.eqb_spec t ADDR_TYPE_IPV4) as [->|_]; [injection Ht as Ht; by apply ipv4_reads_as|].
  destruct (Z.eqb_spec t ADDR_TYPE_IPV6) as [->|_]; [injection Ht as Ht; by apply ipv6_reads_as|].
  destruct (Z.eqb_spec t ADDR_TYPE_TOR_V2) as [->|_]; [injection Ht as Ht; apply onion_reads_as; auto|].
  destruct (Z.eqb_spec t ADDR_TYPE_TOR_V3) as [->|_]; [injection Ht as Ht; apply onion_reads_as; auto|done].
Qed.

Definition magic_blob : bytes := STATIC_TOR_MAGIC_STRING ++ repeat NUL (BLOB_SIZE - length STATIC_TOR_MAGIC_STRING).

(** A name that has to be looked up. *)
Definition unresolved_ok_name (name : bytes) : Prop :=
  no_nul name /\ length name < NAME_SIZE /\ name <> [] /\ ":"%char ∉ name /\ "["%char ∉ name /\ name <> bs "localhost" /\ name <> bs "ip6-localhost" /\
  inet_pton4 name = None /\ inet_pton6 name = None /\ strends name (bs ".onion") = false.

(** The internal addresses whose text says everything, for a parser with these flags. *)
Definition text_ok (wildcard_ok dns_ok unresolved_ok allow_deprecated : bool) (a : wireaddr_internal) : Prop :=
  match a with
  | ADDR_INTERNAL_SOCKNAME s => exists path, s = strncpy path SOCKNAME_SIZE /\ no_nul path /\ length path < SOCKNAME_SIZE /\ strstarts path (bs "/") = true
  | ADDR_INTERNAL_ALLPROTO p => wildcard_ok = true /\ port_ok p /\ p <> 0%Z
  | ADDR_INTERNAL_AUTOTOR w p => wireaddr_ok w /\ wport w <> 0%Z /\ p = DEFAULT_PORT
  | ADDR_INTERNAL_FORPROXY n p => dns_ok = false /\ unresolved_ok = true /\ port_ok p /\ p <> 0%Z /\
      exists name, n = strncpy name NAME_SIZE /\ unresolved_ok_name name /\ plain (name ++ bs ":" ++ fmt_u p)
  | ADDR_INTERNAL_WIREADDR w => wireaddr_ok w /\ wport w <> 0%Z /\ (allow_deprecated = true \/ wtype w <> ADDR_TYPE_TOR_V2)
  | ADDR_INTERNAL_STATICTOR w p b => wireaddr_ok w /\ wport w <> 0%Z /\ p = DEFAULT_PORT /\ b = magic_blob
  end.

Local Notation parse_internal := (parse_wireaddr_internal inet_pton4 inet_pton6 getaddrinfo).
Local Notation fmt_internal := (fmt_wireaddr_internal inet_ntop4 inet_ntop6).

(** The texts of Tor services have one part, behind the prefix. *)
Lemma service_parts pre w s ip : reads_as w s ip -> pre <> [] -> "/"%char ∉ pre ->
  tal_strsplit (pre ++ s) (bs "/") STR_EMPTY_OK = [pre ++ s] /\ service_addr [pre ++ s] pre = s.
Proof.
  intros (_ & _ & _ & _ & Hp & _) Hne Hpre. split.
  - apply (strsplit_one "/"%char); [by destruct pre|]. apply not_elem_of_app. done.
  - unfold service_addr. cbn [hd]. apply drop_app_length.
Qed.

Lemma strstarts_self pre s : strstarts (pre ++ s) pre = true.
Proof. unfold strstarts, streq. rewrite take_app_length. by apply bool_decide_eq_true_2. Qed.

Lemma unresolved_parse name p defport : unresolved_ok_name name -> port_ok p -> p <> 0%Z ->
  separate_address_and_port (name ++ bs ":" ++ fmt_u p) defport = (true, Some name, p) /\
  exists e, parse (name ++ bs ":" ++ fmt_u p) defport true = (inl e, true).
Proof.
  intros (Hn & Hl & Hne & Hc & Hb & HL1 & HL2 & H4 & H6 & Ho) Hp H0.
  assert (Hsep : separate_address_and_port (name ++ bs ":" ++ fmt_u p) defport = (true, Some name, p)) by (by apply separate_plain).
  split; [done|]. unfold parse_wireaddr. rewrite Hsep. unfold streq. rewrite !bool_decide_eq_false_2 by done. rewrite H4, H6.
  unfold wireaddr_from_hostname. rewrite Ho. by eexists.
Qed.

Lemma internal_reads_as a port w d u dep : text_ok w d u dep a -> exists s, fmt_internal a = Ret s /\ parse_internal s port w d u dep = inr a.
Proof.
  destruct a as [n|p|w' p|n p|w'|w' p b]; cbn [text_ok fmt_wireaddr_internal]; unfold parse_wireaddr_internal.
  - intros (path & -> & Hn & Hl & Hs). exists path. rewrite until_nul_strncpy by done. split; [done|]. rewrite Hs.
    by rewrite (proj2 (Nat.leb_gt _ _)) by lia.
  - intros (-> & Hp & H0). exists ([] ++ bs ":" ++ fmt_u p). split; [done|].
    rewrite !(strstarts_not _ _ 0 ":"%char _) by (reflexivity || done). rewrite separate_plain by (done || constructor || apply not_elem_of_nil). done.
  - intros (Hw & H0 & ->). destruct (address_reads_as w' Hw H0) as (s & ip & HR). exists (bs "autotor:" ++ s).
    destruct (service_parts (bs "autotor:") w' s ip HR) as [E1 E2]; [done|by apply (class_not_in (fun c => negb (ch_eqb c "/"%char)))|].
    destruct HR as (HF & _ & _ & HP & _). rewrite HF. split; [done|]. rewrite (strstarts_not _ _ 0 "a"%char "/"%char) by done.
    rewrite strstarts_self, E1. cbn [tl autotor_parts]. by rewrite E2, HP.
  - intros (-> & -> & Hp & H0 & name & -> & Hname & Hs). exists (name ++ bs ":" ++ fmt_u p).
    pose proof Hname as (Hn & Hl & Hne & _). rewrite until_nul_strncpy by done. split; [done|].
    destruct Hs as (_ & -> & -> & ->). cbn [negb]. destruct (unresolved_parse name p port Hname Hp H0) as [-> [e ->]].
    assert (EN : streq (default [] (Some name)) [] = false) by (by apply bool_decide_eq_false_2). rewrite EN, andb_false_r. cbn [negb orb].
    unfold wireaddr_from_unresolved. change (default [] (Some name)) with name. by rewrite (proj2 (Nat.leb_gt _ _)) by lia.
  - intros (Hw & H0 & Hdep). destruct (address_reads_as w' Hw H0) as (s & ip & HF & Hsep & Hip & HP & _ & P1 & P2 & P3).
    exists s. split; [done|]. rewrite P1, P2, P3, Hsep. assert (EN : streq (default [] (Some ip)) [] = false) by (by apply bool_decide_eq_false_2).
    rewrite EN, andb_false_r, HP. destruct Hdep as [->|N]; [done|]. by rewrite (proj2 (Z.eqb_neq _ _) N), andb_false_r.
  - intros (Hw & H0 & -> & ->). destruct (address_reads_as w' Hw H0) as (s & ip & HR). exists (bs "statictor:" ++ s).
    destruct (service_parts (bs "statictor:") w' s ip HR) as [E1 E2]; [done|by apply (class_not_in (fun c => negb (ch_eqb c "/"%char)))|].
    destruct HR as (HF & _ & _ & HP & _). rewrite HF. split; [done|]. rewrite (strstarts_not _ _ 0 "s"%char "/"%char) by done.
    rewrite (strstarts_not _ _ 0 "s"%char "a"%char) by done. rewrite strstarts_self, E1. cbn [tl statictor_parts]. by rewrite E2, HP.
Qed.
End Texts.

(** C32. The text of an address is read back: an address of any of the four types with a port gives a
    text that parses to it, without a lookup, whatever the default port and whether or not names
    may be looked up.  So are the internal addresses whose text says everything: paths of
    sockets, the wildcard, addresses, names that are not resolved, and Tor services with the
    default port and blob. *)
Theorem address_text_roundtrip inet_ntop4 inet_ntop6 inet_pton4 inet_pton6 getaddrinfo :
  Inet inet_ntop4 inet_ntop6 inet_pton4 inet_pton6 ->
  (forall a defport no_dns, wireaddr_ok a -> wport a <> 0%Z -> exists s, fmt_wireaddr inet_ntop4 inet_ntop6 a = Ret s /\
     parse_wireaddr inet_pton4 inet_pton6 getaddrinfo s defport no_dns = (inr a, false)) /\
  (forall a port wildcard_ok dns_ok unresolved_ok allow_deprecated,
     text_ok inet_pton4 inet_pton6 wildcard_ok dns_ok unresolved_ok allow_deprecated a -> exists s, fmt_wireaddr_internal inet_ntop4 inet_ntop6 a = Ret s /\
     parse_wireaddr_internal inet_pton4 inet_pton6 getaddrinfo s port wildcard_ok dns_ok unresolved_ok allow_deprecated = inr a).
Proof.
  intros HI. split; [|intros; by apply internal_reads_as].
  intros a defport no_dns Ha H0. destruct (address_reads_as _ _ _ _ getaddrinfo HI a Ha H0) as (s & ip & HF & _ & _ & HP & _). by exists s.
Qed.

(** Two families of functions as they are documented: four numbers with dots, and eight groups of
    four hexadecimal digits with colons. *)
Definition scan_dot (s : bytes) : option bytes :=
  match s with c :: r => if ch_eqb c "."%char then Some r else None | [] => None end.
Definition ntop4 (a : bytes) : option bytes :=
  match a with
  | [w; x; y; z] => Some (fmt_u (code w) ++ bs "." ++ fmt_u (code x) ++ bs "." ++ fmt_u (code y) ++ bs "." ++ fmt_u (code z))
  | _ => None
  end.
Definition pton4 (s : bytes) : option bytes :=
  if forallb ipv4_char s then
    '(w, s) ← scan_uint 256 s; s ← scan_dot s; '(x, s) ← scan_uint 256 s; s ← scan_dot s;
    '(y, s) ← scan_uint 256 s; s ← scan_dot s; '(z, s) ← scan_uint 256 s;
    match s with [] => Some [chr w; chr x; chr y; chr z] | _ => None end
  else None.
Fixpoint groups6 (n : nat) (a : bytes) : bytes :=
  match n with O => hex_encode a | S m => hex_encode (take 2 a) ++ bs ":" ++ groups6 m (drop 2 a) end.
Definition ntop6 (a : bytes) : option bytes := Some (groups6 7 a).
Definition pton6 (s : bytes) : option bytes :=
  if forallb ipv6_char s then hex_decode (List.filter (fun c => negb (ch_eqb c ":"%char)) s) 16 else None.

Lemma hexchar_ipv6 d : (0 <= d < 16)%Z -> ipv6_char (hexchar d) = true /\ ch_eqb (hexchar d) ":"%char = false.
Proof.
  intros H. assert (HD : forallb (fun n => ipv6_char (hexchar (Z.of_nat n)) && negb (ch_eqb (hexchar (Z.of_nat n)) ":"%char)) (seq 0 16) = true) by (vm_compute; done).
  rewrite forallb_forall in HD. specialize (HD (Z.to_nat d)). rewrite Z2Nat.id in HD by lia.
  apply andb_true_iff in HD as [H1 H2]; [|apply in_seq; lia]. by apply negb_true_iff in H2.
Qed.

Lemma hex_ipv6 a : forallb ipv6_char (hex_encode a) = true /\ List.filter (fun c => negb (ch_eqb c ":"%char)) (hex_encode a) = hex_encode a.
Proof.
  induction a as [|c a [IH1 IH2]]; [done|]. rewrite hex_encode_cons. cbn [forallb List.filter]. pose proof (code_range c).
  destruct (hexchar_ipv6 (code c / 16)) as [-> ->]; [split; [apply Z.div_pos; lia|apply Z.div_lt_upper_bound; lia]|].
  destruct (hexchar_ipv6 (code c mod 16)) as [-> ->]; [apply Z.mod_pos_bound; lia|]. cbn [negb andb]. by rewrite IH1, IH2.
Qed.

Lemma groups6_spec n : forall a, forallb ipv6_char (groups6 n a) = true /\ List.filter (fun c => negb (ch_eqb c ":"%char)) (groups6 n a) = hex_encode a.
Proof.
  induction n as [|n IH]; intros a; [apply hex_ipv6|]. cbn [groups6]. rewrite !forallb_app, !List.filter_app.
  destruct (hex_ipv6 (take 2 a)) as [-> ->], (IH (drop 2 a)) as [-> ->]. split; [done|].
  change (hex_encode (take 2 a) ++ hex_encode (drop 2 a) = hex_encode a). unfold hex_encode. rewrite <- flat_map_app. by rewrite take_drop.
Qed.

Lemma inet_documented : Inet ntop4 ntop6 pton4 pton6.
Proof.
  split.
  - intros s a. unfold pton4. by destruct (forallb ipv4_char s).
  - intros s a. unfold pton6. by destruct (forallb ipv6_char s).
  - intros [|w [|x [|y [|z [|]]]]] H; try done. eexists. split; [reflexivity|].
    assert (HF : forall c, forallb ipv4_char (fmt_u (code c)) = true).
    { intros c. pose proof (code_range c). destruct (fmt_u_ok (code c) ltac:(unfold u64_mod; lia)) as [_ HD]. rewrite forallb_forall in HD |- *.
      intros e He. unfold ipv4_char. by rewrite (HD e He). }
    assert (HS : forall c r, digits 10 (code c) r = (0, code c) -> scan_uint 256 (fmt_u (code c) ++ r) = Some (code c, r)).
    { intros c r Hr. pose proof (code_range c). rewrite scan_uint_fmt by (done || (unfold ULLONG_MAX, u64_mod; lia)). by rewrite Z.mod_small by lia. }
    assert (HC : forall c, chr (code c) = c) by (intros c; apply code_inj, code_chr, code_range).
    split.
    + unfold pton4. rewrite !forallb_app, !HF. cbn [andb forallb bs String.list_ascii_of_string]. rewrite HS by done. cbn [mbind option_bind app scan_dot].
      rewrite <- (app_nil_r (fmt_u (code z))). change (ch_eqb "."%char "."%char) with true. cbv iota. cbn [mbind option_bind].
      rewrite HS by done. cbn [mbind option_bind app scan_dot]. change (ch_eqb "."%char "."%char) with true. cbv iota. cbn [mbind option_bind].
      rewrite HS by done. cbn [mbind option_bind app scan_dot]. change (ch_eqb "."%char "."%char) with true. cbv iota. cbn [mbind option_bind].
      rewrite HS by done. cbn [mbind option_bind]. by rewrite !HC.
    + apply elem_of_app. right. apply elem_of_app. left. apply elem_of_cons. by left.
  - intros a Ha. eexists. split; [reflexivity|]. destruct (groups6_spec 7 a) as [H1 H2]. split.
    + unfold pton6. rewrite H1, H2, <- Ha. apply hex_decode_encode.
    + cbn [groups6]. apply elem_of_app. right. apply elem_of_app. left. apply elem_of_cons. by left.
Qed.

Lemma address_text_roundtrip_witness :
  (exists s, fmt_wireaddr ntop4 ntop6 (WireAddr ADDR_TYPE_IPV6 (repeat NUL 15 ++ [chr 1]) 9735) = Ret s /\
     parse_wireaddr pton4 pton6 (fun _ _ => inr []) s 1 true = (inr (WireAddr ADDR_TYPE_IPV6 (repeat NUL 15 ++ [chr 1]) 9735), false)) /\
  (exists s, fmt_wireaddr_internal ntop4 ntop6 (ADDR_INTERNAL_AUTOTOR (WireAddr ADDR_TYPE_TOR_V3 (repeat (chr 7) 35) 9051) 9735) = Ret s /\
     parse_wireaddr_internal pton4 pton6 (fun _ _ => inr []) s 1 true true true true = inr (ADDR_INTERNAL_AUTOTOR (WireAddr ADDR_TYPE_TOR_V3 (repeat (chr 7) 35) 9051) 9735)).
Proof.
  destruct (address_text_roundtrip ntop4 ntop6 pton4 pton6 (fun _ _ => inr []) inet_documented) as [H1 H2]. split.
  - apply H1; [split; [reflexivity|split; cbn; lia]|cbn; lia].
  - apply H2. split_and!; [split; [reflexivity|split; cbn; lia]|cbn; lia|reflexivity].
Defined.

(** A port is cut to 16 bits before it is looked at, and what follows a closing bracket is not
    looked at up to a colon. *)
Theorem port_cut_and_junk_skipped :
  separate_address_and_port (bs "host:65537") 9735 = (true, Some (bs "host"), 1%Z) /\
  separate_address_and_port (bs "[::1]junk") 9735 = (true, Some (bs "::1"), 9735%Z).
Proof. vm_compute. done. Qed.

(** The addresses that a lookup gives are those that its socket addresses were made of. *)
Theorem socket_address_roundtrip a : wireaddr_ok a -> (wtype a = ADDR_TYPE_IPV4 \/ wtype a = ADDR_TYPE_IPV6) ->
  exists ai, wireaddr_to_addrinfo a = Ret ai /\ addresses_of [ai] (wport a) = [a].
Proof.
  destruct a as [t addr p]. intros [Ht Hp] [E|E]; cbn [wtype waddr wport] in *; subst t; injection Ht as Ht; symmetry in Ht.
  - exists (AddrInfo AF_INET (sockaddr_in p addr)). split; [unfold wireaddr_to_addrinfo, wireaddr_to_ipv4; cbn [wtype waddr wport]; by rewrite Ht|].
    cbn [addresses_of flat_map ai_family ai_addr]. change (AF_INET =? AF_INET)%Z with true. cbn [app]. unfold wireaddr_from_ipv4, sin_addr.
    replace (drop 4 (sockaddr_in p addr)) with (addr ++ repeat NUL 8) by reflexivity. rewrite (take_app_length' addr) by done. by rewrite take_ge by lia.
  - exists (AddrInfo AF_INET6 (sockaddr_in6 p addr)). split; [unfold wireaddr_to_addrinfo, wireaddr_to_ipv6; cbn [wtype waddr wport]; by rewrite Ht|].
    cbn [addresses_of flat_map ai_family ai_addr]. change (AF_INET6 =? AF_INET)%Z with false. change (AF_INET6 =? AF_INET6)%Z with true. cbn [app].
    unfold wireaddr_from_ipv6, sin6_addr. replace (drop 8 (sockaddr_in6 p addr)) with (addr ++ repeat NUL 4) by reflexivity.
    rewrite (take_app_length' addr) by done. by rewrite take_ge by lia.
Qed.

(** ** Splitting and joining *)

Lemma strcspn_split c s : strcspn s [c] = length s \/ exists t r, s = t ++ c :: r /\ strcspn s [c] = length t.
Proof.
  induction s as [|x s IH]; [by left|]. cbn. destruct (Ascii.eqb_spec x c) as [->|N]; cbn; [right; by exists [], s|].
  destruct IH as [->|(t & r & -> & ->)]; [by left|]. right. by exists (x :: t), r.
Qed.

Lemma strsplit_round f s c : s <> [] -> strsplit_loop (S f) s [c] STR_EMPTY_OK =
  take (strcspn s [c]) s :: strsplit_loop f (drop (strcspn s [c] + (if strspn (drop (strcspn s [c]) s) [c] =? 0 then 0 else 1)) s) [c] STR_EMPTY_OK.
Proof. by destruct s. Qed.

(** Parts that are joined again are the text, less one delimiter at its end. *)
Theorem strsplit_strjoin c s : exists e, s = tal_strjoin (tal_strsplit s [c] STR_EMPTY_OK) [c] STR_NO_TRAIL ++ e /\ (e = [] \/ e = [c]).
Proof.
  unfold tal_strsplit. enough (H : forall f s, length s <= f -> exists e, s = tal_strjoin (strsplit_loop f s [c] STR_EMPTY_OK) [c] STR_NO_TRAIL ++ e /\ (e = [] \/ e = [c])) by (by apply H).
  clear s. induction f as [|f IH]; intros s Hs; [destruct s; [exists []; auto|cbn in Hs; lia]|].
  destruct (decide (s = [])) as [->|Hne]; [exists []; auto|]. rewrite strsplit_round by done.
  destruct (strcspn_split c s) as [->|(t & r & Es & ->)].
  - rewrite drop_all, Nat.add_0_r, drop_all, firstn_all. exists []. split; [|auto]. by destruct f; cbn; rewrite !app_nil_r.
  - subst s. rewrite take_app_length, drop_app_length. cbn [strspn ch_in existsb]. rewrite Ascii.eqb_refl. cbn [orb Nat.eqb].
    rewrite length_app in Hs. cbn in Hs. destruct (IH r ltac:(lia)) as (e & Er & He).
    replace (drop (length t + 1) (t ++ c :: r)) with r by (change (c :: r) with ([c] ++ r); rewrite app_assoc, drop_app_length'; [done|]; rewrite length_app; cbn; lia).
    destruct (strsplit_loop f r [c] STR_EMPTY_OK) as [|p ps] eqn:EL.
    + exists (c :: e). cbn in Er. subst e. cbn. rewrite app_nil_r. split; [done|]. destruct He as [->| ->]; [by right|].
      exfalso. cbn in Hs. destruct f; [lia|]. by cbn in EL.
    + exists e. split; [|done]. cbn [tal_strjoin] in Er |- *. rewrite <- !app_assoc. f_equal. cbn [app]. f_equal. rewrite Er at 1. rewrite <- !app_assoc. done.
Qed.
