(* ===== verification/EcTheorems.v ===== *)
(** The properties of the entity-component table (ecs/ec.c) and of the maps
    under it (ccan/strmap, ccan/intmap). *)
From S2P Require Import Prelude Utf8 Jsmn JsonTree JsmnProofs Json JsonProofs.
From S2P Require Import Strmap Intmap Ec EcProofs.
From Stdlib Require Import Sorted.

(** * Sample data for the witnesses *)

Definition sample_value : jv := JArr [SPACE] [Elem0 (JPrim (bs "1")); Elem [SPACE] (JStr (bs "two")) []].

Lemma sample_u32 : is_u32 5.
Proof. split; reflexivity || done. Qed.

(** A table with one component. *)
Definition single (k : Z) : ec := Ec 1 (Some (ILeaf k (Some (SLeaf (bs "foo") (cell_of (bs "foo") sample_value))))).

Lemma single_map k : intmap_to_map (entity_map (single k)) = {[k := Some (SLeaf (bs "foo") (cell_of (bs "foo") sample_value))]}.
Proof. reflexivity. Qed.

Lemma single_wf k : is_u32 k -> ec_wf (single k).
Proof.
  intros Hk. assert (Hn : no_nul (bs "foo")) by (by apply no_nul_true).
  split; [split; reflexivity || done|simpl; by apply u32_u64|..]; rewrite single_map.
  - by intros k' row [<- _]%lookup_singleton_Some.
  - intros k' row [_ <-]%lookup_singleton_Some. split; [done|]. apply insert_non_empty.
  - intros k' row n c [_ <-]%lookup_singleton_Some Hc. change (({[bs "foo" := cell_of (bs "foo") sample_value]} : gmap bytes ec_cell) !! n = Some c) in Hc.
    apply lookup_singleton_Some in Hc as [<- <-]. split; [done|]. by exists sample_value.
Qed.

Lemma single_in k : is_Some (ec_map (single k) !! k).
Proof. unfold ec_map. rewrite single_map, map_fmap_singleton, lookup_singleton_eq. eauto. Qed.

Lemma single_out k j : j <> k -> ec_map (single k) !! j = None.
Proof. intros Hj. unfold ec_map. by rewrite single_map, map_fmap_singleton, lookup_singleton_ne. Qed.

(** * The table *)

(** C10.  [ec_set_component] with a JSON datum on a well-formed table returns a
    well-formed table that is the old one, as a finite map of finite maps, with
    that component set to the datum's own text and tokens, whatever surrounds
    the datum in the buffer; a null datum detaches, and the last component to
    go takes the entity with it. *)
Theorem ec_set_component_refines e entity name b t v :
  ec_wf e -> is_u32 entity -> no_nul name -> holds b t v ->
  exists e', ec_set_component e entity name (Some b) (Some t) = Ret e' /\ ec_wf e' /\
    next_entity e' = next_entity e /\ ec_map e' = spec_set (ec_map e) entity name v.
Proof. apply ec_set_holds. Qed.

Lemma ec_set_component_refines_witness :
  exists e', ec_set_component ec_new 5 (bs "foo") (Some (text sample_value)) (Some (toks 0 sample_value)) = Ret e' /\
    ec_wf e' /\ next_entity e' = 1%Z /\ ec_map e' = spec_set (ec_map ec_new) 5 (bs "foo") sample_value.
Proof.
  apply (ec_set_component_refines ec_new 5 (bs "foo") (text sample_value) (toks 0 sample_value) sample_value).
  - apply ec_wf_new.
  - apply sample_u32.
  - apply no_nul_true. reflexivity.
  - apply holds_self. reflexivity.
Defined.



(** Round trip: a component set from the text of a datum, with any white
    space around it, reads back as the datum's text without that white space
    and with tokens that start at offset 0; every other component of every
    entity reads as before. *)
Theorem ec_datum_roundtrip e entity name w1 v w2 :
  ec_wf e -> is_u32 entity -> no_nul name ->
  ws_ok w1 = true -> ws_ok w2 = true -> jv_ok v = true -> jv_null v = false ->
  exists e', ec_set_component_datuml e entity name (Some (w1 ++ text v ++ w2)) = Ret e' /\
    ec_get_component e' entity name = (true, (text v, toks 0 v)) /\
    forall k n, (k, n) <> (entity, name) -> ec_get_component e' k n = ec_get_component e k n.
Proof.
  intros H He Hn H1 H2 Hv Hnull. destruct (ec_set_text e entity name w1 v w2 H He Hn H1 H2 Hv) as (e' & E & W & _ & M).
  exists e'. split; [done|].
  assert (G : forall k n, ec_cell_at e' k n = if decide ((k, n) = (entity, name)) then cell_after name v else ec_cell_at e k n)
    by (intros k n; unfold ec_cell_at; rewrite M; apply cell_in_set).
  split.
  - rewrite ec_get_component_spec, G, decide_True by done. unfold cell_after. by rewrite Hnull.
  - intros k n Hne. rewrite !ec_get_component_spec, G, decide_False by done. done.
Qed.

Lemma ec_datum_roundtrip_witness :
  exists e', ec_set_component_datuml ec_new 5 (bs "foo") (Some ([SPACE] ++ text sample_value ++ [LF])) = Ret e' /\
    ec_get_component e' 5 (bs "foo") = (true, (text sample_value, toks 0 sample_value)) /\
    forall k n, (k, n) <> (5%Z, bs "foo") -> ec_get_component e' k n = ec_get_component ec_new k n.
Proof.
  apply (ec_datum_roundtrip ec_new 5 (bs "foo") [SPACE] sample_value [LF]); try reflexivity.
  - apply ec_wf_new.
  - apply sample_u32.
  - apply no_nul_true. reflexivity.
Defined.

(** The names [ec_get_components] returns are exactly those attached, each
    once, in the order of [strcmp]; an entity without components gives NULL; the
    assertion on empty rows never fires. *)
Theorem ec_get_components_names e entity :
  ec_wf e ->
  match ec_map e !! entity with
  | None => ec_get_components e entity = Ret None
  | Some row =>
      exists names, ec_get_components e entity = Ret (Some names) /\ names <> [] /\ NoDup names /\
        StronglySorted (fun a b => strcmp_lt a b = true) names /\
        forall name, name ∈ names <-> is_Some (row !! name)
  end.
Proof. apply ec_get_components_spec. Qed.

Lemma ec_get_components_names_witness :
  match ec_map ec_new !! 5%Z with
  | None => ec_get_components ec_new 5 = Ret None
  | Some row =>
      exists names, ec_get_components ec_new 5 = Ret (Some names) /\ names <> [] /\ NoDup names /\
        StronglySorted (fun a b => strcmp_lt a b = true) names /\
        forall name, name ∈ names <-> is_Some (row !! name)
  end.
Proof. apply (ec_get_components_names ec_new 5). apply ec_wf_new. Defined.

(** The half-open range of [ec_get_entity_bounds] holds every entity in
    use and is tight at its lower end, as long as entity 0xFFFFFFFF is not in
    use. *)
Theorem ec_entity_bounds_cover e :
  ec_wf e -> ec_map e !! (u32_mod - 1)%Z = None -> ec_map e <> ∅ ->
  let '(min, max) := ec_get_entity_bounds e in
  is_Some (ec_map e !! min) /\ is_Some (ec_map e !! (max - 1)%Z) /\
  forall k, is_Some (ec_map e !! k) -> (min <= k < max)%Z.
Proof.
  intros H Hmax Hne. destruct (ec_bounds_spec e H) as [[? _]|(lo & hi & Hlo & Hhi & Hu & -> & HB)]; [done|].
  assert (hi <> u32_mod - 1)%Z by (intros ->; rewrite Hmax in Hhi; by destruct Hhi).
  unfold is_u32 in Hu. unfold wrap32. rewrite Z.mod_small by lia. split_and!; [done| |].
  - by replace (hi + 1 - 1)%Z with hi by lia.
  - intros k Hk. specialize (HB k Hk). lia.
Qed.

Lemma ec_entity_bounds_cover_witness :
  let '(min, max) := ec_get_entity_bounds (single 7) in
  is_Some (ec_map (single 7) !! min) /\ is_Some (ec_map (single 7) !! (max - 1)%Z) /\
  forall k, is_Some (ec_map (single 7) !! k) -> (min <= k < max)%Z.
Proof.
  apply (ec_entity_bounds_cover (single 7)).
  - apply (single_wf 7); split; reflexivity || done.
  - apply single_out. discriminate.
  - intros E. destruct (single_in 7) as [r Hr]. rewrite E, lookup_empty in Hr. discriminate Hr.
Defined.

(** When entity 0xFFFFFFFF is in use the upper bound wraps to 0, so that a
    loop from the lower to the upper bound visits no entity at all. *)
Theorem ec_entity_bounds_wrap e :
  ec_wf e -> is_Some (ec_map e !! (u32_mod - 1)%Z) -> (ec_get_entity_bounds e).2 = 0%Z.
Proof.
  intros H Hs. destruct (ec_bounds_spec e H) as [[E ?]|(lo & hi & _ & _ & Hu & -> & HB)].
  - rewrite E in Hs. by destruct Hs.
  - specialize (HB _ Hs). unfold is_u32 in Hu. assert (hi = u32_mod - 1)%Z as -> by lia. reflexivity.
Qed.

Lemma ec_entity_bounds_wrap_witness : (ec_get_entity_bounds (single 4294967295)).2 = 0%Z.
Proof.
  apply (ec_entity_bounds_wrap (single 4294967295)).
  - apply (single_wf 4294967295); split; reflexivity || done.
  - apply single_in.
Defined.

(** The identifiers [n] calls of [ec_newentity] return. *)
Fixpoint newentities (n : nat) (e : ec) : list Z * ec :=
  match n with
  | O => ([], e)
  | S m => let '(k, e1) := ec_newentity e in let '(ks, e2) := newentities m e1 in (k :: ks, e2)
  end.

Lemma newentities_from n : forall e, is_u32 (next_entity e) ->
  (newentities n e).1 = map (fun i => wrap32 (next_entity e + Z.of_nat i)) (seq 0 n) /\
  entity_map (newentities n e).2 = entity_map e.
Proof.
  induction n as [|n IH]; intros e He; [done|]. cbn [newentities ec_newentity].
  destruct (IH (Ec (wrap32 (next_entity e + 1)) (entity_map e)) ltac:(by apply Z.mod_pos_bound)) as [H1 H2].
  destruct (newentities n _) as [ks e2]. cbn [fst snd next_entity entity_map seq map] in *. split; [|done].
  f_equal; [unfold wrap32; rewrite Z.add_0_r, Z.mod_small; done|]. rewrite H1, <- seq_shift, map_map. apply map_ext. intros i.
  unfold wrap32. rewrite Zplus_mod_idemp_l. f_equal. lia.
Qed.

(** Distinct offsets below 2^32 give distinct numbers. *)
Lemma wrap32_offset k i j : (0 <= i < u32_mod)%Z -> (0 <= j < u32_mod)%Z -> wrap32 (k + i) = wrap32 (k + j) -> i = j.
Proof.
  intros Hi Hj H. assert (HE : ((k + i - k) mod u32_mod = (k + j - k) mod u32_mod)%Z).
  { unfold wrap32 in H. rewrite Zminus_mod, H, <- Zminus_mod. done. }
  replace (k + i - k)%Z with i in HE by lia. replace (k + j - k)%Z with j in HE by lia. by rewrite !Z.mod_small in HE.
Qed.

(** Allocation: [n] calls return the numbers from the counter on, modulo
    2^32, and do not look at the table.  So up to 2^32 of them are distinct, the
    first 2^32 - 1 of a new table are 1, 2, 3 and so on, and the entity 2^32 calls
    later is the same again, in use or not. *)
Theorem ec_newentity_fresh e n :
  is_u32 (next_entity e) ->
  (newentities n e).1 = map (fun i => wrap32 (next_entity e + Z.of_nat i)) (seq 0 n) /\
  entity_map (newentities n e).2 = entity_map e /\
  ((Z.of_nat n <= u32_mod)%Z -> NoDup (newentities n e).1) /\
  (next_entity e = 1%Z -> (Z.of_nat n < u32_mod)%Z -> (newentities n e).1 = map (fun i => (1 + Z.of_nat i)%Z) (seq 0 n)) /\
  (forall i j k, Z.of_nat j = (Z.of_nat i + u32_mod)%Z -> j < n ->
     (newentities n e).1 !! i = Some k -> (newentities n e).1 !! j = Some k).
Proof.
  intros He. destruct (newentities_from n e He) as [-> ->]. split_and!; [done|done|..].
  - intros Hn. apply NoDup_fmap_2_strong; [|apply NoDup_ListNoDup, seq_NoDup].
    intros i j Hi%list_elem_of_In%in_seq Hj%list_elem_of_In%in_seq Hw. apply wrap32_offset in Hw; lia.
  - intros -> Hn. apply map_ext_in. intros i Hi%in_seq. unfold wrap32. rewrite Z.mod_small; lia.
  - intros i j k Hj Hn (i' & -> & [-> _]%lookup_seq)%list_lookup_fmap_Some. rewrite list_lookup_fmap, lookup_seq_lt by done.
    cbn [fmap option_fmap option_map]. f_equal. cbn [Nat.add]. rewrite Hj, Z.add_assoc. unfold wrap32.
    rewrite <- (Z.mod_add (next_entity e + Z.of_nat i) 1) by done. by rewrite Z.mul_1_l.
Qed.

Lemma ec_newentity_fresh_witness :
  (newentities 3 (Ec (u32_mod - 1) intmap_init)).1 = [u32_mod - 1; 0; 1]%Z /\
  NoDup (newentities 3 (Ec (u32_mod - 1) intmap_init)).1.
Proof.
  destruct (ec_newentity_fresh (Ec (u32_mod - 1) intmap_init) 3) as (H1 & _ & H2 & _).
  - split; done.
  - split; [exact H1|apply H2; done].
Defined.

(** * The maps underneath *)

(** C36.  The critbit string map is a finite map: adding a new key inserts it,
    adding an old one is refused, deleting removes exactly that key and returns
    its value, and lookups agree with the finite map, on every well-formed tree
    and with the tree still well formed. *)
Theorem strmap_refines {A : Type} (m : strmap A) (k : bytes) (v : A) :
  strmap_wf m -> no_nul k ->
  strmap_get m k = strmap_to_map m !! k /\
  (let '(added, m') := strmap_add m k v in
   strmap_wf m' /\ added = bool_decide (strmap_to_map m !! k = None) /\
   strmap_to_map m' = if added then <[k := v]> (strmap_to_map m) else strmap_to_map m) /\
  (let '(old, m') := strmap_del m k in
   strmap_wf m' /\ old = strmap_to_map m !! k /\ strmap_to_map m' = delete k (strmap_to_map m)).
Proof.
  intros W Hk. split_and!.
  - by apply strmap_get_map.
  - destruct (strmap_to_map m !! k) as [w|] eqn:E.
    + rewrite (strmap_add_present m k v w W E). rewrite bool_decide_false by done. done.
    + destruct (strmap_add_fresh m k v W Hk E) as (m' & -> & W' & M). rewrite bool_decide_true by done. done.
  - destruct (strmap_del_map m k W) as (H1 & H2 & H3). destruct (strmap_del m k) as [old m']. done.
Qed.

Lemma strmap_refines_witness :
  let m := (strmap_add strmap_init (bs "a") 1).2 in
  strmap_get m (bs "b") = strmap_to_map m !! bs "b" /\
  (let '(added, m') := strmap_add m (bs "b") 2 in
   strmap_wf m' /\ added = bool_decide (strmap_to_map m !! bs "b" = None) /\
   strmap_to_map m' = if added then <[bs "b" := 2]> (strmap_to_map m) else strmap_to_map m) /\
  (let '(old, m') := strmap_del m (bs "b") in
   strmap_wf m' /\ old = strmap_to_map m !! bs "b" /\ strmap_to_map m' = delete (bs "b") (strmap_to_map m)).
Proof. apply (strmap_refines (strmap_add strmap_init (bs "a") 1).2 (bs "b") 2); by apply no_nul_true. Defined.

Lemma foldl_names {A : Type} (l : list (bytes * A)) : forall acc,
  foldl (fun d kv => (true, d ++ [kv.1]).2) acc l = acc ++ l.*1.
Proof.
  induction l as [|kv l IH]; intros acc; csimpl; [by rewrite app_nil_r|]. rewrite IH. by rewrite <- app_assoc.
Qed.

(** [strmap_iterate] visits every key once, in the order of [strcmp]. *)
Theorem strmap_iterate_sorted {A : Type} (m : strmap A) :
  strmap_wf m ->
  let visited := strmap_iterate m (fun k _ acc => (true, acc ++ [k])) [] in
  StronglySorted (fun a b => strcmp_lt a b = true) visited /\
  forall k, k ∈ visited <-> is_Some (strmap_to_map m !! k).
Proof.
  intros W visited.
  assert (E : visited = (strmap_elements m).*1).
  { subst visited. rewrite strmap_iterate_elements by done. apply (foldl_names (strmap_elements m) []). }
  rewrite E. split.
  - destruct m as [n|]; [by apply keys_sorted|constructor].
  - intros k. split.
    + intros Hin. destruct (strmap_to_map m !! k) eqn:El; [done|]. by apply not_elem_of_list_to_map_2 in El.
    + intros [c Hc]. apply elem_of_list_to_map_2 in Hc. by apply (list_elem_of_fmap_2' fst _ (k, c)).
Qed.

Lemma strmap_iterate_sorted_witness :
  let m := (strmap_add strmap_init (bs "a") 1).2 in
  let visited := strmap_iterate m (fun k _ acc => (true, acc ++ [k])) [] in
  StronglySorted (fun a b => strcmp_lt a b = true) visited /\
  forall k, k ∈ visited <-> is_Some (strmap_to_map m !! k).
Proof. apply (strmap_iterate_sorted (strmap_add strmap_init (bs "a") 1).2). by apply no_nul_true. Defined.

(** C37.  The critbit integer map is a finite map on 64-bit keys, in the same
    sense. *)
Theorem intmap_refines {A : Type} (m : intmap A) (k : Z) (v : A) :
  intmap_wf m -> (0 <= k < u64_mod)%Z ->
  intmap_get m k = intmap_to_map m !! k /\
  (let '(added, m') := intmap_add m k v in
   intmap_wf m' /\ added = bool_decide (intmap_to_map m !! k = None) /\
   intmap_to_map m' = if added then <[k := v]> (intmap_to_map m) else intmap_to_map m) /\
  (let '(old, m') := intmap_del m k in
   intmap_wf m' /\ old = intmap_to_map m !! k /\ intmap_to_map m' = delete k (intmap_to_map m)).
Proof.
  intros W Hk. split_and!.
  - by apply intmap_get_map.
  - destruct (intmap_to_map m !! k) as [w|] eqn:E.
    + rewrite (intmap_add_present m k v w W Hk E). rewrite bool_decide_false by done. done.
    + destruct (intmap_add_fresh m k v W Hk E) as (m' & -> & W' & M). rewrite bool_decide_true by done. done.
  - destruct (intmap_del_map m k W) as (H1 & H2 & H3). destruct (intmap_del m k) as [old m']. done.
Qed.

Lemma intmap_refines_witness :
  let m := (intmap_add intmap_init 5 1).2 in
  intmap_get m 6 = intmap_to_map m !! 6%Z /\
  (let '(added, m') := intmap_add m 6 2 in
   intmap_wf m' /\ added = bool_decide (intmap_to_map m !! 6%Z = None) /\
   intmap_to_map m' = if added then <[6%Z := 2]> (intmap_to_map m) else intmap_to_map m) /\
  (let '(old, m') := intmap_del m 6 in
   intmap_wf m' /\ old = intmap_to_map m !! 6%Z /\ intmap_to_map m' = delete 6%Z (intmap_to_map m)).
Proof. apply (intmap_refines (intmap_add intmap_init 5 1).2 6 2); simpl; split; reflexivity || done. Defined.
