(* ===== verification/EcsTheorems.v ===== *)
(** The properties of the systems handler (ecs/ecsys.c, setsystems.c), of
    registration and dispatch (ecs/ecs.c, top.c) and of the built-in systems. *)
From S2P Require Import Prelude Utf8 Jsmn JsonTree JsmnProofs Json JsonProofs.
From S2P Require Import JsonEqual JsonOut JsonOutProofs JsonScan JsonScanProofs Libplugin.
From S2P Require Import Strmap Intmap Ec EcProofs Setsystems Ecsys EcsysProofs Ecs.
From S2P Require Import Systems Param PayecsData PayecsCode PayecsProofs.

(** * Sample data for the witnesses *)

(** A systems component with two names, and a table that has only it. *)
Definition sys_value : jv :=
  JObj [] [Member0 (bs "systems") (JArr [] [Elem0 (JStr (bs "first")); Elem0 (JStr (bs "second"))])].

Definition sys_table : ec := Ec 1 (Some (ILeaf 1 (Some (SLeaf syscomp (cell_of syscomp sys_value))))).

Lemma sys_table_wf : ec_wf sys_table.
Proof.
  assert (Hn : no_nul syscomp) by (by apply no_nul_true).
  split; [by apply u32_sample|simpl; split; reflexivity || done|..];
    change (intmap_to_map (entity_map sys_table)) with ({[1%Z := Some (SLeaf syscomp (cell_of syscomp sys_value))]} : gmap Z ec_entityrow).
  - intros k' row [<- _]%lookup_singleton_Some. by apply u32_sample.
  - intros k' row [_ <-]%lookup_singleton_Some. split; [done|]. apply insert_non_empty.
  - intros k' row n c [_ <-]%lookup_singleton_Some Hc.
    change (({[syscomp := cell_of syscomp sys_value]} : gmap bytes ec_cell) !! n = Some c) in Hc.
    apply lookup_singleton_Some in Hc as [<- <-]. split; [done|]. by exists sys_value.
Qed.

Lemma sys_table_fields : has_fields sys_table 1 (sys_fields sys_value).
Proof. right. exists sys_value. split_and!; reflexivity. Qed.

(** Two systems: the second one matches an entity with a systems component. *)
Definition first_sys : ecsys_registered := Registered (bs "first") [bs "missing"] [].
Definition second_sys : ecsys_registered := Registered (bs "second") [syscomp] [].

Definition two_systems : ecsys :=
  (strmap_add (strmap_add strmap_init (bs "first") first_sys).2 (bs "second") second_sys).2.

Lemma two_systems_wf : ecsys_wf two_systems.
Proof.
  destruct (register_fresh ecsys_new (bs "first") (Some [bs "missing"]) (Some [])) as (s1 & E1 & W1 & M1);
    [done|by apply no_nul_true|done|].
  destruct (register_fresh s1 (bs "second") (Some [syscomp]) (Some [])) as (s2 & E2 & W2 & M2);
    [done|by apply no_nul_true|by rewrite M1|].
  assert (E : s2 = two_systems) by (vm_compute in E1; simplify_eq; vm_compute in E2; by simplify_eq). subst s2.
  split; [done|]. rewrite M2, M1. intros n r Hl.
  apply lookup_insert_Some in Hl as [[<- <-]|[_ Hl]]; [split; [done|by apply no_nul_true]|].
  apply lookup_insert_Some in Hl as [[<- <-]|[_ Hl]]; [split; [done|by apply no_nul_true]|].
  by unfold strmap_to_map in Hl; simplify_map_eq.
Qed.

(** * Systems of an entity *)

(** A system matches an entity exactly when it requires at least one
    component, the entity has all the components it requires, and none of those
    it disallows.  (For every table that [get_component] can read.) *)
Theorem system_matches_characterised {E : Type} `{EcOps E} (e : E) entity s :
  system_matches e entity s = true <->
    requiredComponents s <> [] /\
    (forall c, c ∈ requiredComponents s -> attached e entity c = true) /\
    (forall c, c ∈ disallowedComponents s -> attached e entity c = false).
Proof. apply system_matches_iff. Qed.

(** C1.  [ecsys_advance] triggers the first system of the [systems] list that
    matches, provided all before it are registered: it sends one message, for
    that system, with the values of the required components, records the index
    in the [current] field, and changes nothing else. *)
Theorem ecsys_advance_first_match e sys k ms l1 name l2 s :
  ec_wf e -> ecsys_wf sys -> is_u32 k -> has_fields e k ms ->
  member_of ms (bs "systems") ≫= strings_of = Some (l1 ++ name :: l2) ->
  Forall (passed sys e k) l1 -> registered sys name s -> system_matches e k s = true ->
  exists e' vs,
    ecsys_advance sys e k = Ret (e', [Sent (text (notification ECSYS_SYSTEM_NOTIFICATION
      (invoke_params name k (zip (requiredComponents s) vs))) ++ [LF; LF])], AdvOk) /\
    ec_wf e' /\ Forall2 (reads e' k) (requiredComponents s) vs /\
    has_fields e' k (set_field (bs "current") (Some (JPrim (fmt_u (wrap32 (Z.of_nat (length l1)))))) ms) /\
    forall k' n', (k', n') <> (k, syscomp) -> ec_get_component e' k' n' = ec_get_component e k' n'.
Proof.
  intros He Hw Hk Hms Hl HP Hr Hm. pose proof (advance_spec e sys k ms He Hw Hk Hms) as HA. rewrite Hl in HA.
  assert (ES : forall i, search_systems sys e k i (l1 ++ name :: l2) = Found (i + length l1) s).
  { clear -HP Hr Hm. induction HP as [|x l1 (sx & Hx & Hn) _ IH]; intros i; cbn [app search_systems length].
    - rewrite Hr, Hm. f_equal. lia.
    - rewrite Hx, Hn, IH. f_equal. lia. }
  rewrite ES in HA. destruct HA as (e' & vs & Ea & We & Hv & Hf & Hfr).
  destruct (registered_no_nul _ _ _ Hw Hr) as [Hn _]. rewrite Hn in Ea. exists e', vs. split_and!; done.
Qed.

Lemma ecsys_advance_first_match_witness :
  exists e' vs,
    ecsys_advance two_systems sys_table 1 = Ret (e', [Sent (text (notification ECSYS_SYSTEM_NOTIFICATION
      (invoke_params (bs "second") 1 (zip [syscomp] vs))) ++ [LF; LF])], AdvOk) /\
    ec_wf e' /\ Forall2 (reads e' 1) [syscomp] vs /\
    has_fields e' 1 (set_field (bs "current") (Some (JPrim (fmt_u (wrap32 1)))) (sys_fields sys_value)) /\
    forall k' n', (k', n') <> (1%Z, syscomp) -> ec_get_component e' k' n' = ec_get_component sys_table k' n'.
Proof.
  apply (ecsys_advance_first_match sys_table two_systems 1 (sys_fields sys_value) [bs "first"] (bs "second") [] second_sys).
  - apply sys_table_wf.
  - apply two_systems_wf.
  - by apply u32_sample.
  - apply sys_table_fields.
  - reflexivity.
  - constructor; [|constructor]. exists first_sys. split; reflexivity.
  - reflexivity.
  - reflexivity.
Defined.

(** C2.  When no system can be triggered the advance fails with the documented
    code and writes it, with a message, into the [error] field: code 2200 when the
    [systems] field is not an array of strings, or when the first name that was
    not passed over is not registered, and 2201 when every name was passed over.
    Nothing is sent, and nothing else of the table changes. *)
Theorem ecsys_advance_failures e sys k ms :
  ec_wf e -> ecsys_wf sys -> is_u32 k -> has_fields e k ms ->
  match member_of ms (bs "systems") ≫= strings_of with
  | None => failed e k ms PAY_ECS_INVALID_SYSTEMS_COMPONENT msg_invalid (ecsys_advance sys e k)
  | Some systems =>
      (forall l1 name l2, systems = l1 ++ name :: l2 -> Forall (passed sys e k) l1 -> strmap_get sys name = None ->
         failed e k ms PAY_ECS_INVALID_SYSTEMS_COMPONENT (msg_unregistered name) (ecsys_advance sys e k)) /\
      (Forall (passed sys e k) systems ->
         failed e k ms PAY_ECS_NOT_ADVANCEABLE msg_no_match (ecsys_advance sys e k))
  end.
Proof.
  intros He Hw Hk Hms. pose proof (advance_spec e sys k ms He Hw Hk Hms) as HA.
  destruct (member_of ms (bs "systems") ≫= strings_of) as [systems|]; [|done]. split.
  - intros l1 name l2 -> HP Hn.
    assert (ES : forall i, search_systems sys e k i (l1 ++ name :: l2) = Unregistered name).
    { clear -HP Hn. induction HP as [|x l1 (sx & Hx & Hm) _ IH]; intros i; cbn [app search_systems]; [by rewrite Hn|by rewrite Hx, Hm, IH]. }
    by rewrite ES in HA.
  - intros HP. assert (ES : forall i, search_systems sys e k i systems = NoMatch).
    { clear -HP. induction HP as [|x l1 (sx & Hx & Hm) _ IH]; intros i; cbn [search_systems]; [done|by rewrite Hx, Hm, IH]. }
    by rewrite ES in HA.
Qed.

Lemma ecsys_advance_failures_witness :
  (forall l1 name l2, [bs "first"; bs "second"] = l1 ++ name :: l2 -> Forall (passed ecsys_new sys_table 1) l1 ->
     strmap_get ecsys_new name = None ->
     failed sys_table 1 (sys_fields sys_value) PAY_ECS_INVALID_SYSTEMS_COMPONENT (msg_unregistered name) (ecsys_advance ecsys_new sys_table 1)) /\
  (Forall (passed ecsys_new sys_table 1) [bs "first"; bs "second"] ->
     failed sys_table 1 (sys_fields sys_value) PAY_ECS_NOT_ADVANCEABLE msg_no_match (ecsys_advance ecsys_new sys_table 1)).
Proof.
  apply (ecsys_advance_failures sys_table ecsys_new 1 (sys_fields sys_value)).
  - apply sys_table_wf.
  - split; [exact I|]. intros n r Hl. discriminate Hl.
  - by apply u32_sample.
  - apply sys_table_fields.
Defined.

(** C31.  [ecsys_advance_done] always returns, with exactly one event: the
    message of the triggered system, or one log line with the failure's message;
    the assertion that re-reads that message never fires.  Only the systems
    component of the entity changes. *)
Theorem ecsys_advance_done_total e sys k :
  ec_wf e -> ecsys_wf sys -> is_u32 k ->
  exists e' ev, ecsys_advance_done sys e k = Ret (e', [ev]) /\ ec_wf e' /\
    (forall k' n', (k', n') <> (k, syscomp) -> ec_get_component e' k' n' = ec_get_component e k' n') /\
    ((exists b, ev = Sent b /\ exists evs, ecsys_advance sys e k = Ret (e', evs, AdvOk)) \/
     (exists level msg code, ev = Logged level msg /\ ecsys_advance sys e k = Ret (e', [], AdvErr code))).
Proof. intros He Hw Hk. apply (advance_done_spec e sys k (ec_inv _ He) Hw Hk). Qed.

Lemma ecsys_advance_done_total_witness :
  exists e' ev, ecsys_advance_done ecsys_new ec_new 3 = Ret (e', [ev]) /\ ec_wf e' /\
    (forall k' n', (k', n') <> (3%Z, syscomp) -> ec_get_component e' k' n' = ec_get_component ec_new k' n') /\
    ((exists b, ev = Sent b /\ exists evs, ecsys_advance ecsys_new ec_new 3 = Ret (e', evs, AdvOk)) \/
     (exists level msg code, ev = Logged level msg /\ ecsys_advance ecsys_new ec_new 3 = Ret (e', [], AdvErr code))).
Proof.
  apply (ecsys_advance_done_total ec_new ecsys_new 3).
  - apply ec_wf_new.
  - split; [exact I|]. intros n r Hl. discriminate Hl.
  - by apply u32_sample.
Defined.

(** C30.  Setting a field of the systems component: the field then reads as the
    value given, every other field reads as before, the component is an object
    even if it was not one before, and no other component changes. *)
Theorem setsystems_updates_field e k f b t v ms :
  ec_wf e -> is_u32 k -> str_ok f = true -> has_fields e k ms -> holds b t v ->
  exists e' ms', payz_generic_setsystems_tok e k f (Some b) (Some t) = Ret e' /\ ec_wf e' /\ has_fields e' k ms' /\
    (forall g, member_of ms' g = if decide (g = f) then Some v else member_of ms g) /\
    forall k' n', (k', n') <> (k, syscomp) -> ec_get_component e' k' n' = ec_get_component e k' n'.
Proof.
  intros He Hk Hf Hms Hh.
  destruct (setsystems_fields e k f (Some v) (Some b) (Some t) ms (ec_inv _ He) Hk Hf Hms) as (e' & E & We & HF & Hfr); [eauto|].
  exists e', (set_field f (Some v) ms). split_and!; try done. intros g. apply member_of_set.
Qed.

Lemma setsystems_updates_field_witness :
  exists e' ms', payz_generic_setsystems_tok sys_table 1 (bs "current") (Some (bs "7")) (Some (toks 0 (JPrim (bs "7")))) = Ret e' /\
    ec_wf e' /\ has_fields e' 1 ms' /\
    (forall g, member_of ms' g = if decide (g = bs "current") then Some (JPrim (bs "7")) else member_of (sys_fields sys_value) g) /\
    forall k' n', (k', n') <> (1%Z, syscomp) -> ec_get_component e' k' n' = ec_get_component sys_table k' n'.
Proof.
  apply (setsystems_updates_field sys_table 1 (bs "current") (bs "7") (toks 0 (JPrim (bs "7"))) (JPrim (bs "7"))).
  - apply sys_table_wf.
  - by apply u32_sample.
  - reflexivity.
  - apply sys_table_fields.
  - apply (holds_self (JPrim (bs "7"))). reflexivity.
Defined.

(** * Registration and dispatch *)

(** Registering an array of descriptors that declares systems with new,
    distinct names adds exactly those systems, and a built-in function for each
    that has one; the table is not touched and the invariant holds. *)
Theorem ecs_register_definitions {F : Type} (defs : list (sysdef F)) (s : ecs F) :
  ecs_wf s -> Forall def_ok defs -> NoDup (map d_name defs) -> (forall x, x ∈ defs -> sysmap s !! d_name x = None) ->
  exists s', ecs_register s (flat_map desc_of defs ++ [OVER_AND_OUT]) = Ret s' /\ ecs_wf s' /\
    ecs_ec s' = ecs_ec s /\ sysmap s' = foldl add_sys (sysmap s) defs /\ funcmap s' = foldl add_func (funcmap s) defs.
Proof. apply register_defs. Qed.

Lemma ecs_register_definitions_witness :
  exists s', ecs_register ecs_new (flat_map desc_of [Def (bs "a") (Some 1) [bs "c"] [bs "d"]] ++ [OVER_AND_OUT]) = Ret s' /\ ecs_wf s' /\
    ecs_ec s' = ec_new /\ sysmap s' = foldl add_sys (sysmap (F := nat) ecs_new) [Def (bs "a") (Some 1) [bs "c"] [bs "d"]] /\
    funcmap s' = foldl add_func (funcmap (F := nat) ecs_new) [Def (bs "a") (Some 1) [bs "c"] [bs "d"]].
Proof.
  apply (ecs_register_definitions [Def (bs "a") (Some 1) [bs "c"] [bs "d"]] ecs_new).
  - apply ecs_wf_new.
  - apply Forall_singleton. split; [apply no_nul_true; reflexivity|discriminate].
  - apply NoDup_singleton.
  - intros x _. reflexivity.
Defined.

(** A declaration with a disallowed component but no required one stops
    the process in the assertion [name && required], whatever follows it. *)
Theorem ecs_register_disallow_alone {F : Type} (s : ecs F) n c rest :
  ecs_register s (NAME n :: DISALLOW c :: rest) = Abort "ecs_register: name && required".
Proof. apply register_disallow_alone. Qed.

(** The plugin's set-up succeeds: it registers the ten built-in systems
    with their functions, its list of default systems is their names in order,
    and all of them are known to the handler. *)
Theorem setup_registers_builtins :
  exists s, setup_payz_top = Ret (Payz s (map d_name builtin_defs) strmap_init SYSTRACE_MAX []) /\ ecs_wf s /\
    sysmap s = foldl add_sys ∅ builtin_defs /\ funcmap s = foldl add_func ∅ builtin_defs /\
    forall x, x ∈ builtin_defs -> ecs_system_exists s (d_name x) = true.
Proof.
  destruct setup_spec as (s & E & W & _ & Es & Ef). exists s. split; [exact E|]. split; [exact W|].
  split; [exact Es|]. split; [exact Ef|]. intros x Hx. apply system_exists_map; [apply (wf_ecsys s W)|].
  pose proof (added_known builtin_defs ∅ x Hx) as Hk. rewrite <- Es in Hk. exact Hk.
Qed.

(** The message that [run_system] makes for a system with a built-in
    function reaches that function when it comes back as a notification: with
    the same entity, and with an object that has the required components. *)
Theorem notification_reaches_system {F : Type} call (s : ecs F) buf tk w k vs :
  ecs_wf s -> funcmap s !! w_name w = Some w -> json_escape_needed (w_name w) = false -> is_u32 k ->
  length (w_required w) = length vs -> holds buf tk (invoke_params (w_name w) k (zip (w_required w) vs)) ->
  exists t, holds buf t (entity_obj k (zip (w_required w) vs)) /\
    ecs_system_notify call s buf tk = call (w_func w) s k buf t.
Proof. apply notify_dispatch. Qed.

Definition sample_def : sysdef nat := Def (bs "a") (Some 1) [bs "c"] [].
Definition sample_wrapper : ecs_system_wrapper nat := Wrapper (bs "a") 1 [bs "c"].
Definition sample_ecs : ecs nat :=
  Ecs ec_new (Some (SLeaf (bs "a") (Registered (bs "a") [bs "c"] []))) (Some (SLeaf (bs "a") sample_wrapper)).

Lemma sample_ecs_wf : ecs_wf sample_ecs.
Proof.
  destruct (register_defs [sample_def] ecs_new ecs_wf_new) as (s & E & W & _).
  - apply Forall_singleton. split; [by apply no_nul_true|done].
  - apply NoDup_singleton.
  - done.
  - assert (Es : s = sample_ecs) by (vm_compute in E; by simplify_eq). by subst s.
Qed.

Definition sample_params : jv := invoke_params (bs "a") 7 [(bs "c", JPrim (bs "true"))].

Lemma notification_reaches_system_witness :
  exists t, holds (text sample_params) t (entity_obj 7 [(bs "c", JPrim (bs "true"))]) /\
    ecs_system_notify (fun f s k _ _ => Ret (s, [Logged LOG_DBG (fmt_u (k + Z.of_nat f))])) sample_ecs (text sample_params) (toks 0 sample_params)
    = Ret (sample_ecs, [Logged LOG_DBG (fmt_u 8)]).
Proof.
  apply (notification_reaches_system (fun f s k _ _ => Ret (s, [Logged LOG_DBG (fmt_u (k + Z.of_nat f))]))
    sample_ecs (text sample_params) (toks 0 sample_params) sample_wrapper 7 [JPrim (bs "true")]).
  - apply sample_ecs_wf.
  - reflexivity.
  - reflexivity.
  - by apply u32_sample.
  - reflexivity.
  - apply (holds_self sample_params). reflexivity.
Defined.

(** A message for a built-in system that lacks one of its required
    components is logged and dropped: the function is not called and nothing
    changes. *)
Theorem notification_needs_components {F : Type} call (s : ecs F) buf tk v w k c eo :
  ecs_wf s -> funcmap s !! w_name w = Some w -> is_u32 k ->
  holds buf tk v -> field_of v (bs "system") = Some (JStr (w_name w)) ->
  field_of v (bs "entity") = Some eo -> field_of eo (bs "entity") = Some (JPrim (fmt_u k)) ->
  c ∈ w_required w -> field_of eo c = None ->
  exists msg, ecs_system_notify call s buf tk = Ret (s, [Logged LOG_UNUSUAL msg]).
Proof. apply notify_missing. Qed.

Lemma notification_needs_components_witness :
  exists msg, ecs_system_notify (fun _ s _ _ _ => Ret (s, [])) sample_ecs (text (invoke_params (bs "a") 7 [])) (toks 0 (invoke_params (bs "a") 7 []))
    = Ret (sample_ecs, [Logged LOG_UNUSUAL msg]).
Proof.
  apply (notification_needs_components (fun _ s _ _ _ => Ret (s, [])) sample_ecs _ _ (invoke_params (bs "a") 7 []) sample_wrapper 7 (bs "c") (entity_obj 7 [])).
  - apply sample_ecs_wf.
  - reflexivity.
  - by apply u32_sample.
  - apply (holds_self (invoke_params (bs "a") 7 [])). reflexivity.
  - reflexivity.
  - reflexivity.
  - reflexivity.
  - apply list_elem_of_singleton. reflexivity.
  - reflexivity.
Defined.

(** * The built-in systems *)

(** The settings that have a default: function, component, datum. *)
Definition defaults : list (sysfn * bytes * jv) :=
  [(defaulter_riskfactor_fn, bs "lightningd:riskfactor", JPrim (bs "10"));
   (defaulter_maxfeepercent_fn, bs "lightningd:maxfeepercent", JPrim (bs "0.5"));
   (defaulter_retry_for_fn, bs "lightningd:retry_for", JPrim (bs "60"));
   (defaulter_exemptfee_fn, bs "lightningd:exemptfee", JStr (bs "5000msat"))].

(** Each defaulter attaches its default datum to the entity, changes no
    other component but the systems one, hands over to the next advance, and
    disables itself: the system that it is registered as no longer matches. *)
Theorem defaulters_set_defaults v (s : pecs) k buffer eo f c d r :
  ecs_wf s -> is_u32 k -> (f, c, d) ∈ defaults -> c ∈ disallowedComponents r ->
  exists s' ev, system_call v f s k buffer eo = Ret (s', [ev]) /\ ecs_wf s' /\
    ecs_get_component s' k c = (true, (text d, toks 0 d)) /\ matches s' k r = false /\
    forall k' n', (k', n') <> (k, syscomp) -> (k', n') <> (k, c) -> ecs_get_component s' k' n' = ecs_get_component s k' n'.
Proof.
  intros Hw Hk Hin Hr.
  assert (H : jv_ok d = true /\ no_nul c /\ c <> syscomp /\ jv_null d = false /\
    system_call v f s k buffer eo = (let! s1 := ecs_set_component_datum s k c (Some (text d)) in ecs_advance_done s1 k)).
  { unfold defaults in Hin. repeat (apply elem_of_cons in Hin as [[= -> -> ->]|Hin]; [split_and!; [done|by apply no_nul_true|done|done|done]|]). by inv Hin. }
  destruct H as (Hd & Hn & Hne & Hnull & ->).
  destruct (attach_then_advance s k c d Hw Hk Hn Hd Hne) as (s' & ev & E & W & _ & G & Hfr).
  unfold got in G. rewrite Hnull in G. exists s', ev. split_and!; try done.
  apply (disallowed_no_match s' k r c Hr). by rewrite G.
Qed.

Lemma defaulters_set_defaults_witness :
  exists s' ev, system_call (Env [] None 0) defaulter_retry_for_fn ecs_new 3 [] [] = Ret (s', [ev]) /\ ecs_wf s' /\
    ecs_get_component s' 3 (bs "lightningd:retry_for") = (true, (bs "60", toks 0 (JPrim (bs "60")))) /\
    matches s' 3 (Registered (bs "x") [bs "lightningd:main-payment"] [bs "lightningd:retry_for"]) = false /\
    forall k' n', (k', n') <> (3%Z, syscomp) -> (k', n') <> (3%Z, bs "lightningd:retry_for") ->
      ecs_get_component s' k' n' = ecs_get_component (F := sysfn) ecs_new k' n'.
Proof.
  apply (defaulters_set_defaults (Env [] None 0) ecs_new 3 [] [] defaulter_retry_for_fn (bs "lightningd:retry_for") (JPrim (bs "60"))
    (Registered (bs "x") [bs "lightningd:main-payment"] [bs "lightningd:retry_for"])).
  - apply ecs_wf_new.
  - by apply u32_sample.
  - right. right. left.
  - left.
Defined.

(** [generate_nonce] attaches the 32 random bytes as a JSON string of hex
    digits, two per byte, and then no longer matches. *)
Theorem generate_nonce_attaches v (s : pecs) k :
  ecs_wf s -> is_u32 k ->
  exists s' ev, Nonce.generate_nonce v s k = Ret (s', [ev]) /\ ecs_wf s' /\
    ecs_get_component s' k (bs "lightningd:nonce")
      = (true, (quoted (hex_encode (random32 v)), toks 0 (JStr (hex_encode (random32 v))))) /\
    length (hex_encode (random32 v)) = 2 * length (random32 v) /\
    matches s' k (Registered (bs "lightningd:generate_nonce") [bs "lightningd:systems"] [bs "lightningd:nonce"]) = false.
Proof.
  intros Hw Hk. destruct (attach_then_advance s k (bs "lightningd:nonce") (JStr (hex_encode (random32 v))) Hw Hk) as (s' & ev & E & W & _ & G & _);
    [by apply no_nul_true|apply hex_encode_ok|done|].
  exists s', ev. split_and!; [exact E|done|exact G|apply hex_encode_length|].
  apply (disallowed_no_match s' k _ (bs "lightningd:nonce")); [left|by rewrite G].
Qed.

Lemma generate_nonce_attaches_witness :
  let v := Env (repeat (chr 171) 32) None 0 in
  exists s' ev, Nonce.generate_nonce v ecs_new 3 = Ret (s', [ev]) /\ ecs_wf s' /\
    ecs_get_component s' 3 (bs "lightningd:nonce")
      = (true, (quoted (hex_encode (random32 v)), toks 0 (JStr (hex_encode (random32 v))))) /\
    length (hex_encode (random32 v)) = 2 * length (random32 v) /\
    matches s' 3 (Registered (bs "lightningd:generate_nonce") [bs "lightningd:systems"] [bs "lightningd:nonce"]) = false.
Proof.
  apply (generate_nonce_attaches (Env (repeat (chr 171) 32) None 0) ecs_new 3).
  - apply ecs_wf_new.
  - by apply u32_sample.
Defined.

(** [invoice_amount_msat] moves the invoice's amount: the component
    [lightningd:amount] gets the value that came with the message, and
    [lightningd:invoice:amount_msat] is gone, which is what keeps it and the
    failing system from matching again. *)
Theorem invoice_amount_moves (s : pecs) k buffer eo v u :
  ecs_wf s -> is_u32 k -> holds buffer eo v -> field_of v (bs "lightningd:invoice:amount_msat") = Some u ->
  exists s' ev, InvoiceAmount.invoice_amount_msat s k buffer eo = Ret (s', [ev]) /\ ecs_wf s' /\
    ecs_get_component s' k (bs "lightningd:amount") = got u /\
    ecs_get_component s' k (bs "lightningd:invoice:amount_msat") = got_none /\
    forall k' n', (k', n') <> (k, syscomp) -> (k', n') <> (k, bs "lightningd:amount") ->
      (k', n') <> (k, bs "lightningd:invoice:amount_msat") -> ecs_get_component s' k' n' = ecs_get_component s k' n'.
Proof.
  intros Hw Hk Hh Hf. unfold InvoiceAmount.invoice_amount_msat.
  destruct (get_field_some _ _ _ _ _ Hh Hf) as (t & -> & Ht). rewrite ecs_datum_null.
  destruct (ecs_clear s k (bs "lightningd:invoice:amount_msat") Hw) as (s1 & -> & W1 & _ & G1). cbn [obind].
  destruct (ecs_set_holds s1 k (bs "lightningd:amount") buffer t u W1 Hk ltac:(by apply no_nul_true) Ht) as (s2 & -> & W2 & _ & G2). cbn [obind].
  destruct (ecs_advance_done_returns s2 k W2 Hk) as (s' & ev & E & W' & _ & G'). exists s', ev. split_and!; [done|done|..].
  - rewrite G' by (intros [=]). rewrite G2. by rewrite decide_True.
  - rewrite G' by (intros [=]). rewrite G2, decide_False by (intros [=]). rewrite G1. by rewrite decide_True.
  - intros k' n' H1 H2 H3. rewrite G' by done. rewrite G2, decide_False by done. rewrite G1. by rewrite decide_False.
Qed.

Definition amount_msg : jv := entity_obj 3 [(bs "lightningd:invoice:amount_msat", JStr (bs "10msat"))].

Lemma invoice_amount_moves_witness :
  exists s' ev, InvoiceAmount.invoice_amount_msat ecs_new 3 (text amount_msg) (toks 0 amount_msg) = Ret (s', [ev]) /\ ecs_wf s' /\
    ecs_get_component s' 3 (bs "lightningd:amount") = got (JStr (bs "10msat")) /\
    ecs_get_component s' 3 (bs "lightningd:invoice:amount_msat") = got_none /\
    forall k' n', (k', n') <> (3%Z, syscomp) -> (k', n') <> (3%Z, bs "lightningd:amount") ->
      (k', n') <> (3%Z, bs "lightningd:invoice:amount_msat") -> ecs_get_component s' k' n' = ecs_get_component (F := sysfn) ecs_new k' n'.
Proof.
  apply (invoice_amount_moves ecs_new 3 (text amount_msg) (toks 0 amount_msg) amount_msg (JStr (bs "10msat"))).
  - apply ecs_wf_new.
  - by apply u32_sample.
  - apply (holds_self amount_msg). reflexivity.
  - reflexivity.
Defined.

(** A successful [decode] attaches each field of the result to the entity
    as [lightningd:invoice:FIELD] (the last one of a repeated field wins, a null
    field is detached) and leaves every other entity alone. *)
Theorem decode_ok_attaches_fields (s : pecs) k buf res w ms :
  ecs_wf s -> is_u32 k -> holds buf res (JObj w ms) ->
  exists s' ev, ParseInvoice.parse_invoice_decode_ok s k buf res = Ret (s', [ev]) /\ ecs_wf s' /\
    (forall n, n <> syscomp -> ecs_get_component s' k n = attach_all (ecs_get_component s k) ms n) /\
    (forall k' n, k' <> k -> ecs_get_component s' k' n = ecs_get_component s k' n).
Proof.
  intros Hw Hk Hh. destruct (holds_obj _ _ _ _ Hh) as [HF _]. unfold ParseInvoice.parse_invoice_decode_ok.
  destruct (invoice_fields_loop buf k _ ms s Hw Hk HF) as (s1 & -> & W1 & _ & G1 & F1). cbn [obind].
  destruct (ecs_advance_done_returns s1 k W1 Hk) as (s' & ev & E & W' & _ & G'). exists s', ev. split_and!; [done|done|..].
  - intros n Hn. rewrite G' by congruence. apply G1.
  - intros k' n Hne. rewrite G' by congruence. by apply F1.
Qed.

Definition decoded : jv := JObj [] [Member0 (bs "type") (JStr (bs "bolt11 invoice")); Member0 (bs "valid") (JPrim (bs "true"))].

Lemma decode_ok_attaches_fields_witness :
  exists s' ev, ParseInvoice.parse_invoice_decode_ok ecs_new 3 (text decoded) (toks 0 decoded) = Ret (s', [ev]) /\ ecs_wf s' /\
    (forall n, n <> syscomp -> ecs_get_component s' 3 n = attach_all (ecs_get_component (F := sysfn) ecs_new 3)
       [Member0 (bs "type") (JStr (bs "bolt11 invoice")); Member0 (bs "valid") (JPrim (bs "true"))] n) /\
    (forall k' n, k' <> 3%Z -> ecs_get_component s' k' n = ecs_get_component (F := sysfn) ecs_new k' n).
Proof.
  apply (decode_ok_attaches_fields ecs_new 3 (text decoded) (toks 0 decoded) []).
  - apply ecs_wf_new.
  - by apply u32_sample.
  - apply (holds_self decoded). reflexivity.
Defined.

(** [promote_invoice_type] never attaches the component that it is
    registered as disallowing: an entity that matched it before it ran matches
    it again afterwards, so that an advance selects it over and over. *)
Theorem promote_matches_again (s : pecs) k buffer eo v ty r :
  ecs_wf s -> is_u32 k -> holds buffer eo v -> field_of v (bs "lightningd:invoice:type") = Some (JStr ty) ->
  requiredComponents r = [bs "lightningd:invoice:type"] ->
  disallowedComponents r = [bs "lightningd:promote_invoice_type:ran"] ->
  matches s k r = true ->
  exists s' ev, ParseInvoice.promote_invoice_type s k buffer eo = Ret (s', [ev]) /\ ecs_wf s' /\
    ecs_get_component s' k (bs "lightningd:invoice:type:" ++ ty) = got (JPrim (bs "true")) /\ matches s' k r = true.
Proof.
  intros Hw Hk Hh Hf Hreq Hdis Hm. unfold ParseInvoice.promote_invoice_type.
  destruct (get_field_some _ _ _ _ _ Hh Hf) as (t & -> & Ht). rewrite (strdup_holds _ _ _ Ht). set (n := bs "lightningd:invoice:type:" ++ ty).
  assert (Hty : no_nul ty) by (apply str_ok_no_nul; by destruct Ht as (? & ? & ? & _ & _ & _ & ?)).
  assert (Hn : no_nul n) by (apply Forall_app; split; [by apply no_nul_true|done]).
  destruct (attach_then_advance s k n (JPrim (bs "true")) Hw Hk Hn eq_refl ltac:(intros [=])) as (s' & ev & E & W & _ & G & Hfr).
  exists s', ev. split_and!; [exact E|done|exact G|].
  apply (system_matches_iff (ecs_ec s) k r) in Hm as (Hne & Ha & Hd). apply (system_matches_iff (ecs_ec s') k r).
  unfold attached in *. simpl in *. unfold ecs_get_component in Hfr. rewrite Hreq, Hdis in *. split_and!; [done|..].
  - intros c ->%list_elem_of_singleton. rewrite Hfr; [apply Ha; left|intros [=]|intros [=]].
  - intros c ->%list_elem_of_singleton. rewrite Hfr; [apply Hd; left|intros [=]|intros [=]].
Qed.

Definition type_value : jv := JStr (bs "bolt11 invoice").

Definition type_msg : jv := entity_obj 3 [(bs "lightningd:invoice:type", type_value)].

(** The table after the component has been attached to a new one. *)
Definition typed_table : pecs :=
  Ecs (Ec 1 (Some (ILeaf 3 (Some (SLeaf (bs "lightningd:invoice:type") (cell_of (bs "lightningd:invoice:type") type_value)))))) strmap_init strmap_init.

Lemma typed_table_wf : ecs_wf typed_table.
Proof.
  destruct (ecs_set_holds (F := sysfn) ecs_new 3 (bs "lightningd:invoice:type") (text type_value) (toks 0 type_value) type_value) as (s & E & W & _);
    [apply ecs_wf_new|by apply u32_sample|by apply no_nul_true|by apply holds_self|].
  assert (Es : s = typed_table) by (vm_compute in E; by simplify_eq). by subst s.
Qed.

Definition promote_reg : ecsys_registered :=
  Registered (bs "lightningd:promote_invoice_type") [bs "lightningd:invoice:type"] [bs "lightningd:promote_invoice_type:ran"].

Lemma promote_matches_again_witness :
  exists s' ev, ParseInvoice.promote_invoice_type typed_table 3 (text type_msg) (toks 0 type_msg) = Ret (s', [ev]) /\ ecs_wf s' /\
    ecs_get_component s' 3 (bs "lightningd:invoice:type:bolt11 invoice") = got (JPrim (bs "true")) /\ matches s' 3 promote_reg = true.
Proof.
  apply (promote_matches_again typed_table 3 (text type_msg) (toks 0 type_msg) type_msg (bs "bolt11 invoice") promote_reg).
  - apply typed_table_wf.
  - by apply u32_sample.
  - apply (holds_self type_msg). reflexivity.
  - reflexivity.
  - reflexivity.
  - reflexivity.
  - vm_compute. reflexivity.
Defined.
