(* ===== verification/PayecsTheorems.v ===== *)
(** The properties of the commands of payecs_data.c and payecs_code.c. *)
From S2P Require Import Prelude Utf8 Jsmn JsonTree JsmnProofs Json JsonProofs.
From S2P Require Import JsonEqual JsonOut JsonOutProofs JsonScan JsonScanProofs Libplugin Param.
From S2P Require Import Strmap Intmap Ec EcProofs Setsystems Ecsys EcsysProofs Ecs.
From S2P Require Import Systems PayecsData PayecsCode PayecsProofs Replies.

(** * payecs_setcomponents *)


(** C40.  The deletion loop of an exact write deletes [components[i]], with the
    index [i] of the write: of the entity's components only that one is deleted,
    any other one the write does not name survives, and with an index past the
    entity's last component the array is read out of its bounds. *)
Theorem exact_write_deletes_one buf (s : pecs) i w cs :
  ecs_wf s -> ws_good buf w -> ws_exact w = true -> ecs_get_components s (ws_entity w) = Ret (Some cs) -> cs <> [] ->
  match cs !! i with
  | Some c => exists s', write1 buf s (i, w) = Ret s' /\ ecs_wf s' /\
      forall n, n <> c -> strmap_to_map (ws_components w) !! n = None ->
        ecs_get_component s' (ws_entity w) n = ecs_get_component s (ws_entity w) n
  | None => write1 buf s (i, w) = Abort "payecs_setcomponents: components[i] out of range"
  end.
Proof.
  intros Hs (Hk & Wc & Hc) HE Hcs Hne. unfold write1. rewrite HE, Hcs. cbn [obind default]. unfold id.
  assert (Hseq : seq 0 (length cs) <> []) by (by destruct cs).
  destruct (cs !! i) as [c|] eqn:Ei.
  - destruct (delete_rounds (ws_entity w) cs i c Ei _ s Hs Hseq) as (s1 & E & W1 & _ & G1). simpl in *. rewrite E. cbn [obind].
    destruct (iterate_write s1 _ buf _ W1 Hk Wc Hc) as (s' & -> & W & _ & _ & Gf). exists s'. split_and!; [done..|].
    intros n Hn Hl. rewrite Gf by (by right). rewrite G1. case_decide as Hd; [by injection Hd|done].
  - destruct (seq 0 (length cs)) as [|j js]; [done|]. cbn [ofold]. unfold delete_round at 1. by rewrite Ei.
Qed.

(** A table with two components on entity 1. *)
Definition two_cells : pecs :=
  Ecs (Ec 1 (Some (ILeaf 1 (strmap_add (strmap_add strmap_init (bs "a") (cell_of (bs "a") (JPrim (bs "1")))).2 (bs "b") (cell_of (bs "b") (JPrim (bs "2")))).2)))
    strmap_init strmap_init.

Lemma two_cells_wf : ecs_wf two_cells.
Proof.
  assert (Hk : is_u32 1) by done.
  destruct (ecs_set_holds (F := sysfn) ecs_new 1 (bs "a") _ _ (JPrim (bs "1")) ecs_wf_new Hk ltac:(by apply no_nul_true) (holds_self (JPrim (bs "1")) eq_refl)) as (s1 & E1 & W1 & _).
  destruct (ecs_set_holds s1 1 (bs "b") _ _ (JPrim (bs "2")) W1 Hk ltac:(by apply no_nul_true) (holds_self (JPrim (bs "2")) eq_refl)) as (s2 & E2 & W2 & _).
  assert (E : s2 = two_cells) by (vm_compute in E1; simplify_eq; vm_compute in E2; by simplify_eq). by subst s2.
Qed.




(** An exact write with the index 0 of one component keeps [b]. *)
Definition exact_spec : payecs_writespec := WriteSpec 1 true strmap_init 0.

Lemma exact_write_deletes_one_witness :
  exists s', write1 [] two_cells (0, exact_spec) = Ret s' /\ ecs_wf s' /\
    forall n, n <> bs "a" -> strmap_to_map (ws_components exact_spec) !! n = None ->
      ecs_get_component s' 1 n = ecs_get_component two_cells 1 n.
Proof.
  apply (exact_write_deletes_one [] two_cells 0 exact_spec [bs "a"; bs "b"]).
  - apply two_cells_wf.
  - split; [done|]. split; [done|]. intros n t [=].
  - reflexivity.
  - vm_compute. reflexivity.
  - discriminate.
Defined.

(** * payecs_listentities *)




(** * External systems *)

(** Registering an external system: a name that is not known is added to
    the handler and to the registry; the same declaration again is accepted and
    changes nothing; a known name with another declaration, or the name of a
    built-in system, is refused and changes nothing. *)
Theorem payecs_register_outcome (p : payz) n required disallowed :
  payz_wf p -> no_nul n -> (required = [] -> disallowed = []) ->
  match strmap_to_map (payecs_registry p) !! n, sysmap (top_ecs p) !! n with
  | Some x, _ => payecs_register p n required disallowed =
      Ret (bool_decide (required = x_required x /\ disallowed = x_disallowed x), p)
  | None, Some _ => payecs_register p n required disallowed = Ret (false, p)
  | None, None => exists p', payecs_register p n required disallowed = Ret (true, p') /\ payz_wf p' /\
      ecs_ec (top_ecs p') = ecs_ec (top_ecs p) /\
      sysmap (top_ecs p') = <[n := Registered n required disallowed]> (sysmap (top_ecs p)) /\
      strmap_to_map (payecs_registry p') = <[n := External n required disallowed]> (strmap_to_map (payecs_registry p))
  end.
Proof.
  intros Hp Hn Hrd. destruct (strmap_to_map (payecs_registry p) !! n) as [x|] eqn:Ex; [by apply register_known|].
  destruct (sysmap (top_ecs p) !! n) as [r|] eqn:Er; [by apply register_builtin; [..|eexists]|by apply register_new].
Qed.

(** The globals before any built-in system is registered. *)
Definition blank : payz := Payz ecs_new [] strmap_init SYSTRACE_MAX [].

Lemma blank_wf : payz_wf blank.
Proof. split; [apply ecs_wf_new|by intros n Hn; inv Hn|by intros n w c [=]|done|by intros n x [=]|by split]. Qed.

Lemma payecs_register_outcome_witness :
  exists p', payecs_register blank (bs "mine") [bs "a"] [bs "b"] = Ret (true, p') /\ payz_wf p' /\
    ecs_ec (top_ecs p') = ec_new /\
    sysmap (top_ecs p') = <[bs "mine" := Registered (bs "mine") [bs "a"] [bs "b"]]> (sysmap (top_ecs blank)) /\
    strmap_to_map (payecs_registry p') = <[bs "mine" := External (bs "mine") [bs "a"] [bs "b"]]> (strmap_to_map (payecs_registry blank)).
Proof.
  apply (payecs_register_outcome blank (bs "mine") [bs "a"] [bs "b"]).
  - apply blank_wf.
  - apply no_nul_true. reflexivity.
  - discriminate.
Defined.

(** * The trace *)

(** Tracing a triggered system, for any message: the trace never has more
    than 100000 entries, the table is not touched, and what changes is that one
    entry is added at the end, the oldest one making room when it is full. *)
Theorem systrace_bounded time (p : payz) buf tk v :
  payz_wf p -> holds buf tk v ->
  exists p' evs, payecs_systrace_add time p buf tk = Ret (p', evs) /\ payz_wf p' /\ top_ecs p' = top_ecs p /\
    (Z.of_nat (length (payecs_systraces p')) <= 100000)%Z /\
    (payecs_systraces p' = payecs_systraces p \/ payecs_systraces p' = tl (payecs_systraces p) \/
     exists entry, payecs_systraces p' =
       (if (payecs_systraces_remaining p =? 0)%Z then tl (payecs_systraces p) else payecs_systraces p) ++ [entry]).
Proof.
  intros Hp Hh. destruct (trace_add_spec time p buf tk v Hp Hh) as (p' & evs & E & W & T & C).
  exists p', evs. split_and!; try done. destruct (wf_trace p' W) as [H1 H2]. unfold SYSTRACE_MAX in H2. lia.
Qed.

Definition trace_msg : jv := invoke_params (bs "mine") 3 [(bs "a", JPrim (bs "1"))].

Lemma systrace_bounded_witness :
  exists p' evs, payecs_systrace_add (bs "now") blank (text trace_msg) (toks 0 trace_msg) = Ret (p', evs) /\ payz_wf p' /\ top_ecs p' = top_ecs blank /\
    (Z.of_nat (length (payecs_systraces p')) <= 100000)%Z /\
    (payecs_systraces p' = [] \/ payecs_systraces p' = [] \/ exists entry, payecs_systraces p' = [] ++ [entry]).
Proof.
  apply (systrace_bounded (bs "now") blank (text trace_msg) (toks 0 trace_msg) trace_msg).
  - apply blank_wf.
  - apply (holds_self trace_msg). reflexivity.
Defined.

(** * payecs_advance *)

(** [payecs_advance] answers every request that names an entity, and the
    assertion that re-reads the failure's message never fires: either a system
    was triggered, its message sent and the reply is empty, or nothing was sent
    and the reply has the error's code, one of the two documented ones.  The
    invariant holds afterwards. *)
Theorem advance_command_replies id (p : payz) buf params v args :
  payz_wf p -> holds buf params v -> param_ buf params advance_params = inr args ->
  exists p', payz_wf p' /\
    ((exists b, payecs_advance id p buf params = Ret (p', [Sent b; message (reply id (JObj [] []))])) \/
     (exists code msg, (code = 2200 \/ code = 2201)%Z /\
        payecs_advance id p buf params = Ret (p', [message (error_reply id code msg)]))).
Proof.
  intros Hp Hh Ha. destruct (param_args _ _ _ advance_params _ Hh ltac:(repeat constructor) Ha) as (HL & HA & HR).
  destruct (HR 0 ltac:(simpl; lia)) as [k Hk]. { intros [|j] q Hj Hq; [by injection Hq as <-|lia]. }
  destruct args as [|a [|]]; try done. injection Hk as ->.
  destruct (HA 0 k eq_refl) as (q & t & u & [= <-] & Ht & Hc). apply param_number_u32 in Hc as Hu.
  unfold payecs_advance. rewrite Ha. unfold ecs_advance.
  pose proof (wf_top p Hp) as Ht'. destruct (advance_cases _ _ k (ec_inv _ (wf_ec _ Ht')) (wf_ecsys _ Ht') Hu) as (ms & [(i & s & e' & vs & E & We & _)|(code & msg & Hcode & Hm & e' & E & We & Hf & _)]).
  - exists (with_ecs p (with_ec (top_ecs p) e')). split; [by apply payz_wf_with|]. left. eexists. rewrite E. cbn [obind]. unfold empty_reply. by rewrite success_obj.
  - exists (with_ecs p (with_ec (top_ecs p) e')). split; [by apply payz_wf_with|]. right. exists code, (printed msg). split; [by destruct Hcode as [-> | ->]; [left|right]|]. rewrite E. cbn [obind].
    destruct (error_message_scan e' k ms code msg Hf Hm) as (b & tk & Hg & HS). unfold ecs_get_component. cbn [with_ec ecs_ec]. simpl in Hg. unfold syscomp in Hg. rewrite Hg.
    unfold str_arg. rewrite HS. cbn [obind]. by rewrite fail_obj by (apply str_ok_no_nul; by apply cstr_printed).
Qed.

Lemma advance_command_replies_witness :
  exists p', payz_wf p' /\
    ((exists b, payecs_advance 7 blank (bs "[3]") (toks 0 (JArr [] [Elem0 (JPrim (bs "3"))])) = Ret (p', [Sent b; message (reply 7 (JObj [] []))])) \/
     (exists code msg, (code = 2200 \/ code = 2201)%Z /\
        payecs_advance 7 blank (bs "[3]") (toks 0 (JArr [] [Elem0 (JPrim (bs "3"))])) = Ret (p', [message (error_reply 7 code msg)]))).
Proof.
  apply (advance_command_replies 7 blank (bs "[3]") (toks 0 (JArr [] [Elem0 (JPrim (bs "3"))])) (JArr [] [Elem0 (JPrim (bs "3"))]) [Some 3%Z]).
  - apply blank_wf.
  - apply (holds_self (JArr [] [Elem0 (JPrim (bs "3"))])). reflexivity.
  - vm_compute. reflexivity.
Defined.
