(* ===== verification/JsonTheorems.v ===== *)
(** The properties of the JSON layer: the tokenizer and its validation, access
    to tokens, comparison, output, numbers and [json_scan]. *)
From S2P Require Import Prelude Utf8 Jsmn JsonTree JsmnProofs Json JsonProofs.
From S2P Require Import JsonEqual JsonOut JsonOutProofs JsonScan JsonScanProofs.

(** A value with an array, a string and a number, and odd spacing. *)
Definition sample : jv :=
  JObj [] [Member (bs " ") (bs "a") [] (bs " ") (JArr [] [Elem0 (JPrim (bs "1")); Elem0 (JStr (bs "x"))]) [];
           Member0 (bs "b") (JPrim (bs "null"))].

(** C13.  Parsing is the inverse of printing: the text of any JSON value, with
    any white space around it, parses to exactly the tokens of that value (type,
    offsets and number of children of each, in document order), followed by the
    end marker. *)
Theorem json_parse_roundtrip w1 v w2 :
  ws_ok w1 = true -> ws_ok w2 = true -> jv_ok v = true ->
  json_parse_simple (w1 ++ text v ++ w2) (length (w1 ++ text v ++ w2)) = Some (toks (len w1) v ++ [end_tok]).
Proof. apply json_parse_simple_value. Qed.

Lemma json_parse_roundtrip_witness :
  json_parse_simple (bs " " ++ text sample ++ bs " ") (length (bs " " ++ text sample ++ bs " ")) = Some (toks 1 sample ++ [end_tok]).
Proof. apply (json_parse_roundtrip (bs " ") sample (bs " ")); reflexivity. Defined.

(** C39.  The loop that doubles the token array ends for every input, well
    formed or not: it stops within [n + 2] attempts, never because of a lack of
    tokens, and with the result of one pass over an array that is large enough. *)
Theorem parser_doubling_terminates input n :
  exists r p ntoks, parse_again (S (S n)) jsmn_init input n TOKS_ALLOC = Some (r, p, ntoks) /\ r <> JSMN_ERROR_NOMEM /\
    jsmn_parse jsmn_init input n (n + TOKS_ALLOC) = (r, p).
Proof.
  destruct (parse_again_result (S (S n)) jsmn_init input n TOKS_ALLOC) as (nt & -> & _);
    [unfold sparse; simpl; lia|unfold TOKS_ALLOC; lia..|].
  destruct (jsmn_parse jsmn_init input n (n + TOKS_ALLOC)) as [r p] eqn:E. exists r, p, nt. split_and!; [done| |done].
  intros ->. apply parse_nomem in E; [|unfold sparse; simpl; lia]. unfold TOKS_ALLOC in E. lia.
Qed.

(** C33.  [json_equal] decides equality of JSON values, for values without
    repeated keys: the same primitives and strings, arrays that agree position
    by position, and objects that agree up to the order of their members,
    whatever the white space.  In particular it always returns. *)
Theorem json_equal_decides b1 t1 v1 b2 t2 v2 :
  holds b1 t1 v1 -> holds b2 t2 v2 -> uniq v1 = true -> uniq v2 = true ->
  exists r, json_equal b1 t1 b2 t2 = Ret r /\ (r = true <-> veq v1 v2).
Proof.
  intros H1 H2 U1 U2. exists (jequal v1 v2). split; [by apply json_equal_spec|by apply jequal_iff].
Qed.

Definition swapped : jv :=
  JObj [] [Member0 (bs "b") (JPrim (bs "null")); Member0 (bs "a") (JArr [] [Elem0 (JPrim (bs "1")); Elem0 (JStr (bs "x"))])].

Lemma json_equal_decides_witness :
  exists r, json_equal (text sample) (toks 0 sample) (text swapped) (toks 0 swapped) = Ret r /\ (r = true <-> veq sample swapped).
Proof.
  apply (json_equal_decides (text sample) (toks 0 sample) sample (text swapped) (toks 0 swapped) swapped).
  - exists [], [], []. rewrite !app_nil_r. done.
  - exists [], [], []. rewrite !app_nil_r. done.
  - reflexivity.
  - reflexivity.
Defined.

(** * Output *)

(** An object of strings, as a command builds it. *)
Definition print_strings (l : list (bytes * bytes)) : bytes :=
  outbuf (json_object_end (foldl (fun js kv => json_add_string js (Some kv.1) kv.2) (json_object_start new_json_stream None) l)).

Lemma in_obj_strings l : forall js base ms, Forall (fun kv => no_nul kv.2) l -> in_obj js base ms ->
  in_obj (foldl (fun js kv => json_add_string js (Some kv.1) kv.2) js l) base (ms ++ map (fun kv => Member0 kv.1 (JStr (printed kv.2))) l).
Proof.
  induction l as [|[k s] l IH]; intros js base ms HF HI; cbn [foldl map]; [by rewrite app_nil_r|].
  apply Forall_cons in HF as [Hs HF]. pose proof (IH _ base (ms ++ [Member0 k (JStr (printed s))]) HF (in_obj_string _ _ _ k s HI Hs)) as H.
  by rewrite <- app_assoc in H.
Qed.

(** What a printed string can be unescaped from: no control bytes but those with
    a letter of their own. *)
Definition printable (s : bytes) : Prop := no_nul s /\ utf8_check s = true /\ forallb short_escape s = true.

(** Strings survive output and input: an object built with
    [json_add_string] parses, and looking up a key and unescaping the token gives
    back the string that was added first for the key. *)
Theorem stream_strings_roundtrip (l : list (bytes * bytes)) k s :
  Forall (fun kv => str_ok kv.1 = true /\ printable kv.2) l ->
  List.find (fun kv => bool_decide (kv.1 = k)) l = Some (k, s) ->
  exists tk t, json_parse_simple (print_strings l) (length (print_strings l)) = Some tk /\
    json_get_member (print_strings l) tk k = Some t /\ json_escape_unescape (tok_text (print_strings l) (cur t)) = Some s.
Proof.
  intros HF Hk. set (ms := map (fun kv => Member0 kv.1 (JStr (printed kv.2))) l).
  assert (Ht : print_strings l = text (JObj [] ms)).
  { apply in_obj_end, (in_obj_strings l _ (bs "{") []); [|apply in_obj_new]. eapply Forall_impl; [done|by intros kv (_ & ? & _)]. }
  assert (Hok : jv_ok (JObj [] ms) = true).
  { unfold ms. pose proof (jv_ok_obj0 (map (fun kv => (kv.1, JStr (printed kv.2))) l)) as H. rewrite map_map in H. apply H.
    apply Forall_fmap. eapply Forall_impl; [done|]. intros kv (Hs & Hn & Hu & _). split; [done|]. by apply printed_ok. }
  rewrite Ht. exists (toks 0 (JObj [] ms) ++ [end_tok]).
  pose proof (json_get_member_holds [] [] ms [] [end_tok] k Hok) as HG. rewrite app_nil_r in HG. cbn [app] in HG.
  assert (Hm : member_of ms k = Some (JStr (printed s))).
  { unfold ms, member_of. clear -Hk. induction l as [|[k' s'] l IH]; [done|]. cbn in *. case_bool_decide; [by injection Hk as _ ->|by apply IH]. }
  rewrite Hm in HG. inv HG as [t ? Hh Eg|]. exists t. split_and!; [by apply parse_printed|done|].
  destruct (holds_cur _ _ _ Hh) as (_ & _ & _ & ->). apply unescape_escape.
  apply List.find_some in Hk as [Hin _]. rewrite List.Forall_forall in HF. by destruct (HF _ Hin) as (_ & _ & _ & ?).
Qed.

Lemma stream_strings_roundtrip_witness :
  exists tk t, json_parse_simple (print_strings [(bs "msg", [LF; DQUOTE])]) (length (print_strings [(bs "msg", [LF; DQUOTE])])) = Some tk /\
    json_get_member (print_strings [(bs "msg", [LF; DQUOTE])]) tk (bs "msg") = Some t /\
    json_escape_unescape (tok_text (print_strings [(bs "msg", [LF; DQUOTE])]) (cur t)) = Some [LF; DQUOTE].
Proof.
  apply (stream_strings_roundtrip [(bs "msg", [LF; DQUOTE])] (bs "msg") [LF; DQUOTE]).
  - constructor; [|constructor]. split; [reflexivity|]. split; [apply no_nul_true; reflexivity|]. split; reflexivity.
  - reflexivity.
Defined.

(** Numbers survive output and input at their width: the decimal text of a
    64-bit value reads back as that value, and [json_to_u32] of it is the value
    when it fits in 32 bits and a failure when it does not. *)
Theorem json_number_roundtrip pre z post rest :
  (0 <= z < u64_mod)%Z -> delim_next post ->
  let buf := pre ++ text (JPrim (fmt_u z)) ++ post in
  let tk := toks (len pre) (JPrim (fmt_u z)) ++ rest in
  json_to_u64 false buf tk = Some z /\ json_to_u32 buf tk = if (z <? u32_mod)%Z then Some z else None.
Proof.
  intros Hz Hp buf tk. assert (H : json_to_u64 false buf tk = Some z) by (by apply json_to_u64_fmt). split; [done|].
  unfold json_to_u32. rewrite H. unfold fits. destruct (Z.ltb_spec z u32_mod) as [Hl|Hl].
  - by rewrite Z.mod_small, Z.eqb_refl by lia.
  - rewrite (proj2 (Z.eqb_neq _ _)); [done|]. pose proof (Z.mod_pos_bound z u32_mod eq_refl). lia.
Qed.

Lemma json_number_roundtrip_witness :
  let buf := bs "[" ++ text (JPrim (fmt_u 4294967296)) ++ bs "]" in
  let tk := toks 1 (JPrim (fmt_u 4294967296)) ++ [] in
  json_to_u64 false buf tk = Some 4294967296%Z /\ json_to_u32 buf tk = if (4294967296 <? u32_mod)%Z then Some 4294967296%Z else None.
Proof. apply (json_number_roundtrip (bs "[") 4294967296 (bs "]") []); [done|reflexivity]. Defined.

(** [json_scan] with a nested field in the guide: it gives the conversion of
    the value of that field, and an error message, not a failure, when a field is
    missing or the conversion refuses the value. *)
Theorem json_scan_nested {V : Type} buf tk v f g (a : scan_arg V) :
  holds buf tk v -> forallb literal_char f = true -> forallb literal_char g = true ->
  match field_of v f ≫= fun u => field_of u g with
  | None => exists m, json_scan buf tk (bs "{" ++ f ++ bs ":{" ++ g ++ bs ":%}}") [a] = Ret (inl m)
  | Some u => exists t, holds buf t u /\
      match fmt a buf t with
      | Some x => json_scan buf tk (bs "{" ++ f ++ bs ":{" ++ g ++ bs ":%}}") [a] = Ret (inr [x])
      | None => exists m, json_scan buf tk (bs "{" ++ f ++ bs ":{" ++ g ++ bs ":%}}") [a] = Ret (inl m)
      end
  end.
Proof. apply scan_field2. Qed.

Definition nested : jv := JObj [] [Member0 (bs "error") (JObj [] [Member0 (bs "code") (JPrim (bs "7"))])].

Lemma json_scan_nested_witness :
  exists t, holds (text nested) t (JPrim (bs "7")) /\
    match json_to_u32 (text nested) t with
    | Some x => json_scan (text nested) (toks 0 nested) (bs "{error:{code:%}}") [ScanArg (bs "json_to_u32") json_to_u32] = Ret (inr [x])
    | None => exists m, json_scan (text nested) (toks 0 nested) (bs "{error:{code:%}}") [ScanArg (bs "json_to_u32") json_to_u32] = Ret (inl m)
    end.
Proof.
  apply (json_scan_nested (text nested) (toks 0 nested) nested (bs "error") (bs "code") (ScanArg (bs "json_to_u32") json_to_u32)).
  - exists [], [], []. rewrite !app_nil_r. done.
  - reflexivity.
  - reflexivity.
Defined.
